(* ===== verification/_CoqProject ===== *)
-Q . S2P
Prelude.v
Fixed.v
Names.v
Context.v
PixelFormat.v
Surface.v
PixelFlinger.v
Picker.v
Clear.v
Iterators.v
Pipeline.v
Shortcuts.v
Scanline.v
Trap.v
TrapSpec.v
Raster.v
AAPoly.v
PipelineSpec.v
SharedBuffer.v
Vector.v
VectorSpec.v
Sequence.v
SortedVector.v
KeyedVector.v
Tokenizer.v
BufferObjects.v
TextureObjects.v
TextureManager.v
Mipmap.v
Palette.v
Float.v
Vertex.v
Clipping.v
Arrays.v
Assembly.v
VertexCache.v
AssemblyEnds.v
Light.v
Lerp.v
Primitives.v
Rendering.v
Drawing.v
Matrix.v
OGLES.v
Transforms.v
State.v
Texture.v
Transfer.v
Draw.v
