(* ===== verification/Prelude.v ===== *)
(** * rabbitrender: prelude *)
From Stdlib Require Export ZArith Lia List Bool.
From stdpp Require Export base numbers list.

#[global] Open Scope Z_scope.

(** ** Machine integers

    [uN z] and [sN z] are the value a C++ expression of type [uintN_t] or
    [intN_t] has when its mathematical value is [z] (two's complement). *)

Definition u8 (z : Z) : Z := z mod 2 ^ 8.
Definition u16 (z : Z) : Z := z mod 2 ^ 16.
Definition u32 (z : Z) : Z := z mod 2 ^ 32.
Definition u64 (z : Z) : Z := z mod 2 ^ 64.
Definition s16 (z : Z) : Z := (z + 2 ^ 15) mod 2 ^ 16 - 2 ^ 15.
Definition s32 (z : Z) : Z := (z + 2 ^ 31) mod 2 ^ 32 - 2 ^ 31.
Definition s64 (z : Z) : Z := (z + 2 ^ 63) mod 2 ^ 64 - 2 ^ 63.

Definition is_u8 (z : Z) : Prop := 0 <= z < 2 ^ 8.
Definition is_u16 (z : Z) : Prop := 0 <= z < 2 ^ 16.
Definition is_u32 (z : Z) : Prop := 0 <= z < 2 ^ 32.
Definition is_s32 (z : Z) : Prop := - 2 ^ 31 <= z < 2 ^ 31.

(** Linear arithmetic over [/] and [mod] by constants, and over the wraps. *)
Ltac div_lia := Z.div_mod_to_equations; lia.
Ltac wrap_lia :=
  unfold u8, u16, u32, u64, s16, s32, s64, is_u8, is_u16, is_u32, is_s32 in *;
  Z.div_mod_to_equations; lia.

Create HintDb wrap.
Create Rewrite HintDb wrap.
Create Rewrite HintDb wrap_id.

Lemma u8_id z : is_u8 z -> u8 z = z.
Proof. apply Z.mod_small. Qed.
Lemma u16_id z : is_u16 z -> u16 z = z.
Proof. apply Z.mod_small. Qed.
Lemma u32_id z : is_u32 z -> u32 z = z.
Proof. apply Z.mod_small. Qed.
Lemma u64_id z : 0 <= z < 2 ^ 64 -> u64 z = z.
Proof. apply Z.mod_small. Qed.
Lemma s32_id z : is_s32 z -> s32 z = z.
Proof. wrap_lia. Qed.

Lemma u8_range z : is_u8 (u8 z).
Proof. apply Z.mod_pos_bound; lia. Qed.
Lemma u16_range z : is_u16 (u16 z).
Proof. apply Z.mod_pos_bound; lia. Qed.
Lemma u32_range z : is_u32 (u32 z).
Proof. apply Z.mod_pos_bound; lia. Qed.
Lemma s32_range z : is_s32 (s32 z).
Proof. wrap_lia. Qed.

Lemma s32_u32 z : s32 (u32 z) = s32 z.
Proof. wrap_lia. Qed.
Lemma u32_s32 z : u32 (s32 z) = u32 z.
Proof. wrap_lia. Qed.
Lemma u32_u32 z : u32 (u32 z) = u32 z.
Proof. apply u32_id, u32_range. Qed.
Lemma s32_s32 z : s32 (s32 z) = s32 z.
Proof. apply s32_id, s32_range. Qed.
Lemma s32_add_l a b : s32 (s32 a + b) = s32 (a + b).
Proof. wrap_lia. Qed.
Lemma s32_add_r a b : s32 (a + s32 b) = s32 (a + b).
Proof. wrap_lia. Qed.
Lemma s32_mul_l a b : s32 (s32 a * b) = s32 (a * b).
Proof.
  rewrite <-(s32_u32 (s32 a * b)), <-(s32_u32 (a * b)). f_equal. unfold u32.
  rewrite Zmult_mod. fold (u32 (s32 a)). rewrite u32_s32. unfold u32. by rewrite <-Zmult_mod.
Qed.
Lemma s32_mul_r a b : s32 (a * s32 b) = s32 (a * b).
Proof. by rewrite Z.mul_comm, s32_mul_l, Z.mul_comm. Qed.
Lemma s32_sub_l a b : s32 (s32 a - b) = s32 (a - b).
Proof. wrap_lia. Qed.
Lemma s32_opp_u32 q : s32 (- u32 q) = s32 (- q).
Proof. wrap_lia. Qed.

#[export] Hint Resolve u8_range u16_range u32_range s32_range : wrap.
#[export] Hint Rewrite s32_u32 u32_s32 u32_u32 s32_s32 s32_add_l s32_add_r
  s32_sub_l s32_opp_u32 : wrap.
#[export] Hint Rewrite u8_id u16_id u32_id s32_id using wrap_lia : wrap_id.

(** ** Bits *)

Lemma testbit_small z n i : 0 <= z < 2 ^ n -> n <= i -> Z.testbit z i = false.
Proof.
  intros [H0 H1] Hi. destruct (Z.eq_dec z 0) as [->|Hz]; [apply Z.bits_0|].
  assert (0 <= n) by (destruct (Z.lt_ge_cases n 0); [rewrite Z.pow_neg_r in H1; lia|lia]).
  apply Z.bits_above_log2; [lia|]. apply Z.log2_lt_pow2; [lia|].
  apply Z.lt_le_trans with (2 ^ n); [lia|]. apply Z.pow_le_mono_r; lia.
Qed.

Lemma bits_small z n :
  0 <= n -> (forall i, n <= i -> Z.testbit z i = false) -> 0 <= z < 2 ^ n.
Proof.
  intros Hn H. assert (z = z mod 2 ^ n) as ->.
  - apply Z.bits_inj'. intros i Hi. destruct (Z.lt_ge_cases i n).
    + by rewrite Z.mod_pow2_bits_low.
    + rewrite Z.mod_pow2_bits_high by lia. by apply H.
  - apply Z.mod_pos_bound. lia.
Qed.

Lemma u32_land z : u32 z = Z.land z (Z.ones 32).
Proof. unfold u32. by rewrite Z.land_ones. Qed.

Lemma u32_testbit z i :
  0 <= i -> Z.testbit (u32 z) i = (i <? 32) && Z.testbit z i.
Proof.
  intros Hi. unfold u32. destruct (Z.ltb_spec i 32).
  - by rewrite Z.mod_pow2_bits_low.
  - by rewrite Z.mod_pow2_bits_high by lia.
Qed.

Lemma ones_testbit n i : 0 <= n -> 0 <= i -> Z.testbit (Z.ones n) i = (i <? n).
Proof.
  intros. destruct (Z.ltb_spec i n); [apply Z.ones_spec_low|apply Z.ones_spec_high]; lia.
Qed.

Lemma lor_disjoint a b : Z.land a b = 0 -> Z.lor a b = a + b.
Proof. intros H. rewrite <-(Z.add_lor_land a b), H. lia. Qed.

Lemma land_mul_pow2_small a b n : 0 <= n -> 0 <= b < 2 ^ n -> Z.land (a * 2 ^ n) b = 0.
Proof.
  intros Hn Hb. apply Z.bits_inj'. intros i Hi. rewrite Z.land_spec, Z.bits_0.
  destruct (Z.lt_ge_cases i n).
  - by rewrite Z.mul_pow2_bits_low.
  - rewrite (testbit_small b n i) by lia. apply andb_false_r.
Qed.

(** [lor] of a multiple of [2^n] and an [n]-bit number is their sum. *)
Lemma lor_add_small a b n :
  0 <= n -> 0 <= b < 2 ^ n -> Z.lor (a * 2 ^ n) b = a * 2 ^ n + b.
Proof. intros. by apply lor_disjoint, land_mul_pow2_small. Qed.

(** A power-of-two bit below the bits of a multiple is added by [lor]. *)
Lemma lor_low_bit a e : 0 <= e -> Z.lor (a * 2 ^ (e + 1)) (2 ^ e) = a * 2 ^ (e + 1) + 2 ^ e.
Proof.
  intros He. apply lor_add_small; [lia|]. split; [lia|].
  apply Z.pow_lt_mono_r; lia.
Qed.

(** *** Shifts *)

Lemma shiftr_div (v n : Z) : 0 <= n -> Z.shiftr v n = v / 2 ^ n.
Proof. apply Z.shiftr_div_pow2. Qed.
Lemma shiftl_mul (v n : Z) : 0 <= n -> Z.shiftl v n = v * 2 ^ n.
Proof. apply Z.shiftl_mul_pow2. Qed.

Lemma land_pow2_pred (v n : Z) : 0 <= n -> Z.land v (Z.shiftl 1 n - 1) = v mod 2 ^ n.
Proof.
  intros Hn. rewrite <-Z.land_ones by done. done.
Qed.

Lemma lor_shift_add v n :
  0 <= n -> 0 <= v < 2 ^ n -> n + n <= 32 ->
  Z.lor v (u32 (Z.shiftl v n)) = v * (2 ^ n + 1).
Proof.
  intros Hn Hv H32.
  assert (2 ^ n * 2 ^ n <= 2 ^ 32) by (rewrite <-Z.pow_add_r by lia; apply Z.pow_le_mono_r; lia).
  rewrite shiftl_mul by done. rewrite u32_id by (unfold is_u32; nia).
  rewrite Z.lor_comm, lor_add_small by lia. lia.
Qed.

(** *** Packed fields

    A field is [(l, w, q)]: the [w]-bit number [q] at bit [l]. *)

Definition field_val (f : Z * Z * Z) : Z := let '(l, w, q) := f in q * 2 ^ l.
Definition field_ok (f : Z * Z * Z) : Prop :=
  let '(l, w, q) := f in 0 <= l /\ 0 <= w /\ 0 <= q < 2 ^ w.
Definition field_disjoint (f g : Z * Z * Z) : Prop :=
  let '(l, w, _) := f in let '(l', w', _) := g in
  l + w <= l' \/ l' + w' <= l \/ w = 0 \/ w' = 0.
Definition pack_fields (fs : list (Z * Z * Z)) (v : Z) : Z :=
  fold_left (fun v f => Z.lor v (field_val f)) fs v.

Lemma field_testbit l w q i :
  0 <= l -> 0 <= w -> 0 <= q < 2 ^ w -> 0 <= i ->
  Z.testbit (q * 2 ^ l) i = (l <=? i) && (i <? l + w) && Z.testbit q (i - l).
Proof.
  intros Hl Hw Hq Hi. destruct (Z.leb_spec l i); cbn [andb].
  - rewrite Z.mul_pow2_bits by done. destruct (Z.ltb_spec i (l + w)); [done|].
    apply (testbit_small q w); lia.
  - by rewrite Z.mul_pow2_bits_low.
Qed.

Lemma pack_fields_testbit fs v i :
  0 <= i -> Z.testbit (pack_fields fs v) i =
  Z.testbit v i || existsb (fun f => Z.testbit (field_val f) i) fs.
Proof.
  intros Hi. revert v. induction fs as [|f fs IH]; intros v; simpl; [by rewrite orb_false_r|].
  rewrite IH, Z.lor_spec. by rewrite orb_assoc.
Qed.

(** Packing then taking a field out gives its value, whatever the order. *)
Lemma pack_fields_extract fs l w q :
  Forall field_ok fs -> ForallOrdPairs field_disjoint fs -> In (l, w, q) fs ->
  pack_fields fs 0 / 2 ^ l mod 2 ^ w = q.
Proof.
  intros Hok Hdis Hin. assert (field_ok (l, w, q)) as (Hl & Hw & Hq)
    by (rewrite List.Forall_forall in Hok; by apply Hok).
  rewrite <-Z.shiftr_div_pow2 by done.
  apply Z.bits_inj'. intros i Hi. destruct (Z.lt_ge_cases i w) as [Hlt|Hge].
  2: { rewrite Z.mod_pow2_bits_high by lia. symmetry. by apply (testbit_small q w). }
  rewrite Z.mod_pow2_bits_low, Z.shiftr_spec by done.
  rewrite pack_fields_testbit, Z.bits_0 by lia. cbn [orb].
  assert (forall f, In f fs -> field_disjoint f (l, w, q) \/ field_disjoint (l, w, q) f \/ f = (l, w, q)) as HD.
  { intros f Hf. destruct (ForallOrdPairs_In Hdis f (l, w, q) Hf Hin) as [?|[?|?]]; tauto. }
  clear Hdis. apply eq_bool_prop_intro. split.
  - intros (f & Hf & Hb)%Is_true_true%existsb_exists. apply Is_true_true.
    rewrite List.Forall_forall in Hok. pose proof (Hok f Hf) as Hokf.
    assert (f = (l, w, q)) as ->.
    { destruct f as [[l' w'] q']. simpl in Hokf, Hb. rewrite (field_testbit l' w' q') in Hb by lia.
      apply andb_true_iff in Hb as [[B1%Z.leb_le B2%Z.ltb_lt]%andb_true_iff _].
      destruct (HD _ Hf) as [D|[D|D]]; [simpl in D; lia..|done]. }
    simpl in Hb. rewrite (field_testbit l w q) in Hb by lia. replace (i + l - l) with i in Hb by lia.
    by apply andb_true_iff in Hb as [_ Hb].
  - intros Hb%Is_true_true. apply Is_true_true, existsb_exists. exists (l, w, q). split; [done|].
    simpl. rewrite Z.mul_pow2_bits by lia. by replace (i + l - l) with i by lia.
Qed.

Lemma pack_fields_range fs v n :
  0 <= n -> Forall field_ok fs -> Forall (fun '(l, w, _) => l + w <= n) fs -> 0 <= v < 2 ^ n ->
  0 <= pack_fields fs v < 2 ^ n.
Proof.
  intros Hn Hok Hb Hv. apply bits_small; [done|]. intros i Hi.
  rewrite pack_fields_testbit by lia. rewrite (testbit_small v n) by lia. cbn [orb].
  apply not_true_iff_false. intros (f & Hf & Ht)%existsb_exists.
  rewrite List.Forall_forall in Hok, Hb. specialize (Hok f Hf). specialize (Hb f Hf).
  destruct f as [[l w] q]. simpl in *. rewrite (field_testbit l w q) in Ht by lia.
  apply andb_true_iff in Ht as [[_ B%Z.ltb_lt]%andb_true_iff _]. lia.
Qed.

(** *** Small ranges

    [zrange n] lists [0..n-1]; [split_range H] splits [H : a <= k < b], for
    numerals, into one goal per value of [k]. *)

Definition zrange (n : Z) : list Z := map Z.of_nat (seq 0 (Z.to_nat n)).

Lemma zrange_in n z : 0 <= z < n -> In z (zrange n).
Proof.
  intros H. unfold zrange. apply in_map_iff. exists (Z.to_nat z).
  rewrite in_seq. lia.
Qed.

Ltac split_range H :=
  match type of H with
  | ?a <= ?k < ?b =>
      let a' := eval vm_compute in a in let b' := eval vm_compute in b in
      tryif (let t := eval vm_compute in (Z.ltb a' b') in constr_eq t true)
      then (let c := eval vm_compute in (a' + 1) in
            destruct (Z.eq_dec k a');
              [subst k; clear H
              |assert (c <= k < b') by lia; clear H;
               match goal with K : c <= k < b' |- _ => split_range K end])
      else (exfalso; lia)
  end.

(** ** Loops

    [do_while fuel cond body s] runs [do s = body(s); while (cond(s))];
    [while_do] tests first.  [None] is a loop that has not ended after
    [fuel] rounds. *)

Section Loops.
Context {S : Type} (cond : S -> bool) (body : S -> S).

Fixpoint do_while (fuel : nat) (s : S) : option S :=
  match fuel with
  | O => None
  | Datatypes.S fuel => let s' := body s in if cond s' then do_while fuel s' else Some s'
  end.

Fixpoint while_do (fuel : nat) (s : S) : option S :=
  if cond s then
    match fuel with
    | O => None
    | Datatypes.S fuel => while_do fuel (body s)
    end
  else Some s.

(** Total correctness from an invariant and a decreasing measure. *)
Lemma while_do_total (I : S -> Prop) (m : S -> Z) fuel s :
  (forall s, I s -> cond s = true -> I (body s) /\ m (body s) < m s /\ 0 < m s) ->
  I s -> m s <= Z.of_nat fuel ->
  exists s', while_do fuel s = Some s' /\ I s' /\ cond s' = false.
Proof.
  intros Hstep. revert s. induction fuel as [|fuel IH]; intros s HI Hm; simpl.
  - destruct (cond s) eqn:E; [|eauto]. destruct (Hstep s HI E); lia.
  - destruct (cond s) eqn:E; [|eauto]. destruct (Hstep s HI E) as (? & ? & ?).
    apply IH; [done|lia].
Qed.

Lemma do_while_total (I J : S -> Prop) (m : S -> Z) fuel s :
  (forall s, I s -> J (body s)) ->
  (forall s, J s -> cond s = true -> I s) ->
  (forall s, I s -> cond (body s) = true -> m (body s) < m s /\ 0 <= m (body s)) ->
  I s -> m s < Z.of_nat fuel -> 0 <= m s ->
  exists s', do_while fuel s = Some s' /\ J s' /\ cond s' = false.
Proof.
  intros HB HI Hm. revert s. induction fuel as [|fuel IH]; intros s Hs Hf H0; [lia|].
  simpl. destruct (cond (body s)) eqn:E; [|eauto].
  destruct (Hm s Hs E). apply IH; [eauto|lia|lia].
Qed.
End Loops.

(** ** Computations on a state that may fail *)

Definition stM (W B : Type) : Type := W -> option (B * W).
Definition hret {W B} (x : B) : stM W B := fun w => Some (x, w).
Definition hbind {W B C} (m : stM W B) (k : B -> stM W C) : stM W C := fun w => '(x, w) ← m w; k x w.
Definition hfail {W B} : stM W B := fun _ => None.

Declare Scope state_scope.
Delimit Scope state_scope with state.
Notation "'let!' x := m 'in' k" := (hbind m (fun x => k))
  (at level 10, x pattern at level 0, m at level 100, k at level 200) : state_scope.
Notation "m ';;;' k" := (hbind m (fun _ => k)) (at level 100, right associativity) : state_scope.

Lemma hbind_some {W B C} (m : stM W B) (k : B -> stM W C) w x w' : m w = Some (x, w') -> hbind m k w = k x w'.
Proof. intros H. unfold hbind. by rewrite H. Qed.

(** ** Record update: [r <| f := v |>], [r <| f ; g := v |>] *)

Class Eta (R : Type) := eta : R -> R.
Class Setter {R T : Type} (proj : R -> T) := upd : (T -> T) -> R -> R.
#[global] Arguments upd {R T} proj {_} _ _ / : assert.

Ltac solve_setter :=
  lazymatch goal with
  | |- @Setter ?R ?T ?proj =>
      let inst := constr:(_ : Eta R) in
      let e := eval hnf in inst in
      let s := constr:(fun (g : T -> T) (r : R) =>
        ltac:(let b := eval cbv beta in (e r) in
              let p := eval cbv beta in (proj r) in
              lazymatch (eval pattern p in b) with
              | ?h _ => let k := eval cbv beta in (h (g p)) in exact k
              end)) in
      exact s
  end.
#[global] Hint Extern 1 (Setter _) => solve_setter : typeclass_instances.

Declare Scope record_scope.
#[global] Open Scope record_scope.
Notation "r <| f ::= g |>" := (upd f g r)
  (at level 1, f at next level, left associativity) : record_scope.
Notation "r <| f := v |>" := (upd f (fun _ => v) r)
  (at level 1, f at next level, left associativity) : record_scope.
Notation "r <| f1 ; f2 := v |>" := (upd f1 (upd f2 (fun _ => v)) r)
  (at level 1, f1 at next level, f2 at next level, left associativity) : record_scope.
Notation "r <| f1 ; f2 ; f3 := v |>" := (upd f1 (upd f2 (upd f3 (fun _ => v))) r)
  (at level 1, f1 at next level, f2 at next level, f3 at next level, left associativity) : record_scope.
