(* ===== verification/Fixed.v ===== *)
(** * 16.16 fixed-point arithmetic

    Models include/ggl_fixed.h and libpixelflinger/fixed.cpp (the portable,
    non-ARM code).  A [GGLfixed] is an [int32_t], kept as a [Z] in the range of
    [int32_t]; every operation that can leave the range goes through [s32] or
    [u32].  An operation whose shift counts depend on its argument returns an
    [option]: [None] is a shift by a negative count or by the width or more,
    or a loop that counts a signed [int] down from a non-positive value, which
    C++ leaves undefined. *)

From S2P Require Import Prelude.

(** ** Constants *)

Definition FIXED_BITS : Z := 16.
Definition FIXED_EPSILON : Z := 1.
Definition FIXED_ONE : Z := 0x10000.
Definition FIXED_HALF : Z := 0x8000.
Definition FIXED_MIN : Z := - 0x80000000.
Definition FIXED_MAX : Z := 0x7FFFFFFF.

(** A shift count C++ defines for a 32-bit operand. *)
Definition shift_ok (n : Z) : bool := (0 <=? n) && (n <? 32).

(** ** Conversions *)

Definition gglIntToFixed (i : Z) : Z := s32 (Z.shiftl i FIXED_BITS).
Definition gglFixedToIntRound (f : Z) : Z := Z.shiftr (s32 (f + FIXED_HALF)) FIXED_BITS.
Definition gglFixedToIntFloor (f : Z) : Z := Z.shiftr f FIXED_BITS.
Definition gglFixedToIntCeil (f : Z) : Z :=
  Z.shiftr (s32 (f + (Z.shiftl 1 FIXED_BITS - 1))) FIXED_BITS.
Definition gglFracx (v : Z) : Z := Z.land v (Z.shiftl 1 FIXED_BITS - 1).
Definition gglFloorx (v : Z) : Z := s32 (Z.shiftl (gglFixedToIntFloor v) FIXED_BITS).
Definition gglCeilx (v : Z) : Z := s32 (Z.shiftl (gglFixedToIntCeil v) FIXED_BITS).
Definition gglCenterx (v : Z) : Z := Z.lor (gglFloorx (s32 (v + FIXED_HALF))) FIXED_HALF.
Definition gglRoundx (v : Z) : Z := s32 (Z.shiftl (gglFixedToIntRound v) FIXED_BITS).

Definition GGL_UB_TO_X (x : Z) : Z :=
  s32 (u32 (x + u32 (Z.shiftl x 8) + Z.shiftr x 7)).
Definition GGL_US_TO_X (x : Z) : Z := s32 (x + Z.shiftr x 15).
Definition GGL_B_TO_X (x : Z) : Z := s32 (Z.shiftl (Z.shiftr (x + 1) 1) 10).
Definition GGL_S_TO_X (x : Z) : Z := s32 (Z.shiftl (Z.shiftr (x + 1) 1) 2).

(** ** Multiplication (the products are 64-bit) *)

(** The rounding term is an [int]: at [shift = 32] it is negative. *)
Definition gglMulx_shift (a b shift : Z) : Z :=
  s32 (Z.shiftr (a * b + s32 (Z.shiftl 1 (shift - 1))) shift).
Definition gglMulAddx_shift (a b c shift : Z) : Z := s32 (s32 (Z.shiftr (a * b) shift) + c).
Definition gglMulSubx_shift (a b c shift : Z) : Z := s32 (s32 (Z.shiftr (a * b) shift) - c).
Definition gglMulii (a b : Z) : Z := a * b.
Definition gglMulx (a b : Z) : Z := gglMulx_shift a b 16.
Definition gglMulAddx (a b c : Z) : Z := gglMulAddx_shift a b c 16.
Definition gglMulSubx (a b c : Z) : Z := gglMulSubx_shift a b c 16.

(** ** Leading zeros and clamping *)

Definition clz_step (mask n : Z) (st : Z * Z) : Z * Z :=
  let '(exp, x) := st in
  if Z.land x mask =? 0 then (exp, x) else (exp - n, Z.shiftr x n).

Definition gglClz (x : Z) : Z :=
  if x =? 0 then 32
  else
    let st := clz_step 0xFFFF0000 16 (31, x) in
    let st := clz_step 0x0000ff00 8 st in
    let st := clz_step 0x000000f0 4 st in
    let '(exp, x) := clz_step 0x0000000c 2 st in
    if Z.land x 0x00000002 =? 0 then exp else exp - 1.

Definition gglClampx (c : Z) : Z :=
  let c := Z.land c (Z.lnot (Z.shiftr c 31)) in
  if FIXED_ONE <? c then FIXED_ONE else c.

(** ** Reciprocals *)

Definition gglRecipFast (x : Z) : option Z :=
  let lz := gglClz x in
  if shift_ok (lz - 1) && shift_ok (30 - lz) then
    Some (s32 (Z.shiftr (u32 (0xC0000000 - s32 (Z.shiftl x (lz - 1)))) (30 - lz)))
  else None.

(** One Newton-Raphson iteration [r*(2 - a*r)] on 2.30 numbers. *)
Definition recip_newton (a r : Z) : Z :=
  u32 (Z.shiftr (u64 (u64 (Z.shiftl 2 30 - u32 (Z.shiftr (a * r) 32)) * r)) 30).

(** Returns the reciprocal and [*exponent]. *)
Definition gglRecipQNormalized (x : Z) : Z * Z :=
  let s := Z.shiftr x 31 in
  let a := u32 (if s =? 0 then x else - x) in
  if a <=? 2 then (if s =? 0 then FIXED_MAX else FIXED_MIN, 0)
  else
    let lz := gglClz (s32 a) in
    let a := u32 (Z.shiftl a lz) in
    let r := a in
    let r :=
      if a =? 0x80000000 then r
      else
        let r := u32 (Z.shiftl 0x2E800 (30 - 16) - Z.shiftr r (2 - 1)) in
        recip_newton a (recip_newton a r) in
    let exponent := 30 - lz - 1 in
    let r := Z.shiftr r 1 in
    (s32 (if s =? 0 then r else - r), exponent).

Definition gglRecipQ (x q : Z) : option Z :=
  let '(x, shift) := gglRecipQNormalized x in
  let shift := shift + (16 - q) in
  if (1 <=? shift) && (shift <? 32) then
    Some (Z.shiftr (s32 (x + Z.shiftl 1 (shift - 1))) shift)
  else None.

Definition gglRecip (x : Z) : option Z := gglRecipQ x 16.
Definition gglRecip28 (x : Z) : option Z := gglRecipQ x 28.

Definition gglFastDivx (n d : Z) : option Z :=
  let '(n, d) :=
    if negb (Z.shiftr d 24 =? 0) && negb (Z.shiftr d 24 + 1 =? 0)
    then (Z.shiftr n 8, Z.shiftr d 8) else (n, d) in
  r ← gglRecip d; Some (gglMulx n r).

(** ** Square roots *)

Definition ggl_sqrt_reciproc_approx_tab : list Z :=
  [0x16A09; 0x15555; 0x143D1; 0x134BF; 0x1279A; 0x11C01; 0x111AC; 0x10865].

Definition tab (t : list Z) (i : Z) : Z := nth (Z.to_nat i) t 0.

Definition sqrt_recip_newton (a x : Z) : Z :=
  gglMulx (Z.shiftr x 1) (s32 (0x30000 - gglMulx (gglMulx a x) x)).

Definition gglSqrtRecipx (x : Z) : option Z :=
  if x =? 0 then Some FIXED_MAX
  else if x =? FIXED_ONE then Some x
  else
    let a := x in
    let lz := gglClz x in
    if negb (shift_ok (28 - lz)) then None
    else
      let x := tab ggl_sqrt_reciproc_approx_tab (Z.land (Z.shiftr a (28 - lz)) 0x7) in
      let exp := lz - 16 in
      let x :=
        if exp <=? 0 then Z.shiftr x (Z.shiftr (- exp) 1)
        else s32 (Z.shiftl x (Z.shiftr exp 1 + Z.land exp 1)) in
      let x :=
        if Z.land exp 1 =? 0 then x
        else Z.shiftr (gglMulx x (tab ggl_sqrt_reciproc_approx_tab 0)) 1 in
      Some (sqrt_recip_newton a (sqrt_recip_newton a x)).

(** The loop variables of [gglSqrtx]. *)
Record sqrt_t := mk_sqrt { sq_a : Z; sq_r : Z; sq_bit : Z; sq_bshift : Z }.

Definition sqrtx_temp (st : sqrt_t) : Z :=
  let temp := s32 (sq_bit st + Z.shiftl (sq_r st) 1) in
  if 8 <=? sq_bshift st then s32 (Z.shiftl temp (sq_bshift st - 8))
  else Z.shiftr temp (8 - sq_bshift st).

Definition sqrtx_step (st : sqrt_t) : sqrt_t :=
  let temp := sqrtx_temp st in
  let '(r, a) :=
    if temp <=? sq_a st then (sq_r st + sq_bit st, sq_a st - temp)
    else (sq_r st, sq_a st) in
  mk_sqrt a r (Z.shiftr (sq_bit st) 1) (sq_bshift st - 1).

Definition gglSqrtx (a : Z) : option Z :=
  st ← do_while (fun st => negb (sq_bit st =? 0)) sqrtx_step 24
         (mk_sqrt a 0 0x800000 15);
  Some (sq_r st).

(** ** Powers *)

Definition ggl_log_approx_tab : list Z :=
  [0xFFFF; 0xd47f; 0xad96; 0x8a62; 0x6a3f; 0x4caf; 0x3151; 0x17d6; 0x0000].

Definition ggl_alog_approx_tab : list Z :=
  [0xffff; 0xeac0; 0xd744; 0xc567; 0xb504; 0xa5fe; 0x9837; 0x8b95; 0x8000].

Definition gglPowx (x y : Z) : option Z :=
  let exp := gglClz x - 16 in
  if negb (shift_ok exp) then None
  else
    let f := s32 (Z.shiftl x exp) in
    let x := Z.shiftl (Z.land f 0x0FFF) 4 in
    let f := Z.land (Z.shiftr f 12) 0x7 in
    let p := gglMulAddx (tab ggl_log_approx_tab (f + 1) - tab ggl_log_approx_tab f) x
               (tab ggl_log_approx_tab f) in
    let p := gglMulAddx p y (s32 (y * exp)) in
    let exp := gglFixedToIntFloor p in
    if exp <? 31 then
      let p := gglFracx p in
      let x := Z.shiftl (Z.land p 0x1FFF) 3 in
      let p := Z.shiftr p 13 in
      let p := gglMulAddx (tab ggl_alog_approx_tab (p + 1) - tab ggl_alog_approx_tab p) x
                 (tab ggl_alog_approx_tab p) in
      if shift_ok exp then Some (Z.shiftr p exp) else None
    else Some 0.

(** ** Division

    The pair [(n, q)] is the running remainder and the quotient; [n] holds the
    remainder minus [d] when a bit is tested. *)

(** [if (n>=0) q |= k; else n += d;] *)
Definition divq_test (d k : Z) (st : Z * Z) : Z * Z :=
  let '(n, q) := st in
  if 0 <=? n then (n, Z.lor q k) else (s32 (n + d), q).

(** [n = n*2 - d;] *)
Definition divq_next (d : Z) (st : Z * Z) : Z * Z :=
  let '(n, q) := st in (s32 (n * 2 - d), q).

(** One round of the 8-bit loop, up to [if (--i == 0)]. *)
Definition divq_block (d : Z) (st : Z * Z) : Z * Z :=
  let '(n, q) := st in
  let st := (n, u32 (Z.shiftl q 8)) in
  let st := divq_next d (divq_test d 128 st) in
  let st := divq_next d (divq_test d 64 st) in
  let st := divq_next d (divq_test d 32 st) in
  let st := divq_next d (divq_test d 16 st) in
  let st := divq_next d (divq_test d 8 st) in
  let st := divq_next d (divq_test d 4 st) in
  let st := divq_next d (divq_test d 2 st) in
  divq_test d 1 st.

(** [i] rounds of the 8-bit loop, [i >= 1]. *)
Fixpoint divq_blocks (i : nat) (d : Z) (st : Z * Z) : Z * Z :=
  match i with
  | O => st
  | S O => divq_block d st
  | S i => divq_blocks i d (divq_next d (divq_block d st))
  end.

(** [j] rounds of the 1-bit loop, entered at [finish]. *)
Fixpoint divq_tail (j : nat) (d : Z) (st : Z * Z) : Z * Z :=
  match j with
  | O => st
  | S j =>
      let '(n, q) := st in
      divq_tail j d (divq_test d 1 (divq_next d (n, u32 (Z.shiftl q 1))))
  end.

Definition gglDivQ (n d i : Z) : option Z :=
  let ds := Z.lxor n d in
  let n := if n <? 0 then s32 (- n) else n in
  let d := if d <? 0 then s32 (- d) else d in
  let nd := gglClz d - gglClz n in
  let i := i + nd + 1 in
  let '(n, d) :=
    if 0 <? nd then (n, s32 (Z.shiftl d nd)) else (s32 (Z.shiftl n (- nd)), d) in
  let j := Z.land i 7 in
  let i := Z.shiftr i 3 in
  let finish st := let q := snd st : Z in Some (s32 (if ds <? 0 then - q else q)) in
  if negb (i =? 0) then
    if i <? 0 then None
    else finish (divq_tail (Z.to_nat j) d (divq_blocks (Z.to_nat i) d (s32 (n - d), 0)))
  else
    let st := divq_test d 1 (s32 (n - d), 0) in
    if j - 1 <? 0 then None else finish (divq_tail (Z.to_nat (j - 1)) d st).

Definition gglDivQ16 (n d : Z) : option Z := gglDivQ n d 16.
Definition gglDivx (n d : Z) : option Z := gglDivQ n d 16.

(** ** Multiply-divide *)

(** [r], [lo] and [result] of the 32-step restoring division. *)
Definition slow_step (c : Z) (st : Z * Z * Z) : Z * Z * Z :=
  let '(r, lo, result) := st in
  let r := Z.lor (u32 (Z.shiftl r 1)) (Z.shiftr lo 31) in
  let lo := u32 (Z.shiftl lo 1) in
  let result := u32 (Z.shiftl result 1) in
  if c <=? r then (u32 (r - c), lo, Z.lor result 1) else (r, lo, result).

Definition slow_muldiv (a b c : Z) : Z :=
  let ab := a * b in
  let hi := u32 (Z.shiftr ab 32) in
  let lo := u32 ab in
  if c <=? hi then s32 0x7fffffff
  else if hi =? 0 then
    let result := lo / c in
    if negb (Z.shiftr result 31 =? 0) then s32 0x7fffffff else s32 result
  else
    let '(_, _, result) := Nat.iter 32 (slow_step c) (hi, lo, 0) in
    s32 result.

(** [a], [r] and [q] of the bit loop of [quick_muldiv]. *)
Definition quick_step (b c : Z) (st : Z * Z * Z) : Z * Z * Z :=
  let '(a, r, q) := st in
  let r := s32 (Z.shiftl r 1) in
  let r := if a <? 0 then s32 (r + b) else r in
  let a := s32 (Z.shiftl a 1) in
  let q := s32 (Z.shiftl q 1) in
  let '(r, q) := if c <=? r then (s32 (r - c), s32 (q + 1)) else (r, q) in
  let '(r, q) := if c <=? r then (s32 (r - c), s32 (q + 1)) else (r, q) in
  (a, r, q).

(** The loop runs [32 - clz(a)] rounds; with [a = 0] its counter starts at 0
    and is decremented first. *)
Definition quick_muldiv (a b c : Z) : option Z :=
  let leading := gglClz a in
  let i := 32 - leading in
  if i =? 0 then None
  else
    let '(_, _, q) := Nat.iter (Z.to_nat i) (quick_step b c) (s32 (Z.shiftl a leading), 0, 0) in
    Some q.

Definition gglMulDivi (a b c : Z) : option Z :=
  let sign := Z.lxor (Z.lxor a b) c in
  let a := if a <? 0 then s32 (- a) else a in
  let b := if b <? 0 then s32 (- b) else b in
  let c := if c <? 0 then s32 (- c) else c in
  let '(a, b) := if a <? b then (b, a) else (a, b) in
  result ← (if b <=? c then quick_muldiv a b c
            else Some (slow_muldiv (u32 a) (u32 b) (u32 c)));
  Some (if sign <? 0 then s32 (- result) else result).

(** * Theorems *)

(** ** Conversions and rounding *)

Lemma shiftr16 z : Z.shiftr z 16 = z / 2 ^ 16.
Proof. by rewrite Z.shiftr_div_pow2. Qed.
Lemma shiftl16 z : Z.shiftl z 16 = z * 2 ^ 16.
Proof. by rewrite Z.shiftl_mul_pow2. Qed.

Lemma floor_of_int i : - 2 ^ 15 <= i < 2 ^ 15 -> gglFixedToIntFloor (gglIntToFixed i) = i.
Proof.
  intros. unfold gglFixedToIntFloor, gglIntToFixed, FIXED_BITS.
  rewrite shiftl16, shiftr16. wrap_lia.
Qed.

Lemma gglMulx_shift_spec a b sh :
  1 <= sh < 32 -> - 2 ^ 31 * 2 ^ sh <= a * b < (2 ^ 31 - 1) * 2 ^ sh ->
  gglMulx_shift a b sh = (a * b + 2 ^ (sh - 1)) / 2 ^ sh.
Proof.
  intros Hs Hab. unfold gglMulx_shift.
  rewrite Z.shiftr_div_pow2, Z.shiftl_1_l by lia.
  assert (2 ^ sh = 2 * 2 ^ (sh - 1)) as E.
  { rewrite <-Z.pow_succ_r by lia. f_equal. lia. }
  assert (2 ^ (sh - 1) < 2 ^ 31) by (apply Z.pow_lt_mono_r; lia).
  assert (0 < 2 ^ (sh - 1)) by lia. rewrite (s32_id (2 ^ (sh - 1))) by (unfold is_s32; lia).
  apply s32_id. unfold is_s32. rewrite E in *. split.
  - apply Z.div_le_lower_bound; lia.
  - apply Z.div_lt_upper_bound; lia.
Qed.

(** ** Leading zeros *)

Lemma land_high_mask x n :
  0 <= n -> 0 <= x < 2 ^ (2 * n) -> Z.land x (Z.shiftl (Z.ones n) n) = x / 2 ^ n * 2 ^ n.
Proof.
  intros Hn Hx. rewrite <-Z.shiftr_div_pow2, <-Z.shiftl_mul_pow2 by lia.
  apply Z.bits_inj'. intros i Hi. rewrite Z.land_spec.
  destruct (Z.lt_ge_cases i n).
  - rewrite !Z.shiftl_spec_low by lia. apply andb_false_r.
  - rewrite !Z.shiftl_spec_high, Z.shiftr_spec, ones_testbit by lia.
    replace (i - n + n) with i by lia. destruct (Z.ltb_spec (i - n) n); [apply andb_true_r|].
    rewrite (testbit_small x (2 * n)) by lia. done.
Qed.

Lemma clz_step_spec mask n e x :
  mask = Z.shiftl (Z.ones n) n -> 0 < n -> 0 < x < 2 ^ (2 * n) ->
  let '(e', x') := clz_step mask n (e, x) in
  0 < x' < 2 ^ n /\ e' - Z.log2 x' = e - Z.log2 x.
Proof.
  intros -> Hn Hx. unfold clz_step. rewrite land_high_mask by lia.
  assert (0 < 2 ^ n) as Hp by lia.
  destruct (Z.eqb_spec (x / 2 ^ n * 2 ^ n) 0) as [E|E].
  - split; [|done]. assert (x / 2 ^ n = 0) as E' by nia.
    apply Z.div_small_iff in E'; lia.
  - assert (x / 2 ^ n <> 0) as E' by nia.
    assert (2 ^ n <= x) by (destruct (Z.lt_ge_cases x (2 ^ n)); [|done];
      rewrite Z.div_small in E' by lia; lia).
    split.
    + rewrite Z.shiftr_div_pow2 by lia. split.
      * apply Z.div_str_pos. lia.
      * apply Z.div_lt_upper_bound; [lia|].
        replace (2 ^ n * 2 ^ n) with (2 ^ (2 * n)); [lia|].
        rewrite <-Z.pow_add_r by lia. f_equal. lia.
    + rewrite Z.log2_shiftr by lia.
      assert (n <= Z.log2 x) by (apply Z.log2_le_pow2; lia). lia.
Qed.

Lemma clz_step_lin mask n e x :
  clz_step mask n (e, x) = (fst (clz_step mask n (e, x)), snd (clz_step mask n (e, x))).
Proof. by destruct clz_step. Qed.

Lemma gglClz_pos x : 0 < x < 2 ^ 31 -> gglClz x = 31 - Z.log2 x.
Proof.
  intros Hx. unfold gglClz. destruct (Z.eqb_spec x 0); [lia|].
  pose proof (clz_step_spec 0xFFFF0000 16 31 x eq_refl eq_refl ltac:(lia)) as H1.
  destruct (clz_step 0xFFFF0000 16 (31, x)) as [e1 x1]. destruct H1 as [H1 E1].
  pose proof (clz_step_spec 0xff00 8 e1 x1 eq_refl eq_refl H1) as H2.
  destruct (clz_step 0xff00 8 (e1, x1)) as [e2 x2]. destruct H2 as [H2 E2].
  pose proof (clz_step_spec 0xf0 4 e2 x2 eq_refl eq_refl H2) as H3.
  destruct (clz_step 0xf0 4 (e2, x2)) as [e3 x3]. destruct H3 as [H3 E3].
  pose proof (clz_step_spec 0xc 2 e3 x3 eq_refl eq_refl H3) as H4.
  destruct (clz_step 0xc 2 (e3, x3)) as [e4 x4]. destruct H4 as [H4 E4].
  assert (x4 = 1 \/ x4 = 2 \/ x4 = 3) as [-> | [-> | ->]] by lia;
    simpl in *; lia.
Qed.

Lemma gglClz_zero : gglClz 0 = 32.
Proof. done. Qed.

Lemma gglClz_range x : 0 < x < 2 ^ 31 -> 1 <= gglClz x <= 31.
Proof.
  intros Hx. rewrite gglClz_pos by done.
  assert (0 <= Z.log2 x < 31) by (split; [apply Z.log2_nonneg|apply Z.log2_lt_pow2; lia]). lia.
Qed.

(** Shifting left by the leading zeros puts the top bit at bit 31. *)
Lemma gglClz_norm x : 0 < x < 2 ^ 31 -> 2 ^ 31 <= x * 2 ^ gglClz x < 2 ^ 32.
Proof.
  intros Hx. pose proof (gglClz_range x Hx). rewrite gglClz_pos by done.
  destruct (Z.log2_spec x) as [Hl Hu]; [lia|]. pose proof (Z.log2_nonneg x).
  replace (2 ^ 31) with (2 ^ Z.log2 x * 2 ^ (31 - Z.log2 x)).
  - replace (2 ^ 32) with (2 ^ Z.succ (Z.log2 x) * 2 ^ (31 - Z.log2 x)).
    + assert (0 < 2 ^ (31 - Z.log2 x)) by (apply Z.pow_pos_nonneg; rewrite ?gglClz_pos in *; lia). nia.
    + rewrite <-Z.pow_add_r by (rewrite ?gglClz_pos in *; lia). f_equal. lia.
  - rewrite <-Z.pow_add_r by (rewrite ?gglClz_pos in *; lia). f_equal. lia.
Qed.

Lemma gglClampx_spec c : is_s32 c -> gglClampx c = Z.max 0 (Z.min c FIXED_ONE).
Proof.
  intros Hc. unfold gglClampx, is_s32, FIXED_ONE in *.
  destruct (Z.lt_ge_cases c 0).
  - replace (Z.shiftr c 31) with (-1) by (rewrite Z.shiftr_div_pow2 by lia; div_lia).
    rewrite Z.land_0_r. simpl. lia.
  - replace (Z.shiftr c 31) with 0 by (rewrite Z.shiftr_div_pow2 by lia; div_lia).
    change (Z.lnot 0) with (-1). rewrite Z.land_m1_r. case_match; lia.
Qed.

(** ** Division *)

Lemma div_double M d : 0 < d -> 2 * (M / d) + 2 * (M mod d) / d = 2 * M / d.
Proof.
  intros Hd. rewrite (Z.div_mod M d) at 3 by lia.
  replace (2 * (d * (M / d) + M mod d)) with (2 * (M / d) * d + 2 * (M mod d)) by ring.
  by rewrite Z.div_add_l by lia.
Qed.

Lemma mod_double M d : 0 < d -> (2 * (M mod d)) mod d = (2 * M) mod d.
Proof. intros Hd. rewrite Z.mul_mod_idemp_r by lia. done. Qed.

Section DivQ.
Context (d : Z) (Hd : 0 < d < 2 ^ 31).

Lemma divq_test_spec e m X :
  0 <= e -> 0 <= m < 2 * d ->
  divq_test d (2 ^ e) (m - d, X * 2 ^ (e + 1)) = (m mod d, (2 * X + m / d) * 2 ^ e).
Proof using Hd.
  intros He Hm. unfold divq_test.
  assert (2 ^ (e + 1) = 2 * 2 ^ e) as E by (rewrite Z.pow_add_r by lia; lia).
  destruct (Z.leb_spec 0 (m - d)).
  - rewrite lor_low_bit by done.
    assert (m / d = 1) as -> by (symmetry; apply (Z.div_unique _ _ _ (m - d)); lia).
    f_equal; [apply (Z.mod_unique _ _ 1); lia|rewrite E; ring].
  - rewrite Z.mod_small, Z.div_small by lia. f_equal; [|rewrite E; ring].
    rewrite s32_id; [lia|]. unfold is_s32. lia.
Qed.

Lemma divq_next_spec M q :
  divq_next d (M mod d, q) = (2 * (M mod d) - d, q).
Proof using Hd.
  unfold divq_next. pose proof (Z.mod_pos_bound M d). f_equal.
  rewrite s32_id; [ring|]. unfold is_s32. lia.
Qed.

(** One bit of the division, in the middle of a byte of the quotient. *)
Lemma divq_bit e M X :
  0 <= e ->
  divq_test d (2 ^ e) (divq_next d (M mod d, (X + M / d) * 2 ^ (e + 1)))
  = ((2 * M) mod d, (2 * X + 2 * M / d) * 2 ^ e).
Proof using Hd.
  intros He. rewrite divq_next_spec. pose proof (Z.mod_pos_bound M d).
  rewrite divq_test_spec by lia. rewrite mod_double, <-(div_double M) by lia.
  f_equal. ring.
Qed.

Lemma divq_block_spec m q :
  0 <= m < 2 * d ->
  divq_block d (m - d, q) = ((128 * m) mod d, u32 (256 * q + 128 * m / d)).
Proof using Hd.
  intros Hm. unfold divq_block.
  assert (u32 (Z.shiftl q 8) = (q mod 2 ^ 24) * 2 ^ (7 + 1)) as ->
    by (rewrite Z.shiftl_mul_pow2 by lia; wrap_lia).
  set (Q := q mod 2 ^ 24).
  rewrite (divq_test_spec 7) by lia.
  rewrite (divq_bit 6) by lia. rewrite (divq_bit 5) by lia. rewrite (divq_bit 4) by lia.
  rewrite (divq_bit 3) by lia. rewrite (divq_bit 2) by lia. rewrite (divq_bit 1) by lia.
  rewrite (divq_bit 0) by lia.
  replace (2 * (2 * (2 * (2 * (2 * (2 * (2 * m))))))) with (128 * m) by ring.
  f_equal. replace (2 ^ 0) with 1 by done.
  assert (0 <= 128 * m / d < 256) as Hq.
  { split; [apply Z.div_pos; lia|apply Z.div_lt_upper_bound; lia]. }
  subst Q. set (B := 128 * m / d) in *. wrap_lia.
Qed.

(** The state after the quotient of [M] by [d] has been computed. *)
Definition divq_done (M : Z) : Z * Z := (M mod d, u32 (M / d)).

Lemma divq_next_block M :
  divq_block d (divq_next d (divq_done M)) = divq_done (256 * M).
Proof using Hd.
  unfold divq_done. pose proof (Z.mod_pos_bound M d).
  rewrite divq_next_spec, divq_block_spec by lia.
  replace (128 * (2 * (M mod d))) with (256 * (M mod d)) by ring.
  rewrite Z.mul_mod_idemp_r by lia. f_equal.
  rewrite (Z.div_mod M d) at 3 by lia.
  replace (256 * (d * (M / d) + M mod d)) with (256 * (M / d) * d + 256 * (M mod d)) by ring.
  rewrite Z.div_add_l by lia. set (A := M / d). set (B := _ / d). wrap_lia.
Qed.

Lemma divq_tail_spec j M :
  divq_tail j d (divq_done M) = divq_done (2 ^ Z.of_nat j * M).
Proof using Hd.
  revert M. induction j as [|j IH]; intros M; [by rewrite Z.mul_1_l|].
  cbn [divq_tail]. unfold divq_done at 1. cbn [divq_next].
  change (s32 (M mod d * 2 - d), u32 (Z.shiftl (u32 (M / d)) 1))
    with (divq_next d (M mod d, u32 (Z.shiftl (u32 (M / d)) 1))).
  rewrite divq_next_spec. pose proof (Z.mod_pos_bound M d).
  assert (u32 (Z.shiftl (u32 (M / d)) 1) = (M / d) mod 2 ^ 31 * 2 ^ (0 + 1)) as ->
    by (rewrite Z.shiftl_mul_pow2 by lia; wrap_lia).
  rewrite (divq_test_spec 0) by lia. rewrite mod_double by lia.
  match goal with |- divq_tail j d ?st = _ => replace st with (divq_done (2 * M)) end.
  - rewrite IH. f_equal. rewrite Nat2Z.inj_succ, Z.pow_succ_r by lia. ring.
  - unfold divq_done. f_equal. rewrite <-div_double by lia.
    assert (0 <= 2 * (M mod d) / d < 2).
    { split; [apply Z.div_pos; lia|apply Z.div_lt_upper_bound; lia]. }
    set (A := M / d) in *. set (B := _ / d) in *. wrap_lia.
Qed.

Lemma divq_blocks_next i M :
  divq_blocks (S i) d (divq_next d (divq_done M)) = divq_done (2 ^ (8 * Z.of_nat (S i)) * M).
Proof using Hd.
  revert M. induction i as [|i IH]; intros M.
  - cbn [divq_blocks]. rewrite divq_next_block. done.
  - change (divq_blocks (S (S i)) d ?st)
      with (divq_blocks (S i) d (divq_next d (divq_block d st))).
    rewrite divq_next_block, IH. f_equal.
    replace (8 * Z.of_nat (S (S i))) with (8 * Z.of_nat (S i) + 8) by lia.
    rewrite Z.pow_add_r by lia. lia.
Qed.

Lemma divq_blocks_spec i m :
  (0 < i)%nat -> 0 <= m < 2 * d ->
  divq_blocks i d (m - d, 0) = divq_done (2 ^ (8 * Z.of_nat i - 1) * m).
Proof using Hd.
  intros Hi Hm. destruct i as [|i]; [lia|].
  assert (divq_block d (m - d, 0) = divq_done (2 ^ 7 * m)) as E
    by (rewrite divq_block_spec by done; done).
  destruct i as [|i]; [exact E|].
  change (divq_blocks (S (S i)) d ?st)
    with (divq_blocks (S i) d (divq_next d (divq_block d st))).
  rewrite E, divq_blocks_next. f_equal.
  rewrite Z.mul_assoc, <-Z.pow_add_r by lia. f_equal. f_equal. lia.
Qed.
End DivQ.

Lemma abs_if n : - 2 ^ 31 < n < 2 ^ 31 -> (if n <? 0 then s32 (- n) else n) = Z.abs n.
Proof. intros Hn. destruct (Z.ltb_spec n 0); [rewrite s32_id by wrap_lia|]; lia. Qed.

Lemma quot_signed a b q :
  b <> 0 -> q = Z.abs a / Z.abs b ->
  Z.quot a b = if Z.lxor a b <? 0 then - q else q.
Proof.
  intros Hb ->. rewrite Z.quot_div by done. pose proof (Z.lxor_nonneg a b).
  assert (a = 0 -> Z.abs a / Z.abs b = 0) as H0 by (intros ->; apply Z.div_0_l; lia).
  destruct (Z.ltb_spec (Z.lxor a b) 0); destruct (Z.sgn_spec a) as [[? ->]|[[? ->]|[? ->]]];
    destruct (Z.sgn_spec b) as [[? ->]|[[? ->]|[? ->]]]; lia.
Qed.

Lemma norm_ratio x y q :
  2 <= q -> 2 ^ 31 <= x * q < 2 ^ 32 -> y * q < 2 ^ 32 -> 0 < x < 2 ^ 31 /\ y < 2 * x.
Proof.
  intros Hq Hx Hy.
  assert (0 < x) by (apply Z.mul_pos_cancel_r with q; lia).
  split; [split; [done|]|]; apply Z.mul_lt_mono_pos_r with q; lia || nia.
Qed.

(** The normalisation of [gglDivQ]: operands shifted so that the quotient is
    below 2, and the exponent by which the result is off. *)
Lemma divq_normalise N D i :
  0 <= N < 2 ^ 31 -> 0 < D < 2 ^ 31 -> 0 <= i ->
  let nd := gglClz D - gglClz N in
  0 <= i + nd ->
  exists m d, (if 0 <? nd then (N, s32 (Z.shiftl D nd)) else (s32 (Z.shiftl N (- nd)), D)) = (m, d)
    /\ 0 < d < 2 ^ 31 /\ 0 <= m < 2 * d /\ m < 2 ^ 31 /\ 2 ^ (i + nd) * m / d = N * 2 ^ i / D.
Proof.
  intros HN HD Hi nd Hnd. pose proof (gglClz_range D HD) as RD. pose proof (gglClz_norm D HD) as ND.
  destruct (Z.eq_dec N 0) as [->|HN0].
  { subst nd. rewrite gglClz_zero in *. destruct (Z.ltb_spec 0 (gglClz D - 32)); [lia|].
    exists 0, D. rewrite Z.shiftl_0_l, Z.mul_0_r, Z.mul_0_l. repeat split; try done; lia. }
  assert (0 < N < 2 ^ 31) as HN' by lia.
  pose proof (gglClz_range N HN') as RN. pose proof (gglClz_norm N HN') as NN.
  destruct (Z.ltb_spec 0 nd) as [L|L].
  - assert (2 ^ gglClz D = 2 ^ nd * 2 ^ gglClz N) as E
      by (rewrite <-Z.pow_add_r by lia; f_equal; lia).
    assert (2 <= 2 ^ gglClz N) by (change 2 with (2 ^ 1) at 1; apply Z.pow_le_mono_r; lia).
    assert (0 < 2 ^ nd) by (apply Z.pow_pos_nonneg; lia).
    rewrite E, Z.mul_assoc in ND. exists N, (D * 2 ^ nd).
    destruct (norm_ratio (D * 2 ^ nd) N (2 ^ gglClz N)) as [H1 H2]; [lia..|].
    rewrite Z.shiftl_mul_pow2, s32_id by (unfold is_s32; lia).
    split; [done|]. split; [done|]. split; [lia|]. split; [lia|].
    rewrite Z.pow_add_r by lia. replace (2 ^ i * 2 ^ nd * N) with (N * 2 ^ i * 2 ^ nd) by ring.
    apply Z.div_mul_cancel_r; lia.
  - assert (2 ^ gglClz N = 2 ^ (- nd) * 2 ^ gglClz D) as E
      by (rewrite <-Z.pow_add_r by lia; f_equal; lia).
    assert (2 <= 2 ^ gglClz D) by (change 2 with (2 ^ 1) at 1; apply Z.pow_le_mono_r; lia).
    assert (0 < 2 ^ (- nd)) by (apply Z.pow_pos_nonneg; lia).
    rewrite E, Z.mul_assoc in NN. exists (N * 2 ^ (- nd)), D.
    destruct (norm_ratio (N * 2 ^ (- nd)) D (2 ^ gglClz D)) as [H1 _]; [lia..|].
    destruct (norm_ratio D (N * 2 ^ (- nd)) (2 ^ gglClz D)) as [_ H2]; [lia..|].
    rewrite Z.shiftl_mul_pow2, s32_id by (unfold is_s32; lia).
    split; [done|]. split; [done|]. split; [lia|]. split; [lia|].
    f_equal. replace (2 ^ i) with (2 ^ (i + nd) * 2 ^ (- nd)); [ring|].
    rewrite <-Z.pow_add_r by lia. f_equal. lia.
Qed.

Lemma land7 b : Z.land b 7 = b mod 8.
Proof. change 7 with (Z.ones 3). by rewrite Z.land_ones. Qed.

(** The number of quotient bits [gglDivQ] generates. *)
Definition divq_bits (n d i : Z) : Z := i + (gglClz (Z.abs d) - gglClz (Z.abs n)) + 1.

Lemma divq_first_bit m d :
  0 < d < 2 ^ 31 -> 0 <= m < 2 * d -> divq_test d 1 (m - d, 0) = divq_done d m.
Proof.
  intros Hd Hm. change 0 with (0 * 2 ^ (0 + 1)) at 1. change 1 with (2 ^ 0).
  rewrite divq_test_spec by lia. unfold divq_done. f_equal. rewrite u32_id; [lia|].
  split; [apply Z.div_pos; lia|apply Z.div_lt_upper_bound; lia].
Qed.

(** The result of [gglDivQ] from the quotient of the normalised operands. *)
Lemma divq_sign n d i m e b :
  d <> 0 -> 0 <= i -> 2 ^ (b - 1) * m / e = Z.abs n * 2 ^ i / Z.abs d ->
  s32 (if Z.lxor n d <? 0 then - u32 (2 ^ (b - 1) * m / e) else u32 (2 ^ (b - 1) * m / e))
  = s32 (Z.quot (n * 2 ^ i) d).
Proof.
  intros Hd0 Hi ->.
  rewrite (quot_signed _ _ (Z.abs n * 2 ^ i / Z.abs d)); [|done|].
  2: { by rewrite Z.abs_mul, (Z.abs_eq (2 ^ i)) by lia. }
  replace (Z.lxor (n * 2 ^ i) d <? 0) with (Z.lxor n d <? 0).
  - case_match; by autorewrite with wrap.
  - pose proof (Z.lxor_nonneg n d). pose proof (Z.lxor_nonneg (n * 2 ^ i) d).
    assert (0 < 2 ^ i) by lia. assert (0 <= n <-> 0 <= n * 2 ^ i) by nia. lia.
Qed.

(** The quotient the division loops compute. *)
Lemma gglDivQ_value n d i :
  d <> 0 -> - 2 ^ 31 < n < 2 ^ 31 -> - 2 ^ 31 < d < 2 ^ 31 -> 0 <= i ->
  gglDivQ n d i =
    if 1 <=? divq_bits n d i then Some (s32 (Z.quot (n * 2 ^ i) d)) else None.
Proof.
  intros Hd0 Hn Hd Hi. unfold gglDivQ, divq_bits. rewrite !abs_if by done.
  set (nd := gglClz (Z.abs d) - gglClz (Z.abs n)).
  rewrite land7, Z.shiftr_div_pow2 by lia. change (2 ^ 3) with 8. cbv zeta.
  remember (i + nd + 1) as b eqn:Hb.
  pose proof (Z.div_mod b 8 ltac:(done)) as Hdm.
  pose proof (Z.mod_pos_bound b 8 ltac:(done)) as Hj.
  remember (b / 8) as k eqn:Hk. remember (b mod 8) as j eqn:Hjdef. clear Hk Hjdef.
  destruct (Z.leb_spec 1 b) as [Hb1|Hb1].
  2: { destruct (if 0 <? nd then _ else _) as [m e].
    destruct (Z.eqb_spec k 0) as [E|E]; cbn [negb].
    - by destruct (Z.ltb_spec (j - 1) 0); [|lia].
    - by destruct (Z.ltb_spec k 0); [|lia]. }
  pose proof (divq_normalise (Z.abs n) (Z.abs d) i) as Hnorm.
  cbv zeta in Hnorm. fold nd in Hnorm.
  destruct Hnorm as (m & e & -> & He & Hm & Hm31 & Hq); try lia.
  replace (i + nd) with (b - 1) in Hq by lia.
  rewrite (s32_id (m - e)) by (unfold is_s32; lia).
  rewrite <-(divq_sign n d i m e b) by done.
  destruct (Z.eqb_spec k 0) as [E|E]; cbn [negb].
  - destruct (Z.ltb_spec (j - 1) 0) as [F|F]; [lia|].
    rewrite divq_first_bit, divq_tail_spec by done.
    by replace (Z.of_nat (Z.to_nat (j - 1))) with (b - 1) by lia.
  - destruct (Z.ltb_spec k 0); [lia|].
    rewrite divq_blocks_spec, divq_tail_spec by (done || lia).
    rewrite !Z2Nat.id, Z.mul_assoc, <-Z.pow_add_r by lia.
    by replace (j + (8 * k - 1)) with (b - 1) by lia.
Qed.

(** C37: [gglDivQ n d i] is the truncated quotient of [n * 2^i] by [d], wrapped to
    32 bits, exactly when the quotient has at least one bit to generate; it
    never returns otherwise. *)
Theorem gglDivQ_correct n d i :
  d <> 0 -> - 2 ^ 31 < n < 2 ^ 31 -> - 2 ^ 31 < d < 2 ^ 31 -> 0 <= i ->
  gglDivQ n d i =
    if 1 <=? divq_bits n d i then Some (s32 (Z.quot (n * 2 ^ i) d)) else None.
Proof. apply gglDivQ_value. Qed.

(** ** Multiply-divide *)

Section SlowMulDiv.
Context (ab c : Z) (Hc : 0 < c < 2 ^ 31) (Hab : 0 <= ab) (Hhi : ab / 2 ^ 32 < c).

(** The state after [k] steps: the top [32 + k] bits of [ab] are divided. *)
Definition slow_state (k : Z) : Z * Z * Z :=
  let M := ab / 2 ^ (32 - k) in (M mod c, u32 (ab * 2 ^ k), u32 (M / c)).

Lemma slow_step_state k : 0 <= k < 32 -> slow_step c (slow_state k) = slow_state (k + 1).
Proof using Hc Hab.
  intros Hk. unfold slow_state. set (M := ab / 2 ^ (32 - k)).
  set (bit := Z.shiftr (u32 (ab * 2 ^ k)) 31).
  assert (bit = (ab / 2 ^ (31 - k)) mod 2) as Hbit.
  { subst bit. rewrite Z.shiftr_div_pow2 by lia.
    transitivity (ab * 2 ^ k / 2 ^ 31 mod 2); [wrap_lia|].
    replace (2 ^ 31) with (2 ^ (31 - k) * 2 ^ k) by (rewrite <-Z.pow_add_r by lia; f_equal; lia).
    by rewrite Z.div_mul_cancel_r by lia. }
  assert (ab / 2 ^ (32 - (k + 1)) = 2 * M + bit) as ->.
  { replace (32 - (k + 1)) with (31 - k) by lia. subst M.
    replace (32 - k) with (31 - k + 1) by lia.
    rewrite Z.pow_add_r, <-Z.div_div by lia. rewrite Hbit. clear. div_lia. }
  assert (0 <= bit < 2) as Hb by (rewrite Hbit; apply Z.mod_pos_bound; lia).
  pose proof (Z.mod_pos_bound M c ltac:(lia)) as HM.
  unfold slow_step. fold bit.
  replace (Z.lor (u32 (Z.shiftl (M mod c) 1)) bit) with (2 * (M mod c) + bit).
  2: { rewrite Z.shiftl_mul_pow2, u32_id by (unfold is_u32; lia).
    rewrite lor_add_small by lia. lia. }
  replace (u32 (Z.shiftl (u32 (ab * 2 ^ k)) 1)) with (u32 (ab * 2 ^ (k + 1))).
  2: { rewrite Z.shiftl_mul_pow2, Z.pow_add_r by lia. set (X := ab * 2 ^ k).
    replace (ab * (2 ^ k * 2 ^ 1)) with (X * 2 ^ 1) by (subst X; ring). clear. wrap_lia. }
  assert (u32 (Z.shiftl (u32 (M / c)) 1) = (M / c) mod 2 ^ 31 * 2 ^ (0 + 1)) as ->.
  { rewrite Z.shiftl_mul_pow2 by lia. set (A := M / c). clear. wrap_lia. }
  assert (2 * M + bit = c * (2 * (M / c)) + (2 * (M mod c) + bit)) as E
    by (pose proof (Z.div_mod M c ltac:(lia)); lia).
  change 1 with (2 ^ 0) at 4.
  destruct (Z.leb_spec c (2 * (M mod c) + bit)).
  - rewrite lor_low_bit by lia. rewrite u32_id by (unfold is_u32; lia).
    rewrite <-(Z.mod_unique (2 * M + bit) c (2 * (M / c) + 1) (2 * (M mod c) + bit - c)) by lia.
    rewrite <-(Z.div_unique (2 * M + bit) c (2 * (M / c) + 1) (2 * (M mod c) + bit - c)) by lia.
    f_equal. set (A := M / c). clear. wrap_lia.
  - rewrite <-(Z.mod_unique (2 * M + bit) c (2 * (M / c)) (2 * (M mod c) + bit)) by lia.
    rewrite <-(Z.div_unique (2 * M + bit) c (2 * (M / c)) (2 * (M mod c) + bit)) by lia.
    f_equal. set (A := M / c). clear. wrap_lia.
Qed.

Lemma slow_iter n :
  (n <= 32)%nat -> Nat.iter n (slow_step c) (slow_state 0) = slow_state (Z.of_nat n).
Proof using Hc Hab.
  induction n as [|n IH]; intros Hn; [done|].
  simpl. rewrite IH, slow_step_state by lia. f_equal. lia.
Qed.

Lemma slow_start : slow_state 0 = (ab / 2 ^ 32, u32 ab, 0).
Proof using Hc Hab Hhi.
  assert (0 <= ab / 2 ^ 32) by (apply Z.div_pos; lia).
  unfold slow_state. rewrite Z.sub_0_r, Z.mul_1_r, Z.mod_small, (Z.div_small (_ / _)) by lia. done.
Qed.

(** The 64-by-32 division computes the quotient modulo [2^32]. *)
Lemma slow_iter_result :
  let '(_, _, result) := Nat.iter 32 (slow_step c) (ab / 2 ^ 32, u32 ab, 0) in
  result = u32 (ab / c).
Proof using Hc Hab Hhi.
  rewrite <-slow_start, slow_iter by lia. unfold slow_state.
  change (2 ^ (32 - Z.of_nat 32)) with 1. by rewrite Z.div_1_r.
Qed.
End SlowMulDiv.

Lemma slow_muldiv_spec a b c :
  0 <= a < 2 ^ 31 -> 0 <= b < 2 ^ 31 -> 0 < c < 2 ^ 31 -> a * b / c < 2 ^ 31 ->
  slow_muldiv a b c = a * b / c.
Proof.
  intros Ha Hb Hc Hq. unfold slow_muldiv. cbv zeta.
  assert (0 <= a * b) as Hp by nia. assert (a * b < 2 ^ 62) as Hp' by nia.
  assert (a * b < 2 ^ 31 * c) as Hlt.
  { destruct (Z.lt_ge_cases (a * b) (2 ^ 31 * c)) as [|G]; [done|].
    apply (Z.div_le_mono _ _ c) in G; [|lia]. rewrite Z.div_mul in G by lia. lia. }
  assert (0 <= a * b / c) by (apply Z.div_pos; lia).
  rewrite Z.shiftr_div_pow2 by lia.
  assert (0 <= a * b / 2 ^ 32) by (apply Z.div_pos; lia).
  assert (a * b / 2 ^ 32 < c) as Hhi by (apply Z.div_lt_upper_bound; lia).
  rewrite (u32_id (a * b / 2 ^ 32)) by (unfold is_u32; lia).
  destruct (Z.leb_spec c (a * b / 2 ^ 32)); [lia|].
  destruct (Z.eqb_spec (a * b / 2 ^ 32) 0) as [E|E].
  - assert (a * b < 2 ^ 32) by (apply Z.div_small_iff in E; lia).
    rewrite (u32_id (a * b)) by (unfold is_u32; lia).
    rewrite Z.shiftr_div_pow2, (Z.div_small (a * b / c)) by lia. simpl.
    apply s32_id. unfold is_s32. lia.
  - pose proof (slow_iter_result (a * b) c Hc Hp Hhi) as Hr.
    destruct (Nat.iter _ _ _) as [[r lo] result]. subst result.
    rewrite s32_u32. apply s32_id. unfold is_s32. lia.
Qed.

Lemma s32_neg z : (s32 z <? 0) = Z.odd (z / 2 ^ 31).
Proof.
  pose proof (Zmod_odd (z / 2 ^ 31)) as H.
  destruct (Z.odd (z / 2 ^ 31)), (Z.ltb_spec (s32 z) 0); try done; wrap_lia.
Qed.

Section QuickMulDiv.
Context (a b c : Z) (Ha : 0 < a < 2 ^ 31) (Hb : 0 <= b <= c) (Hc : 2 * (c - 1) + b < 2 ^ 31)
  (Hc0 : 0 < c).

Let i := 32 - gglClz a.

(** The state after [k] steps: the top [k] of the [i] bits of [a] are done. *)
Definition quick_state (k : Z) : Z * Z * Z :=
  let p := a / 2 ^ (i - k) in (s32 (a * 2 ^ (gglClz a + k)), p * b mod c, p * b / c).

Lemma quick_step_state k : 0 <= k < i -> quick_step b c (quick_state k) = quick_state (k + 1).
Proof using Ha Hb Hc Hc0.
  intros Hk. unfold quick_state. pose proof (gglClz_range a Ha) as Rl.
  set (p := a / 2 ^ (i - k)). set (p' := a / 2 ^ (i - (k + 1))).
  assert ((s32 (a * 2 ^ (gglClz a + k)) <? 0) = Z.odd p') as Hbit.
  { rewrite s32_neg. f_equal. subst p'.
    replace (2 ^ 31) with (2 ^ (i - (k + 1)) * 2 ^ (gglClz a + k))
      by (rewrite <-Z.pow_add_r by lia; f_equal; lia).
    rewrite Z.div_mul_cancel_r by lia. done. }
  assert (p = p' / 2) as Hp.
  { subst p p'. rewrite Z.div_div by lia. f_equal.
    rewrite Z.mul_comm, <-Z.pow_succ_r by lia. f_equal. lia. }
  assert (0 <= p' <= a) as Hp'.
  { subst p'. split; [apply Z.div_pos; lia|]. apply Z.div_le_upper_bound; [lia|].
    assert (0 < 2 ^ (i - (k + 1))) by lia. nia. }
  pose proof (Z.mod_pos_bound (p * b) c Hc0) as Hr.
  assert (p * b = c * (p * b / c) + p * b mod c) as Hdm by (apply Z.div_mod; lia).
  set (r := p * b mod c) in *. set (q := p * b / c) in *.
  assert (0 <= q <= p) as Hq.
  { subst q. assert (0 <= p) by (subst p; div_lia).
    split; [apply Z.div_pos; nia|]. apply Z.div_le_upper_bound; nia. }
  assert (2 * p <= p' < 2 ^ 31) as Hpp by div_lia.
  set (e := if Z.odd p' then 1 else 0).
  assert (p' = 2 * p + e) as Hpe.
  { subst e. rewrite Hp. pose proof (Zmod_odd p'). clear - H. destruct (Z.odd p'); div_lia. }
  unfold quick_step. rewrite Hbit.
  rewrite !Z.shiftl_mul_pow2 by lia. rewrite (s32_id (r * 2 ^ 1)) by (unfold is_s32; lia).
  rewrite (s32_id (q * 2 ^ 1)) by (unfold is_s32; lia).
  replace (if Z.odd p' then s32 (r * 2 ^ 1 + b) else r * 2 ^ 1) with (2 * r + e * b).
  2: { subst e. destruct (Z.odd p'); [rewrite s32_id by (unfold is_s32; lia)|]; lia. }
  assert (0 <= e <= 1) as He by (subst e; case_match; lia).
  assert (0 <= e * b <= b) as Heb by (destruct (Z.eq_dec e 0) as [->|]; [|replace e with 1 by lia]; lia).
  assert (p' * b = c * (2 * q) + (2 * r + e * b)) as Hdm' by (rewrite Hpe; lia).
  replace (s32 (s32 (a * 2 ^ (gglClz a + k)) * 2 ^ 1)) with (s32 (a * 2 ^ (gglClz a + (k + 1)))).
  2: { rewrite Z.add_assoc, (Z.pow_add_r 2 (gglClz a + k)) by lia.
    set (X := 2 ^ (gglClz a + k)). rewrite Z.mul_assoc. set (Y := a * X). clear. wrap_lia. }
  assert (forall t, c * t <= p' * b -> t <= p') as Hqp.
  { intros t Ht. assert (p' * b <= p' * c) by (apply Z.mul_le_mono_nonneg_l; lia).
    apply Z.mul_le_mono_pos_l with c; lia. }
  destruct (Z.leb_spec c (2 * r + e * b)).
  - pose proof (Hqp (2 * q + 1) ltac:(lia)).
    rewrite (s32_id (2 * r + e * b - c)), (s32_id (q * 2 ^ 1 + 1)) by (unfold is_s32; lia).
    destruct (Z.leb_spec c (2 * r + e * b - c)).
    + pose proof (Hqp (2 * q + 2) ltac:(lia)).
      rewrite (s32_id (_ - c - c)), (s32_id (q * 2 ^ 1 + 1 + 1)) by (unfold is_s32; lia).
      rewrite <-(Z.mod_unique (p' * b) c (2 * q + 2) (2 * r + e * b - c - c)) by lia.
      rewrite <-(Z.div_unique (p' * b) c (2 * q + 2) (2 * r + e * b - c - c)) by lia.
      f_equal. lia.
    + rewrite <-(Z.mod_unique (p' * b) c (2 * q + 1) (2 * r + e * b - c)) by lia.
      rewrite <-(Z.div_unique (p' * b) c (2 * q + 1) (2 * r + e * b - c)) by lia.
      f_equal. lia.
  - destruct (Z.leb_spec c (2 * r + e * b)); [lia|].
    rewrite <-(Z.mod_unique (p' * b) c (2 * q) (2 * r + e * b)) by lia.
    rewrite <-(Z.div_unique (p' * b) c (2 * q) (2 * r + e * b)) by lia.
    f_equal. lia.
Qed.

Lemma quick_iter n :
  Z.of_nat n <= i -> Nat.iter n (quick_step b c) (quick_state 0) = quick_state (Z.of_nat n).
Proof using Ha Hb Hc Hc0.
  induction n as [|n IH]; intros Hn; [done|].
  simpl. rewrite IH, quick_step_state by lia. f_equal. lia.
Qed.

Lemma quick_muldiv_spec : quick_muldiv a b c = Some (a * b / c).
Proof using Ha Hb Hc Hc0.
  pose proof (gglClz_range a Ha) as Rl. unfold quick_muldiv. cbv zeta. fold i.
  destruct (Z.eqb_spec i 0); [lia|].
  assert (a < 2 ^ i).
  { subst i. rewrite gglClz_pos by done. replace (32 - (31 - Z.log2 a)) with (Z.succ (Z.log2 a)) by lia.
    apply Z.log2_spec. lia. }
  replace (s32 (Z.shiftl a (gglClz a)), 0, 0) with (quick_state 0).
  2: { unfold quick_state. rewrite Z.sub_0_r, (Z.div_small a), Z.mul_0_l by lia.
    rewrite Z.mod_0_l, Z.div_0_l, Z.shiftl_mul_pow2, Z.add_0_r by lia. done. }
  rewrite quick_iter, Z2Nat.id by lia. unfold quick_state.
  by rewrite Z.sub_diag, Z.div_1_r.
Qed.
End QuickMulDiv.

Lemma mul_sign a b : a * b = 0 \/ (0 <= a * b <-> (0 <= a <-> 0 <= b)).
Proof.
  destruct (Z.lt_trichotomy a 0) as [|[|]]; destruct (Z.lt_trichotomy b 0) as [|[|]];
    subst; (right; nia) || (left; nia).
Qed.

Lemma min_max_if a b : (if a <? b then (b, a) else (a, b)) = (Z.max a b, Z.min a b).
Proof. destruct (Z.ltb_spec a b); f_equal; lia. Qed.

(** [gglMulDivi a b c] is [a*b/c] with 64-bit intermediate accuracy, truncated
    toward zero: whenever the result fits an [int32_t], the divisor is not 0,
    and in the fast path, taken when the smaller operand is at most [c], twice
    the remainder plus that operand fits too. *)
Theorem gglMulDivi_correct a b c :
  - 2 ^ 31 < a < 2 ^ 31 -> - 2 ^ 31 < b < 2 ^ 31 -> - 2 ^ 31 < c < 2 ^ 31 ->
  c <> 0 -> (a <> 0 \/ b <> 0) ->
  Z.abs a * Z.abs b / Z.abs c < 2 ^ 31 ->
  (Z.min (Z.abs a) (Z.abs b) <= Z.abs c ->
     2 * (Z.abs c - 1) + Z.min (Z.abs a) (Z.abs b) < 2 ^ 31) ->
  gglMulDivi a b c = Some (Z.quot (a * b) c).
Proof.
  intros Ha Hb Hc Hc0 Hab Hfit Hq. unfold gglMulDivi. rewrite !abs_if by done.
  rewrite min_max_if. set (x := Z.max _ _). set (y := Z.min _ _) in *.
  assert (Z.abs a * Z.abs b = x * y) as E by (subst x y; lia || nia). rewrite E in Hfit.
  assert ((if y <=? Z.abs c then quick_muldiv x y (Z.abs c)
           else Some (slow_muldiv (u32 x) (u32 y) (u32 (Z.abs c)))) = Some (x * y / Z.abs c)) as ->.
  { destruct (Z.leb_spec y (Z.abs c)).
    - apply quick_muldiv_spec; lia.
    - rewrite !u32_id by (unfold is_u32; lia). f_equal. apply slow_muldiv_spec; lia. }
  cbn [mbind option_bind]. f_equal.
  rewrite (quot_signed (a * b) c (x * y / Z.abs c)) by (rewrite ?Z.abs_mul, ?E; done).
  assert (0 <= x * y / Z.abs c) by (apply Z.div_pos; [rewrite <-E; apply Z.mul_nonneg_nonneg|]; lia).
  assert (0 = a * b -> x * y / Z.abs c = 0) as H0.
  { intros H0. rewrite <-E, <-Z.abs_mul, <-H0. apply Z.div_0_l. lia. }
  set (q := x * y / Z.abs c) in *. rewrite (s32_id (- q)) by (unfold is_s32; lia).
  pose proof (Z.lxor_nonneg (Z.lxor a b) c) as L1. pose proof (Z.lxor_nonneg a b) as L2.
  pose proof (Z.lxor_nonneg (a * b) c) as L3.
  pose proof (mul_sign a b) as S.
  remember (a * b) as ab. clearbody q. destruct S as [S|S].
  - rewrite (H0 (eq_sym S)). by repeat case_match.
  - rewrite L2, <-S, <-L3 in L1.
    destruct (Z.ltb_spec (Z.lxor (Z.lxor a b) c) 0), (Z.ltb_spec (Z.lxor ab c) 0); lia.
Qed.

(** ** Square root *)

(** The trial value: the increase of [r^2], scaled down and truncated. *)
Lemma sqrtx_temp_spec st k R :
  0 <= k <= 23 -> sq_bit st = 2 ^ k -> sq_bshift st = k - 8 ->
  sq_r st = R * 2 ^ (k + 1) -> 0 <= R -> (k = 23 -> R = 0) -> sq_r st < 12000000 ->
  let t := 2 ^ k * (2 ^ k + 2 * sq_r st) in
  2 ^ 16 * sqrtx_temp st <= t
  /\ t < 2 ^ 16 * sqrtx_temp st + (if k <? 16 then 2 ^ 16 else 1).
Proof.
  intros Hk Eb Es Er HR H23 Hr. unfold sqrtx_temp. cbv zeta.
  rewrite Eb, Es, (Z.shiftl_mul_pow2 (sq_r st) 1) by lia.
  set (r := sq_r st) in *.
  assert (0 <= r) by (rewrite Er; apply Z.mul_nonneg_nonneg; lia).
  assert (0 < 2 ^ k <= 2 ^ 23) as Hp by (split; [lia|apply Z.pow_le_mono_r; lia]).
  rewrite (s32_id (2 ^ k + r * 2 ^ 1)) by (unfold is_s32; lia).
  replace (r * 2 ^ 1) with (2 * r) by lia.
  destruct (Z.leb_spec 8 (k - 8)).
  - destruct (Z.ltb_spec k 16); [lia|].
    assert (2 ^ 16 * ((2 ^ k + 2 * r) * 2 ^ (k - 8 - 8)) = 2 ^ k * (2 ^ k + 2 * r)) as E.
    { rewrite (Z.mul_comm (_ + _)), Z.mul_assoc, <-Z.pow_add_r by lia.
      f_equal. f_equal. lia. }
    assert (2 ^ k * (2 ^ k + 2 * r) < 2 ^ 16 * 2 ^ 31) as Hlt.
    { destruct (Z.eq_dec k 23) as [->|].
      - rewrite H23 in Er by done. rewrite Er. lia.
      - assert (2 ^ k <= 2 ^ 22) by (apply Z.pow_le_mono_r; lia). nia. }
    assert (0 <= 2 ^ (k - 8 - 8)) by lia.
    rewrite Z.shiftl_mul_pow2 by lia. rewrite s32_id.
    2: { split; [|apply Z.mul_lt_mono_pos_l with (2 ^ 16); [lia|by rewrite E]].
      transitivity 0; [done|]. apply Z.mul_nonneg_nonneg; lia. }
    rewrite E. lia.
  - destruct (Z.ltb_spec k 16); [|lia].
    rewrite Z.shiftr_div_pow2 by lia.
    assert (2 ^ 16 = 2 ^ k * 2 ^ (8 - (k - 8))) as E
      by (rewrite <-Z.pow_add_r by lia; f_equal; lia).
    set (P := 2 ^ k) in *. set (Q := 2 ^ (8 - (k - 8))) in *.
    assert (0 < Q) by (subst Q; lia). rewrite E.
    pose proof (Z.div_mod (P + 2 * r) Q ltac:(lia)) as D.
    pose proof (Z.mod_pos_bound (P + 2 * r) Q ltac:(lia)) as M.
    set (d := (P + 2 * r) / Q) in *. nia.
Qed.

Section Sqrtx.
Context (a0 : Z) (Ha0 : 0 <= a0 < 2 ^ 31).

(** Before bit [2^k] is tried: [r] has only higher bits, the square of [r]
    plus the remainder is [2^16 * a0] up to the truncations of the steps
    below bit 16, and [r] plus all the remaining bits is above the root. *)
Definition sqrt_inv (st : sqrt_t) : Prop :=
  exists k R, 0 <= k <= 23 /\ sq_bit st = 2 ^ k /\ sq_bshift st = k - 8
    /\ sq_r st = R * 2 ^ (k + 1) /\ 0 <= R /\ (k = 23 -> R = 0) /\ 0 <= sq_a st
    /\ 2 ^ 16 * a0 < (sq_r st + 2 ^ (k + 1)) ^ 2
    /\ 2 ^ 16 * a0 <= sq_r st ^ 2 + 2 ^ 16 * sq_a st
    /\ sq_r st ^ 2 + 2 ^ 16 * sq_a st <= 2 ^ 16 * (a0 + Z.max 0 (15 - k)).

Definition sqrt_post (st : sqrt_t) : Prop :=
  sq_bit st = 0 /\ 0 <= sq_r st /\ 2 ^ 16 * a0 < (sq_r st + 1) ^ 2
  /\ sq_r st ^ 2 <= 2 ^ 16 * (a0 + 16).

Lemma sqrt_step st : sqrt_inv st -> sqrt_inv (sqrtx_step st) \/ sqrt_post (sqrtx_step st).
Proof using Ha0.
  intros (k & R & Hk & Eb & Es & Er & HR & H23 & Ha & HU & HL & HE).
  assert (0 <= sq_r st) as Hr0 by (rewrite Er; apply Z.mul_nonneg_nonneg; lia).
  assert (sq_r st < 12000000) as Hr.
  { clear - HE HL Ha Ha0 Hk Hr0. destruct (Z.lt_ge_cases (sq_r st) 12000000); [done|].
    assert (12000000 * 12000000 <= sq_r st * sq_r st) by (apply Z.mul_le_mono_nonneg; lia). lia. }
  pose proof (sqrtx_temp_spec st k R Hk Eb Es Er HR H23 Hr) as [T1 T2].
  assert (2 ^ (k + 1) = 2 * 2 ^ k) as E1 by (rewrite Z.pow_add_r; lia).
  assert (0 < 2 ^ k) as Hp by lia.
  set (r := sq_r st) in *. set (a := sq_a st) in *. set (tmp := sqrtx_temp st) in *.
  set (c := if k <? 16 then 2 ^ 16 else 1) in *.
  assert (exists r' a' R', sqrtx_step st = mk_sqrt a' r' (Z.shiftr (2 ^ k) 1) (k - 8 - 1)
    /\ 0 <= r' /\ 0 <= a' /\ (r' = R' * 2 ^ k /\ 0 <= R')
    /\ 2 ^ 16 * a0 < (r' + 2 ^ k) ^ 2 /\ 2 ^ 16 * a0 <= r' ^ 2 + 2 ^ 16 * a'
    /\ r' ^ 2 + 2 ^ 16 * a' <= 2 ^ 16 * (a0 + Z.max 0 (15 - k)) + (c - 1))
    as (r' & a' & R' & Est & Hr' & Ha' & [ER HR'] & HU' & HL' & HE').
  { unfold sqrtx_step. fold tmp a r. rewrite Eb, Es.
    destruct (Z.leb_spec tmp a) as [C|C].
    - exists (r + 2 ^ k), (a - tmp), (2 * R + 1). split; [done|].
      split; [lia|]. split; [lia|]. split; [split; [rewrite Er, E1; ring|lia]|].
      replace (r + 2 ^ k + 2 ^ k) with (r + 2 ^ (k + 1)) by lia.
      assert ((r + 2 ^ k) ^ 2 = r ^ 2 + 2 ^ k * (2 ^ k + 2 * r)) by ring.
      split; [done|]. split; lia.
    - exists r, a, (2 * R). split; [done|].
      split; [lia|]. split; [lia|]. split; [split; [rewrite Er, E1; ring|lia]|].
      assert ((r + 2 ^ k) ^ 2 = r ^ 2 + 2 ^ k * (2 ^ k + 2 * r)) by ring.
      split; [lia|]. split; [lia|]. subst c. case_match; lia. }
  rewrite Est. destruct (Z.eq_dec k 0) as [->|Hk0].
  - right. unfold sqrt_post. cbn [sq_bit sq_r]. subst c. simpl in HU', HE'.
    split; [done|]. split; [done|]. split; [done|]. lia.
  - left. exists (k - 1), R'.
    cbn [sq_a sq_r sq_bit sq_bshift]. replace (k - 1 + 1) with k by lia.
    split; [lia|]. split; [rewrite Z.shiftr_div_pow2 by lia; rewrite <-Z.pow_sub_r by lia; f_equal; lia|].
    split; [clear - Hk; lia|]. split; [done|]. split; [done|]. split; [clear - Hk; lia|].
    split; [done|]. split; [done|]. split; [done|].
    subst c. clear - Hk HE'. destruct (Z.ltb_spec k 16); lia.
Qed.
End Sqrtx.

(** [gglSqrtx a] always returns, and its result [r] brackets the square root:
    [r + 1] is above the root of [a] and [r] is at most the root of [a] plus
    sixteen units in the last place, the truncations of the low steps. *)
Theorem gglSqrtx_spec a :
  0 <= a < 2 ^ 31 ->
  exists r, gglSqrtx a = Some r /\ 0 <= r
    /\ 2 ^ 16 * a < (r + 1) ^ 2 /\ r ^ 2 <= 2 ^ 16 * (a + 16).
Proof.
  intros Ha. unfold gglSqrtx.
  destruct (do_while_total (fun st => negb (sq_bit st =? 0)) sqrtx_step (sqrt_inv a)
    (fun st => sqrt_inv a st \/ sqrt_post a st) (fun st => Z.log2 (sq_bit st)) 24
    (mk_sqrt a 0 0x800000 15)) as (st & -> & HJ & Hend).
  - apply sqrt_step. done.
  - intros st [|(-> & _)]; [done|discriminate].
  - intros st (k & R & Hk & Eb & H). unfold sqrtx_step. rewrite Eb.
    destruct (if sqrtx_temp st <=? sq_a st then _ else _) as [r' a']. cbn [sq_bit].
    rewrite Z.log2_pow2 by lia. destruct (Z.eq_dec k 0) as [->|]; [done|]. intros _.
    rewrite Z.log2_shiftr, Z.log2_pow2 by lia. lia.
  - exists 23, 0. cbn. repeat split; try lia.
  - cbn. lia.
  - cbn. lia.
  - destruct HJ as [(k & R & Hk & Eb & _)|(_ & HP)]; [|by exists (sq_r st)].
    rewrite Eb in Hend. destruct (Z.eqb_spec (2 ^ k) 0); [lia|done].
Qed.

(** ** Reciprocal *)

Section Newton.
Context (a : Z) (Ha : 2 ^ 31 < a < 2 ^ 32).

(** The scaled error of an approximation [r] of the reciprocal of [a]. *)
Definition recip_err (r : Z) : Z := 2 ^ 62 - a * r.

Lemma recip_newton_spec r B :
  0 <= B <= 2 ^ 59 -> Z.abs (recip_err r) <= B -> 0 <= r < 2 ^ 32 ->
  0 <= recip_newton a r < 2 ^ 32
  /\ 2 ^ 62 * Z.abs (recip_err (recip_newton a r)) <= B * B + 2 ^ 96.
Proof using Ha.
  intros HB HE Hr. unfold recip_newton.
  rewrite !Z.shiftr_div_pow2 by lia. change (Z.shiftl 2 30) with (2 ^ 31).
  set (t := a * r / 2 ^ 32).
  assert (a * r = 2 ^ 32 * t + (a * r) mod 2 ^ 32) as Ht by (apply Z.div_mod; lia).
  pose proof (Z.mod_pos_bound (a * r) (2 ^ 32) ltac:(lia)) as Hf.
  set (f := (a * r) mod 2 ^ 32) in *. set (E := recip_err r) in *.
  assert (a * r = 2 ^ 62 - E) as HEr by (subst E; unfold recip_err; lia).
  assert (0 <= t < 2 ^ 31) as Ht31 by lia.
  rewrite (u32_id t), (u64_id (2 ^ 31 - t)) by (unfold is_u32; lia).
  assert (0 <= (2 ^ 31 - t) * r) as H0 by (apply Z.mul_nonneg_nonneg; lia).
  assert ((2 ^ 31 - t) * r <= 2 ^ 31 * r) as H1 by (apply Z.mul_le_mono_nonneg_r; lia).
  rewrite u64_id by lia.
  set (s := (2 ^ 31 - t) * r / 2 ^ 30).
  assert ((2 ^ 31 - t) * r = 2 ^ 30 * s + ((2 ^ 31 - t) * r) mod 2 ^ 30) as Hs
    by (apply Z.div_mod; lia).
  pose proof (Z.mod_pos_bound ((2 ^ 31 - t) * r) (2 ^ 30) ltac:(lia)) as Hg.
  set (g := ((2 ^ 31 - t) * r) mod 2 ^ 30) in *.
  assert (2 ^ 62 * recip_err s = E * E - f * (2 ^ 62 - E) + 2 ^ 32 * (a * g)) as HE'.
  { unfold recip_err.
    transitivity (2 ^ 124 - 2 ^ 32 * (a * (2 ^ 30 * s))); [ring|].
    replace (2 ^ 30 * s) with ((2 ^ 31 - t) * r - g) by lia.
    replace (2 ^ 32 * (a * ((2 ^ 31 - t) * r - g)))
      with ((2 ^ 63 - 2 ^ 32 * t) * (a * r) - 2 ^ 32 * (a * g)) by ring.
    replace (2 ^ 32 * t) with (a * r - f) by lia. rewrite HEr. ring. }
  assert (0 <= a * g < 2 ^ 62) as Hag.
  { split; [apply Z.mul_nonneg_nonneg; lia|].
    change (2 ^ 62) with (2 ^ 32 * 2 ^ 30). apply Z.mul_lt_mono_nonneg; lia. }
  assert (0 <= f * (2 ^ 62 - E) <= 2 ^ 95) as HfE.
  { split; [apply Z.mul_nonneg_nonneg; lia|].
    transitivity (2 ^ 32 * (2 ^ 62 - E)); [apply Z.mul_le_mono_nonneg_r|]; lia. }
  assert (0 <= E * E <= B * B) as HEE.
  { rewrite <-Z.abs_square. split; [apply Z.square_nonneg|apply Z.mul_le_mono_nonneg; lia]. }
  assert (2 ^ 62 * Z.abs (recip_err s) <= B * B + 2 ^ 96) as Hres.
  { rewrite <-(Z.abs_eq (2 ^ 62)), <-Z.abs_mul, HE' by lia. lia. }
  assert (B * B <= 2 ^ 59 * 2 ^ 59) by (apply Z.mul_le_mono_nonneg; lia).
  assert (0 <= s < 2 ^ 32) as Hs32.
  { split; [apply Z.div_pos; lia|]. apply Z.mul_lt_mono_pos_l with a; [lia|].
    unfold recip_err in Hres. lia. }
  rewrite u32_id by done. done.
Qed.

Lemma recip_seed :
  let r := u32 (Z.shiftl 0x2E800 (30 - 16) - Z.shiftr a (2 - 1)) in
  0 <= r < 2 ^ 32 /\ Z.abs (recip_err r) <= 100663297 * 2 ^ 32.
Proof using Ha.
  change (Z.shiftl 0x2E800 (30 - 16)) with 3120562176. change (2 - 1) with 1.
  rewrite Z.shiftr_div_pow2 by lia. change (2 ^ 1) with 2. cbv zeta.
  pose proof (Z.div_mod a 2 ltac:(done)). pose proof (Z.mod_pos_bound a 2 ltac:(done)).
  set (h := a / 2) in *. rewrite u32_id by (unfold is_u32; lia).
  split; [lia|]. unfold recip_err.
  assert (0 <= (a - 2 ^ 31) * (2 ^ 32 - a)) by (apply Z.mul_nonneg_nonneg; lia).
  assert (0 <= (a - 3120562176) * (a - 3120562176)) by (apply Z.square_nonneg || nia).
  assert (a * (2 * h) = a * a - a * (a mod 2)) by (rewrite <-Z.mul_sub_distr_l; f_equal; lia).
  assert (0 <= a * (a mod 2) <= a) by nia.
  apply Z.abs_le. split; lia.
Qed.

Lemma recip_two_steps :
  let r := u32 (Z.shiftl 0x2E800 (30 - 16) - Z.shiftr a (2 - 1)) in
  let r2 := recip_newton a (recip_newton a r) in
  0 <= r2 < 2 ^ 32 /\ 12910 * Z.abs (recip_err r2) <= 2 ^ 62.
Proof using Ha.
  cbv zeta. destruct recip_seed as [Hr HE]. cbv zeta in Hr, HE.
  set (r := u32 _) in *.
  destruct (recip_newton_spec r (100663297 * 2 ^ 32) ltac:(lia) HE Hr) as [Hr1 HE1].
  destruct (recip_newton_spec (recip_newton a r) 40532414631510100 ltac:(lia)) as [Hr2 HE2];
    [lia|done|]. split; [done|lia].
Qed.
End Newton.

Lemma sign_shift x : - 2 ^ 31 <= x < 2 ^ 31 -> (Z.shiftr x 31 =? 0) = (0 <=? x).
Proof.
  intros Hx. rewrite Z.shiftr_div_pow2 by lia.
  destruct (Z.eqb_spec (x / 2 ^ 31) 0), (Z.leb_spec 0 x); div_lia.
Qed.

Lemma u32_abs x : - 2 ^ 31 < x < 2 ^ 31 -> u32 (if Z.shiftr x 31 =? 0 then x else - x) = Z.abs x.
Proof.
  intros Hx. rewrite sign_shift by lia.
  destruct (Z.leb_spec 0 x); rewrite u32_id by (unfold is_u32; lia); lia.
Qed.

(** [gglRecipQNormalized x] returns a mantissa [r] and an exponent [e] with
    [r * x = 2^(32 + e)] to a relative error below 1/12900. *)
Theorem gglRecipQNormalized_accuracy x :
  2 < Z.abs x < 2 ^ 31 ->
  let '(r, e) := gglRecipQNormalized x in
  e = 29 - gglClz (Z.abs x) /\ Z.abs r <= 2 ^ 30 + 2 ^ 28
  /\ 12900 * Z.abs (2 ^ (32 + e) - r * x) <= 2 ^ (32 + e).
Proof.
  intros Hx. unfold gglRecipQNormalized. rewrite u32_abs by lia.
  destruct (Z.leb_spec (Z.abs x) 2); [lia|]. cbv zeta. rewrite s32_id by (unfold is_s32; lia).
  set (y := Z.abs x) in *. pose proof (gglClz_range y ltac:(lia)) as Rl.
  pose proof (gglClz_norm y ltac:(lia)) as NN. set (lz := gglClz y) in *.
  rewrite Z.shiftl_mul_pow2 by lia. rewrite (u32_id (y * 2 ^ lz)) by (unfold is_u32; lia).
  set (a := y * 2 ^ lz) in *.
  set (r := if a =? 0x80000000 then a else _).
  assert (0 <= Z.shiftr r 1 <= 2 ^ 30 + 2 ^ 28 /\ 12900 * Z.abs (2 ^ 61 - Z.shiftr r 1 * a) <= 2 ^ 61) as [HR HE].
  { rewrite Z.shiftr_div_pow2 by lia. change (2 ^ 1) with 2.
    pose proof (Z.div_mod r 2 ltac:(done)) as D. pose proof (Z.mod_pos_bound r 2 ltac:(done)) as M.
    set (h := r / 2) in *. subst r. clearbody h.
    destruct (Z.eqb_spec a 0x80000000) as [E|E]; [rewrite E in *; lia|].
    destruct (recip_two_steps a ltac:(lia)) as [H1 H2]. cbv zeta in H1, H2.
    set (r := recip_newton _ _) in *. unfold recip_err in H2.
    assert (2 * (h * a) = a * r - a * (r mod 2)) by (rewrite D at 1; ring).
    assert (0 <= a * (r mod 2) <= a) by nia.
    split; [|lia]. assert (2 ^ 31 * h <= h * a) by nia. lia. }
  set (h := Z.shiftr r 1) in *.
  replace (30 - lz - 1) with (29 - lz) by lia.
  assert (2 ^ 61 = 2 ^ (32 + (29 - lz)) * 2 ^ lz) as E
    by (rewrite <-Z.pow_add_r by lia; f_equal; lia).
  assert (s32 (if Z.shiftr x 31 =? 0 then h else - h) = Z.sgn x * h) as ->.
  { rewrite sign_shift by lia.
    destruct (Z.leb_spec 0 x); rewrite s32_id by (unfold is_s32; lia); lia. }
  replace (Z.sgn x * h * x) with (h * y) by (subst y; rewrite <-(Z.sgn_abs x); ring).
  split; [done|]. split; [rewrite Z.abs_mul; destruct (Z.sgn_spec x) as [[? ->]|[[? ->]|[? ->]]]; lia|].
  subst a. set (P := 2 ^ (32 + (29 - lz))) in *. set (Q := 2 ^ lz) in *.
  assert (0 < Q) by (subst Q; lia).
  apply Z.mul_le_mono_pos_r with Q; [done|]. rewrite <-E.
  rewrite <-Z.mul_assoc, <-(Z.abs_eq Q) at 1 by lia. rewrite <-Z.abs_mul.
  replace ((P - h * y) * Q) with (2 ^ 61 - h * (y * Q)) by (rewrite E; ring). done.
Qed.

(** The shift [gglRecipQ] applies to the normalised reciprocal. *)
Definition recipq_shift (x q : Z) : Z := 29 - gglClz (Z.abs x) + (16 - q).

(** [gglRecipQ x q] is the reciprocal of the 16.16 number [x] with [q]
    fractional bits, [2^(16+q) / x], to a relative error below 1/12900 plus
    half a unit, whenever the final shift is at least 1. *)
Theorem gglRecipQ_accuracy x q :
  2 < Z.abs x < 2 ^ 31 -> 1 <= recipq_shift x q <= 30 -> 0 <= 16 + q ->
  exists r, gglRecipQ x q = Some r
    /\ 2 * 12900 * Z.abs (r * x - 2 ^ (16 + q)) <= 2 * 2 ^ (16 + q) + 12900 * Z.abs x.
Proof.
  intros Hx Hs Hq. unfold gglRecipQ, recipq_shift in *.
  pose proof (gglRecipQNormalized_accuracy x Hx) as H.
  destruct (gglRecipQNormalized x) as [m e]. destruct H as (-> & Hm & HE).
  set (sh := 29 - gglClz (Z.abs x) + (16 - q)) in *.
  destruct (Z.leb_spec 1 sh); [|lia]. destruct (Z.ltb_spec sh 32); [|lia]. cbn [andb].
  eexists; split; [done|].
  assert (1 <= 2 ^ (sh - 1) <= 2 ^ 29) as Hp by (split; [lia|apply Z.pow_le_mono_r; lia]).
  assert (2 ^ sh = 2 * 2 ^ (sh - 1)) as E by (rewrite <-Z.pow_succ_r by lia; f_equal; lia).
  rewrite Z.shiftl_1_l, Z.shiftr_div_pow2, s32_id by (lia || (unfold is_s32; lia)).
  assert (2 ^ (32 + (29 - gglClz (Z.abs x))) = 2 ^ (16 + q) * 2 ^ sh) as EP
    by (rewrite <-Z.pow_add_r by lia; f_equal; lia).
  rewrite EP in HE. set (P := 2 ^ (16 + q)) in *. set (S := 2 ^ sh) in *. set (H2 := 2 ^ (sh - 1)) in *.
  pose proof (Z.div_mod (m + H2) S ltac:(lia)) as D.
  pose proof (Z.mod_pos_bound (m + H2) S ltac:(lia)) as M.
  set (r := (m + H2) / S) in *. set (t := (m + H2) mod S) in *.
  apply Z.mul_le_mono_pos_r with S; [lia|].
  replace (2 * 12900 * Z.abs (r * x - P) * S) with (12900 * (2 * Z.abs ((S * r) * x - P * S))).
  2: { replace (S * r * x - P * S) with ((r * x - P) * S) by ring.
    rewrite Z.abs_mul, (Z.abs_eq S) by lia. ring. }
  replace (S * r) with (m + (H2 - t)) by lia.
  assert (2 * Z.abs ((H2 - t) * x) <= S * Z.abs x) as Ht.
  { rewrite Z.abs_mul. rewrite E in *. nia. }
  replace ((m + (H2 - t)) * x) with (m * x + (H2 - t) * x) by ring.
  set (u := (H2 - t) * x) in *. set (v := m * x) in *. lia.
Qed.

(** [gglRecip28], the perspective divide's reciprocal, is defined exactly for
    [|w| >= 0.5]; below that its shift counts are negative. *)
Theorem gglRecip28_domain x :
  - 2 ^ 31 < x < 2 ^ 31 -> (gglRecip28 x = None <-> Z.abs x < 2 ^ 15).
Proof.
  intros Hx. unfold gglRecip28, gglRecipQ.
  destruct (Z.leb_spec (Z.abs x) 2) as [L|L].
  - split; [lia|]. intros _. unfold gglRecipQNormalized. rewrite u32_abs by lia.
    destruct (Z.leb_spec (Z.abs x) 2); [done|lia].
  - pose proof (gglRecipQNormalized_accuracy x ltac:(lia)) as H.
    destruct (gglRecipQNormalized x) as [m e]. destruct H as (-> & _ & _).
    rewrite gglClz_pos by lia. pose proof (Z.log2_nonneg (Z.abs x)).
    assert (Z.log2 (Z.abs x) < 31) by (apply Z.log2_lt_pow2; lia).
    pose proof (Z.log2_lt_pow2 (Z.abs x) 15 ltac:(lia)).
    destruct (Z.leb_spec 1 (29 - (31 - Z.log2 (Z.abs x)) + (16 - 28)));
      destruct (Z.ltb_spec (29 - (31 - Z.log2 (Z.abs x)) + (16 - 28)) 32); cbn [andb];
      split; intros; try done; lia.
Qed.

(** ** Overflows of the multiply-divide *)

(** The fast path overflows: with operands that fit and a result of 999999 the
    code returns 16896. *)
Theorem gglMulDivi_fast_path_overflow :
  gglMulDivi 1000000 1431655764 1431655765 = Some 16896
  /\ Z.quot (1000000 * 1431655764) 1431655765 = 999999.
Proof. split; vm_compute; reflexivity. Qed.

(** The overflow value promised for results that do not fit is missing: a
    result of [2^32 - 2] comes back as -2, and a division of 5 * 0 by 0 as 14. *)
Theorem gglMulDivi_overflow_unsaturated :
  gglMulDivi 0x7fffffff 4 2 = Some (-2) /\ gglMulDivi 5 0 0 = Some 14.
Proof. split; vm_compute; reflexivity. Qed.

(** Dividing by a divisor [2^17] times larger never returns, nor does 0 / 1. *)
Theorem gglDivx_diverges : gglDivx 1 0x20000 = None /\ gglDivx 0 FIXED_ONE = None.
Proof. split; vm_compute; reflexivity. Qed.

(** ** Witnesses *)

Lemma gglDivQ_correct_witness : 65536 <> 0 /\ gglDivQ 196608 65536 16 = Some 196608.
Proof. split; [lia|]. rewrite (gglDivQ_correct 196608 65536 16) by lia. vm_compute. reflexivity. Defined.

Lemma gglMulDivi_correct_witness :
  Z.abs (-7) * Z.abs 9 / Z.abs 5 < 2 ^ 31 /\ gglMulDivi (-7) 9 5 = Some (-12).
Proof.
  split; [vm_compute; reflexivity|].
  rewrite (gglMulDivi_correct (-7) 9 5); [vm_compute; reflexivity|lia..|left; lia|vm_compute; reflexivity|].
  intros _. vm_compute. reflexivity.
Defined.

Lemma gglSqrtx_spec_witness : exists r, gglSqrtx 131072 = Some r /\ 2 ^ 16 * 131072 < (r + 1) ^ 2.
Proof. destruct (gglSqrtx_spec 131072) as (r & H & _ & H2 & _); [lia|]. exists r. split; assumption. Defined.

Lemma gglRecipQNormalized_accuracy_witness : 2 < Z.abs 196608 < 2 ^ 31 /\ snd (gglRecipQNormalized 196608) = 15.
Proof.
  split; [lia|]. pose proof (gglRecipQNormalized_accuracy 196608 ltac:(lia)) as H.
  destruct (gglRecipQNormalized 196608) as [r e]. destruct H as (-> & _). vm_compute. reflexivity.
Defined.

Lemma gglRecipQ_accuracy_witness : exists r, gglRecipQ 196608 16 = Some r.
Proof.
  destruct (gglRecipQ_accuracy 196608 16) as (r & H & _); [lia| |lia|exists r; exact H].
  split; vm_compute; discriminate.
Defined.

Lemma gglRecip28_domain_witness : gglRecip28 16384 = None.
Proof. apply (gglRecip28_domain 16384); lia. Defined.
