(* ===== verification/Names.v ===== *)
(** * Enumerations of the rasterizer interface

    Models the constants of include/pixelflinger.h ([enum GGLNames]),
    include/format.h ([enum GGLPixelFormat], [enum GGLFormatComponents]) and
    include/ggl_context.h (the enable bits, the dirty bits and the layout of
    the pipeline [needs]).  They are plain integers, as in C++: the code
    compares, masks and subtracts them. *)

From S2P Require Import Prelude.

(** ** [enum GGLNames] *)

Definition GGL_FALSE : Z := 0.
Definition GGL_TRUE : Z := 1.
Definition GGL_SCISSOR_TEST : Z := 0x0C11.
Definition GGL_TEXTURE_2D : Z := 0x0DE1.
Definition GGL_ALPHA_TEST : Z := 0x0BC0.
Definition GGL_BLEND : Z := 0x0BE2.
Definition GGL_COLOR_LOGIC_OP : Z := 0x0BF2.
Definition GGL_DITHER : Z := 0x0BD0.
Definition GGL_STENCIL_TEST : Z := 0x0B90.
Definition GGL_DEPTH_TEST : Z := 0x0B71.
Definition GGL_AA : Z := 0x80000001.
Definition GGL_W_LERP : Z := 0x80000004.
Definition GGL_POINT_SMOOTH_NICE : Z := 0x80000005.
Definition GGL_COLOR : Z := 0x1800.
Definition GGL_FOG : Z := 0x0B60.
Definition GGL_FLAT : Z := 0x1D00.
Definition GGL_SMOOTH : Z := 0x1D01.
Definition GGL_TEXTURE_MIN_FILTER : Z := 0x2801.
Definition GGL_TEXTURE_MAG_FILTER : Z := 0x2800.
Definition GGL_TEXTURE_WRAP_S : Z := 0x2802.
Definition GGL_TEXTURE_WRAP_T : Z := 0x2803.
Definition GGL_TEXTURE_WRAP_R : Z := 0x2804.
Definition GGL_NEAREST : Z := 0x2600.
Definition GGL_LINEAR : Z := 0x2601.
Definition GGL_NEAREST_MIPMAP_NEAREST : Z := 0x2700.
Definition GGL_LINEAR_MIPMAP_NEAREST : Z := 0x2701.
Definition GGL_NEAREST_MIPMAP_LINEAR : Z := 0x2702.
Definition GGL_LINEAR_MIPMAP_LINEAR : Z := 0x2703.
Definition GGL_CLAMP : Z := 0x2900.
Definition GGL_REPEAT : Z := 0x2901.
Definition GGL_CLAMP_TO_EDGE : Z := 0x812F.
Definition GGL_REPLACE : Z := 0x1E01.
Definition GGL_MODULATE : Z := 0x2100.
Definition GGL_DECAL : Z := 0x2101.
Definition GGL_ADD : Z := 0x0104.
Definition GGL_TEXTURE_ENV_MODE : Z := 0x2200.
Definition GGL_TEXTURE_ENV_COLOR : Z := 0x2201.
Definition GGL_TEXTURE_ENV : Z := 0x2300.
Definition GGL_TEXTURE_GEN_MODE : Z := 0x2500.
Definition GGL_S : Z := 0x2000.
Definition GGL_T : Z := 0x2001.
Definition GGL_R : Z := 0x2002.
Definition GGL_Q : Z := 0x2003.
Definition GGL_ONE_TO_ONE : Z := 0x80000002.
Definition GGL_AUTOMATIC : Z := 0x80000003.
Definition GGL_NEVER : Z := 0x0200.
Definition GGL_LESS : Z := 0x0201.
Definition GGL_EQUAL : Z := 0x0202.
Definition GGL_LEQUAL : Z := 0x0203.
Definition GGL_GREATER : Z := 0x0204.
Definition GGL_NOTEQUAL : Z := 0x0205.
Definition GGL_GEQUAL : Z := 0x0206.
Definition GGL_ALWAYS : Z := 0x0207.
Definition GGL_CLEAR : Z := 0x1500.
Definition GGL_AND : Z := 0x1501.
Definition GGL_AND_REVERSE : Z := 0x1502.
Definition GGL_COPY : Z := 0x1503.
Definition GGL_AND_INVERTED : Z := 0x1504.
Definition GGL_NOOP : Z := 0x1505.
Definition GGL_XOR : Z := 0x1506.
Definition GGL_OR : Z := 0x1507.
Definition GGL_NOR : Z := 0x1508.
Definition GGL_EQUIV : Z := 0x1509.
Definition GGL_INVERT : Z := 0x150A.
Definition GGL_OR_REVERSE : Z := 0x150B.
Definition GGL_COPY_INVERTED : Z := 0x150C.
Definition GGL_OR_INVERTED : Z := 0x150D.
Definition GGL_NAND : Z := 0x150E.
Definition GGL_SET : Z := 0x150F.
Definition GGL_ZERO : Z := 0.
Definition GGL_ONE : Z := 1.
Definition GGL_SRC_COLOR : Z := 0x0300.
Definition GGL_ONE_MINUS_SRC_COLOR : Z := 0x0301.
Definition GGL_SRC_ALPHA : Z := 0x0302.
Definition GGL_ONE_MINUS_SRC_ALPHA : Z := 0x0303.
Definition GGL_DST_ALPHA : Z := 0x0304.
Definition GGL_ONE_MINUS_DST_ALPHA : Z := 0x0305.
Definition GGL_DST_COLOR : Z := 0x0306.
Definition GGL_ONE_MINUS_DST_COLOR : Z := 0x0307.
Definition GGL_SRC_ALPHA_SATURATE : Z := 0x0308.
Definition GGL_DEPTH_BUFFER_BIT : Z := 0x00000100.
Definition GGL_STENCIL_BUFFER_BIT : Z := 0x00000400.
Definition GGL_COLOR_BUFFER_BIT : Z := 0x00004000.
Definition GGL_NO_ERROR : Z := 0.
Definition GGL_INVALID_ENUM : Z := 0x0500.
Definition GGL_INVALID_VALUE : Z := 0x0501.
Definition GGL_INVALID_OPERATION : Z := 0x0502.
Definition GGL_STACK_OVERFLOW : Z := 0x0503.
Definition GGL_STACK_UNDERFLOW : Z := 0x0504.
Definition GGL_OUT_OF_MEMORY : Z := 0x0505.

(** ** [enum GGLPixelFormat] *)

Definition GGL_PIXEL_FORMAT_UNKNOWN : Z := 0.
Definition GGL_PIXEL_FORMAT_NONE : Z := 0.
Definition GGL_PIXEL_FORMAT_RGBA_8888 : Z := 1.
Definition GGL_PIXEL_FORMAT_RGBX_8888 : Z := 2.
Definition GGL_PIXEL_FORMAT_RGB_888 : Z := 3.
Definition GGL_PIXEL_FORMAT_RGB_565 : Z := 4.
Definition GGL_PIXEL_FORMAT_BGRA_8888 : Z := 5.
Definition GGL_PIXEL_FORMAT_RGBA_5551 : Z := 6.
Definition GGL_PIXEL_FORMAT_RGBA_4444 : Z := 7.
Definition GGL_PIXEL_FORMAT_A_8 : Z := 8.
Definition GGL_PIXEL_FORMAT_L_8 : Z := 9.
Definition GGL_PIXEL_FORMAT_LA_88 : Z := 0xA.
Definition GGL_PIXEL_FORMAT_RGB_332 : Z := 0xB.
Definition GGL_PIXEL_FORMAT_Z_16 : Z := 0x18.
Definition GGL_PIXEL_FORMAT_S_8 : Z := 0x19.
Definition GGL_PIXEL_FORMAT_SZ_24 : Z := 0x1A.
Definition GGL_PIXEL_FORMAT_SZ_8 : Z := 0x1B.

(** ** [enum GGLFormatComponents] *)

Definition GGL_STENCIL_INDEX : Z := 0x1901.
Definition GGL_DEPTH_COMPONENT : Z := 0x1902.
Definition GGL_ALPHA : Z := 0x1906.
Definition GGL_RGB : Z := 0x1907.
Definition GGL_RGBA : Z := 0x1908.
Definition GGL_LUMINANCE : Z := 0x1909.
Definition GGL_LUMINANCE_ALPHA : Z := 0x190A.

(** Component indices of [GGLFormat::c]. *)

Definition ALPHA : Z := 0.
Definition RED : Z := 1.
Definition GREEN : Z := 2.
Definition BLUE : Z := 3.

(** ** Enable and dirty bits *)

Definition GGL_ENABLE_BLENDING : Z := 0x00000001.
Definition GGL_ENABLE_SMOOTH : Z := 0x00000002.
Definition GGL_ENABLE_AA : Z := 0x00000004.
Definition GGL_ENABLE_LOGIC_OP : Z := 0x00000008.
Definition GGL_ENABLE_ALPHA_TEST : Z := 0x00000010.
Definition GGL_ENABLE_SCISSOR_TEST : Z := 0x00000020.
Definition GGL_ENABLE_TMUS : Z := 0x00000040.
Definition GGL_ENABLE_DEPTH_TEST : Z := 0x00000080.
Definition GGL_ENABLE_STENCIL_TEST : Z := 0x00000100.
Definition GGL_ENABLE_W : Z := 0x00000200.
Definition GGL_ENABLE_DITHER : Z := 0x00000400.
Definition GGL_ENABLE_FOG : Z := 0x00000800.
Definition GGL_ENABLE_POINT_AA_NICE : Z := 0x00001000.
Definition GGL_TMU_STATE : Z := 0x00000001.
Definition GGL_CB_STATE : Z := 0x00000002.
Definition GGL_PIXEL_PIPELINE_STATE : Z := 0x00000004.

Definition GGL_TEXTURE_UNIT_COUNT : Z := 2.
Definition GGL_DITHER_BITS : Z := 6.
Definition GGL_DITHER_ORDER_SHIFT : Z := 3.
Definition GGL_DITHER_ORDER : Z := Z.shiftl 1 GGL_DITHER_ORDER_SHIFT.
Definition GGL_DITHER_SIZE : Z := GGL_DITHER_ORDER * GGL_DITHER_ORDER.
Definition GGL_DITHER_MASK : Z := GGL_DITHER_ORDER - 1.
Definition GGL_COLOR_BITS : Z := 24.

(** ** The fields of the pipeline needs

    [GGL_RESERVE_NEEDS(name, l, s)] declares a field of [s] bits at bit [l]. *)

Record needs_field := mk_field { nf_shift : Z; nf_bits : Z }.

Definition NEEDS_MASK (f : needs_field) : Z :=
  u32 (Z.shiftl (Z.shiftl 1 (nf_bits f) - 1) (nf_shift f)).
Definition GGL_BUILD_NEEDS (val : Z) (f : needs_field) : Z :=
  Z.land (u32 (Z.shiftl val (nf_shift f))) (NEEDS_MASK f).
Definition GGL_READ_NEEDS (f : needs_field) (n : Z) : Z :=
  Z.shiftr (u32 (Z.land n (NEEDS_MASK f))) (nf_shift f).

Definition NEEDS_CB_FORMAT : needs_field := mk_field 0 6.
Definition NEEDS_SHADE : needs_field := mk_field 6 1.
Definition NEEDS_W : needs_field := mk_field 7 1.
Definition NEEDS_BLEND_SRC : needs_field := mk_field 8 4.
Definition NEEDS_BLEND_DST : needs_field := mk_field 12 4.
Definition NEEDS_BLEND_SRCA : needs_field := mk_field 16 4.
Definition NEEDS_BLEND_DSTA : needs_field := mk_field 20 4.
Definition NEEDS_LOGIC_OP : needs_field := mk_field 24 4.
Definition NEEDS_MASK_ARGB : needs_field := mk_field 28 4.
Definition NEEDS_P_ALPHA_TEST : needs_field := mk_field 0 3.
Definition NEEDS_P_AA : needs_field := mk_field 3 1.
Definition NEEDS_P_DEPTH_TEST : needs_field := mk_field 4 3.
Definition NEEDS_P_MASK_Z : needs_field := mk_field 7 1.
Definition NEEDS_P_DITHER : needs_field := mk_field 8 1.
Definition NEEDS_P_FOG : needs_field := mk_field 9 1.
Definition NEEDS_P_RESERVED1 : needs_field := mk_field 10 22.
Definition NEEDS_T_FORMAT : needs_field := mk_field 0 6.
Definition NEEDS_T_RESERVED0 : needs_field := mk_field 6 1.
Definition NEEDS_T_POT : needs_field := mk_field 7 1.
Definition NEEDS_T_S_WRAP : needs_field := mk_field 8 2.
Definition NEEDS_T_T_WRAP : needs_field := mk_field 10 2.
Definition NEEDS_T_ENV : needs_field := mk_field 12 3.
Definition NEEDS_T_LINEAR : needs_field := mk_field 15 1.

Definition GGL_NEEDS_WRAP_CLAMP_TO_EDGE : Z := 0.
Definition GGL_NEEDS_WRAP_REPEAT : Z := 1.
Definition GGL_NEEDS_WRAP_11 : Z := 2.

Definition ggl_wrap_to_needs (e : Z) : Z :=
  if e =? GGL_CLAMP then GGL_NEEDS_WRAP_CLAMP_TO_EDGE
  else if e =? GGL_REPEAT then GGL_NEEDS_WRAP_REPEAT
  else 0.

Definition ggl_blendfactor_to_needs (b : Z) : Z :=
  if b <=? 1 then b else u32 (Z.land b 0xF + 2).

Definition ggl_needs_to_blendfactor (n : Z) : Z :=
  if n <=? 1 then n else u32 (u32 (n - 2) + 0x300).

Definition ggl_env_to_needs (e : Z) : Z :=
  if e =? GGL_REPLACE then 0
  else if e =? GGL_MODULATE then 1
  else if e =? GGL_DECAL then 2
  else if e =? GGL_BLEND then 3
  else if e =? GGL_ADD then 4
  else 0.

Definition ggl_needs_to_env (n : Z) : Z :=
  nth (Z.to_nat n) [GGL_REPLACE; GGL_MODULATE; GGL_DECAL; GGL_BLEND; GGL_ADD] 0.

(** ** Rasterizer coordinates: 28.4 fixed point *)

Definition GGL_SUBPIXEL_BITS : Z := 4.
Definition TRI_FRACTION_BITS : Z := GGL_SUBPIXEL_BITS.
Definition TRI_ONE : Z := 16.
Definition TRI_HALF : Z := 8.
Definition TRI_FROM_INT (x : Z) : Z := s32 (Z.shiftl x TRI_FRACTION_BITS).
Definition TRI_FRAC (x : Z) : Z := Z.land x (TRI_ONE - 1).
Definition TRI_FLOOR (x : Z) : Z := Z.land x (Z.lnot (TRI_ONE - 1)).
Definition TRI_CEIL (x : Z) : Z := Z.land (s32 (x + (TRI_ONE - 1))) (Z.lnot (TRI_ONE - 1)).
Definition TRI_ROUND (x : Z) : Z := Z.land (s32 (x + TRI_HALF)) (Z.lnot (TRI_ONE - 1)).
Definition TRI_ROUDNING : Z := Z.shiftl 1 (16 - TRI_FRACTION_BITS - 1).
Definition TRI_FROM_FIXED (x : Z) : Z := Z.shiftr (s32 (x + TRI_ROUDNING)) (16 - TRI_FRACTION_BITS).
Definition TRI_SNAP_NEXT_HALF (x : Z) : Z := s32 (TRI_CEIL (s32 (x + TRI_HALF)) - TRI_HALF).
Definition TRI_SNAP_PREV_HALF (x : Z) : Z := s32 (TRI_CEIL (s32 (x - TRI_HALF)) - TRI_HALF).

Definition gglFixedToIteratedColor (c : Z) : Z := s32 (s32 (Z.shiftl c 8) - c).
