(* ===== verification/Context.v ===== *)
(** * The rasterizer context

    Models the data types of include/format.h, include/pixelflinger.h and
    include/ggl_context.h.  A pointer is an address ([Z], 0 for null) in the
    byte memory of [Surface.v]; the pointer [activeTMU] into the array of
    texture units is the index of the unit; a function pointer is a
    constructor of the enumeration of the functions stored in it. *)

From S2P Require Import Prelude Names.

(** ** Surfaces and pixels *)

(** One entry of the pixel-format table; [f_c] holds the pairs [(h, l)] of the
    alpha, red, green and blue components: high bit position + 1, low bit. *)
Record GGLFormat := mk_GGLFormat {
  f_size : Z; f_bitsPerPixel : Z; f_c : list (Z * Z); f_components : Z }.

Definition f_h (f : GGLFormat) (i : Z) : Z := fst (nth (Z.to_nat i) (f_c f) (0, 0)).
Definition f_l (f : GGLFormat) (i : Z) : Z := snd (nth (Z.to_nat i) (f_c f) (0, 0)).

(** A surface as the client describes it. *)
Record GGLSurface := mk_GGLSurface {
  gs_version : Z; gs_width : Z; gs_height : Z; gs_stride : Z; gs_data : Z;
  gs_format : Z; gs_compressedFormat : Z }.

(** The pixel readers and writers a surface can point to. *)
Inductive pixel_reader := no_reader | use_read_pixel | use_readRGB565 | use_readABGR8888.
Inductive pixel_writer := no_writer | use_write_pixel.

Record surface_t := mk_surface {
  sf_width : Z; sf_height : Z; sf_stride : Z; sf_data : Z; sf_format : Z; sf_dirty : Z;
  sf_read : pixel_reader; sf_write : pixel_writer }.
#[export] Instance eta_surface : Eta surface_t := fun r =>
  mk_surface (sf_width r) (sf_height r) (sf_stride r) (sf_data r) (sf_format r) (sf_dirty r)
    (sf_read r) (sf_write r).

(** Component values and their widths in bits, in the order A, R, G, B. *)
Record pixel_t := mk_pixel { px_c : list Z; px_s : list Z }.
#[export] Instance eta_pixel : Eta pixel_t := fun r => mk_pixel (px_c r) (px_s r).

(** ** Pipeline state *)

Record needs_t := mk_needs { needs_n : Z; needs_p : Z; needs_tx : list Z }.
#[export] Instance eta_needs : Eta needs_t := fun r =>
  mk_needs (needs_n r) (needs_p r) (needs_tx r).
#[export] Instance needs_eq_dec : EqDecision needs_t.
Proof. solve_decision. Defined.

Record blend_state_t := mk_blend {
  bl_src : Z; bl_dst : Z; bl_src_alpha : Z; bl_dst_alpha : Z; bl_alpha_separate : Z }.
#[export] Instance eta_blend : Eta blend_state_t := fun r =>
  mk_blend (bl_src r) (bl_dst r) (bl_src_alpha r) (bl_dst_alpha r) (bl_alpha_separate r).

Record mask_state_t := mk_mask { mk_color : Z; mk_depth : Z; mk_stencil : Z }.
#[export] Instance eta_mask : Eta mask_state_t := fun r =>
  mk_mask (mk_color r) (mk_depth r) (mk_stencil r).

Record clear_state_t := mk_clear {
  cl_r : Z; cl_g : Z; cl_b : Z; cl_a : Z; cl_depth : Z; cl_stencil : Z;
  cl_colorPacked : Z; cl_depthPacked : Z; cl_stencilPacked : Z; cl_dirty : Z }.
#[export] Instance eta_clear : Eta clear_state_t := fun r =>
  mk_clear (cl_r r) (cl_g r) (cl_b r) (cl_a r) (cl_depth r) (cl_stencil r)
    (cl_colorPacked r) (cl_depthPacked r) (cl_stencilPacked r) (cl_dirty r).

Record alpha_test_state_t := mk_alpha_test { at_func : Z; at_ref : Z }.
#[export] Instance eta_alpha_test : Eta alpha_test_state_t := fun r =>
  mk_alpha_test (at_func r) (at_ref r).

Record depth_test_state_t := mk_depth_test { dt_func : Z; dt_clearValue : Z }.
#[export] Instance eta_depth_test : Eta depth_test_state_t := fun r =>
  mk_depth_test (dt_func r) (dt_clearValue r).

(** The user's scissor rectangle and the effective one. *)
Record scissor_t := mk_scissor {
  sc_user_left : Z; sc_user_right : Z; sc_user_top : Z; sc_user_bottom : Z;
  sc_left : Z; sc_right : Z; sc_top : Z; sc_bottom : Z }.
#[export] Instance eta_scissor : Eta scissor_t := fun r =>
  mk_scissor (sc_user_left r) (sc_user_right r) (sc_user_top r) (sc_user_bottom r)
    (sc_left r) (sc_right r) (sc_top r) (sc_bottom r).

Record raster_t := mk_raster { ra_x : Z; ra_y : Z }.
#[export] Instance eta_raster : Eta raster_t := fun r => mk_raster (ra_x r) (ra_y r).

Record texture_shade_t := mk_texture_shade {
  ts_is0 : Z; ts_idsdx : Z; ts_idsdy : Z; ts_sscale : Z;
  ts_it0 : Z; ts_idtdx : Z; ts_idtdy : Z; ts_tscale : Z }.
#[export] Instance eta_texture_shade : Eta texture_shade_t := fun r =>
  mk_texture_shade (ts_is0 r) (ts_idsdx r) (ts_idsdy r) (ts_sscale r)
    (ts_it0 r) (ts_idtdx r) (ts_idtdy r) (ts_tscale r).

Record texture_t := mk_texture {
  tx_surface : surface_t; tx_shade : texture_shade_t;
  tx_s_coord : Z; tx_t_coord : Z; tx_s_wrap : Z; tx_t_wrap : Z;
  tx_min_filter : Z; tx_mag_filter : Z; tx_env : Z; tx_env_color : list Z; tx_enable : Z }.
#[export] Instance eta_texture : Eta texture_t := fun r =>
  mk_texture (tx_surface r) (tx_shade r) (tx_s_coord r) (tx_t_coord r) (tx_s_wrap r)
    (tx_t_wrap r) (tx_min_filter r) (tx_mag_filter r) (tx_env r) (tx_env_color r) (tx_enable r).

Record framebuffer_t := mk_framebuffer {
  fb_color : surface_t; fb_read : surface_t; fb_depth : surface_t; fb_stencil : surface_t;
  fb_coverage : Z; fb_coverageBufferSize : Z }.
#[export] Instance eta_framebuffer : Eta framebuffer_t := fun r =>
  mk_framebuffer (fb_color r) (fb_read r) (fb_depth r) (fb_stencil r)
    (fb_coverage r) (fb_coverageBufferSize r).

Record state_t := mk_state {
  st_buffers : framebuffer_t; st_texture : list texture_t; st_scissor : scissor_t;
  st_raster : raster_t; st_blend : blend_state_t; st_alpha_test : alpha_test_state_t;
  st_depth_test : depth_test_state_t; st_mask : mask_state_t; st_clear : clear_state_t;
  st_fog_color : list Z; st_logic_op : Z; st_enables : Z; st_enabled_tmu : Z;
  st_needs : needs_t }.
#[export] Instance eta_state : Eta state_t := fun r =>
  mk_state (st_buffers r) (st_texture r) (st_scissor r) (st_raster r) (st_blend r)
    (st_alpha_test r) (st_depth_test r) (st_mask r) (st_clear r) (st_fog_color r)
    (st_logic_op r) (st_enables r) (st_enabled_tmu r) (st_needs r).

(** ** Iterators *)

(** Start values and gradients of the interpolated quantities. *)
Record shade_t := mk_shade {
  sh_a0 : Z; sh_dadx : Z; sh_dady : Z; sh_r0 : Z; sh_drdx : Z; sh_drdy : Z;
  sh_g0 : Z; sh_dgdx : Z; sh_dgdy : Z; sh_b0 : Z; sh_dbdx : Z; sh_dbdy : Z;
  sh_z0 : Z; sh_dzdx : Z; sh_dzdy : Z; sh_w0 : Z; sh_dwdx : Z; sh_dwdy : Z;
  sh_f0 : Z; sh_dfdx : Z; sh_dfdy : Z }.
#[export] Instance eta_shade : Eta shade_t := fun r =>
  mk_shade (sh_a0 r) (sh_dadx r) (sh_dady r) (sh_r0 r) (sh_drdx r) (sh_drdy r)
    (sh_g0 r) (sh_dgdx r) (sh_dgdy r) (sh_b0 r) (sh_dbdx r) (sh_dbdy r)
    (sh_z0 r) (sh_dzdx r) (sh_dzdy r) (sh_w0 r) (sh_dwdx r) (sh_dwdy r)
    (sh_f0 r) (sh_dfdx r) (sh_dfdy r).

(** ** Function pointers *)

Inductive point_proc := no_pointx | use_pointx_validate | use_pointx | use_aa_pointx | use_aa_nice_pointx.
Inductive line_proc := no_linex | use_linex_validate | use_linex | use_aa_linex.
Inductive rect_proc := no_recti | use_recti_validate | use_recti.
Inductive triangle_proc := no_trianglex | use_trianglex_validate | use_trianglex_big | use_aa_trianglex.

(** The drawing entries of [GGLContext procs]; the others never change. *)
Record procs_t := mk_procs {
  pr_pointx : point_proc; pr_linex : line_proc; pr_recti : rect_proc; pr_trianglex : triangle_proc }.
#[export] Instance eta_procs : Eta procs_t := fun r =>
  mk_procs (pr_pointx r) (pr_linex r) (pr_recti r) (pr_trianglex r).

Inductive init_y_proc := no_init_y | use_init_y | use_init_y_noop | use_init_y_packed | use_init_y_error.
Inductive step_y_proc :=
  | no_step_y | use_step_y__generic | use_step_y__nop | use_step_y__smooth | use_step_y__tmu | use_step_y__w.
Inductive scanline_proc :=
  | no_scanline | use_scanline | use_scanline_perspective | use_scanline_perspective_single
  | use_scanline_t32cb16blend | use_scanline_t32cb16blend_dither | use_scanline_t32cb16blend_srca
  | use_scanline_t32cb16blend_clamp | use_scanline_t32cb16blend_clamp_dither
  | use_scanline_t32cb16blend_clamp_mod | use_scanline_x32cb16blend_clamp_mod
  | use_scanline_t32cb16blend_clamp_mod_dither | use_scanline_x32cb16blend_clamp_mod_dither
  | use_scanline_t32cb16 | use_scanline_t32cb16_dither | use_scanline_t32cb16_clamp
  | use_scanline_t32cb16_clamp_dither | use_scanline_col32cb16blend | use_scanline_t16cb16_clamp
  | use_scanline_t16cb16blend_clamp_mod | use_scanline_memcpy | use_scanline_memset8
  | use_scanline_memset16 | use_scanline_memset32 | use_scanline_noop | use_scanline_set
  | use_scanline_clear.
#[export] Instance scanline_proc_eq_dec : EqDecision scanline_proc.
Proof. solve_decision. Defined.
#[export] Instance init_y_proc_eq_dec : EqDecision init_y_proc.
Proof. solve_decision. Defined.

(** The mirror of a texture the pixel pipeline reads. *)
Record generated_tex_vars_t := mk_gen_tex { gt_width : Z; gt_height : Z; gt_stride : Z; gt_data : Z }.

(** ** The context *)

Record context_t := mk_context {
  c_procs : procs_t; c_state : state_t; c_shade : shade_t;
  c_gen_tex : list generated_tex_vars_t; c_ditherMatrix : list Z; c_formats : list GGLFormat;
  c_dirty : Z; c_activeTMU : Z; c_activeTMUIndex : Z;
  c_init_y : init_y_proc; c_step_y : step_y_proc; c_scanline : scanline_proc;
  c_span : scanline_proc; c_error : Z }.
#[export] Instance eta_context : Eta context_t := fun r =>
  mk_context (c_procs r) (c_state r) (c_shade r) (c_gen_tex r) (c_ditherMatrix r) (c_formats r)
    (c_dirty r) (c_activeTMU r) (c_activeTMUIndex r) (c_init_y r) (c_step_y r) (c_scanline r)
    (c_span r) (c_error r).

(** The format-table entry a format number selects; past the end of the table
    C++ reads other memory, here the empty format. *)
Definition no_format : GGLFormat := mk_GGLFormat 0 0 [(0, 0); (0, 0); (0, 0); (0, 0)] 0.
Definition format_of (c : context_t) (fmt : Z) : GGLFormat :=
  nth (Z.to_nat fmt) (c_formats c) no_format.

(** [x & bit] as a condition, [x |= bit] and [x &= ~bit] on a 32-bit word. *)
Definition has (x bit : Z) : bool := negb (Z.land x bit =? 0).
Definition set_bits (bit x : Z) : Z := Z.lor x bit.
Definition clear_bits (bit x : Z) : Z := Z.land x (u32 (Z.lnot bit)).

(** ** The zeroed context of [memset(c, 0, sizeof(context_t))] *)

Definition zero_surface : surface_t := mk_surface 0 0 0 0 0 0 no_reader no_writer.
Definition zero_texture : texture_t :=
  mk_texture zero_surface (mk_texture_shade 0 0 0 0 0 0 0 0) 0 0 0 0 0 0 0 [0; 0; 0; 0] 0.
Definition zero_state : state_t :=
  mk_state (mk_framebuffer zero_surface zero_surface zero_surface zero_surface 0 0)
    (repeat zero_texture 2) (mk_scissor 0 0 0 0 0 0 0 0) (mk_raster 0 0) (mk_blend 0 0 0 0 0)
    (mk_alpha_test 0 0) (mk_depth_test 0 0) (mk_mask 0 0 0) (mk_clear 0 0 0 0 0 0 0 0 0 0)
    [0; 0; 0; 0] 0 0 0 (mk_needs 0 0 [0; 0]).
Definition zero_shade : shade_t := mk_shade 0 0 0 0 0 0 0 0 0 0 0 0 0 0 0 0 0 0 0 0 0.
Definition zero_context : context_t :=
  mk_context (mk_procs no_pointx no_linex no_recti no_trianglex) zero_state zero_shade
    (repeat (mk_gen_tex 0 0 0 0) 2) (repeat 0 64) [] 0 0 0 no_init_y no_step_y no_scanline
    no_scanline 0.
