(* ===== verification/PixelFormat.v ===== *)
(** * Pixel formats and component arithmetic

    Models libpixelflinger/format.cpp and the component routines of
    libpixelflinger/buffer.cpp: [extract], [expand], [downshift_component],
    [logic_op] and [ggl_pack_color].  An [option] result is [None] where the
    code's [assert] fails. *)

From S2P Require Import Prelude Names Context.

(** ** The format table *)

Definition fmt (size bpp ah al rh rl gh gl bh bl components : Z) : GGLFormat :=
  mk_GGLFormat size bpp [(ah, al); (rh, rl); (gh, gl); (bh, bl)] components.

Definition gPixelFormatInfos : list GGLFormat :=
  [ fmt 0  0   0  0   0  0   0  0   0  0  0;
    fmt 4 32  32 24   8  0  16  8  24 16  GGL_RGBA;
    fmt 4 24   0  0   8  0  16  8  24 16  GGL_RGB;
    fmt 3 24   0  0   8  0  16  8  24 16  GGL_RGB;
    fmt 2 16   0  0  16 11  11  5   5  0  GGL_RGB;
    fmt 4 32  32 24  24 16  16  8   8  0  GGL_RGBA;
    fmt 2 16   1  0  16 11  11  6   6  1  GGL_RGBA;
    fmt 2 16   4  0  16 12  12  8   8  4  GGL_RGBA;
    fmt 1  8   8  0   0  0   0  0   0  0  GGL_ALPHA;
    fmt 1  8   0  0   8  0   8  0   8  0  GGL_LUMINANCE;
    fmt 2 16  16  8   8  0   8  0   8  0  GGL_LUMINANCE_ALPHA;
    fmt 1  8   0  0   8  5   5  2   2  0  GGL_RGB ]
  ++ repeat no_format 12
  ++ [ fmt 2 16   0  0  16  0   0  0   0  0  GGL_DEPTH_COMPONENT;
       fmt 1  8   8  0   0  0   0  0   0  0  GGL_STENCIL_INDEX;
       fmt 4 24   0  0  24  0   0  0   0  0  GGL_DEPTH_COMPONENT;
       fmt 4  8  32 24   0  0   0  0   0  0  GGL_STENCIL_INDEX ]
  ++ repeat no_format 6.

(** ** Components *)

(** Extract a component from a word. *)
Definition extract (v h l bits : Z) : option Z :=
  if h =? 0 then None
  else
    let v := if l =? 0 then v else Z.shiftr v l in
    Some (if h =? bits then v else Z.land v (Z.shiftl 1 (h - l) - 1)).

(** [v], [sbits] and [dbits] of the two replication loops of [expand]. *)
Definition expand_right_step (st : Z * Z * Z) : Z * Z * Z :=
  let '(v, sbits, dbits) := st in
  (Z.lor v (Z.shiftr v sbits), sbits * 2, dbits - sbits).

Definition expand_left_step (st : Z * Z * Z) : Z * Z * Z :=
  let '(v, sbits, dbits) := st in
  let v := Z.lor v (u32 (Z.shiftl v sbits)) in
  let dbits := dbits - sbits in
  (v, if sbits * 2 <? dbits then sbits * 2 else sbits, dbits).

Definition expand_more (st : Z * Z * Z) : bool := let '(_, _, dbits) := st in 0 <? dbits.

(** Expand a component from [sbits] to [dbits]. *)
Definition expand (v sbits dbits : Z) : option Z :=
  if sbits <? dbits then
    if sbits <=? 0 then None
    else if sbits =? 1 then Some (u32 (u32 (Z.shiftl v dbits) - v))
    else if negb (dbits mod sbits =? 0) then
      st ← do_while expand_more expand_right_step 32
             (u32 (Z.shiftl v (dbits - sbits)), sbits, dbits - sbits);
      Some (fst (fst st))
    else
      st ← do_while expand_more expand_left_step 32 (v, sbits, dbits - sbits);
      Some (fst (fst st))
  else Some v.

Definition ggl_expand := expand.

(** The dithering term of [downshift_component]. *)
Definition dither_component (v sl sbits dbits dither : Z) : Z :=
  let v := u32 (v - Z.shiftr v dbits) in
  let shift := GGL_DITHER_BITS - (sbits - dbits) in
  if 0 <=? shift then u32 (v + u32 (Z.shiftl (Z.shiftr dither shift) sl))
  else u32 (v + u32 (Z.shiftl (Z.shiftl dither (- shift)) sl)).

(** Downsample a component [v] from the bits [sh..sl] to [dh..dl] and merge it
    into the pixel [inp]; [ch] and [cl] ask to clear the source's high and low
    bits, [dither] is negative when off. *)
Definition downshift_component (inp v sh sl dh dl ch cl dither : Z) : option Z :=
  let sbits := sh - sl in
  let dbits := dh - dl in
  if sbits <? dbits then None
  else
    let v := if (dbits <? sbits) && (0 <=? dither)
             then dither_component v sl sbits dbits dither else v in
    let '(v, sl, sh) :=
      if ch =? 0 then (v, sl, sh) else (u32 (Z.shiftl v (32 - sh)), sl + (32 - sh), 32) in
    if negb (dl =? 0) then
      if negb (cl =? 0) || (dbits <? sbits) then
        let v := Z.shiftr v (sh - dbits) in
        Some (Z.lor inp (u32 (Z.shiftl v dl)))
      else
        let shift := dh - sh in
        Some (Z.lor inp (u32 (Z.shiftl v shift)))
    else
      let shift := sh - dh in
      if 0 <? shift then Some (Z.lor inp (Z.shiftr v shift))
      else if shift <? 0 then None
      else Some (Z.lor inp v).

(** ** Logic operations *)

Definition not32 (x : Z) : Z := u32 (Z.lnot x).

Definition logic_op (op s d : Z) : Z :=
  if op =? GGL_CLEAR then 0
  else if op =? GGL_AND then Z.land s d
  else if op =? GGL_AND_REVERSE then Z.land s (not32 d)
  else if op =? GGL_COPY then s
  else if op =? GGL_AND_INVERTED then Z.land (not32 s) d
  else if op =? GGL_NOOP then d
  else if op =? GGL_XOR then Z.lxor s d
  else if op =? GGL_OR then Z.lor s d
  else if op =? GGL_NOR then not32 (Z.lor s d)
  else if op =? GGL_EQUIV then not32 (Z.lxor s d)
  else if op =? GGL_INVERT then not32 d
  else if op =? GGL_OR_REVERSE then Z.lor s (not32 d)
  else if op =? GGL_COPY_INVERTED then not32 s
  else if op =? GGL_OR_INVERTED then Z.lor (not32 s) d
  else if op =? GGL_NAND then not32 (Z.land s d)
  else if op =? GGL_SET then not32 0
  else s.

(** ** Packed colors *)

Definition ggl_pack_color (c : context_t) (format r g b a : Z) : option Z :=
  let f := format_of c format in
  let hbits := GGL_COLOR_BITS in
  let lbits := GGL_COLOR_BITS - 8 in
  p ← downshift_component 0 (u32 r) hbits lbits (f_h f RED) (f_l f RED) 0 1 (-1);
  p ← downshift_component p (u32 g) hbits lbits (f_h f GREEN) (f_l f GREEN) 0 1 (-1);
  p ← downshift_component p (u32 b) hbits lbits (f_h f BLUE) (f_l f BLUE) 0 1 (-1);
  p ← downshift_component p (u32 a) hbits lbits (f_h f ALPHA) (f_l f ALPHA) 0 1 (-1);
  let p := if f_size f =? 1 then Z.lor p (u32 (Z.shiftl p 8)) else p in
  let p := if (f_size f =? 1) || (f_size f =? 2) then Z.lor p (u32 (Z.shiftl p 16)) else p in
  Some p.

(** ** Extraction *)

(** [extract] returns the bits [l .. h-1] of a value. *)
Theorem extract_spec v h l bits :
  0 <= l < h -> h <= bits -> 0 <= v < 2 ^ bits ->
  extract v h l bits = Some (v / 2 ^ l mod 2 ^ (h - l)).
Proof.
  intros Hl Hh Hv. unfold extract.
  rewrite (proj2 (Z.eqb_neq h 0)) by lia. f_equal.
  assert ((if l =? 0 then v else Z.shiftr v l) = v / 2 ^ l) as ->.
  { destruct (Z.eqb_spec l 0) as [->|]; [rewrite Z.div_1_r; lia|]. apply shiftr_div. lia. }
  rewrite land_pow2_pred by lia.
  destruct (Z.eqb_spec h bits) as [->|]; [|done].
  symmetry. apply Z.mod_small. split; [apply Z.div_pos; lia|].
  apply Z.div_lt_upper_bound; [lia|]. rewrite <-Z.pow_add_r by lia.
  replace (l + (bits - l)) with bits by lia. lia.
Qed.

(** ** Expansion *)

(** What [expand v s d] must be: a [d]-bit number whose high bits are [v], and
    the nearest below or above to [v] scaled from [0..2^s-1] to [0..2^d-1]. *)
Definition expand_ok (v s d : Z) : bool :=
  match expand v s d with
  | Some e =>
      (0 <=? e) && (e <? 2 ^ d) && (e / 2 ^ (d - s) =? v) &&
      (Z.abs (e * (2 ^ s - 1) - v * (2 ^ d - 1)) <? Z.max 2 (2 ^ s - 1))
  | None => false
  end.

Lemma expand_all_ok :
  forallb (fun s => forallb (fun d => (d <? s) || forallb (fun v => expand_ok v s d) (zrange (2 ^ s)))
    (zrange 9)) (map (Z.add 1) (zrange 8)) = true.
Proof. vm_compute. reflexivity. Qed.

Lemma expand_bits s d v :
  1 <= s <= d -> d <= 8 -> 0 <= v < 2 ^ s ->
  exists e, expand v s d = Some e /\ 0 <= e < 2 ^ d /\ e / 2 ^ (d - s) = v /\
    Z.abs (e * (2 ^ s - 1) - v * (2 ^ d - 1)) < Z.max 2 (2 ^ s - 1).
Proof.
  intros Hs Hd Hv. pose proof expand_all_ok as H.
  rewrite forallb_forall in H.
  assert (In s (map (Z.add 1) (zrange 8))) as Is
    by (apply in_map_iff; exists (s - 1); split; [lia|apply zrange_in; lia]).
  specialize (H s Is). cbv beta in H.
  rewrite forallb_forall in H. specialize (H d (zrange_in 9 d ltac:(lia))).
  cbv beta in H. apply orb_true_iff in H. destruct H as [H|H]; [lia|].
  rewrite forallb_forall in H. specialize (H v (zrange_in _ _ Hv)).
  unfold expand_ok in H. destruct (expand v s d) as [e|]; [|done].
  rewrite !andb_true_iff, !Z.ltb_lt, Z.leb_le, Z.eqb_eq in H.
  exists e. tauto.
Qed.

Lemma expand_ends_all :
  forallb (fun s => forallb (fun d => (d <? s) ||
      (bool_decide (expand 0 s d = Some 0) && bool_decide (expand (2 ^ s - 1) s d = Some (2 ^ d - 1))))
    (zrange 9)) (map (Z.add 1) (zrange 8)) = true.
Proof. vm_compute. reflexivity. Qed.

Lemma expand_ends s d :
  1 <= s <= d -> d <= 8 ->
  expand 0 s d = Some 0 /\ expand (2 ^ s - 1) s d = Some (2 ^ d - 1).
Proof.
  intros Hs Hd. pose proof expand_ends_all as H. rewrite forallb_forall in H.
  assert (In s (map (Z.add 1) (zrange 8))) as Is
    by (apply in_map_iff; exists (s - 1); split; [lia|apply zrange_in; lia]).
  specialize (H s Is). cbv beta in H.
  rewrite forallb_forall in H. specialize (H d (zrange_in 9 d ltac:(lia))).
  cbv beta in H. apply orb_true_iff in H. destruct H as [H|H]; [lia|].
  by rewrite andb_true_iff, !bool_decide_eq_true in H.
Qed.

(** [expand] keeps 0 at 0 and full intensity at full intensity, is strictly
    increasing, and is within one unit of the exact rescaling. *)
Theorem expand_spec s d :
  1 <= s <= d -> d <= 8 ->
  expand 0 s d = Some 0 /\ expand (2 ^ s - 1) s d = Some (2 ^ d - 1) /\
  forall v w, 0 <= v < w -> w < 2 ^ s ->
    exists e e', expand v s d = Some e /\ expand w s d = Some e' /\ e < e' /\
      Z.abs (e * (2 ^ s - 1) - v * (2 ^ d - 1)) < Z.max 2 (2 ^ s - 1).
Proof.
  intros Hs Hd. assert (2 ^ d = 2 ^ (d - s) * 2 ^ s) as E
    by (rewrite <-Z.pow_add_r by lia; f_equal; lia).
  assert (2 <= 2 ^ s) by (replace 2 with (2 ^ 1) at 1 by done; apply Z.pow_le_mono_r; lia).
  assert (0 < 2 ^ (d - s)) by lia.
  split; [|split].
  - apply (expand_ends s d Hs Hd).
  - apply (expand_ends s d Hs Hd).
  - intros v w Hv Hw. destruct (expand_bits s d v) as (e & Ev & He & Hq & Ha); [lia..|].
    destruct (expand_bits s d w) as (e' & Ew & He' & Hq' & _); [lia..|].
    exists e, e'. split; [done|]. split; [done|]. split; [|done].
    destruct (Z.lt_ge_cases e e') as [|Hge]; [done|].
    pose proof (Z.div_le_mono e' e (2 ^ (d - s)) ltac:(lia) Hge). lia.
Qed.

(** ** Downsampling *)

(** The noise the dither value adds below the bits that are kept. *)
Definition dither_noise (sbits dbits dither : Z) : Z :=
  let shift := GGL_DITHER_BITS - (sbits - dbits) in
  if 0 <=? shift then Z.shiftr dither shift else Z.shiftl dither (- shift).

Lemma dither_noise_range s d dither :
  d < s -> 0 <= dither < GGL_DITHER_SIZE -> 0 <= dither_noise s d dither < 2 ^ (s - d).
Proof.
  change GGL_DITHER_SIZE with (2 ^ 6). unfold dither_noise, GGL_DITHER_BITS. intros Hd Hr.
  destruct (Z.leb_spec 0 (6 - (s - d))).
  - rewrite shiftr_div by lia. split; [apply Z.div_pos; lia|].
    apply Z.div_lt_upper_bound; [lia|]. rewrite <-Z.pow_add_r by lia.
    replace (6 - (s - d) + (s - d)) with 6 by lia. lia.
  - rewrite shiftl_mul by lia.
    assert (2 ^ (s - d) = 2 ^ 6 * 2 ^ (- (6 - (s - d)))) as -> by (rewrite <-Z.pow_add_r by lia; f_equal; lia).
    nia.
Qed.

Lemma sub_shift_mono v d s :
  0 <= d <= s -> 0 <= v < 2 ^ s -> 0 <= v - v / 2 ^ d <= 2 ^ s - 2 ^ (s - d).
Proof.
  intros Hd Hv. assert (2 ^ s = 2 ^ (s - d) * 2 ^ d) as E
    by (rewrite <-Z.pow_add_r by lia; f_equal; lia).
  assert (0 < 2 ^ d) as P by lia. assert (0 < 2 ^ (s - d)) by lia.
  rewrite E in *. set (D := 2 ^ d) in *. set (K := 2 ^ (s - d)) in *. clearbody D K. clear E.
  pose proof (Z.div_mod v D ltac:(lia)). pose proof (Z.mod_pos_bound v D P).
  set (q := v / D) in *. set (r := v mod D) in *. clearbody q r. nia.
Qed.

(** Value of the dithered component before the shift: no bit above [s]. *)
Lemma dither_component_spec v s d dither :
  0 <= d < s -> s <= 31 -> 0 <= v < 2 ^ s -> 0 <= dither < GGL_DITHER_SIZE ->
  dither_component v 0 s d dither = v - v / 2 ^ d + dither_noise s d dither /\
  0 <= dither_component v 0 s d dither < 2 ^ s.
Proof.
  intros Hd Hs Hv Hn. pose proof (sub_shift_mono v d s ltac:(lia) Hv) as HM.
  pose proof (dither_noise_range s d dither ltac:(lia) Hn) as HN.
  assert (2 ^ s <= 2 ^ 31) by (apply Z.pow_le_mono_r; lia).
  assert (2 ^ (s - d) <= 2 ^ s) by (apply Z.pow_le_mono_r; lia).
  assert (dither_component v 0 s d dither = v - v / 2 ^ d + dither_noise s d dither) as ->.
  { unfold dither_component, dither_noise in *. rewrite shiftr_div by lia.
    rewrite (u32_id (v - v / 2 ^ d)) by (unfold is_u32; lia).
    destruct (0 <=? GGL_DITHER_BITS - (s - d)); rewrite Z.shiftl_0_r;
      rewrite (u32_id (Z.shiftl _ _)) || rewrite (u32_id (Z.shiftr _ _)); unfold is_u32 in *;
      rewrite ?u32_id; unfold is_u32; lia. }
  lia.
Qed.

(** A component written by [write_pixel] without dithering: the high bits of
    the source, at the position of the destination. *)
Lemma downshift_plain inp v s dh dl :
  0 <= dl < dh -> dh - dl <= s -> s <= 31 -> dh <= 32 -> 0 <= v < 2 ^ s -> 
  downshift_component inp v s 0 dh dl 0 0 (-1) =
    Some (Z.lor inp (v / 2 ^ (s - (dh - dl)) * 2 ^ dl)).
Proof.
  intros Hl Hd Hs Hdh Hv.
  assert (0 <= v / 2 ^ (s - (dh - dl)) < 2 ^ (dh - dl)) as HQ.
  { split; [apply Z.div_pos; lia|]. apply Z.div_lt_upper_bound; [lia|].
    rewrite <-Z.pow_add_r by lia. replace (s - (dh - dl) + (dh - dl)) with s by lia. lia. }
  assert (0 <= v / 2 ^ (s - (dh - dl)) * 2 ^ dl < 2 ^ 32) as HR.
  { split; [nia|]. apply Z.lt_le_trans with (2 ^ (dh - dl) * 2 ^ dl); [nia|].
    rewrite <-Z.pow_add_r by lia. apply Z.pow_le_mono_r; lia. }
  unfold downshift_component. rewrite !Z.sub_0_r.
  rewrite (proj2 (Z.ltb_ge s (dh - dl))) by lia.
  rewrite andb_false_r. cbn [Z.eqb negb orb].
  destruct (Z.eqb_spec dl 0) as [->|Hn]; cbn [negb].
  - rewrite Z.sub_0_r in *. rewrite Z.pow_0_r, Z.mul_1_r in *.
    destruct (Z.ltb_spec 0 (s - dh)).
    + do 2 f_equal. by rewrite shiftr_div by lia.
    + rewrite (proj2 (Z.ltb_ge (s - dh) 0)) by lia.
      replace (s - dh) with 0 in * by lia. by rewrite Z.pow_0_r, Z.div_1_r in *.
  - destruct (Z.ltb_spec (dh - dl) s).
    + do 2 f_equal. rewrite shiftr_div, shiftl_mul by lia. by rewrite u32_id.
    + do 2 f_equal. assert (s = dh - dl) as -> by lia.
      rewrite Z.sub_diag, Z.pow_0_r, Z.div_1_r in *.
      replace (dh - (dh - dl)) with dl by lia.
      rewrite shiftl_mul by lia. by rewrite u32_id.
Qed.

(** Dithering only changes the value that is shifted. *)
Lemma downshift_dither inp v s dh dl dither :
  0 <= dh - dl < s -> 0 <= dither ->
  downshift_component inp v s 0 dh dl 0 0 dither =
  downshift_component inp (dither_component v 0 s (dh - dl) dither) s 0 dh dl 0 0 (-1).
Proof.
  intros Hd Hn. unfold downshift_component. rewrite !Z.sub_0_r.
  rewrite (proj2 (Z.ltb_lt (dh - dl) s)), (proj2 (Z.leb_le 0 dither)) by lia. done.
Qed.

(** The arithmetic of dithering, for [K D] source levels and [D] kept ones. *)
Lemma dither_quotient v n K D :
  0 < K -> 0 < D -> 0 <= v < K * D -> 0 <= n < K ->
  let q := (v - v / D + n) / K in
  v * (D - 1) / (K * D) <= q <= v * (D - 1) / (K * D) + 1 /\
  (v = 0 -> q = 0) /\ (v = K * D - 1 -> q = D - 1).
Proof.
  intros HK HD Hv Hn q.
  pose proof (Z.div_mod v D ltac:(lia)) as E. pose proof (Z.mod_pos_bound v D HD) as Hr.
  subst q. set (a := v / D) in *. set (r := v mod D) in *. clearbody a r.
  set (x := v - a + n).
  pose proof (Z.div_mod x K ltac:(lia)) as Ex. pose proof (Z.mod_pos_bound x K HK) as Hx.
  set (q := x / K) in *. set (rx := x mod K) in *. clearbody q rx. subst x.
  assert (0 < K * D) as HKD by nia.
  pose proof (Z.div_mod (v * (D - 1)) (K * D) ltac:(lia)) as El.
  pose proof (Z.mod_pos_bound (v * (D - 1)) (K * D) HKD) as Hl.
  set (l := v * (D - 1) / (K * D)) in *. set (rl := v * (D - 1) mod (K * D)) in *. clearbody l rl.
  assert (v - a = K * q + rx - n) as Ea by lia.
  assert (v * (D - 1) = D * (v - a) - r) as Ev by nia.
  rewrite Ea in Ev. rewrite Ev in El. clear Ev.
  split; [split; nia|split].
  - intros ->. assert (a = 0) by nia. nia.
  - intros ->. assert (a = K - 1) by nia. nia.
Qed.

(** Dithering keeps the component in its field, within one level of the exact
    value, and keeps black and full intensity unchanged. *)
Theorem downshift_dither_spec inp v s dh dl dither :
  0 <= dl < dh -> dh - dl < s -> s <= 31 -> dh <= 32 -> 0 <= v < 2 ^ s ->
  0 <= dither < GGL_DITHER_SIZE ->
  exists q,
    downshift_component inp v s 0 dh dl 0 0 dither = Some (Z.lor inp (q * 2 ^ dl)) /\
    0 <= q < 2 ^ (dh - dl) /\
    v * (2 ^ (dh - dl) - 1) / 2 ^ s <= q <= v * (2 ^ (dh - dl) - 1) / 2 ^ s + 1 /\
    (v = 0 -> q = 0) /\ (v = 2 ^ s - 1 -> q = 2 ^ (dh - dl) - 1).
Proof.
  intros Hl Hd Hs Hdh Hv Hn.
  destruct (dither_component_spec v s (dh - dl) dither) as [E R]; [lia..|].
  rewrite downshift_dither by lia. rewrite downshift_plain by lia.
  eexists; split; [reflexivity|]. rewrite E in *. clear E.
  pose proof (dither_noise_range s (dh - dl) dither ltac:(lia) Hn) as HN.
  set (n := dither_noise _ _ _) in *. clearbody n. clear Hn.
  assert (2 ^ s = 2 ^ (s - (dh - dl)) * 2 ^ (dh - dl)) as E
    by (rewrite <-Z.pow_add_r by lia; f_equal; lia).
  set (d := dh - dl) in *. assert (0 < 2 ^ d) by lia. assert (0 < 2 ^ (s - d)) by lia.
  rewrite E in *. set (D := 2 ^ d) in *. set (K := 2 ^ (s - d)) in *. clearbody D K. clear E.
  pose proof (dither_quotient v n K D ltac:(lia) ltac:(lia) Hv HN) as (HQ & H0' & H1).
  split; [|split; [exact HQ|split; [exact H0'|exact H1]]].
  split; [apply Z.div_pos; lia|]. apply Z.div_lt_upper_bound; lia.
Qed.

(** ** Logic operations *)

(** The sixteen operations are the sixteen boolean functions of two bits: bit
    [k] of the operation's number is its value on [(s, d) = (~k1, ~k0)]. *)
Definition logic_bit (k : Z) (s d : bool) : bool :=
  Z.testbit k (if s then if d then 0 else 1 else if d then 2 else 3).

Lemma not32_testbit x i : 0 <= i < 32 -> Z.testbit (not32 x) i = negb (Z.testbit x i).
Proof.
  intros Hi. unfold not32. rewrite u32_testbit, Z.lnot_spec by lia.
  by rewrite (proj2 (Z.ltb_lt i 32)) by lia.
Qed.

(** Bit by bit, [logic_op] is the boolean function of its operation. *)
Theorem logic_op_bits k s d i :
  0 <= k < 16 -> 0 <= i < 32 ->
  Z.testbit (logic_op (GGL_CLEAR + k) s d) i = logic_bit k (Z.testbit s i) (Z.testbit d i).
Proof.
  intros Hk Hi. split_range Hk; cbn [Z.add Pos.add Pos.succ logic_op Z.eqb Pos.eqb GGL_CLEAR];
    cbv [logic_op Z.eqb Pos.eqb Z.add Pos.add GGL_CLEAR Pos.succ Pos.add_carry
      GGL_AND GGL_AND_REVERSE GGL_COPY GGL_AND_INVERTED GGL_NOOP GGL_XOR GGL_OR GGL_NOR
      GGL_EQUIV GGL_INVERT GGL_OR_REVERSE GGL_COPY_INVERTED GGL_OR_INVERTED GGL_NAND GGL_SET];
    rewrite ?Z.land_spec, ?Z.lor_spec, ?Z.lxor_spec, ?not32_testbit, ?Z.land_spec, ?Z.lor_spec, ?Z.lxor_spec, ?Z.bits_0 by done;
    by destruct (Z.testbit s i), (Z.testbit d i).
Qed.

(** ** Packed colors *)

Lemma downshift_pack inp v dh dl :
  0 <= dl <= dh -> dh - dl <= 8 -> dh <= 32 -> 0 <= v < 2 ^ 24 ->
  downshift_component inp v 24 16 dh dl 0 1 (-1) =
    Some (Z.lor inp (field_val (dl, dh - dl, v / 2 ^ (24 - (dh - dl))))).
Proof.
  intros Hl Hd Hdh Hv.
  assert (0 <= v / 2 ^ (24 - (dh - dl)) < 2 ^ (dh - dl)) as HQ.
  { split; [apply Z.div_pos; lia|]. apply Z.div_lt_upper_bound; [lia|].
    rewrite <-Z.pow_add_r by lia. replace (24 - (dh - dl) + (dh - dl)) with 24 by lia. lia. }
  assert (0 <= v / 2 ^ (24 - (dh - dl)) * 2 ^ dl < 2 ^ 32) as HR.
  { split; [nia|]. apply Z.lt_le_trans with (2 ^ (dh - dl) * 2 ^ dl); [nia|].
    rewrite <-Z.pow_add_r by lia. apply Z.pow_le_mono_r; lia. }
  unfold downshift_component, field_val. change (24 - 16) with 8.
  rewrite (proj2 (Z.ltb_ge 8 (dh - dl))) by lia. rewrite andb_false_r. cbn [Z.eqb negb orb].
  destruct (Z.eqb_spec dl 0) as [->|Hn]; cbn [negb].
  - rewrite Z.sub_0_r in *. rewrite Z.pow_0_r, Z.mul_1_r in *.
    rewrite (proj2 (Z.ltb_lt 0 (24 - dh))) by lia. by rewrite shiftr_div by lia.
  - do 2 f_equal. rewrite shiftr_div, shiftl_mul by lia. by rewrite u32_id.
Qed.

(** The fields of a color in a format: the high bits of each component. *)
Definition color_fields (f : GGLFormat) (r g b a : Z) : list (Z * Z * Z) :=
  map (fun '(i, v) => (f_l f i, f_h f i - f_l f i, v / 2 ^ (24 - (f_h f i - f_l f i))))
    [(RED, r); (GREEN, g); (BLUE, b); (ALPHA, a)].

(** [v] repeated in the 8- or 16-bit lanes of a word. *)
Definition replicate_pixel (size v : Z) : Z :=
  if size =? 1 then v * 0x01010101 else if size =? 2 then v * 0x00010001 else v.

Definition component_small (f : GGLFormat) (i : Z) : bool :=
  (0 <=? f_l f i) && (f_l f i <=? f_h f i) && (f_h f i - f_l f i <=? 8) && (f_h f i <=? 8 * f_size f).

Lemma color_fields_ok f r g b a :
  forallb (component_small f) [RED; GREEN; BLUE; ALPHA] = true ->
  0 <= r < 2 ^ 24 -> 0 <= g < 2 ^ 24 -> 0 <= b < 2 ^ 24 -> 0 <= a < 2 ^ 24 ->
  Forall field_ok (color_fields f r g b a) /\
  Forall (fun '(l, w, _) => l + w <= 8 * f_size f) (color_fields f r g b a).
Proof.
  intros Hc Hr Hg Hb Ha. simpl in Hc. unfold component_small in Hc.
  rewrite !andb_true_iff, !Z.leb_le in Hc. destruct Hc as (Cr & Cg & Cb & Ca & _).
  assert (forall h l v, 0 <= l <= h -> h - l <= 8 -> 0 <= v < 2 ^ 24 ->
    field_ok (l, h - l, v / 2 ^ (24 - (h - l)))) as Hok.
  { intros h l v Hl Hw Hv. simpl. split; [lia|]. split; [lia|].
    split; [apply Z.div_pos; lia|]. apply Z.div_lt_upper_bound; [lia|].
    rewrite <-Z.pow_add_r by lia. replace (24 - _ + _) with 24 by lia. lia. }
  split; unfold color_fields; cbn [map]; repeat constructor;
    first [apply Hok; lia | lia].
Qed.

(** A packed color is the fields of its components, repeated in the lanes of a
    word for small pixels. *)
Theorem pack_color_fields c format r g b a :
  let f := format_of c format in
  forallb (component_small f) [RED; GREEN; BLUE; ALPHA] = true -> 1 <= f_size f <= 4 ->
  0 <= r < 2 ^ 24 -> 0 <= g < 2 ^ 24 -> 0 <= b < 2 ^ 24 -> 0 <= a < 2 ^ 24 ->
  let p := pack_fields (color_fields f r g b a) 0 in
  0 <= p < 2 ^ (8 * f_size f) /\
  ggl_pack_color c format r g b a = Some (replicate_pixel (f_size f) p).
Proof.
  intros f Hc Hsize Hr Hg Hb Ha p.
  destruct (color_fields_ok f r g b a Hc Hr Hg Hb Ha) as [Hok Hin].
  assert (0 <= p < 2 ^ (8 * f_size f)) as Hp.
  { apply pack_fields_range; [lia|done..|]. split; [done|]. apply Z.pow_pos_nonneg; lia. }
  split; [done|]. clear Hok Hin.
  simpl in Hc. unfold component_small in Hc.
  rewrite !andb_true_iff, !Z.leb_le in Hc. destruct Hc as (Cr & Cg & Cb & Ca & _).
  unfold ggl_pack_color. fold f. change (GGL_COLOR_BITS - 8) with 16. unfold GGL_COLOR_BITS.
  rewrite !u32_id by (unfold is_u32; lia).
  rewrite (downshift_pack _ r) by lia; cbn [mbind option_bind].
  rewrite (downshift_pack _ g) by lia; cbn [mbind option_bind].
  rewrite (downshift_pack _ b) by lia; cbn [mbind option_bind].
  rewrite (downshift_pack _ a) by lia; cbn [mbind option_bind].
  set (q := Z.lor (Z.lor (Z.lor (Z.lor 0 _) _) _) _). change q with p. f_equal. unfold replicate_pixel.
  assert (f_size f = 1 \/ f_size f = 2 \/ f_size f = 3 \/ f_size f = 4) as [E|[E|[E|E]]] by lia;
    rewrite E in *; cbn [Z.eqb Pos.eqb orb]; try done.
  - rewrite (lor_shift_add p 8), (lor_shift_add _ 16) by lia. lia.
  - rewrite (lor_shift_add p 16) by lia. lia.
Qed.

(** A format whose four components are apart. *)
Definition components_apart (f : GGLFormat) : bool :=
  forallb (component_small f) [RED; GREEN; BLUE; ALPHA] &&
  forallb (fun '(i, j) => (f_h f i <=? f_l f j) || (f_h f j <=? f_l f i)
                          || (f_h f i =? f_l f i) || (f_h f j =? f_l f j))
    [(RED, GREEN); (RED, BLUE); (RED, ALPHA); (GREEN, BLUE); (GREEN, ALPHA); (BLUE, ALPHA)].

(** Each component of a packed color reads back as the most significant bits of
    the channel it was packed from, for every format whose components do not
    overlap. *)
Theorem pack_color_extract c format r g b a i v :
  let f := format_of c format in
  components_apart f = true -> 1 <= f_size f <= 4 ->
  0 <= r < 2 ^ 24 -> 0 <= g < 2 ^ 24 -> 0 <= b < 2 ^ 24 -> 0 <= a < 2 ^ 24 ->
  In (i, v) [(RED, r); (GREEN, g); (BLUE, b); (ALPHA, a)] -> 0 < f_h f i - f_l f i ->
  exists p,
    ggl_pack_color c format r g b a = Some p /\ is_u32 p /\
    extract (p mod 2 ^ (8 * f_size f)) (f_h f i) (f_l f i) (8 * f_size f) =
      Some (v / 2 ^ (24 - (f_h f i - f_l f i))).
Proof.
  intros f Hc Hsize Hr Hg Hb Ha Hin Hw. apply andb_true_iff in Hc as [Hs Hd].
  destruct (pack_color_fields c format r g b a Hs Hsize Hr Hg Hb Ha) as [Hp ->]. fold f in Hp |- *.
  destruct (color_fields_ok f r g b a Hs Hr Hg Hb Ha) as [Hok Hran].
  set (p := pack_fields _ _) in *.
  assert (replicate_pixel (f_size f) p mod 2 ^ (8 * f_size f) = p /\
          is_u32 (replicate_pixel (f_size f) p)) as [Em Eu].
  { clear - Hsize Hp. clearbody p. unfold replicate_pixel, is_u32.
    assert (f_size f = 1 \/ f_size f = 2 \/ f_size f = 3 \/ f_size f = 4) as [E|[E|[E|E]]] by lia;
      rewrite E in *; cbn [Z.eqb Pos.eqb orb Z.mul Pos.mul] in *; div_lia. }
  exists (replicate_pixel (f_size f) p). split; [done|]. split; [done|]. rewrite Em.
  assert (In (f_l f i, f_h f i - f_l f i, v / 2 ^ (24 - (f_h f i - f_l f i))) (color_fields f r g b a)) as HI.
  { unfold color_fields. apply in_map_iff. by exists (i, v). }
  assert (field_ok (f_l f i, f_h f i - f_l f i, v / 2 ^ (24 - (f_h f i - f_l f i)))) as Hfi
    by (rewrite List.Forall_forall in Hok; by apply Hok).
  assert (f_h f i <= 8 * f_size f).
  { rewrite List.Forall_forall in Hran. specialize (Hran _ HI). simpl in Hran. lia. }
  simpl in Hfi. rewrite extract_spec by lia. f_equal.
  apply pack_fields_extract; [done| |done].
  clear - Hd. simpl in Hd. rewrite !andb_true_iff, !orb_true_iff, !Z.leb_le, !Z.eqb_eq in Hd.
  destruct Hd as (D1 & D2 & D3 & D4 & D5 & D6 & _). unfold color_fields; cbn [map].
  repeat first [apply FOP_nil | apply FOP_cons | apply List.Forall_nil | apply List.Forall_cons];
    cbn [field_disjoint]; lia.
Qed.

(** The formats of the table a color is packed in. *)
Lemma table_components_apart :
  forallb (fun k => components_apart (nth (Z.to_nat k) gPixelFormatInfos no_format))
    [GGL_PIXEL_FORMAT_RGBA_8888; GGL_PIXEL_FORMAT_RGBX_8888; GGL_PIXEL_FORMAT_RGB_888;
     GGL_PIXEL_FORMAT_RGB_565; GGL_PIXEL_FORMAT_BGRA_8888; GGL_PIXEL_FORMAT_RGBA_5551;
     GGL_PIXEL_FORMAT_RGBA_4444; GGL_PIXEL_FORMAT_A_8; GGL_PIXEL_FORMAT_RGB_332] = true.
Proof. reflexivity. Qed.

(** ** Witnesses *)

Lemma expand_spec_witness :
  exists e e', expand 21 5 8 = Some e /\ expand 22 5 8 = Some e' /\ e < e'.
Proof.
  destruct (expand_spec 5 8 ltac:(lia) ltac:(lia)) as (_ & _ & H).
  destruct (H 21 22 ltac:(lia) ltac:(lia)) as (e & e' & E & E' & L & _).
  exists e, e'. split; [exact E|]. split; [exact E'|exact L].
Defined.

Lemma downshift_dither_spec_witness :
  exists q, downshift_component 0 200 8 0 16 11 0 0 32 = Some (Z.lor 0 (q * 2 ^ 11)) /\ 0 <= q < 32.
Proof.
  destruct (downshift_dither_spec 0 200 8 16 11 32) as (q & E & H & _);
    [vm_compute; intuition congruence..|].
  exists q. split; [exact E|exact H].
Defined.

Lemma pack_color_extract_witness :
  let c := zero_context <| c_formats := gPixelFormatInfos |> in
  exists p, ggl_pack_color c GGL_PIXEL_FORMAT_RGB_565 0xFF0000 0x800000 0x123456 0 = Some p /\
    extract (p mod 2 ^ 16) 11 5 16 = Some (0x800000 / 2 ^ 18).
Proof.
  destruct (pack_color_extract (zero_context <| c_formats := gPixelFormatInfos |>)
    GGL_PIXEL_FORMAT_RGB_565 0xFF0000 0x800000 0x123456 0 GREEN 0x800000) as (p & E & _ & H);
    [reflexivity|vm_compute; intuition congruence..|simpl; tauto|reflexivity|].
  exists p. split; [exact E|exact H].
Defined.

Lemma logic_op_bits_witness : Z.testbit (logic_op (GGL_CLEAR + 6) 0xF0 0x3C) 2 = true.
Proof. rewrite (logic_op_bits 6 0xF0 0x3C 2); [reflexivity|lia|lia]. Defined.
