(* ===== verification/Surface.v ===== *)
(** * Surfaces and pixel access

    Models the surface routines of libpixelflinger/buffer.cpp:
    [ggl_init_texture], [ggl_set_surface], [ggl_pick_texture], [ggl_pick_cb]
    and the pixel readers and writers.  The memory is a map from byte
    addresses to bytes, little endian as on the target.  A result is [None]
    where the code's [assert] fails. *)

From S2P Require Import Prelude Names Context PixelFormat.

(** ** Byte memory *)

Definition mem : Type := Z -> Z.

Definition store8 (m : mem) (a v : Z) : mem := fun b => if b =? a then u8 v else m b.
Definition load8 (m : mem) (a : Z) : Z := m a.
Definition load16 (m : mem) (a : Z) : Z := Z.lor (m a) (Z.shiftl (m (a + 1)) 8).
Definition load24 (m : mem) (a : Z) : Z :=
  Z.lor (Z.lor (Z.shiftl (m (a + 2)) 16) (Z.shiftl (m (a + 1)) 8)) (m a).
Definition load32 (m : mem) (a : Z) : Z :=
  Z.lor (load16 m a) (Z.shiftl (load16 m (a + 2)) 16).
Definition store16 (m : mem) (a v : Z) : mem := store8 (store8 m a v) (a + 1) (Z.shiftr v 8).
Definition store24 (m : mem) (a v : Z) : mem :=
  store8 (store8 (store8 m a v) (a + 1) (Z.shiftr v 8)) (a + 2) (Z.shiftr v 16).
Definition store32 (m : mem) (a v : Z) : mem :=
  store16 (store16 m a v) (a + 2) (Z.shiftr v 16).

Definition is_mem (m : mem) : Prop := forall a, is_u8 (m a).

(** The host is little endian: both conversions are the identity. *)
Definition GGL_RGBA_TO_HOST (v : Z) : Z := v.
Definition GGL_HOST_TO_RGBA (v : Z) : Z := v.

(** The [switch (f->size)] that loads and stores one pixel. *)
Definition load_pixel (m : mem) (data size : Z) : Z :=
  if size =? 1 then load8 m data
  else if size =? 2 then load16 m data
  else if size =? 3 then load24 m data
  else if size =? 4 then GGL_RGBA_TO_HOST (load32 m data)
  else 0.

Definition store_pixel (m : mem) (data size v : Z) : mem :=
  if size =? 1 then store8 m data v
  else if size =? 2 then store16 m data v
  else if size =? 3 then store24 m data v
  else if size =? 4 then store32 m data (GGL_HOST_TO_RGBA v)
  else m.

(** ** Surfaces *)

Definition ggl_set_surface (c : context_t) (src : GGLSurface) (dst : surface_t) : surface_t :=
  let dst := dst <| sf_width := gs_width src |> <| sf_height := gs_height src |>
                 <| sf_stride := gs_stride src |> <| sf_data := gs_data src |>
                 <| sf_format := gs_format src |> <| sf_dirty := 1 |> in
  if sf_stride dst <? 0 then
    let bpr := s32 (s32 (- sf_stride dst) * f_size (format_of c (sf_format dst))) in
    dst <| sf_data ::= fun data => data + u32 (bpr * u32 (sf_height dst - 1)) |>
  else dst.

Definition pick_read_write (s : surface_t) : surface_t :=
  let s := if sf_format s =? GGL_PIXEL_FORMAT_RGBA_8888 then s <| sf_read := use_readABGR8888 |>
           else if sf_format s =? GGL_PIXEL_FORMAT_RGB_565 then s <| sf_read := use_readRGB565 |>
           else s <| sf_read := use_read_pixel |> in
  s <| sf_write := use_write_pixel |>.

Definition init_texture_unit (t : texture_t) : texture_t :=
  t <| tx_s_coord := GGL_ONE_TO_ONE |> <| tx_t_coord := GGL_ONE_TO_ONE |>
    <| tx_s_wrap := GGL_REPEAT |> <| tx_t_wrap := GGL_REPEAT |>
    <| tx_min_filter := GGL_NEAREST |> <| tx_mag_filter := GGL_NEAREST |>
    <| tx_env := GGL_MODULATE |>.

Definition ggl_init_texture (c : context_t) : context_t :=
  c <| c_state ::= fun st => st <| st_texture ::= map init_texture_unit |> |>
    <| c_activeTMU := 0 |>.

(** The loop body of [ggl_pick_texture] on one unit and its mirror. *)
Definition pick_texture_unit (t : texture_t) (gen : generated_tex_vars_t)
    : texture_t * generated_tex_vars_t :=
  let s := tx_surface t in
  if (tx_enable t =? 0) || (sf_dirty s =? 0) then (t, gen)
  else
    let s := pick_read_write (s <| sf_dirty := 0 |>) in
    (t <| tx_surface := s |>,
     mk_gen_tex (sf_width s) (sf_height s) (u32 (sf_stride s)) (s32 (sf_data s))).

Definition ggl_pick_texture (c : context_t) : context_t :=
  let ps := zip_with pick_texture_unit (st_texture (c_state c)) (c_gen_tex c) in
  c <| c_state ::= fun st => st <| st_texture := map fst ps |> |> <| c_gen_tex := map snd ps |>.

Definition ggl_pick_cb (c : context_t) : context_t :=
  let s := fb_color (st_buffers (c_state c)) in
  if sf_dirty s =? 0 then c
  else c <| c_state ::= fun st => st <| st_buffers ::= fun b =>
         b <| fb_color := pick_read_write (s <| sf_dirty := 0 |>) |> |> |>.

(** ** Reading a pixel *)

(** Address of pixel [(x, y)]: [data + index * size] with [int32_t index]. *)
Definition pixel_address (s : surface_t) (size x y : Z) : Z :=
  sf_data s + s32 (s32 (u32 (x + u32 (sf_stride s * y))) * size).

Definition read_component (f : GGLFormat) (v : Z) (old : Z) (i : Z) : option (Z * Z) :=
  let s := u8 (f_h f i - f_l f i) in
  if s =? 0 then Some (old, s)
  else e ← extract v (f_h f i) (f_l f i) (f_size f * 8); Some (e, s).

(** [pixel->c[i]] keeps its old value where the format has no component [i]. *)
Definition read_pixel (m : mem) (c : context_t) (s : surface_t) (x y : Z) (pixel : pixel_t)
    : option pixel_t :=
  if negb ((x <? sf_width s) && (y <? sf_height s)) then None
  else
    let f := format_of c (sf_format s) in
    let v := load_pixel m (pixel_address s (f_size f) x y) (f_size f) in
    let old i := nth i (px_c pixel) 0 in
    a ← read_component f v (old 0%nat) ALPHA;
    r ← read_component f v (old 1%nat) RED;
    g ← read_component f v (old 2%nat) GREEN;
    b ← read_component f v (old 3%nat) BLUE;
    Some (mk_pixel [fst a; fst r; fst g; fst b] [snd a; snd r; snd g; snd b]).

Definition readRGB565 (m : mem) (c : context_t) (s : surface_t) (x y : Z) (pixel : pixel_t)
    : option pixel_t :=
  let v := load16 m (sf_data s + 2 * u32 (x + u32 (sf_stride s * y))) in
  Some (mk_pixel [0; Z.shiftr v 11; Z.land (Z.shiftr v 5) 0x3F; Z.land v 0x1F] [0; 5; 6; 5]).

Definition readABGR8888 (m : mem) (c : context_t) (s : surface_t) (x y : Z) (pixel : pixel_t)
    : option pixel_t :=
  let v := GGL_RGBA_TO_HOST (load32 m (sf_data s + 4 * u32 (x + u32 (sf_stride s * y)))) in
  Some (mk_pixel [Z.shiftr v 24; Z.land v 0xFF; Z.land (Z.shiftr v 8) 0xFF; Z.land (Z.shiftr v 16) 0xFF]
          [8; 8; 8; 8]).

(** The call [s->read(s, c, x, y, pixel)]. *)
Definition surface_read (m : mem) (c : context_t) (s : surface_t) (x y : Z) (pixel : pixel_t)
    : option pixel_t :=
  match sf_read s with
  | no_reader => None
  | use_read_pixel => read_pixel m c s x y pixel
  | use_readRGB565 => readRGB565 m c s x y pixel
  | use_readABGR8888 => readABGR8888 m c s x y pixel
  end.

(** ** Writing a pixel *)

(** The destination has the component and the color mask lets it through. *)
Definition writes_component (f : GGLFormat) (mask i : Z) : bool :=
  negb ((GGL_LUMINANCE <=? f_components f) && ((i =? GREEN) || (i =? BLUE)))
  && negb (f_h f i =? 0) && Z.testbit mask i.

(** One round of the component loop, on the write mask and the pixel value. *)
Definition write_component (f : GGLFormat) (color_mask dither : Z) (pixel : pixel_t)
    (st : Z * Z) (i : Z) : option (Z * Z) :=
  let '(mask, v) := st in
  if writes_component f color_mask i then
    let l := f_l f i in
    let h := f_h f i in
    let mask := Z.lor mask (Z.shiftl (Z.shiftl 1 (h - l) - 1) l) in
    let u := nth (Z.to_nat i) (px_c pixel) 0 in
    let pixelSize := nth (Z.to_nat i) (px_s pixel) 0 in
    u ← (if pixelSize <? h - l then expand u pixelSize (h - l) else Some u);
    let pixelSize := Z.max pixelSize (h - l) in
    v ← downshift_component v u pixelSize 0 h l 0 0 dither;
    Some (mask, v)
  else Some (mask, v).

Definition write_components (f : GGLFormat) (color_mask dither : Z) (pixel : pixel_t)
    : option (Z * Z) :=
  st ← write_component f color_mask dither pixel (0, 0) ALPHA;
  st ← write_component f color_mask dither pixel st RED;
  st ← write_component f color_mask dither pixel st GREEN;
  write_component f color_mask dither pixel st BLUE.

Definition dither_at (c : context_t) (x y : Z) : Z :=
  nth (Z.to_nat (Z.land x GGL_DITHER_MASK +
                 Z.shiftl (Z.land y GGL_DITHER_MASK) GGL_DITHER_ORDER_SHIFT)) (c_ditherMatrix c) 0.

Definition write_pixel (m : mem) (c : context_t) (s : surface_t) (x y : Z) (pixel : pixel_t)
    : option mem :=
  if negb ((x <? sf_width s) && (y <? sf_height s)) then None
  else
    let enables := st_enables (c_state c) in
    let color_mask := mk_color (st_mask (c_state c)) in
    let dither := if has enables GGL_ENABLE_DITHER then dither_at c x y else -1 in
    let f := format_of c (sf_format s) in
    let data := pixel_address s (f_size f) x y in
    st ← write_components f color_mask dither pixel;
    let '(mask, v) := st in
    let v :=
      if negb (color_mask =? 0xF) || has enables GGL_ENABLE_LOGIC_OP then
        let d := load_pixel m data (f_size f) in
        let v := if has enables GGL_ENABLE_LOGIC_OP
                 then Z.land (logic_op (st_logic_op (c_state c)) v d) mask else v in
        Z.lor v (Z.land d (not32 mask))
      else v in
    Some (store_pixel m data (f_size f) v).

(** ** Bytes *)

Lemma lor_shiftl_add a b n : 0 <= n -> 0 <= b < 2 ^ n -> Z.lor b (Z.shiftl a n) = b + a * 2 ^ n.
Proof. intros. rewrite shiftl_mul by done. rewrite Z.lor_comm, lor_add_small by done. lia. Qed.

Section LoadValue.
Context (m : mem) (Hm : is_mem m).

Lemma load16_value a : load16 m a = m a + m (a + 1) * 2 ^ 8.
Proof. apply lor_shiftl_add; [lia|apply Hm]. Qed.

Lemma load24_value a : load24 m a = m a + m (a + 1) * 2 ^ 8 + m (a + 2) * 2 ^ 16.
Proof.
  pose proof (Hm a) as H0. pose proof (Hm (a + 1)) as H1. unfold is_u8 in *. unfold load24.
  rewrite (Z.lor_comm (Z.shiftl _ 16)), (Z.lor_comm _ (m a)), Z.lor_assoc.
  rewrite (lor_shiftl_add (m (a + 1)) (m a) 8) by lia. rewrite lor_shiftl_add; lia.
Qed.

Lemma load32_value a :
  load32 m a = m a + m (a + 1) * 2 ^ 8 + m (a + 2) * 2 ^ 16 + m (a + 3) * 2 ^ 24.
Proof.
  pose proof (Hm a) as H0. pose proof (Hm (a + 1)) as H1. unfold is_u8 in *. unfold load32.
  rewrite !load16_value. replace (a + 2 + 1) with (a + 3) by lia. rewrite lor_shiftl_add; lia.
Qed.

Lemma load_pixel_range a size : 1 <= size <= 4 -> 0 <= load_pixel m a size < 2 ^ (8 * size).
Proof.
  intros Hs. pose proof (Hm a) as H0. pose proof (Hm (a + 1)) as H1.
  pose proof (Hm (a + 2)) as H2. pose proof (Hm (a + 3)) as H3. unfold is_u8 in *.
  assert (size = 1 \/ size = 2 \/ size = 3 \/ size = 4) as [E|[E|[E|E]]] by lia; rewrite E in *; clear E;
    unfold load_pixel, load8, GGL_RGBA_TO_HOST; cbn [Z.eqb Pos.eqb];
    rewrite ?load16_value, ?load24_value, ?load32_value; lia.
Qed.
End LoadValue.

Lemma store8_eq m a v b : store8 m a v b = if b =? a then u8 v else m b.
Proof. done. Qed.

Lemma is_mem_store8 m a v : is_mem m -> is_mem (store8 m a v).
Proof. intros Hm b. rewrite store8_eq. destruct (b =? a); [apply u8_range|apply Hm]. Qed.

Lemma is_mem_store_pixel m a size v : is_mem m -> is_mem (store_pixel m a size v).
Proof.
  intros Hm. unfold store_pixel, store16, store24, store32, store16.
  repeat case_match; repeat apply is_mem_store8; done.
Qed.

Ltac store_bytes :=
  unfold store8; repeat match goal with |- context [?x =? ?y] => destruct (Z.eqb_spec x y); try lia end.

Lemma load_store_pixel m a size v :
  is_mem m -> 1 <= size <= 4 ->
  load_pixel (store_pixel m a size v) a size = v mod 2 ^ (8 * size).
Proof.
  intros Hm Hs. pose proof (is_mem_store_pixel m a size v Hm) as Hm'.
  assert (size = 1 \/ size = 2 \/ size = 3 \/ size = 4) as [E|[E|[E|E]]] by lia; rewrite E in *; clear E;
    unfold load_pixel, load8, GGL_RGBA_TO_HOST; cbn [Z.eqb Pos.eqb];
    rewrite ?load16_value, ?load24_value, ?load32_value by done;
    unfold store_pixel, store16, store24, store32, store16, GGL_HOST_TO_RGBA; cbn [Z.eqb Pos.eqb];
    rewrite ?shiftr_div by lia; store_bytes; unfold u8; div_lia.
Qed.

Lemma store_pixel_frame m a size v b :
  b < a \/ a + size <= b -> store_pixel m a size v b = m b.
Proof.
  intros Hb. unfold store_pixel, store16, store24, store32, store16.
  repeat case_match; store_bytes; done.
Qed.

Lemma store_pixel_ext m m' a size v : (forall b, m b = m' b) ->
  forall b, store_pixel m a size v b = store_pixel m' a size v b.
Proof.
  intros E b. unfold store_pixel, store16, store24, store32, store16, store8.
  repeat case_match; done.
Qed.
(** ** The specialised readers *)

(** Same widths, and same values of the components that have any bits. *)
Definition pixel_equiv (p q : pixel_t) : Prop :=
  px_s p = px_s q /\
  Forall2 (fun s cc => s = 0 \/ fst cc = snd cc) (px_s p) (combine (px_c p) (px_c q)).

(** The pixel index fits: no product of the address computation wraps. *)
Definition index_fits (s : surface_t) (x y : Z) : Prop :=
  0 <= x + sf_stride s * y < 2 ^ 29.

Lemma pixel_address_fits s size x y :
  index_fits s x y -> 0 <= size <= 4 ->
  pixel_address s size x y = sf_data s + (x + sf_stride s * y) * size.
Proof.
  unfold index_fits, pixel_address. intros Hi Hs.
  assert (u32 (x + u32 (sf_stride s * y)) = x + sf_stride s * y) as ->.
  { set (k := sf_stride s * y) in *. clearbody k. wrap_lia. }
  set (k := x + sf_stride s * y) in *. clearbody k.
  rewrite (s32_id k) by (unfold is_s32; lia). rewrite s32_id; [done|]. unfold is_s32. nia.
Qed.

Lemma index_fits_u32 s x y : index_fits s x y -> u32 (x + u32 (sf_stride s * y)) = x + sf_stride s * y.
Proof.
  unfold index_fits. intros Hi. set (k := sf_stride s * y) in *. clearbody k. wrap_lia.
Qed.

Lemma extract_no_mask v l bits : l <> 0 -> 0 < bits -> extract v bits l bits = Some (Z.shiftr v l).
Proof.
  intros Hl Hb. unfold extract. rewrite !(proj2 (Z.eqb_neq _ 0)) by lia. by rewrite Z.eqb_refl.
Qed.

(** C40: The reader [pick_read_write] selects, specialised or not, reads the same
    pixel as the generic [read_pixel]. *)
Theorem pick_read_write_equiv m c s x y px p :
  c_formats c = gPixelFormatInfos -> index_fits s x y ->
  read_pixel m c s x y px = Some p ->
  exists q, surface_read m c (pick_read_write s) x y px = Some q /\ pixel_equiv q p.
Proof.
  intros Hf Hi Hr. assert (sf_format (pick_read_write s) = sf_format s) as Ef
    by (unfold pick_read_write; repeat case_match; done).
  unfold surface_read, pick_read_write.
  destruct (Z.eqb_spec (sf_format s) GGL_PIXEL_FORMAT_RGBA_8888) as [E|_];
    [|destruct (Z.eqb_spec (sf_format s) GGL_PIXEL_FORMAT_RGB_565) as [E|_]]; simpl.
  - unfold readABGR8888; simpl. eexists; split; [reflexivity|].
    unfold read_pixel in Hr. case_match; [done|].
    unfold format_of in Hr. rewrite E, Hf in Hr. simpl in Hr.
    rewrite index_fits_u32 by done. rewrite pixel_address_fits in Hr by (done || lia).
    unfold load_pixel in Hr; simpl in Hr.
    rewrite (Z.mul_comm (x + _) 4) in Hr. set (v := load32 m _) in *. clearbody v.
    unfold GGL_RGBA_TO_HOST in *. cbv [read_component u8] in Hr. simpl in Hr. injection Hr as <-.
    split; [done|]. simpl. repeat constructor; right; done.
  - unfold readRGB565; simpl. eexists; split; [reflexivity|].
    unfold read_pixel in Hr. case_match; [done|].
    unfold format_of in Hr. rewrite E, Hf in Hr. simpl in Hr.
    rewrite index_fits_u32 by done. rewrite pixel_address_fits in Hr by (done || lia).
    unfold load_pixel in Hr; simpl in Hr.
    rewrite (Z.mul_comm (x + _) 2) in Hr. set (v := load16 m _) in *. clearbody v.
    cbv [read_component u8] in Hr. simpl in Hr. injection Hr as <-.
    split; [done|]. simpl. repeat constructor; try (by left); right; done.
  - exists p. split; [exact Hr|]. split; [done|].
    clear - Hr. unfold read_pixel in Hr. case_match; [done|].
    do 4 (apply bind_Some in Hr as (? & _ & Hr)). injection Hr as <-.
    repeat constructor; right; done.
Qed.
(** ** Writing a pixel *)

(** The destination value of a component [u] of [s] bits, without dithering. *)
Definition stored_value (u s w : Z) : Z :=
  if s <? w then match expand u s w with Some e => e | None => 0 end else u / 2 ^ (s - w).

Definition full_field (f : Z * Z * Z) : Z * Z * Z := let '(l, w, _) := f in (l, w, 2 ^ w - 1).

Definition component_ok (f : GGLFormat) (i : Z) : bool :=
  (0 <=? f_l f i) && (f_l f i <? f_h f i) && (f_h f i - f_l f i <=? 8) && (f_h f i <=? 8 * f_size f).

Definition all_components : list Z := [ALPHA; RED; GREEN; BLUE].

(** A format pixels can be written to: the components [write_pixel] writes
    are in range and apart from each other. *)
Definition format_ok (f : GGLFormat) : bool :=
  forallb (fun i => negb (f_h f i =? 0) || (f_l f i =? 0)) all_components &&
  (1 <=? f_size f) && (f_size f <=? 4) &&
  forallb (fun i => negb (writes_component f 0xF i) || component_ok f i) all_components &&
  forallb (fun '(i, j) => negb (writes_component f 0xF i) || negb (writes_component f 0xF j) ||
                          (f_h f i <=? f_l f j) || (f_h f j <=? f_l f i))
    [(ALPHA, RED); (ALPHA, GREEN); (ALPHA, BLUE); (RED, GREEN); (RED, BLUE); (GREEN, BLUE)].

Lemma table_format_ok :
  forallb (fun k => format_ok (nth (Z.to_nat k) gPixelFormatInfos no_format))
    (map (Z.add 1) (zrange 11)) = true.
Proof. reflexivity. Qed.

(** The components of a pixel are at most 8 bits wide and in range. *)
Definition component_fits (px : pixel_t) (i : Z) : Prop :=
  let s := nth (Z.to_nat i) (px_s px) 0 in 1 <= s <= 8 /\ 0 <= nth (Z.to_nat i) (px_c px) 0 < 2 ^ s.

Lemma downshift_same_width inp v w dh dl dither :
  dh - dl = w -> downshift_component inp v w 0 dh dl 0 0 dither =
                 downshift_component inp v w 0 dh dl 0 0 (-1).
Proof. intros <-. unfold downshift_component. rewrite Z.sub_0_r. by rewrite Z.ltb_irrefl. Qed.

Lemma div_pow_range u s w : 0 <= w <= s -> 0 <= u < 2 ^ s -> 0 <= u / 2 ^ (s - w) < 2 ^ w.
Proof.
  intros Hw Hu. split; [apply Z.div_pos; lia|]. apply Z.div_lt_upper_bound; [lia|].
  rewrite <-Z.pow_add_r by lia. replace (s - w + w) with s by lia. lia.
Qed.

(** Expansion or downsampling of one component into its field. *)
Lemma store_component dither u s l h :
  dither = -1 \/ 0 <= dither < GGL_DITHER_SIZE ->
  1 <= s <= 8 -> 0 <= u < 2 ^ s -> 0 <= l < h -> h - l <= 8 -> h <= 32 ->
  exists q, 0 <= q < 2 ^ (h - l) /\ (dither = -1 -> q = stored_value u s (h - l)) /\
    forall v, (u ← (if s <? h - l then expand u s (h - l) else Some u);
               downshift_component v u (Z.max s (h - l)) 0 h l 0 0 dither) =
              Some (Z.lor v (q * 2 ^ l)).
Proof.
  intros Hdither Hs Hu Hl Hw Hh. unfold stored_value. set (w := h - l) in *.
  destruct (Z.ltb_spec s w) as [Hlt|Hge].
  - destruct (expand_bits s w u) as (e & -> & He & _); [lia..|].
    exists e. split; [done|]. split; [done|]. intros v. cbn [mbind option_bind].
    rewrite Z.max_r, downshift_same_width, downshift_plain by lia.
    fold w. by rewrite Z.sub_diag, Z.pow_0_r, Z.div_1_r.
  - rewrite Z.max_l by lia. pose proof (div_pow_range u s w ltac:(lia) Hu) as HR.
    destruct (Z.eq_dec s w) as [E|Hne]; [|destruct Hdither as [->|Hr]].
    + exists (u / 2 ^ (s - w)). split; [done|]. split; [done|]. intros v. cbn [mbind option_bind].
      rewrite downshift_same_width, downshift_plain by lia. done.
    + exists (u / 2 ^ (s - w)). split; [done|]. split; [done|]. intros v. cbn [mbind option_bind].
      rewrite downshift_plain by lia. done.
    + destruct (dither_component_spec u s w dither ltac:(lia) ltac:(lia) Hu Hr) as [_ R].
      exists (dither_component u 0 s w dither / 2 ^ (s - w)).
      split; [apply div_pow_range; [lia|exact R]|].
      split; [intros ->; change GGL_DITHER_SIZE with 64 in *; lia|].
      intros v. cbn [mbind option_bind].
      rewrite downshift_dither, downshift_plain by (fold w; lia). done.
Qed.

Section WriteComponents.
Context (f : GGLFormat) (cm dither : Z) (px : pixel_t).
Context (Hdither : dither = -1 \/ 0 <= dither < GGL_DITHER_SIZE).

(** Component [i] is written as the field [fld]. *)
Definition writes_field (i : Z) (fld : Z * Z * Z) : Prop :=
  exists q, fld = (f_l f i, f_h f i - f_l f i, q) /\ 0 <= q < 2 ^ (f_h f i - f_l f i) /\
    (dither = -1 ->
     q = stored_value (nth (Z.to_nat i) (px_c px) 0) (nth (Z.to_nat i) (px_s px) 0)
           (f_h f i - f_l f i)).

Lemma write_component_spec i :
  writes_component f cm i = true -> component_ok f i = true -> f_size f <= 4 -> component_fits px i ->
  exists fld, writes_field i fld /\
    forall mask v, write_component f cm dither px (mask, v) i =
      Some (Z.lor mask (field_val (full_field fld)), Z.lor v (field_val fld)).
Proof.
  intros Hw Hok Hsz [Hs Hu]. unfold component_ok in Hok.
  rewrite !andb_true_iff, Z.ltb_lt, !Z.leb_le in Hok.
  unfold writes_field, write_component, stored_value. rewrite Hw.
  set (u := nth (Z.to_nat i) (px_c px) 0) in *. set (s := nth (Z.to_nat i) (px_s px) 0) in *.
  set (l := f_l f i) in *. set (h := f_h f i) in *. set (w := h - l) in *.
  assert (Z.shiftl (Z.shiftl 1 w - 1) l = field_val (full_field (l, w, 0))) as Em.
  { simpl. rewrite !shiftl_mul by lia. f_equal. lia. }
  destruct (store_component dither u s l h Hdither) as (q & Hq & Hd & Hv); [lia..|].
  fold w in Hq, Hd, Hv.
  exists (l, w, q). split; [eauto|]. intros mask v. rewrite Em.
  specialize (Hv v). destruct (if s <? w then expand u s w else Some u) as [u'|]; [|done].
  cbn [mbind option_bind] in *. rewrite Hv. done.
Qed.

Fixpoint write_list (st : Z * Z) (js : list Z) : option (Z * Z) :=
  match js with
  | [] => Some st
  | i :: js => st ← write_component f cm dither px st i; write_list st js
  end.

Lemma write_components_list : write_components f cm dither px = write_list (0, 0) all_components.
Proof.
  unfold write_components, all_components. cbn [write_list].
  destruct (write_component f cm dither px (0, 0) ALPHA) as [st|]; cbn [mbind option_bind]; [|done].
  destruct (write_component f cm dither px st RED) as [st1|]; cbn [mbind option_bind]; [|done].
  destruct (write_component f cm dither px st1 GREEN) as [st2|]; cbn [mbind option_bind]; [|done].
  by destruct (write_component f cm dither px st2 BLUE).
Qed.

Lemma write_list_spec js mask v :
  f_size f <= 4 ->
  Forall (fun i => writes_component f cm i = true -> component_ok f i = true /\ component_fits px i) js ->
  exists fs, Forall2 writes_field (List.filter (writes_component f cm) js) fs /\
    write_list (mask, v) js = Some (pack_fields (map full_field fs) mask, pack_fields fs v).
Proof.
  intros Hsz. revert mask v. induction js as [|i js IH]; intros mask v His; cbn [write_list List.filter].
  - exists []. split; [constructor|done].
  - inversion His as [|? ? Hi His']; subst. destruct (writes_component f cm i) eqn:E.
    + destruct (Hi eq_refl) as [Hok Hfit].
      destruct (write_component_spec i E Hok Hsz Hfit) as (fld & Hf & Hw).
      destruct (IH (Z.lor mask (field_val (full_field fld))) (Z.lor v (field_val fld)) His') as (fs & HF & HL).
      exists (fld :: fs). split; [by constructor|]. rewrite Hw. cbn [mbind option_bind]. by rewrite HL.
    + unfold write_component at 1. rewrite E. cbn [mbind option_bind]. by apply IH.
Qed.
End WriteComponents.
(** *** The value of a field in a word *)

Definition field_of (v l w : Z) : Z := v / 2 ^ l mod 2 ^ w.

Lemma field_of_testbit v l w k :
  0 <= l -> 0 <= w -> 0 <= k -> Z.testbit (field_of v l w) k = (k <? w) && Z.testbit v (l + k).
Proof.
  intros Hl Hw Hk. unfold field_of. rewrite <-Z.shiftr_div_pow2 by done.
  destruct (Z.ltb_spec k w).
  - rewrite Z.mod_pow2_bits_low, Z.shiftr_spec by lia. by rewrite Z.add_comm.
  - by rewrite Z.mod_pow2_bits_high by lia.
Qed.

Lemma field_of_mod v n l w : 0 <= l -> 0 <= w -> l + w <= n -> field_of (v mod 2 ^ n) l w = field_of v l w.
Proof.
  intros Hl Hw Hn. apply Z.bits_inj'. intros k Hk. rewrite !field_of_testbit by done.
  destruct (Z.ltb_spec k w); [cbn [andb]|done]. apply Z.mod_pow2_bits_low. lia.
Qed.

Lemma field_of_eq_testbit v q l w k :
  0 <= l -> 0 <= k < w -> field_of v l w = q -> Z.testbit v (l + k) = Z.testbit q k.
Proof.
  intros Hl Hk <-. rewrite field_of_testbit by lia. by rewrite (proj2 (Z.ltb_lt k w)) by lia.
Qed.

Section Merge.
Context (v d mask l w : Z) (Hl : 0 <= l) (Hw : 0 <= w) (H32 : l + w <= 32).

Lemma merge_testbit k :
  0 <= k < w ->
  Z.testbit (Z.lor v (Z.land d (not32 mask))) (l + k) =
    Z.testbit v (l + k) || (Z.testbit d (l + k) && negb (Z.testbit mask (l + k))).
Proof. intros Hk. by rewrite Z.lor_spec, Z.land_spec, not32_testbit by lia. Qed.

Lemma merge_written :
  field_of mask l w = 2 ^ w - 1 -> field_of (Z.lor v (Z.land d (not32 mask))) l w = field_of v l w.
Proof.
  intros Hm. apply Z.bits_inj'. intros k Hk. rewrite !field_of_testbit by done.
  destruct (Z.ltb_spec k w); [cbn [andb]|done]. rewrite merge_testbit by lia.
  rewrite (field_of_eq_testbit mask (2 ^ w - 1) l w k) by (done || lia).
  replace (2 ^ w - 1) with (Z.ones w) by (rewrite Z.ones_equiv; lia).
  rewrite Z.ones_spec_low by lia. by rewrite andb_false_r, orb_false_r.
Qed.

Lemma merge_kept :
  field_of mask l w = 0 -> field_of v l w = 0 ->
  field_of (Z.lor v (Z.land d (not32 mask))) l w = field_of d l w.
Proof.
  intros Hm Hv. apply Z.bits_inj'. intros k Hk. rewrite !field_of_testbit by done.
  destruct (Z.ltb_spec k w); [cbn [andb]|done]. rewrite merge_testbit by lia.
  rewrite (field_of_eq_testbit mask 0 l w k), (field_of_eq_testbit v 0 l w k) by (done || lia).
  rewrite Z.bits_0. cbn [orb negb]. by rewrite andb_true_r.
Qed.

Lemma land_kept x : field_of mask l w = 0 -> field_of (Z.land x mask) l w = 0.
Proof.
  intros Hm. apply Z.bits_inj'. intros k Hk. rewrite field_of_testbit, Z.bits_0 by done.
  destruct (Z.ltb_spec k w); [cbn [andb]|done].
  rewrite Z.land_spec, (field_of_eq_testbit mask 0 l w k), Z.bits_0 by (done || lia).
  apply andb_false_r.
Qed.

Lemma land_written x : field_of mask l w = 2 ^ w - 1 -> field_of (Z.land x mask) l w = field_of x l w.
Proof.
  intros Hm. apply Z.bits_inj'. intros k Hk. rewrite !field_of_testbit by done.
  destruct (Z.ltb_spec k w); [cbn [andb]|done].
  rewrite Z.land_spec, (field_of_eq_testbit mask (2 ^ w - 1) l w k) by (done || lia).
  replace (2 ^ w - 1) with (Z.ones w) by (rewrite Z.ones_equiv; lia).
  rewrite Z.ones_spec_low by lia. apply andb_true_r.
Qed.
End Merge.

(** A logic operation acts on each field by itself. *)
Lemma logic_op_field k s d l w :
  0 <= k < 16 -> 0 <= l -> 0 <= w -> l + w <= 32 ->
  forall i, 0 <= i < w ->
  Z.testbit (field_of (logic_op (GGL_CLEAR + k) s d) l w) i =
    logic_bit k (Z.testbit (field_of s l w) i) (Z.testbit (field_of d l w) i).
Proof.
  intros Hk Hl Hw H32 i Hi. rewrite !field_of_testbit by lia.
  rewrite (proj2 (Z.ltb_lt i w)) by lia. cbn [andb]. apply logic_op_bits; lia.
Qed.

(** ** The fields a pixel is written to *)

Definition components_disjoint (f : GGLFormat) (i j : Z) : Prop :=
  f_h f i <= f_l f j \/ f_h f j <= f_l f i.

Lemma FOP_filter {A} (P : A -> bool) (R : A -> A -> Prop) js :
  ForallOrdPairs (fun i j => P i = true -> P j = true -> R i j) js ->
  ForallOrdPairs R (List.filter P js).
Proof.
  induction 1 as [|i js Hi _ IH]; cbn [List.filter]; [constructor|].
  destruct (P i) eqn:E; [|done]. constructor; [|done].
  apply List.Forall_forall. intros j [Hj Pj]%filter_In.
  rewrite List.Forall_forall in Hi. auto.
Qed.

Lemma Forall2_FOP {A B} (P : A -> B -> Prop) (R : A -> A -> Prop) (S : B -> B -> Prop) js fs :
  (forall i j f g, P i f -> P j g -> R i j -> S f g) ->
  Forall2 P js fs -> ForallOrdPairs R js -> ForallOrdPairs S fs.
Proof.
  intros HRS HF. induction HF as [|i f js fs Hp HF IH]; intros H; [constructor|].
  inversion H as [|? ? Hi Hjs]; subst. constructor; [|auto].
  clear IH H Hjs. induction HF as [|j g js fs Hq HF IH]; [constructor|].
  inversion Hi; subst. constructor; eauto.
Qed.

Lemma Forall2_in_l {A B} (P : A -> B -> Prop) js fs j :
  Forall2 P js fs -> In j js -> exists f, In f fs /\ P j f.
Proof.
  induction 1 as [|i f js fs Hp HF IH]; intros Hi; [done|]. destruct Hi as [->|Hi].
  - exists f. simpl. tauto.
  - destruct (IH Hi) as (g & Hg & Pg). exists g. simpl. tauto.
Qed.

Lemma Forall2_in_r {A B} (P : A -> B -> Prop) js fs f :
  Forall2 P js fs -> In f fs -> exists j, In j js /\ P j f.
Proof.
  induction 1 as [|i g js fs Hp HF IH]; intros Hi; [done|]. destruct Hi as [->|Hi].
  - exists i. simpl. tauto.
  - destruct (IH Hi) as (j & Hj & Pj). exists j. simpl. tauto.
Qed.
Lemma full_fields_ok fs :
  Forall field_ok fs -> ForallOrdPairs field_disjoint fs ->
  Forall field_ok (map full_field fs) /\ ForallOrdPairs field_disjoint (map full_field fs).
Proof.
  intros Hok. split.
  - apply List.Forall_forall. intros g ([[l w] q] & <- & Hg)%in_map_iff.
    rewrite List.Forall_forall in Hok. specialize (Hok _ Hg). simpl in *. lia.
  - induction H as [|f fs Hf H IH]; cbn [map]; constructor.
    + apply List.Forall_forall. intros g (g' & <- & Hg)%in_map_iff.
      rewrite List.Forall_forall in Hf. specialize (Hf _ Hg). by destruct f as [[? ?] ?], g' as [[? ?] ?].
    + apply IH. by inversion Hok.
Qed.

(** A field apart from all the packed ones is 0 in the pack. *)
Lemma pack_fields_absent fs l w :
  Forall field_ok fs -> ForallOrdPairs field_disjoint fs ->
  0 <= l -> 0 <= w -> Forall (field_disjoint (l, w, 0)) fs -> field_of (pack_fields fs 0) l w = 0.
Proof.
  intros Hok HD Hl Hw HA. change (pack_fields fs 0) with (pack_fields ((l, w, 0) :: fs) 0).
  apply pack_fields_extract; [|by constructor|by left].
  constructor; [|done]. simpl. lia.
Qed.

Section WrittenFields.
Context (f : GGLFormat) (cm dither : Z) (px : pixel_t).
Context (Hdither : dither = -1 \/ 0 <= dither < GGL_DITHER_SIZE) (Hf : format_ok f = true).
Context (Hpx : forall i, In i all_components -> writes_component f cm i = true -> component_fits px i).

Lemma writes_component_all i :
  In i all_components -> writes_component f cm i = true -> writes_component f 0xF i = true.
Proof.
  unfold writes_component. rewrite !andb_true_iff. intros Hi [[H1 H2] _]. split; [by split|].
  destruct Hi as [<-|[<-|[<-|[<-|[]]]]]; done.
Qed.

Lemma format_ok_component i :
  In i all_components -> writes_component f 0xF i = true ->
  0 <= f_l f i < f_h f i /\ f_h f i - f_l f i <= 8 /\ f_h f i <= 8 * f_size f.
Proof.
  intros Hi Hw. unfold format_ok in Hf. rewrite !andb_true_iff in Hf. destruct Hf as [[_ H] _].
  rewrite forallb_forall in H. specialize (H i Hi). rewrite Hw in H. cbn [negb orb] in H.
  unfold component_ok in H. rewrite !andb_true_iff, Z.ltb_lt, !Z.leb_le in H. lia.
Qed.

Lemma format_ok_size : 1 <= f_size f <= 4.
Proof. unfold format_ok in Hf. rewrite !andb_true_iff, !Z.leb_le in Hf. lia. Qed.

Lemma pair_disjoint i j :
  negb (writes_component f 0xF i) || negb (writes_component f 0xF j) ||
    (f_h f i <=? f_l f j) || (f_h f j <=? f_l f i) = true ->
  writes_component f 0xF i = true -> writes_component f 0xF j = true -> components_disjoint f i j.
Proof.
  intros H Hi Hj. rewrite Hi, Hj in H. cbn [negb orb] in H. apply orb_true_iff in H. rewrite !Z.leb_le in H. exact H.
Qed.

Lemma format_ok_disjoint :
  ForallOrdPairs (fun i j => writes_component f 0xF i = true -> writes_component f 0xF j = true ->
    components_disjoint f i j) all_components.
Proof.
  unfold format_ok in Hf. apply andb_true_iff in Hf as [_ H]. clear - H.
  unfold all_components. cbn [forallb] in H. rewrite !andb_true_iff in H.
  destruct H as (H1 & H2 & H3 & H4 & H5 & H6 & _).
  repeat first [apply FOP_nil | apply FOP_cons | apply List.Forall_nil | apply List.Forall_cons];
    apply pair_disjoint; assumption.
Qed.

Lemma written_disjoint fs :
  Forall2 (writes_field f dither px) (List.filter (writes_component f cm) all_components) fs ->
  ForallOrdPairs field_disjoint fs.
Proof.
  intros HF. apply (Forall2_FOP _ (components_disjoint f) field_disjoint _ _) in HF; [done| |].
  - intros i j g h (q & -> & _) (q' & -> & _) Hd. unfold components_disjoint in Hd. simpl. lia.
  - apply FOP_filter. pose proof format_ok_disjoint as H.
    assert (forall i, In i all_components -> writes_component f cm i = true ->
              writes_component f 0xF i = true) as HW by exact writes_component_all.
    revert H HW. generalize all_components as js. induction 1 as [|i js Hi _ IH]; constructor.
    + apply List.Forall_forall. intros j Hj. rewrite List.Forall_forall in Hi.
      intros Wi Wj. apply Hi; [done|apply HW; simpl; tauto..].
    + apply IH. intros j Hj. apply HW. by right.
Qed.

Lemma written_field_ok fs fld :
  Forall2 (writes_field f dither px) (List.filter (writes_component f cm) all_components) fs ->
  In fld fs -> field_ok fld /\ (let '(l, w, _) := fld in l + w <= 8 * f_size f) /\
  exists i, In i all_components /\ writes_component f cm i = true /\
            fst fld = (f_l f i, f_h f i - f_l f i).
Proof.
  intros HF Hin. destruct (Forall2_in_r _ _ _ _ HF Hin) as (i & Hi & q & -> & Hq & _).
  apply filter_In in Hi as [Hi Hwi].
  destruct (format_ok_component i Hi (writes_component_all i Hi Hwi)) as (? & ? & ?).
  simpl. split; [lia|]. split; [lia|]. by exists i.
Qed.

(** The two words [write_component] builds, field by field. *)
Lemma pack_written fs :
  Forall2 (writes_field f dither px) (List.filter (writes_component f cm) all_components) fs ->
  let mask := pack_fields (map full_field fs) 0 in
  let v := pack_fields fs 0 in
  0 <= mask < 2 ^ (8 * f_size f) /\ 0 <= v < 2 ^ (8 * f_size f) /\
  (forall i, In i all_components -> writes_component f cm i = true ->
     field_of mask (f_l f i) (f_h f i - f_l f i) = 2 ^ (f_h f i - f_l f i) - 1 /\
     writes_field f dither px i (f_l f i, f_h f i - f_l f i,
       field_of v (f_l f i) (f_h f i - f_l f i))) /\
  (forall i, In i all_components -> writes_component f cm i = false ->
     writes_component f 0xF i = true ->
     field_of mask (f_l f i) (f_h f i - f_l f i) = 0 /\
     field_of v (f_l f i) (f_h f i - f_l f i) = 0).
Proof.
  intros HF mask v. pose proof format_ok_size as Hsz.
  pose proof (written_disjoint fs HF) as HD.
  assert (forall fld, In fld fs -> field_ok fld /\ (let '(l, w, _) := fld in l + w <= 8 * f_size f)) as Hin.
  { intros fld Hfld. destruct (written_field_ok fs fld HF Hfld) as (? & ? & _). done. }
  assert (Forall field_ok fs) as Hok by (apply List.Forall_forall; intros fld Hfld; exact (proj1 (Hin fld Hfld))).
  destruct (full_fields_ok fs Hok HD) as [Hokm HDm].
  split; [|split; [|split]].
  - apply pack_fields_range; [lia|done| |split; [done|apply Z.pow_pos_nonneg; lia]].
    apply List.Forall_forall. intros g ([[l w] q] & <- & Hg)%in_map_iff. exact (proj2 (Hin _ Hg)).
  - apply pack_fields_range; [lia|done| |split; [done|apply Z.pow_pos_nonneg; lia]].
    apply List.Forall_forall. intros g Hg. exact (proj2 (Hin _ Hg)).
  - intros i Hi Hw. assert (In i (List.filter (writes_component f cm) all_components)) as Hi'
      by (by apply filter_In).
    destruct (Forall2_in_l _ _ _ _ HF Hi') as (fld & Hfld & HW). pose proof HW as (q & -> & _).
    split.
    + apply pack_fields_extract; [done..|]. apply in_map_iff. by exists (f_l f i, f_h f i - f_l f i, q).
    + unfold field_of, v. by rewrite (pack_fields_extract _ _ _ q).
  - intros i Hi Hw Hall. destruct (format_ok_component i Hi Hall) as (? & ? & ?).
    assert (forall fld, In fld fs -> field_disjoint (f_l f i, f_h f i - f_l f i, 0) fld) as HA.
    { intros [[l w] q] Hfld. destruct (written_field_ok fs _ HF Hfld) as (_ & _ & j & Hj & Wj & E).
      simpl in E. injection E as -> ->. unfold field_disjoint.
      destruct (ForallOrdPairs_In format_ok_disjoint i j Hi Hj) as [->|[D|D]]; [congruence| |];
        unfold components_disjoint in D;
        specialize (D ltac:(auto using writes_component_all) ltac:(auto using writes_component_all)); lia. }
    split; apply pack_fields_absent; try done; try lia; apply List.Forall_forall.
    + intros g ([[l w] q] & <- & Hg)%in_map_iff. exact (HA _ Hg).
    + exact HA.
Qed.

(** What the component loop of [write_pixel] returns. *)
Lemma write_components_spec :
  exists mask v,
    write_components f cm dither px = Some (mask, v) /\
    0 <= mask < 2 ^ (8 * f_size f) /\ 0 <= v < 2 ^ (8 * f_size f) /\
    (forall i, In i all_components -> writes_component f cm i = true ->
       field_of mask (f_l f i) (f_h f i - f_l f i) = 2 ^ (f_h f i - f_l f i) - 1 /\
       writes_field f dither px i (f_l f i, f_h f i - f_l f i,
         field_of v (f_l f i) (f_h f i - f_l f i))) /\
    (forall i, In i all_components -> writes_component f cm i = false ->
       writes_component f 0xF i = true ->
       field_of mask (f_l f i) (f_h f i - f_l f i) = 0 /\
       field_of v (f_l f i) (f_h f i - f_l f i) = 0).
Proof.
  pose proof format_ok_size as Hsz.
  assert (Forall (fun i => writes_component f cm i = true -> component_ok f i = true /\ component_fits px i)
            all_components) as HA.
  { apply List.Forall_forall. intros i Hi Hw. split; [|by apply Hpx].
    destruct (format_ok_component i Hi (writes_component_all i Hi Hw)) as (? & ? & ?).
    unfold component_ok. rewrite !andb_true_iff, Z.ltb_lt, !Z.leb_le. lia. }
  destruct (write_list_spec f cm dither px Hdither all_components 0 0 ltac:(lia) HA) as (fs & HF & HW).
  exists (pack_fields (map full_field fs) 0), (pack_fields fs 0).
  rewrite write_components_list, HW. split; [done|]. exact (pack_written fs HF).
Qed.
End WrittenFields.
(** ** [write_pixel] *)

Definition surface_format (c : context_t) (s : surface_t) : GGLFormat := format_of c (sf_format s).
Definition logic_op_on (c : context_t) : bool := has (st_enables (c_state c)) GGL_ENABLE_LOGIC_OP.
Definition dither_on (c : context_t) : bool := has (st_enables (c_state c)) GGL_ENABLE_DITHER.
Definition color_mask (c : context_t) : Z := mk_color (st_mask (c_state c)).

(** What [write_pixel] needs of its arguments and of the context. *)
Record writable (m : mem) (c : context_t) (s : surface_t) (x y : Z) (px : pixel_t) : Prop := {
  wr_mem : is_mem m;
  wr_format : format_ok (surface_format c s) = true;
  wr_x : x < sf_width s;
  wr_y : y < sf_height s;
  wr_dither : Forall (fun d => 0 <= d < GGL_DITHER_SIZE) (c_ditherMatrix c);
  wr_op : logic_op_on c = true -> GGL_CLEAR <= st_logic_op (c_state c) <= GGL_SET;
  wr_px : forall i, In i all_components ->
    writes_component (surface_format c s) (color_mask c) i = true -> component_fits px i }.

(** Component [i] of the pixel at [(x, y)]. *)
Definition component_at (m : mem) (c : context_t) (s : surface_t) (x y i : Z) : Z :=
  let f := surface_format c s in
  field_of (load_pixel m (pixel_address s (f_size f) x y) (f_size f)) (f_l f i) (f_h f i - f_l f i).

Definition in_pixel (c : context_t) (s : surface_t) (x y b : Z) : Prop :=
  let size := f_size (surface_format c s) in
  let a := pixel_address s size x y in a <= b < a + size.

Definition dither_value (c : context_t) (x y : Z) : Z := if dither_on c then dither_at c x y else -1.

Lemma dither_value_range c x y :
  Forall (fun d => 0 <= d < GGL_DITHER_SIZE) (c_ditherMatrix c) ->
  dither_value c x y = -1 \/ 0 <= dither_value c x y < GGL_DITHER_SIZE.
Proof.
  intros H. unfold dither_value, dither_at. destruct (dither_on c); [right|by left].
  set (k := Z.to_nat _). destruct (Nat.lt_ge_cases k (length (c_ditherMatrix c))).
  - rewrite List.Forall_forall in H. by apply H, nth_In.
  - rewrite nth_overflow by done. done.
Qed.

Lemma write_pixel_fields m c s x y px :
  writable m c s x y px ->
  let f := surface_format c s in
  exists m',
    write_pixel m c s x y px = Some m' /\ is_mem m' /\
    (forall b, ~ in_pixel c s x y b -> m' b = m b) /\
    forall i, In i all_components -> writes_component f 0xF i = true ->
      if writes_component f (color_mask c) i then
        exists q, writes_field f (dither_value c x y) px i (f_l f i, f_h f i - f_l f i, q) /\
          if logic_op_on c then
            forall k, 0 <= k < f_h f i - f_l f i ->
              Z.testbit (component_at m' c s x y i) k =
              logic_bit (st_logic_op (c_state c) - GGL_CLEAR) (Z.testbit q k)
                (Z.testbit (component_at m c s x y i) k)
          else component_at m' c s x y i = q
      else component_at m' c s x y i = component_at m c s x y i.
Proof.
  intros [Hm Hf Hx Hy Hd Hop Hpx] f. fold f in Hf, Hpx.
  pose proof (format_ok_size f Hf) as Hsz.
  destruct (write_components_spec f (color_mask c) (dither_value c x y) px
    (dither_value_range c x y Hd) Hf Hpx) as (mask & v & HW & Hmask & Hv & Hin & Hout).
  set (a := pixel_address s (f_size f) x y). set (d := load_pixel m a (f_size f)).
  set (v1 := if logic_op_on c then Z.land (logic_op (st_logic_op (c_state c)) v d) mask else v).
  set (w := if negb (color_mask c =? 0xF) || logic_op_on c
            then Z.lor v1 (Z.land d (not32 mask)) else v).
  exists (store_pixel m a (f_size f) w).
  split; [|split; [by apply is_mem_store_pixel|split]].
  - unfold write_pixel. rewrite (proj2 (Z.ltb_lt x _)), (proj2 (Z.ltb_lt y _)) by done.
    cbn [andb negb]. change (format_of c (sf_format s)) with f.
    change (mk_color (st_mask (c_state c))) with (color_mask c).
    change (if has (st_enables (c_state c)) GGL_ENABLE_DITHER then dither_at c x y else -1)
      with (dither_value c x y). rewrite HW. reflexivity.
  - intros b Hb. apply store_pixel_frame. unfold in_pixel in Hb. fold f a in Hb. lia.
  - intros i Hi Hall. destruct (format_ok_component f Hf i Hi Hall) as (Hl & Hw8 & Hh).
    unfold component_at. fold f a d. rewrite (load_store_pixel m a) by done.
    rewrite field_of_mod by lia. set (l := f_l f i) in *. set (n := f_h f i - l) in *.
    destruct (writes_component f (color_mask c) i) eqn:Hwr.
    + destruct (Hin i Hi Hwr) as [Hmi Hvi]. fold l n in Hmi, Hvi.
      exists (field_of v l n). split; [exact Hvi|]. unfold w, v1.
      destruct (logic_op_on c).
      * rewrite orb_true_r. intros k Hk. rewrite merge_written, land_written by (done || lia).
        replace (st_logic_op (c_state c)) with (GGL_CLEAR + (st_logic_op (c_state c) - GGL_CLEAR)) at 1
          by lia.
        apply logic_op_field; try lia. specialize (Hop eq_refl). unfold GGL_CLEAR, GGL_SET in *. lia.
      * destruct (_ || _); [|done]. by rewrite merge_written by (done || lia).
    + destruct (Hout i Hi Hwr Hall) as [Hmi Hvi]. fold l n in Hmi, Hvi. unfold w, v1.
      destruct (Z.eqb_spec (color_mask c) 0xF) as [E|]; [rewrite E in Hwr; congruence|].
      cbn [negb orb]. apply merge_kept; try done; try lia.
      destruct (logic_op_on c); [apply land_kept; done || lia|done].
Qed.
(** ** Round trip and logic operations *)

Lemma read_component_field f v i old :
  format_ok f = true -> In i all_components -> writes_component f 0xF i = true ->
  0 <= v < 2 ^ (8 * f_size f) ->
  read_component f v old i = Some (field_of v (f_l f i) (f_h f i - f_l f i), f_h f i - f_l f i).
Proof.
  intros Hf Hi Hw Hv. destruct (format_ok_component f Hf i Hi Hw) as (? & ? & ?).
  unfold read_component. rewrite u8_id by (unfold is_u8; lia).
  rewrite (proj2 (Z.eqb_neq _ 0)) by lia. rewrite Z.mul_comm, extract_spec by lia. done.
Qed.

(** [read_pixel] succeeds inside the surface and returns the components. *)
Lemma read_pixel_fields m c s x y old :
  is_mem m -> format_ok (surface_format c s) = true -> x < sf_width s -> y < sf_height s ->
  exists p, read_pixel m c s x y old = Some p /\
    forall i, In i all_components -> writes_component (surface_format c s) 0xF i = true ->
      nth (Z.to_nat i) (px_c p) 0 = component_at m c s x y i.
Proof.
  intros Hm Hf Hx Hy. unfold component_at. set (f := surface_format c s) in *.
  set (a := pixel_address s (f_size f) x y).
  pose proof (load_pixel_range m Hm a (f_size f) (format_ok_size f Hf)) as Hv.
  set (v := load_pixel m a (f_size f)) in *.
  assert (forall i o, In i all_components -> exists r, read_component f v o i = Some r /\
    (writes_component f 0xF i = true -> fst r = field_of v (f_l f i) (f_h f i - f_l f i))) as HR.
  { intros i o Hi. destruct (writes_component f 0xF i) eqn:Hw.
    - eexists. split; [by apply read_component_field|done].
    - unfold read_component. destruct (_ =? 0) eqn:Ez; [by eexists|].
      unfold extract. destruct (Z.eqb_spec (f_h f i) 0) as [E0|]; [|by eexists].
      assert (f_l f i = 0) as El.
      { unfold format_ok in Hf. rewrite !andb_true_iff in Hf. destruct Hf as [[[[H0 _] _] _] _].
        rewrite forallb_forall in H0. specialize (H0 i Hi). rewrite E0 in H0. simpl in H0. lia. }
      rewrite E0, El in Ez. done. }
  unfold read_pixel. rewrite (proj2 (Z.ltb_lt x _)), (proj2 (Z.ltb_lt y _)) by done.
  cbn [andb negb]. change (format_of c (sf_format s)) with f. fold a v.
  destruct (HR ALPHA (nth 0 (px_c old) 0) ltac:(simpl; tauto)) as (ra & -> & Ha).
  destruct (HR RED (nth 1 (px_c old) 0) ltac:(simpl; tauto)) as (rr & -> & Hrd).
  destruct (HR GREEN (nth 2 (px_c old) 0) ltac:(simpl; tauto)) as (rg & -> & Hg).
  destruct (HR BLUE (nth 3 (px_c old) 0) ltac:(simpl; tauto)) as (rb & -> & Hb).
  cbn [mbind option_bind]. eexists. split; [reflexivity|].
  intros i [<-|[<-|[<-|[<-|[]]]]]; assumption.
Qed.

(** C5: Reading back the pixel just written gives the written components scaled to
    the width of the format, and the previous value of the components the
    color mask protects; every byte outside the pixel keeps its value. *)
Theorem write_read_pixel m c s x y px old :
  writable m c s x y px -> logic_op_on c = false -> dither_on c = false ->
  let f := surface_format c s in
  exists m' p p',
    write_pixel m c s x y px = Some m' /\
    read_pixel m c s x y old = Some p /\ read_pixel m' c s x y old = Some p' /\
    (forall b, ~ in_pixel c s x y b -> m' b = m b) /\
    forall i, In i all_components -> writes_component f 0xF i = true ->
      nth (Z.to_nat i) (px_c p') 0 =
        if writes_component f (color_mask c) i
        then stored_value (nth (Z.to_nat i) (px_c px) 0) (nth (Z.to_nat i) (px_s px) 0)
               (f_h f i - f_l f i)
        else nth (Z.to_nat i) (px_c p) 0.
Proof.
  intros HW Hlo Hdi f. pose proof HW as [Hm Hf Hx Hy _ _ _]. fold f in Hf.
  destruct (write_pixel_fields m c s x y px HW) as (m' & E & Hm' & Hfr & HC).
  fold f in HC. rewrite Hlo in HC.
  destruct (read_pixel_fields m c s x y old Hm Hf Hx Hy) as (p & Hp & HP).
  destruct (read_pixel_fields m' c s x y old Hm' Hf Hx Hy) as (p' & Hp' & HP').
  exists m', p, p'. do 4 (split; [done|]). intros i Hi Hw. rewrite (HP' i Hi Hw), (HP i Hi Hw).
  specialize (HC i Hi Hw). destruct (writes_component f (color_mask c) i); [|done].
  destruct HC as (q & (q' & [= <-] & _ & Hq) & ->). apply Hq. unfold dither_value. by rewrite Hdi.
Qed.

(** With a logic operation enabled, each bit of each written component is the
    operation's boolean function of the source bit and of the bit that was
    there; masked components keep their bits. *)
Theorem write_pixel_logic_op m c s x y px :
  writable m c s x y px -> logic_op_on c = true ->
  let f := surface_format c s in
  exists m', write_pixel m c s x y px = Some m' /\
    forall i, In i all_components -> writes_component f 0xF i = true ->
      if writes_component f (color_mask c) i then
        exists q, writes_field f (dither_value c x y) px i (f_l f i, f_h f i - f_l f i, q) /\
          forall k, 0 <= k < f_h f i - f_l f i ->
            Z.testbit (component_at m' c s x y i) k =
            logic_bit (st_logic_op (c_state c) - GGL_CLEAR) (Z.testbit q k)
              (Z.testbit (component_at m c s x y i) k)
      else component_at m' c s x y i = component_at m c s x y i.
Proof.
  intros HW Hlo f. destruct (write_pixel_fields m c s x y px HW) as (m' & E & _ & _ & HC).
  fold f in HC. rewrite Hlo in HC. by exists m'.
Qed.

(** ** Witnesses *)

Definition example_surface : surface_t :=
  mk_surface 4 4 4 0x1000 GGL_PIXEL_FORMAT_RGB_565 0 no_reader no_writer.
Definition example_context (color_mask enables op : Z) : context_t :=
  zero_context <| c_formats := gPixelFormatInfos |>
    <| c_state ::= fun st => st <| st_mask := mk_mask color_mask 0 0 |>
                               <| st_enables := enables |> <| st_logic_op := op |> |>.
Definition example_pixel : pixel_t := mk_pixel [255; 170; 85; 12] [8; 8; 8; 8].

Lemma example_writable cm en op x y :
  0 <= x < 4 -> 0 <= y < 4 -> GGL_CLEAR <= op <= GGL_SET ->
  writable (fun _ => 0x5A) (example_context cm en op) example_surface x y example_pixel.
Proof.
  intros Hx Hy Hop. split; try done; simpl; try lia.
  - repeat constructor; done.
  - intros i [<-|[<-|[<-|[<-|[]]]]] _; vm_compute; intuition congruence.
Qed.

Lemma write_read_pixel_witness :
  exists m' p p',
    write_pixel (fun _ => 0x5A) (example_context 0xB 0 GGL_COPY) example_surface 2 3 example_pixel
      = Some m' /\
    read_pixel (fun _ => 0x5A) (example_context 0xB 0 GGL_COPY) example_surface 2 3 example_pixel = Some p /\
    read_pixel m' (example_context 0xB 0 GGL_COPY) example_surface 2 3 example_pixel = Some p' /\
    nth 1 (px_c p') 0 = 21 /\ nth 2 (px_c p') 0 = nth 2 (px_c p) 0.
Proof.
  destruct (write_read_pixel (fun _ => 0x5A) (example_context 0xB 0 GGL_COPY) example_surface 2 3
    example_pixel example_pixel) as (m' & p & p' & E & Ep & Ep' & _ & H).
  - apply example_writable; vm_compute; intuition congruence.
  - reflexivity.
  - reflexivity.
  - exists m', p, p'. do 3 (split; [assumption|]). split.
    + exact (H RED ltac:(simpl; tauto) eq_refl).
    + exact (H GREEN ltac:(simpl; tauto) eq_refl).
Defined.

Lemma write_pixel_logic_op_witness :
  exists m', write_pixel (fun _ => 0x5A) (example_context 0xF GGL_ENABLE_LOGIC_OP GGL_XOR)
    example_surface 1 1 example_pixel = Some m'.
Proof.
  destruct (write_pixel_logic_op (fun _ => 0x5A) (example_context 0xF GGL_ENABLE_LOGIC_OP GGL_XOR)
    example_surface 1 1 example_pixel) as (m' & E & _).
  - apply example_writable; vm_compute; intuition congruence.
  - reflexivity.
  - exists m'. exact E.
Defined.

Lemma pick_read_write_equiv_witness :
  exists q, surface_read (fun _ => 0x5A) (example_context 0xF 0 GGL_COPY)
    (pick_read_write example_surface) 1 2 example_pixel = Some q.
Proof.
  destruct (pick_read_write_equiv (fun _ => 0x5A) (example_context 0xF 0 GGL_COPY) example_surface 1 2
    example_pixel (mk_pixel [255; 11; 18; 26] [0; 5; 6; 5])) as (q & E & _);
    [reflexivity|vm_compute; intuition congruence|vm_compute; reflexivity|].
  exists q. exact E.
Defined.
