(* ===== verification/PixelFlinger.v ===== *)
(** * The context and its commands

    Models libpixelflinger/pixelflinger.cpp: one definition per command of the
    [GGLContext] function table, in the order of the source, plus
    [ggl_state_changed] and [ggl_init_trap] of trap.cpp, [ggl_init_scanline]
    of scanline.cpp and [ggl_init_clear] of clear.cpp, which set up the
    context.  A command is a function on contexts; it is [None] when it
    indexes the array of texture units out of range. *)

From S2P Require Import Prelude Fixed Names Context PixelFormat Surface.

(** ** Dirty state *)

Definition ggl_state_changed (flags : Z) (c : context_t) : context_t :=
  let c := if c_dirty c =? 0
           then c <| c_procs := mk_procs use_pointx_validate use_linex_validate
                                  use_recti_validate use_trianglex_validate |>
           else c in
  c <| c_dirty ::= set_bits flags |>.

Definition ggl_error (error : Z) (c : context_t) : context_t :=
  if c_error c =? GGL_NO_ERROR then c <| c_error := error |> else c.

(** Access paths of the context. *)
Definition upd_state (f : state_t -> state_t) (c : context_t) : context_t := c <| c_state ::= f |>.
Definition upd_enables (f : Z -> Z) : context_t -> context_t :=
  upd_state (fun st => st <| st_enables ::= f |>).
Definition enables (c : context_t) : Z := st_enables (c_state c).
Definition texture (c : context_t) (i : Z) : texture_t :=
  nth (Z.to_nat i) (st_texture (c_state c)) zero_texture.
Definition upd_texture (i : Z) (f : texture_t -> texture_t) : context_t -> context_t :=
  upd_state (fun st => st <| st_texture ::= alter f (Z.to_nat i) |>).
(** [c->activeTMU]. *)
Definition activeTMU (c : context_t) : texture_t := texture c (c_activeTMU c).
Definition upd_activeTMU (f : texture_t -> texture_t) (c : context_t) : context_t :=
  upd_texture (c_activeTMU c) f c.
Definition upd_buffers (f : framebuffer_t -> framebuffer_t) : context_t -> context_t :=
  upd_state (fun st => st <| st_buffers ::= f |>).

(** ** Scissor *)

Definition ggl_min (a b : Z) : Z := if a <? b then a else b.
Definition ggl_max (a b : Z) : Z := if a <? b then b else a.

Definition ggl_set_scissor (c : context_t) : context_t :=
  let s := st_scissor (c_state c) in
  let cb := fb_color (st_buffers (c_state c)) in
  let s :=
    if has (enables c) GGL_ENABLE_SCISSOR_TEST then
      let l := s32 (sc_user_left s) in
      let t := s32 (sc_user_top s) in
      let r := s32 (sc_user_right s) in
      let b := s32 (sc_user_bottom s) in
      s <| sc_left := u32 (ggl_max 0 l) |> <| sc_right := u32 (ggl_min (s32 (sf_width cb)) r) |>
        <| sc_top := u32 (ggl_max 0 t) |> <| sc_bottom := u32 (ggl_min (s32 (sf_height cb)) b) |>
    else
      s <| sc_left := 0 |> <| sc_top := 0 |>
        <| sc_right := sf_width cb |> <| sc_bottom := sf_height cb |> in
  upd_state (fun st => st <| st_scissor := s |>) c.

(** ** Enables *)

(** [e != enable], where [e] is the current value of the bit. *)
Definition toggles (c : context_t) (bit enable : Z) : bool :=
  negb ((if has (enables c) bit then 1 else 0) =? enable).

Definition set_enable (bit enable : Z) (c : context_t) : context_t :=
  upd_enables (if enable =? 0 then clear_bits bit else set_bits bit) c.

(** The body most of the [ggl_enable_xxx] functions share. *)
Definition enable_pipeline_bit (bit enable : Z) (c : context_t) : context_t :=
  if toggles c bit enable then ggl_state_changed GGL_PIXEL_PIPELINE_STATE (set_enable bit enable c)
  else c.

Definition ggl_enable_blending := enable_pipeline_bit GGL_ENABLE_BLENDING.
Definition ggl_enable_alpha_test := enable_pipeline_bit GGL_ENABLE_ALPHA_TEST.
Definition ggl_enable_logic_op := enable_pipeline_bit GGL_ENABLE_LOGIC_OP.
Definition ggl_enable_dither := enable_pipeline_bit GGL_ENABLE_DITHER.
Definition ggl_enable_aa := enable_pipeline_bit GGL_ENABLE_AA.
Definition ggl_enable_point_aa_nice := enable_pipeline_bit GGL_ENABLE_POINT_AA_NICE.
Definition ggl_enable_w_lerp := enable_pipeline_bit GGL_ENABLE_W.
Definition ggl_enable_fog := enable_pipeline_bit GGL_ENABLE_FOG.
Definition ggl_enable_stencil_test (enable : Z) (c : context_t) : context_t := c.

Definition ggl_enable_scissor_test (enable : Z) (c : context_t) : context_t :=
  if toggles c GGL_ENABLE_SCISSOR_TEST enable
  then ggl_set_scissor (set_enable GGL_ENABLE_SCISSOR_TEST enable c) else c.

Definition ggl_enable_depth_test (enable : Z) (c : context_t) : context_t :=
  let enable := if sf_format (fb_depth (st_buffers (c_state c))) =? 0 then 0 else enable in
  enable_pipeline_bit GGL_ENABLE_DEPTH_TEST enable c.

Definition ggl_enable_texture2d (enable : Z) (c : context_t) : context_t :=
  if negb (tx_enable (activeTMU c) =? enable) then
    let c := upd_activeTMU (fun t => t <| tx_enable := enable |>) c in
    let mask := Z.shiftl 1 (c_activeTMUIndex c) in
    let c := upd_state (fun st => st <| st_enabled_tmu ::=
               if enable =? 0 then clear_bits mask else set_bits mask |>) c in
    let c := set_enable GGL_ENABLE_TMUS (st_enabled_tmu (c_state c)) c in
    ggl_state_changed GGL_TMU_STATE c
  else c.

Definition enable_disable (name en : Z) (c : context_t) : context_t :=
  if name =? GGL_BLEND then ggl_enable_blending en c
  else if name =? GGL_SCISSOR_TEST then ggl_enable_scissor_test en c
  else if name =? GGL_ALPHA_TEST then ggl_enable_alpha_test en c
  else if name =? GGL_COLOR_LOGIC_OP then ggl_enable_logic_op en c
  else if name =? GGL_DITHER then ggl_enable_dither en c
  else if name =? GGL_STENCIL_TEST then ggl_enable_stencil_test en c
  else if name =? GGL_DEPTH_TEST then ggl_enable_depth_test en c
  else if name =? GGL_AA then ggl_enable_aa en c
  else if name =? GGL_TEXTURE_2D then ggl_enable_texture2d en c
  else if name =? GGL_W_LERP then ggl_enable_w_lerp en c
  else if name =? GGL_FOG then ggl_enable_fog en c
  else if name =? GGL_POINT_SMOOTH_NICE then ggl_enable_point_aa_nice en c
  else c.

Definition ggl_enable (name : Z) : context_t -> context_t := enable_disable name 1.
Definition ggl_disable (name : Z) : context_t -> context_t := enable_disable name 0.
Definition ggl_enableDisable (name en : Z) : context_t -> context_t :=
  enable_disable name (if en =? 0 then 0 else 1).

(** ** Buffers and textures *)

Definition ggl_bindTexture (surface : GGLSurface) (c : context_t) : context_t :=
  let c := if negb (gs_format surface =? sf_format (tx_surface (activeTMU c)))
           then ggl_state_changed GGL_TMU_STATE c else c in
  upd_activeTMU (fun t => t <| tx_surface ::= ggl_set_surface c surface |>) c.

Definition ggl_bindTextureLod (tmu : Z) (surface : GGLSurface) (c : context_t) : option context_t :=
  if tmu <? GGL_TEXTURE_UNIT_COUNT
  then Some (upd_texture tmu (fun t => t <| tx_surface ::= ggl_set_surface c surface |>) c)
  else None.

(** [alloc] is what [malloc(surface->width * 2)] returns. *)
Definition ggl_colorBuffer (alloc : Z) (surface : GGLSurface) (c : context_t) : context_t :=
  let c := if negb (gs_format surface =? sf_format (fb_color (st_buffers (c_state c))))
           then ggl_state_changed GGL_CB_STATE c else c in
  let c := if fb_coverageBufferSize (st_buffers (c_state c)) <? gs_width surface
           then upd_buffers (fun b => b <| fb_coverage := alloc |>
                  <| fb_coverageBufferSize := if alloc =? 0 then 0 else gs_width surface |>) c
           else c in
  let c := upd_buffers (fun b => b <| fb_color ::= ggl_set_surface c surface |>) c in
  let c := if sf_format (fb_read (st_buffers (c_state c))) =? 0
           then upd_buffers (fun b => b <| fb_read ::= ggl_set_surface c surface |>) c else c in
  ggl_set_scissor c.

Definition ggl_readBuffer (surface : GGLSurface) (c : context_t) : context_t :=
  upd_buffers (fun b => b <| fb_read ::= ggl_set_surface c surface |>) c.

Definition ggl_depthBuffer (surface : GGLSurface) (c : context_t) : context_t :=
  if gs_format surface =? GGL_PIXEL_FORMAT_Z_16
  then upd_buffers (fun b => b <| fb_depth ::= ggl_set_surface c surface |>) c
  else ggl_enable_depth_test 0
         (upd_buffers (fun b => b <| fb_depth ; sf_format := GGL_PIXEL_FORMAT_NONE |>) c).

Definition ggl_scissor (x y width height : Z) (c : context_t) : context_t :=
  ggl_set_scissor (upd_state (fun st => st <| st_scissor ::= fun s =>
    s <| sc_user_left := u32 x |> <| sc_user_top := u32 y |>
      <| sc_user_right := u32 (x + width) |> <| sc_user_bottom := u32 (y + height) |> |>) c).

(** ** Shading *)

Definition ggl_shadeModel (mode : Z) (c : context_t) : context_t :=
  if mode =? GGL_FLAT then
    if has (enables c) GGL_ENABLE_SMOOTH
    then ggl_state_changed GGL_PIXEL_PIPELINE_STATE (upd_enables (clear_bits GGL_ENABLE_SMOOTH) c)
    else c
  else if mode =? GGL_SMOOTH then
    if negb (has (enables c) GGL_ENABLE_SMOOTH)
    then ggl_state_changed GGL_PIXEL_PIPELINE_STATE (upd_enables (set_bits GGL_ENABLE_SMOOTH) c)
    else c
  else ggl_error GGL_INVALID_ENUM c.

(** Element [i] of an array argument. *)
Definition arg (v : list Z) (i : nat) : Z := nth i v 0.

Definition ggl_color4xv (color : list Z) (c : context_t) : context_t :=
  c <| c_shade ::= fun s =>
    s <| sh_r0 := gglFixedToIteratedColor (arg color 0) |>
      <| sh_g0 := gglFixedToIteratedColor (arg color 1) |>
      <| sh_b0 := gglFixedToIteratedColor (arg color 2) |>
      <| sh_a0 := gglFixedToIteratedColor (arg color 3) |> |>.

Definition ggl_colorGrad12xv (grad : list Z) (c : context_t) : context_t :=
  let round := 0x8000 in
  c <| c_shade ::= fun s =>
    s <| sh_r0 := s32 (arg grad 0 + round) |> <| sh_drdx := arg grad 1 |> <| sh_drdy := arg grad 2 |>
      <| sh_g0 := s32 (arg grad 3 + round) |> <| sh_dgdx := arg grad 4 |> <| sh_dgdy := arg grad 5 |>
      <| sh_b0 := s32 (arg grad 6 + round) |> <| sh_dbdx := arg grad 7 |> <| sh_dbdy := arg grad 8 |>
      <| sh_a0 := s32 (arg grad 9 + round) |> <| sh_dadx := arg grad 10 |>
      <| sh_dady := arg grad 11 |> |>.

Definition ggl_zGrad3xv (grad : list Z) (c : context_t) : context_t :=
  c <| c_shade ::= fun s => s <| sh_z0 := u32 (arg grad 0 + 0x8000) |>
    <| sh_dzdx := arg grad 1 |> <| sh_dzdy := arg grad 2 |> |>.

Definition ggl_wGrad3xv (grad : list Z) (c : context_t) : context_t :=
  c <| c_shade ::= fun s => s <| sh_w0 := arg grad 0 |>
    <| sh_dwdx := arg grad 1 |> <| sh_dwdy := arg grad 2 |> |>.

Definition ggl_fogGrad3xv (grad : list Z) (c : context_t) : context_t :=
  c <| c_shade ::= fun s => s <| sh_f0 := u32 (arg grad 0) |>
    <| sh_dfdx := arg grad 1 |> <| sh_dfdy := arg grad 2 |> |>.

(** [(x - (x>>8)) >> 8]: a clamped fixed-point value as a byte. *)
Definition clampx_to_byte (x : Z) : Z := u8 (Z.shiftr (x - Z.shiftr x 8) 8).

Definition ggl_fogColor3xv (color : list Z) (c : context_t) : context_t :=
  let r := gglClampx (arg color 0) in
  let g := gglClampx (arg color 1) in
  let b := gglClampx (arg color 2) in
  upd_state (fun st => st <| st_fog_color :=
    [0xFF; clampx_to_byte r; clampx_to_byte g; clampx_to_byte b] |>) c.

(** ** Blending *)

Definition blend_changed (c : context_t) : context_t :=
  if has (enables c) GGL_ENABLE_BLENDING then ggl_state_changed GGL_PIXEL_PIPELINE_STATE c else c.

Definition ggl_blendFunc (src dst : Z) (c : context_t) : context_t :=
  blend_changed (upd_state (fun st => st <| st_blend := mk_blend src dst src dst 0 |>) c).

Definition ggl_blendFuncSeparate (src dst srcAlpha dstAlpha : Z) (c : context_t) : context_t :=
  blend_changed (upd_state (fun st => st <| st_blend := mk_blend src dst srcAlpha dstAlpha 1 |>) c).

(** ** Texture parameters *)

Definition is_tex_env (param : Z) : bool :=
  (param =? GGL_REPLACE) || (param =? GGL_MODULATE) || (param =? GGL_DECAL)
  || (param =? GGL_BLEND) || (param =? GGL_ADD).

Definition ggl_texEnvi (target pname param : Z) (c : context_t) : context_t :=
  if negb (target =? GGL_TEXTURE_ENV) || negb (pname =? GGL_TEXTURE_ENV_MODE)
  then ggl_error GGL_INVALID_ENUM c
  else if is_tex_env param then
    if negb (tx_env (activeTMU c) =? param)
    then ggl_state_changed GGL_TMU_STATE (upd_activeTMU (fun t => t <| tx_env := param |>) c)
    else c
  else ggl_error GGL_INVALID_ENUM c.

Definition ggl_texEnvxv (target pname : Z) (params : list Z) (c : context_t) : context_t :=
  if negb (target =? GGL_TEXTURE_ENV) then ggl_error GGL_INVALID_ENUM c
  else if pname =? GGL_TEXTURE_ENV_MODE then ggl_texEnvi target pname (arg params 0) c
  else if pname =? GGL_TEXTURE_ENV_COLOR then
    let r := gglClampx (arg params 0) in
    let g := gglClampx (arg params 1) in
    let b := gglClampx (arg params 2) in
    let a := gglClampx (arg params 3) in
    upd_activeTMU (fun t => t <| tx_env_color :=
      [clampx_to_byte a; clampx_to_byte r; clampx_to_byte g; clampx_to_byte b] |>) c
  else ggl_error GGL_INVALID_ENUM c.

(** The fields [what] points to in [ggl_texParameteri]. *)
Inductive tex_param := P_s_wrap | P_t_wrap | P_min_filter | P_mag_filter.
Definition get_tex_param (p : tex_param) (t : texture_t) : Z :=
  match p with P_s_wrap => tx_s_wrap t | P_t_wrap => tx_t_wrap t
  | P_min_filter => tx_min_filter t | P_mag_filter => tx_mag_filter t end.
Definition set_tex_param (p : tex_param) (v : Z) (t : texture_t) : texture_t :=
  match p with P_s_wrap => t <| tx_s_wrap := v |> | P_t_wrap => t <| tx_t_wrap := v |>
  | P_min_filter => t <| tx_min_filter := v |> | P_mag_filter => t <| tx_mag_filter := v |> end.

(** The [switch (pname)]: the field and the value to store, if any. *)
Definition tex_parameter (pname param : Z) : option (tex_param * Z) :=
  if pname =? GGL_TEXTURE_WRAP_S then
    if (param =? GGL_CLAMP) || (param =? GGL_REPEAT) then Some (P_s_wrap, param) else None
  else if pname =? GGL_TEXTURE_WRAP_T then
    if (param =? GGL_CLAMP) || (param =? GGL_REPEAT) then Some (P_t_wrap, param) else None
  else if pname =? GGL_TEXTURE_MIN_FILTER then
    if (param =? GGL_NEAREST) || (param =? GGL_NEAREST_MIPMAP_NEAREST)
       || (param =? GGL_NEAREST_MIPMAP_LINEAR) then Some (P_min_filter, GGL_NEAREST)
    else if (param =? GGL_LINEAR) || (param =? GGL_LINEAR_MIPMAP_NEAREST)
       || (param =? GGL_LINEAR_MIPMAP_LINEAR) then Some (P_min_filter, GGL_LINEAR)
    else None
  else if pname =? GGL_TEXTURE_MAG_FILTER then
    if (param =? GGL_NEAREST) || (param =? GGL_LINEAR) then Some (P_mag_filter, param) else None
  else None.

Definition ggl_texParameteri (target pname param : Z) (c : context_t) : context_t :=
  if negb (target =? GGL_TEXTURE_2D) then ggl_error GGL_INVALID_ENUM c
  else
    let param := if param =? GGL_CLAMP_TO_EDGE then GGL_CLAMP else param in
    match tex_parameter pname param with
    | None => ggl_error GGL_INVALID_ENUM c
    | Some (what, param) =>
        if negb (get_tex_param what (activeTMU c) =? param)
        then ggl_state_changed GGL_TMU_STATE (upd_activeTMU (set_tex_param what param) c)
        else c
    end.

Definition ggl_texCoordGradScale8xv (tmu : Z) (grad : list Z) (c : context_t) : option context_t :=
  if (0 <=? tmu) && (tmu <? GGL_TEXTURE_UNIT_COUNT) then
    Some (upd_texture tmu (fun u => u <| tx_shade :=
      mk_texture_shade (arg grad 0) (arg grad 1) (arg grad 2) (arg grad 6)
                       (arg grad 3) (arg grad 4) (arg grad 5) (arg grad 7) |>) c)
  else None.

Definition ggl_texCoord2x (s t : Z) (c : context_t) : context_t :=
  upd_activeTMU (fun u => u <| tx_shade ::= fun sh =>
    sh <| ts_is0 := s |> <| ts_it0 := t |> <| ts_sscale := 0 |> <| ts_tscale := 0 |> |>) c.

Definition ggl_texCoord2i (s t : Z) (c : context_t) : context_t :=
  ggl_texCoord2x (s32 (Z.shiftl s 16)) (s32 (Z.shiftl t 16)) c.

Definition ggl_texGeni (coord pname param : Z) (c : context_t) : context_t :=
  if negb (pname =? GGL_TEXTURE_GEN_MODE) then ggl_error GGL_INVALID_ENUM c
  else if coord =? GGL_S then
    if negb (tx_s_coord (activeTMU c) =? u32 param)
    then ggl_state_changed GGL_TMU_STATE (upd_activeTMU (fun t => t <| tx_s_coord := u32 param |>) c)
    else c
  else if coord =? GGL_T then
    if negb (tx_t_coord (activeTMU c) =? u32 param)
    then ggl_state_changed GGL_TMU_STATE (upd_activeTMU (fun t => t <| tx_t_coord := u32 param |>) c)
    else c
  else ggl_error GGL_INVALID_ENUM c.

Definition ggl_activeTexture (tmu : Z) (c : context_t) : context_t :=
  if GGL_TEXTURE_UNIT_COUNT <=? tmu then ggl_error GGL_INVALID_ENUM c
  else c <| c_activeTMUIndex := tmu |> <| c_activeTMU := tmu |>.

(** ** Masks and tests *)

Definition color_mask_bits (r g b a : Z) : Z :=
  Z.lor (Z.lor (Z.lor (if a =? 0 then 0 else Z.shiftl 1 ALPHA) (if r =? 0 then 0 else Z.shiftl 1 RED))
    (if g =? 0 then 0 else Z.shiftl 1 GREEN)) (if b =? 0 then 0 else Z.shiftl 1 BLUE).

Definition upd_mask (f : mask_state_t -> mask_state_t) : context_t -> context_t :=
  upd_state (fun st => st <| st_mask ::= f |>).

Definition ggl_colorMask (r g b a : Z) (c : context_t) : context_t :=
  let mask := color_mask_bits r g b a in
  if negb (mk_color (st_mask (c_state c)) =? mask)
  then ggl_state_changed GGL_PIXEL_PIPELINE_STATE (upd_mask (fun m => m <| mk_color := mask |>) c)
  else c.

(** The condition is [(c->state.mask.depth != flag) ? 1 : 0]. *)
Definition ggl_depthMask (flag : Z) (c : context_t) : context_t :=
  if negb (mk_depth (st_mask (c_state c)) =? flag)
  then ggl_state_changed GGL_PIXEL_PIPELINE_STATE
         (upd_mask (fun m => m <| mk_depth := if flag =? 0 then 0 else 1 |>) c)
  else c.

Definition ggl_stencilMask (mask : Z) (c : context_t) : context_t :=
  if negb (mk_stencil (st_mask (c_state c)) =? mask)
  then ggl_state_changed GGL_PIXEL_PIPELINE_STATE (upd_mask (fun m => m <| mk_stencil := mask |>) c)
  else c.

Definition ggl_alphaFuncx (func ref : Z) (c : context_t) : context_t :=
  if (func <? GGL_NEVER) || (GGL_ALWAYS <? func) then ggl_error GGL_INVALID_ENUM c
  else
    let c := upd_state (fun st => st <| st_alpha_test ; at_ref :=
               gglFixedToIteratedColor (gglClampx ref) |>) c in
    if negb (at_func (st_alpha_test (c_state c)) =? func)
    then ggl_state_changed GGL_PIXEL_PIPELINE_STATE
           (upd_state (fun st => st <| st_alpha_test ; at_func := func |>) c)
    else c.

Definition ggl_depthFunc (func : Z) (c : context_t) : context_t :=
  if (func <? GGL_NEVER) || (GGL_ALWAYS <? func) then ggl_error GGL_INVALID_ENUM c
  else if negb (dt_func (st_depth_test (c_state c)) =? func)
  then ggl_state_changed GGL_PIXEL_PIPELINE_STATE
         (upd_state (fun st => st <| st_depth_test ; dt_func := func |>) c)
  else c.

Definition ggl_logicOp (opcode : Z) (c : context_t) : context_t :=
  if (opcode <? GGL_CLEAR) || (GGL_SET <? opcode) then ggl_error GGL_INVALID_ENUM c
  else if negb (st_logic_op (c_state c) =? opcode)
  then ggl_state_changed GGL_PIXEL_PIPELINE_STATE
         (upd_state (fun st => st <| st_logic_op := opcode |>) c)
  else c.

(** ** Initialisation *)

Definition gDitherMatrix : list Z :=
  [  0; 32;  8; 40;  2; 34; 10; 42;
    48; 16; 56; 24; 50; 18; 58; 26;
    12; 44;  4; 36; 14; 46;  6; 38;
    60; 28; 52; 20; 62; 30; 54; 22;
     3; 35; 11; 43;  1; 33;  9; 41;
    51; 19; 59; 27; 49; 17; 57; 25;
    15; 47;  7; 39; 13; 45;  5; 37;
    63; 31; 55; 23; 61; 29; 53; 21 ].

Definition ggl_init_trap : context_t -> context_t :=
  ggl_state_changed (Z.lor (Z.lor GGL_PIXEL_PIPELINE_STATE GGL_TMU_STATE) GGL_CB_STATE).

Definition ggl_init_scanline (c : context_t) : context_t :=
  c <| c_init_y := use_init_y |> <| c_step_y := use_step_y__generic |> <| c_scanline := use_scanline |>.

Definition ggl_init_clear (c : context_t) : context_t :=
  upd_state (fun st => st <| st_clear ::= fun cl =>
    cl <| cl_dirty := Z.lor (Z.lor GGL_STENCIL_BUFFER_BIT GGL_COLOR_BUFFER_BIT) GGL_DEPTH_BUFFER_BIT |>
       <| cl_depth := FIXED_ONE |> |>) c.

Definition ggl_init_context : context_t :=
  let c := zero_context in
  let c := ggl_init_clear c in
  let c := ggl_init_trap c in
  let c := ggl_init_scanline c in
  let c := ggl_init_texture c in
  let c := c <| c_formats := gPixelFormatInfos |> in
  let c := upd_state (fun st => st
    <| st_blend ::= fun b => b <| bl_src := GGL_ONE |> <| bl_dst := GGL_ZERO |>
                               <| bl_src_alpha := GGL_ONE |> <| bl_dst_alpha := GGL_ZERO |> |>
    <| st_mask := mk_mask 0xF 0 0xFFFFFFFF |>
    <| st_logic_op := GGL_COPY |>
    <| st_alpha_test ; at_func := GGL_ALWAYS |>
    <| st_depth_test := mk_depth_test GGL_LESS FIXED_ONE |>) c in
  let c := c <| c_shade ; sh_w0 := FIXED_ONE |> in
  c <| c_ditherMatrix := gDitherMatrix |>.

(** ** Flag words *)

Lemma has_set_same b x : b <> 0 -> has (set_bits b x) b = true.
Proof.
  intros Hb. unfold has, set_bits. rewrite Z.land_lor_distr_l, Z.land_diag.
  apply negb_true_iff, Z.eqb_neq. intros [_ H]%Z.lor_eq_0_iff. done.
Qed.

Lemma has_set_other b b' x : Z.land b b' = 0 -> has (set_bits b x) b' = has x b'.
Proof. intros Hb. unfold has, set_bits. by rewrite Z.land_lor_distr_l, Hb, Z.lor_0_r. Qed.

Lemma has_clear_same b x : is_u32 b -> has (clear_bits b x) b = false.
Proof.
  intros Hb. unfold has, clear_bits. apply negb_false_iff, Z.eqb_eq.
  apply Z.bits_inj'. intros i Hi. rewrite !Z.land_spec, u32_testbit, Z.lnot_spec, Z.bits_0 by done.
  destruct (Z.ltb_spec i 32).
  - by destruct (Z.testbit x i), (Z.testbit b i).
  - rewrite (testbit_small b 32) by done. apply andb_false_r.
Qed.

Lemma has_clear_other b b' x : Z.land b b' = 0 -> is_u32 b' -> has (clear_bits b x) b' = has x b'.
Proof.
  intros Hb Hb'. unfold has, clear_bits. f_equal. f_equal.
  apply Z.bits_inj'. intros i Hi. rewrite !Z.land_spec, u32_testbit, Z.lnot_spec by done.
  destruct (Z.ltb_spec i 32).
  - apply (f_equal (fun z => Z.testbit z i)) in Hb. rewrite Z.land_spec, Z.bits_0 in Hb.
    destruct (Z.testbit x i), (Z.testbit b i), (Z.testbit b' i); done.
  - rewrite (testbit_small b' 32) by done. by rewrite !andb_false_r.
Qed.

(** Setting the bit [bit] to [enable] in a flag word. *)
Lemma has_if_other (e : bool) bit b' x :
  Z.land bit b' = 0 -> is_u32 b' ->
  has ((if e then clear_bits bit else set_bits bit) x) b' = has x b'.
Proof. intros. destruct e; [by apply has_clear_other|by apply has_set_other]. Qed.

Lemma has_if_same (e : bool) bit x :
  bit <> 0 -> is_u32 bit -> has ((if e then clear_bits bit else set_bits bit) x) bit = negb e.
Proof. intros. destruct e; [by apply has_clear_same|by apply has_set_same]. Qed.

(** ** The invariant *)

Definition scissor_of (enabled : bool) (cb : surface_t) (s : scissor_t) : scissor_t :=
  if enabled then
    s <| sc_left := u32 (ggl_max 0 (s32 (sc_user_left s))) |>
      <| sc_right := u32 (ggl_min (s32 (sf_width cb)) (s32 (sc_user_right s))) |>
      <| sc_top := u32 (ggl_max 0 (s32 (sc_user_top s))) |>
      <| sc_bottom := u32 (ggl_min (s32 (sf_height cb)) (s32 (sc_user_bottom s))) |>
  else s <| sc_left := 0 |> <| sc_top := 0 |>
         <| sc_right := sf_width cb |> <| sc_bottom := sf_height cb |>.

(** Texture parameters only ever hold the values the commands accept. *)
Definition texture_ok (t : texture_t) : Prop :=
  In (tx_env t) [GGL_REPLACE; GGL_MODULATE; GGL_DECAL; GGL_BLEND; GGL_ADD] /\
  In (tx_s_wrap t) [GGL_CLAMP; GGL_REPEAT] /\ In (tx_t_wrap t) [GGL_CLAMP; GGL_REPEAT] /\
  In (tx_min_filter t) [GGL_NEAREST; GGL_LINEAR] /\ In (tx_mag_filter t) [GGL_NEAREST; GGL_LINEAR].

(** The enable flags of the units are mirrored in [enabled_tmu], and whether
    any unit is on in the enable word. *)
Definition tmu_ok (st : state_t) : Prop :=
  exists t0 t1, st_texture st = [t0; t1] /\ texture_ok t0 /\ texture_ok t1 /\
    In (tx_enable t0) [0; 1] /\ In (tx_enable t1) [0; 1] /\
    st_enabled_tmu st = tx_enable t0 + 2 * tx_enable t1 /\
    has (st_enables st) GGL_ENABLE_TMUS = negb (st_enabled_tmu st =? 0).

Definition fb_ok (st : state_t) : Prop :=
  (sf_format (fb_depth (st_buffers st)) = 0 \/
   sf_format (fb_depth (st_buffers st)) = GGL_PIXEL_FORMAT_Z_16) /\
  (has (st_enables st) GGL_ENABLE_DEPTH_TEST = true ->
   sf_format (fb_depth (st_buffers st)) = GGL_PIXEL_FORMAT_Z_16) /\
  st_scissor st = scissor_of (has (st_enables st) GGL_ENABLE_SCISSOR_TEST)
                    (fb_color (st_buffers st)) (st_scissor st).

Definition enums_ok (st : state_t) : Prop :=
  GGL_NEVER <= at_func (st_alpha_test st) <= GGL_ALWAYS /\
  GGL_NEVER <= dt_func (st_depth_test st) <= GGL_ALWAYS /\
  GGL_CLEAR <= st_logic_op st <= GGL_SET /\
  0 <= mk_color (st_mask st) < 16 /\ In (mk_depth (st_mask st)) [0; 1].

Definition validate_procs : procs_t :=
  mk_procs use_pointx_validate use_linex_validate use_recti_validate use_trianglex_validate.

Record ctx_ok (c : context_t) : Prop := {
  ok_tmu : tmu_ok (c_state c);
  ok_fb : fb_ok (c_state c);
  ok_enums : enums_ok (c_state c);
  ok_active : c_activeTMU c = c_activeTMUIndex c /\ In (c_activeTMUIndex c) [0; 1];
  ok_procs : c_dirty c <> 0 -> c_procs c = validate_procs;
  ok_error : In (c_error c) [GGL_NO_ERROR; GGL_INVALID_ENUM];
  ok_tables : c_formats c = gPixelFormatInfos /\ c_ditherMatrix c = gDitherMatrix /\
    length (c_gen_tex c) = 2%nat }.
(** ** Commands *)

Inductive command :=
  | C_scissor (x y width height : Z)
  | C_activeTexture (tmu : Z)
  | C_bindTexture (surface : GGLSurface)
  | C_colorBuffer (alloc : Z) (surface : GGLSurface)
  | C_readBuffer (surface : GGLSurface)
  | C_depthBuffer (surface : GGLSurface)
  | C_bindTextureLod (tmu : Z) (surface : GGLSurface)
  | C_enable (name : Z)
  | C_disable (name : Z)
  | C_enableDisable (name en : Z)
  | C_shadeModel (mode : Z)
  | C_color4xv (color : list Z)
  | C_colorGrad12xv (grad : list Z)
  | C_zGrad3xv (grad : list Z)
  | C_wGrad3xv (grad : list Z)
  | C_fogGrad3xv (grad : list Z)
  | C_fogColor3xv (color : list Z)
  | C_blendFunc (src dst : Z)
  | C_blendFuncSeparate (src dst srcAlpha dstAlpha : Z)
  | C_texEnvi (target pname param : Z)
  | C_texEnvxv (target pname : Z) (params : list Z)
  | C_texParameteri (target pname param : Z)
  | C_texCoord2i (s t : Z)
  | C_texCoord2x (s t : Z)
  | C_texCoordGradScale8xv (tmu : Z) (grad : list Z)
  | C_texGeni (coord pname param : Z)
  | C_colorMask (r g b a : Z)
  | C_depthMask (flag : Z)
  | C_stencilMask (mask : Z)
  | C_alphaFuncx (func ref : Z)
  | C_depthFunc (func : Z)
  | C_logicOp (opcode : Z).

Definition exec (cmd : command) (c : context_t) : option context_t :=
  match cmd with
  | C_scissor x y w h => Some (ggl_scissor x y w h c)
  | C_activeTexture tmu => Some (ggl_activeTexture tmu c)
  | C_bindTexture s => Some (ggl_bindTexture s c)
  | C_colorBuffer alloc s => Some (ggl_colorBuffer alloc s c)
  | C_readBuffer s => Some (ggl_readBuffer s c)
  | C_depthBuffer s => Some (ggl_depthBuffer s c)
  | C_bindTextureLod tmu s => ggl_bindTextureLod tmu s c
  | C_enable name => Some (ggl_enable name c)
  | C_disable name => Some (ggl_disable name c)
  | C_enableDisable name en => Some (ggl_enableDisable name en c)
  | C_shadeModel mode => Some (ggl_shadeModel mode c)
  | C_color4xv v => Some (ggl_color4xv v c)
  | C_colorGrad12xv v => Some (ggl_colorGrad12xv v c)
  | C_zGrad3xv v => Some (ggl_zGrad3xv v c)
  | C_wGrad3xv v => Some (ggl_wGrad3xv v c)
  | C_fogGrad3xv v => Some (ggl_fogGrad3xv v c)
  | C_fogColor3xv v => Some (ggl_fogColor3xv v c)
  | C_blendFunc src dst => Some (ggl_blendFunc src dst c)
  | C_blendFuncSeparate src dst srcA dstA => Some (ggl_blendFuncSeparate src dst srcA dstA c)
  | C_texEnvi target pname param => Some (ggl_texEnvi target pname param c)
  | C_texEnvxv target pname params => Some (ggl_texEnvxv target pname params c)
  | C_texParameteri target pname param => Some (ggl_texParameteri target pname param c)
  | C_texCoord2i s t => Some (ggl_texCoord2i s t c)
  | C_texCoord2x s t => Some (ggl_texCoord2x s t c)
  | C_texCoordGradScale8xv tmu v => ggl_texCoordGradScale8xv tmu v c
  | C_texGeni coord pname param => Some (ggl_texGeni coord pname param c)
  | C_colorMask r g b a => Some (ggl_colorMask r g b a c)
  | C_depthMask flag => Some (ggl_depthMask flag c)
  | C_stencilMask mask => Some (ggl_stencilMask mask c)
  | C_alphaFuncx func ref => Some (ggl_alphaFuncx func ref c)
  | C_depthFunc func => Some (ggl_depthFunc func c)
  | C_logicOp op => Some (ggl_logicOp op c)
  end.

(** The commands a client can issue from the initial context.  A texture unit
    number is unsigned. *)
Definition command_ok (cmd : command) : Prop :=
  match cmd with C_activeTexture tmu => 0 <= tmu | C_bindTextureLod tmu _ => 0 <= tmu | _ => True end.

Inductive reachable : context_t -> Prop :=
  | reach_init : reachable ggl_init_context
  | reach_step c cmd c' : reachable c -> command_ok cmd -> exec cmd c = Some c' -> reachable c'.

(** ** Preservation *)

Ltac ctx_simpl := cbn [c_state c_procs c_dirty c_activeTMU c_activeTMUIndex c_error c_formats
  c_ditherMatrix upd] in *.

Lemma state_changed_ok flags c : ctx_ok c -> ctx_ok (ggl_state_changed flags c).
Proof.
  intros [? ? ? ? Hp ? ?]. unfold ggl_state_changed. destruct (Z.eqb_spec (c_dirty c) 0);
    split; cbn; try done. intros _. auto.
Qed.

Lemma state_changed_state flags c : c_state (ggl_state_changed flags c) = c_state c.
Proof. unfold ggl_state_changed. by destruct (c_dirty c =? 0). Qed.

Lemma error_ok c : ctx_ok c -> ctx_ok (ggl_error GGL_INVALID_ENUM c).
Proof.
  intros [? ? ? ? ? ? ?]. unfold ggl_error. destruct (c_error c =? GGL_NO_ERROR); split; cbn; try done.
  by right; left.
Qed.

(** A change of the state alone. *)
Lemma upd_state_ok f c :
  ctx_ok c -> tmu_ok (f (c_state c)) -> fb_ok (f (c_state c)) -> enums_ok (f (c_state c)) ->
  ctx_ok (upd_state f c).
Proof. intros [? ? ? ? ? ? ?] ? ? ?. split; cbn; done. Qed.

Lemma shade_ok f c : ctx_ok c -> ctx_ok (c <| c_shade ::= f |>).
Proof. intros [? ? ? ? ? ? ?]. split; cbn; done. Qed.

(** Every flag except those of the units, the depth test and the scissor. *)
Definition plain_flag (bit : Z) : Prop :=
  Z.land bit GGL_ENABLE_TMUS = 0 /\ Z.land bit GGL_ENABLE_DEPTH_TEST = 0 /\
  Z.land bit GGL_ENABLE_SCISSOR_TEST = 0.

Lemma plain_flag_ok (e : bool) bit c :
  plain_flag bit -> ctx_ok c -> ctx_ok (upd_enables (if e then clear_bits bit else set_bits bit) c).
Proof.
  intros (Ht & Hd & Hs) Hc. pose proof Hc as [(t0 & t1 & HT) (F1 & F2 & F3) HE ? ? ? ?].
  apply upd_state_ok; [done| | |done].
  - exists t0, t1. cbn. by rewrite has_if_other.
  - unfold fb_ok. cbn. rewrite !has_if_other; done.
Qed.

Lemma pipeline_bit_ok bit en c : plain_flag bit -> ctx_ok c -> ctx_ok (enable_pipeline_bit bit en c).
Proof.
  intros Hb Hc. unfold enable_pipeline_bit, set_enable. destruct (toggles c bit en); [|done].
  apply state_changed_ok. by apply plain_flag_ok.
Qed.
Create HintDb ctx.
#[local] Hint Resolve state_changed_ok error_ok shade_ok : ctx.

Lemma set_scissor_ok c :
  tmu_ok (c_state c) -> enums_ok (c_state c) ->
  (sf_format (fb_depth (st_buffers (c_state c))) = 0 \/
   sf_format (fb_depth (st_buffers (c_state c))) = GGL_PIXEL_FORMAT_Z_16) ->
  (has (enables c) GGL_ENABLE_DEPTH_TEST = true ->
   sf_format (fb_depth (st_buffers (c_state c))) = GGL_PIXEL_FORMAT_Z_16) ->
  c_activeTMU c = c_activeTMUIndex c /\ In (c_activeTMUIndex c) [0; 1] ->
  (c_dirty c <> 0 -> c_procs c = validate_procs) -> In (c_error c) [GGL_NO_ERROR; GGL_INVALID_ENUM] ->
  c_formats c = gPixelFormatInfos /\ c_ditherMatrix c = gDitherMatrix /\
    length (c_gen_tex c) = 2%nat ->
  ctx_ok (ggl_set_scissor c).
Proof.
  intros HT HE HF HD HA HP HR HB. split; try done.
  unfold fb_ok, ggl_set_scissor, upd_state, enables in *. cbn.
  split; [done|]. split; [done|]. unfold scissor_of.
  by destruct (has (st_enables (c_state c)) GGL_ENABLE_SCISSOR_TEST).
Qed.

Lemma scissor_test_ok en c : ctx_ok c -> ctx_ok (ggl_enable_scissor_test en c).
Proof.
  intros Hc. unfold ggl_enable_scissor_test, set_enable. destruct (toggles _ _ _); [|done].
  destruct Hc as [(t0 & t1 & HT) (F1 & F2 & F3) HE ? ? ? ?].
  apply set_scissor_ok; try done.
  - exists t0, t1. cbn. by rewrite has_if_other.
  - cbn. by rewrite has_if_other.
Qed.

Lemma depth_test_ok en c : ctx_ok c -> ctx_ok (ggl_enable_depth_test en c).
Proof.
  intros Hc. unfold ggl_enable_depth_test, enable_pipeline_bit, set_enable.
  set (en' := if _ =? 0 then 0 else en). destruct (toggles _ _ _); [|done].
  apply state_changed_ok. pose proof Hc as [(t0 & t1 & HT) (F1 & F2 & F3) HE ? ? ? ?].
  apply upd_state_ok; [done| | |done].
  - exists t0, t1. cbn. by rewrite has_if_other.
  - unfold fb_ok. cbn. rewrite (has_if_other _ _ GGL_ENABLE_SCISSOR_TEST) by done.
    split; [done|]. split; [|done]. subst en'.
    destruct (Z.eqb_spec (sf_format (fb_depth (st_buffers (c_state c)))) 0) as [E|E]; cbn [Z.eqb].
    + rewrite has_clear_same by done. done.
    + intros _. by destruct F1.
Qed.
Lemma upd_texture_ok i f c :
  ctx_ok c -> (forall t, tx_enable (f t) = tx_enable t) ->
  (forall t, texture_ok t -> texture_ok (f t)) -> ctx_ok (upd_texture i f c).
Proof.
  intros Hc He Hf. pose proof Hc as [(t0 & t1 & E & T0 & T1 & HT) HF HE ? ? ? ?].
  apply upd_state_ok; [done| |done|done].
  unfold tmu_ok; cbn. rewrite E. destruct (Z.to_nat i) as [|[|k]]; cbn.
  - exists (f t0), t1. rewrite !He. split; [done|]. split; [auto|]. split; done.
  - exists t0, (f t1). rewrite !He. split; [done|]. split; [done|]. split; [auto|done].
  - exists t0, t1. split; [done|]. split; done.
Qed.

Lemma set_surface_enable c s t : tx_enable (t <| tx_surface ::= ggl_set_surface c s |>) = tx_enable t.
Proof. done. Qed.

(** [ggl_enable_texture2d] on the two flags and their mirror. *)
Lemma texture2d_ok en c : In en [0; 1] -> ctx_ok c -> ctx_ok (ggl_enable_texture2d en c).
Proof.
  intros Hen Hc. unfold ggl_enable_texture2d, set_enable. destruct (negb _); [|done].
  apply state_changed_ok. pose proof Hc as [(t0 & t1 & E & T0 & T1 & E0 & E1 & Em & Et) HF HE [HA HI] ? ? ?].
  unfold upd_activeTMU, upd_texture, upd_enables. split; try done; cbn.
  - unfold tmu_ok; cbn. rewrite E, Em, HA.
    destruct HI as [<-|[<-|[]]]; cbn [Z.to_nat Pos.to_nat Pos.iter_op alter list_alter Nat.add].
    + exists (t0 <| tx_enable := en |>), t1. do 5 (split; [done|]).
      destruct Hen as [<-|[<-|[]]], E0 as [<-|[<-|[]]], E1 as [<-|[<-|[]]];
        (split; [reflexivity|by apply has_if_same]).
    + exists t0, (t1 <| tx_enable := en |>). do 5 (split; [done|]).
      destruct Hen as [<-|[<-|[]]], E0 as [<-|[<-|[]]], E1 as [<-|[<-|[]]];
        (split; [reflexivity|by apply has_if_same]).
  - destruct HF as (F1 & F2 & F3). unfold fb_ok; cbn. by rewrite !has_if_other.
Qed.

Lemma enable_disable_ok name en c : In en [0; 1] -> ctx_ok c -> ctx_ok (enable_disable name en c).
Proof.
  intros Hen Hc. unfold enable_disable.
  repeat match goal with |- ctx_ok (if ?b then _ else _) => destruct b end; try done;
    first [by apply pipeline_bit_ok | by apply scissor_test_ok | by apply depth_test_ok
          | by apply texture2d_ok].
Qed.

(** Commands that only store validated enumerations. *)
Lemma enum_state_ok f c :
  ctx_ok c -> (forall st, st_texture (f st) = st_texture st) ->
  (forall st, st_enables (f st) = st_enables st) ->
  (forall st, st_enabled_tmu (f st) = st_enabled_tmu st) ->
  (forall st, st_buffers (f st) = st_buffers st) -> (forall st, st_scissor (f st) = st_scissor st) ->
  enums_ok (f (c_state c)) -> ctx_ok (upd_state f c).
Proof.
  intros Hc H1 H2 H3 H4 H5 HE. pose proof Hc as [HT HF ? ? ? ? ?].
  apply upd_state_ok; [done|unfold tmu_ok|unfold fb_ok|done]; by rewrite ?H1, ?H2, ?H3, ?H4, ?H5.
Qed.

Lemma depth_clear_ok en c f :
  ctx_ok c -> sf_format (f (fb_depth (st_buffers (c_state c)))) = 0 -> en = 0 ->
  ctx_ok (ggl_enable_depth_test en (upd_buffers (fun b => b <| fb_depth ::= f |>) c)).
Proof.
  intros Hc Hf ->. pose proof Hc as [(t0 & t1 & HT) (F1 & F2 & F3) HE ? ? ? ?].
  unfold ggl_enable_depth_test, enable_pipeline_bit, set_enable.
  set (c' := upd_buffers _ c). assert (sf_format (fb_depth (st_buffers (c_state c'))) = 0) as E by done.
  rewrite E. cbn [Z.eqb]. unfold toggles.
  change (enables c') with (enables c).
  destruct (has (enables c) GGL_ENABLE_DEPTH_TEST) eqn:Hd; cbn [Z.eqb negb].
  - apply state_changed_ok. split; try done.
    + exists t0, t1. cbn. by rewrite has_clear_other.
    + unfold fb_ok. cbn. rewrite has_clear_same, has_clear_other by done. split; [by left|done].
  - split; try done; [by exists t0, t1|]. unfold fb_ok. cbn. unfold enables in Hd. rewrite Hd.
    split; [by left|done].
Qed.

Lemma read_buffer_ok f c : ctx_ok c -> ctx_ok (upd_buffers (fun b => b <| fb_read ::= f |>) c).
Proof. intros Hc. pose proof Hc as [? ? ? ? ? ? ?]. by apply upd_state_ok. Qed.

Lemma color_buffer_ok alloc s c : ctx_ok c -> ctx_ok (ggl_colorBuffer alloc s c).
Proof.
  intros Hc. unfold ggl_colorBuffer.
  set (c1 := if negb _ then _ else c). assert (ctx_ok c1) as H1 by (unfold c1; destruct (negb _); auto with ctx).
  set (c2 := if _ <? _ then _ else c1). assert (ctx_ok c2) as H2.
  { unfold c2. destruct (_ <? _); [|done]. pose proof H1 as [? ? ? ? ? ? ?]. by apply upd_state_ok. }
  clearbody c2. clear c1 H1 Hc.
  set (c3 := upd_buffers (fun b => b <| fb_color ::= _ |>) c2).
  pose proof H2 as [HT (F1 & F2 & F3) HE HA HP HR HB].
  destruct (sf_format (fb_read _) =? 0); by apply set_scissor_ok.
Qed.

Lemma scissor_ok x y w h c : ctx_ok c -> ctx_ok (ggl_scissor x y w h c).
Proof. intros [HT (F1 & F2 & F3) HE HA HP HR HB]. by apply set_scissor_ok. Qed.

Lemma shade_model_ok mode c : ctx_ok c -> ctx_ok (ggl_shadeModel mode c).
Proof.
  intros Hc. unfold ggl_shadeModel. repeat case_match; auto with ctx; apply state_changed_ok.
  - by apply (plain_flag_ok true).
  - by apply (plain_flag_ok false).
Qed.

Lemma bind_texture_ok s c : ctx_ok c -> ctx_ok (ggl_bindTexture s c).
Proof.
  intros Hc. unfold ggl_bindTexture. set (c1 := if negb _ then _ else c).
  assert (ctx_ok c1) as H1 by (unfold c1; destruct (negb _); auto with ctx).
  by apply upd_texture_ok.
Qed.

Lemma depth_buffer_ok s c : ctx_ok c -> ctx_ok (ggl_depthBuffer s c).
Proof.
  intros Hc. unfold ggl_depthBuffer. destruct (Z.eqb_spec (gs_format s) GGL_PIXEL_FORMAT_Z_16) as [E|].
  - pose proof Hc as [? (F1 & F2 & F3) ? ? ? ? ?]. apply upd_state_ok; [done..| |done].
    assert (sf_format (ggl_set_surface c s (fb_depth (st_buffers (c_state c)))) = GGL_PIXEL_FORMAT_Z_16)
      as E' by (unfold ggl_set_surface; cbn; by destruct (gs_stride s <? 0)).
    unfold fb_ok; cbn. rewrite E'. split; [by right|done].
  - by apply (depth_clear_ok 0 c (fun d => d <| sf_format := GGL_PIXEL_FORMAT_NONE |>)).
Qed.

Lemma blend_ok b c : ctx_ok c -> ctx_ok (blend_changed (upd_state (fun st => st <| st_blend := b |>) c)).
Proof.
  intros Hc. unfold blend_changed. pose proof Hc as [? ? ? ? ? ? ?].
  assert (ctx_ok (upd_state (fun st => st <| st_blend := b |>) c)) by by apply upd_state_ok.
  destruct (has _ _); auto with ctx.
Qed.

Lemma is_tex_env_in p : is_tex_env p = true -> In p [GGL_REPLACE; GGL_MODULATE; GGL_DECAL; GGL_BLEND; GGL_ADD].
Proof. unfold is_tex_env. rewrite !orb_true_iff, !Z.eqb_eq. simpl. intuition congruence. Qed.

Lemma tex_env_ok target pname param c : ctx_ok c -> ctx_ok (ggl_texEnvi target pname param c).
Proof.
  intros Hc. unfold ggl_texEnvi. destruct (_ || _); [auto with ctx|].
  destruct (is_tex_env param) eqn:E; [|auto with ctx]. destruct (negb _); [|done].
  apply state_changed_ok, upd_texture_ok; [done|done|].
  intros t (_ & H). split; [by apply is_tex_env_in|exact H].
Qed.

Lemma tex_envx_ok target pname params c : ctx_ok c -> ctx_ok (ggl_texEnvxv target pname params c).
Proof.
  intros Hc. unfold ggl_texEnvxv. repeat case_match; auto with ctx; [by apply tex_env_ok|].
  by apply upd_texture_ok.
Qed.

Lemma tex_parameter_ok pname param p v t :
  tex_parameter pname param = Some (p, v) -> texture_ok t -> texture_ok (set_tex_param p v t).
Proof.
  unfold tex_parameter. intros H (He & Hs & Ht & Hmin & Hmag).
  repeat (match type of H with context [if ?b then _ else _] => destruct b eqn:? end; try done);
    injection H as <- <-; unfold texture_ok; cbn; unfold GGL_NEAREST, GGL_LINEAR, GGL_CLAMP, GGL_REPEAT in *;
    repeat split; try done; try tauto;
    match goal with H : _ || _ = true |- _ => apply orb_true_iff in H; rewrite !Z.eqb_eq in H end;
    intuition congruence.
Qed.

Lemma tex_param_ok target pname param c : ctx_ok c -> ctx_ok (ggl_texParameteri target pname param c).
Proof.
  intros Hc. unfold ggl_texParameteri. destruct (negb _); [auto with ctx|].
  destruct (tex_parameter _ _) as [[p v]|] eqn:E; [|auto with ctx].
  destruct (negb _); [|done]. apply state_changed_ok, upd_texture_ok; [done|by destruct p|].
  intros t. by eapply tex_parameter_ok.
Qed.

Lemma tex_gen_ok coord pname param c : ctx_ok c -> ctx_ok (ggl_texGeni coord pname param c).
Proof.
  intros Hc. unfold ggl_texGeni. repeat case_match; auto with ctx; by apply state_changed_ok, upd_texture_ok.
Qed.

Lemma color_mask_range r g b a : 0 <= color_mask_bits r g b a < 16.
Proof.
  unfold color_mask_bits. destruct (a =? 0), (r =? 0), (g =? 0), (b =? 0); vm_compute; intuition congruence.
Qed.

Ltac solve_enums :=
  unfold enums_ok; cbn;
  repeat match goal with |- _ /\ _ => split end; try assumption; try lia; try tauto.

Lemma enum_commands_ok c :
  ctx_ok c ->
  (forall r g b a, ctx_ok (ggl_colorMask r g b a c)) /\ (forall f, ctx_ok (ggl_depthMask f c)) /\
  (forall m, ctx_ok (ggl_stencilMask m c)) /\ (forall f r, ctx_ok (ggl_alphaFuncx f r c)) /\
  (forall f, ctx_ok (ggl_depthFunc f c)) /\ (forall op, ctx_ok (ggl_logicOp op c)).
Proof.
  intros Hc. pose proof (ok_enums c Hc) as (EA & ED & EL & EM & EZ).
  split_and!; intros.
  - unfold ggl_colorMask. destruct (negb _); [|done]. apply state_changed_ok, enum_state_ok; try done.
    pose proof (color_mask_range r g b a). solve_enums.
  - unfold ggl_depthMask. destruct (negb _); [|done]. apply state_changed_ok, enum_state_ok; try done.
    destruct (f =? 0); solve_enums.
  - unfold ggl_stencilMask. destruct (negb _); [|done]. apply state_changed_ok, enum_state_ok; try done; solve_enums.
  - unfold ggl_alphaFuncx. destruct ((f <? GGL_NEVER) || (GGL_ALWAYS <? f)) eqn:E; [auto with ctx|].
    apply orb_false_iff in E as [E1%Z.ltb_ge E2%Z.ltb_ge].
    set (c1 := upd_state _ c). assert (ctx_ok c1) as H1 by (apply enum_state_ok; try done; solve_enums).
    destruct (negb _); [|done]. apply state_changed_ok, enum_state_ok; try done; solve_enums.
  - unfold ggl_depthFunc. destruct ((f <? GGL_NEVER) || (GGL_ALWAYS <? f)) eqn:E; [auto with ctx|].
    apply orb_false_iff in E as [E1%Z.ltb_ge E2%Z.ltb_ge].
    destruct (negb _); [|done]. apply state_changed_ok, enum_state_ok; try done; solve_enums.
  - unfold ggl_logicOp. destruct ((op <? GGL_CLEAR) || (GGL_SET <? op)) eqn:E; [auto with ctx|].
    apply orb_false_iff in E as [E1%Z.ltb_ge E2%Z.ltb_ge].
    destruct (negb _); [|done]. apply state_changed_ok, enum_state_ok; try done; solve_enums.
Qed.

(** Every command keeps the invariant, errors included. *)
Lemma exec_ok cmd c c' : ctx_ok c -> command_ok cmd -> exec cmd c = Some c' -> ctx_ok c'.
Proof.
  intros Hc Hcmd Hx. destruct (enum_commands_ok c Hc) as (M1 & M2 & M3 & M4 & M5 & M6).
  destruct cmd; cbn [exec] in Hx; try (injection Hx as <-); auto.
  - by apply scissor_ok.
  - simpl in Hcmd. unfold ggl_activeTexture. destruct (Z.leb_spec GGL_TEXTURE_UNIT_COUNT tmu) as [|Hl];
      [auto with ctx|]. unfold GGL_TEXTURE_UNIT_COUNT in Hl.
    destruct Hc as [? ? ? ? ? ? ?]. split; try done. cbn. split; [done|]. lia.
  - by apply bind_texture_ok.
  - by apply color_buffer_ok.
  - by apply read_buffer_ok.
  - by apply depth_buffer_ok.
  - unfold ggl_bindTextureLod in Hx. destruct (_ <? _); [|done]. injection Hx as <-. by apply upd_texture_ok.
  - apply enable_disable_ok; [by right; left|done].
  - apply enable_disable_ok; [by left|done].
  - apply enable_disable_ok; [|done]. destruct (en =? 0); simpl; tauto.
  - by apply shade_model_ok.
  - by apply shade_ok.
  - by apply shade_ok.
  - by apply shade_ok.
  - by apply shade_ok.
  - by apply shade_ok.
  - pose proof Hc as [? ? ? ? ? ? ?]. by apply upd_state_ok.
  - by apply blend_ok.
  - by apply blend_ok.
  - by apply tex_env_ok.
  - by apply tex_envx_ok.
  - by apply tex_param_ok.
  - by apply upd_texture_ok.
  - by apply upd_texture_ok.
  - unfold ggl_texCoordGradScale8xv in Hx. destruct (_ && _); [|done]. injection Hx as <-.
    by apply upd_texture_ok.
  - by apply tex_gen_ok.
Qed.

Lemma init_ok : ctx_ok ggl_init_context.
Proof.
  split; try done; try (split; [done|by left]).
  - exists (init_texture_unit zero_texture), (init_texture_unit zero_texture).
    vm_compute. intuition congruence.
  - vm_compute. intuition congruence.
  - vm_compute. intuition congruence.
  - by left.
Qed.
Lemma reachable_inv c : reachable c -> ctx_ok c.
Proof.
  induction 1 as [|c cmd c' _ IH Hcmd Hx]; [exact init_ok|exact (exec_ok cmd c c' IH Hcmd Hx)].
Qed.

(** C35: In every reachable context the enable flag of each texture unit agrees with
    its bit of [enabled_tmu] and with the global enable bit, [activeTMU] is the
    unit of index [activeTMUIndex], an enabled depth test has a 16-bit depth
    buffer, every stored enumeration is one the commands accept, and while the
    state is dirty all drawing entries are the validating functions. *)
Theorem reachable_ok c :
  reachable c ->
  (forall i, In i [0; 1] ->
     texture_ok (texture c i) /\
     Z.testbit (st_enabled_tmu (c_state c)) i = negb (tx_enable (texture c i) =? 0)) /\
  has (enables c) GGL_ENABLE_TMUS =
    negb (tx_enable (texture c 0) =? 0) || negb (tx_enable (texture c 1) =? 0) /\
  c_activeTMU c = c_activeTMUIndex c /\ In (c_activeTMUIndex c) [0; 1] /\
  (has (enables c) GGL_ENABLE_DEPTH_TEST = true ->
   sf_format (fb_depth (st_buffers (c_state c))) = GGL_PIXEL_FORMAT_Z_16) /\
  enums_ok (c_state c) /\
  (c_dirty c <> 0 -> c_procs c = validate_procs).
Proof.
  intros [(t0 & t1 & E & T0 & T1 & E0 & E1 & Em & Et) (_ & HD & _) HE [HA HI] HP _ _]%reachable_inv.
  unfold texture, enables. rewrite E, Et, Em. split; [|split]; [| |done].
  - intros i [<-|[<-|[]]]; (split; [done|]);
      change (Z.to_nat 0) with 0%nat; change (Z.to_nat 1) with 1%nat; cbn [nth];
      destruct E0 as [<-|[<-|[]]], E1 as [<-|[<-|[]]]; reflexivity.
  - change (Z.to_nat 0) with 0%nat. change (Z.to_nat 1) with 1%nat. cbn [nth]. by destruct E0 as [<-|[<-|[]]], E1 as [<-|[<-|[]]].
Qed.

(** ** The scissor *)

Lemma ggl_min_le a b : ggl_min a b <= a /\ ggl_min a b <= b.
Proof. unfold ggl_min. destruct (Z.ltb_spec a b); lia. Qed.
Lemma ggl_max_ge a b : a <= ggl_max a b /\ b <= ggl_max a b.
Proof. unfold ggl_max. destruct (Z.ltb_spec a b); lia. Qed.

Lemma s32_u32_id z : is_s32 z -> s32 (u32 z) = z.
Proof. intros H. rewrite s32_u32. by apply s32_id. Qed.

Lemma ggl_min_s32 a b : is_s32 a -> is_s32 b -> is_s32 (ggl_min a b).
Proof. unfold ggl_min. by destruct (a <? b). Qed.
Lemma ggl_max_s32 a b : is_s32 a -> is_s32 b -> is_s32 (ggl_max a b).
Proof. unfold ggl_max. by destruct (a <? b). Qed.

Lemma scissor_inside e cb s (x y : Z) :
  0 <= sf_width cb < 2 ^ 31 -> 0 <= sf_height cb < 2 ^ 31 ->
  let s' := scissor_of e cb s in
  s32 (sc_left s') <= x < s32 (sc_right s') -> s32 (sc_top s') <= y < s32 (sc_bottom s') ->
  0 <= x < sf_width cb /\ 0 <= y < sf_height cb /\
  (e = true -> s32 (sc_user_left s) <= x < s32 (sc_user_right s) /\
               s32 (sc_user_top s) <= y < s32 (sc_user_bottom s)).
Proof.
  intros Hw Hh s' Hx Hy. unfold s', scissor_of in Hx, Hy. destruct e; cbn in Hx, Hy.
  - rewrite !s32_u32_id in Hx, Hy
      by (first [apply ggl_max_s32 | apply ggl_min_s32]; try apply s32_range; unfold is_s32; lia).
    rewrite (s32_id (sf_width cb)) in Hx by (unfold is_s32; lia).
    rewrite (s32_id (sf_height cb)) in Hy by (unfold is_s32; lia).
    pose proof (ggl_max_ge 0 (s32 (sc_user_left s))). pose proof (ggl_max_ge 0 (s32 (sc_user_top s))).
    pose proof (ggl_min_le (sf_width cb) (s32 (sc_user_right s))).
    pose proof (ggl_min_le (sf_height cb) (s32 (sc_user_bottom s))). lia.
  - rewrite !s32_id in Hx, Hy by (unfold is_s32; lia). done.
Qed.

(** C38: A pixel inside the effective scissor is inside the color buffer, and
    inside the user's rectangle when the scissor test is on. *)
Theorem scissor_in_color_buffer c (x y : Z) :
  reachable c ->
  let cb := fb_color (st_buffers (c_state c)) in
  let s := st_scissor (c_state c) in
  0 <= sf_width cb < 2 ^ 31 -> 0 <= sf_height cb < 2 ^ 31 ->
  s32 (sc_left s) <= x < s32 (sc_right s) -> s32 (sc_top s) <= y < s32 (sc_bottom s) ->
  0 <= x < sf_width cb /\ 0 <= y < sf_height cb /\
  (has (enables c) GGL_ENABLE_SCISSOR_TEST = true ->
   s32 (sc_user_left s) <= x < s32 (sc_user_right s) /\
   s32 (sc_user_top s) <= y < s32 (sc_user_bottom s)).
Proof.
  intros Hc cb s Hw Hh Hx Hy.
  pose proof (reachable_inv c Hc) as Ho.
  destruct (ok_fb c Ho) as (_ & _ & Es). fold s cb in Es. rewrite Es in Hx, Hy.
  by apply scissor_inside.
Qed.

(** ** Errors *)

Lemma state_changed_error f c : c_error (ggl_state_changed f c) = c_error c.
Proof. unfold ggl_state_changed. by destruct (c_dirty c =? 0). Qed.

(** The command reports [GGL_INVALID_ENUM] and does nothing else. *)
Definition only_error (c c' : context_t) : Prop := c' = ggl_error GGL_INVALID_ENUM c.

Lemma set_scissor_error c : c_error (ggl_set_scissor c) = c_error c.
Proof. done. Qed.

Lemma pipeline_bit_error bit en c : c_error (enable_pipeline_bit bit en c) = c_error c.
Proof. unfold enable_pipeline_bit. destruct (toggles _ _ _); [by rewrite state_changed_error|done]. Qed.

Lemma enable_disable_error name en c : c_error (enable_disable name en c) = c_error c.
Proof.
  unfold enable_disable. repeat match goal with |- c_error (if ?b then _ else _) = _ => destruct b end;
    try done; try apply pipeline_bit_error.
  - unfold ggl_enable_scissor_test. by destruct (toggles _ _ _).
  - unfold ggl_enable_texture2d. destruct (negb _); [by rewrite state_changed_error|done].
Qed.

Lemma blend_changed_error c : c_error (blend_changed c) = c_error c.
Proof. unfold blend_changed. destruct (has _ _); [by rewrite state_changed_error|done]. Qed.

Lemma color_buffer_error alloc s c : c_error (ggl_colorBuffer alloc s c) = c_error c.
Proof.
  unfold ggl_colorBuffer. rewrite set_scissor_error.
  destruct (sf_format (fb_read _) =? 0), (_ <? _), (negb _); try done; by rewrite <-(state_changed_error GGL_CB_STATE c).
Qed.

Ltac error_cases :=
  repeat match goal with
  | |- context [if ?b then _ else _] => destruct b
  | |- context [match ?b with Some _ => _ | None => _ end] => destruct b as [[? ?]|]
  end; rewrite ?state_changed_error; first [by left | by right | (left; reflexivity)].

Lemma exec_error cmd c c' :
  exec cmd c = Some c' -> c_error c' = c_error c \/ only_error c c'.
Proof.
  intros Hx. destruct cmd; cbn [exec] in Hx; try (injection Hx as <-);
    try (left; reflexivity);
    try (left; apply enable_disable_error); 
    try (left; unfold ggl_blendFunc, ggl_blendFuncSeparate; by rewrite blend_changed_error);
    try (left; apply color_buffer_error); unfold only_error.
  - unfold ggl_activeTexture. error_cases.
  - left. unfold ggl_bindTexture. destruct (negb _); [|done].
    by rewrite <-(state_changed_error GGL_TMU_STATE c).
  - left. unfold ggl_depthBuffer. destruct (_ =? _); [done|].
    unfold ggl_enable_depth_test. by rewrite pipeline_bit_error.
  - unfold ggl_bindTextureLod in Hx. destruct (_ <? _); [|done]. injection Hx as <-. by left.
  - unfold ggl_shadeModel. error_cases.
  - unfold ggl_texEnvi. error_cases.
  - unfold ggl_texEnvxv, ggl_texEnvi. error_cases.
  - unfold ggl_texParameteri. error_cases.
  - unfold ggl_texCoordGradScale8xv in Hx. destruct (_ && _); [|done]. injection Hx as <-. by left.
  - unfold ggl_texGeni. error_cases.
  - unfold ggl_colorMask. error_cases.
  - unfold ggl_depthMask. error_cases.
  - unfold ggl_stencilMask. error_cases.
  - unfold ggl_alphaFuncx. error_cases.
  - unfold ggl_depthFunc. error_cases.
  - unfold ggl_logicOp. error_cases.
Qed.

(** The first error is kept: a command either leaves the error code alone or
    reports an invalid enumeration and changes nothing but the error code;
    once an error is recorded no command changes it. *)
Theorem error_latched cmd c c' :
  exec cmd c = Some c' ->
  (c_error c <> GGL_NO_ERROR -> c_error c' = c_error c) /\
  (c_error c' <> c_error c -> c_error c = GGL_NO_ERROR /\ c' = c <| c_error := GGL_INVALID_ENUM |>).
Proof.
  intros [E|E]%exec_error; [by split|]. unfold only_error, ggl_error in E.
  destruct (Z.eqb_spec (c_error c) GGL_NO_ERROR) as [E0|]; subst c'; [|by split].
  by split.
Qed.

(** ** Witnesses *)

Definition example_commands : list command :=
  [C_colorBuffer 0x9000 (mk_GGLSurface 40 16 8 16 0x1000 GGL_PIXEL_FORMAT_RGB_565 0);
   C_scissor 2 (-3) 100 7; C_enable GGL_SCISSOR_TEST; C_activeTexture 1; C_enable GGL_TEXTURE_2D].

Fixpoint exec_all (cmds : list command) (c : context_t) : option context_t :=
  match cmds with
  | [] => Some c
  | cmd :: cmds => c ← exec cmd c; exec_all cmds c
  end.

Lemma exec_all_reachable cmds c c' :
  reachable c -> Forall command_ok cmds -> exec_all cmds c = Some c' -> reachable c'.
Proof.
  revert c. induction cmds as [|cmd cmds IH]; intros c Hc Ho H; simpl in H; [by injection H as <-|].
  inversion Ho; subst. destruct (exec cmd c) as [c1|] eqn:E; [|done].
  apply (IH c1); [by apply (reach_step c cmd)|done|done].
Qed.

Definition example_reached : context_t := Eval vm_compute in
  match exec_all example_commands ggl_init_context with Some c => c | None => ggl_init_context end.

Lemma example_reachable : reachable example_reached.
Proof.
  apply (exec_all_reachable example_commands ggl_init_context); [constructor| |vm_compute; reflexivity].
  repeat constructor; simpl; lia.
Qed.

Lemma reachable_ok_witness :
  Z.testbit (st_enabled_tmu (c_state example_reached)) 1 = true /\
  c_procs example_reached = validate_procs.
Proof.
  destruct (reachable_ok example_reached example_reachable) as (HT & _ & _ & _ & _ & _ & HP).
  split; [exact (proj2 (HT 1 ltac:(right; left; reflexivity)))|apply HP; discriminate].
Defined.

Lemma scissor_in_color_buffer_witness :
  sc_right (st_scissor (c_state example_reached)) = 16 /\ 0 <= 15 < 16 /\ 0 <= 3 < 8.
Proof.
  split; [reflexivity|].
  destruct (scissor_in_color_buffer example_reached 15 3 example_reachable) as (H & H' & _);
    [vm_compute; intuition congruence..|].
  split; [exact H|exact H'].
Defined.

Lemma error_latched_witness :
  c_error (ggl_error GGL_INVALID_ENUM example_reached) = GGL_INVALID_ENUM.
Proof.
  destruct (error_latched (C_logicOp 5) example_reached (ggl_error GGL_INVALID_ENUM example_reached) eq_refl)
    as [_ H].
  destruct H as [_ ->]; [vm_compute; congruence|reflexivity].
Defined.
