(* ===== verification/Picker.v ===== *)
(** * The pipeline picker

    Models libpixelflinger/picker.cpp ([ggl_pick]), [needs_t::match] of
    include/ggl_context.h, the table of shortcuts and [pick_scanline] of
    libpixelflinger/scanline.cpp, and the [xxx_validate] entries of
    libpixelflinger/trap.cpp.  The build is the portable one: no ARM code
    generator. *)

From S2P Require Import Prelude Fixed Names Context PixelFormat Surface PixelFlinger.

(** ** Filters on the needs *)

Record needs_filter_t := mk_filter { nf_value : needs_t; nf_mask : needs_t }.

Definition needs_t_get (n : needs_t) (i : nat) : Z := nth i (needs_tx n) 0.

(** [n.match(filter)]. *)
Definition needs_match (n : needs_t) (filter : needs_filter_t) : bool :=
  let diff value n mask := Z.land (Z.lxor value n) mask in
  let v := nf_value filter in
  let m := nf_mask filter in
  Z.lor (Z.lor (Z.lor (diff (needs_n v) (needs_n n) (needs_n m)) (diff (needs_p v) (needs_p n) (needs_p m)))
           (diff (needs_t_get v 0) (needs_t_get n 0) (needs_t_get m 0)))
        (diff (needs_t_get v 1) (needs_t_get n 1) (needs_t_get m 1)) =? 0.

Record shortcut_t := mk_shortcut {
  sc_filter : needs_filter_t; sc_scanline : scanline_proc; sc_init_y : init_y_proc }.

Definition shortcut (n p t0 t1 nm pm tm0 tm1 : Z) (s : scanline_proc) (i : init_y_proc) : shortcut_t :=
  mk_shortcut (mk_filter (mk_needs n p [t0; t1]) (mk_needs nm pm [tm0; tm1])) s i.

Definition all_ones : Z := 0xFFFFFFFF.

Definition shortcuts : list shortcut_t :=
  [ shortcut 0x03515104 0x00000077 0x00000A01 0 all_ones all_ones all_ones 0x3F
      use_scanline_t32cb16blend use_init_y_noop;
    shortcut 0x03010104 0x00000077 0x00000A01 0 all_ones all_ones all_ones 0x3F
      use_scanline_t32cb16 use_init_y_noop;
    shortcut 0x03515104 0x00000177 0x00000A01 0 all_ones all_ones all_ones 0x3F
      use_scanline_t32cb16blend_dither use_init_y_noop;
    shortcut 0x03010104 0x00000177 0x00000A01 0 all_ones all_ones all_ones 0x3F
      use_scanline_t32cb16_dither use_init_y_noop;
    shortcut 0x03545404 0x00000077 0x00000A01 0 all_ones 0xFFFFFEFF all_ones 0x3F
      use_scanline_t32cb16blend_srca use_init_y_noop;
    shortcut 0x03515104 0x00000077 0x00000001 0 all_ones all_ones all_ones 0x3F
      use_scanline_t32cb16blend_clamp use_init_y;
    shortcut 0x03515104 0x00000177 0x00000001 0 all_ones all_ones all_ones 0x3F
      use_scanline_t32cb16blend_clamp_dither use_init_y;
    shortcut 0x03515104 0x00000077 0x00001001 0 all_ones all_ones all_ones 0x3F
      use_scanline_t32cb16blend_clamp_mod use_init_y;
    shortcut 0x03515104 0x00000077 0x00001002 0 all_ones all_ones all_ones 0x3F
      use_scanline_x32cb16blend_clamp_mod use_init_y;
    shortcut 0x03515104 0x00000177 0x00001001 0 all_ones all_ones all_ones 0x3F
      use_scanline_t32cb16blend_clamp_mod_dither use_init_y;
    shortcut 0x03515104 0x00000177 0x00001002 0 all_ones all_ones all_ones 0x3F
      use_scanline_x32cb16blend_clamp_mod_dither use_init_y;
    shortcut 0x03010104 0x00000077 0x00000001 0 all_ones all_ones all_ones 0x3F
      use_scanline_t32cb16_clamp use_init_y;
    shortcut 0x03010104 0x00000077 0x00000002 0 all_ones all_ones all_ones 0x3F
      use_scanline_t32cb16_clamp use_init_y;
    shortcut 0x03010104 0x00000177 0x00000001 0 all_ones all_ones all_ones 0x3F
      use_scanline_t32cb16_clamp_dither use_init_y;
    shortcut 0x03010104 0x00000177 0x00000002 0 all_ones all_ones all_ones 0x3F
      use_scanline_t32cb16_clamp_dither use_init_y;
    shortcut 0x03010104 0x00000077 0x00000004 0 all_ones all_ones all_ones 0x3F
      use_scanline_t16cb16_clamp use_init_y;
    shortcut 0x03515104 0x00000077 0x00001004 0 all_ones all_ones all_ones 0x3F
      use_scanline_t16cb16blend_clamp_mod use_init_y;
    shortcut 0x03515104 0x00000077 0 0 all_ones all_ones all_ones all_ones
      use_scanline_col32cb16blend use_init_y_packed;
    shortcut 0 0 0 0 0 0x00000007 0 0 use_scanline_noop use_init_y_noop;
    shortcut 0 0 0 0 0 0x00000070 0 0 use_scanline_noop use_init_y_noop;
    shortcut 0x05000000 0 0 0 0x0F000000 0x00000080 0 0 use_scanline_noop use_init_y_noop;
    shortcut 0xF0000000 0 0 0 0xF0000000 0x00000080 0 0 use_scanline_noop use_init_y_noop;
    shortcut 0x0F000000 0x00000077 0 0 0xFF000000 0x000000F7 0 0 use_scanline_set use_init_y_noop;
    shortcut 0x00000000 0x00000077 0 0 0xFF000000 0x000000F7 0 0 use_scanline_clear use_init_y_noop;
    shortcut 0x03000000 0x00000077 0 0 0xFFFFFF00 0x000000F7 0 0 use_scanline_clear use_init_y_noop;
    shortcut 0 0 0 0 0x0000003F 0 0 0 use_scanline_noop use_init_y_error ].

Definition noblend1to1 : needs_filter_t :=
  mk_filter (mk_needs 0x03010100 0x00000077 [0x00000A00; 0])
            (mk_needs 0xFFFFFFC0 0xFFFFFEFF [0xFFFFFFC0; 0x3F]).
Definition fill16noblend : needs_filter_t :=
  mk_filter (mk_needs 0x03010100 0x00000077 [0; 0])
            (mk_needs 0xFFFFFFC0 0xFFFFFFFF [0x3F; 0x3F]).

(** ** [pick_scanline] *)

Definition has_rgb (components : Z) : bool :=
  (components =? GGL_RGB) || (components =? GGL_RGBA) || (components =? GGL_LUMINANCE)
  || (components =? GGL_LUMINANCE_ALPHA).

Definition find_shortcut (n : needs_t) : option shortcut_t :=
  List.find (fun s => needs_match n (sc_filter s)) shortcuts.

(** The [for] loop over the shortcuts and the generic fallback after it. *)
Definition pick_shortcut (c : context_t) : context_t :=
  match find_shortcut (st_needs (c_state c)) with
  | Some s => c <| c_scanline := sc_scanline s |> <| c_init_y := sc_init_y s |>
  | None => c <| c_init_y := use_init_y |> <| c_step_y := use_step_y__generic |>
              <| c_scanline := use_scanline |>
  end.

Definition pick_scanline (c : context_t) : context_t :=
  let n := st_needs (c_state c) in
  let cb_format := GGL_READ_NEEDS NEEDS_CB_FORMAT (needs_n n) in
  let t_format := GGL_READ_NEEDS NEEDS_T_FORMAT (needs_t_get n 0) in
  if (t_format =? cb_format) && needs_match n noblend1to1
     && has_rgb (f_components (format_of c t_format)) then
    c <| c_scanline := use_scanline_memcpy |> <| c_init_y := use_init_y_noop |>
  else if needs_match n fill16noblend then
    let c := c <| c_init_y := use_init_y_packed |> in
    let size := f_size (format_of c cb_format) in
    if size =? 1 then c <| c_scanline := use_scanline_memset8 |>
    else if size =? 2 then c <| c_scanline := use_scanline_memset16 |>
    else if size =? 4 then c <| c_scanline := use_scanline_memset32 |>
    else pick_shortcut c
  else pick_shortcut c.

Definition ggl_pick_scanline (c : context_t) : context_t :=
  let c := pick_scanline c in
  if has (enables c) GGL_ENABLE_W && has (enables c) GGL_ENABLE_TMUS then
    let c := c <| c_span := c_scanline c |> <| c_scanline := use_scanline_perspective |> in
    let tmus := st_enabled_tmu (c_state c) in
    if Z.land tmus (u32 (tmus - 1)) =? 0
    then c <| c_scanline := use_scanline_perspective_single |> else c
  else c.

(** ** [ggl_pick] *)

(** Without destination alpha, the destination-alpha factors become 1. *)
Definition no_dst_alpha (factor : Z) : Z :=
  if (factor =? GGL_ONE_MINUS_DST_ALPHA) || (factor =? GGL_DST_ALPHA) then GGL_ONE else factor.

Definition needs_blend (c : context_t) : Z :=
  if has (enables c) GGL_ENABLE_BLENDING then
    let b := st_blend (c_state c) in
    let cbf := format_of c (sf_format (fb_color (st_buffers (c_state c)))) in
    let fix_alpha f := if f_h cbf ALPHA =? 0 then no_dst_alpha f else f in
    let src := ggl_blendfactor_to_needs (fix_alpha (bl_src b)) in
    let dst := ggl_blendfactor_to_needs (fix_alpha (bl_dst b)) in
    let src_alpha := ggl_blendfactor_to_needs (fix_alpha (bl_src_alpha b)) in
    let dst_alpha := ggl_blendfactor_to_needs (fix_alpha (bl_dst_alpha b)) in
    let n := Z.lor (GGL_BUILD_NEEDS src NEEDS_BLEND_SRC) (GGL_BUILD_NEEDS dst NEEDS_BLEND_DST) in
    if negb (bl_alpha_separate b =? 0) then
      Z.lor (Z.lor n (GGL_BUILD_NEEDS src_alpha NEEDS_BLEND_SRCA))
        (GGL_BUILD_NEEDS dst_alpha NEEDS_BLEND_DSTA)
    else
      Z.lor (Z.lor n (GGL_BUILD_NEEDS src NEEDS_BLEND_SRCA)) (GGL_BUILD_NEEDS dst NEEDS_BLEND_DSTA)
  else
    Z.lor (Z.lor (Z.lor (GGL_BUILD_NEEDS GGL_ONE NEEDS_BLEND_SRC)
      (GGL_BUILD_NEEDS GGL_ZERO NEEDS_BLEND_DST)) (GGL_BUILD_NEEDS GGL_ONE NEEDS_BLEND_SRCA))
      (GGL_BUILD_NEEDS GGL_ZERO NEEDS_BLEND_DSTA).

Definition flag01 (b : bool) : Z := if b then 1 else 0.

(** [n] and [p] of the pixel-pipeline part. *)
Definition needs_pipeline_n (c : context_t) : Z :=
  let e := enables c in
  let n := GGL_BUILD_NEEDS (sf_format (fb_color (st_buffers (c_state c)))) NEEDS_CB_FORMAT in
  let n := Z.lor n (needs_blend c) in
  let n := Z.lor n (GGL_BUILD_NEEDS (Z.lxor (mk_color (st_mask (c_state c))) 0xF) NEEDS_MASK_ARGB) in
  let n := Z.lor n (GGL_BUILD_NEEDS (flag01 (has e GGL_ENABLE_SMOOTH)) NEEDS_SHADE) in
  let n := if has e GGL_ENABLE_TMUS
           then Z.lor n (GGL_BUILD_NEEDS (flag01 (has e GGL_ENABLE_W)) NEEDS_W) else n in
  if has e GGL_ENABLE_LOGIC_OP then Z.lor n (GGL_BUILD_NEEDS (st_logic_op (c_state c)) NEEDS_LOGIC_OP)
  else Z.lor n (GGL_BUILD_NEEDS GGL_COPY NEEDS_LOGIC_OP).

Definition needs_pipeline_p (c : context_t) : Z :=
  let e := enables c in
  let p := GGL_BUILD_NEEDS (flag01 (has e GGL_ENABLE_DITHER)) NEEDS_P_DITHER in
  let p := Z.lor p (GGL_BUILD_NEEDS (flag01 (has e GGL_ENABLE_AA)) NEEDS_P_AA) in
  let p := Z.lor p (GGL_BUILD_NEEDS (flag01 (has e GGL_ENABLE_FOG)) NEEDS_P_FOG) in
  let p := if has e GGL_ENABLE_ALPHA_TEST
           then Z.lor p (GGL_BUILD_NEEDS (at_func (st_alpha_test (c_state c))) NEEDS_P_ALPHA_TEST)
           else Z.lor p (GGL_BUILD_NEEDS GGL_ALWAYS NEEDS_P_ALPHA_TEST) in
  if has e GGL_ENABLE_DEPTH_TEST then
    Z.lor (Z.lor p (GGL_BUILD_NEEDS (dt_func (st_depth_test (c_state c))) NEEDS_P_DEPTH_TEST))
      (GGL_BUILD_NEEDS (Z.land (mk_depth (st_mask (c_state c))) 1) NEEDS_P_MASK_Z)
  else Z.lor p (GGL_BUILD_NEEDS GGL_ALWAYS NEEDS_P_DEPTH_TEST).

(** The needs of one enabled texture unit. *)
Definition needs_texture (tx : texture_t) : Z :=
  let t := Z.lor (Z.lor (GGL_BUILD_NEEDS (sf_format (tx_surface tx)) NEEDS_T_FORMAT)
                        (GGL_BUILD_NEEDS (ggl_env_to_needs (tx_env tx)) NEEDS_T_ENV))
                 (GGL_BUILD_NEEDS 0 NEEDS_T_POT) in
  let t :=
    if (tx_s_coord tx =? GGL_ONE_TO_ONE) && (tx_t_coord tx =? GGL_ONE_TO_ONE) then
      Z.lor (Z.lor t (GGL_BUILD_NEEDS GGL_NEEDS_WRAP_11 NEEDS_T_S_WRAP))
        (GGL_BUILD_NEEDS GGL_NEEDS_WRAP_11 NEEDS_T_T_WRAP)
    else
      Z.lor (Z.lor t (GGL_BUILD_NEEDS (ggl_wrap_to_needs (tx_s_wrap tx)) NEEDS_T_S_WRAP))
        (GGL_BUILD_NEEDS (ggl_wrap_to_needs (tx_t_wrap tx)) NEEDS_T_T_WRAP) in
  let t := if tx_mag_filter tx =? GGL_LINEAR then Z.lor t (GGL_BUILD_NEEDS 1 NEEDS_T_LINEAR) else t in
  if tx_min_filter tx =? GGL_LINEAR then Z.lor t (GGL_BUILD_NEEDS 1 NEEDS_T_LINEAR) else t.

(** One round of the loop over the units: [idx] and [new_needs.t]. *)
Definition needs_texture_step (c : context_t) (st : nat * list Z) (i : Z) : nat * list Z :=
  let '(idx, t) := st in
  let tx := texture c i in
  if negb (tx_enable tx =? 0) then (S idx, <[idx := needs_texture tx]> t)
  else (idx, <[Z.to_nat i := 0]> t).

Definition needs_textures (c : context_t) (t : list Z) : list Z :=
  snd (fold_left (needs_texture_step c) [0; 1] (0%nat, t)).

Definition new_needs (c : context_t) : needs_t * Z :=
  let n := st_needs (c_state c) in
  let dirty := c_dirty c in
  let '(n, dirty) :=
    if has dirty GGL_CB_STATE then
      (n <| needs_n := Z.lor (clear_bits (NEEDS_MASK NEEDS_CB_FORMAT) (needs_n n))
             (GGL_BUILD_NEEDS (sf_format (fb_color (st_buffers (c_state c)))) NEEDS_CB_FORMAT) |>,
       if has (enables c) GGL_ENABLE_BLENDING then set_bits GGL_PIXEL_PIPELINE_STATE dirty else dirty)
    else (n, dirty) in
  let n := if has dirty GGL_PIXEL_PIPELINE_STATE
           then n <| needs_n := needs_pipeline_n c |> <| needs_p := needs_pipeline_p c |> else n in
  let n := if has dirty GGL_TMU_STATE then n <| needs_tx ::= needs_textures c |> else n in
  (n, dirty).

Definition ggl_pick (c : context_t) : context_t :=
  if c_dirty c =? 0 then c
  else
    let '(n, _) := new_needs c in
    let c := if negb (bool_decide (n = st_needs (c_state c))) then
               ggl_pick_scanline (ggl_pick_cb (ggl_pick_texture
                 (upd_state (fun st => st <| st_needs := n |>) c)))
             else c in
    c <| c_dirty := 0 |>.

(** ** The validating entries

    Each picks the pipeline, then stores the drawing function it selects. *)

Definition needs_aa (c : context_t) : bool :=
  has (needs_p (st_needs (c_state c))) (NEEDS_MASK NEEDS_P_AA).

Definition pointx_validate (c : context_t) : context_t :=
  let c := ggl_pick c in
  c <| c_procs ; pr_pointx :=
    if needs_aa c then
      if has (enables c) GGL_ENABLE_POINT_AA_NICE then use_aa_nice_pointx else use_aa_pointx
    else use_pointx |>.

Definition linex_validate (c : context_t) : context_t :=
  let c := ggl_pick c in
  c <| c_procs ; pr_linex := if needs_aa c then use_aa_linex else use_linex |>.

Definition recti_validate (c : context_t) : context_t :=
  let c := ggl_pick c in c <| c_procs ; pr_recti := use_recti |>.

Definition trianglex_validate (c : context_t) : context_t :=
  let c := ggl_pick c in
  c <| c_procs ; pr_trianglex := if needs_aa c then use_aa_trianglex else use_trianglex_big |>.

(** ** Building and reading the fields *)

Definition field_in_word (f : needs_field) : Prop :=
  0 <= nf_shift f /\ 0 <= nf_bits f /\ nf_shift f + nf_bits f <= 32.

Definition build_field (val : Z) (f : needs_field) : Z * Z * Z :=
  (nf_shift f, nf_bits f, val mod 2 ^ nf_bits f).

Lemma needs_mask_value f : field_in_word f -> NEEDS_MASK f = Z.ones (nf_bits f) * 2 ^ nf_shift f.
Proof.
  intros (Hs & Hb & H32). unfold NEEDS_MASK.
  change (Z.shiftl 1 (nf_bits f) - 1) with (Z.ones (nf_bits f)).
  rewrite shiftl_mul by done. apply u32_id. unfold is_u32. rewrite Z.ones_equiv.
  assert (2 ^ nf_bits f * 2 ^ nf_shift f <= 2 ^ 32)
    by (rewrite <-Z.pow_add_r by lia; apply Z.pow_le_mono_r; lia). 
  assert (0 < 2 ^ nf_bits f) by lia. assert (0 < 2 ^ nf_shift f) by lia. nia.
Qed.

Lemma mask_testbit f i :
  field_in_word f -> 0 <= i ->
  Z.testbit (NEEDS_MASK f) i = (nf_shift f <=? i) && (i <? nf_shift f + nf_bits f).
Proof.
  intros Hf Hi. rewrite needs_mask_value by done. destruct Hf as (Hs & Hb & H32).
  destruct (Z.leb_spec (nf_shift f) i); cbn [andb].
  - rewrite Z.mul_pow2_bits, ones_testbit by lia.
    destruct (Z.ltb_spec (i - nf_shift f) (nf_bits f)), (Z.ltb_spec i (nf_shift f + nf_bits f)); lia.
  - by rewrite Z.mul_pow2_bits_low.
Qed.

Lemma build_needs_field val f :
  field_in_word f -> GGL_BUILD_NEEDS val f = field_val (build_field val f).
Proof.
  intros Hf. pose proof Hf as (Hs & Hb & H32). unfold GGL_BUILD_NEEDS, build_field, field_val.
  apply Z.bits_inj'. intros i Hi.
  rewrite Z.land_spec, mask_testbit, u32_testbit, Z.shiftl_spec by done.
  rewrite (field_testbit _ (nf_bits f)) by (try done; apply Z.mod_pos_bound; lia).
  destruct (Z.leb_spec (nf_shift f) i), (Z.ltb_spec i (nf_shift f + nf_bits f)); cbn [andb];
    rewrite ?andb_false_r; try done.
  rewrite andb_true_r, (proj2 (Z.ltb_lt i 32)) by lia. cbn [andb]. by rewrite Z.mod_pow2_bits_low by lia.
Qed.

Lemma read_needs_field f n :
  field_in_word f -> is_u32 n -> GGL_READ_NEEDS f n = n / 2 ^ nf_shift f mod 2 ^ nf_bits f.
Proof.
  intros Hf Hn. pose proof Hf as (Hs & Hb & H32). unfold GGL_READ_NEEDS.
  apply Z.bits_inj'. intros i Hi. rewrite <-Z.shiftr_div_pow2 by done.
  rewrite Z.shiftr_spec, u32_testbit, Z.land_spec, mask_testbit by (done || lia).
  rewrite (proj2 (Z.leb_le (nf_shift f) (i + nf_shift f))) by lia. cbn [andb].
  destruct (Z.ltb_spec i (nf_bits f)).
  - rewrite Z.mod_pow2_bits_low, Z.shiftr_spec by lia.
    by rewrite (proj2 (Z.ltb_lt (i + nf_shift f) 32)), (proj2 (Z.ltb_lt (i + nf_shift f) (nf_shift f + nf_bits f))), andb_true_r by lia.
  - rewrite Z.mod_pow2_bits_high by lia.
    rewrite (proj2 (Z.ltb_ge (i + nf_shift f) (nf_shift f + nf_bits f))) by lia.
    by rewrite !andb_false_r.
Qed.

(** Reading a field of a word built from disjoint fields. *)
Lemma read_packed f val fs :
  field_in_word f -> Forall field_ok fs -> Forall (fun '(l, w, _) => l + w <= 32) fs ->
  ForallOrdPairs field_disjoint fs -> In (build_field val f) fs ->
  GGL_READ_NEEDS f (pack_fields fs 0) = val mod 2 ^ nf_bits f.
Proof.
  intros Hf Hok H32 HD Hin. rewrite read_needs_field; [|done|by apply pack_fields_range].
  unfold build_field in Hin. by apply pack_fields_extract.
Qed.

(** *** The words of the pixel pipeline as lists of fields *)

Definition effective_factor (c : context_t) (f : Z) : Z :=
  if f_h (format_of c (sf_format (fb_color (st_buffers (c_state c))))) ALPHA =? 0
  then no_dst_alpha f else f.

(** Source and destination factors, color then alpha, that blending uses. *)
Definition blend_factors (c : context_t) : Z * Z * Z * Z :=
  let b := st_blend (c_state c) in
  let e := effective_factor c in
  if has (enables c) GGL_ENABLE_BLENDING then
    if bl_alpha_separate b =? 0 then (e (bl_src b), e (bl_dst b), e (bl_src b), e (bl_dst b))
    else (e (bl_src b), e (bl_dst b), e (bl_src_alpha b), e (bl_dst_alpha b))
  else (GGL_ONE, GGL_ZERO, GGL_ONE, GGL_ZERO).

Definition pipeline_n_fields (c : context_t) : list (Z * Z * Z) :=
  let e := enables c in
  let '(src, dst, srca, dsta) := blend_factors c in
  [ build_field (sf_format (fb_color (st_buffers (c_state c)))) NEEDS_CB_FORMAT;
    build_field (ggl_blendfactor_to_needs src) NEEDS_BLEND_SRC;
    build_field (ggl_blendfactor_to_needs dst) NEEDS_BLEND_DST;
    build_field (ggl_blendfactor_to_needs srca) NEEDS_BLEND_SRCA;
    build_field (ggl_blendfactor_to_needs dsta) NEEDS_BLEND_DSTA;
    build_field (Z.lxor (mk_color (st_mask (c_state c))) 0xF) NEEDS_MASK_ARGB;
    build_field (flag01 (has e GGL_ENABLE_SMOOTH)) NEEDS_SHADE;
    build_field (if has e GGL_ENABLE_TMUS then flag01 (has e GGL_ENABLE_W) else 0) NEEDS_W;
    build_field (if has e GGL_ENABLE_LOGIC_OP then st_logic_op (c_state c) else GGL_COPY)
      NEEDS_LOGIC_OP ].

Definition pipeline_p_fields (c : context_t) : list (Z * Z * Z) :=
  let e := enables c in
  let depth := has e GGL_ENABLE_DEPTH_TEST in
  [ build_field (flag01 (has e GGL_ENABLE_DITHER)) NEEDS_P_DITHER;
    build_field (flag01 (has e GGL_ENABLE_AA)) NEEDS_P_AA;
    build_field (flag01 (has e GGL_ENABLE_FOG)) NEEDS_P_FOG;
    build_field (if has e GGL_ENABLE_ALPHA_TEST then at_func (st_alpha_test (c_state c)) else GGL_ALWAYS)
      NEEDS_P_ALPHA_TEST;
    build_field (if depth then dt_func (st_depth_test (c_state c)) else GGL_ALWAYS) NEEDS_P_DEPTH_TEST;
    build_field (if depth then Z.land (mk_depth (st_mask (c_state c))) 1 else 0) NEEDS_P_MASK_Z ].

Ltac in_word := unfold field_in_word; vm_compute; intuition congruence.

Lemma needs_pipeline_n_pack c : needs_pipeline_n c = pack_fields (pipeline_n_fields c) 0.
Proof.
  unfold needs_pipeline_n, needs_blend, pipeline_n_fields, blend_factors, effective_factor.
  rewrite !build_needs_field by in_word.
  destruct (has (enables c) GGL_ENABLE_BLENDING), (bl_alpha_separate (st_blend (c_state c)) =? 0),
    (has (enables c) GGL_ENABLE_TMUS), (has (enables c) GGL_ENABLE_LOGIC_OP);
    cbn [negb pack_fields fold_left]; rewrite !Z.lor_0_l, ?Z.lor_assoc; try done;
    change (field_val (build_field 0 NEEDS_W)) with 0;
    change (ggl_blendfactor_to_needs GGL_ONE) with GGL_ONE;
    change (ggl_blendfactor_to_needs GGL_ZERO) with GGL_ZERO;
    by rewrite (Z.lor_0_r (Z.lor _ (field_val (build_field _ NEEDS_SHADE)))).
Qed.

Lemma needs_pipeline_p_pack c : needs_pipeline_p c = pack_fields (pipeline_p_fields c) 0.
Proof.
  unfold needs_pipeline_p, pipeline_p_fields. rewrite !build_needs_field by in_word.
  destruct (has (enables c) GGL_ENABLE_ALPHA_TEST), (has (enables c) GGL_ENABLE_DEPTH_TEST);
    cbn [negb pack_fields fold_left]; rewrite !Z.lor_0_l, ?Z.lor_assoc; try done;
    change (field_val (build_field 0 NEEDS_P_MASK_Z)) with 0; by rewrite Z.lor_0_r.
Qed.

Lemma build_field_ok val f : field_in_word f -> field_ok (build_field val f).
Proof. intros (? & ? & ?). simpl. split; [lia|]. split; [lia|]. apply Z.mod_pos_bound. lia. Qed.

Ltac ord_pairs tac :=
  repeat first [apply FOP_nil | apply FOP_cons | apply List.Forall_nil | apply List.Forall_cons]; tac.

Lemma pipeline_n_fields_ok c :
  Forall field_ok (pipeline_n_fields c) /\
  Forall (fun '(l, w, _) => l + w <= 32) (pipeline_n_fields c) /\
  ForallOrdPairs field_disjoint (pipeline_n_fields c).
Proof.
  unfold pipeline_n_fields. destruct (blend_factors c) as [[[src dst] srca] dsta].
  split; [|split]; ord_pairs ltac:(first [apply build_field_ok; in_word | simpl; lia]).
Qed.

Lemma pipeline_p_fields_ok c :
  Forall field_ok (pipeline_p_fields c) /\
  Forall (fun '(l, w, _) => l + w <= 32) (pipeline_p_fields c) /\
  ForallOrdPairs field_disjoint (pipeline_p_fields c).
Proof.
  split; [|split]; ord_pairs ltac:(first [apply build_field_ok; in_word | simpl; lia]).
Qed.
Definition blend_factor_ok (b : Z) : Prop := In b (GGL_ZERO :: GGL_ONE :: map (Z.add 0x300) (zrange 9)).

Lemma blend_factor_code b :
  blend_factor_ok b ->
  ggl_needs_to_blendfactor (ggl_blendfactor_to_needs b mod 2 ^ 4) = b.
Proof.
  intros H. unfold blend_factor_ok in H.
  repeat (destruct H as [<-|H]; [reflexivity|]). destruct H.
Qed.

Lemma effective_factor_ok c b : blend_factor_ok b -> blend_factor_ok (effective_factor c b).
Proof.
  intros H. unfold effective_factor, no_dst_alpha. repeat case_match; try done. by right; left.
Qed.

Lemma blend_factors_code c :
  let b := st_blend (c_state c) in
  blend_factor_ok (bl_src b) -> blend_factor_ok (bl_dst b) ->
  blend_factor_ok (bl_src_alpha b) -> blend_factor_ok (bl_dst_alpha b) ->
  let '(src, dst, srca, dsta) := blend_factors c in
  blend_factor_ok src /\ blend_factor_ok dst /\ blend_factor_ok srca /\ blend_factor_ok dsta.
Proof.
  intros b H1 H2 H3 H4. unfold blend_factors. repeat case_match; simplify_eq;
    split_and!; try (by apply effective_factor_ok); unfold blend_factor_ok; simpl; tauto.
Qed.

Lemma flag01_mod b : flag01 b mod 2 ^ 1 = flag01 b.
Proof. by destruct b. Qed.

Lemma read_n c f v :
  field_in_word f -> In (build_field v f) (pipeline_n_fields c) ->
  GGL_READ_NEEDS f (needs_pipeline_n c) = v mod 2 ^ nf_bits f.
Proof.
  intros Hf Hin. destruct (pipeline_n_fields_ok c) as (Nok & N32 & ND).
  rewrite needs_pipeline_n_pack. by apply read_packed.
Qed.

Lemma read_p c f v :
  field_in_word f -> In (build_field v f) (pipeline_p_fields c) ->
  GGL_READ_NEEDS f (needs_pipeline_p c) = v mod 2 ^ nf_bits f.
Proof.
  intros Hf Hin. destruct (pipeline_p_fields_ok c) as (Nok & N32 & ND).
  rewrite needs_pipeline_p_pack. by apply read_packed.
Qed.

Lemma lxor_15 m : 0 <= m < 16 -> Z.lxor m 0xF mod 2 ^ 4 = Z.lxor m 0xF.
Proof. intros H. split_range H; reflexivity. Qed.

(** The needs computed by [ggl_pick] encode the pipeline state without loss:
    every field, decoded, is the state it was built from. *)
Theorem needs_pipeline_decode c :
  enums_ok (c_state c) -> 0 <= sf_format (fb_color (st_buffers (c_state c))) < 64 ->
  let b := st_blend (c_state c) in
  blend_factor_ok (bl_src b) -> blend_factor_ok (bl_dst b) ->
  blend_factor_ok (bl_src_alpha b) -> blend_factor_ok (bl_dst_alpha b) ->
  let n := needs_pipeline_n c in
  let p := needs_pipeline_p c in
  let factor f := ggl_needs_to_blendfactor (GGL_READ_NEEDS f n) in
  let on := has (enables c) in
  GGL_READ_NEEDS NEEDS_CB_FORMAT n = sf_format (fb_color (st_buffers (c_state c))) /\
  (factor NEEDS_BLEND_SRC, factor NEEDS_BLEND_DST, factor NEEDS_BLEND_SRCA, factor NEEDS_BLEND_DSTA) =
    blend_factors c /\
  GGL_READ_NEEDS NEEDS_MASK_ARGB n = Z.lxor (mk_color (st_mask (c_state c))) 0xF /\
  GGL_READ_NEEDS NEEDS_SHADE n = flag01 (on GGL_ENABLE_SMOOTH) /\
  GGL_READ_NEEDS NEEDS_W n = flag01 (on GGL_ENABLE_TMUS && on GGL_ENABLE_W) /\
  GGL_CLEAR + GGL_READ_NEEDS NEEDS_LOGIC_OP n =
    (if on GGL_ENABLE_LOGIC_OP then st_logic_op (c_state c) else GGL_COPY) /\
  GGL_READ_NEEDS NEEDS_P_DITHER p = flag01 (on GGL_ENABLE_DITHER) /\
  GGL_READ_NEEDS NEEDS_P_AA p = flag01 (on GGL_ENABLE_AA) /\
  GGL_READ_NEEDS NEEDS_P_FOG p = flag01 (on GGL_ENABLE_FOG) /\
  GGL_NEVER + GGL_READ_NEEDS NEEDS_P_ALPHA_TEST p =
    (if on GGL_ENABLE_ALPHA_TEST then at_func (st_alpha_test (c_state c)) else GGL_ALWAYS) /\
  GGL_NEVER + GGL_READ_NEEDS NEEDS_P_DEPTH_TEST p =
    (if on GGL_ENABLE_DEPTH_TEST then dt_func (st_depth_test (c_state c)) else GGL_ALWAYS) /\
  GGL_READ_NEEDS NEEDS_P_MASK_Z p =
    (if on GGL_ENABLE_DEPTH_TEST then mk_depth (st_mask (c_state c)) else 0).
Proof.
  intros (EA & ED & EL & EM & EZ) Hfmt b B1 B2 B3 B4 n p factor on.
  pose proof (blend_factors_code c B1 B2 B3 B4) as BF.
  pose proof (read_n c) as RN. pose proof (read_p c) as RP. fold n in RN. fold p in RP.
  clearbody n p. unfold pipeline_n_fields in RN. unfold pipeline_p_fields in RP. subst factor on.
  destruct (blend_factors c) as [[[src dst] srca] dsta]. destruct BF as (F1 & F2 & F3 & F4).
  cbv beta.
  rewrite (RN NEEDS_CB_FORMAT _ ltac:(in_word) ltac:(simpl; tauto)),
    (RN NEEDS_BLEND_SRC _ ltac:(in_word) ltac:(simpl; tauto)),
    (RN NEEDS_BLEND_DST _ ltac:(in_word) ltac:(simpl; tauto)),
    (RN NEEDS_BLEND_SRCA _ ltac:(in_word) ltac:(simpl; tauto)),
    (RN NEEDS_BLEND_DSTA _ ltac:(in_word) ltac:(simpl; tauto)),
    (RN NEEDS_MASK_ARGB _ ltac:(in_word) ltac:(simpl; tauto)),
    (RN NEEDS_SHADE _ ltac:(in_word) ltac:(simpl; tauto)),
    (RN NEEDS_W _ ltac:(in_word) ltac:(simpl; tauto)),
    (RN NEEDS_LOGIC_OP _ ltac:(in_word) ltac:(simpl; tauto)),
    (RP NEEDS_P_DITHER _ ltac:(in_word) ltac:(simpl; tauto)),
    (RP NEEDS_P_AA _ ltac:(in_word) ltac:(simpl; tauto)),
    (RP NEEDS_P_FOG _ ltac:(in_word) ltac:(simpl; tauto)),
    (RP NEEDS_P_ALPHA_TEST _ ltac:(in_word) ltac:(simpl; tauto)),
    (RP NEEDS_P_DEPTH_TEST _ ltac:(in_word) ltac:(simpl; tauto)),
    (RP NEEDS_P_MASK_Z _ ltac:(in_word) ltac:(simpl; tauto)).
  clear RN RP. cbn [nf_bits NEEDS_CB_FORMAT NEEDS_BLEND_SRC NEEDS_BLEND_DST NEEDS_BLEND_SRCA
    NEEDS_BLEND_DSTA NEEDS_MASK_ARGB NEEDS_SHADE NEEDS_W NEEDS_LOGIC_OP NEEDS_P_DITHER NEEDS_P_AA
    NEEDS_P_FOG NEEDS_P_ALPHA_TEST NEEDS_P_DEPTH_TEST NEEDS_P_MASK_Z].
  rewrite !blend_factor_code, lxor_15, !flag01_mod by done.
  unfold GGL_CLEAR, GGL_SET, GGL_NEVER, GGL_ALWAYS, GGL_COPY in *.
  split_and!; try done.
  - apply Z.mod_small. lia.
  - by destruct (has _ GGL_ENABLE_TMUS); [apply flag01_mod|].
  - destruct (has (enables c) GGL_ENABLE_LOGIC_OP); [|done]. div_lia.
  - destruct (has (enables c) GGL_ENABLE_ALPHA_TEST); [|done]. div_lia.
  - destruct (has (enables c) GGL_ENABLE_DEPTH_TEST); [|done]. div_lia.
  - destruct (has (enables c) GGL_ENABLE_DEPTH_TEST); [|done]. by destruct EZ as [<-|[<-|[]]].
Qed.
(** ** Fast paths are only taken for the state they implement *)

Definition needs_word (n : needs_t) (w : Z) : Z :=
  if w =? 0 then needs_n n else if w =? 1 then needs_p n
  else if w =? 2 then needs_t_get n 0 else needs_t_get n 1.

(** A requirement [(w, f, v)]: field [f] of word [w] holds [v]. *)
Definition requirement : Type := Z * needs_field * Z.
Definition holds (n : needs_t) (r : requirement) : bool :=
  let '(w, f, v) := r in GGL_READ_NEEDS f (needs_word n w) =? v.

(** Fragment operations off: no alpha, depth or logic test, no fog, no mask. *)
Definition no_tests : list requirement :=
  [(0, NEEDS_LOGIC_OP, 3); (0, NEEDS_MASK_ARGB, 0); (1, NEEDS_P_ALPHA_TEST, 7);
   (1, NEEDS_P_DEPTH_TEST, 7); (1, NEEDS_P_MASK_Z, 0); (1, NEEDS_P_FOG, 0)].
Definition blend_req (src dst : Z) : list requirement :=
  [(0, NEEDS_BLEND_SRC, src); (0, NEEDS_BLEND_DST, dst);
   (0, NEEDS_BLEND_SRCA, src); (0, NEEDS_BLEND_DSTA, dst)].
(** Texture 0 only, with the given format, environment and wrap modes. *)
Definition texture_req (format env wrap : Z) : list requirement :=
  [(2, NEEDS_T_FORMAT, format); (2, NEEDS_T_ENV, env); (2, NEEDS_T_S_WRAP, wrap);
   (2, NEEDS_T_T_WRAP, wrap); (3, NEEDS_T_FORMAT, 0)].
Definition over_565 (dither src dst tf env wrap : Z) : list requirement :=
  (0, NEEDS_CB_FORMAT, GGL_PIXEL_FORMAT_RGB_565) :: (1, NEEDS_P_DITHER, dither) ::
  no_tests ++ blend_req src dst ++ texture_req tf env wrap.

Definition ONE : Z := 1.
Definition NEED_SRC_ALPHA : Z := 4.
Definition NEED_ONE_MINUS_SRC_ALPHA : Z := 5.

(** What each specialised scanline takes for granted; alternatives are the
    elements of the outer list. *)
Definition scanline_requires (s : scanline_proc) : list (list requirement) :=
  match s with
  | use_scanline_t32cb16blend => [over_565 0 ONE NEED_ONE_MINUS_SRC_ALPHA 1 0 2]
  | use_scanline_t32cb16blend_dither => [over_565 1 ONE NEED_ONE_MINUS_SRC_ALPHA 1 0 2]
  | use_scanline_t32cb16 => [over_565 0 ONE 0 1 0 2]
  | use_scanline_t32cb16_dither => [over_565 1 ONE 0 1 0 2]
  | use_scanline_t32cb16blend_srca =>
      [(0, NEEDS_CB_FORMAT, GGL_PIXEL_FORMAT_RGB_565) :: no_tests ++
       blend_req NEED_SRC_ALPHA NEED_ONE_MINUS_SRC_ALPHA ++ texture_req 1 0 2]
  | use_scanline_t32cb16blend_clamp => [over_565 0 ONE NEED_ONE_MINUS_SRC_ALPHA 1 0 0]
  | use_scanline_t32cb16blend_clamp_dither => [over_565 1 ONE NEED_ONE_MINUS_SRC_ALPHA 1 0 0]
  | use_scanline_t32cb16blend_clamp_mod => [over_565 0 ONE NEED_ONE_MINUS_SRC_ALPHA 1 1 0]
  | use_scanline_x32cb16blend_clamp_mod => [over_565 0 ONE NEED_ONE_MINUS_SRC_ALPHA 2 1 0]
  | use_scanline_t32cb16blend_clamp_mod_dither => [over_565 1 ONE NEED_ONE_MINUS_SRC_ALPHA 1 1 0]
  | use_scanline_x32cb16blend_clamp_mod_dither => [over_565 1 ONE NEED_ONE_MINUS_SRC_ALPHA 2 1 0]
  | use_scanline_t32cb16_clamp => [over_565 0 ONE 0 1 0 0; over_565 0 ONE 0 2 0 0]
  | use_scanline_t32cb16_clamp_dither => [over_565 1 ONE 0 1 0 0; over_565 1 ONE 0 2 0 0]
  | use_scanline_t16cb16_clamp => [over_565 0 ONE 0 4 0 0]
  | use_scanline_t16cb16blend_clamp_mod => [over_565 0 ONE NEED_ONE_MINUS_SRC_ALPHA 4 1 0]
  | use_scanline_col32cb16blend =>
      [(0, NEEDS_CB_FORMAT, GGL_PIXEL_FORMAT_RGB_565) :: (0, NEEDS_SHADE, 0) :: no_tests ++
       blend_req ONE NEED_ONE_MINUS_SRC_ALPHA ++ [(2, NEEDS_T_FORMAT, 0); (3, NEEDS_T_FORMAT, 0)]]
  | use_scanline_memcpy =>
      [(0, NEEDS_SHADE, 0) :: no_tests ++ blend_req ONE 0 ++
       [(2, NEEDS_T_ENV, 0); (2, NEEDS_T_S_WRAP, 2); (2, NEEDS_T_T_WRAP, 2); (2, NEEDS_T_LINEAR, 0);
        (3, NEEDS_T_FORMAT, 0)]]
  | use_scanline_memset8 | use_scanline_memset16 | use_scanline_memset32 =>
      [(0, NEEDS_SHADE, 0) :: (1, NEEDS_P_DITHER, 0) :: no_tests ++ blend_req ONE 0 ++
       [(2, NEEDS_T_FORMAT, 0); (3, NEEDS_T_FORMAT, 0)]]
  | use_scanline_noop =>
      [[(1, NEEDS_P_ALPHA_TEST, 0)]; [(1, NEEDS_P_DEPTH_TEST, 0)];
       [(0, NEEDS_LOGIC_OP, 5); (1, NEEDS_P_MASK_Z, 0)];
       [(0, NEEDS_MASK_ARGB, 0xF); (1, NEEDS_P_MASK_Z, 0)];
       [(0, NEEDS_CB_FORMAT, 0)]]
  | use_scanline_set =>
      [[(0, NEEDS_LOGIC_OP, 0xF); (0, NEEDS_MASK_ARGB, 0); (1, NEEDS_P_ALPHA_TEST, 7);
        (1, NEEDS_P_DEPTH_TEST, 7); (1, NEEDS_P_MASK_Z, 0)]]
  | use_scanline_clear =>
      [[(0, NEEDS_LOGIC_OP, 0); (0, NEEDS_MASK_ARGB, 0); (1, NEEDS_P_ALPHA_TEST, 7);
        (1, NEEDS_P_DEPTH_TEST, 7); (1, NEEDS_P_MASK_Z, 0)];
       blend_req 0 0 ++ [(0, NEEDS_LOGIC_OP, 3); (0, NEEDS_MASK_ARGB, 0); (1, NEEDS_P_ALPHA_TEST, 7);
        (1, NEEDS_P_DEPTH_TEST, 7); (1, NEEDS_P_MASK_Z, 0)]]
  | use_scanline => [[]]
  | _ => []
  end.

Definition scanline_ok (n : needs_t) (s : scanline_proc) : bool :=
  existsb (forallb (holds n)) (scanline_requires s).

(** The filter fixes the field of the requirement to the required value. *)
Definition filter_implies (flt : needs_filter_t) (r : requirement) : bool :=
  let '(w, f, v) := r in
  (Z.land (NEEDS_MASK f) (needs_word (nf_mask flt) w) =? NEEDS_MASK f) &&
  (GGL_READ_NEEDS f (needs_word (nf_value flt) w) =? v).

Definition filter_justifies (flt : needs_filter_t) (s : scanline_proc) : bool :=
  existsb (forallb (filter_implies flt)) (scanline_requires s).

Lemma match_word n flt w :
  needs_match n flt = true ->
  Z.land (Z.lxor (needs_word (nf_value flt) w) (needs_word n w)) (needs_word (nf_mask flt) w) = 0.
Proof.
  unfold needs_match. intros H%Z.eqb_eq.
  apply Z.lor_eq_0_iff in H as [[[H0 H1]%Z.lor_eq_0_iff H2]%Z.lor_eq_0_iff H3].
  unfold needs_word. by repeat case_match.
Qed.

Lemma masked_equal a b m g : Z.land (Z.lxor a b) m = 0 -> Z.land g m = g -> Z.land b g = Z.land a g.
Proof.
  intros H Hg. apply Z.bits_inj'. intros i Hi. rewrite !Z.land_spec.
  apply (f_equal (fun z => Z.testbit z i)) in H, Hg.
  rewrite Z.land_spec, Z.lxor_spec, Z.bits_0 in H. rewrite Z.land_spec in Hg.
  destruct (Z.testbit a i), (Z.testbit b i), (Z.testbit m i), (Z.testbit g i); simpl in *; congruence.
Qed.

Lemma filter_implies_holds n flt r :
  needs_match n flt = true -> filter_implies flt r = true -> holds n r = true.
Proof.
  destruct r as [[w f] v]. intros Hm [Hs%Z.eqb_eq Hv]%andb_true_iff. unfold holds.
  rewrite <-Hv. f_equal. unfold GGL_READ_NEEDS. do 2 f_equal.
  eapply masked_equal; [by apply match_word|done].
Qed.

Lemma filter_justifies_ok n flt s :
  needs_match n flt = true -> filter_justifies flt s = true -> scanline_ok n s = true.
Proof.
  intros Hm (alt & Ha & Hf)%existsb_exists. apply existsb_exists. exists alt. split; [done|].
  rewrite forallb_forall in Hf |- *. intros r Hr. eapply filter_implies_holds; [done|by apply Hf].
Qed.

Lemma shortcuts_justified :
  forallb (fun s => filter_justifies (sc_filter s) (sc_scanline s)) shortcuts = true.
Proof. vm_compute. reflexivity. Qed.

Lemma pick_shortcut_ok c :
  scanline_ok (st_needs (c_state c)) (c_scanline (pick_shortcut c)) = true.
Proof.
  unfold pick_shortcut. destruct (find_shortcut _) as [s|] eqn:E; cbn; [|done].
  apply find_some in E as [Hin Hm]. eapply filter_justifies_ok; [done|].
  pose proof shortcuts_justified as H. rewrite forallb_forall in H. by apply H.
Qed.

(** ** The cached needs follow the state *)

Definition clear_field (f : needs_field) (n : Z) : Z := clear_bits (NEEDS_MASK f) n.
Definition cb_format (c : context_t) : Z := sf_format (fb_color (st_buffers (c_state c))).

(** What [n], the color-buffer format apart, and [p] are computed from. *)
Definition pipe_key (c : context_t) :=
  let st := c_state c in
  (c_formats c, (if has (enables c) GGL_ENABLE_BLENDING then Some (st_blend st) else None), (mk_color (st_mask st), mk_depth (st_mask st)), st_logic_op st,
   at_func (st_alpha_test st), dt_func (st_depth_test st),
   map (has (enables c)) [GGL_ENABLE_BLENDING; GGL_ENABLE_SMOOTH; GGL_ENABLE_DITHER; GGL_ENABLE_AA;
     GGL_ENABLE_FOG; GGL_ENABLE_LOGIC_OP; GGL_ENABLE_ALPHA_TEST; GGL_ENABLE_DEPTH_TEST]).

(** What a texture word is computed from. *)
Definition texture_key (t : texture_t) : Z * Z := (tx_enable t, needs_texture t).

Lemma clear_lor b x y : clear_bits b (Z.lor x y) = Z.lor (clear_bits b x) (clear_bits b y).
Proof. unfold clear_bits. by rewrite Z.land_lor_distr_l. Qed.

Lemma clear_comm a b x : clear_bits a (clear_bits b x) = clear_bits b (clear_bits a x).
Proof. unfold clear_bits. by rewrite <-!Z.land_assoc, (Z.land_comm (u32 (Z.lnot a))). Qed.

Lemma clear_field_testbit f x i :
  field_in_word f -> 0 <= i ->
  Z.testbit (clear_field f x) i =
  Z.testbit x i && (i <? 32) && negb ((nf_shift f <=? i) && (i <? nf_shift f + nf_bits f)).
Proof.
  intros Hf Hi. unfold clear_field, clear_bits.
  rewrite Z.land_spec, u32_testbit, Z.lnot_spec, mask_testbit by done. by rewrite andb_assoc.
Qed.

Lemma clear_build_same f v : field_in_word f -> clear_field f (GGL_BUILD_NEEDS v f) = 0.
Proof.
  intros Hf. apply Z.bits_inj'. intros i Hi. rewrite clear_field_testbit, Z.bits_0 by done.
  unfold GGL_BUILD_NEEDS. rewrite Z.land_spec, mask_testbit by done.
  destruct ((nf_shift f <=? i) && (i <? nf_shift f + nf_bits f)); cbn [negb];
    by rewrite ?andb_false_r.
Qed.

(** [n] is its color-buffer field, its [W] field and the rest. *)
Definition n_rest (c : context_t) : Z :=
  let e := enables c in
  Z.lor (Z.lor (Z.lor (needs_blend c)
    (GGL_BUILD_NEEDS (Z.lxor (mk_color (st_mask (c_state c))) 0xF) NEEDS_MASK_ARGB))
    (GGL_BUILD_NEEDS (flag01 (has e GGL_ENABLE_SMOOTH)) NEEDS_SHADE))
    (GGL_BUILD_NEEDS (if has e GGL_ENABLE_LOGIC_OP then st_logic_op (c_state c) else GGL_COPY)
       NEEDS_LOGIC_OP).
Definition n_w (c : context_t) : Z :=
  if has (enables c) GGL_ENABLE_TMUS
  then GGL_BUILD_NEEDS (flag01 (has (enables c) GGL_ENABLE_W)) NEEDS_W else 0.

Lemma needs_n_split c :
  needs_pipeline_n c = Z.lor (GGL_BUILD_NEEDS (cb_format c) NEEDS_CB_FORMAT) (Z.lor (n_rest c) (n_w c)).
Proof.
  unfold needs_pipeline_n, n_rest, n_w, cb_format.
  destruct (has (enables c) GGL_ENABLE_TMUS), (has (enables c) GGL_ENABLE_LOGIC_OP);
    rewrite ?Z.lor_0_r, ?Z.lor_assoc; try done; rewrite <-!Z.lor_assoc; do 4 f_equal; apply Z.lor_comm.
Qed.

Lemma clear_w_n c :
  clear_field NEEDS_W (needs_pipeline_n c) =
  clear_field NEEDS_W (Z.lor (GGL_BUILD_NEEDS (cb_format c) NEEDS_CB_FORMAT) (n_rest c)).
Proof.
  rewrite needs_n_split, Z.lor_assoc. unfold clear_field.
  rewrite (clear_lor _ _ (n_w c)). unfold n_w. destruct (has _ _).
  - fold (clear_field NEEDS_W (GGL_BUILD_NEEDS (flag01 (has (enables c) GGL_ENABLE_W)) NEEDS_W)).
    rewrite clear_build_same by in_word. apply Z.lor_0_r.
  - by rewrite Z.lor_0_r.
Qed.

Lemma pipe_key_rest c c' :
  pipe_key c = pipe_key c' ->
  has (enables c) GGL_ENABLE_BLENDING = false \/ cb_format c = cb_format c' -> n_rest c = n_rest c'.
Proof.
  unfold pipe_key, cb_format. cbn [map]. intros K HF. injection K as K1 K2 K3 K4 K5 K6 K7 K8 K9 K10
    K11 K12 K13 K14 K15. unfold n_rest, needs_blend, format_of. cbv zeta.
  rewrite <-K1, <-K3, <-K5, <-K9, <-K13. rewrite <-K8 in K2 |- *.
  destruct (has (enables c) GGL_ENABLE_BLENDING); [|done]. injection K2 as <-.
  destruct HF as [Hb|Hf]; [done|by rewrite Hf].
Qed.

Lemma pipe_key_p c c' : pipe_key c = pipe_key c' -> needs_pipeline_p c = needs_pipeline_p c'.
Proof.
  unfold pipe_key. cbn [map]. intros K. injection K as K1 K2 K3 K4 K5 K6 K7 K8 K9 K10
    K11 K12 K13 K14 K15. unfold needs_pipeline_p. cbv zeta.
  by rewrite K4, K6, K7, K10, K11, K12, K14, K15.
Qed.

(** The words of the enabled units, compacted as the loop does; the second
    word is not touched when only unit 1 is enabled. *)
Definition textures_fresh (texs : list texture_t) (t : list Z) : Prop :=
  match map texture_key texs, t with
  | [(e0, w0); (e1, w1)], [x0; x1] =>
      x0 = (if negb (e0 =? 0) then w0 else if negb (e1 =? 0) then w1 else 0) /\
      (e0 <> 0 \/ e1 = 0 -> x1 = if negb (e1 =? 0) then w1 else 0)
  | _, _ => False
  end.

Lemma needs_textures_fresh c t0 t1 x0 x1 :
  st_texture (c_state c) = [t0; t1] -> textures_fresh [t0; t1] (needs_textures c [x0; x1]).
Proof.
  intros E. unfold needs_textures, needs_texture_step, texture, textures_fresh, texture_key.
  rewrite E. cbn [fold_left].
  change (Z.to_nat 0) with 0%nat. change (Z.to_nat 1) with 1%nat. cbn.
  destruct (Z.eqb_spec (tx_enable t0) 0) as [E0|N0], (Z.eqb_spec (tx_enable t1) 0) as [E1|N1]; cbn;
    (split; [done|]); intros [?|?]; done.
Qed.

Record coherent (c : context_t) : Prop := {
  coh_p : has (c_dirty c) GGL_PIXEL_PIPELINE_STATE = false ->
    needs_p (st_needs (c_state c)) = needs_pipeline_p c;
  coh_n : has (c_dirty c) GGL_PIXEL_PIPELINE_STATE = false -> has (c_dirty c) GGL_CB_STATE = false ->
    clear_field NEEDS_W (needs_n (st_needs (c_state c))) = clear_field NEEDS_W (needs_pipeline_n c);
  coh_cb : has (c_dirty c) GGL_PIXEL_PIPELINE_STATE = false ->
    has (enables c) GGL_ENABLE_BLENDING = false ->
    clear_field NEEDS_CB_FORMAT (clear_field NEEDS_W (needs_n (st_needs (c_state c)))) =
    clear_field NEEDS_CB_FORMAT (clear_field NEEDS_W (n_rest c));
  coh_t : has (c_dirty c) GGL_TMU_STATE = false ->
    textures_fresh (st_texture (c_state c)) (needs_tx (st_needs (c_state c)));
  coh_len : length (needs_tx (st_needs (c_state c))) = 2%nat }.

Lemma clear_cb_n c :
  clear_field NEEDS_CB_FORMAT (clear_field NEEDS_W (needs_pipeline_n c)) =
  clear_field NEEDS_CB_FORMAT (clear_field NEEDS_W (n_rest c)).
Proof.
  rewrite clear_w_n. unfold clear_field. rewrite !clear_lor.
  rewrite (clear_comm _ _ (GGL_BUILD_NEEDS _ _)).
  fold (clear_field NEEDS_CB_FORMAT (GGL_BUILD_NEEDS (cb_format c) NEEDS_CB_FORMAT)).
  rewrite clear_build_same by in_word. done.
Qed.

(** What a command may do: every change of the state the needs are computed
    from marks the part it belongs to. *)
Record tracked (c c' : context_t) : Prop := {
  tr_needs : st_needs (c_state c') = st_needs (c_state c);
  tr_grow : forall b, In b [GGL_PIXEL_PIPELINE_STATE; GGL_CB_STATE; GGL_TMU_STATE] ->
    has (c_dirty c) b = true -> has (c_dirty c') b = true;
  tr_pipe : has (c_dirty c') GGL_PIXEL_PIPELINE_STATE = true \/
    pipe_key c' = pipe_key c /\ (has (c_dirty c') GGL_CB_STATE = true \/ cb_format c' = cb_format c);
  tr_tmu : has (c_dirty c') GGL_TMU_STATE = true \/
    map texture_key (st_texture (c_state c')) = map texture_key (st_texture (c_state c)) }.

Lemma has_false_back c c' b :
  tracked c c' -> In b [GGL_PIXEL_PIPELINE_STATE; GGL_CB_STATE; GGL_TMU_STATE] ->
  has (c_dirty c') b = false -> has (c_dirty c) b = false.
Proof.
  intros Ht Hb H. destruct (has (c_dirty c) b) eqn:E; [|done].
  by rewrite (tr_grow c c' Ht b Hb E) in H.
Qed.

Lemma pipe_key_blending c c' :
  pipe_key c = pipe_key c' -> has (enables c) GGL_ENABLE_BLENDING = has (enables c') GGL_ENABLE_BLENDING.
Proof. unfold pipe_key. cbn [map]. intros K. by injection K. Qed.

Lemma tracked_coherent c c' : tracked c c' -> coherent c -> coherent c'.
Proof.
  intros Ht [Hp Hn Hcb Htx Hl]. pose proof Ht as [En _ Tp Tt].
  pose proof (has_false_back c c' GGL_PIXEL_PIPELINE_STATE Ht ltac:(simpl; tauto)) as BP.
  pose proof (has_false_back c c' GGL_CB_STATE Ht ltac:(simpl; tauto)) as BC.
  pose proof (has_false_back c c' GGL_TMU_STATE Ht ltac:(simpl; tauto)) as BT.
  split; rewrite ?En; [intros P|intros P C|intros P B|intros T|done].
  - destruct Tp as [Tp|[K _]]; [congruence|]. rewrite (pipe_key_p c' c K). auto.
  - destruct Tp as [Tp|[K F]]; [congruence|]. destruct F as [F|F]; [congruence|].
    rewrite (Hn (BP P) (BC C)), !clear_w_n, F. by rewrite (pipe_key_rest c' c K) by auto.
  - destruct Tp as [Tp|[K F]]; [congruence|].
    rewrite (pipe_key_rest c' c K) by auto. apply Hcb; [auto|]. by rewrite <-(pipe_key_blending c' c K).
  - destruct Tt as [Tt|K]; [congruence|]. unfold textures_fresh. rewrite K. apply Htx. auto.
Qed.
(** *** The commands are tracked *)

Lemma has_set_grow flags x b : has x b = true -> has (set_bits flags x) b = true.
Proof.
  unfold has, set_bits. rewrite Z.land_lor_distr_l, !negb_true_iff, !Z.eqb_neq.
  intros H [? _]%Z.lor_eq_0_iff. done.
Qed.

Lemma state_changed_dirty flags c : c_dirty (ggl_state_changed flags c) = set_bits flags (c_dirty c).
Proof. unfold ggl_state_changed. by destruct (c_dirty c =? 0). Qed.
Lemma state_changed_formats flags c : c_formats (ggl_state_changed flags c) = c_formats c.
Proof. unfold ggl_state_changed. by destruct (c_dirty c =? 0). Qed.

Lemma pipe_key_state_changed flags c : pipe_key (ggl_state_changed flags c) = pipe_key c.
Proof. unfold pipe_key, enables. by rewrite state_changed_state, state_changed_formats. Qed.

Lemma tracked_refl c : tracked c c.
Proof. split; try done; right; [split; [done|by right]|done]. Qed.

Lemma tracked_same c c' :
  st_needs (c_state c') = st_needs (c_state c) -> c_dirty c' = c_dirty c ->
  pipe_key c' = pipe_key c -> cb_format c' = cb_format c ->
  map texture_key (st_texture (c_state c')) = map texture_key (st_texture (c_state c)) ->
  tracked c c'.
Proof.
  intros H1 H2 H3 H4 H5. split; rewrite ?H2; try done; right; [split; [done|by right]|done].
Qed.

Lemma tracked_error e c : tracked c (ggl_error e c).
Proof. unfold ggl_error. destruct (_ =? _); by apply tracked_same. Qed.

(** A change of the pipeline state, or of a texture unit, that marks it. *)
Lemma tracked_pipe c c' :
  st_needs (c_state c') = st_needs (c_state c) -> c_dirty c' = c_dirty c ->
  map texture_key (st_texture (c_state c')) = map texture_key (st_texture (c_state c)) ->
  tracked c (ggl_state_changed GGL_PIXEL_PIPELINE_STATE c').
Proof.
  intros H1 H2 H3. split; rewrite ?state_changed_dirty, ?state_changed_state, ?H2; try done.
  - intros b _. apply has_set_grow.
  - left. by apply has_set_same.
  - by right.
Qed.

Lemma tracked_tmu_dirty c c' :
  st_needs (c_state c') = st_needs (c_state c) -> c_dirty c' = set_bits GGL_TMU_STATE (c_dirty c) ->
  pipe_key c' = pipe_key c -> cb_format c' = cb_format c -> tracked c c'.
Proof.
  intros H1 H2 H3 H4. split; rewrite ?H2; try done.
  - intros b _. apply has_set_grow.
  - right. split; [done|by right].
  - left. by apply has_set_same.
Qed.

Lemma tracked_tmu c c' :
  st_needs (c_state c') = st_needs (c_state c) -> c_dirty c' = c_dirty c ->
  pipe_key c' = pipe_key c -> cb_format c' = cb_format c ->
  tracked c (ggl_state_changed GGL_TMU_STATE c').
Proof.
  intros H1 H2 H3 H4. apply tracked_tmu_dirty.
  - by rewrite state_changed_state.
  - by rewrite state_changed_dirty, H2.
  - by rewrite pipe_key_state_changed.
  - unfold cb_format in *. by rewrite state_changed_state.
Qed.

Lemma tracked_pipeline_bit bit en c : tracked c (enable_pipeline_bit bit en c).
Proof.
  unfold enable_pipeline_bit. destruct (toggles _ _ _); [by apply tracked_pipe|apply tracked_refl].
Qed.

Lemma pipe_key_enables (e : bool) bit c :
  forallb (fun b => Z.land bit b =? 0) [GGL_ENABLE_BLENDING; GGL_ENABLE_SMOOTH; GGL_ENABLE_DITHER;
    GGL_ENABLE_AA; GGL_ENABLE_FOG; GGL_ENABLE_LOGIC_OP; GGL_ENABLE_ALPHA_TEST; GGL_ENABLE_DEPTH_TEST]
    = true ->
  pipe_key (upd_enables (if e then clear_bits bit else set_bits bit) c) = pipe_key c.
Proof.
  intros Hb. cbn [forallb] in Hb. rewrite !andb_true_iff, !Z.eqb_eq in Hb.
  destruct Hb as (? & ? & ? & ? & ? & ? & ? & ? & _).
  unfold pipe_key, enables. cbn. by rewrite !has_if_other.
Qed.

Lemma tracked_enable name en c : tracked c (enable_disable name en c).
Proof.
  unfold enable_disable.
  repeat match goal with |- tracked _ (if ?b then _ else _) => destruct b end;
    try apply tracked_refl; try apply tracked_pipeline_bit.
  - unfold ggl_enable_scissor_test, set_enable. destruct (toggles _ _ _); [|apply tracked_refl].
    apply tracked_same; try done. by apply (pipe_key_enables (en =? 0)).
  - unfold ggl_enable_texture2d, set_enable. destruct (negb _); [|apply tracked_refl].
    apply tracked_tmu; try done. set (c1 := upd_state _ _).
    apply (pipe_key_enables (_ =? 0) GGL_ENABLE_TMUS c1). done.
Qed.

Lemma map_alter_same {A B} (g : A -> B) f i l :
  (forall t, l !! i = Some t -> g (f t) = g t) -> map g (alter f i l) = map g l.
Proof.
  revert i. induction l as [|x l IH]; intros i H; [done|]. destruct i as [|i]; cbn.
  - f_equal. by apply H.
  - f_equal. apply IH. intros t Ht. by apply H.
Qed.

Lemma tracked_texture i f c :
  (forall t, texture_key (f t) = texture_key t) -> tracked c (upd_texture i f c).
Proof. intros Hf. apply tracked_same; try done. apply map_alter_same. auto. Qed.

Lemma set_surface_format c s d : sf_format (ggl_set_surface c s d) = gs_format s.
Proof. unfold ggl_set_surface. cbn. by destruct (gs_stride s <? 0). Qed.

Lemma texture_key_surface c s t :
  gs_format s = sf_format (tx_surface t) ->
  texture_key (t <| tx_surface ::= ggl_set_surface c s |>) = texture_key t.
Proof.
  intros H. unfold texture_key, needs_texture. cbn. by rewrite set_surface_format, H.
Qed.

Lemma tracked_bind c i s c0 :
  gs_format s = sf_format (tx_surface (texture c i)) ->
  tracked c (upd_texture i (fun t => t <| tx_surface ::= ggl_set_surface c0 s |>) c).
Proof.
  intros H. apply tracked_same; try done. apply map_alter_same. intros t Ht.
  apply texture_key_surface. unfold texture in H. by rewrite (nth_lookup_Some _ _ _ _ Ht) in H.
Qed.

Lemma tracked_color_buffer alloc s c : tracked c (ggl_colorBuffer alloc s c).
Proof.
  unfold ggl_colorBuffer. set (c1 := if negb _ then _ else c).
  assert (c_state c1 = c_state c /\ pipe_key c1 = pipe_key c) as [Es Ep].
  { unfold c1. destruct (negb _); [|done]. by rewrite state_changed_state, pipe_key_state_changed. }
  assert (forall b, has (c_dirty c) b = true -> has (c_dirty c1) b = true) as Hg.
  { intros b. unfold c1. destruct (negb _); [|done]. rewrite state_changed_dirty. apply has_set_grow. }
  assert (has (c_dirty c1) GGL_CB_STATE = true \/ gs_format s = cb_format c) as Hf.
  { unfold c1, cb_format. destruct (Z.eqb_spec (gs_format s) (sf_format (fb_color (st_buffers (c_state c))))) as [E|];
      cbn [negb]; [by right|left]. rewrite state_changed_dirty. by apply has_set_same. }
  clearbody c1. set (c2 := if _ <? _ then _ else c1).
  assert (c_dirty c2 = c_dirty c1 /\ pipe_key c2 = pipe_key c1 /\
          st_needs (c_state c2) = st_needs (c_state c1) /\
          st_texture (c_state c2) = st_texture (c_state c1)) as (E1 & E2 & E3 & E4)
    by (unfold c2; by destruct (_ <? _)).
  clearbody c2. set (c3 := upd_buffers (fun b => b <| fb_color ::= _ |>) c2).
  assert (sf_format (fb_color (st_buffers (c_state c3))) = gs_format s) as Ef by apply set_surface_format.
  assert (c_dirty c3 = c_dirty c2 /\ pipe_key c3 = pipe_key c2 /\
          st_needs (c_state c3) = st_needs (c_state c2) /\
          st_texture (c_state c3) = st_texture (c_state c2)) as (F1 & F2 & F3 & F4) by done.
  clearbody c3. set (c4 := if _ =? 0 then _ else c3).
  assert (c_dirty c4 = c_dirty c3 /\ pipe_key c4 = pipe_key c3 /\
          st_needs (c_state c4) = st_needs (c_state c3) /\
          st_texture (c_state c4) = st_texture (c_state c3) /\
          fb_color (st_buffers (c_state c4)) = fb_color (st_buffers (c_state c3))) as (G1 & G2 & G3 & G4 & G5)
    by (unfold c4; by destruct (sf_format (fb_read _) =? 0)).
  clearbody c4. split.
  - change (st_needs (c_state c4) = st_needs (c_state c)). congruence.
  - intros b _ H. change (has (c_dirty c4) b = true). rewrite G1, F1, E1. auto.
  - right. split; [change (pipe_key c4 = pipe_key c); congruence|].
    change (has (c_dirty c4) GGL_CB_STATE = true \/
            sf_format (fb_color (st_buffers (c_state c4))) = cb_format c).
    rewrite G5, Ef, G1, F1, E1. exact Hf.
  - right. change (map texture_key (st_texture (c_state c4)) = map texture_key (st_texture (c_state c))).
    congruence.
Qed.
(** The contract of [bindTextureLod]: all levels have the same format. *)
Definition same_lod_format (c : context_t) (cmd : command) : Prop :=
  match cmd with
  | C_bindTextureLod tmu s => gs_format s = sf_format (tx_surface (texture c tmu))
  | _ => True
  end.

Lemma tracked_blend b c :
  tracked c (blend_changed (upd_state (fun st => st <| st_blend := b |>) c)).
Proof.
  unfold blend_changed. set (c1 := upd_state _ c).
  destruct (has (enables c1) GGL_ENABLE_BLENDING) eqn:E; [by apply tracked_pipe|].
  apply tracked_same; try done. unfold pipe_key. change (enables c) with (enables c1). by rewrite E.
Qed.

Lemma tracked_texEnvi target pname param c : tracked c (ggl_texEnvi target pname param c).
Proof.
  unfold ggl_texEnvi. repeat case_match; try apply tracked_error; try apply tracked_refl.
  by apply tracked_tmu.
Qed.

Lemma exec_tracked cmd c c' : same_lod_format c cmd -> exec cmd c = Some c' -> tracked c c'.
Proof.
  intros Hl Hx. destruct cmd; cbn [exec] in Hx; try (injection Hx as <-);
    try apply tracked_enable; try apply tracked_color_buffer;
    try (by apply tracked_same); try (by apply tracked_texture).
  - unfold ggl_activeTexture. destruct (_ <=? _); [apply tracked_error|by apply tracked_same].
  - unfold ggl_bindTexture. destruct (Z.eqb_spec (gs_format surface) (sf_format (tx_surface (activeTMU c)))) as [E|];
      cbn [negb]; [by apply tracked_bind|].
    apply tracked_tmu_dirty.
    + change (st_needs (c_state (ggl_state_changed GGL_TMU_STATE c)) = st_needs (c_state c)).
      by rewrite state_changed_state.
    + apply state_changed_dirty.
    + apply pipe_key_state_changed.
    + change (cb_format (ggl_state_changed GGL_TMU_STATE c) = cb_format c).
      unfold cb_format. by rewrite state_changed_state.
  - unfold ggl_depthBuffer. destruct (_ =? _); [by apply tracked_same|].
    set (c1 := upd_buffers _ c). unfold ggl_enable_depth_test, enable_pipeline_bit.
    destruct (toggles _ _ _); [by apply tracked_pipe|by apply tracked_same].
  - unfold ggl_bindTextureLod in Hx. destruct (_ <? _); [|done]. injection Hx as <-.
    by apply tracked_bind.
  - unfold ggl_shadeModel. repeat case_match; try apply tracked_refl; try apply tracked_error;
      by apply tracked_pipe.
  - by apply tracked_blend.
  - by apply tracked_blend.
  - apply tracked_texEnvi.
  - unfold ggl_texEnvxv. repeat case_match; try apply tracked_error; [apply tracked_texEnvi|].
    by apply tracked_texture.
  - unfold ggl_texParameteri. destruct (negb _); [apply tracked_error|].
    destruct (tex_parameter _ _) as [[p v]|]; [|apply tracked_error].
    destruct (negb _); [by apply tracked_tmu|apply tracked_refl].
  - unfold ggl_texCoordGradScale8xv in Hx. destruct (_ && _); [|done]. injection Hx as <-.
    by apply tracked_texture.
  - unfold ggl_texGeni. repeat case_match; try apply tracked_error; try apply tracked_refl;
      by apply tracked_tmu.
  - unfold ggl_colorMask. destruct (negb _); [by apply tracked_pipe|apply tracked_refl].
  - unfold ggl_depthMask. destruct (negb _); [by apply tracked_pipe|apply tracked_refl].
  - unfold ggl_stencilMask. destruct (negb _); [by apply tracked_pipe|apply tracked_refl].
  - unfold ggl_alphaFuncx. destruct (_ || _); [apply tracked_error|].
    set (c1 := upd_state _ c). assert (tracked c c1) by by apply tracked_same.
    destruct (negb _); [by apply tracked_pipe|done].
  - unfold ggl_depthFunc. destruct (_ || _); [apply tracked_error|].
    destruct (negb _); [by apply tracked_pipe|apply tracked_refl].
  - unfold ggl_logicOp. destruct (_ || _); [apply tracked_error|].
    destruct (negb _); [by apply tracked_pipe|apply tracked_refl].
Qed.
(** *** The pick *)

Lemma pick_scanline_frame c :
  exists s i y, pick_scanline c = c <| c_scanline := s |> <| c_init_y := i |> <| c_step_y := y |>.
Proof.
  unfold pick_scanline, pick_shortcut. destruct c.
  repeat case_match; cbn; by do 3 eexists.
Qed.

Lemma ggl_pick_scanline_frame c :
  exists s i y sp, ggl_pick_scanline c =
    c <| c_scanline := s |> <| c_init_y := i |> <| c_step_y := y |> <| c_span := sp |>.
Proof.
  unfold ggl_pick_scanline. destruct (pick_scanline_frame c) as (s & i & y & ->). destruct c.
  repeat case_match; cbn; by do 4 eexists.
Qed.

Lemma pick_read_write_format s : sf_format (pick_read_write s) = sf_format s.
Proof. unfold pick_read_write. repeat case_match; done. Qed.

Lemma pick_texture_unit_key t g :
  texture_key (fst (pick_texture_unit t g)) = texture_key t /\
  (texture_ok t -> texture_ok (fst (pick_texture_unit t g))).
Proof.
  unfold pick_texture_unit. destruct (_ || _); [done|]. split; [|done].
  unfold texture_key, needs_texture. cbn [fst tx_surface upd tx_enable tx_env tx_s_coord tx_t_coord
    tx_s_wrap tx_t_wrap tx_mag_filter tx_min_filter]. by rewrite pick_read_write_format.
Qed.

Lemma pick_texture_two c t0 t1 :
  st_texture (c_state c) = [t0; t1] -> length (c_gen_tex c) = 2%nat ->
  exists g0 g1, 
    ggl_pick_texture c =
      upd_state (fun st => st <| st_texture := [fst (pick_texture_unit t0 g0); fst (pick_texture_unit t1 g1)] |>) c
        <| c_gen_tex := [snd (pick_texture_unit t0 g0); snd (pick_texture_unit t1 g1)] |>.
Proof.
  intros E Hg. unfold ggl_pick_texture. rewrite E.
  destruct (c_gen_tex c) as [|g0 [|g1 [|? ?]]] eqn:Eg; try done. by exists g0, g1.
Qed.

Lemma pick_cb_frame c :
  exists s, ggl_pick_cb c = upd_buffers (fun b => b <| fb_color := s |>) c /\
    sf_format s = cb_format c /\ sf_width s = sf_width (fb_color (st_buffers (c_state c))) /\
    sf_height s = sf_height (fb_color (st_buffers (c_state c))).
Proof.
  unfold ggl_pick_cb, cb_format. destruct (sf_dirty _ =? 0).
  - exists (fb_color (st_buffers (c_state c))). by destruct c as [? [[] ? ? ? ? ? ? ? ? ? ? ? ? ?] ? ? ? ? ? ? ? ? ? ? ? ?].
  - eexists. split; [reflexivity|]. rewrite pick_read_write_format.
    unfold pick_read_write. repeat case_match; done.
Qed.

Lemma scissor_of_ext e cb cb' s :
  sf_width cb' = sf_width cb -> sf_height cb' = sf_height cb -> scissor_of e cb' s = scissor_of e cb s.
Proof. intros Hw Hh. unfold scissor_of. by rewrite Hw, Hh. Qed.

(** What [ggl_pick] changes when the state is dirty. *)
Lemma pick_effect c :
  ctx_ok c -> c_dirty c <> 0 ->
  ctx_ok (ggl_pick c) /\ c_dirty (ggl_pick c) = 0 /\ pipe_key (ggl_pick c) = pipe_key c /\
  needs_pipeline_n (ggl_pick c) = needs_pipeline_n c /\
  cb_format (ggl_pick c) = cb_format c /\ enables (ggl_pick c) = enables c /\
  map texture_key (st_texture (c_state (ggl_pick c))) = map texture_key (st_texture (c_state c)) /\
  st_needs (c_state (ggl_pick c)) = fst (new_needs c).
Proof.
  intros Hc Hd. unfold ggl_pick. rewrite (proj2 (Z.eqb_neq _ _) Hd).
  destruct (new_needs c) as [n d]. cbn [fst].
  case_bool_decide as En; cbn [negb].
  - pose proof Hc as [? ? ? ? ? ? ?]. split; [by split|]. by split_and!.
  - pose proof Hc as [(t0 & t1 & E & T0 & T1 & HE0 & HE1 & Em & Et) HF HE HA HP HR HB].
    set (c1 := upd_state (fun st => st <| st_needs := n |>) c).
    destruct (pick_texture_two c1 t0 t1 E) as (g0 & g1 & ->); [by apply HB|].
    destruct (pick_texture_unit_key t0 g0) as [K0 O0]. destruct (pick_texture_unit_key t1 g1) as [K1 O1].
    set (u0 := fst (pick_texture_unit t0 g0)) in *. set (u1 := fst (pick_texture_unit t1 g1)) in *.
    match goal with |- context [ggl_pick_cb ?x] => set (c2 := x) end.
    destruct (pick_cb_frame c2) as (s & -> & Es & Ew & Eh).
    destruct (ggl_pick_scanline_frame (upd_buffers (fun b => b <| fb_color := s |>) c2)) as (x & i & y & sp & ->).
    injection K0 as K0 W0. injection K1 as K1 W1. split; [|split_and!].
    + destruct HF as (F1 & F2 & F3). split; try done.
      * exists u0, u1. rewrite K0, K1. split; [done|]. split; [by apply O0|]. split; [by apply O1|done].
      * split; [exact F1|]. split; [exact F2|]. refine (eq_trans F3 _). symmetry. by apply scissor_of_ext.
      * by destruct HB as (? & ? & _).
    + done.
    + done.
    + unfold needs_pipeline_n, needs_blend, format_of. cbn. by rewrite Es.
    + exact Es.
    + done.
    + cbn. rewrite E. cbn. unfold texture_key. by rewrite K0, K1, W0, W1.
    + done.
Qed.
Lemma clear_build_other f g v :
  field_in_word f -> field_in_word g -> Z.land (NEEDS_MASK f) (NEEDS_MASK g) = 0 ->
  clear_field f (GGL_BUILD_NEEDS v g) = GGL_BUILD_NEEDS v g.
Proof.
  intros Hf Hg H. apply Z.bits_inj'. intros i Hi. rewrite clear_field_testbit by done.
  rewrite <-(mask_testbit f) by done. unfold GGL_BUILD_NEEDS. rewrite Z.land_spec, u32_testbit by done.
  apply (f_equal (fun z => Z.testbit z i)) in H. rewrite Z.land_spec, Z.bits_0 in H.
  destruct (Z.testbit (NEEDS_MASK g) i), (Z.testbit (NEEDS_MASK f) i), (i <? 32); simpl in *;
    rewrite ?andb_true_r, ?andb_false_r; done.
Qed.

Lemma clear_cb_rest c : clear_field NEEDS_CB_FORMAT (n_rest c) = n_rest c.
Proof.
  unfold n_rest, needs_blend. unfold clear_field.
  destruct (has (enables c) GGL_ENABLE_BLENDING), (negb (bl_alpha_separate (st_blend (c_state c)) =? 0));
    rewrite !clear_lor; change (clear_bits (NEEDS_MASK NEEDS_CB_FORMAT)) with (clear_field NEEDS_CB_FORMAT);
    rewrite !(clear_build_other NEEDS_CB_FORMAT) by (in_word || reflexivity); done.
Qed.

(** Replacing the color-buffer field alone gives the right word when the rest
    was right. *)
Lemma replace_cb c n :
  clear_field NEEDS_CB_FORMAT (clear_field NEEDS_W n) =
    clear_field NEEDS_CB_FORMAT (clear_field NEEDS_W (n_rest c)) ->
  clear_field NEEDS_W (Z.lor (clear_field NEEDS_CB_FORMAT n)
    (GGL_BUILD_NEEDS (cb_format c) NEEDS_CB_FORMAT)) = clear_field NEEDS_W (needs_pipeline_n c).
Proof.
  intros H. rewrite clear_w_n, (Z.lor_comm _ (n_rest c)). unfold clear_field in *.
  rewrite !clear_lor. f_equal. rewrite clear_comm, H, clear_comm.
  fold (clear_field NEEDS_CB_FORMAT (n_rest c)). by rewrite clear_cb_rest.
Qed.

(** The needs [ggl_pick] computes from coherent ones. *)
Lemma new_needs_spec c :
  ctx_ok c -> coherent c ->
  let n := fst (new_needs c) in
  needs_p n = needs_pipeline_p c /\
  clear_field NEEDS_W (needs_n n) = clear_field NEEDS_W (needs_pipeline_n c) /\
  textures_fresh (st_texture (c_state c)) (needs_tx n) /\ length (needs_tx n) = 2%nat.
Proof.
  intros Hok [Hp Hn Hcb Ht Hl].
  destruct Hok as [(t0 & t1 & E & _) _ _ _ _ _ _].
  assert (forall m, length m = 2%nat -> textures_fresh (st_texture (c_state c)) (needs_textures c m) /\
            length (needs_textures c m) = 2%nat) as HT.
  { intros [|x0 [|x1 [|? ?]]] Hm; try done. rewrite E.
    pose proof (needs_textures_fresh c t0 t1 x0 x1 E) as HF. split; [done|].
    unfold textures_fresh in HF. cbn [map texture_key] in HF.
    by destruct (needs_textures c [x0; x1]) as [|? [|? [|? ?]]]. }
  assert (has (set_bits GGL_PIXEL_PIPELINE_STATE (c_dirty c)) GGL_TMU_STATE = has (c_dirty c) GGL_TMU_STATE)
    as Eg by by apply has_set_other.
  assert (has (set_bits GGL_PIXEL_PIPELINE_STATE (c_dirty c)) GGL_PIXEL_PIPELINE_STATE = true) as Es
    by by apply has_set_same.
  destruct (HT _ Hl) as [HT1 HT2]. clear HT E.
  unfold new_needs. fold (cb_format c).
  destruct (has (c_dirty c) GGL_CB_STATE) eqn:C, (has (enables c) GGL_ENABLE_BLENDING) eqn:B;
    rewrite ?Eg, ?Es;
    destruct (has (c_dirty c) GGL_PIXEL_PIPELINE_STATE) eqn:P, (has (c_dirty c) GGL_TMU_STATE) eqn:T;
    cbn [fst needs_p needs_n needs_tx upd]; split_and!; auto; apply replace_cb; auto.
Qed.

Lemma pick_coherent c : ctx_ok c -> coherent c -> coherent (ggl_pick c).
Proof.
  intros Hok Hc. destruct (Z.eqb_spec (c_dirty c) 0) as [E0|Hd].
  { unfold ggl_pick. by rewrite E0. }
  destruct (pick_effect c Hok Hd) as (_ & D & K & Nn & F & En & T & N).
  destruct (new_needs_spec c Hok Hc) as (N1 & N2 & N3 & N4).
  assert (n_rest (ggl_pick c) = n_rest c) as R by (apply pipe_key_rest; [done|by right]).
  split; rewrite ?N, ?D, ?En.
  - intros _. by rewrite N1, (pipe_key_p _ _ K).
  - intros _ _. by rewrite Nn.
  - intros _ _. by rewrite N2, R, clear_cb_n.
  - intros _. unfold textures_fresh in *. by rewrite T.
  - done.
Qed.

(** ** Commands and picks interleaved *)

(** The drawing entries pick the pipeline before they draw. *)
Inductive validate_proc := V_pointx | V_linex | V_recti | V_trianglex.
Definition validate (v : validate_proc) : context_t -> context_t :=
  match v with V_pointx => pointx_validate | V_linex => linex_validate
  | V_recti => recti_validate | V_trianglex => trianglex_validate end.

Inductive reachable_draw : context_t -> Prop :=
  | rd_init : reachable_draw ggl_init_context
  | rd_command c cmd c' : reachable_draw c -> command_ok cmd -> same_lod_format c cmd ->
      exec cmd c = Some c' -> reachable_draw c'
  | rd_draw c v : reachable_draw c -> reachable_draw (validate v c).

Lemma pick_dirty c : c_dirty (ggl_pick c) = 0.
Proof.
  unfold ggl_pick. destruct (Z.eqb_spec (c_dirty c) 0); [done|]. by destruct (new_needs c).
Qed.

Lemma pick_ok c : ctx_ok c -> ctx_ok (ggl_pick c).
Proof.
  intros Hok. destruct (Z.eqb_spec (c_dirty c) 0) as [E0|Hd].
  - unfold ggl_pick. by rewrite E0.
  - by destruct (pick_effect c Hok Hd).
Qed.

Lemma procs_coherent c p : coherent c -> coherent (c <| c_procs := p |>).
Proof. intros [? ? ? ? ?]. by split. Qed.

Lemma validate_pick v c : exists p, validate v c = (ggl_pick c) <| c_procs := p |>.
Proof.
  exists (c_procs (validate v c)). destruct v; reflexivity.
Qed.

Lemma validate_inv v c : ctx_ok c -> coherent c -> ctx_ok (validate v c) /\ coherent (validate v c).
Proof.
  intros Hok Hc. destruct (validate_pick v c) as [p ->].
  pose proof (pick_ok c Hok) as [? ? ? ? ? ? ?]. split; [|by apply procs_coherent, pick_coherent].
  split; try done. intros H. contradict H. apply pick_dirty.
Qed.

Lemma init_coherent : coherent ggl_init_context.
Proof. by split. Qed.

Lemma reachable_draw_inv c : reachable_draw c -> ctx_ok c /\ coherent c.
Proof.
  induction 1 as [|c cmd c' _ [Ho Hc] Hcmd Hl Hx|c v _ [Ho Hc]].
  - split; [exact init_ok|exact init_coherent].
  - split; [exact (exec_ok cmd c c' Ho Hcmd Hx)|].
    exact (tracked_coherent c c' (exec_tracked cmd c c' Hl Hx) Hc).
  - by apply validate_inv.
Qed.


(** ** The stale [W] bit *)

Definition lerp_then_texture (draw_between : bool) : option context_t :=
  c ← exec_all [C_colorBuffer 0x9000 (mk_GGLSurface 40 16 8 16 0x1000 GGL_PIXEL_FORMAT_RGB_565 0);
                C_bindTexture (mk_GGLSurface 40 16 8 16 0x2000 GGL_PIXEL_FORMAT_RGBA_8888 0);
                C_enable GGL_W_LERP] ggl_init_context;
  let c := if draw_between then validate V_trianglex c else c in
  c ← exec (C_enable GGL_TEXTURE_2D) c;
  Some (validate V_trianglex c).

(** With perspective interpolation on, enabling texturing does not mark the
    pipeline dirty although the [W] bit of the needs depends on it: after an
    intermediate draw the bit stays 0 while the state asks for 1. *)
Theorem pick_stale_w :
  exists c1 c2, lerp_then_texture true = Some c1 /\ lerp_then_texture false = Some c2 /\
    enables c1 = enables c2 /\
    GGL_READ_NEEDS NEEDS_W (needs_n (st_needs (c_state c1))) = 0 /\
    GGL_READ_NEEDS NEEDS_W (needs_n (st_needs (c_state c2))) = 1 /\
    GGL_READ_NEEDS NEEDS_W (needs_pipeline_n c1) = 1.
Proof.
  destruct (lerp_then_texture true) as [c1|] eqn:E1; [|vm_compute in E1; discriminate].
  destruct (lerp_then_texture false) as [c2|] eqn:E2; [|vm_compute in E2; discriminate].
  exists c1, c2. vm_compute in E1, E2. injection E1 as <-. injection E2 as <-.
  split_and!; reflexivity.
Qed.

(** ** Witnesses *)

Lemma example_reachable_draw : reachable_draw example_reached.
Proof.
  assert (forall cmds c, reachable_draw c -> Forall command_ok cmds ->
    Forall (fun cmd => match cmd with C_bindTextureLod _ _ => False | _ => True end) cmds ->
    forall c', exec_all cmds c = Some c' -> reachable_draw c') as H.
  { induction cmds as [|cmd cmds IH]; intros c Hc Ho Hn c' Hx; simpl in Hx; [by injection Hx as <-|].
    inversion Ho; inversion Hn; subst. destruct (exec cmd c) as [c1|] eqn:E; [|done].
    apply (IH c1); try done. apply (rd_command c cmd); try done. by destruct cmd. }
  apply (H example_commands ggl_init_context); [constructor| | |vm_compute; reflexivity];
    repeat constructor; simpl; lia.
Qed.


Lemma needs_pipeline_decode_witness :
  GGL_CLEAR + GGL_READ_NEEDS NEEDS_LOGIC_OP (needs_pipeline_n example_reached) = GGL_COPY.
Proof.
  destruct (needs_pipeline_decode example_reached) as (_ & _ & _ & _ & _ & H & _);
    [vm_compute; intuition congruence|vm_compute; intuition congruence
    |right; left; reflexivity|left; reflexivity|right; left; reflexivity|left; reflexivity|].
  exact H.
Defined.
