(* ===== verification/Clear.v ===== *)
(** * Clearing the buffers

    Models libpixelflinger/clear.cpp and the fills of
    libpixelflinger/memory_win32.cpp.  A pixel store is [store_pixel] of
    [Surface.v]; the result is [None] where packing the clear color fails an
    [assert]. *)

From S2P Require Import Prelude Fixed Names Context PixelFormat Surface PixelFlinger.

(** ** Fills *)

(** [n] stores of [size] bytes of the value [v], from [dst] on. *)
Fixpoint fill (size v : Z) (n : nat) (dst : Z) (m : mem) : mem :=
  match n with
  | O => m
  | S n => fill size v n (dst + size) (store_pixel m dst size v)
  end.

Definition memset (m : mem) (dst value size : Z) : mem := fill 1 (u8 value) (Z.to_nat size) dst m.
Definition android_memset16 (m : mem) (dst value size : Z) : mem :=
  fill 2 (u16 value) (Z.to_nat (Z.shiftr size 1)) dst m.
Definition android_memset32 (m : mem) (dst value size : Z) : mem :=
  fill 4 (u32 value) (Z.to_nat (Z.shiftr size 2)) dst m.

(** Rounds of [do ... while (--h)] on a [uint32_t]. *)
Definition countdown (h : Z) : nat := Z.to_nat (if h =? 0 then 2 ^ 32 else h).

Fixpoint fill_rows (row : mem -> Z -> mem) (stride : Z) (n : nat) (dst : Z) (m : mem) : mem :=
  match n with
  | O => m
  | S n => fill_rows row stride n (dst + stride) (row m dst)
  end.

Definition memset2d (c : context_t) (s : surface_t) (packed l t w h : Z) (m : mem) : mem :=
  let size := f_size (format_of c (sf_format s)) in
  let stride := s32 (sf_stride s * size) in
  let dst := sf_data s + u32 ((l + t * sf_stride s) * size) in
  let w := u32 (w * size) in
  let '(w, h) := if s32 w =? stride then (u32 (w * h), 1) else (w, h) in
  if size =? 1 then fill_rows (fun m dst => memset m dst packed w) stride (countdown h) dst m
  else if size =? 2 then fill_rows (fun m dst => android_memset16 m dst packed w) stride (countdown h) dst m
  else if size =? 4 then fill_rows (fun m dst => android_memset32 m dst packed w) stride (countdown h) dst m
  else m.

(** ** Clear state *)

Definition fixedToZ (z : Z) : Z := s32 (Z.shiftr (s64 (s64 (Z.shiftl z 16) - z)) 16).

Definition upd_clear (f : clear_state_t -> clear_state_t) : context_t -> context_t :=
  upd_state (fun st => st <| st_clear ::= f |>).
Definition clear_state (c : context_t) : clear_state_t := st_clear (c_state c).

(** The packed clear color, recomputed when it is marked dirty. *)
Definition clear_color (c : context_t) : option context_t :=
  let cl := clear_state c in
  if has (cl_dirty cl) GGL_COLOR_BUFFER_BIT then
    let c := upd_clear (fun cl => cl <| cl_dirty ::= clear_bits GGL_COLOR_BUFFER_BIT |>) c in
    p ← ggl_pack_color c (sf_format (fb_color (st_buffers (c_state c))))
          (gglFixedToIteratedColor (cl_r cl)) (gglFixedToIteratedColor (cl_g cl))
          (gglFixedToIteratedColor (cl_b cl)) (gglFixedToIteratedColor (cl_a cl));
    Some (upd_clear (fun cl => cl <| cl_colorPacked := GGL_HOST_TO_RGBA p |>) c)
  else Some c.

Definition clear_depth (c : context_t) : context_t :=
  let cl := clear_state c in
  if has (cl_dirty cl) GGL_DEPTH_BUFFER_BIT then
    let depth := u32 (fixedToZ (cl_depth cl)) in
    upd_clear (fun cl => cl <| cl_dirty ::= clear_bits GGL_DEPTH_BUFFER_BIT |>
                            <| cl_depthPacked := Z.lor (u32 (Z.shiftl depth 16)) depth |>) c
  else c.

(** The buffers of [mask] that exist. *)
Definition clear_mask (c : context_t) (mask : Z) : Z :=
  let b := st_buffers (c_state c) in
  let mask := if sf_format (fb_color b) =? 0 then clear_bits GGL_COLOR_BUFFER_BIT mask else mask in
  let mask := if sf_format (fb_depth b) =? 0 then clear_bits GGL_DEPTH_BUFFER_BIT mask else mask in
  if sf_format (fb_stencil b) =? 0 then clear_bits GGL_STENCIL_BUFFER_BIT mask else mask.

Definition ggl_clear (mask : Z) (cm : context_t * mem) : option (context_t * mem) :=
  let '(c, m) := cm in
  let s := st_scissor (c_state c) in
  let l := sc_left s in
  let t := sc_top s in
  let w := u32 (sc_right s - l) in
  let h := u32 (sc_bottom s - t) in
  if (w =? 0) || (h =? 0) then Some (c, m)
  else
    let mask := clear_mask c mask in
    cm ← (if has mask GGL_COLOR_BUFFER_BIT then
            c ← clear_color c;
            Some (c, memset2d c (fb_color (st_buffers (c_state c))) (cl_colorPacked (clear_state c))
                       l t w h m)
          else Some (c, m));
    let '(c, m) := cm in
    if has mask GGL_DEPTH_BUFFER_BIT then
      let c := clear_depth c in
      Some (c, memset2d c (fb_depth (st_buffers (c_state c))) (cl_depthPacked (clear_state c)) l t w h m)
    else Some (c, m).

Definition ggl_clearColorx (r g b a : Z) (c : context_t) : context_t :=
  upd_clear (fun cl => cl <| cl_r := gglClampx r |> <| cl_g := gglClampx g |>
    <| cl_b := gglClampx b |> <| cl_a := gglClampx a |>
    <| cl_dirty ::= set_bits GGL_COLOR_BUFFER_BIT |>) c.

Definition ggl_clearDepthx (depth : Z) (c : context_t) : context_t :=
  upd_clear (fun cl => cl <| cl_depth := gglClampx depth |>
    <| cl_dirty ::= set_bits GGL_DEPTH_BUFFER_BIT |>) c.

Definition ggl_clearStencil (s : Z) (c : context_t) : context_t :=
  upd_clear (fun cl => cl <| cl_stencil := s |> <| cl_dirty ::= set_bits GGL_STENCIL_BUFFER_BIT |>) c.

(** ** Fills, byte by byte *)

(** Byte [k] of a value. *)
Definition byte_of (v k : Z) : Z := u8 (Z.shiftr v (8 * k)).

Lemma store_pixel_bytes m a size v b :
  In size [1; 2; 4] ->
  store_pixel m a size v b = if (a <=? b) && (b <? a + size) then byte_of v (b - a) else m b.
Proof.
  intros Hs. unfold byte_of, store_pixel, store16, store32, store16, GGL_HOST_TO_RGBA.
  destruct (Z.leb_spec a b), (Z.ltb_spec b (a + size)); cbn [andb];
    destruct Hs as [<-|[<-|[<-|[]]]]; cbn [Z.eqb Pos.eqb]; unfold store8;
    repeat match goal with |- context [?x =? ?y] => destruct (Z.eqb_spec x y); try lia end;
    try done; subst; rewrite ?Z.shiftr_shiftr by lia; do 2 f_equal; try lia;
    replace (a - a) with 0 by lia; by rewrite Z.shiftr_0_r.
Qed.

Lemma fill_bytes size v n dst m b :
  In size [1; 2; 4] ->
  fill size v n dst m b =
  if (dst <=? b) && (b <? dst + Z.of_nat n * size) then byte_of v ((b - dst) mod size) else m b.
Proof.
  intros Hs. assert (0 < size) by (destruct Hs as [<-|[<-|[<-|[]]]]; lia).
  revert dst m. induction n as [|n IH]; intros dst m; cbn [fill].
  - destruct (Z.leb_spec dst b), (Z.ltb_spec b (dst + Z.of_nat 0 * size)); done || lia.
  - rewrite IH, store_pixel_bytes by done.
    assert (Z.of_nat (S n) * size = size + Z.of_nat n * size) as -> by lia.
    assert (0 <= Z.of_nat n * size) by nia. set (k := Z.of_nat n * size) in *. clearbody k.
    destruct (Z.leb_spec (dst + size) b), (Z.ltb_spec b (dst + size + k)),
      (Z.leb_spec dst b), (Z.ltb_spec b (dst + size)), (Z.ltb_spec b (dst + (size + k)));
      cbn [andb]; try lia; f_equal.
    + replace (b - dst) with (b - (dst + size) + 1 * size) by lia. by rewrite Z.mod_add by lia.
    + symmetry. apply Z.mod_small. lia.
Qed.

(** The bytes of the pixels [l <= x < r], [t <= y < b] of a surface, holding
    the packed value [v]; every other byte as in [m]. *)
Definition fill_rect (size : Z) (s : surface_t) (l t r b v : Z) (m : mem) : mem := fun a =>
  let o := a - sf_data s in
  let row := sf_stride s * size in
  if (t <=? o / row) && (o / row <? b) && (l * size <=? o mod row) && (o mod row <? r * size)
  then byte_of v (o mod size) else m a.

(** The addresses of a surface are computed without overflow down to row [b]. *)
Definition surface_fits (size : Z) (s : surface_t) (b : Z) : Prop :=
  0 < sf_stride s /\ sf_stride s * size < 2 ^ 31 /\ sf_stride s * b * size < 2 ^ 32.

Lemma byte_of_low v size k :
  In size [1; 2; 4] -> 0 <= k < size -> byte_of (v mod 2 ^ (8 * size)) k = byte_of v k.
Proof.
  intros Hs Hk. unfold byte_of, u8. apply Z.bits_inj'. intros i Hi.
  destruct (Z.lt_ge_cases i 8).
  - rewrite !Z.mod_pow2_bits_low, !Z.shiftr_spec, Z.mod_pow2_bits_low by lia. done.
  - by rewrite !Z.mod_pow2_bits_high by lia.
Qed.

Lemma fill_low size v n dst m b :
  In size [1; 2; 4] -> fill size (v mod 2 ^ (8 * size)) n dst m b = fill size v n dst m b.
Proof.
  intros Hs. rewrite !fill_bytes by done. destruct (_ && _); [|done].
  apply byte_of_low; [done|]. apply Z.mod_pos_bound. destruct Hs as [<-|[<-|[<-|[]]]]; lia.
Qed.

(** One row of [memset2d], for each pixel size. *)
Definition row_fill (size v w : Z) (m : mem) (dst : Z) : mem :=
  if size =? 1 then memset m dst v w
  else if size =? 2 then android_memset16 m dst v w
  else android_memset32 m dst v w.

Lemma row_fill_bytes size v k m dst a :
  In size [1; 2; 4] -> 0 <= k ->
  row_fill size v (k * size) m dst a =
  if (dst <=? a) && (a <? dst + k * size) then byte_of v ((a - dst) mod size) else m a.
Proof.
  intros Hs Hk. transitivity (fill size v (Z.to_nat k) dst m a).
  - rewrite <-fill_low by done. unfold row_fill, memset, android_memset16, android_memset32.
    destruct Hs as [<-|[<-|[<-|[]]]]; cbn [Z.eqb Pos.eqb]; do 2 f_equal; rewrite ?shiftr_div; lia || idtac.
    all: rewrite Z.div_mul; lia.
  - rewrite fill_bytes by done. by rewrite Z2Nat.id.
Qed.

Lemma fill_rows_bytes size v k row n dst m a :
  In size [1; 2; 4] -> 0 <= k * size <= row -> (size | row) -> 0 < row ->
  fill_rows (row_fill size v (k * size)) row n dst m a =
  let o := a - dst in
  if (0 <=? o) && (o <? Z.of_nat n * row) && (o mod row <? k * size)
  then byte_of v (o mod size) else m a.
Proof.
  intros Hs Hk [q Hq] Hrow. assert (0 < size) by (destruct Hs as [<-|[<-|[<-|[]]]]; lia).
  assert (0 <= k) by nia. cbn zeta.
  revert dst m. induction n as [|n IH]; intros dst m; cbn [fill_rows].
  - destruct (Z.leb_spec 0 (a - dst)), (Z.ltb_spec (a - dst) (Z.of_nat 0 * row)); done || lia.
  - rewrite IH, row_fill_bytes by done. clear IH.
    replace (a - (dst + row)) with (a - dst + (-1) * row) by lia.
    rewrite Z.mod_add by lia. replace (a - dst + (-1) * row) with (a - dst + (- q) * size) by lia.
    rewrite Z.mod_add by lia. set (o := a - dst).
    replace (Z.of_nat (S n) * row) with (row + Z.of_nat n * row) by lia.
    replace (a <? dst + k * size) with (o <? k * size) by (unfold o; lia || (destruct (Z.ltb_spec (a - dst) (k * size)), (Z.ltb_spec a (dst + k * size)); lia)).
    replace (dst <=? a) with (0 <=? o) by (unfold o; destruct (Z.leb_spec 0 (a - dst)), (Z.leb_spec dst a); lia).
    replace (o + - q * size) with (o - row) by lia.
    assert (0 <= Z.of_nat n * row) by nia. set (N := Z.of_nat n * row) in *. clearbody N o.
    assert (0 <= o < row -> o mod row = o) as Hmod by apply Z.mod_small.
    destruct (Z.leb_spec 0 (o - row)), (Z.ltb_spec (o - row) N), (Z.leb_spec 0 o),
      (Z.ltb_spec o (row + N)), (Z.ltb_spec (o mod row) (k * size)), (Z.ltb_spec o (k * size));
      cbn [andb]; done || lia.
Qed.

Lemma leb_ext x y x' y' : (x <= y <-> x' <= y') -> (x <=? y) = (x' <=? y').
Proof. intros H. destruct (Z.leb_spec x y), (Z.leb_spec x' y'); lia. Qed.
Lemma ltb_ext x y x' y' : (x < y <-> x' < y') -> (x <? y) = (x' <? y').
Proof. intros H. destruct (Z.ltb_spec x y), (Z.ltb_spec x' y'); lia. Qed.

Lemma leb_div o row t : 0 < row -> (t * row <=? o) = (t <=? o / row).
Proof.
  intros H. apply leb_ext. pose proof (Z.div_mod o row). pose proof (Z.mod_pos_bound o row). nia.
Qed.
Lemma ltb_div o row b : 0 < row -> (o <? row * b) = (o / row <? b).
Proof.
  intros H. apply ltb_ext. pose proof (Z.div_mod o row). pose proof (Z.mod_pos_bound o row). nia.
Qed.

(** Offsets inside a rectangle of rows, seen from its first byte. *)
Lemma rect_row o row l r t b :
  0 < row -> 0 <= l < r -> r <= row ->
  (t <=? o / row) && (o / row <? b) && (l <=? o mod row) && (o mod row <? r) =
  (0 <=? o - (l + t * row)) && (o - (l + t * row) <? (b - t) * row) &&
  ((o - (l + t * row)) mod row <? r - l).
Proof.
  intros H Hl Hr. pose proof (Z.div_mod o row ltac:(lia)) as E.
  pose proof (Z.mod_pos_bound o row H) as B. set (q := o / row) in *. set (p := o mod row) in *.
  clearbody q p. subst o.
  assert ((row * q + p - (l + t * row)) mod row = if l <=? p then p - l else p - l + row) as ->.
  { destruct (Z.leb_spec l p).
    - replace (_ - _) with (p - l + (q - t) * row) by lia. rewrite Z.mod_add by lia.
      apply Z.mod_small. lia.
    - replace (_ - _) with (p - l + row + (q - t - 1) * row) by lia. rewrite Z.mod_add by lia.
      apply Z.mod_small. lia. }
  destruct (Z.leb_spec l p).
  - replace (p - l <? r - l) with (p <? r) by (apply ltb_ext; lia).
    rewrite andb_true_r. f_equal. f_equal; [apply leb_ext|apply ltb_ext]; nia.
  - destruct (Z.ltb_spec (p - l + row) (r - l)); [lia|]. by rewrite ?andb_false_r.
Qed.

Lemma countdown_pos h : 0 < h -> countdown h = Z.to_nat h.
Proof. intros H. unfold countdown. destruct (Z.eqb_spec h 0); [lia|done]. Qed.

Lemma memset2d_rows c s v l t w h m :
  In (f_size (format_of c (sf_format s))) [1; 2; 4] ->
  memset2d c s v l t w h m =
  (let size := f_size (format_of c (sf_format s)) in
   let stride := s32 (sf_stride s * size) in
   let '(w', h') := if s32 (u32 (w * size)) =? stride then (u32 (u32 (w * size) * h), 1)
                    else (u32 (w * size), h) in
   fill_rows (row_fill size v w') stride (countdown h')
     (sf_data s + u32 ((l + t * sf_stride s) * size)) m).
Proof.
  intros Hs. unfold memset2d. cbn zeta.
  destruct (if s32 _ =? _ then _ else _) as [w' h'].
  destruct Hs as [<-|[<-|[<-|[]]]]; reflexivity.
Qed.

Lemma memset2d_spec c s v l t r b m a :
  let size := f_size (format_of c (sf_format s)) in
  In size [1; 2; 4] -> surface_fits size s b ->
  0 <= l < r -> r <= sf_stride s -> 0 <= t < b ->
  memset2d c s v l t (r - l) (b - t) m a = fill_rect size s l t r b v m a.
Proof.
  intros size Hs (Hst & Hrow & Htot) Hl Hr Ht.
  assert (0 < size) as H0 by (destruct Hs as [<-|[<-|[<-|[]]]]; lia).
  rewrite memset2d_rows by done. fold size. cbn zeta.
  assert (0 <= (r - l) * size <= sf_stride s * size) by nia.
  assert (sf_stride s * size <= sf_stride s * b * size) by nia.
  assert (0 <= (l + t * sf_stride s) * size < 2 ^ 32) as Hoff by nia.
  rewrite (u32_id ((l + _) * size)) by done.
  rewrite (u32_id ((r - l) * size)) by (unfold is_u32; lia).
  rewrite !s32_id by (unfold is_s32; lia).
  unfold fill_rect. set (row := sf_stride s * size) in *.
  assert (size | row) as Hdiv by (exists (sf_stride s); done).
  set (o := a - sf_data s).
  replace ((l + t * sf_stride s) * size) with (l * size + t * row) by (unfold row; lia).
  assert (a - (sf_data s + (l * size + t * row)) = o - (l * size + t * row)) as Ho by (unfold o; lia).
  assert (o = row * (o / row) + o mod row) as Eo by (apply Z.div_mod; lia).
  pose proof (Z.mod_pos_bound o row ltac:(lia)) as Bo.
  assert ((o - (l * size + t * row)) mod size = o mod size) as Em.
  { destruct Hdiv as [q ->]. replace (o - _) with (o + (- l - t * q) * size) by lia.
    by rewrite Z.mod_add by lia. }
  destruct (Z.eqb_spec ((r - l) * size) row) as [E|E].
  - assert (l = 0 /\ r = sf_stride s) as [-> Er] by (unfold row in E; nia).
    rewrite (u32_id (_ * (b - t))) by (unfold is_u32; nia).
    rewrite E. replace (row * (b - t)) with (sf_stride s * (b - t) * size) by (unfold row; lia).
    unfold countdown. change (Z.to_nat (if 1 =? 0 then 2 ^ 32 else 1)) with 1%nat. cbn [fill_rows].
    rewrite row_fill_bytes by (done || nia).
    replace (a - _) with (o - (0 * size + t * row)) by (unfold o; lia). rewrite Em. replace (_ <=? a) with (t * row <=? o) by (apply leb_ext; unfold o; lia).
    replace (a <? _) with (o <? row * b) by (apply ltb_ext; unfold row, o; nia).
    rewrite (leb_div o row t), (ltb_div o row b) by lia.
    replace (0 * size <=? _) with true by (symmetry; apply Z.leb_le; lia).
    replace (_ <? r * size) with true by (symmetry; apply Z.ltb_lt; unfold row in *; nia).
    by rewrite !andb_true_r.
  - rewrite countdown_pos by lia. rewrite fill_rows_bytes by (done || lia). cbn zeta.
    rewrite Ho, Em, Z2Nat.id by lia. rewrite rect_row; [|lia|nia|unfold row; nia].
    by replace (r * size - l * size) with ((r - l) * size) by lia.
Qed.

(** ** What a clear does *)

(** A buffer [memset2d] handles: of 8, 16 or 32 bits a pixel and large enough
    for the scissor. *)
Definition clearable (c : context_t) (s : surface_t) : Prop :=
  In (f_size (format_of c (sf_format s))) [1; 2; 4] /\
  surface_fits (f_size (format_of c (sf_format s))) s (sc_bottom (st_scissor (c_state c))) /\
  sc_right (st_scissor (c_state c)) <= sf_stride s.

Definition scissor_proper (s : scissor_t) : Prop :=
  0 <= sc_left s < sc_right s /\ sc_right s < 2 ^ 31 /\
  0 <= sc_top s < sc_bottom s /\ sc_bottom s < 2 ^ 31.

(** The packed values a clear writes. *)
Definition color_value (c : context_t) : option Z :=
  cl_colorPacked ∘ clear_state <$> clear_color c.
Definition depth_value (c : context_t) : Z := cl_depthPacked (clear_state (clear_depth c)).

Definition clear_rect (c : context_t) (s : surface_t) (v : Z) (m : mem) : mem :=
  let sc := st_scissor (c_state c) in
  fill_rect (f_size (format_of c (sf_format s))) s (sc_left sc) (sc_top sc) (sc_right sc)
    (sc_bottom sc) v m.

(** A clear of [mask] touches the buffer of [bit]. *)
Definition clears (mask bit : Z) (s : surface_t) : bool :=
  has mask bit && negb (sf_format s =? 0).

Lemma fill_rect_ext size s l t r b v m m' a :
  (forall a, m a = m' a) -> fill_rect size s l t r b v m a = fill_rect size s l t r b v m' a.
Proof. intros H. unfold fill_rect. destruct (_ && _); [done|apply H]. Qed.

(** Clearing changes nothing but the cached packed value and the dirty bits. *)
Lemma clear_color_frame c c' :
  clear_color c = Some c' -> exists cl, c' = upd_clear (fun _ => cl) c /\
    cl_depthPacked cl = cl_depthPacked (clear_state c) /\ cl_depth cl = cl_depth (clear_state c) /\
    has (cl_dirty cl) GGL_DEPTH_BUFFER_BIT = has (cl_dirty (clear_state c)) GGL_DEPTH_BUFFER_BIT.
Proof.
  unfold clear_color. destruct (has _ GGL_COLOR_BUFFER_BIT).
  - destruct (ggl_pack_color _ _ _ _ _) as [p|]; cbn; [|done]. intros [= <-].
    eexists. split; [reflexivity|]. cbn. split_and!; [done..|].
    apply has_clear_other; [done|vm_compute; intuition congruence].
  - intros [= <-]. exists (clear_state c). split; [|done]. by destruct c as [? [] ?].
Qed.

Lemma depth_value_upd c cl :
  cl_depthPacked cl = cl_depthPacked (clear_state c) -> cl_depth cl = cl_depth (clear_state c) ->
  has (cl_dirty cl) GGL_DEPTH_BUFFER_BIT = has (cl_dirty (clear_state c)) GGL_DEPTH_BUFFER_BIT ->
  depth_value (upd_clear (fun _ => cl) c) = depth_value c.
Proof.
  intros E1 E2 E3. unfold depth_value, clear_depth.
  change (clear_state (upd_clear (fun _ => cl) c)) with cl. rewrite E3.
  destruct (has (cl_dirty (clear_state c)) _); [|done].
  unfold clear_state in *. cbn. by rewrite E2.
Qed.

Lemma mask_buffer c mask bit :
  In bit [GGL_COLOR_BUFFER_BIT; GGL_DEPTH_BUFFER_BIT] ->
  has (clear_mask c mask) bit =
  clears mask bit (if bit =? GGL_COLOR_BUFFER_BIT then fb_color (st_buffers (c_state c))
                   else fb_depth (st_buffers (c_state c))).
Proof.
  intros Hb. unfold clear_mask, clears.
  assert (is_u32 GGL_COLOR_BUFFER_BIT /\ is_u32 GGL_DEPTH_BUFFER_BIT) as [U1 U2]
    by (vm_compute; intuition congruence).
  destruct Hb as [<-|[<-|[]]]; cbn [Z.eqb Pos.eqb GGL_COLOR_BUFFER_BIT GGL_DEPTH_BUFFER_BIT];
    destruct (sf_format (fb_color _) =? 0), (sf_format (fb_depth _) =? 0), (sf_format (fb_stencil _) =? 0);
    cbn [negb]; rewrite ?andb_true_r, ?andb_false_r;
    rewrite ?has_clear_other by done; rewrite ?has_clear_same by done;
    rewrite ?has_clear_other by done; done.
Qed.

Lemma clear_depth_upd cl c :
  clear_depth (upd_clear (fun _ => cl) c) =
  upd_clear (fun _ => clear_state (clear_depth (upd_clear (fun _ => cl) c))) c.
Proof. unfold clear_depth. destruct (has (cl_dirty _) _); reflexivity. Qed.

Lemma upd_clear_id c : upd_clear (fun _ => clear_state c) c = c.
Proof. by destruct c as [? [] ?]. Qed.

(** The color buffer's part of a clear. *)
Lemma clear_color_part mask c m :
  let color := fb_color (st_buffers (c_state c)) in
  let s := st_scissor (c_state c) in
  scissor_proper s -> (clears mask GGL_COLOR_BUFFER_BIT color = true -> clearable c color) ->
  (clears mask GGL_COLOR_BUFFER_BIT color = true -> is_Some (color_value c)) ->
  exists cl m',
    (if clears mask GGL_COLOR_BUFFER_BIT color then
       c1 ← clear_color c;
       Some (c1, memset2d c1 (fb_color (st_buffers (c_state c1))) (cl_colorPacked (clear_state c1))
                   (sc_left s) (sc_top s) (sc_right s - sc_left s) (sc_bottom s - sc_top s) m)
     else Some (c, m)) = Some (upd_clear (fun _ => cl) c, m') /\
    depth_value (upd_clear (fun _ => cl) c) = depth_value c /\
    forall a, m' a = (if clears mask GGL_COLOR_BUFFER_BIT color
        then clear_rect c color (default 0 (color_value c)) else id) m a.
Proof.
  intros color s (Hl & Hr & Ht & Hb) Hc Hp.
  destruct (clears mask GGL_COLOR_BUFFER_BIT color).
  - destruct (Hc eq_refl) as (Hs & Hf & Hw).
    specialize (Hp eq_refl). unfold color_value in *. destruct (clear_color c) as [c1|] eqn:Ec;
      [|by destruct Hp].
    destruct (clear_color_frame c c1 Ec) as (cl & -> & E1 & E2 & E3).
    exists cl. eexists. split; [reflexivity|]. split; [by apply depth_value_upd|].
    intros a. etransitivity; [apply memset2d_spec; cbn; done || lia|done].
  - exists (clear_state c), m. split; [by rewrite upd_clear_id|].
    split; [by rewrite upd_clear_id|done].
Qed.

(** The early return and the mask of [ggl_clear]. *)
Lemma ggl_clear_eq mask c m :
  let color := fb_color (st_buffers (c_state c)) in
  let depth := fb_depth (st_buffers (c_state c)) in
  let s := st_scissor (c_state c) in
  let w := sc_right s - sc_left s in
  let h := sc_bottom s - sc_top s in
  scissor_proper s ->
  ggl_clear mask (c, m) =
  '(c, m) ← (if clears mask GGL_COLOR_BUFFER_BIT color then
       c1 ← clear_color c;
       Some (c1, memset2d c1 (fb_color (st_buffers (c_state c1))) (cl_colorPacked (clear_state c1))
                   (sc_left s) (sc_top s) w h m)
     else Some (c, m));
  if clears mask GGL_DEPTH_BUFFER_BIT depth then
    let c := clear_depth c in
    Some (c, memset2d c (fb_depth (st_buffers (c_state c))) (cl_depthPacked (clear_state c))
               (sc_left s) (sc_top s) w h m)
  else Some (c, m).
Proof.
  intros color depth s w h (Hl & Hr & Ht & Hb). cbn [ggl_clear]. fold s.
  rewrite !u32_id by (unfold is_u32; lia).
  destruct (Z.eqb_spec (sc_right s - sc_left s) 0), (Z.eqb_spec (sc_bottom s - sc_top s) 0); try lia.
  cbn [orb]. rewrite !mask_buffer by (cbn; tauto). reflexivity.
Qed.


(** ** Pixels of a cleared surface *)

Lemma load_pixel_agree m m' a size :
  (forall k, 0 <= k < size -> m (a + k) = m' (a + k)) -> In size [1; 2; 4] ->
  load_pixel m a size = load_pixel m' a size.
Proof.
  intros H Hs. unfold load_pixel, load8, load32, load16, GGL_RGBA_TO_HOST.
  assert (m a = m' a) as E0 by (rewrite <-(Z.add_0_r a); apply H; destruct Hs as [<-|[<-|[<-|[]]]]; lia).
  destruct Hs as [<-|[<-|[<-|[]]]]; cbn [Z.eqb Pos.eqb]; rewrite ?E0; [done| |].
  - by rewrite (H 1) by lia.
  - rewrite <-!(Z.add_assoc a 2 1). change (2 + 1) with 3.
    by rewrite (H 1), (H 2), (H 3) by lia.
Qed.

Lemma fill_rect_byte size s l t r b v m x y k :
  In size [1; 2; 4] -> 0 <= x < sf_stride s -> 0 <= k < size ->
  fill_rect size s l t r b v m (sf_data s + (x + y * sf_stride s) * size + k) =
  if (t <=? y) && (y <? b) && (l <=? x) && (x <? r) then byte_of v k
  else m (sf_data s + (x + y * sf_stride s) * size + k).
Proof.
  intros Hs Hx Hk. assert (0 < size) by lia. unfold fill_rect.
  replace (sf_data s + (x + y * sf_stride s) * size + k - sf_data s)
    with (x * size + k + y * (sf_stride s * size)) by lia.
  rewrite Z.div_add, Z.mod_add, (Z.div_small (x * size + k)), (Z.mod_small (x * size + k)) by nia.
  replace (x * size + k + _) with (k + (x + y * sf_stride s) * size) by lia.
  rewrite Z.mod_add, (Z.mod_small k) by lia. cbn [Z.add].
  rewrite (leb_ext (l * size) (x * size + k) l x), (ltb_ext (x * size + k) (r * size) x r) by nia.
  done.
Qed.

Lemma fill_rect_load size s l t r b v m x y :
  In size [1; 2; 4] -> 0 <= x < sf_stride s ->
  load_pixel (fill_rect size s l t r b v m) (sf_data s + (x + y * sf_stride s) * size) size =
  if (t <=? y) && (y <? b) && (l <=? x) && (x <? r) then v mod 2 ^ (8 * size)
  else load_pixel m (sf_data s + (x + y * sf_stride s) * size) size.
Proof.
  intros Hs Hx. set (a := sf_data s + _).
  assert (1 <= size <= 4) by (destruct Hs as [<-|[<-|[<-|[]]]]; lia).
  destruct ((t <=? y) && (y <? b) && (l <=? x) && (x <? r)) eqn:E.
  - rewrite <-(load_store_pixel (fun _ => 0) a size v) by (done || (intros ?; unfold is_u8; lia)). apply load_pixel_agree; [|done].
    intros k Hk. unfold a at 1. rewrite fill_rect_byte, E, store_pixel_bytes by done.
    destruct (Z.leb_spec a (a + k)), (Z.ltb_spec (a + k) (a + size)); try lia. cbn [andb].
    f_equal. lia.
  - apply load_pixel_agree; [|done]. intros k Hk. unfold a at 1. by rewrite fill_rect_byte, E.
Qed.

(** The channel value the packing code receives, for a clear color channel. *)
Definition clear_channel (v : Z) : Z := gglFixedToIteratedColor (gglClampx v).

Lemma clear_channel_range v : is_s32 v -> 0 <= clear_channel v < 2 ^ 24.
Proof.
  intros H. unfold clear_channel, gglFixedToIteratedColor. rewrite gglClampx_spec by done.
  rewrite shiftl_mul by lia. unfold FIXED_ONE. set (k := Z.max 0 _).
  assert (0 <= k <= 65536) by lia.
  rewrite (s32_id (k * 2 ^ 8)) by (unfold is_s32; lia). rewrite s32_id by (unfold is_s32; lia). lia.
Qed.

(** Setting a clear color and clearing the color buffer sets each pixel of the
    scissor rectangle to the color packed in the buffer's format, and no other
    pixel changes. *)
Theorem clear_color_pixels r g b a c m :
  let s := fb_color (st_buffers (c_state c)) in
  let size := f_size (format_of c (sf_format s)) in
  let sc := st_scissor (c_state c) in
  is_s32 r -> is_s32 g -> is_s32 b -> is_s32 a ->
  scissor_proper sc -> sf_format s <> 0 -> clearable c s ->
  forallb (component_small (format_of c (sf_format s))) [RED; GREEN; BLUE; ALPHA] = true ->
  exists c' m' p,
    ggl_clear GGL_COLOR_BUFFER_BIT (ggl_clearColorx r g b a c, m) = Some (c', m') /\
    ggl_pack_color c (sf_format s) (clear_channel r) (clear_channel g) (clear_channel b)
      (clear_channel a) = Some p /\
    has (cl_dirty (clear_state c')) GGL_COLOR_BUFFER_BIT = false /\
    forall x y, 0 <= x < sf_stride s ->
      let addr := sf_data s + (x + y * sf_stride s) * size in
      load_pixel m' addr size =
      if (sc_top sc <=? y) && (y <? sc_bottom sc) && (sc_left sc <=? x) && (x <? sc_right sc)
      then p mod 2 ^ (8 * size) else load_pixel m addr size.
Proof.
  intros s size sc Hr Hg Hb Ha Hsc Hf Hc Hcomp.
  assert (1 <= size <= 4) as H14 by (destruct Hc as ([E|[E|[E|[]]]] & _); unfold size; lia).
  destruct (pack_color_fields c (sf_format s) _ _ _ _ Hcomp H14 (clear_channel_range r Hr)
    (clear_channel_range g Hg) (clear_channel_range b Hb) (clear_channel_range a Ha)) as [_ Ep].
  set (p := replicate_pixel _ _) in Ep.
  set (c1 := ggl_clearColorx r g b a c).
  assert (exists c2, clear_color c1 = Some c2 /\ cl_colorPacked (clear_state c2) = p /\
    has (cl_dirty (clear_state c2)) GGL_COLOR_BUFFER_BIT = false) as (c2 & E2 & Ep2 & Ed2).
  { unfold clear_color. unfold c1 at 1. cbn -[has]. rewrite has_set_same by done.
    change (ggl_pack_color _ _ _ _ _ _) with
      (ggl_pack_color c (sf_format s) (clear_channel r) (clear_channel g) (clear_channel b) (clear_channel a)).
    rewrite Ep. cbn -[has clear_bits]. eexists. split; [reflexivity|]. split; [done|].
    cbn -[has clear_bits]. apply has_clear_same. vm_compute; intuition congruence. }
  rewrite ggl_clear_eq by done.
  change (clears GGL_COLOR_BUFFER_BIT GGL_DEPTH_BUFFER_BIT _) with false.
  change (clears GGL_COLOR_BUFFER_BIT GGL_COLOR_BUFFER_BIT _) with (negb (sf_format s =? 0)).
  destruct (Z.eqb_spec (sf_format s) 0); [done|]. cbn [negb]. rewrite E2. cbn [mbind option_bind].
  destruct (clear_color_frame c1 c2 E2) as (cl & -> & _).
  eexists _, _, p. split; [reflexivity|]. split; [done|]. split; [done|].
  intros x y Hx. cbn zeta. destruct Hc as (Hs & Hfit & Hw). destruct Hsc as (Hl & _ & Ht & _).
  rewrite Ep2. etransitivity.
  - apply load_pixel_agree; [|done]. intros k Hk. apply memset2d_spec; cbn; done || lia.
  - by apply fill_rect_load.
Qed.

(** ** The cached color and a new color buffer *)

(** Clear red in a 565 buffer, attach an 8888 buffer, clear again. *)
Definition small_surface (fmt : Z) : GGLSurface := mk_GGLSurface 40 2 2 2 0x1000 fmt 0.
Definition stale_clear : option (context_t * mem) :=
  let c := ggl_colorBuffer 0x9000 (small_surface GGL_PIXEL_FORMAT_RGB_565) ggl_init_context in
  '(c, m) ← ggl_clear GGL_COLOR_BUFFER_BIT (ggl_clearColorx FIXED_ONE 0 0 FIXED_ONE c, fun _ => 0);
  ggl_clear GGL_COLOR_BUFFER_BIT
    (ggl_colorBuffer 0x9000 (small_surface GGL_PIXEL_FORMAT_RGBA_8888) c, m).

(** The packed clear color is not recomputed when the color buffer changes
    format: red cleared into an RGB 565 buffer is then cleared into an RGBA
    8888 buffer as its 16-bit encoding twice, not as red. *)
Theorem clear_stale_color :
  exists c m, stale_clear = Some (c, m) /\
    load_pixel m 0x1000 4 = 0xF800F800 /\
    ggl_pack_color c (sf_format (fb_color (st_buffers (c_state c)))) (clear_channel FIXED_ONE) 0 0
      (clear_channel FIXED_ONE) = Some 0xFF0000FF.
Proof. eexists _, _. split; [vm_compute; reflexivity|]. by split; vm_compute. Qed.

(** ** Witnesses *)

Definition clear_example : context_t := Eval vm_compute in
  ggl_depthBuffer (mk_GGLSurface 40 16 8 16 0x2000 GGL_PIXEL_FORMAT_Z_16 0)
    (ggl_clearDepthx 0x8000 (ggl_clearColorx FIXED_ONE 0x8000 0 FIXED_ONE example_reached)).


Lemma clear_color_pixels_witness :
  exists c m p, ggl_clear GGL_COLOR_BUFFER_BIT (ggl_clearColorx FIXED_ONE 0 0 0 clear_example, fun _ => 0x5A) =
    Some (c, m) /\ load_pixel m (0x1000 + (3 + 1 * 16) * 2) 2 = p mod 2 ^ 16.
Proof.
  destruct (clear_color_pixels FIXED_ONE 0 0 0 clear_example (fun _ => 0x5A))
    as (c & m & p & E & _ & _ & H); [vm_compute; intuition congruence..|reflexivity|].
  exists c, m, p. split; [exact E|].
  refine (eq_trans (H 3 1 _) _); [vm_compute; intuition congruence|reflexivity].
Defined.
