(* ===== verification/Iterators.v ===== *)
(** * Scanline iterators

    Models the vertical iterators of libpixelflinger/scanline.cpp: [init_y] and
    its variants, which start the iterators at a row, and the [step_y__*]
    functions, which move them down one row.  [draw_t] is the context together
    with the fields of [context_t] that only drawing writes, and the memory. *)

From S2P Require Import Prelude Fixed Names Context PixelFormat Surface.

(** ** Drawing state *)

Record iterators_t := mk_iterators {
  it_xl : Z; it_xr : Z; it_y : Z; it_ydady : Z; it_ydrdy : Z; it_ydgdy : Z; it_ydbdy : Z;
  it_ydzdy : Z; it_ydwdy : Z; it_ydfdy : Z }.
#[export] Instance eta_iterators : Eta iterators_t := fun r =>
  mk_iterators (it_xl r) (it_xr r) (it_y r) (it_ydady r) (it_ydrdy r) (it_ydgdy r) (it_ydbdy r)
    (it_ydzdy r) (it_ydwdy r) (it_ydfdy r).

(** One of the two coordinates [st[2]] of the texture iterators. *)
Record axis_t := mk_axis { ax_ydvdy : Z; ax_dvdx : Z; ax_dvdy : Z; ax_scale : Z }.
#[export] Instance eta_axis : Eta axis_t := fun r =>
  mk_axis (ax_ydvdy r) (ax_dvdx r) (ax_dvdy r) (ax_scale r).

Record texture_iterators_t := mk_tex_iterators { ti_s : axis_t; ti_t : axis_t }.
#[export] Instance eta_tex_iterators : Eta texture_iterators_t := fun r =>
  mk_tex_iterators (ti_s r) (ti_t r).

(** The mirror of the iterators for generated code; [gv_tex] holds the pairs
    [(dsdx, dtdx)] of the units. *)
Record generated_vars_t := mk_gen_vars {
  gv_argb : list (Z * Z); gv_dzdx : Z; gv_f : Z; gv_dfdx : Z; gv_tex : list (Z * Z) }.
#[export] Instance eta_gen_vars : Eta generated_vars_t := fun r =>
  mk_gen_vars (gv_argb r) (gv_dzdx r) (gv_f r) (gv_dfdx r) (gv_tex r).

Inductive rect_blitter := no_rect | use_rect_generic | use_rect_memcpy.

Record draw_t := mk_draw {
  d_c : context_t; d_m : mem; d_it : iterators_t; d_ti : list texture_iterators_t;
  d_gen : generated_vars_t; d_packed : Z; d_packed8888 : Z; d_rect : rect_blitter }.
#[export] Instance eta_draw : Eta draw_t := fun r =>
  mk_draw (d_c r) (d_m r) (d_it r) (d_ti r) (d_gen r) (d_packed r) (d_packed8888 r) (d_rect r).

Definition draw_enables (d : draw_t) : Z := st_enables (c_state (d_c d)).
Definition draw_shade (d : draw_t) : shade_t := c_shade (d_c d).
Definition zero_axis : axis_t := mk_axis 0 0 0 0.
Definition zero_tex_iterators : texture_iterators_t := mk_tex_iterators zero_axis zero_axis.
Definition zero_draw (c : context_t) (m : mem) : draw_t :=
  mk_draw c m (mk_iterators 0 0 0 0 0 0 0 0 0 0) [zero_tex_iterators; zero_tex_iterators]
    (mk_gen_vars [(0, 0); (0, 0); (0, 0); (0, 0)] 0 0 0 [(0, 0); (0, 0)]) 0 0 no_rect.

(** ** Starting the iterators at a row *)

Definition interpolate (y v0 dvdx dvdy : Z) : Z :=
  s32 (s32 (y * dvdy) + (v0 + Z.shiftr (s32 (dvdy + dvdx)) 1)).

(** [sy << scale], or [>> -scale] when negative. *)
Definition shift_by (v scale : Z) : Z :=
  if 0 <=? scale then s32 (Z.shiftl v scale) else Z.shiftr v (- scale).

(** One coordinate of a texture that is not mapped one to one. *)
Definition init_axis (enables ys v0 dvdx dvdy scale wrap : Z) (ax : axis_t) : axis_t :=
  let ax := ax <| ax_scale := s32 (scale + (if wrap =? GGL_CLAMP then 0 else 16)) |> in
  if has enables GGL_ENABLE_W then ax
  else
    let vy := interpolate ys v0 dvdx dvdy in
    mk_axis (shift_by vy (ax_scale ax)) (shift_by dvdx (ax_scale ax)) (shift_by dvdy (ax_scale ax))
      (ax_scale ax).

Definition one_to_one (t : texture_t) : bool :=
  (tx_s_coord t =? GGL_ONE_TO_ONE) && (tx_t_coord t =? GGL_ONE_TO_ONE).

Definition init_texture_iterators (enables ys : Z) (t : texture_t) (ti : texture_iterators_t)
    : texture_iterators_t :=
  let sh := tx_shade t in
  if one_to_one t then
    mk_tex_iterators (mk_axis (ts_is0 sh) 0 0 (ax_scale (ti_s ti)))
      (mk_axis (ts_it0 sh) 0 0 (ax_scale (ti_t ti)))
  else
    mk_tex_iterators
      (init_axis enables ys (ts_is0 sh) (ts_idsdx sh) (ts_idsdy sh) (ts_sscale sh) (tx_s_wrap t) (ti_s ti))
      (init_axis enables ys (ts_it0 sh) (ts_idtdx sh) (ts_idtdy sh) (ts_tscale sh) (tx_t_wrap t) (ti_t ti)).

(** The loop over the texture units, and the mirror it fills. *)
Definition init_textures (enables ys : Z) (d : draw_t) : draw_t :=
  let units := zip (st_texture (c_state (d_c d))) (d_ti d) in
  let ti := map (fun '(t, ti) => if tx_enable t =? 0 then ti
                                 else init_texture_iterators enables ys t ti) units in
  let mirror := fun '(t, gen) =>
    if tx_enable t =? 0 then gen
    else let s := tx_surface t in
         mk_gen_tex (sf_width s) (sf_height s) (u32 (sf_stride s)) (s32 (sf_data s)) in
  let gen := zip_with (fun '(t, ti) gen => if tx_enable t =? 0 then gen
                        else (ax_dvdx (ti_s ti), ax_dvdx (ti_t ti)))
               (zip (st_texture (c_state (d_c d))) ti) (gv_tex (d_gen d)) in
  d <| d_ti := ti |>
    <| d_c ::= fun c => c <| c_gen_tex := map mirror (zip (st_texture (c_state c)) (c_gen_tex c)) |> |>
    <| d_gen ::= fun g => g <| gv_tex := gen |> |>.

(** The stepper [init_y] chooses. *)
Definition choose_step_y (enables : Z) : step_y_proc :=
  if has enables GGL_ENABLE_FOG then use_step_y__generic
  else if has enables GGL_ENABLE_TMUS then
    if has enables GGL_ENABLE_SMOOTH then use_step_y__generic
    else if has enables GGL_ENABLE_W then use_step_y__w
    else use_step_y__tmu
  else if has enables GGL_ENABLE_SMOOTH then use_step_y__smooth
  else use_step_y__nop.

Definition choose_rect (c : context_t) : rect_blitter :=
  if decide (c_scanline c = use_scanline_memcpy) then use_rect_memcpy else use_rect_generic.

(** The flat color, packed for the color buffer and as ABGR 8888. *)
Definition pack_flat (r g b a : Z) (d : draw_t) : option draw_t :=
  p ← ggl_pack_color (d_c d) (sf_format (fb_color (st_buffers (c_state (d_c d))))) r g b a;
  q ← ggl_pack_color (d_c d) GGL_PIXEL_FORMAT_RGBA_8888 r g b a;
  Some (d <| d_packed := p |> <| d_packed8888 := q |>).

Definition init_y_zwf (ys : Z) (d : draw_t) : draw_t :=
  let sh := draw_shade d in
  if has (draw_enables d) (Z.lor GGL_ENABLE_DEPTH_TEST (Z.lor GGL_ENABLE_W GGL_ENABLE_FOG)) then
    d <| d_it ::= fun it => it
      <| it_ydzdy := interpolate ys (sh_z0 sh) (sh_dzdx sh) (sh_dzdy sh) |>
      <| it_ydwdy := interpolate ys (sh_w0 sh) (sh_dwdx sh) (sh_dwdy sh) |>
      <| it_ydfdy := interpolate ys (sh_f0 sh) (sh_dfdx sh) (sh_dfdy sh) |> |>
  else d.

Definition init_y_color (ys : Z) (d : draw_t) : option draw_t :=
  let sh := draw_shade d in
  if has (draw_enables d) GGL_ENABLE_SMOOTH then
    Some (d <| d_it ::= fun it => it
      <| it_ydrdy := interpolate ys (sh_r0 sh) (sh_drdx sh) (sh_drdy sh) |>
      <| it_ydgdy := interpolate ys (sh_g0 sh) (sh_dgdx sh) (sh_dgdy sh) |>
      <| it_ydbdy := interpolate ys (sh_b0 sh) (sh_dbdx sh) (sh_dbdy sh) |>
      <| it_ydady := interpolate ys (sh_a0 sh) (sh_dadx sh) (sh_dady sh) |> |>)
  else
    pack_flat (sh_r0 sh) (sh_g0 sh) (sh_b0 sh) (sh_a0 sh)
      (d <| d_it ::= fun it => it <| it_ydrdy := sh_r0 sh |> <| it_ydgdy := sh_g0 sh |>
                                  <| it_ydbdy := sh_b0 sh |> <| it_ydady := sh_a0 sh |> |>).

Definition init_y_gen (d : draw_t) : draw_t :=
  let sh := draw_shade d in
  let it := d_it d in
  d <| d_gen ::= fun g => mk_gen_vars
        [(it_ydady it, sh_dadx sh); (it_ydrdy it, sh_drdx sh); (it_ydgdy it, sh_dgdx sh);
         (it_ydbdy it, sh_dbdx sh)] (sh_dzdx sh) (it_ydfdy it) (sh_dfdx sh) (gv_tex g) |>.

Definition init_y (ys : Z) (d : draw_t) : option draw_t :=
  let enables := draw_enables d in
  let d := d <| d_it ::= fun it => it <| it_y := ys |> |> in
  d ← init_y_color ys (init_y_zwf ys d);
  let d := init_y_gen d in
  let d := if has enables GGL_ENABLE_TMUS then init_textures enables ys d else d in
  let step := choose_step_y enables in
  Some (d <| d_c ::= fun c => c <| c_step_y := step |> |>
          <| d_rect := match step with use_step_y__nop => choose_rect (d_c d)
                       | _ => use_rect_generic end |>).

Definition init_y_noop (y0 : Z) (d : draw_t) : option draw_t :=
  Some (d <| d_it ::= fun it => it <| it_y := y0 |> |>
          <| d_c ::= fun c => c <| c_step_y := use_step_y__nop |> |>
          <| d_rect := choose_rect (d_c d) |>).

Definition init_y_packed (y0 : Z) (d : draw_t) : option draw_t :=
  let sh := draw_shade d in
  d ← pack_flat (sh_r0 sh) (sh_g0 sh) (sh_b0 sh) (sh_a0 sh) d;
  init_y_noop y0 d.

Definition init_y_error (y0 : Z) (d : draw_t) : option draw_t := init_y_noop y0 d.

(** [c->init_y(c, y)]. *)
Definition call_init_y (y : Z) (d : draw_t) : option draw_t :=
  match c_init_y (d_c d) with
  | no_init_y => None
  | use_init_y => init_y y d
  | use_init_y_noop => init_y_noop y d
  | use_init_y_packed => init_y_packed y d
  | use_init_y_error => init_y_error y d
  end.

(** ** Stepping to the next row *)

Definition step_color (sh : shade_t) (it : iterators_t) : iterators_t :=
  it <| it_ydrdy ::= fun v => s32 (v + sh_drdy sh) |> <| it_ydgdy ::= fun v => s32 (v + sh_dgdy sh) |>
     <| it_ydbdy ::= fun v => s32 (v + sh_dbdy sh) |> <| it_ydady ::= fun v => s32 (v + sh_dady sh) |>.

Definition step_z (sh : shade_t) (it : iterators_t) : iterators_t :=
  it <| it_ydzdy ::= fun v => s32 (v + sh_dzdy sh) |>.
Definition step_w (sh : shade_t) (it : iterators_t) : iterators_t :=
  it <| it_ydwdy ::= fun v => s32 (v + sh_dwdy sh) |>.
Definition step_f (sh : shade_t) (it : iterators_t) : iterators_t :=
  it <| it_ydfdy ::= fun v => s32 (v + sh_dfdy sh) |>.
Definition step_row (it : iterators_t) : iterators_t := it <| it_y ::= fun y => s32 (y + 1) |>.

Definition step_axis (ax : axis_t) : axis_t := ax <| ax_ydvdy ::= fun v => s32 (v + ax_dvdy ax) |>.
Definition step_textures (ts : list texture_t) (ti : list texture_iterators_t)
    : list texture_iterators_t :=
  map (fun '(t, ti) => if tx_enable t =? 0 then ti
                       else mk_tex_iterators (step_axis (ti_s ti)) (step_axis (ti_t ti))) (zip ts ti).

Definition step_y__generic (d : draw_t) : draw_t :=
  let enables := draw_enables d in
  let sh := draw_shade d in
  let d := d <| d_it ::= step_row |> in
  let d := if has enables GGL_ENABLE_SMOOTH then d <| d_it ::= step_color sh |> else d in
  let d := if has enables (Z.lor GGL_ENABLE_DEPTH_TEST (Z.lor GGL_ENABLE_W GGL_ENABLE_FOG))
           then d <| d_it ::= fun it => step_f sh (step_w sh (step_z sh it)) |> else d in
  if has enables GGL_ENABLE_TMUS && negb (has enables GGL_ENABLE_W)
  then d <| d_ti ::= step_textures (st_texture (c_state (d_c d))) |> else d.

Definition step_y__nop (d : draw_t) : draw_t :=
  d <| d_it ::= fun it => step_z (draw_shade d) (step_row it) |>.

Definition step_y__smooth (d : draw_t) : draw_t :=
  d <| d_it ::= fun it => step_z (draw_shade d) (step_color (draw_shade d) (step_row it)) |>.

Definition step_y__w (d : draw_t) : draw_t :=
  d <| d_it ::= fun it => step_w (draw_shade d) (step_z (draw_shade d) (step_row it)) |>.

Definition step_y__tmu (d : draw_t) : draw_t :=
  d <| d_it ::= fun it => step_z (draw_shade d) (step_row it) |>
    <| d_ti ::= step_textures (st_texture (c_state (d_c d))) |>.

(** [c->step_y(c)]. *)
Definition call_step_y (d : draw_t) : option draw_t :=
  match c_step_y (d_c d) with
  | no_step_y => None
  | use_step_y__generic => Some (step_y__generic d)
  | use_step_y__nop => Some (step_y__nop d)
  | use_step_y__smooth => Some (step_y__smooth d)
  | use_step_y__tmu => Some (step_y__tmu d)
  | use_step_y__w => Some (step_y__w d)
  end.

(** ** Stepping down is starting lower

    The iterators the scanline routines read, given the enabled features. *)

Definition on {A} (b : bool) (v : A) : option A := if b then Some v else None.

Definition live_axes (ti : texture_iterators_t) : Z * Z * (Z * Z) :=
  (ax_ydvdy (ti_s ti), ax_dvdy (ti_s ti), (ax_ydvdy (ti_t ti), ax_dvdy (ti_t ti))).
Definition live_textures (ts : list texture_t) (ti : list texture_iterators_t) :=
  map (fun '(t, ti) => on (negb (tx_enable t =? 0)) (live_axes ti)) (zip ts ti).

Definition steps_textures (e : Z) : bool := has e GGL_ENABLE_TMUS && negb (has e GGL_ENABLE_W).

Definition live (d : draw_t) :=
  let e := draw_enables d in let it := d_it d in
  (it_y it,
   (on (has e GGL_ENABLE_DEPTH_TEST) (it_ydzdy it),
    on (has e GGL_ENABLE_W && has e GGL_ENABLE_TMUS) (it_ydwdy it),
    on (has e GGL_ENABLE_FOG) (it_ydfdy it)),
   (it_ydrdy it, it_ydgdy it, it_ydbdy it, it_ydady it),
   on (steps_textures e) (live_textures (st_texture (c_state (d_c d))) (d_ti d))).

(** Texture coordinates are 32-bit, and scaled up, not down: scaling down
    rounds. *)
Definition scales_up (t : texture_t) : Prop :=
  tx_enable t <> 0 ->
  if one_to_one t then is_s32 (ts_is0 (tx_shade t)) /\ is_s32 (ts_it0 (tx_shade t))
  else
    0 <= s32 (ts_sscale (tx_shade t) + (if tx_s_wrap t =? GGL_CLAMP then 0 else 16)) /\
    0 <= s32 (ts_tscale (tx_shade t) + (if tx_t_wrap t =? GGL_CLAMP then 0 else 16)).

(** [k] calls of [step_y]. *)
Fixpoint step_rows (k : nat) (d : draw_t) : option draw_t :=
  match k with O => Some d | S k => d ← call_step_y d; step_rows k d end.

Lemma interpolate_next y v0 dx dy :
  interpolate (s32 (y + 1)) v0 dx dy = s32 (interpolate y v0 dx dy + dy).
Proof.
  unfold interpolate. set (h := Z.shiftr _ 1). clearbody h.
  rewrite s32_mul_l, !s32_add_l, <-(Z.add_assoc (s32 (y * dy))), s32_add_l. f_equal. lia.
Qed.

Lemma shift_next v dv k : 0 <= k -> shift_by (s32 (v + dv)) k = s32 (shift_by v k + shift_by dv k).
Proof.
  intros Hk. unfold shift_by. rewrite (proj2 (Z.leb_le 0 k)) by done.
  rewrite s32_add_l, s32_add_r, !shiftl_mul, s32_mul_l by done. f_equal. lia.
Qed.

(** The live iterators at row [y], in closed form. *)
Definition axis_at (y v0 dvdx dvdy scale wrap : Z) : Z * Z :=
  let sc := s32 (scale + (if wrap =? GGL_CLAMP then 0 else 16)) in
  (shift_by (interpolate y v0 dvdx dvdy) sc, shift_by dvdy sc).

Definition texture_at (y : Z) (t : texture_t) : option (Z * Z * (Z * Z)) :=
  let sh := tx_shade t in
  on (negb (tx_enable t =? 0))
    (if one_to_one t then (ts_is0 sh, 0, (ts_it0 sh, 0))
     else (axis_at y (ts_is0 sh) (ts_idsdx sh) (ts_idsdy sh) (ts_sscale sh) (tx_s_wrap t),
           axis_at y (ts_it0 sh) (ts_idtdx sh) (ts_idtdy sh) (ts_tscale sh) (tx_t_wrap t))).

Definition color_at (e y v0 dx dy : Z) : Z := if has e GGL_ENABLE_SMOOTH then interpolate y v0 dx dy else v0.

Definition live_at (c : context_t) (y : Z) :=
  let e := st_enables (c_state c) in let sh := c_shade c in
  (y,
   (on (has e GGL_ENABLE_DEPTH_TEST) (interpolate y (sh_z0 sh) (sh_dzdx sh) (sh_dzdy sh)),
    on (has e GGL_ENABLE_W && has e GGL_ENABLE_TMUS) (interpolate y (sh_w0 sh) (sh_dwdx sh) (sh_dwdy sh)),
    on (has e GGL_ENABLE_FOG) (interpolate y (sh_f0 sh) (sh_dfdx sh) (sh_dfdy sh))),
   (color_at e y (sh_r0 sh) (sh_drdx sh) (sh_drdy sh), color_at e y (sh_g0 sh) (sh_dgdx sh) (sh_dgdy sh),
    color_at e y (sh_b0 sh) (sh_dbdx sh) (sh_dbdy sh), color_at e y (sh_a0 sh) (sh_dadx sh) (sh_dady sh)),
   on (steps_textures e) (map (texture_at y) (st_texture (c_state c)))).

Lemma has_lor e a b : has e (Z.lor a b) = has e a || has e b.
Proof.
  unfold has. rewrite Z.land_lor_distr_r.
  destruct (Z.eqb_spec (Z.land e a) 0), (Z.eqb_spec (Z.land e b) 0), (Z.eqb_spec (Z.lor (Z.land e a) (Z.land e b)) 0) as [E|E];
    cbn; try done; [|by apply Z.lor_eq_0_iff in E as []..].
  exfalso. apply E, Z.lor_eq_0_iff. by split.
Qed.

Lemma pack_flat_frame r g b a d d' : pack_flat r g b a d = Some d' ->
  exists p q, d' = d <| d_packed := p |> <| d_packed8888 := q |>.
Proof.
  unfold pack_flat. destruct (ggl_pack_color _ (sf_format _) _ _ _ _) as [p|]; simpl; [|discriminate].
  destruct (ggl_pack_color _ _ _ _ _ _) as [q|]; simpl; [|discriminate].
  intros [= <-]. by eexists _, _.
Qed.

Lemma init_axis_live enables ys v0 dvdx dvdy scale wrap ax :
  has enables GGL_ENABLE_W = false ->
  let ax := init_axis enables ys v0 dvdx dvdy scale wrap ax in
  (ax_ydvdy ax, ax_dvdy ax) = axis_at ys v0 dvdx dvdy scale wrap.
Proof. intros H. unfold init_axis, axis_at. by rewrite H. Qed.

Lemma init_texture_live enables ys t ti :
  has enables GGL_ENABLE_W = false ->
  on (negb (tx_enable t =? 0)) (live_axes (init_texture_iterators enables ys t ti)) = texture_at ys t.
Proof.
  intros H. unfold texture_at, init_texture_iterators. destruct (tx_enable t =? 0); [done|]. cbn [on negb].
  f_equal. destruct (one_to_one t); [done|]. unfold live_axes. cbn [ti_s ti_t].
  pose proof (init_axis_live enables ys (ts_is0 (tx_shade t)) (ts_idsdx (tx_shade t))
    (ts_idsdy (tx_shade t)) (ts_sscale (tx_shade t)) (tx_s_wrap t) (ti_s ti) H) as E1.
  pose proof (init_axis_live enables ys (ts_it0 (tx_shade t)) (ts_idtdx (tx_shade t))
    (ts_idtdy (tx_shade t)) (ts_tscale (tx_shade t)) (tx_t_wrap t) (ti_t ti) H) as E2.
  cbn zeta in E1, E2. by rewrite <-E1, <-E2.
Qed.

Lemma init_textures_live enables ys ts tis :
  has enables GGL_ENABLE_W = false -> length tis = length ts ->
  live_textures ts (map (fun '(t, ti) => if tx_enable t =? 0 then ti
                                         else init_texture_iterators enables ys t ti) (zip ts tis)) =
  map (texture_at ys) ts.
Proof.
  intros H. revert tis. induction ts as [|t ts IH]; intros [|ti tis] L; try done.
  cbn [zip zip_with map live_textures]. f_equal; [|apply IH; by injection L].
  rewrite <-(init_texture_live enables ys t ti H). by destruct (tx_enable t =? 0).
Qed.

Lemma step_axis_at y v0 dx dy scale wrap ax :
  0 <= s32 (scale + (if wrap =? GGL_CLAMP then 0 else 16)) ->
  (ax_ydvdy ax, ax_dvdy ax) = axis_at y v0 dx dy scale wrap ->
  (ax_ydvdy (step_axis ax), ax_dvdy (step_axis ax)) = axis_at (s32 (y + 1)) v0 dx dy scale wrap.
Proof.
  unfold axis_at. intros H [= E1 E2]. cbn. rewrite interpolate_next, shift_next by done.
  by rewrite E1, E2.
Qed.

Lemma step_texture_live y t ti :
  scales_up t -> on (negb (tx_enable t =? 0)) (live_axes ti) = texture_at y t ->
  on (negb (tx_enable t =? 0))
    (live_axes (if tx_enable t =? 0 then ti
                else mk_tex_iterators (step_axis (ti_s ti)) (step_axis (ti_t ti)))) =
  texture_at (s32 (y + 1)) t.
Proof.
  unfold texture_at. intros Hs E. destruct (Z.eqb_spec (tx_enable t) 0); [done|]. cbn [on negb] in *.
  specialize (Hs n). injection E as E. f_equal.
  unfold live_axes in *. cbn [ti_s ti_t]. destruct (one_to_one t) eqn:E1.
  - destruct Hs as (H1 & H2).
    injection E as Es Es' Et Et'. unfold step_axis. cbn.
    by rewrite Es, Es', Et, Et', !Z.add_0_r, !s32_id.
  - destruct Hs as [Hs Ht].
    injection E as Es Es' Et Et'.
    pose proof (step_axis_at y (ts_is0 (tx_shade t)) (ts_idsdx (tx_shade t)) (ts_idsdy (tx_shade t))
      (ts_sscale (tx_shade t)) (tx_s_wrap t) (ti_s ti) Hs) as P1.
    pose proof (step_axis_at y (ts_it0 (tx_shade t)) (ts_idtdx (tx_shade t)) (ts_idtdy (tx_shade t))
      (ts_tscale (tx_shade t)) (tx_t_wrap t) (ti_t ti) Ht) as P2.
    rewrite P1, P2; [done|..]; unfold axis_at; congruence.
Qed.

Lemma step_textures_live y ts tis :
  Forall scales_up ts -> length tis = length ts ->
  live_textures ts tis = map (texture_at y) ts ->
  live_textures ts (step_textures ts tis) = map (texture_at (s32 (y + 1))) ts.
Proof.
  intros Hs. revert tis. induction Hs as [|t ts Ht Hs IH]; intros [|ti tis] L E; try done.
  unfold live_textures, step_textures in *. cbn [zip zip_with map] in *.
  injection E as E1 E2. f_equal; [by apply step_texture_live|]. apply IH; [by injection L|done].
Qed.

(** What [step_y] relies on and keeps: the stepper of the enabled features. *)
Definition stepping (c : context_t) (d : draw_t) : Prop :=
  c_state (d_c d) = c_state c /\ c_shade (d_c d) = c_shade c /\
  c_step_y (d_c d) = choose_step_y (st_enables (c_state c)) /\
  length (d_ti d) = length (st_texture (c_state c)).

Lemma init_y_color_frame ys d d' : init_y_color ys d = Some d' ->
  d_c d' = d_c d /\ d_ti d' = d_ti d /\
  let e := draw_enables d in let sh := draw_shade d in
  d_it d' = (d_it d) <| it_ydrdy := color_at e ys (sh_r0 sh) (sh_drdx sh) (sh_drdy sh) |>
    <| it_ydgdy := color_at e ys (sh_g0 sh) (sh_dgdx sh) (sh_dgdy sh) |>
    <| it_ydbdy := color_at e ys (sh_b0 sh) (sh_dbdx sh) (sh_dbdy sh) |>
    <| it_ydady := color_at e ys (sh_a0 sh) (sh_dadx sh) (sh_dady sh) |>.
Proof.
  unfold init_y_color, color_at. cbn zeta. destruct (has (draw_enables d) GGL_ENABLE_SMOOTH).
  - by intros [= <-].
  - by intros (p & q & ->)%pack_flat_frame.
Qed.

(** The fields of the state [init_y] leaves, by the enabled features. *)
Lemma init_y_fields ys d d0 :
  init_y ys d = Some d0 ->
  let e := draw_enables d in let sh := draw_shade d in
  c_state (d_c d0) = c_state (d_c d) /\ c_shade (d_c d0) = c_shade (d_c d) /\
  c_step_y (d_c d0) = choose_step_y e /\
  d_ti d0 = (if has e GGL_ENABLE_TMUS then
    map (fun '(t, ti) => if tx_enable t =? 0 then ti else init_texture_iterators e ys t ti)
      (zip (st_texture (c_state (d_c d))) (d_ti d)) else d_ti d) /\
  let it := d_it d0 in it_y it = ys /\
  (has e GGL_ENABLE_DEPTH_TEST || (has e GGL_ENABLE_W || has e GGL_ENABLE_FOG) = true ->
    it_ydzdy it = interpolate ys (sh_z0 sh) (sh_dzdx sh) (sh_dzdy sh) /\
    it_ydwdy it = interpolate ys (sh_w0 sh) (sh_dwdx sh) (sh_dwdy sh) /\
    it_ydfdy it = interpolate ys (sh_f0 sh) (sh_dfdx sh) (sh_dfdy sh)) /\
  it_ydrdy it = color_at e ys (sh_r0 sh) (sh_drdx sh) (sh_drdy sh) /\
  it_ydgdy it = color_at e ys (sh_g0 sh) (sh_dgdx sh) (sh_dgdy sh) /\
  it_ydbdy it = color_at e ys (sh_b0 sh) (sh_dbdx sh) (sh_dbdy sh) /\
  it_ydady it = color_at e ys (sh_a0 sh) (sh_dadx sh) (sh_dady sh).
Proof.
  intros H e sh. unfold init_y in H. fold e in H.
  destruct (init_y_color _ _) as [d1|] eqn:E1; simpl in H; [|discriminate]. injection H as <-.
  apply init_y_color_frame in E1 as (Ec & Et & Ei). unfold init_y_zwf in *.
  change (draw_enables (d <| d_it ::= _ |>)) with e in *.
  rewrite has_lor, has_lor in *.
  destruct (has e GGL_ENABLE_DEPTH_TEST || (has e GGL_ENABLE_W || has e GGL_ENABLE_FOG)) eqn:Ez;
    destruct (has e GGL_ENABLE_TMUS); cbn in *; rewrite ?Ec, ?Et, ?Ei; cbn; split_and!; done.
Qed.

Lemma init_y_live ys d d0 :
  length (d_ti d) = length (st_texture (c_state (d_c d))) ->
  init_y ys d = Some d0 -> stepping (d_c d) d0 /\ live d0 = live_at (d_c d) ys.
Proof.
  intros L (Es & Eh & Ep & Et & Ey & Ez & Er & Eg & Eb & Ea)%init_y_fields.
  split.
  - unfold stepping. split_and!; try done. rewrite Et. destruct (has _ _); [|done].
    rewrite length_map, length_zip. lia.
  - unfold live, live_at, draw_enables, draw_shade in *. rewrite Es, Ey, Er, Eg, Eb, Ea.
    set (e := st_enables (c_state (d_c d))) in *.
    f_equal; [f_equal; f_equal|].
    + destruct (has e GGL_ENABLE_DEPTH_TEST), (has e GGL_ENABLE_W), (has e GGL_ENABLE_TMUS), (has e GGL_ENABLE_FOG);
        cbn in *; rewrite ?(proj1 (Ez eq_refl)), ?(proj1 (proj2 (Ez eq_refl))), ?(proj2 (proj2 (Ez eq_refl))); done.
    + unfold steps_textures. rewrite Et. destruct (has e GGL_ENABLE_TMUS), (has e GGL_ENABLE_W) eqn:EW; try done.
      cbn. f_equal. by apply init_textures_live.
Qed.

Lemma color_next e y v0 dx dy :
  color_at e (s32 (y + 1)) v0 dx dy =
  if has e GGL_ENABLE_SMOOTH then s32 (color_at e y v0 dx dy + dy) else color_at e y v0 dx dy.
Proof. unfold color_at. destruct (has _ _); [apply interpolate_next|done]. Qed.

(** One step: the iterators of row [y] become those of the next row. *)
Lemma step_live c d y :
  Forall scales_up (st_texture (c_state c)) -> stepping c d -> live d = live_at c y ->
  exists d', call_step_y d = Some d' /\ stepping c d' /\ live d' = live_at c (s32 (y + 1)).
Proof.
  intros Hs (Es & Eh & Ep & El) H. unfold call_step_y. rewrite Ep.
  unfold live, live_at, draw_enables in H. rewrite Es in H.
  set (e := st_enables (c_state c)) in *. injection H as Ey Ez Ew Ef Er Eg Eb Ea Et.
  unfold live, live_at, stepping, draw_enables, draw_shade. unfold choose_step_y in *. fold e.
  fold e in Ep.
  unfold step_y__generic, step_y__nop, step_y__smooth, step_y__tmu, step_y__w, draw_enables, draw_shade.
  rewrite !has_lor, Es, Eh. fold e.
  unfold steps_textures in *. rewrite !color_next, !interpolate_next.
  assert (has e GGL_ENABLE_TMUS && negb (has e GGL_ENABLE_W) = true ->
    live_textures (st_texture (c_state c)) (step_textures (st_texture (c_state c)) (d_ti d)) =
    map (texture_at (s32 (y + 1))) (st_texture (c_state c)) /\
    length (step_textures (st_texture (c_state c)) (d_ti d)) = length (st_texture (c_state c))) as HT.
  { intros E. rewrite E in Et. injection Et as Et. split; [by apply step_textures_live|].
    unfold step_textures. rewrite length_map, length_zip. lia. }
  clear Et.
  destruct (has e GGL_ENABLE_DEPTH_TEST) eqn:E1, (has e GGL_ENABLE_W) eqn:E2, (has e GGL_ENABLE_TMUS) eqn:E3,
    (has e GGL_ENABLE_FOG) eqn:E4, (has e GGL_ENABLE_SMOOTH) eqn:E5; cbn in *;
    try (destruct (HT eq_refl) as [HT1 HT2]); clear HT;
    (eexists; split; [reflexivity|]; cbn; rewrite ?Es, ?Eh, ?Ep; fold e; rewrite ?E1, ?E2, ?E3, ?E4, ?E5;
     split; [by split_and!|]);
    repeat match goal with H : on _ _ = on _ _ |- _ => injection H as H || clear H end;
    unfold on; cbn; rewrite ?HT1; congruence.
Qed.

Lemma pack_flat_total r g b a d d1 d' :
  d_c d1 = d_c d -> pack_flat r g b a d = Some d' -> exists d1', pack_flat r g b a d1 = Some d1'.
Proof.
  unfold pack_flat. intros ->. destruct (ggl_pack_color _ (sf_format _) _ _ _ _) as [p|]; simpl; [|discriminate].
  destruct (ggl_pack_color _ _ _ _ _ _) as [q|]; simpl; [|discriminate]. by eexists.
Qed.

(** Whether [init_y] succeeds does not depend on the row. *)
Lemma init_y_total ys ys' d d' : init_y ys d = Some d' -> exists d1, init_y ys' d = Some d1.
Proof.
  unfold init_y. cbn zeta. destruct (init_y_color ys _) as [d1|] eqn:E; [intros _|discriminate].
  assert (exists d2, init_y_color ys' (init_y_zwf ys' (d <| d_it ::= fun it => it <| it_y := ys' |> |>)) = Some d2) as [d2 ->];
    [|by eexists].
  revert E. unfold init_y_color, init_y_zwf.
  change (draw_enables (d <| d_it ::= _ |>)) with (draw_enables d).
  destruct (has _ (Z.lor _ _)); cbn;
    (change (st_enables (c_state (d_c d))) with (draw_enables d); unfold draw_enables;
     destruct (has _ GGL_ENABLE_SMOOTH); [by eexists|apply pack_flat_total; done]).
Qed.


Definition iter_example : draw_t := Eval vm_compute in
  zero_draw (zero_context <| c_formats := gPixelFormatInfos |>
    <| c_state ::= fun st => st <| st_enables := Z.lor GGL_ENABLE_SMOOTH (Z.lor GGL_ENABLE_TMUS GGL_ENABLE_FOG) |>
         <| st_texture := map (fun t => t <| tx_enable := 1 |>
              <| tx_shade := mk_texture_shade 100 7 9 (-6) 50 3 4 (-7) |>) (st_texture st) |> |>
    <| c_shade := mk_shade 1 2 3 4 5 6 7 8 9 10 11 12 13 14 15 16 17 18 19 20 21 |>) (fun _ => 0).

