(* ===== verification/Pipeline.v ===== *)
(** * The generic pixel pipeline

    Models the generic [scanline] of libpixelflinger/scanline.cpp and its
    helpers: texture wrapping and filtering, texture environments, coverage,
    alpha test, depth test, fog, blending and the final write.  A result is
    [None] where the code fails an [assert], divides by zero or uses a value
    it never wrote; a texel component no unit has written yet is read as 0. *)

From S2P Require Import Prelude Fixed Names Context PixelFormat Surface Iterators.

(** ** Blending *)

Definition px_get (p : pixel_t) (i : nat) : Z := nth i (px_c p) 0.
Definition px_size (p : pixel_t) (i : nat) : Z := nth i (px_s p) 0.

(** Bring two values to the larger of their widths; nothing happens when one
    of them is absent. *)
Definition rescale (u su v sv : Z) : option (Z * Z * (Z * Z)) :=
  if negb (su =? 0) && negb (sv =? 0) then
    if sv <? su then v ← ggl_expand v sv su; Some (u, su, (v, su))
    else if su <? sv then u ← ggl_expand u su sv; Some (u, sv, (v, sv))
    else Some (u, su, (v, sv))
  else Some (u, su, (v, sv)).

(** A component of [size] bits as a factor in [0, 1.0]; [def] when absent. *)
Definition blendfactor (x size def : Z) : option Z :=
  if size =? 0 then Some def
  else
    x ← (if 16 <? size then Some (Z.shiftr x (size - 16))
         else if size <? 16 then ggl_expand x size 16 else Some x);
    Some (s32 (u32 (x + Z.shiftr x 15))).

Definition one_minus (x : option Z) : option Z := x ← x; Some (s32 (FIXED_ONE - x)).

(** The four factors of [factor], in the order A, R, G, B; [r] holds the values
    from before, which [GGL_SRC_ALPHA_SATURATE] and unknown factors keep. *)
Definition blend_factor (r : option (list Z)) (factor : Z) (src dst : pixel_t) : option (list Z) :=
  let color p := map (fun i => blendfactor (px_get p i) (px_size p i) 0) [0%nat; 1%nat; 2%nat; 3%nat] in
  let alpha p := repeat (blendfactor (px_get p 0) (px_size p 0) FIXED_ONE) 4 in
  if factor =? GGL_ZERO then Some [0; 0; 0; 0]
  else if factor =? GGL_ONE then Some [FIXED_ONE; FIXED_ONE; FIXED_ONE; FIXED_ONE]
  else if factor =? GGL_DST_COLOR then mapM id (color dst)
  else if factor =? GGL_SRC_COLOR then mapM id (color src)
  else if factor =? GGL_ONE_MINUS_DST_COLOR then mapM one_minus (color dst)
  else if factor =? GGL_ONE_MINUS_SRC_COLOR then mapM one_minus (color src)
  else if factor =? GGL_SRC_ALPHA then mapM id (alpha src)
  else if factor =? GGL_ONE_MINUS_SRC_ALPHA then mapM one_minus (alpha src)
  else if factor =? GGL_DST_ALPHA then mapM id (alpha dst)
  else if factor =? GGL_ONE_MINUS_DST_ALPHA then mapM one_minus (alpha dst)
  else r.

(** [src * sf + dst * df] on one component. *)
Definition blend_component (src sf dst df : Z) : Z :=
  u32 (gglMulAddx (s32 src) sf (gglMulx (s32 dst) df)).

(** Clamp to 1.0. *)
Definition blend_clamp (v s : Z) : Z :=
  if Z.shiftl 1 s <=? v then u32 (Z.shiftl 1 s - 1) else v.

(** [rescale] on the four components of two pixels. *)
Definition rescale_pixels (p q : pixel_t) : option (pixel_t * pixel_t) :=
  rs ← mapM (fun i => rescale (px_get p i) (px_size p i) (px_get q i) (px_size q i))
         [0%nat; 1%nat; 2%nat; 3%nat];
  Some (mk_pixel (map (fun r => fst (fst r)) rs) (map (fun r => snd (fst r)) rs),
        mk_pixel (map (fun r => fst (snd r)) rs) (map (fun r => snd (snd r)) rs)).

Definition blending (c : context_t) (fragment fb : pixel_t) : option pixel_t :=
  let bl := st_blend (c_state c) in
  '(fragment, fb) ← rescale_pixels fragment fb;
  sf ← blend_factor None (bl_src bl) fragment fb;
  df ← blend_factor None (bl_dst bl) fragment fb;
  let comp sf df p i := blend_component (px_get p i) (nth i sf 0) (px_get fb i) (nth i df 0) in
  let r := comp sf df fragment 1%nat in
  let g := comp sf df fragment 2%nat in
  let b := comp sf df fragment 3%nat in
  let fragment := mk_pixel [px_get fragment 0; r; g; b] (px_s fragment) in
  fs ← (if bl_alpha_separate bl =? 0 then Some (sf, df)
        else sf ← blend_factor (Some sf) (bl_src_alpha bl) fragment fb;
             df ← blend_factor (Some df) (bl_dst_alpha bl) fragment fb;
             Some (sf, df));
  let a := comp (fst fs) (snd fs) fragment 0%nat in
  Some (mk_pixel (zip_with blend_clamp [a; r; g; b] (px_s fragment)) (px_s fragment)).

(** ** Texture coordinates *)

(** A coordinate brought into a texture of [size] texels, in 16.16. *)
Definition wrapping (coord size tx_wrap : Z) : Z :=
  if tx_wrap =? GGL_REPEAT then s32 (u32 (Z.shiftr (u32 coord) 16 * size))
  else
    let clamp_min := if tx_wrap =? GGL_CLAMP then FIXED_HALF else 0 in
    let clamp_max := if tx_wrap =? GGL_CLAMP then s32 (u32 (Z.shiftl size 16) - FIXED_HALF)
                     else s32 (Z.shiftl size 16) in
    let coord := if coord <? clamp_min then clamp_min else coord in
    if clamp_max <? coord then clamp_max else coord.

(** One of the two texels on each side of a filtered sample. *)
Definition filter_index (u size wrap : Z) : Z :=
  if wrap =? GGL_REPEAT then
    let u := if u <? 0 then u + size else u in
    if size <=? u then u - size else u
  else
    let u := if u <? 0 then 0 else u in
    if size <=? u then size - 1 else u.

(** The weights of the four texels, from the fractions of the coordinates. *)
Definition filter_weights (u v : Z) : list Z :=
  let u := Z.land (Z.shiftr u 12) 0xF in
  let v := Z.land (Z.shiftr v 12) 0xF in
  let u := u + Z.shiftr u 3 in
  let v := v + Z.shiftr v 3 in
  let m0 := (0x10 - u) * (0x10 - v) in
  let m1 := (0x10 - u) * v in
  let m2 := u * (0x10 - v) in
  [m0; m1; m2; 0x100 - (m0 + m1 + m2)].

Definition filter_component (mm : list Z) (texels : list pixel_t) (j : nat) : Z :=
  u32 (fold_right Z.add 0 (zip_with (fun m t => px_get t j * m) mm texels)).

(** Read the texel(s) at [(u, v)]; [texel] is the previous texel. *)
Definition read_texture (m : mem) (c : context_t) (tx : texture_t) (u v : Z) (texel : pixel_t)
    : option pixel_t :=
  let s := tx_surface tx in
  if (tx_mag_filter tx =? GGL_NEAREST) && (tx_min_filter tx =? GGL_NEAREST) then
    surface_read m c s (u32 (Z.shiftr u 16)) (u32 (Z.shiftr v 16)) texel
  else
    let u := s32 (u - FIXED_HALF) in
    let v := s32 (v - FIXED_HALF) in
    let u0 := filter_index (Z.shiftr u 16) (sf_width s) (tx_s_wrap tx) in
    let u1 := filter_index (Z.shiftr u 16 + 1) (sf_width s) (tx_s_wrap tx) in
    let v0 := filter_index (Z.shiftr v 16) (sf_height s) (tx_t_wrap tx) in
    let v1 := filter_index (Z.shiftr v 16 + 1) (sf_height s) (tx_t_wrap tx) in
    let blank := mk_pixel [0; 0; 0; 0] [0; 0; 0; 0] in
    ts ← mapM (fun '(u, v) => surface_read m c s (u32 u) (u32 v) blank)
           [(u0, v0); (u0, v1); (u1, v0); (u1, v1)];
    let mm := filter_weights u v in
    let size j := px_size (nth 0 ts blank) j in
    let js := [0%nat; 1%nat; 2%nat; 3%nat] in
    Some (mk_pixel
      (map (fun j => if size j =? 0 then px_get texel j else filter_component mm ts j) js)
      (map (fun j => if size j =? 0 then 0 else u8 (size j + 8)) js)).

(** ** Texture environment *)

(** [factor = Ct + (Ct >> (st - 1))]. *)
Definition texel_factor (Ct st : Z) : Z := u32 (Ct + Z.shiftr Ct (st - 1)).

(** The constant color of unit [i] scaled to [sf] bits. *)
Definition env_constant (tx : texture_t) (i sf : Z) : Z :=
  let Cc := nth (Z.to_nat i) (tx_env_color tx) 0 in
  if 8 <? sf then Z.shiftr (u32 (Cc * (Z.shiftl 1 sf - 1))) 8
  else if sf <? 8 then Z.shiftr (u32 (Cc - Z.shiftr Cc (8 - sf))) (8 - sf)
  else Cc.

(** Component [j] of the fragment and the texel after the environment of unit
    [i]: the pairs of value and width of both. *)
Definition tex_env_component (tx : texture_t) (i Cf sf Ct st At sat : Z)
    : option (Z * Z * (Z * Z)) :=
  let env := tx_env tx in
  if env =? GGL_REPLACE then
    Some (if st =? 0 then (Cf, sf, (Ct, st)) else (Ct, st, (Ct, st)))
  else if env =? GGL_MODULATE then
    Some (if st =? 0 then (Cf, sf, (Ct, st))
          else (Z.shiftr (u32 (Cf * texel_factor Ct st)) st, sf, (Ct, st)))
  else if env =? GGL_DECAL then
    if sat =? 0 then Some (Cf, sf, (Ct, st))
    else
      '(Cf, sf, (Ct, st)) ← rescale Cf sf Ct st;
      Some (u32 (Cf + Z.shiftr (u32 (u32 (Ct - Cf) * texel_factor At sat)) sat), sf, (Ct, st))
  else if env =? GGL_BLEND then
    Some (if st =? 0 then (Cf, sf, (Ct, st))
          else
            let Cc := env_constant tx i sf in
            (Z.shiftr (u32 (u32 (Z.shiftl 1 st - texel_factor Ct st) * Cf + Ct * Cc)) st, sf, (Ct, st)))
  else if env =? GGL_ADD then
    if st =? 0 then Some (Cf, sf, (Ct, st))
    else
      '(Cf, sf, (Ct, st)) ← rescale Cf sf Ct st;
      Some (u32 (Cf + Ct), sf, (Ct, st))
  else Some (Cf, sf, (Ct, st)).

Definition set_component (p : pixel_t) (j : nat) (v s : Z) : pixel_t :=
  mk_pixel (<[j := v]> (px_c p)) (<[j := s]> (px_s p)).

(** The loop over the components, alpha first: later components see the alpha
    of the texel as the first round left it. *)
Definition tex_env (tx : texture_t) (i : Z) (fragment texel : pixel_t) : option (pixel_t * pixel_t) :=
  foldl (fun st j =>
      '(fragment, texel) ← st;
      '(cf, sf, (ct, st)) ← tex_env_component tx i (px_get fragment j) (px_size fragment j)
                              (px_get texel j) (px_size texel j) (px_get texel 0) (px_size texel 0);
      Some (set_component fragment j cf sf, set_component texel j ct st))
    (Some (fragment, texel)) [0%nat; 1%nat; 2%nat; 3%nat].

(** ** One texture unit *)

(** The coordinate of a unit at the current pixel, and the iterator after it. *)
Definition unit_coord (coord size wrap tc dv v0 p : Z) : Z * Z :=
  if negb (coord =? GGL_ONE_TO_ONE) then (wrapping tc size wrap, s32 (tc + dv))
  else (s32 (u32 (Z.shiftl (u32 (Z.shiftr v0 16 + p)) 16) + FIXED_HALF), tc).

Definition texture_unit (m : mem) (c : context_t) (i x y : Z) (tx : texture_t) (ti : texture_iterators_t)
    (tc : Z * Z) (fragment texel : pixel_t) : option (Z * Z * (pixel_t * pixel_t)) :=
  if tx_enable tx =? 0 then Some (tc, (fragment, texel))
  else
    let s := tx_surface tx in
    let '(u, tcs) := unit_coord (tx_s_coord tx) (sf_width s) (tx_s_wrap tx) (fst tc)
                       (ax_dvdx (ti_s ti)) (ts_is0 (tx_shade tx)) x in
    let '(v, tct) := unit_coord (tx_t_coord tx) (sf_height s) (tx_t_wrap tx) (snd tc)
                       (ax_dvdx (ti_t ti)) (ts_it0 (tx_shade tx)) y in
    texel ← read_texture m c tx u v texel;
    ft ← tex_env tx i fragment texel;
    Some ((tcs, tct), ft).

(** The loop over the units; [units] pairs each unit with its iterators and
    coordinates. *)
Fixpoint texture_units (m : mem) (c : context_t) (i x y : Z)
    (units : list (texture_t * texture_iterators_t * (Z * Z))) (fragment texel : pixel_t)
    : option (list (Z * Z) * (pixel_t * pixel_t)) :=
  match units with
  | [] => Some ([], (fragment, texel))
  | (tx, ti, tc) :: units =>
      '(tc, (fragment, texel)) ← texture_unit m c i x y tx ti tc fragment texel;
      '(tcs, ft) ← texture_units m c (i + 1) x y units fragment texel;
      Some (tc :: tcs, ft)
  end.

(** ** Fragment operations *)

(** A comparison function; unknown ones pass. *)
Definition compare (func a b : Z) : bool :=
  if func =? GGL_NEVER then false
  else if func =? GGL_LESS then a <? b
  else if func =? GGL_EQUAL then a =? b
  else if func =? GGL_LEQUAL then a <=? b
  else if func =? GGL_GREATER then b <? a
  else if func =? GGL_NOTEQUAL then negb (a =? b)
  else if func =? GGL_GEQUAL then b <=? a
  else true.

Definition apply_coverage (cf : Z) (p : pixel_t) : pixel_t :=
  mk_pixel (<[0%nat := u32 (Z.shiftr (px_get p 0 * cf) 15)]> (px_c p)) (px_s p).

(** The alpha test; [None] is a division by zero, on an absent alpha. *)
Definition alpha_test (c : context_t) (p : pixel_t) : option bool :=
  let one := Z.shiftl 1 (px_size p 0) - 1 in
  if one =? 0 then None
  else
    let alpha := s32 (px_get p 0 * (Z.shiftl 1 GGL_COLOR_BITS - 1) / one) in
    Some (compare (at_func (st_alpha_test (c_state c))) alpha (at_ref (st_alpha_test (c_state c)))).

Definition depth_address (s : surface_t) (x y : Z) : Z :=
  sf_data s + 2 * u32 (x + u32 (sf_stride s * y)).

(** The depth test: whether the fragment passes, and the memory after it. *)
Definition depth_test (c : context_t) (m : mem) (x y z : Z) : bool * mem :=
  let st := c_state c in
  let db := fb_depth (st_buffers st) in
  if negb (sf_format db =? 0) && has (st_enables st) GGL_ENABLE_DEPTH_TEST then
    let p := depth_address db x y in
    let zz := Z.shiftr (u32 z) 16 in
    if compare (dt_func (st_depth_test st)) zz (load16 m p) then
      (true, if mk_depth (st_mask st) =? 0 then m else store16 m p zz)
    else (false, m)
  else (true, m).

(** Fog on one color component; [None] is a division by zero. *)
Definition fog_component (fog f v s : Z) : option Z :=
  let one := Z.shiftl 1 s - 1 in
  if one =? 0 then None
  else
    let fc := Z.quot (fog * 0x10000) 0xFF in
    let v := u32 (v * 0x10000) / one in
    Some (u32 (gglMulAddx (s32 v) f (gglMulx fc (s32 (0x10000 - f))))).

Definition apply_fog (c : context_t) (f : Z) (p : pixel_t) : option pixel_t :=
  let fog i := nth i (st_fog_color (c_state c)) 0 in
  r ← fog_component (fog 1%nat) f (px_get p 1) (px_size p 1);
  g ← fog_component (fog 2%nat) f (px_get p 2) (px_size p 2);
  b ← fog_component (fog 3%nat) f (px_get p 3) (px_size p 3);
  Some (mk_pixel [px_get p 0; r; g; b] [px_size p 0; 16; 16; 16]).

Definition surface_write (m : mem) (c : context_t) (s : surface_t) (x y : Z) (p : pixel_t) : option mem :=
  match sf_write s with no_writer => None | use_write_pixel => write_pixel m c s x y p end.

(** Fog, blending and the write of a fragment that passed the tests. *)
Definition output_fragment (c : context_t) (m : mem) (x y f : Z) (p : pixel_t) : option mem :=
  let e := st_enables (c_state c) in
  let cb := fb_color (st_buffers (c_state c)) in
  p ← (if has e GGL_ENABLE_FOG then apply_fog c f p else Some p);
  p ← (if has e GGL_ENABLE_BLENDING then
         fb ← surface_read m c cb x y (mk_pixel [0; 0; 0; 0] [0; 0; 0; 0]);
         blending c p fb
       else Some p);
  surface_write m c cb x y p.

(** From the textured fragment to memory; [cov] is the address of its coverage. *)
Definition finish_fragment (c : context_t) (m : mem) (cov x y z f : Z) (p : pixel_t) : option mem :=
  let e := st_enables (c_state c) in
  let p := if has e GGL_ENABLE_AA then apply_coverage (s16 (load16 m cov)) p else p in
  pass ← (if has e GGL_ENABLE_ALPHA_TEST then alpha_test c p else Some true);
  if negb pass then Some m
  else
    let '(pass, m) := depth_test c m x y z in
    if negb pass then Some m else output_fragment c m x y f p.

(** ** The scanline loop *)

Definition ADJUST_COLOR_ITERATOR (v dvdx len : Z) : Z :=
  let last := s32 (s32 (dvdx * (len - 1)) + v) in
  let v := if last <? 0 then s32 (v - last) else v in
  Z.land v (Z.lnot (Z.shiftr v 31)).

(** The registers of the loop. *)
Record span_t := mk_span {
  sp_r : Z; sp_g : Z; sp_b : Z; sp_a : Z; sp_z : Z; sp_f : Z; sp_tc : list (Z * Z);
  sp_x : Z; sp_cov : Z; sp_texel : pixel_t; sp_m : mem }.
#[export] Instance eta_span : Eta span_t := fun s =>
  mk_span (sp_r s) (sp_g s) (sp_b s) (sp_a s) (sp_z s) (sp_f s) (sp_tc s) (sp_x s) (sp_cov s)
    (sp_texel s) (sp_m s).

Definition start_color (e xs xc v0 dvdx : Z) : Z :=
  if has e GGL_ENABLE_SMOOTH then ADJUST_COLOR_ITERATOR (s32 (s32 (xs * dvdx) + v0)) dvdx xc else v0.

Definition start_coord (e xs : Z) (ti : texture_iterators_t) : Z * Z :=
  if has e GGL_ENABLE_W then (ax_ydvdy (ti_s ti), ax_ydvdy (ti_t ti))
  else (s32 (s32 (xs * ax_dvdx (ti_s ti)) + ax_ydvdy (ti_s ti)),
        s32 (s32 (xs * ax_dvdx (ti_t ti)) + ax_ydvdy (ti_t ti))).

Definition start_span (d : draw_t) : span_t :=
  let e := draw_enables d in
  let sh := draw_shade d in
  let it := d_it d in
  let xs := it_xl it in
  let xc := s32 (it_xr it - xs) in
  mk_span (start_color e xs xc (it_ydrdy it) (sh_drdx sh)) (start_color e xs xc (it_ydgdy it) (sh_dgdx sh))
    (start_color e xs xc (it_ydbdy it) (sh_dbdx sh)) (start_color e xs xc (it_ydady it) (sh_dadx sh))
    (s32 (s32 (xs * sh_dzdx sh) + it_ydzdy it)) (s32 (s32 (xs * sh_dfdx sh) + it_ydfdy it))
    (map (start_coord e xs) (d_ti d)) (u32 xs)
    (fb_coverage (st_buffers (c_state (d_c d))) + 2 * xs)
    (mk_pixel [0; 0; 0; 0] [0; 0; 0; 0]) (d_m d).

(** The fragment's color, 8 bits a component. *)
Definition start_fragment (s : span_t) : pixel_t :=
  mk_pixel (map (fun v => u32 (Z.shiftr v (GGL_COLOR_BITS - 8))) [sp_a s; sp_r s; sp_g s; sp_b s]) [8; 8; 8; 8].

(** One pixel of the loop. *)
Definition span_pixel (d : draw_t) (s : span_t) : option span_t :=
  let c := d_c d in
  let e := draw_enables d in
  let sh := draw_shade d in
  let y := u32 (it_y (d_it d)) in
  let units := zip (zip (st_texture (c_state c)) (d_ti d)) (sp_tc s) in
  '(tc, (fragment, texel)) ←
    (if has e GGL_ENABLE_TMUS
     then texture_units (sp_m s) c 0 (sp_x s) y units (start_fragment s) (sp_texel s)
     else Some (sp_tc s, (start_fragment s, sp_texel s)));
  m ← finish_fragment c (sp_m s) (sp_cov s) (sp_x s) y (sp_z s) (sp_f s) fragment;
  let smooth v dv := if has e GGL_ENABLE_SMOOTH then s32 (v + dv) else v in
  Some (mk_span (smooth (sp_r s) (sh_drdx sh)) (smooth (sp_g s) (sh_dgdx sh)) (smooth (sp_b s) (sh_dbdx sh))
          (smooth (sp_a s) (sh_dadx sh)) (s32 (sp_z s + sh_dzdx sh)) (s32 (sp_f s + sh_dfdx sh))
          tc (u32 (sp_x s + 1)) (if has e GGL_ENABLE_AA then sp_cov s + 2 else sp_cov s) texel m).

Fixpoint span_loop (n : nat) (d : draw_t) (s : span_t) : option span_t :=
  match n with O => Some s | S n => s ← span_pixel d s; span_loop n d s end.

(** The whole scanline; a negative count would run for 2^32 rounds. *)
Definition scanline (d : draw_t) : option draw_t :=
  let xc := s32 (it_xr (d_it d) - it_xl (d_it d)) in
  if xc <? 0 then None
  else s ← span_loop (Z.to_nat xc) d (start_span d); Some (d <| d_m := sp_m s |>).
