(* ===== verification/Shortcuts.v ===== *)
(** * The specialised scanlines

    Models the hand-written scanline routines of libpixelflinger/scanline.cpp
    that [pick_scanline] prefers to the generic one, with the source
    iterators, the ditherer and the blenders they are built from.  A result is
    [None] where the code writes through a pointer it never set. *)

From S2P Require Import Prelude Fixed Names Context PixelFormat Surface Clear Iterators.

(** ** Pixel conversion *)

Definition convertAbgr8888ToRgb565 (pix : Z) : Z :=
  u16 (Z.lor (Z.lor (Z.land (Z.shiftl pix 8) 0xf800) (Z.land (Z.shiftr pix 5) 0x07e0))
         (Z.land (Z.shiftr pix 19) 0x001f)).

(** ** Source iterators

    Each iterator has a state and a function from the memory and the state to
    the next pixel and the next state. *)

Definition source_texture (d : draw_t) : texture_t := nth 0 (st_texture (c_state (d_c d))) zero_texture.
Definition source_iterators (d : draw_t) : texture_iterators_t := nth 0 (d_ti d) zero_tex_iterators.

(** The address of the pixel [(x, y)] of [size] bytes, by a 32-bit index. *)
Definition pixel_at (s : surface_t) (size x y : Z) : Z :=
  sf_data s + size * s32 (x + s32 (sf_stride s * y)).

(** One to one. *)
Definition horz_iterator (size : Z) (d : draw_t) : Z :=
  let tx := source_texture d in
  let u := s32 (Z.shiftr (ts_is0 (tx_shade tx)) 16 + it_xl (d_it d)) in
  let v := s32 (Z.shiftr (ts_it0 (tx_shade tx)) 16 + it_y (d_it d)) in
  pixel_at (tx_surface tx) size u v.

Definition horz_get_pixel32 (m : mem) (src : Z) : Z * Z := (load32 m src, src + 4).
Definition horz_get_pixel16 (m : mem) (src : Z) : Z * Z := (load16 m src, src + 2).

(** Inside a texture, clamped. *)
Record clamp_iterator := mk_clamp {
  ci_s : Z; ci_t : Z; ci_ds : Z; ci_dt : Z; ci_width_m1 : Z; ci_height_m1 : Z;
  ci_data : Z; ci_stride : Z }.

Definition start_clamp (d : draw_t) : clamp_iterator :=
  let ti := source_iterators d in
  let s := tx_surface (source_texture d) in
  let xs := it_xl (d_it d) in
  mk_clamp (s32 (s32 (xs * ax_dvdx (ti_s ti)) + ax_ydvdy (ti_s ti)))
    (s32 (s32 (xs * ax_dvdx (ti_t ti)) + ax_ydvdy (ti_t ti)))
    (ax_dvdx (ti_s ti)) (ax_dvdx (ti_t ti)) (s32 (u32 (sf_width s - 1))) (s32 (u32 (sf_height s - 1)))
    (sf_data s) (sf_stride s).

Definition clamp_to (u last : Z) : Z :=
  let u := if u <? 0 then 0 else u in if last <? u then last else u.

Definition get_uv (ci : clamp_iterator) : Z * Z * clamp_iterator :=
  (clamp_to (Z.shiftr (ci_s ci) 16) (ci_width_m1 ci), clamp_to (Z.shiftr (ci_t ci) 16) (ci_height_m1 ci),
   mk_clamp (s32 (ci_s ci + ci_ds ci)) (s32 (ci_t ci + ci_dt ci)) (ci_ds ci) (ci_dt ci)
     (ci_width_m1 ci) (ci_height_m1 ci) (ci_data ci) (ci_stride ci)).

Definition clamp_get_pixel (size : Z) (load : mem -> Z -> Z) (m : mem) (ci : clamp_iterator)
    : Z * clamp_iterator :=
  let '(u, v, ci') := get_uv ci in
  (load m (ci_data ci + size * s32 (u + s32 (ci_stride ci * v))), ci').
Definition clamp_get_pixel16 := clamp_get_pixel 2 load16.
Definition clamp_get_pixel32 := clamp_get_pixel 4 load32.

(** Along one row of the texture, clamped. *)
Definition is_context_horizontal (d : draw_t) : bool := ax_dvdx (ti_t (source_iterators d)) =? 0.

Record horz_clamp_iterator := mk_horz_clamp { hc_s : Z; hc_ds : Z; hc_width_m1 : Z; hc_data : Z }.

Definition start_horz_clamp (d : draw_t) (shift : Z) : horz_clamp_iterator :=
  let ti := source_iterators d in
  let s := tx_surface (source_texture d) in
  let xs := it_xl (d_it d) in
  let t := s32 (s32 (xs * ax_dvdx (ti_t ti)) + ax_ydvdy (ti_t ti)) in
  let v := Z.shiftr t 16 in
  let v := if v <? 0 then 0 else if s32 (sf_height s) <=? v then s32 (s32 (sf_height s) - 1) else v in
  mk_horz_clamp (s32 (s32 (xs * ax_dvdx (ti_s ti)) + ax_ydvdy (ti_s ti))) (ax_dvdx (ti_s ti))
    (s32 (u32 (sf_width s - 1))) (sf_data s + s32 (Z.shiftl (s32 (sf_stride s * v)) shift)).

Definition horz_clamp_get (size : Z) (load : mem -> Z -> Z) (m : mem) (ci : horz_clamp_iterator)
    : Z * horz_clamp_iterator :=
  let u := Z.shiftr (hc_s ci) 16 in
  (load m (hc_data ci + size * clamp_to u (hc_width_m1 ci)),
   mk_horz_clamp (s32 (hc_s ci + hc_ds ci)) (hc_ds ci) (hc_width_m1 ci) (hc_data ci)).
Definition horz_clamp_get_pixel16 := horz_clamp_get 2 load16.
Definition horz_clamp_get_pixel32 := horz_clamp_get 4 load32.

(** ** Dithering *)

(** A row of the dither matrix and the position in it. *)
Record ditherer := mk_ditherer { di_line : list Z; di_index : Z }.

Definition start_ditherer (d : draw_t) : ditherer :=
  let row := Z.shiftl (Z.land (it_y (d_it d)) GGL_DITHER_MASK) GGL_DITHER_ORDER_SHIFT in
  mk_ditherer (drop (Z.to_nat row) (c_ditherMatrix (d_c d))) (Z.land (it_xl (d_it d)) GGL_DITHER_MASK).

Definition dither_step (di : ditherer) : ditherer := mk_ditherer (di_line di) (di_index di + 1).

Definition get_value (di : ditherer) : Z * ditherer :=
  (nth (Z.to_nat (Z.land (di_index di) GGL_DITHER_MASK)) (di_line di) 0, dither_step di).

Definition rgb888ToRgb565 (r g b : Z) (di : ditherer) : Z * ditherer :=
  let '(threshold, di) := get_value di in
  let r := u32 (r + Z.shiftr threshold (GGL_DITHER_BITS - 8 + 5)) in
  let g := u32 (g + Z.shiftr threshold (GGL_DITHER_BITS - 8 + 6)) in
  let b := u32 (b + Z.shiftr threshold (GGL_DITHER_BITS - 8 + 5)) in
  let r := if 0xff <? r then 0xff else r in
  let g := if 0xff <? g then 0xff else g in
  let b := if 0xff <? b then 0xff else b in
  (u16 (Z.lor (Z.lor (Z.shiftl (Z.land r 0xf8) 8) (Z.shiftl (Z.land g 0xfc) 3)) (Z.shiftr b 3)), di).

Definition abgr8888ToRgb565 (s : Z) (di : ditherer) : Z * ditherer :=
  rgb888ToRgb565 (Z.land s 0xff) (Z.land (Z.shiftr s 8) 0xff) (Z.land (Z.shiftr s 16) 0xff) di.

(** ** Blenders *)

(** The components of a 5:6:5 pixel and back. *)
Definition dR (d : Z) : Z := Z.land (Z.shiftr d 11) 0x1f.
Definition dG (d : Z) : Z := Z.land (Z.shiftr d 5) 0x3f.
Definition dB (d : Z) : Z := Z.land d 0x1f.
Definition pack565 (r g b : Z) : Z := u16 (Z.lor (Z.lor (Z.shiftl r 11) (Z.shiftl g 5)) b).

(** The components of an ABGR 8888 pixel at 5:6:5 precision, and its alpha. *)
Definition sR (s : Z) : Z := Z.land (Z.shiftr s 3) 0x1F.
Definition sG (s : Z) : Z := Z.land (Z.shiftr s (8 + 2)) 0x3F.
Definition sB (s : Z) : Z := Z.land (Z.shiftr s (16 + 3)) 0x1F.
Definition sA (s : Z) : Z := Z.shiftr s 24.

Definition blend_over (s d : Z) : Z :=
  let f := 0x100 - (sA s + Z.shiftr (sA s) 7) in
  pack565 (sR s + Z.shiftr (f * dR d) 8) (sG s + Z.shiftr (f * dG d) 8) (sB s + Z.shiftr (f * dB d) 8).

(** [blender_32to16::write]. *)
Definition blender_32to16_write (s dst : Z) (m : mem) : mem :=
  if s =? 0 then m
  else
    let s := GGL_RGBA_TO_HOST s in
    if sA s =? 0xff then store16 m dst (convertAbgr8888ToRgb565 s)
    else store16 m dst (blend_over s (load16 m dst)).

(** A dithered channel: [s << 8] plus [f] times the destination, clamped. *)
Definition dithered (s f d threshold last : Z) : Z :=
  let v := Z.shiftr (s + f * d + threshold) 8 in if last <? v then last else v.

Definition blender_32to16_write_dither (s dst : Z) (di : ditherer) (m : mem) : mem * ditherer :=
  if s =? 0 then (m, dither_step di)
  else
    let s := GGL_RGBA_TO_HOST s in
    if sA s =? 0xff then
      let '(v, di) := abgr8888ToRgb565 s di in (store16 m dst v, di)
    else
      let '(t, di) := get_value di in
      let t := Z.shiftl t (8 - GGL_DITHER_BITS) in
      let f := 0x100 - (sA s + Z.shiftr (sA s) 7) in
      let d := load16 m dst in
      (store16 m dst (pack565 (dithered (Z.shiftl (sR s) 8) f (dR d) t 0x1f)
                        (dithered (Z.shiftl (sG s) 8) f (dG d) t 0x3f)
                        (dithered (Z.shiftl (sB s) 8) f (dB d) t 0x1f)), di).

(** [blender_32to16_srcA::write]. *)
Definition blender_32to16_srcA_write (s dst : Z) (m : mem) : mem :=
  if s =? 0 then m
  else
    let d := load16 m dst in
    let s := GGL_RGBA_TO_HOST s in
    let f1 := sA s + Z.shiftr (sA s) 7 in
    let f2 := 0x100 - f1 in
    store16 m dst (pack565 (Z.shiftr (f1 * sR s + f2 * dR d) 8) (Z.shiftr (f1 * sG s + f2 * dG d) 8)
                     (Z.shiftr (f1 * sB s + f2 * dB d) 8)).

(** The factors of the modulating blenders, in [0, 256]. *)
Record blender_modulate := mk_modulate { m_r : Z; m_g : Z; m_b : Z; m_a : Z }.

Definition start_modulate (d : draw_t) : blender_modulate :=
  let ch v := let v := Z.shiftr v (GGL_COLOR_BITS - 8) in s32 (v + Z.shiftr v 7) in
  mk_modulate (ch (it_ydrdy (d_it d))) (ch (it_ydgdy (d_it d))) (ch (it_ydbdy (d_it d)))
    (ch (it_ydady (d_it d))).

(** The modulated channels of an ABGR 8888 pixel, in 5.8 or 6.8 bits. *)
Definition mod_a (s m : Z) : Z := Z.shiftr (u32 (Z.shiftr s 24 * m)) 8.
Definition mod_b (s m : Z) : Z := Z.shiftr (u32 (Z.land (Z.shiftr s 16) 0xff * m)) (8 - 5).
Definition mod_g (s m : Z) : Z := Z.shiftr (u32 (Z.land (Z.shiftr s 8) 0xff * m)) (8 - 6).
Definition mod_r (s m : Z) : Z := Z.shiftr (u32 (Z.land s 0xff * m)) (8 - 5).

(** [(s + f * d) >> 8] on unsigned operands. *)
Definition lerp8 (s f d : Z) : Z := Z.shiftr (u32 (s + f * d)) 8.
Definition lerp8_dither (s f d t last : Z) : Z :=
  let v := Z.shiftr (u32 (s + f * d + t)) 8 in if last <? v then last else v.

Definition mod_factor (a : Z) : Z := s32 (u32 (0x100 - u32 (a + Z.shiftr a 7))).

(** [blender_32to16_modulate::write]. *)
Definition blender_32to16_modulate_write (bl : blender_modulate) (s dst : Z) (m : mem) : mem :=
  if s =? 0 then m
  else
    let s := GGL_RGBA_TO_HOST s in
    let f := mod_factor (mod_a s (m_a bl)) in
    let d := load16 m dst in
    store16 m dst (pack565 (lerp8 (mod_r s (m_r bl)) f (dR d)) (lerp8 (mod_g s (m_g bl)) f (dG d))
                     (lerp8 (mod_b s (m_b bl)) f (dB d))).

Definition blender_32to16_modulate_write_dither (bl : blender_modulate) (s dst : Z) (di : ditherer) (m : mem)
    : mem * ditherer :=
  if s =? 0 then (m, dither_step di)
  else
    let s := GGL_RGBA_TO_HOST s in
    let '(t, di) := get_value di in
    let t := Z.shiftl t (8 - GGL_DITHER_BITS) in
    let f := mod_factor (mod_a s (m_a bl)) in
    let d := load16 m dst in
    (store16 m dst (pack565 (lerp8_dither (mod_r s (m_r bl)) f (dR d) t 0x1f)
                      (lerp8_dither (mod_g s (m_g bl)) f (dG d) t 0x3f)
                      (lerp8_dither (mod_b s (m_b bl)) f (dB d) t 0x1f)), di).

(** [blender_x32to16_modulate::write]: a source without alpha. *)
Definition blender_x32to16_modulate_write (bl : blender_modulate) (s dst : Z) (m : mem) : mem :=
  let s := GGL_RGBA_TO_HOST s in
  let f := s32 (0x100 - m_a bl) in
  let d := load16 m dst in
  store16 m dst (pack565 (lerp8 (mod_r s (m_r bl)) f (dR d)) (lerp8 (mod_g s (m_g bl)) f (dG d))
                   (lerp8 (mod_b s (m_b bl)) f (dB d))).

Definition blender_x32to16_modulate_write_dither (bl : blender_modulate) (s dst : Z) (di : ditherer) (m : mem)
    : mem * ditherer :=
  let s := GGL_RGBA_TO_HOST s in
  let '(t, di) := get_value di in
  let t := Z.shiftl t (8 - GGL_DITHER_BITS) in
  let f := s32 (0x100 - m_a bl) in
  let d := load16 m dst in
  (store16 m dst (pack565 (lerp8_dither (mod_r s (m_r bl)) f (dR d) t 0x1f)
                    (lerp8_dither (mod_g s (m_g bl)) f (dG d) t 0x3f)
                    (lerp8_dither (mod_b s (m_b bl)) f (dB d) t 0x1f)), di).

(** [blender_16to16_modulate::write]. *)
Definition blender_16to16_modulate_write (bl : blender_modulate) (s dst : Z) (m : mem) : mem :=
  let f := s32 (0x100 - m_a bl) in
  let d := load16 m dst in
  store16 m dst (pack565 (lerp8 (u32 (Z.shiftr s 11 * m_r bl)) f (dR d))
                   (lerp8 (u32 (Z.land (Z.shiftr s 5) 0x3f * m_g bl)) f (dG d))
                   (lerp8 (u32 (Z.land s 0x1f * m_b bl)) f (dB d))).

(** ** The loops over the destination *)

Definition color_buffer (d : draw_t) : surface_t := fb_color (st_buffers (c_state (d_c d))).
Definition color_size (d : draw_t) : Z := f_size (format_of (d_c d) (sf_format (color_buffer d))).

(** [dst_iterator16]: the first pixel and the count. *)
Definition dst_start (d : draw_t) (size : Z) : Z := pixel_at (color_buffer d) size (it_xl (d_it d)) (it_y (d_it d)).
Definition dst_count (d : draw_t) : nat := Z.to_nat (it_xr (d_it d) - it_xl (d_it d)).

(** [n] rounds of [write(next(), dst); dst++] on 16-bit pixels. *)
Fixpoint blit16 {A B : Type} (next : mem -> A -> Z * A) (write : Z -> Z -> B -> mem -> mem * B)
    (n : nat) (a : A) (b : B) (dst : Z) (m : mem) : mem :=
  match n with
  | O => m
  | S n =>
      let '(s, a) := next m a in
      let '(m, b) := write s dst b m in
      blit16 next write n a b (dst + 2) m
  end.

(** A whole routine: source iterator, blender and its state. *)
Definition blit {A B : Type} (next : mem -> A -> Z * A) (write : Z -> Z -> B -> mem -> mem * B)
    (a : A) (b : B) (d : draw_t) : draw_t :=
  d <| d_m ::= blit16 next write (dst_count d) a b (dst_start d 2) |>.

(** Blenders without a ditherer have no state. *)
Definition plain (write : Z -> Z -> mem -> mem) : Z -> Z -> unit -> mem -> mem * unit :=
  fun s dst b m => (write s dst m, b).
Definition stored (conv : Z -> Z) : Z -> Z -> mem -> mem := fun s dst m => store16 m dst (conv s).
Definition dithering (conv : Z -> ditherer -> Z * ditherer) : Z -> Z -> ditherer -> mem -> mem * ditherer :=
  fun s dst di m => let '(v, di) := conv s di in (store16 m dst v, di).

Definition scanline_t32cb16_clamp (d : draw_t) : draw_t :=
  if is_context_horizontal d
  then blit horz_clamp_get_pixel32 (plain (stored convertAbgr8888ToRgb565)) (start_horz_clamp d 2) tt d
  else blit clamp_get_pixel32 (plain (stored convertAbgr8888ToRgb565)) (start_clamp d) tt d.

Definition scanline_t32cb16_dither (d : draw_t) : draw_t :=
  blit horz_get_pixel32 (dithering abgr8888ToRgb565) (horz_iterator 4 d) (start_ditherer d) d.

Definition scanline_t32cb16_clamp_dither (d : draw_t) : draw_t :=
  if is_context_horizontal d
  then blit horz_clamp_get_pixel32 (dithering abgr8888ToRgb565) (start_horz_clamp d 2) (start_ditherer d) d
  else blit clamp_get_pixel32 (dithering abgr8888ToRgb565) (start_clamp d) (start_ditherer d) d.

Definition scanline_t32cb16blend_dither (d : draw_t) : draw_t :=
  blit horz_get_pixel32 blender_32to16_write_dither (horz_iterator 4 d) (start_ditherer d) d.

Definition scanline_t32cb16blend_clamp (d : draw_t) : draw_t :=
  if is_context_horizontal d
  then blit horz_clamp_get_pixel32 (plain blender_32to16_write) (start_horz_clamp d 2) tt d
  else blit clamp_get_pixel32 (plain blender_32to16_write) (start_clamp d) tt d.

Definition scanline_t32cb16blend_clamp_dither (d : draw_t) : draw_t :=
  blit clamp_get_pixel32 blender_32to16_write_dither (start_clamp d) (start_ditherer d) d.

Definition scanline_t32cb16blend_clamp_mod (d : draw_t) : draw_t :=
  blit clamp_get_pixel32 (plain (blender_32to16_modulate_write (start_modulate d))) (start_clamp d) tt d.

Definition scanline_t32cb16blend_clamp_mod_dither (d : draw_t) : draw_t :=
  blit clamp_get_pixel32 (blender_32to16_modulate_write_dither (start_modulate d)) (start_clamp d)
    (start_ditherer d) d.

Definition scanline_x32cb16blend_clamp_mod (d : draw_t) : draw_t :=
  blit clamp_get_pixel32 (plain (blender_x32to16_modulate_write (start_modulate d))) (start_clamp d) tt d.

Definition scanline_x32cb16blend_clamp_mod_dither (d : draw_t) : draw_t :=
  blit clamp_get_pixel32 (blender_x32to16_modulate_write_dither (start_modulate d)) (start_clamp d)
    (start_ditherer d) d.

Definition scanline_t16cb16_clamp (d : draw_t) : draw_t :=
  if is_context_horizontal d
  then blit horz_clamp_get_pixel16 (plain (stored id)) (start_horz_clamp d 1) tt d
  else blit clamp_get_pixel16 (plain (stored id)) (start_clamp d) tt d.

(** The ABGR 8888 flat color blended over the row. *)
Fixpoint blend_row (s : Z) (n : nat) (dst : Z) (m : mem) : mem :=
  match n with
  | O => m
  | S n => blend_row s n (dst + 2) (store16 m dst (blend_over s (load16 m dst)))
  end.

Definition scanline_col32cb16blend (d : draw_t) : draw_t :=
  d <| d_m ::= blend_row (GGL_RGBA_TO_HOST (d_packed8888 d)) (dst_count d) (dst_start d 2) |>.

(** The pixels are written one by one only where a pair of them would not be
    aligned; the pairs go through a pointer that is never set. *)
Definition scanline_t32cb16 (d : draw_t) : option draw_t :=
  let dst := dst_start d 2 in
  let src := horz_iterator 4 d in
  let one m dst src := store16 m dst (convertAbgr8888ToRgb565 (GGL_RGBA_TO_HOST (load32 m src))) in
  let ct := u64 (it_xr (d_it d) - it_xl (d_it d)) in
  let '(m, dst, src, ct) :=
    if (ct =? 1) || negb (Z.land dst 2 =? 0)
    then (one (d_m d) dst src, dst + 2, src + 4, u64 (ct - 1)) else (d_m d, dst, src, ct) in
  if 2 <=? ct then None
  else if 0 <? ct then Some (d <| d_m := one m dst src |>)
  else Some (d <| d_m := m |>).

Definition scanline_t32cb16blend (d : draw_t) : draw_t :=
  blit horz_get_pixel32 (plain blender_32to16_write) (horz_iterator 4 d) tt d.

Definition scanline_t32cb16blend_srca (d : draw_t) : draw_t :=
  blit horz_get_pixel32 (plain blender_32to16_srcA_write) (horz_iterator 4 d) tt d.

Definition scanline_t16cb16blend_clamp_mod (d : draw_t) : draw_t :=
  let a := Z.shiftr (it_ydady (d_it d)) (GGL_COLOR_BITS - 8) in
  if a =? 0 then d
  else if a =? 255 then scanline_t16cb16_clamp d
  else blit clamp_get_pixel16 (plain (blender_16to16_modulate_write (start_modulate d))) (start_clamp d) tt d.

(** ** Copies and fills *)

(** [memcpy], byte by byte from the first. *)
Fixpoint memcpy (n : nat) (dst src : Z) (m : mem) : mem :=
  match n with
  | O => m
  | S n => memcpy n (dst + 1) (src + 1) (store8 m dst (load8 m src))
  end.

(** The number of pixels of the row, as a [size_t]. *)
Definition row_count (d : draw_t) : Z := u64 (it_xr (d_it d) - it_xl (d_it d)).

Definition copy_source (d : draw_t) : Z :=
  let tx := source_texture d in
  let u := s32 (Z.shiftr (ts_is0 (tx_shade tx)) 16 + it_xl (d_it d)) in
  let v := s32 (Z.shiftr (ts_it0 (tx_shade tx)) 16 + it_y (d_it d)) in
  sf_data (tx_surface tx) + s32 (s32 (u + s32 (sf_stride (tx_surface tx) * v)) * color_size d).

Definition fill_dest (d : draw_t) : Z :=
  sf_data (color_buffer d) +
  s32 (s32 (it_xl (d_it d) + s32 (sf_stride (color_buffer d) * it_y (d_it d))) * color_size d).

Definition scanline_memcpy (d : draw_t) : draw_t :=
  d <| d_m ::= memcpy (Z.to_nat (row_count d * color_size d)) (fill_dest d) (copy_source d) |>.

Definition scanline_memset8 (d : draw_t) : draw_t :=
  d <| d_m ::= fun m => memset m (dst_start d 1) (d_packed d) (row_count d) |>.
Definition scanline_memset16 (d : draw_t) : draw_t :=
  d <| d_m ::= fun m => android_memset16 m (dst_start d 2) (d_packed d) (row_count d * 2) |>.
Definition scanline_memset32 (d : draw_t) : draw_t :=
  d <| d_m ::= fun m => android_memset32 m (dst_start d 4) (GGL_HOST_TO_RGBA (d_packed d)) (row_count d * 4) |>.

Definition scanline_clear (d : draw_t) : draw_t :=
  d <| d_m ::= fun m => memset m (fill_dest d) 0 (row_count d * color_size d) |>.
Definition scanline_set (d : draw_t) : draw_t :=
  d <| d_m ::= fun m => memset m (fill_dest d) 0xFF (row_count d * color_size d) |>.
Definition scanline_noop (d : draw_t) : draw_t := d.
