(* ===== verification/Scanline.v ===== *)
(** * Scanline dispatch, perspective correction and rectangles

    Models the rest of libpixelflinger/scanline.cpp: the calls through
    [c->scanline], [c->span] and [c->rect], the two perspective-correcting
    scanlines, which cut a row into spans, and the rectangle blitters. *)

From S2P Require Import Prelude Fixed Names Context PixelFormat Surface Iterators Pipeline Shortcuts.

(** ** Dispatch *)

(** The routines [c->span] can point to: all but the perspective ones. *)
Definition run_span (p : scanline_proc) (d : draw_t) : option draw_t :=
  match p with
  | no_scanline | use_scanline_perspective | use_scanline_perspective_single => None
  | use_scanline => scanline d
  | use_scanline_t32cb16blend => Some (scanline_t32cb16blend d)
  | use_scanline_t32cb16blend_dither => Some (scanline_t32cb16blend_dither d)
  | use_scanline_t32cb16blend_srca => Some (scanline_t32cb16blend_srca d)
  | use_scanline_t32cb16blend_clamp => Some (scanline_t32cb16blend_clamp d)
  | use_scanline_t32cb16blend_clamp_dither => Some (scanline_t32cb16blend_clamp_dither d)
  | use_scanline_t32cb16blend_clamp_mod => Some (scanline_t32cb16blend_clamp_mod d)
  | use_scanline_x32cb16blend_clamp_mod => Some (scanline_x32cb16blend_clamp_mod d)
  | use_scanline_t32cb16blend_clamp_mod_dither => Some (scanline_t32cb16blend_clamp_mod_dither d)
  | use_scanline_x32cb16blend_clamp_mod_dither => Some (scanline_x32cb16blend_clamp_mod_dither d)
  | use_scanline_t32cb16 => scanline_t32cb16 d
  | use_scanline_t32cb16_dither => Some (scanline_t32cb16_dither d)
  | use_scanline_t32cb16_clamp => Some (scanline_t32cb16_clamp d)
  | use_scanline_t32cb16_clamp_dither => Some (scanline_t32cb16_clamp_dither d)
  | use_scanline_col32cb16blend => Some (scanline_col32cb16blend d)
  | use_scanline_t16cb16_clamp => Some (scanline_t16cb16_clamp d)
  | use_scanline_t16cb16blend_clamp_mod => Some (scanline_t16cb16blend_clamp_mod d)
  | use_scanline_memcpy => Some (scanline_memcpy d)
  | use_scanline_memset8 => Some (scanline_memset8 d)
  | use_scanline_memset16 => Some (scanline_memset16 d)
  | use_scanline_memset32 => Some (scanline_memset32 d)
  | use_scanline_noop => Some (scanline_noop d)
  | use_scanline_set => Some (scanline_set d)
  | use_scanline_clear => Some (scanline_clear d)
  end.

(** [c->span(c)]. *)
Definition call_span (d : draw_t) : option draw_t := run_span (c_span (d_c d)) d.

(** ** Perspective correction *)

Definition SPAN_BITS : Z := 5.

(** The linear coordinate [v] and its quotient [q], of one axis. *)
Record persp_axis := mk_persp { pa_v : Z; pa_q : Z }.

(** A coordinate at the center of the pixel [(xs, ys)]. *)
Definition linear_coord (v dx dy xs ys : Z) : Z :=
  s32 (v + dy * ys + dx * xs + Z.shiftr (s32 (dx + dy)) 1).

(** [32 - gglClz q], which the code shifts by; undefined outside of 1..31. *)
Definition quotient_scale (q : Z) : option Z :=
  let iwscale := 32 - gglClz q in
  if (1 <=? iwscale) && (iwscale <=? 31) then Some iwscale else None.

Definition start_persp (q0 iwscale v dx dy xs ys : Z) : persp_axis :=
  let v := linear_coord v dx dy xs ys in mk_persp v (gglMulx_shift v q0 iwscale).

(** The texture iterators of one span: start [v0] and slope. *)
Definition set_axis (scale v0 dvdx : Z) (ax : axis_t) : axis_t :=
  ax <| ax_ydvdy := shift_by v0 scale |> <| ax_dvdx := shift_by dvdx scale |>.

(** One axis of a unit over the next span, of [span] pixels or of
    [2^SPAN_BITS] when 0. *)
Definition persp_span (q1 iwscale span dx : Z) (pa : persp_axis) (ax : axis_t) : persp_axis * axis_t :=
  let v := s32 (pa_v pa + (if span =? 0 then s32 (Z.shiftl dx SPAN_BITS) else s32 (dx * span))) in
  let v0 := pa_q pa in
  let v1 := gglMulx_shift v q1 iwscale in
  let dvdx := s32 (v1 - v0) in
  let dvdx := if span =? 0 then Z.shiftr dvdx SPAN_BITS else Z.quot dvdx span in
  (mk_persp v v1, set_axis (s32 (ax_scale ax + (iwscale - 30))) v0 dvdx ax).

Definition persp_unit (q1 iwscale span : Z) (t : texture_t) (tc : persp_axis * persp_axis)
    (ti : texture_iterators_t) : (persp_axis * persp_axis) * texture_iterators_t :=
  if tx_enable t =? 0 then (tc, ti)
  else
    let '(s, axs) := persp_span q1 iwscale span (ts_idsdx (tx_shade t)) (fst tc) (ti_s ti) in
    let '(u, axt) := persp_span q1 iwscale span (ts_idtdx (tx_shade t)) (snd tc) (ti_t ti) in
    ((s, u), mk_tex_iterators axs axt).

(** The loop over the units, and the mirror of the slopes. *)
Definition persp_units (q1 iwscale span : Z) (tcs : list (persp_axis * persp_axis)) (d : draw_t)
    : list (persp_axis * persp_axis) * draw_t :=
  let ts := st_texture (c_state (d_c d)) in
  let rs := zip_with (fun t '(tc, ti) => persp_unit q1 iwscale span t tc ti) ts (zip tcs (d_ti d)) in
  let slopes := zip_with (fun t '(ti, g) => if tx_enable t =? 0 then g
                             else (ax_dvdx (ti_s ti), ax_dvdx (ti_t ti)))
                  ts (zip (map snd rs) (gv_tex (d_gen d))) in
  (map fst rs, d <| d_ti := map snd rs |> <| d_gen ::= fun g => g <| gv_tex := slopes |> |>).

Definition set_span (xl xr : Z) (d : draw_t) : draw_t :=
  d <| d_it ::= fun it => it <| it_xl := xl |> <| it_xr := xr |> |>.

(** The [do] loop: [n] whole spans, then the remainder. *)
Fixpoint persp_spans (n : nat) (remainder iwscale w0 xl : Z) (tcs : list (persp_axis * persp_axis))
    (d : draw_t) : option draw_t :=
  let dwdx := sh_dwdx (draw_shade d) in
  let run span w1 :=
    q1 ← gglRecipQ w1 30;
    let '(tcs, d) := persp_units q1 iwscale span tcs d in
    let xr := s32 (xl + (if span =? 0 then Z.shiftl 1 SPAN_BITS else span)) in
    d ← call_span (set_span xl xr d);
    Some (xr, tcs, d) in
  match n with
  | O =>
      if remainder =? 0 then Some d
      else r ← run remainder (s32 (s32 (dwdx * remainder) + w0)); Some (snd r)
  | S n =>
      let w1 := s32 (w0 + s32 (Z.shiftl dwdx SPAN_BITS)) in
      '(xl, tcs, d) ← run 0 w1;
      persp_spans n remainder iwscale w1 xl tcs d
  end.

Definition scanline_perspective (d : draw_t) : option draw_t :=
  let sh := draw_shade d in
  let ys := u32 (it_y (d_it d)) in
  let xs := u32 (it_xl (d_it d)) in
  let xc := u32 (u32 (it_xr (d_it d)) - xs) in
  let remainder := Z.land xc (Z.shiftl 1 SPAN_BITS - 1) in
  let w0 := s32 (xs * sh_dwdx sh + it_ydwdy (d_it d)) in
  q0 ← gglRecipQ w0 30;
  iwscale ← quotient_scale q0;
  let start := fun t =>
    let ts := tx_shade t in
    (start_persp q0 iwscale (ts_is0 ts) (ts_idsdx ts) (ts_idsdy ts) xs ys,
     start_persp q0 iwscale (ts_it0 ts) (ts_idtdx ts) (ts_idtdy ts) xs ys) in
  persp_spans (Z.to_nat (Z.shiftr xc SPAN_BITS)) remainder iwscale w0 (it_xl (d_it d))
    (map start (st_texture (c_state (d_c d)))) d.

(** *** One enabled unit *)

(** A span of the single unit [i]: new iterators, mirror and the call. *)
Definition single_span (i : nat) (sscale tscale s0 dsdx t0 dtdx xl xr : Z) (d : draw_t) : option draw_t :=
  let set ti := mk_tex_iterators (set_axis sscale s0 dsdx (ti_s ti)) (set_axis tscale t0 dtdx (ti_t ti)) in
  let ti := list_alter set i (d_ti d) in
  let slope := (shift_by dsdx sscale, shift_by dtdx tscale) in
  call_span (set_span xl xr (d <| d_ti := ti |> <| d_gen ::= fun g => g <| gv_tex ::= <[i := slope]> |> |>)).

(** The loop over whole spans. *)
Fixpoint single_spans (n : nat) (i : nat) (sscale tscale iwscale w s t s0 t0 xl : Z) (sh : texture_shade_t)
    (d : draw_t) : option draw_t :=
  match n with
  | O => Some d
  | S n =>
      let w := s32 (w + s32 (Z.shiftl (sh_dwdx (draw_shade d)) SPAN_BITS)) in
      let s := s32 (s + s32 (Z.shiftl (ts_idsdx sh) SPAN_BITS)) in
      let t := s32 (t + s32 (Z.shiftl (ts_idtdx sh) SPAN_BITS)) in
      iw ← gglRecipQ w 30;
      let sq := gglMulx_shift s iw iwscale in
      let tq := gglMulx_shift t iw iwscale in
      let xr := s32 (xl + Z.shiftl 1 SPAN_BITS) in
      d ← single_span i sscale tscale s0 (Z.shiftr (s32 (sq - s0)) SPAN_BITS)
            t0 (Z.shiftr (s32 (tq - t0)) SPAN_BITS) xl xr d;
      single_spans n i sscale tscale iwscale w s t sq tq xr sh d
  end.

Definition scanline_perspective_single (d : draw_t) : option draw_t :=
  let dwdx := sh_dwdx (draw_shade d) in
  let ys := u32 (it_y (d_it d)) in
  let xs := u32 (it_xl (d_it d)) in
  let xc := u32 (u32 (it_xr (d_it d)) - xs) in
  let w := s32 (xs * dwdx + it_ydwdy (d_it d)) in
  iw ← gglRecipQ w 30;
  iwscale ← quotient_scale iw;
  let i := Z.to_nat (31 - gglClz (s32 (st_enabled_tmu (c_state (d_c d))))) in
  let sh := tx_shade (nth i (st_texture (c_state (d_c d))) zero_texture) in
  let ti := nth i (d_ti d) zero_tex_iterators in
  let sscale := s32 (ax_scale (ti_s ti) + (iwscale - 30)) in
  let tscale := s32 (ax_scale (ti_t ti) + (iwscale - 30)) in
  let s := linear_coord (ts_is0 sh) (ts_idsdx sh) (ts_idsdy sh) xs ys in
  let t := linear_coord (ts_it0 sh) (ts_idtdx sh) (ts_idtdy sh) xs ys in
  let s0 := gglMulx_shift s iw iwscale in
  let t0 := gglMulx_shift t iw iwscale in
  let xl := it_xl (d_it d) in
  let '(premainder, numSpans) :=
    if dwdx =? 0 then (s32 xc, 0) else (Z.land xc (Z.shiftl 1 SPAN_BITS - 1), Z.shiftr xc SPAN_BITS) in
  if negb (dwdx =? 0) && (premainder =? 0) then
    single_spans (Z.to_nat numSpans) i sscale tscale iwscale w s t s0 t0 xl sh d
  else if premainder =? 0 then None
  else
    let w := if dwdx =? 0 then w else s32 (w + s32 (dwdx * premainder)) in
    iw ← (if dwdx =? 0 then Some iw else gglRecipQ w 30);
    let s := s32 (s + s32 (ts_idsdx sh * premainder)) in
    let t := s32 (t + s32 (ts_idtdx sh * premainder)) in
    let sq := gglMulx_shift s iw iwscale in
    let tq := gglMulx_shift t iw iwscale in
    let xr := s32 (xl + premainder) in
    d ← single_span i sscale tscale s0 (Z.quot (s32 (sq - s0)) premainder)
          t0 (Z.quot (s32 (tq - t0)) premainder) xl xr d;
    single_spans (Z.to_nat numSpans) i sscale tscale iwscale w s t sq tq xr sh d.

(** [c->scanline(c)]. *)
Definition call_scanline (d : draw_t) : option draw_t :=
  match c_scanline (d_c d) with
  | use_scanline_perspective => scanline_perspective d
  | use_scanline_perspective_single => scanline_perspective_single d
  | p => run_span p d
  end.

(** ** Rectangles *)

Fixpoint rect_rows (n : nat) (d : draw_t) : option draw_t :=
  match n with
  | O => Some d
  | S n => d ← call_scanline d; d ← call_step_y d; rect_rows n d
  end.

Definition rect_generic (yc : Z) (d : draw_t) : option draw_t := rect_rows (Z.to_nat yc) d.

(** Rows copied one by one, [dbpr] and [sbpr] bytes apart. *)
Fixpoint copy_rows (n : nat) (size : nat) (dbpr sbpr dst src : Z) (m : mem) : mem :=
  match n with
  | O => m
  | S n => copy_rows n size dbpr sbpr (dst + dbpr) (src + sbpr) (memcpy size dst src m)
  end.

Definition rect_memcpy (yc : Z) (d : draw_t) : option draw_t :=
  let cb := color_buffer d in
  let tex := tx_surface (source_texture d) in
  let size := color_size d in
  let ct := row_count d in
  if (sf_stride cb =? sf_stride tex) && (ct =? u64 (sf_stride cb)) then
    Some (d <| d_m ::= memcpy (Z.to_nat (ct * size * yc)) (fill_dest d) (copy_source d) |>)
  else
    Some (d <| d_m ::= copy_rows (Z.to_nat yc) (Z.to_nat (ct * size)) (sf_stride cb * size)
                         (sf_stride tex * size) (fill_dest d) (copy_source d) |>).

(** [c->rect(c, yc)]. *)
Definition call_rect (yc : Z) (d : draw_t) : option draw_t :=
  match d_rect d with
  | no_rect => None
  | use_rect_generic => rect_generic yc d
  | use_rect_memcpy => rect_memcpy yc d
  end.
