(* ===== verification/Trap.v ===== *)
(** * Rasterizing points, lines, rectangles and triangles

    Models libpixelflinger/trap.cpp but for the antialiased polygons, which are
    in [AAPoly.v].  A primitive is the list of the calls it makes on the pixel
    pipeline, computed from the scissor; [play] makes the calls.  The code
    reads nothing of the context that these calls change.  A result is [None]
    where the code divides by zero, where its division loop never returns, or
    where it reads an edge it never wrote. *)

From S2P Require Import Prelude Fixed Names Context PixelFormat Surface PixelFlinger Picker Iterators Pipeline Shortcuts Scanline.

(** ** Calls on the pipeline *)

Inductive event :=
  | Set_span (xl xr : Z)
  | Init_y (y : Z)
  | Scanline
  | Step_y
  | Rect (yc : Z)
  | Coverage (i v : Z).

Definition coverage_address (c : context_t) (i : Z) : Z := fb_coverage (st_buffers (c_state c)) + 2 * i.

Definition play_event (e : event) (d : draw_t) : option draw_t :=
  match e with
  | Set_span xl xr => Some (set_span xl xr d)
  | Init_y y => call_init_y y d
  | Scanline => call_scanline d
  | Step_y => call_step_y d
  | Rect yc => call_rect yc d
  | Coverage i v => Some (d <| d_m ::= fun m => store16 m (coverage_address (d_c d) i) v |>)
  end.

Fixpoint play (es : list event) (d : draw_t) : option draw_t :=
  match es with [] => Some d | e :: es => d ← play_event e d; play es d end.

Definition draw_scissor (c : context_t) : scissor_t := st_scissor (c_state c).

(** The scissor, converted to [int] as the rasterizers read it. *)
Definition scl (s : scissor_t) : Z := s32 (sc_left s).
Definition scr (s : scissor_t) : Z := s32 (sc_right s).
Definition sct (s : scissor_t) : Z := s32 (sc_top s).
Definition scb (s : scissor_t) : Z := s32 (sc_bottom s).

Definition min2 (a b : Z) : Z := if a <? b then a else b.
Definition max2 (a b : Z) : Z := if a <? b then b else a.
Definition min3 (a b c : Z) : Z := min2 a (min2 b c).
Definition max3 (a b c : Z) : Z := max2 a (max2 b c).

(** A vertex: its coordinates in 28.4 fixed point. *)
Definition vertex : Type := Z * Z.

(** ** Rectangles *)

Definition recti (s : scissor_t) (l t r b : Z) : list event :=
  let l := if l <? scl s then scl s else l in
  let t := if t <? sct s then sct s else t in
  let r := if scr s <? r then scr s else r in
  let b := if scb s <? b then scb s else b in
  let xc := s32 (r - l) in
  let yc := s32 (b - t) in
  if (0 <? xc) && (0 <? yc) then [Set_span l r; Init_y t; Rect yc] else [].

(** ** Points *)

Definition pointx (s : scissor_t) (v : vertex) (rad : Z) : list event :=
  let halfSize := Z.shiftr (TRI_ROUND rad) 1 in
  let halfSize := if halfSize =? 0 then TRI_HALF else halfSize in
  let '(xc, yc) :=
    if negb (Z.land halfSize TRI_HALF =? 0)
    then (s32 (TRI_FLOOR (fst v) + TRI_HALF), s32 (TRI_FLOOR (snd v) + TRI_HALF))
    else (TRI_ROUND (fst v), TRI_ROUND (snd v)) in
  let l := Z.shiftr (s32 (xc - halfSize)) TRI_FRACTION_BITS in
  let t := Z.shiftr (s32 (yc - halfSize)) TRI_FRACTION_BITS in
  let r := Z.shiftr (s32 (xc + halfSize)) TRI_FRACTION_BITS in
  let b := Z.shiftr (s32 (yc + halfSize)) TRI_FRACTION_BITS in
  recti s l t r b.

(** One 4 x 4 grid of samples, 1/4 of a pixel apart. *)
Definition sample_offsets : list Z := [-6; -2; 2; 6].

Definition coverageNice (x y rmin rmax rr : Z) : Z :=
  let d2 := s32 (s32 (x * x) + s32 (y * y)) in
  if rmax <=? d2 then 0
  else if d2 <? rmin then 0x7FFF
  else
    let hit dx dy :=
      let xval := s32 (rr - s32 ((x + dx) * (x + dx))) in
      if 0 <? s32 (xval - s32 ((y + dy) * (y + dy))) then 1 else 0 in
    let hits := fold_right Z.add 0 (flat_map (fun dx => map (hit dx) sample_offsets) sample_offsets) in
    min2 0x7FFF (Z.shiftl hits (15 - 4)).

Definition coverageFast (x y rmin rmax scale : Z) : Z :=
  let d2 := s32 (s32 (x * x) + s32 (y * y)) in
  if rmax <=? d2 then 0
  else if d2 <? rmin then 0x7FFF
  else s32 (0x7FFF - s32 (s32 (d2 - rmin) * scale)).

(** The pixels of an antialiased point inside the scissor, with the position
    of the first one relative to the point's center. *)
Record point_box := mk_box { pb_l : Z; pb_t : Z; pb_r : Z; pb_b : Z; pb_x : Z; pb_y : Z }.

Definition aa_point_box (s : scissor_t) (v : vertex) (rad : Z) : point_box :=
  let '(vx, vy) := v in
  let l := Z.shiftr (s32 (vx - rad)) TRI_FRACTION_BITS in
  let t := Z.shiftr (s32 (vy - rad)) TRI_FRACTION_BITS in
  let r := Z.shiftr (s32 (vx + rad + (TRI_ONE - 1))) TRI_FRACTION_BITS in
  let b := Z.shiftr (s32 (vy + rad + (TRI_ONE - 1))) TRI_FRACTION_BITS in
  let xstart := s32 (TRI_FROM_INT l - vx + TRI_HALF) in
  let ystart := s32 (TRI_FROM_INT t - vy + TRI_HALF) in
  let '(l, xstart) := if l <? scl s
                      then (scl s, s32 (xstart + TRI_FROM_INT (s32 (scl s - l)))) else (l, xstart) in
  let '(t, ystart) := if t <? sct s
                      then (sct s, s32 (ystart + TRI_FROM_INT (s32 (sct s - t)))) else (t, ystart) in
  let r := if scr s <? r then scr s else r in
  let b := if scb s <? b then scb s else b in
  mk_box l t r b xstart ystart.

(** The coverage of the pixels [i ..] of a row, then the row. *)
Fixpoint coverage_row (cov : Z -> Z) (n : nat) (i x : Z) : list event :=
  match n with
  | O => []
  | S n => Coverage i (cov x) :: coverage_row cov n (i + 1) (s32 (x + TRI_ONE))
  end.

Fixpoint coverage_rows (cov : Z -> Z -> Z) (n : nat) (l : Z) (xc : nat) (xstart y : Z) : list event :=
  match n with
  | O => []
  | S n =>
      coverage_row (fun x => cov x y) xc l xstart ++ [Scanline; Step_y] ++
      coverage_rows cov n l xc xstart (s32 (y + TRI_ONE))
  end.

Definition draw_point_box (cov : Z -> Z -> Z) (b : point_box) : list event :=
  [Set_span (pb_l b) (pb_r b); Init_y (pb_t b)] ++
  coverage_rows cov (Z.to_nat (pb_b b - pb_t b)) (pb_l b) (Z.to_nat (pb_r b - pb_l b)) (pb_x b) (pb_y b).

Definition box_empty (b : point_box) : bool := negb ((0 <? pb_r b - pb_l b) && (0 <? pb_b b - pb_t b)).

Definition aa_nice_pointx (s : scissor_t) (v : vertex) (size : Z) : list event :=
  let rad := Z.shiftr (s32 (size + 1)) 1 in
  let b := aa_point_box s v rad in
  if box_empty b then []
  else
    let sqr2Over2 := 0xC in
    let rr := s32 (rad * rad) in
    let rmin := s32 (s32 (rad - sqr2Over2) * s32 (rad - sqr2Over2)) in
    let rmax := s32 (s32 (rad + sqr2Over2) * s32 (rad + sqr2Over2)) in
    draw_point_box (fun x y => coverageNice x y rmin rmax rr) b.

Definition aa_pointx (s : scissor_t) (v : vertex) (size : Z) : option (list event) :=
  let rad := Z.shiftr (s32 (size + 1)) 1 in
  let b := aa_point_box s v rad in
  if box_empty b then Some []
  else
    let rad := s32 (Z.shiftl rad 4) in
    let sqr2Over2 := 0xB5 in
    let rmin := s32 (rad - sqr2Over2) in
    let rmax := s32 (rad + sqr2Over2) in
    let rmin := s32 (rmin * rmin) in
    let rmax := s32 (rmax * rmax) in
    if s32 (rmax - rmin) =? 0 then None
    else
      let scale := Z.quot 0x800000 (s32 (rmax - rmin)) in
      let rmin := Z.shiftr rmin 8 in
      let rmax := Z.shiftr rmax 8 in
      Some (draw_point_box (fun x y => coverageFast x y rmin rmax scale) b).

(** ** Triangles by edge functions *)

(** One edge of the small-triangle routine: its direction and its value at the
    center of the first pixel of the row. *)
Record edge_fn := mk_edge_fn { ef_dx : Z; ef_dy : Z; ef_ey : Z }.
#[export] Instance eta_edge_fn : Eta edge_fn := fun r => mk_edge_fn (ef_dx r) (ef_dy r) (ef_ey r).

(** The edge from [(x0, y0)], with the right-exclusive fill rule. *)
Definition edge_function (x0 y0 dx dy mx my : Z) : edge_fn :=
  let ey := s32 (s32 (dy * s32 (x0 - mx)) - s32 (dx * s32 (y0 - my))) in
  mk_edge_fn dx dy (if (dy <? 0) || (dy =? 0) && (0 <? dx) then s32 (ey + 1) else ey).

Definition all_positive (es : list Z) : bool := forallb (Z.ltb 0) es.
Definition step_x (fs : list edge_fn) (es : list Z) : list Z :=
  zip_with (fun f e => s32 (e - s32 (Z.shiftl (ef_dy f) TRI_FRACTION_BITS))) fs es.
Definition step_row_edges (fs : list edge_fn) : list edge_fn :=
  map (fun f => f <| ef_ey ::= fun e => s32 (e + s32 (Z.shiftl (ef_dx f) TRI_FRACTION_BITS)) |>) fs.

(** Advance from [x] while the sign test has the value [inside], at most [n]
    pixels. *)
Fixpoint walk (inside : bool) (fs : list edge_fn) (n : nat) (x : Z) (es : list Z) : Z * list Z :=
  match n with
  | O => (x, es)
  | S n => if Bool.eqb (all_positive es) inside then walk inside fs n (x + 1) (step_x fs es) else (x, es)
  end.

Fixpoint small_rows (n : nat) (minx maxx : Z) (fs : list edge_fn) : list event :=
  match n with
  | O => []
  | S n =>
      let '(xl, es) := walk false fs (Z.to_nat (maxx - minx)) minx (map ef_ey fs) in
      let '(xr, _) := walk true fs (Z.to_nat (maxx - xl)) xl es in
      (if xl <? xr then [Set_span xl xr; Scanline] else []) ++ [Step_y] ++
      small_rows n minx maxx (step_row_edges fs)
  end.

Definition trianglex_small (s : scissor_t) (v0 v1 v2 : vertex) : list event :=
  let '(x0, y0) := v0 in let '(x1, y1) := v1 in let '(x2, y2) := v2 in
  let cw := s32 (s32 (x0 - x1) * s32 (y2 - y0)) <? s32 (s32 (y0 - y1) * s32 (x2 - x0)) in
  let '(x0, y0, x1, y1) := if cw then (x1, y1, x0, y0) else (x0, y0, x1, y1) in
  let dx01 := s32 (x0 - x1) in let dy01 := s32 (y0 - y1) in
  let dx20 := s32 (x2 - x0) in let dy20 := s32 (y2 - y0) in
  let dx12 := s32 (x1 - x2) in let dy12 := s32 (y1 - y2) in
  let minx := max2 (Z.shiftr (TRI_FLOOR (min3 x0 x1 x2)) TRI_FRACTION_BITS) (scl s) in
  let miny := max2 (Z.shiftr (TRI_FLOOR (min3 y0 y1 y2)) TRI_FRACTION_BITS) (sct s) in
  let maxx := min2 (Z.shiftr (TRI_CEIL (max3 x0 x1 x2)) TRI_FRACTION_BITS) (scr s) in
  let maxy := min2 (Z.shiftr (TRI_CEIL (max3 y0 y1 y2)) TRI_FRACTION_BITS) (scb s) in
  if (maxx <=? minx) || (maxy <=? miny) then []
  else
    let my := s32 (TRI_FROM_INT miny + TRI_HALF) in
    let mx := s32 (TRI_FROM_INT minx + TRI_HALF) in
    Init_y miny ::
    small_rows (Z.to_nat (maxy - miny)) minx maxx
      [edge_function x0 y0 dx01 dy01 mx my; edge_function x1 y1 dx12 dy12 mx my;
       edge_function x2 y2 dx20 dy20 mx my].

(** ** Triangles by edge stepping *)

Definition TRI_ITERATORS_BITS : Z := 16.

Record Edge := mk_edge { e_x : Z; e_x_incr : Z; e_y_top : Z; e_y_bot : Z }.
#[export] Instance eta_edge : Eta Edge := fun r => mk_edge (e_x r) (e_x_incr r) (e_y_top r) (e_y_bot r).

(** The edge between two vertices clipped to the scanline centers from [ymin]
    to [ymax]: no edge, or one. *)
Definition edge_setup (p1 p2 : vertex) (ymin ymax : Z) : option (list Edge) :=
  let '(top, bot) := if snd p2 <? snd p1 then (p2, p1) else (p1, p2) in
  let y1 := Z.lor (snd top) 1 in
  let y2 := Z.lor (snd bot) 1 in
  let dy := s32 (y2 - y1) in
  if (dy =? 0) || (ymax <? y1) || (y2 <? ymin) then Some []
  else
    let ymin := if ymin <? y1 then TRI_SNAP_NEXT_HALF y1 else ymin in
    let ymax := if y2 <? ymax then TRI_SNAP_PREV_HALF y2 else ymax in
    if ymax <? ymin then Some []
    else
      let x1 := fst top in
      let dx := s32 (fst bot - x1) in
      let shift := TRI_ITERATORS_BITS - TRI_FRACTION_BITS in
      let x := s32 (s32 (Z.shiftl x1 shift) + Z.shiftl 1 (TRI_ITERATORS_BITS - 1)) in
      x_incr ← (if (ymin <=? ymax) && negb (dx =? 0) then gglDivQ16 dx dy else Some 0);
      let x := if y1 <? ymin
               then s32 (x + Z.shiftr (s32 (x_incr * s32 (ymin - y1))) TRI_FRACTION_BITS) else x in
      Some [mk_edge x x_incr ymin ymax].

(** [count] rows between two edge positions. *)
Fixpoint sweep_rows (count : nat) (xmin xmax left_x left_xi right_x right_xi : Z) : list event :=
  match count with
  | O => []
  | S count =>
      let xl := max2 (Z.shiftr left_x TRI_ITERATORS_BITS) xmin in
      let xr := min2 (Z.shiftr right_x TRI_ITERATORS_BITS) xmax in
      (if xl <? xr then [Set_span xl xr; Scanline] else []) ++ [Step_y] ++
      sweep_rows count xmin xmax (s32 (left_x + left_xi)) left_xi (s32 (right_x + right_xi)) right_xi
  end.

(** The edges after the sweep, in the order they were given, and its calls. *)
Definition triangle_sweep_edges (s : scissor_t) (left right : Edge) (ytop ybot : Z)
    : Edge * Edge * list event :=
  let count := s32 (Z.shiftr (s32 (ybot - ytop)) TRI_FRACTION_BITS + 1) in
  if count <=? 0 then (left, right, [])
  else
    let swapped := (e_x right <? e_x left) ||
                   (e_x left =? e_x right) && (e_x_incr right <? e_x_incr left) in
    let '(l, r) := if swapped then (right, left) else (left, right) in
    let advance e := e <| e_x ::= fun x => s32 (x + s32 (e_x_incr e * count)) |> in
    (advance left, advance right,
     sweep_rows (Z.to_nat count) (scl s) (scr s) (e_x l) (e_x_incr l) (e_x r) (e_x_incr r)).

(** Which edges are [left], [right] and [other]; the third is missing when
    only two edges cross a scanline. *)
Definition choose_edges (edges : list Edge) : option (Edge * Edge * option Edge * (Z * Z)) :=
  match edges with
  | [e0; e1] => Some (e0, e1, None, (min2 (e_y_top e0) (e_y_top e1), max2 (e_y_bot e0) (e_y_bot e1)))
  | [e0; e1; e2] =>
      let y_top := min2 (min2 (e_y_top e0) (e_y_top e1)) (e_y_top e2) in
      let y_bot := max2 (max2 (e_y_bot e0) (e_y_bot e1)) (e_y_bot e2) in
      Some (if y_top <? e_y_top e0 then (e2, e1, Some e0, (y_top, y_bot))
            else if y_top <? e_y_top e1 then (e0, e2, Some e1, (y_top, y_bot))
            else (e0, e1, Some e2, (y_top, y_bot)))
  | _ => None
  end.

(** The sweeps of [trianglex_big] between the chosen edges. *)
Definition sweep_triangle (s : scissor_t) (lft rgt : Edge) (other : option Edge) (y_top y_bot : Z)
    : option (list event) :=
  let y_mid := min2 (e_y_bot lft) (e_y_bot rgt) in
  let '(lft, rgt, es) := triangle_sweep_edges s lft rgt y_top y_mid in
  let es := Init_y (Z.shiftr y_top TRI_FRACTION_BITS) :: es in
  let y_mid := s32 (y_mid + TRI_ONE) in
  if y_mid <=? y_bot then
    other ← other;
    let other' := if e_y_top other <? y_mid
                  then other <| e_x ::= fun x => s32 (x + e_x_incr other) |> else other in
    let '(lft, rgt) := if e_y_bot lft =? y_bot then (lft, other') else (other', rgt) in
    Some (es ++ snd (triangle_sweep_edges s lft rgt y_mid y_bot))
  else Some es.

Definition trianglex_big (s : scissor_t) (v0 v1 v2 : vertex) : option (list event) :=
  let ymin := s32 (TRI_FROM_INT (sct s) + TRI_HALF) in
  let ymax := s32 (TRI_FROM_INT (scb s) - TRI_HALF) in
  e01 ← edge_setup v0 v1 ymin ymax;
  e02 ← edge_setup v0 v2 ymin ymax;
  e12 ← edge_setup v1 v2 ymin ymax;
  match choose_edges (e01 ++ e02 ++ e12) with
  | None => Some []
  | Some (lft, rgt, other, (y_top, y_bot)) => sweep_triangle s lft rgt other y_top y_bot
  end.

(** ** Lines *)

Definition linex (s : scissor_t) (v0 v1 : vertex) (width : Z) : option (list event) :=
  let dx := s32 (Z.abs (s32 (fst v0 - fst v1))) in
  let dy := s32 (Z.abs (s32 (snd v0 - snd v1))) in
  let halfWidth := Z.shiftr (TRI_ROUND width) 1 in
  let halfWidth := if halfWidth =? 0 then TRI_HALF else halfWidth in
  let '(nx, ny) := if dy <? dx then (0, halfWidth) else (halfWidth, 0) in
  let plus v := (s32 (fst v + nx), s32 (snd v + ny)) in
  let minus v := (s32 (fst v - nx), s32 (snd v - ny)) in
  es ← trianglex_big s (plus v0) (plus v1) (minus v1);
  es' ← trianglex_big s (plus v0) (minus v1) (minus v0);
  Some (es ++ es').
