(* ===== verification/TrapSpec.v ===== *)
(** * What the rasterizers draw

    The pixels a list of calls on the pipeline covers, and the theorems on the
    rectangles, points and triangles of [Trap.v]. *)

From Stdlib Require Import Sorted.
From S2P Require Import Prelude Fixed Names Context PixelFormat Surface PixelFlinger Picker Iterators Pipeline Shortcuts Scanline Trap.

(** ** The pixels a list of calls covers *)

(** The row and the span the pipeline is set to. *)
Record pen_t := mk_pen { pn_y : Z; pn_xl : Z; pn_xr : Z }.

(** The spans drawn: row, first pixel, pixel after the last. *)
Fixpoint spans (es : list event) (p : pen_t) : list (Z * Z * Z) :=
  match es with
  | [] => []
  | Set_span xl xr :: es => spans es (mk_pen (pn_y p) xl xr)
  | Init_y y :: es => spans es (mk_pen y (pn_xl p) (pn_xr p))
  | Scanline :: es => (pn_y p, pn_xl p, pn_xr p) :: spans es p
  | Step_y :: es => spans es (mk_pen (pn_y p + 1) (pn_xl p) (pn_xr p))
  | Rect yc :: es =>
      map (fun i => (pn_y p + i, pn_xl p, pn_xr p)) (zrange yc) ++
      spans es (mk_pen (pn_y p + yc) (pn_xl p) (pn_xr p))
  | Coverage _ _ :: es => spans es p
  end.

Definition drawn (es : list event) : list (Z * Z * Z) := spans es (mk_pen 0 0 0).

Definition covered (es : list event) (x y : Z) : Prop :=
  exists xl xr, In (y, xl, xr) (drawn es) /\ xl <= x < xr.

(** A scissor inside a surface of at most 4096 pixels a side. *)
Definition scissor_small (s : scissor_t) : Prop :=
  0 <= scl s <= 2 ^ 12 /\ 0 <= scr s <= 2 ^ 12 /\ 0 <= sct s <= 2 ^ 12 /\ 0 <= scb s <= 2 ^ 12.

Definition in_scissor (s : scissor_t) (x y : Z) : Prop := scl s <= x < scr s /\ sct s <= y < scb s.

(** Spans inside the scissor. *)
Definition span_ok (s : scissor_t) (sp : Z * Z * Z) : Prop :=
  let '(y, xl, xr) := sp in scl s <= xl < xr /\ xr <= scr s /\ sct s <= y < scb s.

(** ** Coordinates in 28.4 *)

Lemma land_not_15 x : Z.land x (Z.lnot (TRI_ONE - 1)) = x / 16 * 16.
Proof.
  change (TRI_ONE - 1) with (Z.ones 4). rewrite <-Z.ldiff_land, Z.ldiff_ones_r by lia.
  by rewrite shiftr_div, shiftl_mul.
Qed.

Lemma tri_floor x : TRI_FLOOR x = x / 16 * 16.
Proof. apply land_not_15. Qed.
Lemma tri_round x : - 2 ^ 31 <= x < 2 ^ 31 - 8 -> TRI_ROUND x = (x + 8) / 16 * 16.
Proof. intros H. unfold TRI_ROUND, TRI_HALF. rewrite land_not_15, s32_id by (unfold is_s32; lia). done. Qed.
Lemma tri_ceil x : - 2 ^ 31 <= x < 2 ^ 31 - 15 -> TRI_CEIL x = (x + 15) / 16 * 16.
Proof. intros H. unfold TRI_CEIL. rewrite land_not_15, s32_id by (unfold is_s32, TRI_ONE; lia). done. Qed.
Lemma tri_shift x : Z.shiftr x TRI_FRACTION_BITS = x / 16.
Proof. apply shiftr_div. unfold TRI_FRACTION_BITS, GGL_SUBPIXEL_BITS. lia. Qed.
Lemma tri_from_int x : - 2 ^ 27 <= x < 2 ^ 27 -> TRI_FROM_INT x = 16 * x.
Proof.
  intros H. unfold TRI_FROM_INT, TRI_FRACTION_BITS, GGL_SUBPIXEL_BITS. rewrite shiftl_mul by lia.
  rewrite s32_id; unfold is_s32; lia.
Qed.

(** ** Rectangles *)

(** The pixels of [recti] before it is known whether there are any. *)
Lemma zrange_range n z : In z (zrange n) -> 0 <= z < n.
Proof. unfold zrange. intros (k & <- & Hk%in_seq)%in_map_iff. lia. Qed.

Lemma recti_spans s l t r b :
  - 2 ^ 30 <= l <= 2 ^ 30 -> - 2 ^ 30 <= t <= 2 ^ 30 -> - 2 ^ 30 <= r <= 2 ^ 30 -> - 2 ^ 30 <= b <= 2 ^ 30 ->
  scissor_small s ->
  forall x y, covered (recti s l t r b) x y <-> (l <= x < r /\ t <= y < b) /\ in_scissor s x y.
Proof.
  intros Hl Ht Hr Hb (S1 & S2 & S3 & S4) x y. unfold recti, covered, in_scissor.
  set (l' := if l <? scl s then scl s else l). set (t' := if t <? sct s then sct s else t).
  set (r' := if scr s <? r then scr s else r). set (b' := if scb s <? b then scb s else b).
  assert (l' = Z.max l (scl s)) as El by (unfold l'; destruct (Z.ltb_spec l (scl s)); lia).
  assert (t' = Z.max t (sct s)) as Et by (unfold t'; destruct (Z.ltb_spec t (sct s)); lia).
  assert (r' = Z.min r (scr s)) as Er by (unfold r'; destruct (Z.ltb_spec (scr s) r); lia).
  assert (b' = Z.min b (scb s)) as Eb by (unfold b'; destruct (Z.ltb_spec (scb s) b); lia).
  cbv zeta. clearbody l' t' r' b'.
  rewrite (s32_id (r' - l')), (s32_id (b' - t')) by (unfold is_s32; lia).
  destruct (Z.ltb_spec 0 (r' - l')), (Z.ltb_spec 0 (b' - t')); cbn [andb drawn spans]; unfold drawn; cbn [spans pn_y pn_xl pn_xr];
    [|split; [intros (? & ? & [] & _)|lia]..].
  rewrite app_nil_r. split.
  - intros (xl & xr & (i & [= <- <- <-] & Hi)%in_map_iff & Hx). apply zrange_range in Hi. lia.
  - intros H'. exists l', r'. split; [|lia]. apply in_map_iff. exists (y - t').
    split; [do 2 f_equal; lia|]. apply zrange_in. lia.
Qed.

(** ** Points *)

(** The first pixel of a square of [n] pixels centered on [v]: on the center
    of a pixel when [n] is odd, on a corner when it is even. *)
Definition square_start (v n : Z) : Z :=
  if Z.odd n then v / 16 - (n - 1) / 2 else (v + 8) / 16 - n / 2.

(** The size of a point in pixels: rounded, and at least one. *)
Definition point_pixels (size : Z) : Z := Z.max 1 ((size + 8) / 16).

Lemma half_size n : 0 <= n < 2 ^ 20 ->
  (if Z.shiftr (n * 16) 1 =? 0 then TRI_HALF else Z.shiftr (n * 16) 1) = 8 * Z.max 1 n.
Proof.
  intros H. rewrite shiftr_div by lia. change (2 ^ 1) with 2.
  replace (n * 16 / 2) with (8 * n) by div_lia. unfold TRI_HALF.
  destruct (Z.eqb_spec (8 * n) 0); lia.
Qed.

Lemma half_odd n : negb (Z.land (8 * n) TRI_HALF =? 0) = Z.odd n.
Proof.
  unfold TRI_HALF. rewrite <-Z.bit0_odd.
  destruct (Z.testbit n 0) eqn:E.
  - apply negb_true_iff, Z.eqb_neq. intros H. apply (f_equal (fun z => Z.testbit z 3)) in H.
    rewrite Z.land_spec, Z.bits_0 in H. change 8 with (2 ^ 3) in H at 1.
    rewrite Z.mul_comm, Z.mul_pow2_bits in H by lia. change (3 - 3) with 0 in H. rewrite E in H. done.
  - apply negb_false_iff, Z.eqb_eq. apply Z.bits_inj'. intros i Hi. rewrite Z.land_spec, Z.bits_0.
    destruct (Z.eq_dec i 3) as [->|Hn].
    + change 8 with (2 ^ 3) at 1. rewrite Z.mul_comm, Z.mul_pow2_bits by lia.
      change (3 - 3) with 0. by rewrite E.
    + change 8 with (2 ^ 3) at 2. rewrite Z.pow2_bits_false by lia. apply andb_false_r.
Qed.

(** The pixels a point covers along one axis. *)
Lemma point_extent v size :
  - 2 ^ 20 <= v <= 2 ^ 20 -> 0 <= size <= 2 ^ 20 ->
  let n := point_pixels size in
  let h := 8 * n in
  let c := if Z.odd n then s32 (TRI_FLOOR v + TRI_HALF) else TRI_ROUND v in
  Z.shiftr (s32 (c - h)) TRI_FRACTION_BITS = square_start v n /\
  Z.shiftr (s32 (c + h)) TRI_FRACTION_BITS = square_start v n + n.
Proof.
  intros Hv Hs n h c. assert (1 <= n <= 2 ^ 17) as Hn by (unfold n, point_pixels; div_lia).
  assert (c = if Z.odd n then v / 16 * 16 + 8 else (v + 8) / 16 * 16) as Ec.
  { unfold c. rewrite tri_floor, tri_round by lia. destruct (Z.odd n); [|done].
    unfold TRI_HALF. rewrite s32_id; [done|]. unfold is_s32. div_lia. }
  rewrite !tri_shift, Ec. unfold square_start, h. clearbody n. clear Ec c h.
  pose proof (Zmod_odd n) as Eo.
  assert (- 2 ^ 17 <= v / 16 <= 2 ^ 17 /\ - 2 ^ 17 <= (v + 8) / 16 <= 2 ^ 17) by div_lia.
  destruct (Z.odd n); rewrite !s32_id by (unfold is_s32; lia); div_lia.
Qed.

(** A point covers exactly the square of its size, rounded to pixels and
    centered on the pixel or corner nearest to the vertex, inside the
    scissor. *)
Theorem pointx_square s v size x y :
  - 2 ^ 20 <= fst v <= 2 ^ 20 -> - 2 ^ 20 <= snd v <= 2 ^ 20 -> 0 <= size <= 2 ^ 20 -> scissor_small s ->
  let n := point_pixels size in
  covered (pointx s v size) x y <->
  (square_start (fst v) n <= x < square_start (fst v) n + n /\
   square_start (snd v) n <= y < square_start (snd v) n + n) /\ in_scissor s x y.
Proof.
  intros Hx Hy Hs Hsc n.
  destruct (point_extent (fst v) size Hx Hs) as [L R]. destruct (point_extent (snd v) size Hy Hs) as [T B].
  fold n in L, R, T, B. unfold pointx. rewrite (tri_round size) by lia.
  rewrite half_size by div_lia. change (Z.max 1 _) with n. rewrite half_odd.
  assert (1 <= n <= 2 ^ 17) as Hn by (unfold n, point_pixels; div_lia).
  assert (forall v, - 2 ^ 20 <= v <= 2 ^ 20 -> - 2 ^ 29 <= square_start v n <= 2 ^ 29) as HB.
  { intros w Hw. unfold square_start. destruct (Z.odd n); div_lia. }
  pose proof (HB _ Hx). pose proof (HB _ Hy).
  destruct (Z.odd n) eqn:E; rewrite L, R, T, B; apply recti_spans; done || lia.
Qed.

(** ** Antialiased points *)

Lemma coverage_row_in cov n i x e :
  - 2 ^ 30 <= x -> x + 16 * Z.of_nat n < 2 ^ 31 ->
  In e (coverage_row cov n i x) ->
  exists k, 0 <= k < Z.of_nat n /\ e = Coverage (i + k) (cov (x + 16 * k)).
Proof.
  revert i x. induction n as [|n IH]; intros i x H1 H2 H; [done|]. cbn [coverage_row] in H.
  destruct H as [<-|H].
  - exists 0. split; [lia|]. f_equal; [lia|f_equal; lia].
  - unfold TRI_ONE in H. rewrite s32_id in H by (unfold is_s32; lia).
    apply IH in H as (k & Hk & ->); [|lia..]. exists (k + 1). split; [lia|]. f_equal; [lia|f_equal; lia].
Qed.

Lemma spans_coverage_row cov n i x es p : spans (coverage_row cov n i x ++ es) p = spans es p.
Proof. revert i x. induction n as [|n IH]; intros i x; cbn [coverage_row app spans]; [done|apply IH]. Qed.

(** The stores and the spans of a box of pixels. *)
Lemma coverage_rows_in cov n l xc xs y e :
  - 2 ^ 30 <= xs -> xs + 16 * Z.of_nat xc < 2 ^ 31 -> - 2 ^ 30 <= y -> y + 16 * Z.of_nat n < 2 ^ 31 ->
  In e (coverage_rows cov n l xc xs y) ->
  e = Scanline \/ e = Step_y \/
  exists k j, 0 <= k < Z.of_nat xc /\ 0 <= j < Z.of_nat n /\ e = Coverage (l + k) (cov (xs + 16 * k) (y + 16 * j)).
Proof.
  intros H1 H2. revert y. induction n as [|n IH]; intros y H3 H4 H; [done|]. cbn [coverage_rows] in H.
  apply in_app_iff in H as [H|[<-|[<-|H]]]; [|by left|by right; left|].
  - apply coverage_row_in in H as (k & Hk & ->); [|lia..]. right; right. exists k, 0.
    split; [lia|]. split; [lia|]. do 2 f_equal. lia.
  - unfold TRI_ONE in H. rewrite s32_id in H by (unfold is_s32; lia).
    apply IH in H as [->|[->|(k & j & Hk & Hj & ->)]]; [by left|by right; left| |lia..].
    right; right. exists k, (j + 1). split; [lia|]. split; [lia|]. do 2 f_equal. lia.
Qed.

Lemma coverage_rows_spans cov n l xc xs y p sp :
  In sp (spans (coverage_rows cov n l xc xs y) p) ->
  exists j, 0 <= j < Z.of_nat n /\ sp = (pn_y p + j, pn_xl p, pn_xr p).
Proof.
  revert y p. induction n as [|n IH]; intros y p H; [done|]. cbn [coverage_rows] in H.
  rewrite spans_coverage_row in H. cbn in H. destruct H as [<-|H].
  - exists 0. split; [lia|]. by rewrite Z.add_0_r.
  - apply IH in H as (j & Hj & ->). cbn. exists (j + 1). split; [lia|]. do 2 f_equal. lia.
Qed.

(** The box of a point: its pixels are in the scissor, within [rad + 16] of the
    center, and its offsets are those of the pixel centers. *)
Lemma aa_point_box_spec s v rad :
  - 2 ^ 20 <= fst v <= 2 ^ 20 -> - 2 ^ 20 <= snd v <= 2 ^ 20 -> 0 <= rad <= 2 ^ 20 -> scissor_small s ->
  let b := aa_point_box s v rad in
  scl s <= pb_l b /\ pb_r b <= scr s /\ sct s <= pb_t b /\ pb_b b <= scb s /\
  pb_x b = 16 * pb_l b + 8 - fst v /\ pb_y b = 16 * pb_t b + 8 - snd v /\
  - rad - 16 <= pb_x b /\ 16 * pb_r b <= fst v + rad + 16 /\
  - rad - 16 <= pb_y b /\ 16 * pb_b b <= snd v + rad + 16.
Proof.
  destruct v as [vx vy]. cbn [fst snd]. intros Hx Hy Hr (S1 & S2 & S3 & S4). unfold aa_point_box. rewrite !tri_shift.
  unfold TRI_ONE, TRI_HALF. rewrite !(s32_id (_ - rad)), !(s32_id (_ + rad + _)) by (unfold is_s32; lia).
  set (l := (vx - rad) / 16). set (t := (vy - rad) / 16).
  set (r := (vx + rad + (16 - 1)) / 16). set (b := (vy + rad + (16 - 1)) / 16).
  assert (- 2 ^ 18 <= l <= 2 ^ 18 /\ 16 * l <= vx - rad < 16 * l + 16) as El by (unfold l; div_lia).
  assert (- 2 ^ 18 <= t <= 2 ^ 18 /\ 16 * t <= vy - rad < 16 * t + 16) as Et by (unfold t; div_lia).
  assert (16 * r <= vx + rad + 15) as Er by (unfold r; div_lia).
  assert (16 * b <= vy + rad + 15) as Eb by (unfold b; div_lia).
  clearbody l t r b. rewrite (s32_id (scl s - l)), (s32_id (sct s - t)) by (unfold is_s32; lia).
  rewrite !tri_from_int by lia.
  rewrite (s32_id (16 * l - vx + 8)), (s32_id (16 * t - vy + 8)) by (unfold is_s32; lia).
  rewrite (s32_id (_ + 16 * (scl s - l))), (s32_id (_ + 16 * (sct s - t))) by (unfold is_s32; lia).
  destruct (Z.ltb_spec l (scl s)), (Z.ltb_spec t (sct s)), (Z.ltb_spec (scr s) r), (Z.ltb_spec (scb s) b);
    cbn [pb_l pb_t pb_r pb_b pb_x pb_y]; lia.
Qed.

(** The stores of a point's box: one coverage per pixel of the box, from the
    offset of the pixel's center; the spans are the box's rows. *)
Lemma draw_point_box_spec s v rad cov :
  - 2 ^ 20 <= fst v <= 2 ^ 20 -> - 2 ^ 20 <= snd v <= 2 ^ 20 -> 0 <= rad <= 2 ^ 20 -> scissor_small s ->
  let b := aa_point_box s v rad in
  box_empty b = false ->
  Forall (span_ok s) (drawn (draw_point_box cov b)) /\
  forall i c, In (Coverage i c) (draw_point_box cov b) ->
    exists j, in_scissor s i j /\ c = cov (16 * i + 8 - fst v) (16 * j + 8 - snd v) /\
      Z.abs (16 * i + 8 - fst v) <= rad + 16 /\ Z.abs (16 * j + 8 - snd v) <= rad + 16.
Proof.
  intros Hx Hy Hr Hs b He.
  destruct (aa_point_box_spec s v rad Hx Hy Hr Hs) as (B1 & B2 & B3 & B4 & X & Y & B5 & B6 & B7 & B8).
  fold b in B1, B2, B3, B4, B5, B6, B7, B8, X, Y. clearbody b.
  unfold box_empty in He. apply negb_false_iff, andb_true_iff in He as [E1%Z.ltb_lt E2%Z.ltb_lt].
  destruct Hs as (S1 & S2 & S3 & S4). unfold draw_point_box, drawn. split.
  - rewrite List.Forall_forall. intros sp H. cbn [app spans pn_y pn_xl pn_xr] in H.
    apply coverage_rows_spans in H as (j & Hj & ->). cbn. lia.
  - intros i c [H|[H|H]]; [done..|].
    apply coverage_rows_in in H as [H|[H|(k & j & Hk & Hj & H)]]; [done|done| |lia..].
    injection H as -> ->. exists (pb_t b + j). unfold in_scissor.
    split; [lia|]. split; [f_equal; lia|]. lia.
Qed.

Lemma coverageFast_range rad x y :
  1 <= rad <= 2 ^ 9 -> Z.abs x <= 2 ^ 12 -> Z.abs y <= 2 ^ 12 ->
  let r := rad * 16 in
  let rmin := (r - 0xB5) * (r - 0xB5) in
  let rmax := (r + 0xB5) * (r + 0xB5) in
  0 <= coverageFast x y (rmin / 2 ^ 8) (rmax / 2 ^ 8) (0x800000 / (rmax - rmin)) <= 0x7FFF.
Proof.
  intros Hr Hx Hy r rmin rmax. unfold coverageFast.
  assert (0 <= x * x <= 2 ^ 24) by nia. assert (0 <= y * y <= 2 ^ 24) by nia.
  rewrite !s32_id by (unfold is_s32; rewrite ?s32_id by (unfold is_s32; lia); lia).
  set (d2 := x * x + y * y). clearbody d2.
  destruct (Z.leb_spec (rmax / 2 ^ 8) d2); [lia|]. destruct (Z.ltb_spec d2 (rmin / 2 ^ 8)); [lia|].
  assert (rmax - rmin = 724 * r) as Ed by (unfold rmax, rmin; lia).
  assert (16 <= r <= 2 ^ 13) by (unfold r; lia).
  clearbody rmin rmax.
  set (k := d2 - rmin / 2 ^ 8). assert (0 <= k) as Hk0 by (unfold k; lia).
  assert (k * 256 < rmax - rmin) as Hk by (unfold k; div_lia).
  rewrite Ed in *. set (D := 724 * r) in *. assert (16 <= D <= 2 ^ 23) as HD by (unfold D; lia).
  clearbody k D. clear - Hk Hk0 HD.
  pose proof (Z.mul_div_le 0x800000 D ltac:(lia)) as Hs.
  assert (0 <= 0x800000 / D) by (apply Z.div_pos; lia).
  set (sc := 0x800000 / D) in *. clearbody sc.
  assert (k * sc * 256 <= 0x800000) by nia.
  assert (0 <= k * sc) by nia.
  assert (k * sc <> 0x8000) by nia.
  rewrite (s32_id k) by (unfold is_s32; lia).
  rewrite !s32_id by (unfold is_s32; rewrite ?s32_id by (unfold is_s32; lia); lia). lia.
Qed.

(** An antialiased point never divides by zero, draws only inside the scissor,
    and stores for each pixel of its box a coverage between 0 and 1.0
    ([0x7FFF]), computed from the distance of the pixel's center to the
    vertex. *)
Theorem aa_pointx_coverage s v size :
  - 2 ^ 20 <= fst v <= 2 ^ 20 -> - 2 ^ 20 <= snd v <= 2 ^ 20 -> 1 <= size < 2 ^ 10 -> scissor_small s ->
  exists es, aa_pointx s v size = Some es /\ Forall (span_ok s) (drawn es) /\
    forall i c, In (Coverage i c) es ->
      0 <= c <= 0x7FFF /\
      exists j, in_scissor s i j /\
        let r := (size + 1) / 2 * 16 in
        let rmin := (r - 0xB5) * (r - 0xB5) in
        let rmax := (r + 0xB5) * (r + 0xB5) in
        c = coverageFast (16 * i + 8 - fst v) (16 * j + 8 - snd v) (rmin / 2 ^ 8) (rmax / 2 ^ 8)
              (0x800000 / (rmax - rmin)).
Proof.
  intros Hx Hy Hsz Hs. unfold aa_pointx.
  rewrite (s32_id (size + 1)), (shiftr_div (size + 1) 1) by (unfold is_s32; lia). change (2 ^ 1) with 2.
  assert (1 <= (size + 1) / 2 <= 2 ^ 9) as Hr by div_lia. set (rad := (size + 1) / 2) in *. clearbody rad.
  destruct (box_empty (aa_point_box s v rad)) eqn:E.
  { exists []. split; [done|]. split; [constructor|done]. }
  rewrite (shiftl_mul rad 4), (s32_id (rad * 2 ^ 4)) by (unfold is_s32; lia). change (2 ^ 4) with 16.
  cbv zeta. set (r := rad * 16). assert (16 <= r <= 2 ^ 13) by (unfold r; lia).
  rewrite (s32_id (r - 0xB5)), (s32_id (r + 0xB5)) by (unfold is_s32; lia).
  assert (is_s32 ((r - 0xB5) * (r - 0xB5)) /\ is_s32 ((r + 0xB5) * (r + 0xB5))) as [B1 B2] by (unfold is_s32; nia).
  rewrite (s32_id ((r - 0xB5) * (r - 0xB5))), (s32_id ((r + 0xB5) * (r + 0xB5))) by done.
  rewrite (s32_id (_ - _)) by (unfold is_s32; lia).
  assert ((r + 0xB5) * (r + 0xB5) - (r - 0xB5) * (r - 0xB5) = 724 * r) as Ed by lia.
  rewrite (proj2 (Z.eqb_neq _ 0)) by lia. rewrite Z.quot_div_nonneg, !shiftr_div by lia.
  eexists. split; [reflexivity|].
  destruct (draw_point_box_spec s v rad (fun x y => coverageFast x y ((r - 0xB5) * (r - 0xB5) / 2 ^ 8)
    ((r + 0xB5) * (r + 0xB5) / 2 ^ 8) (0x800000 / ((r + 0xB5) * (r + 0xB5) - (r - 0xB5) * (r - 0xB5)))))
    as [H1 H2]; [done|done|lia|done|done|].
  split; [exact H1|]. intros i c Hc. apply H2 in Hc as (j & Hj & -> & Dx & Dy).
  split; [apply coverageFast_range; lia|]. exists j. split; [done|]. done.
Qed.

(** A point of size 0 that touches a pixel divides by zero. *)
Theorem aa_pointx_size_zero :
  aa_pointx (mk_scissor 0 0 0 0 0 20 0 10) (40, 40) 0 = None.
Proof. reflexivity. Qed.

(** ** Triangles *)

Lemma lor_1 y : Z.lor y 1 = 2 * (y / 2) + 1.
Proof.
  assert (forall q, Z.lor (q * 2) 1 = q * 2 + 1) as L by (intros q; apply (lor_add_small q 1 1); lia).
  assert (y = y / 2 * 2 \/ y = y / 2 * 2 + 1) as [E|E] by div_lia; rewrite E at 1.
  - rewrite L. lia.
  - rewrite <-L, <-Z.lor_assoc, Z.lor_diag, L. lia.
Qed.

(** The first row whose center is at or below [y]. *)
Definition first_row (y : Z) : Z := (Z.lor y 1 + 7) / 16.

Lemma first_row_mono y y' : y <= y' -> first_row y <= first_row y'.
Proof. intros H. unfold first_row. rewrite !lor_1. div_lia. Qed.

(** A vertex of a triangle on, or not too far from, a 4096 x 4096 surface. *)
Definition vertex_ok (v : vertex) : Prop := Z.abs (fst v) <= 2 ^ 29 /\ - 2 ^ 15 <= snd v <= 2 ^ 16.

(** The rows an edge from [y1] down to [y2] crosses, clipped to [m .. M]. *)
Definition edge_top (m y1 : Z) : Z := Z.max m (first_row y1).
Definition edge_bot (M y2 : Z) : Z := Z.min M (first_row y2 - 1).
Definition row_pos (k : Z) : Z := 16 * k + 8.

(** The result of [edge_setup] on the rows from [m] to [M]. *)
Definition edge_rows (m M y1 y2 : Z) (es : list Edge) : Prop :=
  if edge_top m y1 <=? edge_bot M y2
  then exists e, es = [e] /\ e_y_top e = row_pos (edge_top m y1) /\ e_y_bot e = row_pos (edge_bot M y2)
  else es = [].

Lemma edge_quotient dx dy :
  dx <> 0 -> Z.abs dx <= 2 ^ 30 -> 0 < dy < 2 ^ 17 -> exists q, gglDivQ16 dx dy = Some q.
Proof.
  intros H Hx Hy. unfold gglDivQ16. rewrite gglDivQ_value by lia.
  rewrite (proj2 (Z.leb_le 1 _)); [by eexists|]. unfold divq_bits.
  rewrite !gglClz_pos by lia.
  assert (Z.log2 (Z.abs dy) < 17) by (apply Z.log2_lt_pow2; lia).
  pose proof (Z.log2_nonneg (Z.abs dx)). lia.
Qed.

Lemma edge_setup_rows p1 p2 m M :
  vertex_ok p1 -> vertex_ok p2 -> 0 <= m <= 2 ^ 12 -> -1 <= M <= 2 ^ 12 ->
  exists es, edge_setup p1 p2 (row_pos m) (row_pos M) = Some es /\
    edge_rows m M (Z.min (snd p1) (snd p2)) (Z.max (snd p1) (snd p2)) es.
Proof.
  intros [X1 Y1] [X2 Y2] Hm HM. unfold edge_setup.
  assert (exists t b, (if snd p2 <? snd p1 then (p2, p1) else (p1, p2)) = (t, b) /\
    snd t = Z.min (snd p1) (snd p2) /\ snd b = Z.max (snd p1) (snd p2) /\
    Z.abs (fst t) <= 2 ^ 29 /\ Z.abs (fst b) <= 2 ^ 29) as (t & b & -> & Et & Eb & Xt & Xb)
    by (destruct (Z.ltb_spec (snd p2) (snd p1)); eexists _, _; (split; [reflexivity|]); lia).
  rewrite <-Et, <-Eb. assert (- 2 ^ 15 <= snd t /\ snd t <= snd b /\ snd b <= 2 ^ 16) as (B1 & B2 & B3) by lia.
  clear Et Eb X1 Y1 X2 Y2 p1 p2.
  unfold edge_rows, edge_top, edge_bot, first_row, row_pos, TRI_SNAP_NEXT_HALF, TRI_SNAP_PREV_HALF.
  rewrite !lor_1. set (y1 := 2 * (snd t / 2) + 1). set (y2 := 2 * (snd b / 2) + 1).
  assert (- 2 ^ 15 <= y1 <= y2 /\ y2 <= 2 ^ 16 + 1 /\ y1 mod 2 = 1 /\ y2 mod 2 = 1) as (C1 & C2 & C3 & C4)
    by (unfold y1, y2; div_lia).
  clearbody y1 y2. rewrite (s32_id (y2 - y1)), (s32_id (y1 + _)), (s32_id (y2 - _)) by (unfold is_s32, TRI_HALF; lia).
  rewrite !tri_ceil by (unfold TRI_HALF; lia). unfold TRI_HALF.
  rewrite (s32_id ((y1 + 8 + 15) / 16 * 16 - 8)), (s32_id ((y2 - 8 + 15) / 16 * 16 - 8)) by (unfold is_s32; div_lia).
  set (k1 := (y1 + 7) / 16). set (k2 := (y2 + 7) / 16).
  assert ((y1 + 8 + 15) / 16 * 16 - 8 = 16 * k1 + 8) as -> by (unfold k1; div_lia).
  assert ((y2 - 8 + 15) / 16 * 16 - 8 = 16 * (k2 - 1) + 8) as -> by (unfold k2; div_lia).
  assert (16 * k1 - 8 < y1 < 16 * k1 + 9 /\ 16 * k2 - 8 < y2 < 16 * k2 + 9) as (K1 & K2) by (unfold k1, k2; div_lia).
  assert (y1 <> 16 * k1 + 8 /\ y2 <> 16 * k2 + 8 /\ (y2 - y1 = 0 -> k1 = k2)) as (N1 & N2 & N3).
  { assert (forall k, (16 * k + 8) mod 2 = 0) as HE by (intros; div_lia).
    split; [intros E; rewrite E, HE in C3; lia|]. split; [intros E; rewrite E, HE in C4; lia|].
    intros. unfold k1, k2. do 2 f_equal. lia. }
  clearbody k1 k2.
  destruct (Z.eqb_spec (y2 - y1) 0), (Z.ltb_spec (16 * M + 8) y1), (Z.ltb_spec y2 (16 * m + 8)); cbn [orb];
    try (eexists; split; [reflexivity|]; by destruct (Z.leb_spec (Z.max m k1) (Z.min M (k2 - 1))); [lia|]).
  assert ((if 16 * m + 8 <? y1 then 16 * k1 + 8 else 16 * m + 8) = 16 * Z.max m k1 + 8) as ->
    by (destruct (Z.ltb_spec (16 * m + 8) y1); lia).
  assert ((if y2 <? 16 * M + 8 then 16 * (k2 - 1) + 8 else 16 * M + 8) = 16 * Z.min M (k2 - 1) + 8) as ->
    by (destruct (Z.ltb_spec y2 (16 * M + 8)); lia).
  destruct (Z.leb_spec (Z.max m k1) (Z.min M (k2 - 1))), (Z.ltb_spec (16 * Z.min M (k2 - 1) + 8) (16 * Z.max m k1 + 8));
    try lia; [|eexists; split; reflexivity].
  rewrite (proj2 (Z.leb_le _ _)) by lia. cbn [andb].
  rewrite (s32_id (fst b - fst t)) by (unfold is_s32; lia).
  destruct (Z.eqb_spec (fst b - fst t) 0) as [E|E]; cbn [negb].
  - cbn [mbind option_bind]. eexists. split; [reflexivity|]. by eexists.
  - destruct (edge_quotient (fst b - fst t) (y2 - y1)) as [q ->]; [lia..|].
    cbn [mbind option_bind]. eexists. split; [reflexivity|]. by eexists.
Qed.

(** Spans in the rows from [lo] up to [hi], one at most in each row, from the
    top down, inside the scissor's columns. *)
Definition span_row (sp : Z * Z * Z) : Z := fst (fst sp).
Definition rows_between (s : scissor_t) (lo hi : Z) (sps : list (Z * Z * Z)) : Prop :=
  Forall (fun '(y, xl, xr) => lo <= y < hi /\ scl s <= xl < xr /\ xr <= scr s) sps /\
  StronglySorted (fun a b => span_row a < span_row b) sps.

Lemma rows_between_nil s lo hi : rows_between s lo hi [].
Proof. split; constructor. Qed.

Lemma rows_between_app s lo mid hi a b :
  lo <= mid <= hi -> rows_between s lo mid a -> rows_between s mid hi b -> rows_between s lo hi (a ++ b).
Proof.
  intros Hm [A1 A2] [B1 B2]. split.
  - apply Forall_app. split; [eapply Forall_impl; [exact A1|]|eapply Forall_impl; [exact B1|]];
      intros [[y xl] xr] (? & ? & ?); lia.
  - induction A2 as [|x a Ha IH Hx]; [done|]. cbn. apply Forall_cons in A1 as [Hx1 A1].
    constructor; [by apply IH|]. apply Forall_app. split; [done|].
    eapply Forall_impl; [exact B1|]. intros [[y xl] xr] (? & ? & ?). destruct x as [[y' ?] ?].
    unfold span_row. cbn. cbn in Hx1. lia.
Qed.

Lemma max2_max a b : max2 a b = Z.max a b.
Proof. unfold max2. destruct (Z.ltb_spec a b); lia. Qed.
Lemma min2_min a b : min2 a b = Z.min a b.
Proof. unfold min2. destruct (Z.ltb_spec a b); lia. Qed.

Lemma sweep_rows_spans s n lx lxi rx rxi es p :
  exists sps p', spans (sweep_rows n (scl s) (scr s) lx lxi rx rxi ++ es) p = sps ++ spans es p' /\
    pn_y p' = pn_y p + Z.of_nat n /\ rows_between s (pn_y p) (pn_y p + Z.of_nat n) sps.
Proof.
  revert lx rx p. induction n as [|n IH]; intros lx rx p; cbn [sweep_rows].
  { exists [], p. split; [done|]. split; [lia|apply rows_between_nil]. }
  rewrite max2_max, min2_min. set (xl := Z.max _ _). set (xr := Z.min _ _).
  destruct (Z.ltb_spec xl xr); cbn [app spans].
  - destruct (IH (s32 (lx + lxi)) (s32 (rx + rxi)) (mk_pen (pn_y p + 1) xl xr)) as (sps & p' & E & Ey & HR).
    cbn [pn_y pn_xl pn_xr] in *. exists ((pn_y p, xl, xr) :: sps), p'. rewrite E. split; [done|].
    split; [lia|]. apply (rows_between_app s _ (pn_y p + 1) _ [(pn_y p, xl, xr)]); [lia| |].
    + split; [|repeat constructor]. constructor; [|constructor]. unfold xl, xr in *. lia.
    + by replace (pn_y p + Z.of_nat (S n)) with (pn_y p + 1 + Z.of_nat n) by lia.
  - destruct (IH (s32 (lx + lxi)) (s32 (rx + rxi)) (mk_pen (pn_y p + 1) (pn_xl p) (pn_xr p))) as (sps & p' & E & Ey & HR).
    cbn [pn_y pn_xl pn_xr] in *. exists sps, p'. split; [done|]. split; [lia|].
    apply (rows_between_app s _ (pn_y p + 1) _ []); [lia|apply rows_between_nil|].
    by replace (pn_y p + Z.of_nat (S n)) with (pn_y p + 1 + Z.of_nat n) by lia.
Qed.

(** A sweep from row [a] to row [b] keeps the rows of its edges and steps
    through those rows. *)
Lemma sweep_edges_spans s l r a b es p :
  0 <= a <= b + 1 -> b <= 2 ^ 12 ->
  let '(l', r', sw) := triangle_sweep_edges s l r (row_pos a) (row_pos b) in
  (e_y_top l' = e_y_top l /\ e_y_bot l' = e_y_bot l) /\ (e_y_top r' = e_y_top r /\ e_y_bot r' = e_y_bot r) /\
  exists sps p', spans (sw ++ es) p = sps ++ spans es p' /\
    pn_y p' = pn_y p + (b + 1 - a) /\ rows_between s (pn_y p) (pn_y p + (b + 1 - a)) sps.
Proof.
  intros Ha Hb. unfold triangle_sweep_edges, row_pos. rewrite tri_shift.
  rewrite (s32_id (16 * b + 8 - _)) by (unfold is_s32; lia).
  replace ((16 * b + 8 - (16 * a + 8)) / 16) with (b - a) by div_lia.
  rewrite s32_id by (unfold is_s32; lia). destruct (Z.leb_spec (b - a + 1) 0).
  - split; [done|]. split; [done|]. exists [], p. split; [done|]. split; [lia|apply rows_between_nil].
  - destruct (if (e_x r <? e_x l) || _ then (r, l) else (l, r)) as [l' r'].
    split; [done|]. split; [done|].
    destruct (sweep_rows_spans s (Z.to_nat (b - a + 1)) (e_x l') (e_x_incr l') (e_x r') (e_x_incr r') es p)
      as (sps & p' & E & Ey & HR). rewrite Z2Nat.id in * by lia.
    exists sps, p'. replace (b + 1 - a) with (b - a + 1) by lia. done.
Qed.

Lemma sweep_triangle_spans s lft rgt other a b ym :
  0 <= a <= ym + 1 -> ym <= b <= 2 ^ 12 ->
  min2 (e_y_bot lft) (e_y_bot rgt) = row_pos ym -> (ym < b -> other <> None) ->
  exists es, sweep_triangle s lft rgt other (row_pos a) (row_pos b) = Some es /\
    rows_between s a (b + 1) (drawn es).
Proof.
  intros Ha Hb Em Ho. unfold sweep_triangle. rewrite Em.
  pose proof (fun es p => sweep_edges_spans s lft rgt a ym es p Ha ltac:(lia)) as H1.
  destruct (triangle_sweep_edges s lft rgt (row_pos a) (row_pos ym)) as [[l' r'] sw].
  assert (Z.shiftr (row_pos a) TRI_FRACTION_BITS = a) as -> by (rewrite tri_shift; unfold row_pos; div_lia).
  assert (s32 (row_pos ym + TRI_ONE) = row_pos (ym + 1)) as ->
    by (unfold row_pos, TRI_ONE; rewrite s32_id; [lia|unfold is_s32; lia]).
  unfold drawn. destruct (Z.leb_spec (row_pos (ym + 1)) (row_pos b)) as [L|L]; unfold row_pos in L.
  - destruct other as [o|]; [|by specialize (Ho ltac:(lia))]. cbn [mbind option_bind].
    destruct (if e_y_bot l' =? row_pos b then _ else _) as [l2 r2].
    eexists. split; [reflexivity|]. cbn [app spans].
    destruct (H1 (snd (triangle_sweep_edges s l2 r2 (row_pos (ym + 1)) (row_pos b))) (mk_pen a 0 0))
      as (_ & _ & sps & p' & E & Ey & HR). cbn [pn_y pn_xl pn_xr] in *. rewrite E.
    pose proof (sweep_edges_spans s l2 r2 (ym + 1) b [] p' ltac:(lia) ltac:(lia)) as H2.
    destruct (triangle_sweep_edges s l2 r2 _ _) as [[? ?] sw2]. cbn [snd].
    destruct H2 as (_ & _ & sps2 & p2 & E2 & Ey2 & HR2). rewrite app_nil_r in E2. rewrite E2. cbn [spans].
    rewrite app_nil_r. apply (rows_between_app s a (ym + 1)); [lia| |].
    + by replace (ym + 1) with (a + (ym + 1 - a)) by lia.
    + replace (ym + 1) with (pn_y p') by lia. by replace (b + 1) with (pn_y p' + (b + 1 - (ym + 1))) by lia.
  - eexists. split; [reflexivity|]. cbn [spans].
    destruct (H1 [] (mk_pen a 0 0)) as (_ & _ & sps & p' & E & Ey & HR).
    cbn [pn_y pn_xl pn_xr] in *. rewrite app_nil_r in E. rewrite E. cbn [spans]. rewrite app_nil_r.
    replace (b + 1) with (a + (ym + 1 - a)) by lia. done.
Qed.

Lemma first_row_min y y' : first_row (Z.min y y') = Z.min (first_row y) (first_row y').
Proof.
  destruct (Z.le_gt_cases y y') as [H|H].
  - pose proof (first_row_mono _ _ H). rewrite !Z.min_l by lia. done.
  - pose proof (first_row_mono y' y ltac:(lia)). rewrite !Z.min_r by lia. done.
Qed.
Lemma first_row_max y y' : first_row (Z.max y y') = Z.max (first_row y) (first_row y').
Proof.
  destruct (Z.le_gt_cases y y') as [H|H].
  - pose proof (first_row_mono _ _ H). rewrite !Z.max_r by lia. done.
  - pose proof (first_row_mono y' y ltac:(lia)). rewrite !Z.max_l by lia. done.
Qed.

(** The rows between two row positions, and the choice among edges. *)
Lemma min_pos a b : Z.min (row_pos a) (row_pos b) = row_pos (Z.min a b).
Proof. unfold row_pos. lia. Qed.
Lemma max_pos a b : Z.max (row_pos a) (row_pos b) = row_pos (Z.max a b).
Proof. unfold row_pos. lia. Qed.
Lemma ltb_pos a b : (row_pos a <? row_pos b) = (a <? b).
Proof. unfold row_pos. destruct (Z.ltb_spec a b), (Z.ltb_spec (16 * a + 8) (16 * b + 8)); lia. Qed.

(** Two edges of a triangle that cross a scanline: the rows [T .. B] of the
    edge between vertices whose first rows are [T], and last rows before
    [B + 1]. *)
Definition crosses (T T' B B' : Z) (es : list Edge) : Prop :=
  if Z.min T T' <=? Z.max B B'
  then exists e, es = [e] /\ e_y_top e = row_pos (Z.min T T') /\ e_y_bot e = row_pos (Z.max B B')
  else es = [].

(** What the sweeps need of the chosen edges. *)
Definition choice_ok (m M : Z) (ch : option (Edge * Edge * option Edge * (Z * Z))) : Prop :=
  ch = None \/
  exists lft rgt other a b ym,
    ch = Some (lft, rgt, other, (row_pos a, row_pos b)) /\
    m <= a /\ a <= ym /\ ym <= b <= M /\
    min2 (e_y_bot lft) (e_y_bot rgt) = row_pos ym /\ (ym < b -> other <> None).

(** The rows of a vertex, clipped: [T] is the first row below it. *)
Definition clipped_row (m M T B : Z) : Prop :=
  m <= T /\ B <= M /\ B < T /\ (m <= B -> T <= M -> T = B + 1) /\
  (B < m -> m <= M -> T = m) /\ (M < T -> m <= M -> B = M).

Lemma choose_three m M a b c a' b' c' f01 f02 f12 :
  m <= a -> m <= b -> m <= c -> a' <= M -> b' <= M -> c' <= M -> a <= a' -> b <= b' -> c <= c' ->
  e_y_top f01 = row_pos a -> e_y_bot f01 = row_pos a' -> e_y_top f02 = row_pos b -> e_y_bot f02 = row_pos b' ->
  e_y_top f12 = row_pos c -> e_y_bot f12 = row_pos c' ->
  choice_ok m M (choose_edges [f01; f02; f12]).
Proof.
  intros H1 H2 H3 H4 H5 H6 H7 H8 H9 T01 B01 T02 B02 T12 B12. right. cbn [choose_edges].
  rewrite !max2_max, !min2_min, T01, T02, T12, B01, B02, B12, !min_pos, !max_pos, !ltb_pos.
  destruct (Z.ltb_spec (Z.min (Z.min a b) c) a); [|destruct (Z.ltb_spec (Z.min (Z.min a b) c) b)].
  - exists f12, f02, (Some f01), (Z.min (Z.min a b) c), (Z.max (Z.max a' b') c'), (Z.min c' b').
    rewrite min2_min, B02, B12, min_pos. split_and!; try done; lia.
  - exists f01, f12, (Some f02), (Z.min (Z.min a b) c), (Z.max (Z.max a' b') c'), (Z.min a' c').
    rewrite min2_min, B01, B12, min_pos. split_and!; try done; lia.
  - exists f01, f02, (Some f12), (Z.min (Z.min a b) c), (Z.max (Z.max a' b') c'), (Z.min a' b').
    rewrite min2_min, B01, B02, min_pos. split_and!; try done; lia.
Qed.

Lemma choose_two m M a b a' b' f g :
  m <= a -> a = b -> a <= a' -> a' = b' -> a' <= M ->
  e_y_top f = row_pos a -> e_y_bot f = row_pos a' -> e_y_top g = row_pos b -> e_y_bot g = row_pos b' ->
  choice_ok m M (choose_edges [f; g]).
Proof.
  intros H1 <- H2 <- H3 T B T' B'. right. cbn [choose_edges].
  rewrite max2_max, min2_min, T, B, T', B', Z.min_id, Z.max_id.
  exists f, g, None, a, a', a'. rewrite min2_min, B, B', Z.min_id. split_and!; try done; lia.
Qed.

(** An edge that covers the rows [T .. B], and no edge. *)
Definition edge_is (T B : Z) (es : list Edge) : Prop :=
  exists e, es = [e] /\ e_y_top e = row_pos T /\ e_y_bot e = row_pos B.

(** The middle vertex of a triangle whose long edge crosses rows: it is above
    all of them, below all of them, or among them. *)
Lemma middle_row m M T0 T1 B1 B2 :
  clipped_row m M T1 B1 -> m <= T0 -> B2 <= M -> T0 <= T1 -> B1 <= B2 -> T0 <= B2 ->
  (B1 < T0 /\ T0 = T1) \/ (T0 <= B1 /\ B2 < T1 /\ B1 = B2) \/ (T0 <= B1 /\ T1 <= B2).
Proof.
  intros (C & D & F & G & I & J) H0 H2 HT HB HN.
  destruct (Z.lt_ge_cases B1 T0) as [H|H].
  - left. split; [done|]. destruct (Z.lt_ge_cases B1 m); [rewrite I; lia|].
    destruct (Z.le_gt_cases T1 M); [assert (T1 = B1 + 1) by (apply G; lia)|assert (B1 = M) by (apply J; lia)]; lia.
  - right. destruct (Z.lt_ge_cases B2 T1); [left|right; lia]. split_and!; [done..|].
    destruct (Z.le_gt_cases T1 M); [|assert (B1 = M) by (apply J; lia); lia]. assert (T1 = B1 + 1) by (apply G; lia). lia.
Qed.

(** Of a triangle with vertices from the top down: all three edges cross
    scanlines, or two that span the same rows, or none does. *)
Lemma classify_edges m M T0 T1 T2 B0 B1 B2 e01 e02 e12 :
  clipped_row m M T0 B0 -> clipped_row m M T1 B1 -> clipped_row m M T2 B2 ->
  T0 <= T1 <= T2 -> B0 <= B1 <= B2 ->
  crosses T0 T1 B0 B1 e01 -> crosses T0 T2 B0 B2 e02 -> crosses T1 T2 B1 B2 e12 ->
  (e01 = [] /\ e02 = [] /\ e12 = []) \/
  (exists T B, m <= T <= B /\ B <= M /\ edge_is T B e02 /\
     (e01 = [] /\ edge_is T B e12 \/ e12 = [] /\ edge_is T B e01)) \/
  (m <= T0 <= B1 /\ m <= T1 <= B2 /\ T0 <= B2 /\ B1 <= M /\ B2 <= M /\
   edge_is T0 B1 e01 /\ edge_is T0 B2 e02 /\ edge_is T1 B2 e12).
Proof.
  intros (C0 & _) H1 (_ & D2 & _) HT HB R01 R02 R12.
  unfold crosses in *. fold (edge_is (Z.min T0 T1) (Z.max B0 B1) e01) in R01.
  fold (edge_is (Z.min T0 T2) (Z.max B0 B2) e02) in R02. fold (edge_is (Z.min T1 T2) (Z.max B1 B2) e12) in R12.
  rewrite (Z.min_l T0 T1), (Z.max_r B0 B1) in R01 by lia. rewrite (Z.min_l T0 T2), (Z.max_r B0 B2) in R02 by lia.
  rewrite (Z.min_l T1 T2), (Z.max_r B1 B2) in R12 by lia.
  destruct (Z.leb_spec T0 B2) as [L|L].
  - right. destruct (middle_row m M T0 T1 B1 B2 H1) as [[A <-]|[(A & A' & <-)|[A A']]]; [lia..| | |].
    + left. exists T0, B2. rewrite (proj2 (Z.leb_gt _ _)) in R01 by lia.
      rewrite (proj2 (Z.leb_le _ _)) in R12 by lia. split_and!; try lia; try done. by left.
    + left. exists T0, B1. rewrite (proj2 (Z.leb_le _ _)) in R01 by lia.
      rewrite (proj2 (Z.leb_gt _ _)) in R12 by lia. split_and!; try lia; try done. by right.
    + right. rewrite (proj2 (Z.leb_le _ _)) in R01 by lia.
      rewrite (proj2 (Z.leb_le _ _)) in R12 by lia. destruct H1 as (? & ? & _). split_and!; done || lia.
  - left. rewrite (proj2 (Z.leb_gt _ _)) in R01 by lia.
    rewrite (proj2 (Z.leb_gt _ _)) in R12 by lia. done.
Qed.

Lemma choose_edges_two m M T B es es' :
  m <= T <= B -> B <= M -> edge_is T B es -> edge_is T B es' -> choice_ok m M (choose_edges (es ++ es')).
Proof.
  intros H1 H2 (f & -> & Tf & Bf) (g & -> & Tg & Bg).
  apply (choose_two m M T T B B); done || lia.
Qed.

Lemma choose_edges_three m M T0 T1 T2 B0 B1 B2 e0 e1 e2 :
  edge_is T0 B0 e0 -> edge_is T1 B1 e1 -> edge_is T2 B2 e2 ->
  m <= T0 <= B0 -> m <= T1 <= B1 -> m <= T2 <= B2 -> B0 <= M -> B1 <= M -> B2 <= M ->
  choice_ok m M (choose_edges (e0 ++ e1 ++ e2)).
Proof.
  intros (f & -> & Tf & Bf) (g & -> & Tg & Bg) (h & -> & Th & Bh) H0 H1 H2 M0 M1 M2. cbn [app].
  apply (choose_three m M T0 T1 T2 B0 B1 B2); done || lia.
Qed.

(** The sweeps never read a missing third edge, in whatever order the vertices
    are given. *)
Lemma choose_edges_rows m M T0 T1 T2 B0 B1 B2 e01 e02 e12 :
  clipped_row m M T0 B0 -> clipped_row m M T1 B1 -> clipped_row m M T2 B2 ->
  (T0 <= T1 /\ B0 <= B1 \/ T1 <= T0 /\ B1 <= B0) -> (T0 <= T2 /\ B0 <= B2 \/ T2 <= T0 /\ B2 <= B0) ->
  (T1 <= T2 /\ B1 <= B2 \/ T2 <= T1 /\ B2 <= B1) ->
  crosses T0 T1 B0 B1 e01 -> crosses T0 T2 B0 B2 e02 -> crosses T1 T2 B1 B2 e12 ->
  choice_ok m M (choose_edges (e01 ++ e02 ++ e12)).
Proof.
  intros C0 C1 C2 O01 O02 O12 R01 R02 R12.
  assert (forall T T' B B' es, crosses T T' B B' es -> crosses T' T B' B es) as Sw
    by (intros T T' B B' es; unfold crosses; by rewrite (Z.min_comm T), (Z.max_comm B)).
  assert (T0 <= T1 <= T2 /\ B0 <= B1 <= B2 \/ T0 <= T2 <= T1 /\ B0 <= B2 <= B1 \/
          T1 <= T0 <= T2 /\ B1 <= B0 <= B2 \/ T1 <= T2 <= T0 /\ B1 <= B2 <= B0 \/
          T2 <= T0 <= T1 /\ B2 <= B0 <= B1 \/ T2 <= T1 <= T0 /\ B2 <= B1 <= B0) as [O|[O|[O|[O|[O|O]]]]] by lia;
    destruct O as [OT OB];
    [pose proof (classify_edges m M T0 T1 T2 B0 B1 B2 e01 e02 e12) as H
    |pose proof (classify_edges m M T0 T2 T1 B0 B2 B1 e02 e01 e12) as H
    |pose proof (classify_edges m M T1 T0 T2 B1 B0 B2 e01 e12 e02) as H
    |pose proof (classify_edges m M T1 T2 T0 B1 B2 B0 e12 e01 e02) as H
    |pose proof (classify_edges m M T2 T0 T1 B2 B0 B1 e02 e12 e01) as H
    |pose proof (classify_edges m M T2 T1 T0 B2 B1 B0 e12 e02 e01) as H];
    (destruct H as [(-> & -> & ->)|[(T & B & HT & HB & E1 & [[-> E2]|[-> E2]])|(H1 & H2 & H3 & H4 & H5 & E1 & E2 & E3)]];
      [auto..|by left| | |];
      [cbn [app]; rewrite ?app_nil_r; by eapply choose_edges_two ..
      |eapply choose_edges_three; [eassumption|eassumption|eassumption|lia..]]).
Qed.


(** ** Witnesses *)

Definition example_scissor : scissor_t := mk_scissor 0 0 0 0 0 20 0 10.

Lemma pointx_square_witness : covered (pointx example_scissor (40, 50) 45) 3 2.
Proof.
  apply (pointx_square example_scissor (40, 50) 45 3 2); [vm_compute; intuition congruence..|].
  vm_compute. intuition congruence.
Defined.

Lemma aa_pointx_coverage_witness :
  exists es, aa_pointx example_scissor (40, 50) 45 = Some es /\ Forall (span_ok example_scissor) (drawn es).
Proof.
  destruct (aa_pointx_coverage example_scissor (40, 50) 45) as (es & E & H & _); [vm_compute; intuition congruence..|].
  exists es. by split.
Defined.

