(* ===== verification/Raster.v ===== *)
(** * Raster position, pixel copies and bit blits

    Models libpixelflinger/raster.cpp.  A copy of pixels works on the byte
    memory of [Surface.v]; a bit blit sets one texture unit up and draws a
    rectangle with it.  The result of a copy is [None] where [memcpy] would be
    called on overlapping rows, which C leaves undefined; the result of a blit
    is [None] where the code divides by zero or stores into a texture unit that
    does not exist.  [copyPixels_translates] gives what a copy does to the
    color buffer. *)

From S2P Require Import Prelude Fixed Names Context PixelFormat Surface PixelFlinger Picker Iterators Pipeline Shortcuts Scanline Trap.

(** ** The raster position *)

Definition ggl_rasterPos2x (x y : Z) (c : context_t) : context_t :=
  upd_state (fun st => st <| st_raster := mk_raster x y |>) c.

Definition ggl_rasterPos2i (x y : Z) (c : context_t) : context_t :=
  ggl_rasterPos2x (gglIntToFixed x) (gglIntToFixed y) c.

(** ** Copying rows *)

(** The C library's [memmove]; [memcpy] is the same where it is defined. *)
Definition move_bytes (n dst src : Z) (m : mem) : mem :=
  fun a => if (dst <=? a) && (a <? dst + n) then m (src + (a - dst)) else m a.
Definition memmove (n dst src : Z) (m : mem) : option mem := Some (move_bytes n dst src m).
Definition memcpy_apart (n dst src : Z) (m : mem) : option mem :=
  if (dst + n <=? src) || (src + n <=? dst) then Some (move_bytes n dst src m) else None.

(** The [do] loops, over [yc] rows: the first takes the rows downwards from
    [dst] and [src], the second upwards to them. *)
Fixpoint copy_down (copy : Z -> Z -> mem -> option mem) (yc : nat) (bpr dst src : Z) (m : mem)
    : option mem :=
  match yc with
  | O => Some m
  | S yc => m ← copy dst src m; copy_down copy yc bpr (dst + bpr) (src + bpr) m
  end.
Fixpoint copy_up (copy : Z -> Z -> mem -> option mem) (yc : nat) (bpr dst src : Z) (m : mem)
    : option mem :=
  match yc with
  | O => Some m
  | S yc =>
      let dst := dst - bpr in
      let src := src - bpr in
      m ← copy dst src m; copy_up copy yc bpr dst src m
  end.

(** ** [ggl_copyPixels] *)

(** One axis of the clip to the scissor: destination, source and extent. *)
Definition clip_axis (lo hi pos src len : Z) : Z * Z * Z :=
  let '(pos, src, len) :=
    if pos <? lo
    then let offset := s32 (lo - pos) in (lo, s32 (src + offset), s32 (len - offset))
    else (pos, src, len) in
  (pos, src, if hi <? s32 (pos + len) then s32 (hi - pos) else len).

(** The tests that the source lies in the color buffer. *)
Definition source_outside (cb : surface_t) (xs ys width height : Z) : bool :=
  (sf_width cb <? u32 xs) || (sf_height cb <? u32 ys) ||
  (sf_width cb <? u32 (xs + width)) || (sf_height cb <? u32 (ys + height)).

Definition raster_pos (c : context_t) : Z * Z :=
  let r := st_raster (c_state c) in (gglFixedToIntRound (ra_x r), gglFixedToIntRound (ra_y r)).

Definition pixel_pointer (cb : surface_t) (size x y : Z) : Z :=
  sf_data cb + s32 (s32 (x + s32 (sf_stride cb * y)) * size).

(** The copy of the clipped rectangle. *)
Definition copy_clipped (c : context_t) (xd yd xs ys width height : Z) (m : mem) : option mem :=
  let cb := fb_color (st_buffers (c_state c)) in
  if (width <=? 0) || (height <=? 0) then Some m
  else if (xs =? xd) && (ys =? yd) then Some m
  else
    let size := f_size (format_of c (sf_format cb)) in
    let src := pixel_pointer cb size xs ys in
    let dst := pixel_pointer cb size xd yd in
    let bpr := s32 (sf_stride cb * size) in
    let rowsize := s32 (width * size) in
    let yc := Z.to_nat height in
    if ys <? yd then
      copy_up (memcpy_apart rowsize) yc bpr (dst + height * bpr) (src + height * bpr) m
    else if ys =? yd then copy_down (memmove rowsize) yc bpr dst src m
    else copy_down (memcpy_apart rowsize) yc bpr dst src m.

(** [type] is not used. *)
Definition ggl_copyPixels (xs ys width height type : Z) (cm : context_t * mem)
    : option (context_t * mem) :=
  let '(c, m) := cm in
  let cb := fb_color (st_buffers (c_state c)) in
  if source_outside cb xs ys width height then Some (c, m)
  else
    let '(xd, yd) := raster_pos c in
    let s := draw_scissor c in
    let '(xd, xs, width) := clip_axis (scl s) (scr s) xd xs width in
    let '(yd, ys, height) := clip_axis (sct s) (scb s) yd ys height in
    m ← copy_clipped c xd yd xs ys width height m;
    Some (c, m).

(** ** [gglBitBlit] *)

(** The call [c->procs.recti]. *)
Definition call_recti (l t r b : Z) (d : draw_t) : option draw_t :=
  match pr_recti (c_procs (d_c d)) with
  | no_recti => None
  | use_recti_validate =>
      let d := d <| d_c ::= recti_validate |> in play (recti (draw_scissor (d_c d)) l t r b) d
  | use_recti => play (recti (draw_scissor (d_c d)) l t r b) d
  end.

(** [int] division. *)
Definition int_div (a b : Z) : option Z := if b =? 0 then None else Some (s32 (Z.quot a b)).

(** The enabling of the unit. *)
Definition enable_tmu (tmu : Z) (c : context_t) : context_t :=
  let c := ggl_disable GGL_W_LERP (ggl_activeTexture (u32 tmu) c) in
  let tmus := u32 (Z.shiftl 1 tmu) in
  if negb (st_enabled_tmu (c_state c) =? tmus) then
    let c := upd_activeTMU (fun t => t <| tx_enable := 1 |>) c in
    let c := upd_state (fun st => st <| st_enabled_tmu := tmus |>) c in
    ggl_state_changed GGL_TMU_STATE (upd_enables (set_bits GGL_ENABLE_TMUS) c)
  else c.

(** The branch for a copy of the same size, and the one that scales. *)
Definition blit_one_to_one (crop : list Z) (x y : Z) (c : context_t) : context_t :=
  let c := ggl_texGeni GGL_S GGL_TEXTURE_GEN_MODE GGL_ONE_TO_ONE c in
  let c := ggl_texGeni GGL_T GGL_TEXTURE_GEN_MODE GGL_ONE_TO_ONE c in
  ggl_texCoord2i (s32 (arg crop 0 - x)) (s32 (arg crop 1 - y)) c.

(** [x] and [y] are in fixed point here. *)
Definition blit_scaled (tmu : Z) (crop : list Z) (x y w h : Z) (c : context_t) : option context_t :=
  let c := ggl_texParameteri GGL_TEXTURE_2D GGL_TEXTURE_WRAP_S GGL_CLAMP c in
  let c := ggl_texParameteri GGL_TEXTURE_2D GGL_TEXTURE_WRAP_T GGL_CLAMP c in
  let c := ggl_texGeni GGL_S GGL_TEXTURE_GEN_MODE GGL_AUTOMATIC c in
  let c := ggl_texGeni GGL_T GGL_TEXTURE_GEN_MODE GGL_AUTOMATIC c in
  let fixed i := s32 (Z.shiftl (arg crop i) 16) in
  dsdx ← int_div (fixed 2%nat) w;
  dtdy ← int_div (fixed 3%nat) h;
  let s0 := s32 (fixed 0%nat - gglMulx dsdx x) in
  let t0 := s32 (fixed 1%nat - gglMulx dtdy y) in
  ggl_texCoordGradScale8xv tmu [s0; dsdx; 0; t0; 0; dtdy; 0; 0] c.

Definition gglBitBlit (tmu : Z) (crop where_ : list Z) (d : draw_t) : option draw_t :=
  let x := arg where_ 0 in
  let y := arg where_ 1 in
  let w := arg where_ 2 in
  let h := arg where_ 3 in
  let d := d <| d_c ::= enable_tmu tmu |> in
  if (w =? arg crop 2) && (h =? arg crop 3) then
    let d := d <| d_c ::= blit_one_to_one crop x y |> in
    call_recti x y (s32 (x + w)) (s32 (y + h)) d
  else
    let x := gglIntToFixed x in
    let y := gglIntToFixed y in
    c ← blit_scaled tmu crop x y w h (d_c d);
    let l := gglFixedToIntRound x in
    let t := gglFixedToIntRound y in
    call_recti l t (s32 (l + w)) (s32 (t + h)) (d <| d_c := c |>).

(** ** Rows of bytes *)

Lemma copy_up_eq copy yc bpr dst src m :
  copy_up copy yc bpr dst src m = copy_down copy yc (- bpr) (dst - bpr) (src - bpr) m.
Proof.
  revert dst src m. induction yc as [|yc IH]; intros dst src m; cbn; [done|].
  destruct (copy _ _ _); cbn; [|done]. by rewrite IH.
Qed.

Lemma move_bytes_in n dst src m k : 0 <= k < n -> move_bytes n dst src m (dst + k) = m (src + k).
Proof.
  intros H. unfold move_bytes. destruct (Z.leb_spec dst (dst + k)), (Z.ltb_spec (dst + k) (dst + n)); try lia.
  cbn. f_equal. lia.
Qed.
Lemma move_bytes_out n dst src m a : (a < dst \/ dst + n <= a) -> move_bytes n dst src m a = m a.
Proof.
  intros H. unfold move_bytes. destruct (Z.leb_spec dst a), (Z.ltb_spec a (dst + n)); done || lia.
Qed.

(** [m'] is [m] with the [n] rows of [w] bytes at [src] moved to [dst]. *)
Definition rows_moved (n w bpr dst src : Z) (m m' : mem) : Prop :=
  (forall j k, 0 <= j < n -> 0 <= k < w -> m' (dst + j * bpr + k) = m (src + j * bpr + k)) /\
  (forall a, (forall j k, 0 <= j < n -> 0 <= k < w -> a <> dst + j * bpr + k) -> m' a = m a).

Lemma row_multiple w bpr j : w <= Z.abs bpr -> 1 <= j -> w <= Z.abs (j * bpr).
Proof. intros H Hj. rewrite Z.abs_mul. nia. Qed.

(** Rows that are copied in an order that reads each one before it is
    overwritten. *)
Lemma copy_down_spec copy (n : nat) w bpr dst src m :
  w <= Z.abs bpr ->
  (forall j m, 0 <= j < Z.of_nat n ->
     copy (dst + j * bpr) (src + j * bpr) m = Some (move_bytes w (dst + j * bpr) (src + j * bpr) m)) ->
  (forall j, 1 <= j < Z.of_nat n -> w <= Z.abs (src - dst + j * bpr)) ->
  exists m', copy_down copy n bpr dst src m = Some m' /\ rows_moved (Z.of_nat n) w bpr dst src m m'.
Proof.
  intros Hw. revert dst src m. induction n as [|n IH]; intros dst src m Hc Hs; cbn [copy_down].
  { exists m. split; [done|]. split; [intros j k ?; lia|done]. }
  pose proof (Hc 0 m ltac:(lia)) as E0. rewrite !Z.add_0_r in E0. rewrite E0. cbn [mbind option_bind].
  destruct (IH (dst + bpr) (src + bpr) (move_bytes w dst src m)) as (m' & E & M & F).
  - intros j m0 Hj. pose proof (Hc (j + 1) m0 ltac:(lia)) as E1.
    by replace (dst + bpr + j * bpr) with (dst + (j + 1) * bpr) by lia;
      replace (src + bpr + j * bpr) with (src + (j + 1) * bpr) by lia.
  - intros j Hj. pose proof (Hs j ltac:(lia)). by replace (src + bpr - (dst + bpr)) with (src - dst) by lia.
  - exists m'. split; [done|]. split.
    + intros j k Hj Hk. destruct (Z.eq_dec j 0) as [->|Hj0].
      * rewrite F, Z.mul_0_l, !Z.add_0_r; [by apply move_bytes_in|].
        intros j' k' Hj' Hk' E1. pose proof (row_multiple w bpr (j' + 1) Hw ltac:(lia)). lia.
      * pose proof (M (j - 1) k ltac:(lia) Hk) as E1.
        replace (dst + bpr + (j - 1) * bpr) with (dst + j * bpr) in E1 by lia.
        replace (src + bpr + (j - 1) * bpr) with (src + j * bpr) in E1 by lia.
        rewrite E1. apply move_bytes_out. pose proof (Hs j ltac:(lia)). lia.
    + intros a Ha. rewrite F.
      * apply move_bytes_out. destruct (Z.lt_ge_cases a dst); [by left|]. right.
        destruct (Z.lt_ge_cases a (dst + w)); [|done]. destruct (Ha 0 (a - dst)); lia.
      * intros j k Hj Hk E1. apply (Ha (j + 1) k); lia.
Qed.

Lemma copy_up_spec copy (n : nat) w bpr dst src m :
  w <= Z.abs bpr ->
  (forall j m, 0 <= j < Z.of_nat n ->
     copy (dst + j * bpr) (src + j * bpr) m = Some (move_bytes w (dst + j * bpr) (src + j * bpr) m)) ->
  (forall j, 1 <= j < Z.of_nat n -> w <= Z.abs (src - dst - j * bpr)) ->
  exists m', copy_up copy n bpr (dst + Z.of_nat n * bpr) (src + Z.of_nat n * bpr) m = Some m' /\
    rows_moved (Z.of_nat n) w bpr dst src m m'.
Proof.
  intros Hw Hc Hs. rewrite copy_up_eq. set (N := Z.of_nat n) in *.
  destruct (copy_down_spec copy n w (- bpr) (dst + N * bpr - bpr) (src + N * bpr - bpr) m) as (m' & E & M & F).
  - lia.
  - intros j m0 Hj. pose proof (Hc (N - 1 - j) m0 ltac:(lia)) as E1.
    by replace (dst + N * bpr - bpr + j * - bpr) with (dst + (N - 1 - j) * bpr) by lia;
      replace (src + N * bpr - bpr + j * - bpr) with (src + (N - 1 - j) * bpr) by lia.
  - intros j Hj. pose proof (Hs j Hj). lia.
  - exists m'. split; [done|]. split.
    + intros j k Hj Hk. pose proof (M (N - 1 - j) k ltac:(lia) Hk) as E1.
      by replace (dst + N * bpr - bpr + (N - 1 - j) * - bpr) with (dst + j * bpr) in E1 by lia;
        replace (src + N * bpr - bpr + (N - 1 - j) * - bpr) with (src + j * bpr) in E1 by lia.
    + intros a Ha. apply F. intros j k Hj Hk E1. apply (Ha (N - 1 - j) k); lia.
Qed.

(** ** What a copy does *)

(** The address of the first byte of pixel [(x, y)]. *)
Definition pixel_byte (cb : surface_t) (size x y : Z) : Z :=
  sf_data cb + (x + sf_stride cb * y) * size.

(** The pixels of the rectangle get what was [(dx, dy)] away from them; no
    other byte changes. *)
Definition rect_moved (cb : surface_t) (size l t r b dx dy : Z) (m m' : mem) : Prop :=
  (forall x y k, l <= x < r -> t <= y < b -> 0 <= k < size ->
     m' (pixel_byte cb size x y + k) = m (pixel_byte cb size (x + dx) (y + dy) + k)) /\
  (forall a, (forall x y k, l <= x < r -> t <= y < b -> 0 <= k < size -> a <> pixel_byte cb size x y + k) ->
     m' a = m a).

(** The color buffer, the scissor and the raster position are moderate: no
    address or corner overflows an [int].  The stride may be negative. *)
Record copy_ok (c : context_t) (cb : surface_t) (size : Z) : Prop := {
  co_size : 0 < size;
  co_width : 0 <= sf_width cb <= 2 ^ 30 /\ sf_width cb <= Z.abs (sf_stride cb);
  co_height : 0 <= sf_height cb <= 2 ^ 30;
  co_bytes : Z.abs (sf_stride cb) * sf_height cb * size < 2 ^ 31;
  co_raster : is_s32 (ra_x (st_raster (c_state c))) /\ is_s32 (ra_y (st_raster (c_state c)));
  co_left : 0 <= scl (draw_scissor c) <= 2 ^ 29;
  co_right : - 2 ^ 30 <= scr (draw_scissor c) <= sf_width cb;
  co_top : 0 <= sct (draw_scissor c) <= 2 ^ 29;
  co_bottom : - 2 ^ 30 <= scb (draw_scissor c) <= sf_height cb }.

Definition source_inside (cb : surface_t) (xs ys width height : Z) : Prop :=
  (0 <= xs <= sf_width cb /\ 0 <= xs + width <= sf_width cb) /\
  (0 <= ys <= sf_height cb /\ 0 <= ys + height <= sf_height cb).

Lemma axis_test W xs width : is_s32 xs -> is_s32 width -> 0 <= W <= 2 ^ 30 ->
  (W <? u32 xs) || (W <? u32 (xs + width)) = false <-> 0 <= xs <= W /\ 0 <= xs + width <= W.
Proof.
  intros Hx Hw HW. rewrite orb_false_iff, !Z.ltb_ge. wrap_lia.
Qed.

Lemma source_outside_spec cb xs ys width height :
  is_s32 xs -> is_s32 ys -> is_s32 width -> is_s32 height ->
  0 <= sf_width cb <= 2 ^ 30 -> 0 <= sf_height cb <= 2 ^ 30 ->
  source_outside cb xs ys width height = false <-> source_inside cb xs ys width height.
Proof.
  intros Hx Hy Hw Hh HW HH. unfold source_outside, source_inside.
  rewrite <-!axis_test by done. rewrite !orb_false_iff. tauto.
Qed.

Lemma clip_axis_spec lo hi pos src len :
  0 <= lo <= 2 ^ 29 -> - 2 ^ 30 <= hi <= 2 ^ 30 -> - 2 ^ 15 <= pos <= 2 ^ 15 ->
  0 <= src <= 2 ^ 30 -> - 2 ^ 30 <= len <= 2 ^ 30 ->
  clip_axis lo hi pos src len =
  (Z.max lo pos, Z.max lo pos + (src - pos), Z.min hi (pos + len) - Z.max lo pos).
Proof.
  intros Hlo Hhi Hp Hs Hl. unfold clip_axis.
  destruct (Z.ltb_spec pos lo); rewrite ?(s32_id (lo - pos)) by (unfold is_s32; lia);
    rewrite ?(s32_id (len - (lo - pos))), ?s32_id by (unfold is_s32; lia);
    match goal with |- context [?a <? ?b] => destruct (Z.ltb_spec a b) end;
    rewrite ?s32_id by (unfold is_s32; lia); (apply f_equal2; [apply f_equal2|]); lia.
Qed.

Lemma raster_pos_range c cb size : copy_ok c cb size ->
  - 2 ^ 15 <= fst (raster_pos c) <= 2 ^ 15 /\ - 2 ^ 15 <= snd (raster_pos c) <= 2 ^ 15.
Proof.
  intros [_ _ _ _ [Hx Hy] _ _ _ _]. cbn [fst snd raster_pos]. unfold gglFixedToIntRound, FIXED_BITS.
  rewrite !shiftr_div by lia.
  pose proof (s32_range (ra_x (st_raster (c_state c)) + FIXED_HALF)).
  pose proof (s32_range (ra_y (st_raster (c_state c)) + FIXED_HALF)).
  unfold is_s32 in *. div_lia.
Qed.

(** Rows of bytes as rectangles of pixels. *)
Lemma rows_rect cb size l t r b dx dy m m' :
  0 < size ->
  rows_moved (b - t) ((r - l) * size) (sf_stride cb * size)
    (pixel_byte cb size l t) (pixel_byte cb size (l + dx) (t + dy)) m m' ->
  rect_moved cb size l t r b dx dy m m'.
Proof.
  intros Hs [M F]. split.
  - intros x y k Hx Hy Hk. pose proof (M (y - t) ((x - l) * size + k) ltac:(lia) ltac:(nia)) as E.
    unfold pixel_byte in *.
    replace (_ + k) with (sf_data cb + (l + sf_stride cb * t) * size + (y - t) * (sf_stride cb * size) +
      ((x - l) * size + k)) by lia.
    rewrite E. f_equal. lia.
  - intros a Ha. apply F. intros j k Hj Hk ->. apply (Ha (l + k / size) (t + j) (k mod size)).
    + pose proof (Z.div_lt_upper_bound k size (r - l) Hs ltac:(lia)).
      pose proof (Z.div_pos k size ltac:(lia) Hs). lia.
    + lia.
    + by apply Z.mod_pos_bound.
    + unfold pixel_byte. pose proof (Z.div_mod k size ltac:(lia)) as E. rewrite E at 1. lia.
Qed.

(** The rows of two rectangles of one surface are apart when they are [e <> 0]
    rows away from each other. *)
Lemma rows_apart W stride size l r dx e :
  0 < size -> W <= Z.abs stride -> 0 <= l < r -> r <= W -> 0 <= l + dx -> r + dx <= W -> e <> 0 ->
  (r - l) * size <= Z.abs ((dx + stride * e) * size).
Proof.
  intros Hs HW Hl Hr Hl' Hr' He. rewrite Z.abs_mul, (Z.abs_eq size) by lia.
  apply Z.mul_le_mono_nonneg_r; [lia|].
  assert (Z.abs stride <= Z.abs (stride * e)) by (rewrite Z.abs_mul; nia). lia.
Qed.

Lemma pixel_pointer_eq c cb size x y :
  copy_ok c cb size -> 0 <= x <= sf_width cb -> 0 <= y < sf_height cb ->
  pixel_pointer cb size x y = pixel_byte cb size x y.
Proof.
  intros [Hs [_ Hw] _ Hb _ _ _ _ _] Hx Hy. unfold pixel_pointer, pixel_byte.
  assert (Z.abs (sf_stride cb * y) <= Z.abs (sf_stride cb) * (sf_height cb - 1)) as H1
    by (rewrite Z.abs_mul, (Z.abs_eq y) by lia; apply Z.mul_le_mono_nonneg_l; lia).
  assert (Z.abs (x + sf_stride cb * y) <= Z.abs (sf_stride cb) * sf_height cb) as H2 by lia.
  assert (Z.abs ((x + sf_stride cb * y) * size) <= Z.abs (sf_stride cb) * sf_height cb * size) as H3
    by (rewrite Z.abs_mul, (Z.abs_eq size) by lia; apply Z.mul_le_mono_nonneg_r; lia).
  assert (Z.abs (sf_stride cb) * sf_height cb * 1 <= Z.abs (sf_stride cb) * sf_height cb * size)
    by (apply Z.mul_le_mono_nonneg_l; [apply Z.mul_nonneg_nonneg|]; lia).
  by rewrite (s32_id (sf_stride cb * y)), (s32_id (x + _)), s32_id by (unfold is_s32; lia).
Qed.

Lemma memcpy_move n dst src m : n <= Z.abs (src - dst) -> memcpy_apart n dst src m = Some (move_bytes n dst src m).
Proof.
  intros H. unfold memcpy_apart. destruct (Z.leb_spec (dst + n) src), (Z.leb_spec (src + n) dst); done || lia.
Qed.

(** The copy of a rectangle that lies in the color buffer, as does its source. *)
Lemma copy_rect_spec c cb size l t r b dx dy m :
  copy_ok c cb size ->
  0 <= l < r -> r <= sf_width cb -> 0 <= t < b -> b <= sf_height cb ->
  0 <= l + dx -> r + dx <= sf_width cb -> 0 <= t + dy -> b + dy <= sf_height cb ->
  let bpr := sf_stride cb * size in
  let rowsize := (r - l) * size in
  let src := pixel_byte cb size (l + dx) (t + dy) in
  let dst := pixel_byte cb size l t in
  let yc := Z.to_nat (b - t) in
  exists m',
    (if t + dy <? t then
       copy_up (memcpy_apart rowsize) yc bpr (dst + (b - t) * bpr) (src + (b - t) * bpr) m
     else if t + dy =? t then copy_down (memmove rowsize) yc bpr dst src m
     else copy_down (memcpy_apart rowsize) yc bpr dst src m) = Some m' /\
    rect_moved cb size l t r b dx dy m m'.
Proof.
  intros [Hs [_ HW] _ _ _ _ _ _ _] Hl Hr Ht Hb Hl' Hr' Ht' Hb' bpr rowsize src dst yc.
  assert (forall e, e <> 0 -> rowsize <= Z.abs ((dx + sf_stride cb * e) * size)) as Hap
    by (intros e; by apply (rows_apart (sf_width cb))).
  assert (src - dst = (dx + sf_stride cb * dy) * size) as Ed by (unfold src, dst, pixel_byte; lia).
  assert (rowsize <= Z.abs bpr) as Hbpr.
  { unfold rowsize, bpr. rewrite Z.abs_mul, (Z.abs_eq size) by lia. apply Z.mul_le_mono_nonneg_r; lia. }
  assert (forall m', rows_moved (Z.of_nat yc) rowsize bpr dst src m m' -> rect_moved cb size l t r b dx dy m m') as Hrect.
  { intros m' H. apply rows_rect; [done|]. unfold yc in H. by rewrite Z2Nat.id in H by lia. }
  assert (b - t = Z.of_nat yc) as -> by (unfold yc; lia).
  assert (forall j, dy <> 0 -> forall m,
    memcpy_apart rowsize (dst + j * bpr) (src + j * bpr) m =
    Some (move_bytes rowsize (dst + j * bpr) (src + j * bpr) m)) as Hcopy.
  { intros j Hdy m1. apply memcpy_move. replace (_ - _) with (src - dst) by lia. rewrite Ed. by apply Hap. }
  destruct (Z.ltb_spec (t + dy) t) as [Hlt|Hge].
  - destruct (copy_up_spec (memcpy_apart rowsize) yc rowsize bpr dst src m) as (m' & E & M); [done| | |eauto].
    + intros j m1 _. apply Hcopy. lia.
    + intros j Hj. replace (src - dst - j * bpr) with ((dx + sf_stride cb * (dy - j)) * size) by (rewrite Ed; unfold bpr; lia).
      apply Hap. lia.
  - destruct (Z.eqb_spec (t + dy) t) as [Heq|Hne].
    + destruct (copy_down_spec (memmove rowsize) yc rowsize bpr dst src m) as (m' & E & M); [done..| |eauto].
      intros j Hj. replace (src - dst + j * bpr) with ((dx + sf_stride cb * (dy + j)) * size) by (rewrite Ed; unfold bpr; lia).
      apply Hap. lia.
    + destruct (copy_down_spec (memcpy_apart rowsize) yc rowsize bpr dst src m) as (m' & E & M); [done| | |eauto].
      * intros j m1 _. apply Hcopy. lia.
      * intros j Hj. replace (src - dst + j * bpr) with ((dx + sf_stride cb * (dy + j)) * size) by (rewrite Ed; unfold bpr; lia).
        apply Hap. lia.
Qed.

Lemma copy_clipped_spec c l t r b dx dy m :
  let cb := fb_color (st_buffers (c_state c)) in
  let size := f_size (format_of c (sf_format cb)) in
  copy_ok c cb size ->
  0 <= l -> r <= sf_width cb -> 0 <= t -> b <= sf_height cb ->
  (l < r -> 0 <= l + dx /\ r + dx <= sf_width cb) -> (t < b -> 0 <= t + dy /\ b + dy <= sf_height cb) ->
  exists m', copy_clipped c l t (l + dx) (t + dy) (r - l) (b - t) m = Some m' /\
    rect_moved cb size l t r b dx dy m m'.
Proof.
  intros cb size Hc Hl Hr Ht Hb Hx Hy. pose proof Hc as [Hs [HW HW'] HH Hbytes _ _ _ _ _].
  unfold copy_clipped. fold cb. fold size.
  destruct (Z.leb_spec (r - l) 0) as [|Hlr]; cbn [orb];
    [exists m; split; [done|]; split; [intros; lia|done]|].
  destruct (Z.leb_spec (b - t) 0) as [|Htb];
    [exists m; split; [done|]; split; [intros; lia|done]|].
  destruct (_ && _) eqn:E.
  { apply andb_prop in E as [Ex%Z.eqb_eq Ey%Z.eqb_eq]. exists m. split; [done|]. split; [|done].
    intros x y k _ _ _. replace dx with 0 by lia. replace dy with 0 by lia. by rewrite !Z.add_0_r. }
  destruct (copy_rect_spec c cb size l t r b dx dy m Hc) as (m' & E' & M); [lia..|].
  exists m'. split; [|done]. rewrite !(pixel_pointer_eq c cb size) by (done || lia).
  assert ((r - l) * size <= Z.abs (sf_stride cb) * size) by (apply Z.mul_le_mono_nonneg_r; lia).
  assert (Z.abs (sf_stride cb) * size * 1 <= Z.abs (sf_stride cb) * size * sf_height cb)
    by (apply Z.mul_le_mono_nonneg_l; [apply Z.mul_nonneg_nonneg|]; lia).
  assert (Z.abs (sf_stride cb * size) = Z.abs (sf_stride cb) * size) by (rewrite Z.abs_mul; lia).
  assert (0 < (r - l) * size) by (apply Z.mul_pos_pos; lia).
  by rewrite !(s32_id (_ * size)) by (unfold is_s32; lia).
Qed.

(** C32: Copying pixels moves a rectangle of the color buffer: when the source
    rectangle lies in the color buffer, every pixel of the destination that is
    inside the scissor gets what its source held before the call, whether or
    not the two rectangles overlap and whatever the sign of the stride, and no
    other byte of memory changes; otherwise nothing changes.  Rows are never
    copied by [memcpy] onto themselves, and the context stays as it was. *)
Theorem copyPixels_translates xs ys width height type c m :
  let cb := fb_color (st_buffers (c_state c)) in
  let size := f_size (format_of c (sf_format cb)) in
  let '(xd, yd) := raster_pos c in
  copy_ok c cb size -> is_s32 xs -> is_s32 ys -> is_s32 width -> is_s32 height ->
  exists m', ggl_copyPixels xs ys width height type (c, m) = Some (c, m') /\
    (source_inside cb xs ys width height ->
     rect_moved cb size (Z.max (scl (draw_scissor c)) xd) (Z.max (sct (draw_scissor c)) yd)
       (Z.min (scr (draw_scissor c)) (xd + width)) (Z.min (scb (draw_scissor c)) (yd + height)) (xs - xd) (ys - yd) m m') /\
    (~ source_inside cb xs ys width height -> m' = m).
Proof.
  intros cb size. pose proof (raster_pos_range c cb size) as HR.
  unfold ggl_copyPixels. fold cb. fold size.
  destruct (raster_pos c) as [xd yd]. cbn [fst snd] in HR. intros Hc Hxs Hys Hw Hh.
  destruct (HR Hc) as [Hx Hy]. clear HR.
  pose proof (source_outside_spec cb xs ys width height Hxs Hys Hw Hh
    (proj1 (co_width _ _ _ Hc)) (co_height _ _ _ Hc)) as Hin.
  destruct (source_outside cb xs ys width height).
  { exists m. split; [done|]. split; [|done]. intros H. by apply Hin in H. }
  apply proj1 in Hin. specialize (Hin eq_refl) as ((HX & HX') & (HY & HY')).
  pose proof Hc as [_ [HW HW'] HH _ _ HL HRt HT HB]. rewrite !clip_axis_spec by lia.
  destruct (copy_clipped_spec c (Z.max (scl (draw_scissor c)) xd) (Z.max (sct (draw_scissor c)) yd)
    (Z.min (scr (draw_scissor c)) (xd + width)) (Z.min (scb (draw_scissor c)) (yd + height))
    (xs - xd) (ys - yd) m Hc) as (m' & -> & M); try (fold cb; lia).
  exists m'. split; [done|]. split; [done|]. intros Hn. by destruct Hn.
Qed.

(** ** What a blit enables *)

Lemma disable_w_frame c : st_enabled_tmu (c_state (ggl_disable GGL_W_LERP c)) = st_enabled_tmu (c_state c) /\
  st_texture (c_state (ggl_disable GGL_W_LERP c)) = st_texture (c_state c) /\
  c_activeTMU (ggl_disable GGL_W_LERP c) = c_activeTMU c.
Proof.
  change (ggl_disable GGL_W_LERP c) with (enable_pipeline_bit GGL_ENABLE_W 0 c).
  unfold enable_pipeline_bit. destruct (toggles _ _ _); [|done]. rewrite state_changed_state.
  unfold ggl_state_changed. by destruct (_ =? 0).
Qed.

(** The unit of a blit is the one of [enabled_tmu], but the other unit keeps its
    own flag, which the pipeline looks at: it goes on being sampled. *)
Lemma enable_tmu_other tmu c : ctx_ok c -> In tmu [0; 1] ->
  st_enabled_tmu (c_state (enable_tmu tmu c)) = 2 ^ tmu /\
  tx_enable (texture (enable_tmu tmu c) tmu) = 1 /\
  tx_enable (texture (enable_tmu tmu c) (1 - tmu)) = tx_enable (texture c (1 - tmu)).
Proof.
  intros [(t0 & t1 & Et & _ & _ & H0 & H1 & He & _) _ _ _ _ _ _] Ht. unfold enable_tmu.
  rewrite u32_id by (destruct Ht as [<-|[<-|[]]]; unfold is_u32; lia).
  set (c1 := ggl_activeTexture tmu c).
  assert (c_activeTMU c1 = tmu /\ c_state c1 = c_state c) as [Ea Es] by (destruct Ht as [<-|[<-|[]]]; done).
  destruct (disable_w_frame c1) as (F1 & F2 & F3). set (c2 := ggl_disable GGL_W_LERP c1) in *.
  rewrite F1, Es. rewrite Es, Et in F2. rewrite Es in F1. rewrite Ea in F3.
  assert (u32 (Z.shiftl 1 tmu) = 2 ^ tmu) as -> by (destruct Ht as [<-|[<-|[]]]; done).
  clearbody c2. unfold texture. destruct (Z.eqb_spec (st_enabled_tmu (c_state c)) (2 ^ tmu)) as [E|N]; cbn [negb].
  - rewrite F1, F2, Et, E. split; [done|].
    destruct Ht as [<-|[<-|[]]], H0 as [G0|[G0|[]]], H1 as [G1|[G1|[]]]; rewrite <-G0, <-G1 in He; cbn in *; lia || done.
  - rewrite state_changed_state. cbn. rewrite F2, F3, Et. destruct Ht as [<-|[<-|[]]]; done.
Qed.

(** ** Examples *)

Definition copy_example : context_t := Eval vm_compute in ggl_rasterPos2i 2 1 example_reached.

Lemma copyPixels_translates_witness :
  exists m', ggl_copyPixels 0 0 6 4 0 (copy_example, u8) = Some (copy_example, m') /\
    m' (0x1000 + (5 + 16 * 3) * 2) = u8 (0x1000 + (3 + 16 * 2) * 2).
Proof.
  destruct (copyPixels_translates 0 0 6 4 0 copy_example u8) as (m' & E & M & _);
    [split; vm_compute; intuition congruence|vm_compute; intuition congruence..|].
  exists m'. split; [exact E|].
  destruct M as [M _]; [vm_compute; intuition congruence|].
  exact (M 5 3 0 ltac:(vm_compute; intuition congruence) ltac:(vm_compute; intuition congruence) ltac:(vm_compute; intuition congruence)).
Defined.
