(* ===== verification/AAPoly.v ===== *)
(** * Antialiased polygons

    Models [aapolyx] and its callers of libpixelflinger/trap.cpp: edges are
    swept pixel row by pixel row, and the area each edge leaves on its right is
    added to, or subtracted from, a buffer of coverage values.  As in [Trap.v]
    the result is the list of calls on the pipeline; [cov0] is the content of
    the coverage buffer before. *)

From S2P Require Import Prelude Fixed Names Context PixelFormat Surface Iterators Scanline Trap TrapSpec.

(** What can go wrong. *)
Inductive fault :=
  | no_quotient    (** a division loop that never returns *)
  | unset_edge     (** an edge past the last one is read *)
  | runaway_fill   (** a negative pixel count, converted to [size_t] *)
  | out_of_fuel.   (** the sweep did not end *)

Inductive res (A : Type) := Ok (a : A) | Err (f : fault).
Arguments Ok {A} a.
Arguments Err {A} f.
Definition res_bind {A B} (r : res A) (f : A -> res B) : res B :=
  match r with Ok a => f a | Err e => Err e end.
Declare Scope res_scope.
Notation "'let!' x := m 'in' k" := (res_bind m (fun x => k))
  (at level 10, x pattern at level 0, m at level 100, k at level 200) : res_scope.
#[local] Open Scope res_scope.
Definition of_option {A} (f : fault) (o : option A) : res A :=
  match o with Some a => Ok a | None => Err f end.

(** ** Edges *)

Record AAEdge := mk_aaedge { ae_x : Z; ae_x_incr : Z; ae_y_incr : Z; ae_y_top : Z; ae_y_bot : Z }.

Definition aa_edge_setup (p1 p2 : vertex) (ymin ymax : Z) : res (list AAEdge) :=
  let '(top, bot) := if snd p2 <? snd p1 then (p2, p1) else (p1, p2) in
  let y1 := snd top in
  let y2 := snd bot in
  let dy := s32 (y2 - y1) in
  if (dy =? 0) || (ymax <? y1) || (y2 <? ymin) then Ok []
  else
    let ymin := if ymin <? y1 then y1 else ymin in
    let ymax := if y2 <? ymax then y2 else ymax in
    let x1 := fst top in
    let dx := s32 (fst bot - x1) in
    let shift := FIXED_BITS - TRI_FRACTION_BITS in
    let x := s32 (Z.shiftl x1 shift) in
    let! incr :=
      (if (ymin <=? ymax) && negb (dx =? 0) then
         let! x_incr := of_option no_quotient (gglDivQ16 dx dy) in
         let! y_incr := of_option no_quotient (gglDivQ16 dy dx) in
         Ok (x_incr, s32 (Z.abs y_incr))
       else Ok (0, 0x7FFFFFFF)) in
    let '(x_incr, y_incr) := incr in
    let x := if y1 <? ymin
             then s32 (x + Z.shiftr (s32 (x_incr * s32 (ymin - y1)))
                             (TRI_FRACTION_BITS + TRI_ITERATORS_BITS - FIXED_BITS)) else x in
    Ok [mk_aaedge x x_incr y_incr (s16 ymin) (s16 ymax)].

Definition compare_edges (e0 e1 : AAEdge) : Z :=
  if ae_y_top e1 <? ae_y_top e0 then 1
  else if ae_y_top e0 <? ae_y_top e1 then -1
  else if ae_x e1 <? ae_x e0 then 1
  else if ae_x e0 <? ae_x e1 then -1
  else if ae_x_incr e1 <? ae_x_incr e0 then 1
  else if ae_x_incr e0 <? ae_x_incr e1 then -1
  else 0.

(** [qsort] with [compare_edges]; edges that compare equal keep their order. *)
Fixpoint insert_edge (e : AAEdge) (es : list AAEdge) : list AAEdge :=
  match es with
  | [] => [e]
  | e' :: es' => if compare_edges e e' <? 0 then e :: es else e' :: insert_edge e es'
  end.
Definition qsort (es : list AAEdge) : list AAEdge := fold_left (fun es e => insert_edge e es) es [].

(** ** The coverage buffer

    Its content and the stores made so far, last one first. *)

Definition coverage_t : Type := (Z -> Z) * list event.

Definition cov_store (p v : Z) (c : coverage_t) : coverage_t :=
  ((fun i => if i =? p then s16 v else fst c i), Coverage p v :: snd c).

Definition ADD_COVERAGE (p value : Z) (c : coverage_t) : coverage_t :=
  let value := s32 (fst c p + value) in
  cov_store p (if 0x8000 <=? value then 0x7FFF else value) c.

Definition SUB_COVERAGE (p value : Z) (c : coverage_t) : coverage_t :=
  let value := s32 (fst c p - value) in
  cov_store p (Z.land value (Z.lnot (Z.shiftr value 31))) c.

Fixpoint cov_fill (n : nat) (p value : Z) (c : coverage_t) : coverage_t :=
  match n with O => c | S n => cov_fill n (p + 1) value (cov_store p value c) end.

Definition SET_COVERAGE (p value n : Z) (c : coverage_t) : res coverage_t :=
  if n <? 0 then Err runaway_fill else Ok (cov_fill (Z.to_nat n) p value c).

(** [memset] of the pixels of the scissor. *)
Definition clear_coverage (xmin xmax : Z) : coverage_t -> coverage_t := cov_fill (Z.to_nat (xmax - xmin)) xmin 0.

Definition cov_event (e : event) (c : coverage_t) : coverage_t := (fst c, e :: snd c).

(** ** The area on the right of an edge *)

Definition cf_shift : Z := 1 + TRI_FRACTION_BITS * 2 + TRI_ITERATORS_BITS - 15.

(** The triangle an edge of slope [y_incr] cuts from a pixel it crosses over
    [dx] sixteenths. *)
Definition cut_area (dx y_incr : Z) : Z := Z.shiftr (s32 (s32 (dx * dx) * y_incr)) cf_shift.

(** The pixels between the first and the last one. *)
Fixpoint middle_pixels (op : Z -> Z -> coverage_t -> coverage_t) (n : nat) (y_incr p cf : Z) (c : coverage_t)
    : Z * Z * coverage_t :=
  match n with
  | O => (p, cf, c)
  | S n =>
      let cf := s32 (cf + Z.shiftr y_incr (TRI_ITERATORS_BITS - 15)) in
      middle_pixels op n y_incr (p + 1) cf (op p cf c)
  end.

(** One edge between [yt] and [y], from [x_min] to [x_max]; [op] adds to or
    subtracts from a pixel. *)
Definition edge_coverage (op : Z -> Z -> coverage_t -> coverage_t) (y_incr x_min x_max yt y : Z) (c : coverage_t)
    : coverage_t :=
  let min_i := gglFloorx x_min in
  let max_i := gglCeilx x_max in
  let p := gglFixedToIntFloor min_i in
  if min_i =? gglFloorx x_max then
    let dx := s32 (x_max - x_min) in
    let dy := s32 (y - yt) in
    let cf := gglMulx_shift (s32 (Z.shiftr dx 1 + s32 (s32 (min_i + FIXED_ONE) - x_max))) dy
                (FIXED_BITS + TRI_FRACTION_BITS - 15) in
    op p cf c
  else
    let cf := cut_area (s32 (TRI_FROM_FIXED (s32 (min_i - x_min)) + TRI_ONE)) y_incr in
    let c := op p cf c in
    let cf := s32 (cf - cut_area (TRI_FROM_FIXED (s32 (x_min - min_i))) y_incr) in
    let '(p, cf, c) := middle_pixels op (Z.to_nat (Z.shiftr (max_i - min_i) FIXED_BITS - 2)) y_incr (p + 1) cf c in
    op p (s32 (cf + cut_area (s32 (TRI_FROM_FIXED (s32 (x_max - max_i)) - TRI_ONE)) y_incr)) c.

(** [ADD_COVERAGE] of the same value on [n] pixels. *)
Fixpoint add_pixels (n : nat) (p cf : Z) (c : coverage_t) : coverage_t :=
  match n with O => c | S n => add_pixels n (p + 1) cf (ADD_COVERAGE p cf c) end.

(** The fully covered pixels from [max_i] to the right edge. *)
Definition fill_coverage (l_max_i r_max yt y : Z) (c : coverage_t) : res coverage_t :=
  let p := gglFixedToIntFloor l_max_i in
  let cf := s32 (Z.shiftl (s32 (y - yt)) (15 - TRI_FRACTION_BITS)) in
  if 0x8000 <=? cf then
    SET_COVERAGE p 0x7FFF (Z.shiftr (s32 (r_max - l_max_i)) FIXED_BITS + 1) c
  else Ok (add_pixels (Z.to_nat (Z.shiftr (r_max - l_max_i + (FIXED_ONE - 1)) FIXED_BITS)) p cf c).

(** ** The sweep *)

Definition keep_positive (v : Z) : Z := Z.land v (Z.lnot (Z.shiftr v 31)).

(** Keep an extent inside the framebuffer. *)
Definition clip_min (v xmax : Z) : Z :=
  let v := keep_positive v in
  if xmax <=? gglFixedToIntFloor v then s32 (gglIntToFixed xmax - 1) else v.
Definition clip_max (v xmax : Z) : Z :=
  let v := keep_positive v in
  if xmax <=? gglFixedToIntCeil v then s32 (gglIntToFixed xmax - 1) else v.

(** The extent of an edge between two positions, clipped. *)
Definition extent (a b xmax : Z) : Z * Z := (clip_min (min2 a b) xmax, clip_max (max2 a b) xmax).

(** The position of an edge at [y]. *)
Definition edge_position (e : AAEdge) (y : Z) : Z :=
  gglMulAddx_shift (ae_x_incr e) (s32 (y - ae_y_top e)) (ae_x e) (TRI_FRACTION_BITS + TRI_ITERATORS_BITS - FIXED_BITS).

(** The local variables of the loop; [po_xl], [po_xr] are the iterators. *)
Record poly_t := mk_poly {
  po_i : nat; po_left : AAEdge; po_right : AAEdge; po_yt : Z; po_l : Z; po_r : Z; po_retire : bool;
  po_xl : Z; po_xr : Z; po_cov : coverage_t }.

(** Hand over the finished row: the calls of [if (retire)]. *)
Definition retire_row (xmin xmax : Z) (st : poly_t) : coverage_t :=
  let c := if po_xl st <? po_xr st
           then cov_event Scanline (cov_event (Set_span (po_xl st) (po_xr st)) (po_cov st)) else po_cov st in
  clear_coverage xmin xmax (cov_event Step_y c).

(** The coverage both edges contribute between [po_yt] and [y]. *)
Definition band_coverage (st : poly_t) (l_ext r_ext : Z * Z) (y : Z) (c : coverage_t) : res coverage_t :=
  let yt := po_yt st in
  let c := edge_coverage ADD_COVERAGE (ae_y_incr (po_left st)) (fst l_ext) (snd l_ext) yt y c in
  let! c := fill_coverage (gglCeilx (snd l_ext)) (snd r_ext) yt y c in
  Ok (edge_coverage SUB_COVERAGE (ae_y_incr (po_right st)) (fst r_ext) (snd r_ext) yt y c).

Definition next_edge (edges : list AAEdge) (i : nat) : res AAEdge := of_option unset_edge (edges !! i).

(** The next edges, where one ends at [y]; [None] when the sweep is done. *)
Definition next_edges (edges : list AAEdge) (y : Z) (st : poly_t) : res (option (nat * AAEdge * AAEdge)) :=
  let i := po_i st in
  let ends e := y =? ae_y_bot e in
  if ends (po_left st) || ends (po_right st) then
    if (length edges <=? i)%nat then Ok None
    else
      let! il := (if ends (po_left st) then let! e := next_edge edges i in Ok (S i, e)
                  else Ok (i, po_left st)) in
      let '(i, lft) := il in
      let! ir := (if ends (po_right st) then let! e := next_edge edges i in Ok (S i, e)
                  else Ok (i, po_right st)) in
      let '(i, rgt) := ir in
      Ok (Some (i, lft, rgt))
  else Ok (Some (i, po_left st, po_right st)).

(** One round: the next state, or the final iterators and coverage. *)
Definition poly_round (xmin xmax : Z) (edges : list AAEdge) (st : poly_t)
    : res (poly_t + Z * Z * coverage_t) :=
  let y := min2 (min2 (ae_y_bot (po_left st)) (ae_y_bot (po_right st))) (TRI_FLOOR (s32 (po_yt st + TRI_ONE))) in
  let l := edge_position (po_left st) y in
  let r := edge_position (po_right st) y in
  let l_ext := extent l (po_l st) xmax in
  let r_ext := extent r (po_r st) xmax in
  let xml := max2 xmin (gglFixedToIntFloor (gglFloorx (fst l_ext))) in
  let xmr := min2 xmax (gglFixedToIntFloor (gglCeilx (snd r_ext))) in
  let '(xl, xr, c) := if po_retire st then (xml, xmr, retire_row xmin xmax st)
                      else (min2 (po_xl st) xml, max2 (po_xr st) xmr, po_cov st) in
  let! c := band_coverage st l_ext r_ext y c in
  let! next := next_edges edges y st in
  match next with
  | None => Ok (inr (xl, xr, c))
  | Some (i, lft, rgt) =>
      Ok (inl (mk_poly i lft rgt y l r (s32 (Z.shiftl y (32 - TRI_FRACTION_BITS)) =? 0) xl xr c))
  end.

Fixpoint poly_loop (fuel : nat) (xmin xmax : Z) (edges : list AAEdge) (st : poly_t) : res (Z * Z * coverage_t) :=
  match fuel with
  | O => Err out_of_fuel
  | S fuel =>
      let! next := poly_round xmin xmax edges st in
      match next with
      | inr r => Ok r
      | inl st => poly_loop fuel xmin xmax edges st
      end
  end.

(** The edges of a closed polygon. *)
Fixpoint poly_edges (first : vertex) (pts : list vertex) (ymin ymax : Z) : res (list AAEdge) :=
  match pts with
  | [] => Ok []
  | [p] => aa_edge_setup p first ymin ymax
  | p :: (q :: _) as pts' =>
      let! e := aa_edge_setup p q ymin ymax in
      let! es := poly_edges first pts' ymin ymax in
      Ok (e ++ es)
  end.

(** Rounds enough for any polygon: an edge spans at most [2^16 / 16] pixel
    rows, and edges are replaced at most twice. *)
Definition poly_fuel : nat := Z.to_nat 16800.

Definition aapolyx (s : scissor_t) (cov0 : Z -> Z) (pts : list vertex) : res (list event) :=
  let xmin := scl s in
  let xmax := scr s in
  let ymin := TRI_FROM_INT (sct s) in
  let ymax := TRI_FROM_INT (scb s) in
  if (length pts <? 2)%nat || (4 <? length pts)%nat || (xmax <=? xmin) || (ymax <=? ymin) then Ok []
  else
    let! es := poly_edges (nth 0 pts (0, 0)) pts ymin ymax in
    match qsort es with
    | e0 :: e1 :: _ =>
        let c := clear_coverage xmin xmax (cov0, []) in
        let yt := ae_y_top e0 in
        let c := cov_event (Init_y (Z.shiftr yt TRI_FRACTION_BITS)) c in
        let st := mk_poly 2 e0 e1 yt (ae_x e0) (ae_x e1) false xmax xmin c in
        let! r := poly_loop poly_fuel xmin xmax (qsort es) st in
        let '(xl, xr, c) := r in
        let c := if xl <? xr then cov_event Scanline (cov_event (Set_span xl xr) c) else c in
        Ok (rev (snd c))
    | _ => Ok []
    end.

Definition aa_trianglex (s : scissor_t) (cov0 : Z -> Z) (a b c : vertex) : res (list event) :=
  aapolyx s cov0 [a; b; c].

(** A line of the given width as a quad. *)
Definition aa_linex (s : scissor_t) (cov0 : Z -> Z) (v0 v1 : vertex) (width : Z) : res (list event) :=
  let dx := s32 (fst v0 - fst v1) in
  let dy := s32 (snd v0 - snd v1) in
  let nx := s32 (- dy) in
  let ny := dx in
  let! recip := of_option no_quotient (gglSqrtRecipx (s32 (s32 (nx * nx) + s32 (ny * ny)))) in
  let norm := gglMulx_shift width recip 4 in
  let nx := gglMulx_shift nx norm 21 in
  let ny := gglMulx_shift ny norm 21 in
  let plus v := (s32 (fst v + nx), s32 (snd v + ny)) in
  let minus v := (s32 (fst v - nx), s32 (snd v - ny)) in
  aapolyx s cov0 [plus v0; plus v1; minus v1; minus v0].

(** ** The sweep ends, and draws inside the scissor *)

(** The pen after a list of calls. *)
Definition pen_step (e : event) (p : pen_t) : pen_t :=
  match e with
  | Set_span xl xr => mk_pen (pn_y p) xl xr
  | Init_y y => mk_pen y (pn_xl p) (pn_xr p)
  | Step_y => mk_pen (pn_y p + 1) (pn_xl p) (pn_xr p)
  | Rect yc => mk_pen (pn_y p + yc) (pn_xl p) (pn_xr p)
  | Scanline | Coverage _ _ => p
  end.

Lemma spans_app a b p : spans (a ++ b) p = spans a p ++ spans b (fold_left (fun p e => pen_step e p) a p).
Proof.
  revert p. induction a as [|e a IH]; intros p; [done|].
  destruct e; cbn [app spans fold_left pen_step]; rewrite IH; [done..| |done]. by rewrite app_assoc.
Qed.

Definition columns_ok (xmin xmax : Z) (sp : Z * Z * Z) : Prop :=
  let '(_, xl, xr) := sp in xmin <= xl < xr /\ xr <= xmax.

(** The calls made so far draw between the columns. *)
Definition cov_ok (xmin xmax : Z) (c : coverage_t) : Prop :=
  Forall (columns_ok xmin xmax) (drawn (rev (snd c))).

Section Columns.
Context (xmin xmax : Z).

Lemma cov_event_ok e c :
  match e with Scanline | Rect _ => False | _ => True end -> cov_ok xmin xmax c -> cov_ok xmin xmax (cov_event e c).
Proof.
  unfold cov_ok, drawn. cbn [cov_event snd rev]. rewrite spans_app. intros H Hc.
  apply Forall_app. split; [done|]. by destruct e; cbn.
Qed.

Lemma cov_store_ok p v c : cov_ok xmin xmax c -> cov_ok xmin xmax (cov_store p v c).
Proof. intros H. apply (cov_event_ok (Coverage p v) c I H). Qed.

Lemma cov_span_ok xl xr c :
  xmin <= xl < xr -> xr <= xmax -> cov_ok xmin xmax c ->
  cov_ok xmin xmax (cov_event Scanline (cov_event (Set_span xl xr) c)).
Proof.
  unfold cov_ok, drawn. intros H1 H2 Hc. cbn [cov_event snd rev]. rewrite <-app_assoc, spans_app.
  apply Forall_app. split; [done|]. cbn. constructor; [|constructor]. cbn. lia.
Qed.

Lemma ADD_ok p v c : cov_ok xmin xmax c -> cov_ok xmin xmax (ADD_COVERAGE p v c).
Proof. apply cov_store_ok. Qed.
Lemma SUB_ok p v c : cov_ok xmin xmax c -> cov_ok xmin xmax (SUB_COVERAGE p v c).
Proof. apply cov_store_ok. Qed.

Lemma cov_fill_ok n p v c : cov_ok xmin xmax c -> cov_ok xmin xmax (cov_fill n p v c).
Proof. revert p c. induction n as [|n IH]; intros p c H; cbn; [done|]. by apply IH, cov_store_ok. Qed.

Lemma add_pixels_ok n p cf c : cov_ok xmin xmax c -> cov_ok xmin xmax (add_pixels n p cf c).
Proof. revert p c. induction n as [|n IH]; intros p c H; cbn; [done|]. by apply IH, ADD_ok. Qed.

Lemma middle_pixels_ok op n y_incr p cf c :
  (forall p v c, cov_ok xmin xmax c -> cov_ok xmin xmax (op p v c)) ->
  cov_ok xmin xmax c -> cov_ok xmin xmax (snd (middle_pixels op n y_incr p cf c)).
Proof. intros Hop. revert p cf c. induction n as [|n IH]; intros p cf c H; cbn; [done|]. by apply IH, Hop. Qed.

Lemma edge_coverage_ok op y_incr a b yt y c :
  (forall p v c, cov_ok xmin xmax c -> cov_ok xmin xmax (op p v c)) ->
  cov_ok xmin xmax c -> cov_ok xmin xmax (edge_coverage op y_incr a b yt y c).
Proof.
  intros Hop H. unfold edge_coverage. destruct (_ =? _); [by apply Hop|]. cbn zeta.
  match goal with |- context [middle_pixels op ?n ?i ?p ?cf ?c'] =>
    pose proof (middle_pixels_ok op n i p cf c' Hop) as HM; destruct (middle_pixels op n i p cf c') as [[p' cf'] c2] end.
  by apply Hop, HM, Hop.
Qed.

Lemma SET_ok p v n c c' : SET_COVERAGE p v n c = Ok c' -> cov_ok xmin xmax c -> cov_ok xmin xmax c'.
Proof. unfold SET_COVERAGE. destruct (n <? 0); [discriminate|]. intros [= <-]. apply cov_fill_ok. Qed.

Lemma fill_coverage_ok l r yt y c c' :
  fill_coverage l r yt y c = Ok c' -> cov_ok xmin xmax c -> cov_ok xmin xmax c'.
Proof.
  unfold fill_coverage. cbv zeta. generalize (Z.to_nat (Z.shiftr (r - l + (FIXED_ONE - 1)) FIXED_BITS)). intros n.
  destruct (0x8000 <=? _); [apply SET_ok|]. intros [= <-]. apply add_pixels_ok.
Qed.

Lemma band_coverage_ok st l r y c c' :
  band_coverage st l r y c = Ok c' -> cov_ok xmin xmax c -> cov_ok xmin xmax c'.
Proof.
  unfold band_coverage. intros H Hc.
  match goal with H : context [fill_coverage ?a ?b ?t ?y ?c1] |- _ =>
    destruct (fill_coverage a b t y c1) as [c2|] eqn:E end; cbn in H; [|done].
  injection H as <-. apply edge_coverage_ok; [apply SUB_ok|].
  eapply fill_coverage_ok; [exact E|]. apply edge_coverage_ok; [apply ADD_ok|done].
Qed.

Lemma retire_row_ok st :
  xmin <= po_xl st -> po_xr st <= xmax -> cov_ok xmin xmax (po_cov st) -> cov_ok xmin xmax (retire_row xmin xmax st).
Proof.
  intros H1 H2 Hc. unfold retire_row, clear_coverage. apply cov_fill_ok, cov_event_ok; [done|].
  destruct (Z.ltb_spec (po_xl st) (po_xr st)); [|done]. by apply cov_span_ok.
Qed.
End Columns.

(** *** Termination *)

Definition is_s16 (z : Z) : Prop := - 2 ^ 15 <= z < 2 ^ 15.
Definition edge_y_ok (e : AAEdge) : Prop := is_s16 (ae_y_top e) /\ is_s16 (ae_y_bot e).

Lemma s16_range z : is_s16 (s16 z).
Proof. unfold is_s16, s16. div_lia. Qed.

Lemma res_bind_ok {A B} (r : res A) (f : A -> res B) b :
  res_bind r f = Ok b -> exists a, r = Ok a /\ f a = Ok b.
Proof. destruct r; cbn; [eauto|done]. Qed.

Lemma aa_edge_setup_ok p q ymin ymax es :
  aa_edge_setup p q ymin ymax = Ok es -> Forall edge_y_ok es /\ (length es <= 1)%nat.
Proof.
  unfold aa_edge_setup. destruct (if snd q <? snd p then (q, p) else (p, q)) as [t b].
  destruct (_ || _ || _); [intros [= <-]; split; [constructor|cbn; lia]|].
  intros (incr & _ & H)%res_bind_ok. destruct incr. injection H as <-.
  split; [|cbn; lia]. constructor; [|constructor]. split; apply s16_range.
Qed.

Lemma poly_edges_ok first pts ymin ymax es :
  poly_edges first pts ymin ymax = Ok es -> Forall edge_y_ok es /\ (length es <= length pts)%nat.
Proof.
  revert es. induction pts as [|p [|q pts] IH]; intros es.
  - intros [= <-]. split; [constructor|cbn; lia].
  - cbn. intros H. apply aa_edge_setup_ok in H. done.
  - cbn [poly_edges]. intros (e & E & (es' & E' & [= <-])%res_bind_ok)%res_bind_ok.
    apply aa_edge_setup_ok in E as [E1 E2]. apply IH in E' as [E3 E4].
    split; [by apply Forall_app|]. rewrite length_app. cbn [length] in *. lia.
Qed.

Lemma insert_edge_perm e es : Permutation (e :: es) (insert_edge e es).
Proof.
  induction es as [|e' es IH]; cbn; [done|]. destruct (_ <? 0); [done|].
  rewrite <-IH. apply perm_swap.
Qed.

Lemma qsort_perm es : Permutation es (qsort es).
Proof.
  unfold qsort. transitivity ([] ++ es); [done|]. generalize (@nil AAEdge).
  induction es as [|e es IH]; intros acc; cbn; [by rewrite app_nil_r|].
  rewrite <-IH, <-insert_edge_perm. cbn. symmetry. apply Permutation_middle.
Qed.

(** The sweep's state: [i] edges used, its edges and its row in range, its
    iterators inside the columns. *)
Definition poly_ok (xmin xmax : Z) (edges : list AAEdge) (st : poly_t) : Prop :=
  (po_i st <= length edges)%nat /\ edge_y_ok (po_left st) /\ edge_y_ok (po_right st) /\ is_s16 (po_yt st) /\
  xmin <= po_xl st /\ po_xr st <= xmax /\ cov_ok xmin xmax (po_cov st).

(** Rounds left. *)
Definition poly_measure (edges : list AAEdge) (st : poly_t) : Z :=
  (Z.of_nat (length edges) + 1 - Z.of_nat (po_i st)) * 4200 + 2048 - po_yt st / 16.

Lemma next_edges_ok edges y st r :
  Forall edge_y_ok edges -> edge_y_ok (po_left st) -> edge_y_ok (po_right st) -> (po_i st <= length edges)%nat ->
  next_edges edges y st = Ok r ->
  match r with
  | None => True
  | Some (i, l, r) => (i <= length edges)%nat /\ edge_y_ok l /\ edge_y_ok r /\
      ((po_i st < i)%nat \/ i = po_i st /\ y <> ae_y_bot (po_left st) /\ y <> ae_y_bot (po_right st))
  end.
Proof.
  intros He Hl Hr Hi. unfold next_edges.
  assert (forall i e, next_edge edges i = Ok e -> edge_y_ok e /\ (i < length edges)%nat) as Hn.
  { unfold next_edge, of_option. intros i e H. destruct (edges !! i) as [e'|] eqn:E; [|done]. injection H as ->.
    split; [by apply (Forall_lookup_1 _ _ _ _ He E)|]. by apply lookup_lt_Some in E. }
  destruct (Z.eqb_spec y (ae_y_bot (po_left st))) as [E1|E1], (Z.eqb_spec y (ae_y_bot (po_right st))) as [E2|E2];
    cbn [orb]; try (destruct (Nat.leb_spec (length edges) (po_i st)); [by intros [= <-]|]).
  - intros ((i & l) & (e & (H1 & H2)%Hn & [= <- <-])%res_bind_ok & ((i' & r') & (e' & (H3 & H4)%Hn & [= <- <-])%res_bind_ok & [= <-])%res_bind_ok)%res_bind_ok.
    split_and!; [lia|done|done|left; lia].
  - intros ((i & l) & (e & (H1 & H2)%Hn & [= <- <-])%res_bind_ok & ((i' & r') & [= <- <-] & [= <-])%res_bind_ok)%res_bind_ok.
    split_and!; [lia|done|done|left; lia].
  - intros ((i & l) & [= <- <-] & ((i' & r') & (e' & (H3 & H4)%Hn & [= <- <-])%res_bind_ok & [= <-])%res_bind_ok)%res_bind_ok.
    split_and!; [lia|done|done|left; lia].
  - intros [= <-]. split_and!; [done..|]. by right.
Qed.

Lemma poly_round_ok xmin xmax edges st next :
  xmin < xmax -> Forall edge_y_ok edges -> poly_ok xmin xmax edges st ->
  poly_round xmin xmax edges st = Ok next ->
  match next with
  | inr (xl, xr, c) => xmin <= xl /\ xr <= xmax /\ cov_ok xmin xmax c
  | inl st' => poly_ok xmin xmax edges st' /\ 0 <= poly_measure edges st' < poly_measure edges st
  end.
Proof.
  intros Hx He (Hi & HL & HR & Hyt & Hxl & Hxr & Hc). unfold poly_round.
  set (y := min2 (min2 _ _) _). set (l := edge_position (po_left st) y). set (r := edge_position (po_right st) y).
  cbv zeta. set (l_ext := extent l (po_l st) xmax). set (r_ext := extent r (po_r st) xmax).
  rewrite !max2_max, !min2_min. set (fl := gglFixedToIntFloor (gglFloorx (fst l_ext))).
  set (fr := gglFixedToIntFloor (gglCeilx (snd r_ext))).
  assert (exists xl xr c, (if po_retire st then (Z.max xmin fl, Z.min xmax fr, retire_row xmin xmax st)
    else (Z.min (po_xl st) (Z.max xmin fl), Z.max (po_xr st) (Z.min xmax fr), po_cov st)) = (xl, xr, c) /\
    xmin <= xl /\ xr <= xmax /\ cov_ok xmin xmax c) as (xl & xr & c & -> & Hxl' & Hxr' & Hc').
  { destruct (po_retire st); do 3 eexists; (split; [reflexivity|]); split_and!; try lia; [by apply retire_row_ok|done]. }
  clearbody l r l_ext r_ext fl fr.
  intros (c2 & Hb & (nx & Hn & H)%res_bind_ok)%res_bind_ok.
  apply (band_coverage_ok xmin xmax) in Hb; [|done].
  apply next_edges_ok in Hn; [|done..]. destruct nx as [[[i lft] rgt]|]; injection H as <-; [|done].
  destruct Hn as (Hi' & HL' & HR' & Hp).
  assert (is_s16 y /\ (y <> ae_y_bot (po_left st) -> y <> ae_y_bot (po_right st) -> y / 16 = po_yt st / 16 + 1)) as [Hy16 Hy].
  { unfold y. rewrite !min2_min. destruct HL as [_ HL]. destruct HR as [_ HR]. unfold is_s16, TRI_ONE in *.
    rewrite tri_floor, s32_id by (unfold is_s32; lia).
    split; [div_lia|]. intros N1 N2.
    assert (Z.min (Z.min (ae_y_bot (po_left st)) (ae_y_bot (po_right st))) ((po_yt st + 16) / 16 * 16) = (po_yt st + 16) / 16 * 16) as -> by lia.
    div_lia. }
  split; [by split_and!|]. unfold poly_measure. cbn [po_i po_yt]. unfold is_s16 in *. clear - Hp Hy Hi Hi' Hy16 Hyt.
  destruct Hp as [Hp|(-> & N1 & N2)]; [div_lia|]. rewrite (Hy N1 N2) in *. split; [|lia]. div_lia.
Qed.

Lemma poly_loop_ok xmin xmax edges fuel st :
  xmin < xmax -> Forall edge_y_ok edges -> poly_ok xmin xmax edges st -> poly_measure edges st < Z.of_nat fuel ->
  match poly_loop fuel xmin xmax edges st with
  | Ok (xl, xr, c) => xmin <= xl /\ xr <= xmax /\ cov_ok xmin xmax c
  | Err f => f <> out_of_fuel
  end.
Proof.
  intros Hx He. revert st. induction fuel as [|fuel IH]; intros st Hs Hm.
  - destruct Hs as (Hi & _ & _ & Hy & _). unfold poly_measure, is_s16 in *. div_lia.
  - cbn [poly_loop]. destruct (poly_round xmin xmax edges st) as [next|f] eqn:E.
    + apply poly_round_ok in E; [|done..]. cbn [res_bind]. destruct next as [st'|[[xl xr] c]]; [|done].
      destruct E as [Hs' Hm']. apply IH; [done|lia].
    + cbn [res_bind]. intros ->. revert E. unfold poly_round. cbv zeta.
      destruct (if po_retire st then _ else _) as [[? ?] ?].
      unfold band_coverage, fill_coverage, SET_COVERAGE, next_edges, next_edge, of_option.
      repeat (case_match; cbn [res_bind]; try discriminate).
Qed.

Lemma poly_edges_fuel first pts ymin ymax : poly_edges first pts ymin ymax <> Err out_of_fuel.
Proof.
  assert (forall p q, aa_edge_setup p q ymin ymax <> Err out_of_fuel) as HE.
  { intros p q. unfold aa_edge_setup, of_option. destruct (if snd q <? snd p then (q, p) else (p, q)) as [t b].
    repeat (case_match; cbn [res_bind]; try discriminate). }
  induction pts as [|p [|q pts] IH]; [done|apply HE|].
  change (poly_edges first (p :: q :: pts) ymin ymax) with
    (let! e := aa_edge_setup p q ymin ymax in
     let! es := poly_edges first (q :: pts) ymin ymax in Ok (e ++ es)).
  pose proof (HE p q) as Hpq. destruct (aa_edge_setup p q ymin ymax) as [e|f]; cbn [res_bind].
  - destruct (poly_edges first (q :: pts) ymin ymax) as [es|f]; cbn [res_bind]; [discriminate|].
    intros [= ->]. by apply IH.
  - intros [= ->]. by apply Hpq.
Qed.

(** C36: The sweep of an antialiased polygon always ends, whatever the polygon: it
    stops with a fault or with a list of calls, and then every span drawn is
    inside the columns of the scissor. *)
Theorem aapolyx_terminates s cov0 pts :
  match aapolyx s cov0 pts with
  | Ok es => Forall (columns_ok (scl s) (scr s)) (drawn es)
  | Err f => f <> out_of_fuel
  end.
Proof.
  unfold aapolyx. destruct (Nat.ltb_spec (length pts) 2), (Nat.ltb_spec 4 (length pts)); cbn [orb];
    try by constructor.
  destruct (Z.leb_spec (scr s) (scl s)); [by constructor|]. destruct (_ <=? TRI_FROM_INT (sct s)); [by constructor|].
  cbn [orb]. destruct (poly_edges _ pts _ _) as [es|f] eqn:E; cbn [res_bind].
  2: { intros ->. by apply (poly_edges_fuel _ _ _ _ E). }
  apply poly_edges_ok in E as [He Hl]. rewrite (qsort_perm es) in He, Hl.
  destruct (qsort es) as [|e0 [|e1 es']] eqn:Eq; [by constructor..|].
  set (st := mk_poly _ _ _ _ _ _ _ _ _ _). rewrite <-Eq in *.
  assert (poly_ok (scl s) (scr s) (qsort es) st) as HS.
  { rewrite Eq in He. inversion_clear He as [|? ? H0' H1']. inversion_clear H1' as [|? ? H1'' _].
    unfold poly_ok, st. cbn [po_i po_left po_right po_yt po_xl po_xr po_cov]. rewrite Eq. cbn [length].
    split_and!; try lia; try done; [apply H0'|].
    apply cov_event_ok; [done|]. apply cov_fill_ok. constructor. }
  assert (poly_measure (qsort es) st < Z.of_nat poly_fuel) as HM.
  { destruct HS as (_ & _ & _ & Hy & _). unfold poly_measure, poly_fuel, is_s16 in *.
    change (po_i st) with 2%nat. rewrite Z2Nat.id by lia. clear - Hl Hy H0. div_lia. }
  pose proof (poly_loop_ok (scl s) (scr s) (qsort es) poly_fuel st ltac:(lia) He HS) as HP.
  destruct (poly_loop _ _ _ _ st) as [[[xl xr] c]|f]; cbn [res_bind].
  - destruct (HP HM) as (H1' & H2' & H3').
    destruct (Z.ltb_spec xl xr); [|done]. by apply cov_span_ok.
  - by apply HP.
Qed.

(** A triangle whose middle vertex is exactly on the bottom of the scissor,
    with its last vertex below, reads a fourth edge, which was never set: both
    edges end together and the third one, of height 0, is taken for a left
    edge. *)
Theorem aa_triangle_unset_edge :
  aa_trianglex (mk_scissor 0 0 0 0 0 20 0 10) (fun _ => 0) (80, 32) (32, 160) (240, 197) = Err unset_edge.
Proof. vm_compute. reflexivity. Qed.
