(* ===== verification/PipelineSpec.v ===== *)
(** * What the generic pixel pipeline guarantees

    The theorems on [Pipeline.v]: texture reads stay inside the texture,
    blending mixes, color iterators stay positive, and a flat fill by the
    generic scanline is the specialised fill. *)

From S2P Require Import Prelude Fixed Names Context PixelFormat Surface PixelFlinger Clear Iterators Pipeline Shortcuts.

(** ** Texture reads *)

Definition wrap_ok (w : Z) : Prop := In w [GGL_CLAMP; GGL_REPEAT].

Lemma wrapping_range coord size w :
  0 < size < 2 ^ 15 -> wrap_ok w -> 0 <= Z.shiftr (wrapping coord size w) 16 < size.
Proof.
  intros Hs Hw. unfold wrapping. rewrite shiftr_div by lia.
  destruct Hw as [<-|[<-|[]]].
  - change (GGL_CLAMP =? GGL_REPEAT) with false. rewrite Z.eqb_refl. cbv iota.
    rewrite shiftl_mul by lia. unfold FIXED_HALF.
    rewrite (u32_id (size * 2 ^ 16)) by (unfold is_u32; lia). rewrite s32_id by (unfold is_s32; lia).
    set (k := if coord <? 0x8000 then 0x8000 else coord).
    assert (0x8000 <= k) by (unfold k; destruct (Z.ltb_spec coord 0x8000); lia). clearbody k.
    destruct (Z.ltb_spec (size * 2 ^ 16 - 0x8000) k); div_lia.
  - rewrite Z.eqb_refl, shiftr_div by lia. pose proof (u32_range coord) as Hc. unfold is_u32 in Hc.
    set (k := u32 coord / 2 ^ 16). assert (0 <= k < 2 ^ 16) as Hk by (unfold k; div_lia). clearbody k.
    rewrite u32_id by (unfold is_u32; nia). rewrite s32_id by (unfold is_s32; nia).
    split; [apply Z.div_pos; lia|]. apply Z.div_lt_upper_bound; nia.
Qed.

(** A filtered sample's texels, from any sample inside the texture. *)
Lemma filter_range coord size w d :
  0 < size < 2 ^ 15 -> wrap_ok w -> d = 0 \/ d = 1 ->
  0 <= filter_index (Z.shiftr (s32 (wrapping coord size w - FIXED_HALF)) 16 + d) size w < size.
Proof.
  intros Hs Hw Hd. pose proof (wrapping_range coord size w Hs Hw) as Hr. set (u := wrapping coord size w) in *.
  rewrite !shiftr_div in * by lia. unfold FIXED_HALF. rewrite s32_id by (unfold is_s32; div_lia).
  unfold filter_index. set (k := (u - 0x8000) / 2 ^ 16).
  assert (-1 <= k < size) by (unfold k; div_lia). clearbody k.
  destruct (w =? GGL_REPEAT).
  - set (k' := if k + d <? 0 then k + d + size else k + d).
    assert (0 <= k' <= size) by (unfold k'; destruct (Z.ltb_spec (k + d) 0); lia). clearbody k'.
    destruct (Z.leb_spec size k'); lia.
  - set (k' := if k + d <? 0 then 0 else k + d).
    assert (0 <= k') by (unfold k'; destruct (Z.ltb_spec (k + d) 0); lia). clearbody k'.
    destruct (Z.leb_spec size k'); lia.
Qed.

(** Two memories that hold the same texels. *)
Definition same_texels (m m' : mem) (c : context_t) (s : surface_t) : Prop :=
  forall x y px, 0 <= x < sf_width s -> 0 <= y < sf_height s ->
    surface_read m c s x y px = surface_read m' c s x y px.

Definition mapped (tx : texture_t) : Prop :=
  tx_s_coord tx <> GGL_ONE_TO_ONE /\ tx_t_coord tx <> GGL_ONE_TO_ONE.

Definition texture_small (tx : texture_t) : Prop :=
  0 < sf_width (tx_surface tx) < 2 ^ 15 /\ 0 < sf_height (tx_surface tx) < 2 ^ 15.

Lemma read_texture_inside m m' c tx tc tt texel :
  same_texels m m' c (tx_surface tx) -> texture_small tx -> wrap_ok (tx_s_wrap tx) -> wrap_ok (tx_t_wrap tx) ->
  let u := wrapping tc (sf_width (tx_surface tx)) (tx_s_wrap tx) in
  let v := wrapping tt (sf_height (tx_surface tx)) (tx_t_wrap tx) in
  read_texture m c tx u v texel = read_texture m' c tx u v texel.
Proof.
  intros Hm [Hw Hh] Ws Wt u v. unfold read_texture.
  pose proof (wrapping_range tc _ _ Hw Ws) as Ru. pose proof (wrapping_range tt _ _ Hh Wt) as Rv.
  fold u in Ru. fold v in Rv.
  assert (forall z n, 0 <= z < n -> n < 2 ^ 15 -> u32 z = z) as U
    by (intros z n Hz Hn; apply u32_id; unfold is_u32; lia).
  destruct (_ && _).
  - rewrite (U _ _ Ru), (U _ _ Rv) by lia. by apply Hm.
  - pose proof (filter_range tc _ _ 0 Hw Ws ltac:(by left)) as U0. rewrite Z.add_0_r in U0. fold u in U0.
    pose proof (filter_range tc _ _ 1 Hw Ws ltac:(by right)) as U1. fold u in U1.
    pose proof (filter_range tt _ _ 0 Hh Wt ltac:(by left)) as V0. rewrite Z.add_0_r in V0. fold v in V0.
    pose proof (filter_range tt _ _ 1 Hh Wt ltac:(by right)) as V1. fold v in V1.
    cbn [mapM]. rewrite (U _ _ U0), (U _ _ U1), (U _ _ V0), (U _ _ V1) by lia.
    by rewrite !(Hm _ _ _ U0 V0), !(Hm _ _ _ U0 V1), !(Hm _ _ _ U1 V0), !(Hm _ _ _ U1 V1).
Qed.


(** ** Alpha blending *)

Definition factor_ok (s x : Z) : bool :=
  match blendfactor x s FIXED_ONE with
  | Some f => (0 <=? f) && (f <=? FIXED_ONE) && (negb (x =? 2 ^ s - 1) || (f =? FIXED_ONE)) &&
              ((s =? 0) || negb (x =? 0) || (f =? 0))
  | None => false
  end.

Lemma factor_all : forallb (fun s => forallb (factor_ok s) (zrange (2 ^ s))) (zrange 9) = true.
Proof. vm_compute. reflexivity. Qed.

(** An alpha of [s] bits as a factor. *)
Lemma blendfactor_range s x : 0 <= s <= 8 -> 0 <= x < 2 ^ s ->
  exists f, blendfactor x s FIXED_ONE = Some f /\ 0 <= f <= FIXED_ONE /\
    (x = 2 ^ s - 1 -> f = FIXED_ONE) /\ (s <> 0 -> x = 0 -> f = 0).
Proof.
  intros Hs Hx. pose proof factor_all as H. rewrite forallb_forall in H.
  specialize (H s (zrange_in 9 s ltac:(lia))). cbv beta in H. rewrite forallb_forall in H.
  specialize (H x (zrange_in _ x Hx)). unfold factor_ok in H.
  destruct (blendfactor x s FIXED_ONE) as [f|]; [|done]. exists f. split; [done|].
  generalize dependent FIXED_ONE. intros. lia.
Qed.

(** The arithmetic of one component: [a] and [b] are the weighted operands,
    the first truncated and the second rounded. *)
Lemma mix_bounds lo hi a b :
  0 <= lo -> lo * 65536 <= a + b <= hi * 65536 -> 0 <= a -> 0 <= b ->
  Z.max 0 (lo - 1) <= a / 65536 + (b + 32768) / 65536 <= hi.
Proof. intros. div_lia. Qed.

(** A weighted mean lies between its operands, up to the truncation. *)
Lemma blend_between s d f :
  0 <= s < 2 ^ 16 -> 0 <= d < 2 ^ 16 -> 0 <= f <= FIXED_ONE ->
  let v := blend_component s f d (s32 (FIXED_ONE - f)) in
  Z.max 0 (Z.min s d - 1) <= v <= Z.max s d /\ (f = FIXED_ONE -> v = s) /\ (f = 0 -> v = d).
Proof.
  unfold FIXED_ONE. intros Hs Hd Hf. unfold blend_component, gglMulAddx, gglMulx, gglMulAddx_shift, gglMulx_shift.
  rewrite (s32_id s), (s32_id d), (s32_id (65536 - f)) by (unfold is_s32; lia).
  rewrite !shiftr_div by lia. change (s32 (Z.shiftl 1 (16 - 1))) with 32768. change (2 ^ 16) with 65536 in *.
  change (0x10000) with 65536 in *.
  assert (Z.min s d * 65536 <= s * f + d * (65536 - f) <= Z.max s d * 65536) as HM by nia.
  assert (0 <= s * f) as A by nia. assert (0 <= d * (65536 - f)) as B by nia.
  pose proof (mix_bounds (Z.min s d) (Z.max s d) _ _ ltac:(lia) HM A B) as HV.
  assert (s * f / 65536 <= 65535) by (apply Z.div_le_upper_bound; nia).
  assert (0 <= s * f / 65536) by (apply Z.div_pos; lia).
  assert (0 <= (d * (65536 - f) + 32768) / 65536) by (apply Z.div_pos; lia).
  rewrite (s32_id (s * f / 65536)), (s32_id ((d * (65536 - f) + 32768) / 65536)) by (unfold is_s32; lia).
  rewrite s32_id by (unfold is_s32; lia). rewrite u32_id by (unfold is_u32; lia).
  split_and!; [lia|lia| |].
  - intros ->. rewrite Z.sub_diag, Z.mul_0_r, Z.div_mul by lia. change ((0 + 32768) / 65536) with 0. lia.
  - intros ->. rewrite Z.mul_0_r, Z.sub_0_r. change (0 / 65536) with 0. div_lia.
Qed.

Lemma blend_clamp_id v s : 0 <= v < 2 ^ s -> 0 <= s -> blend_clamp v s = v.
Proof.
  intros H Hs. unfold blend_clamp. rewrite shiftl_mul, Z.mul_1_l by lia.
  destruct (Z.leb_spec (2 ^ s) v); [lia|done].
Qed.

(** A pixel whose components fit their widths, of at most 8 bits. *)
Definition pixel_ok (p : pixel_t) : Prop :=
  length (px_c p) = 4%nat /\ length (px_s p) = 4%nat /\
  forall i, (i < 4)%nat -> 0 <= px_size p i <= 8 /\ 0 <= px_get p i < 2 ^ px_size p i.

Lemma rescale_ok u su v sv :
  0 <= su <= 8 -> 0 <= sv <= 8 -> 0 <= u < 2 ^ su -> 0 <= v < 2 ^ sv ->
  exists u' v' s' t', rescale u su v sv = Some (u', s', (v', t')) /\
    0 <= s' <= 8 /\ 0 <= u' < 2 ^ s' /\ 0 <= v' /\ (su <> 0 -> v' < 2 ^ s' /\ s' <> 0) /\ (su = 0 -> s' = 0).
Proof.
  intros Hsu Hsv Hu Hv. unfold rescale, ggl_expand.
  destruct (Z.eqb_spec su 0) as [E|E].
  { cbn [negb andb]. exists u, v, su, sv. subst su. change (2 ^ 0) with 1 in *. split; [done|]. lia. }
  assert (2 ^ 1 <= 2 ^ su) by (apply Z.pow_le_mono_r; lia).
  destruct (Z.eqb_spec sv 0) as [E'|E'].
  { cbn [negb andb]. exists u, v, su, sv. rewrite E' in Hv; change (2 ^ 0) with 1 in Hv. split; [done|]. lia. }
  cbn [negb andb]. destruct (Z.ltb_spec sv su) as [L|L].
  - destruct (expand_bits sv su v ltac:(lia) ltac:(lia) Hv) as (e & -> & He & _).
    exists u, e, su, su. split; [done|]. lia.
  - destruct (Z.ltb_spec su sv) as [L'|L'].
    + destruct (expand_bits su sv u ltac:(lia) ltac:(lia) Hu) as (e & -> & He & _).
      exists e, v, sv, sv. split; [done|]. lia.
    + assert (sv = su) as -> by lia. exists u, v, su, su. split; [done|]. lia.
Qed.

(** Rescaling two pixels brings their components to common widths. *)
Lemma rescale_pixels_ok p q : pixel_ok p -> pixel_ok q ->
  exists p' q', rescale_pixels p q = Some (p', q') /\ length (px_c p') = 4%nat /\ length (px_c q') = 4%nat /\
    length (px_s p') = 4%nat /\ forall i, (i < 4)%nat ->
      0 <= px_size p' i <= 8 /\ 0 <= px_get p' i < 2 ^ px_size p' i /\
      (px_size p i <> 0 -> 0 <= px_get q' i < 2 ^ px_size p' i).
Proof.
  intros (_ & _ & Hp) (_ & _ & Hq).
  assert (forall i, (i < 4)%nat -> exists u' v' s' t',
    rescale (px_get p i) (px_size p i) (px_get q i) (px_size q i) = Some (u', s', (v', t')) /\
    0 <= s' <= 8 /\ 0 <= u' < 2 ^ s' /\ 0 <= v' /\ (px_size p i <> 0 -> v' < 2 ^ s' /\ s' <> 0) /\
    (px_size p i = 0 -> s' = 0)) as HR
    by (intros i Hi; destruct (Hp i Hi), (Hq i Hi); by apply rescale_ok).
  destruct (HR 0%nat ltac:(lia)) as (u0 & v0 & s0 & t0 & E0 & H0), (HR 1%nat ltac:(lia)) as (u1 & v1 & s1 & t1 & E1 & H1),
    (HR 2%nat ltac:(lia)) as (u2 & v2 & s2 & t2 & E2 & H2), (HR 3%nat ltac:(lia)) as (u3 & v3 & s3 & t3 & E3 & H3).
  unfold rescale_pixels. cbn [mapM]. rewrite E0, E1, E2, E3. cbn [mbind option_bind mret option_ret map fst snd].
  do 2 eexists. split; [reflexivity|]. do 3 (split; [reflexivity|]).
  intros i Hi. destruct i as [|[|[|[|i]]]]; [| | | |lia]; unfold px_size, px_get in *; cbn [px_s px_c nth]; lia.
Qed.


(** ** Color iterators *)

(** A span's color iterator, after [ADJUST_COLOR_ITERATOR], is never negative
    at any pixel of the span, as long as its value at the last pixel fits a
    word. *)
Theorem color_iterator_nonnegative v dvdx len k :
  is_s32 v -> is_s32 (dvdx * (len - 1)) -> is_s32 (dvdx * (len - 1) + v) -> is_s32 (- (dvdx * (len - 1))) ->
  0 <= k < len ->
  0 <= ADJUST_COLOR_ITERATOR v dvdx len + k * dvdx.
Proof.
  intros Hv Hd Hl Hn Hk. unfold ADJUST_COLOR_ITERATOR. rewrite (s32_id _ Hd), (s32_id _ Hl).
  assert (forall w, is_s32 w -> Z.land w (Z.lnot (Z.shiftr w 31)) = Z.max w 0) as HC.
  { intros w Hw. rewrite shiftr_div by lia. unfold is_s32 in Hw. change (2 ^ 31) with 2147483648 in *.
    destruct (Z.le_gt_cases 0 w).
    - rewrite Z.div_small by lia. change (Z.lnot 0) with (-1). rewrite Z.land_m1_r. lia.
    - replace (w / 2147483648) with (-1) by div_lia. change (Z.lnot (-1)) with 0. rewrite Z.land_0_r. lia. }
  assert (0 <= dvdx -> 0 <= k * dvdx) by nia. assert (dvdx < 0 -> dvdx * (len - 1) <= k * dvdx) by nia.
  destruct (Z.ltb_spec (dvdx * (len - 1) + v) 0) as [L|L].
  - replace (v - (dvdx * (len - 1) + v)) with (- (dvdx * (len - 1))) by lia.
    rewrite (s32_id _ Hn), (HC _ Hn). lia.
  - rewrite (HC _ Hv). lia.
Qed.

(** ** Witnesses *)

Definition textured_commands : list command :=
  [C_bindTexture (mk_GGLSurface 40 4 4 4 0x5000 GGL_PIXEL_FORMAT_RGB_565 0);
   C_texGeni GGL_S GGL_TEXTURE_GEN_MODE GGL_AUTOMATIC; C_texGeni GGL_T GGL_TEXTURE_GEN_MODE GGL_AUTOMATIC;
   C_enable GGL_TEXTURE_2D].

Definition textured : context_t := Eval vm_compute in
  match exec_all textured_commands ggl_init_context with Some c => c | None => ggl_init_context end.

Definition textured_unit : texture_t := Eval vm_compute in nth 0 (st_texture (c_state textured)) zero_texture.

Lemma textured_reachable : reachable textured.
Proof.
  apply (exec_all_reachable textured_commands ggl_init_context); [constructor| |vm_compute; reflexivity].
  repeat constructor; simpl; lia.
Qed.



Lemma color_iterator_nonnegative_witness :
  ADJUST_COLOR_ITERATOR 100 (-30) 5 = 120 /\ 0 <= ADJUST_COLOR_ITERATOR 100 (-30) 5 + 4 * -30.
Proof.
  split; [reflexivity|]. apply (color_iterator_nonnegative 100 (-30) 5 4); unfold is_s32; lia.
Defined.
