(* ===== verification/SharedBuffer.v ===== *)
(** * Reference-counted buffers

    Models libpixelflinger/tinyutils/SharedBuffer.cpp and SharedBuffer.h: the
    heap blocks vectors keep their items in.  A block is its reference count
    and its slots; a slot is [Some] item or [None] for storage no item was
    constructed in.  Every size the callers ask for is a multiple of the item
    size, so sizes are counted in items.  An address is never used twice;
    [h_fails] lists the outcomes of the next calls of [malloc] and [realloc]
    ([true]: the call fails), which succeed when the list is over.  A
    computation has no result where the code follows a null or a freed pointer
    or leaves the bounds of a block. *)

From stdpp Require Import gmap.
From S2P Require Import Prelude.

(** ** The heap *)

Record block (A : Type) := mk_block { b_refs : Z; b_slots : list (option A) }.
Arguments mk_block {A}.
Arguments b_refs {A}.
Arguments b_slots {A}.

Record heap (A : Type) := mk_heap { h_blocks : gmap Z (block A); h_next : Z; h_fails : list bool }.
Arguments mk_heap {A}.
Arguments h_blocks {A}.
Arguments h_next {A}.
Arguments h_fails {A}.

Definition empty_heap {A} : heap A := mk_heap ∅ 1 [].

(** ** Computations on the heap *)

Definition hM (A : Type) : Type -> Type := stM (heap A).

#[local] Open Scope state_scope.

Section SharedBuffer.
  Context {A : Type}.
  Implicit Types (a : Z) (n : nat) (h : heap A).

Definition get a : hM A (block A) := fun h => b ← h_blocks h !! a; Some (b, h).
Definition set a (b : block A) : hM A unit := fun h => Some (tt, mk_heap (<[a := b]> (h_blocks h)) (h_next h) (h_fails h)).
Definition free a : hM A unit :=
  fun h => _ ← h_blocks h !! a; Some (tt, mk_heap (delete a (h_blocks h)) (h_next h) (h_fails h)).

(** [malloc], for a block whose fields are set right after. *)
Definition malloc (b : block A) : hM A (option Z) := fun h =>
  match h_fails h with
  | true :: fs => Some (None, mk_heap (h_blocks h) (h_next h) fs)
  | fs => Some (Some (h_next h), mk_heap (<[h_next h := b]> (h_blocks h)) (h_next h + 1) (tail fs))
  end.

(** The slots [off..off+n-1], and their replacement. *)
Definition read_slots (off n : nat) (l : list (option A)) : option (list (option A)) :=
  if (off + n <=? length l)%nat then Some (take n (drop off l)) else None.
Definition write_slots (off : nat) (xs l : list (option A)) : option (list (option A)) :=
  if (off + length xs <=? length l)%nat then Some (take off l ++ xs ++ drop (off + length xs) l) else None.

Definition load_slots a (off n : nat) : hM A (list (option A)) :=
  let! b := get a in
  match read_slots off n (b_slots b) with Some l => hret l | None => hfail end.
Definition store_slots a (off : nat) (xs : list (option A)) : hM A unit :=
  let! b := get a in
  match write_slots off xs (b_slots b) with Some l => set a (mk_block (b_refs b) l) | None => hfail end.

(** ** The operations of [SharedBuffer] *)

Definition alloc (size : nat) : hM A (option Z) := malloc (mk_block 1 (replicate size None)).

Definition dealloc a : hM A Z :=
  let! b := get a in if negb (b_refs b =? 0) then hret (-1) else free a ;;; hret 0.

Definition onlyOwner a : hM A bool := let! b := get a in hret (b_refs b =? 1).
Definition size a : hM A nat := let! b := get a in hret (length (b_slots b)).

Definition acquire a : hM A unit := let! b := get a in set a (mk_block (s32 (b_refs b + 1)) (b_slots b)).

(** [release(flags)]: the previous count; [keep] is [eKeepStorage]. *)
Definition release (keep : bool) a : hM A Z :=
  let! b := get a in
  let last := b_refs b =? 1 in
  set a (mk_block (if last then 0 else s32 (b_refs b - 1)) (b_slots b)) ;;;
  (if last && negb keep then free a else hret tt) ;;;
  hret (b_refs b).

(** Copy the first slots of one block to another. *)
Definition copy_data (dst src : Z) (n : nat) : hM A unit :=
  let! xs := load_slots src 0 n in store_slots dst 0 xs.

Definition edit a : hM A (option Z) :=
  let! own := onlyOwner a in
  if own then hret (Some a)
  else
    let! n := size a in
    let! sb := alloc n in
    match sb with
    | Some p => copy_data p a n ;;; release false a ;;; hret (Some p)
    | None => hret None
    end.

(** [realloc]: the block moves; the slots that fit move with it. *)
Definition realloc a (size : nat) : hM A (option Z) :=
  let! b := get a in
  let! p := malloc (mk_block (b_refs b) (take size (b_slots b) ++ replicate (size - length (b_slots b)) None)) in
  match p with Some p => free a ;;; hret (Some p) | None => hret None end.

(** The copying half of [editResize]. *)
Definition copy_resize a (newSize : nat) : hM A (option Z) :=
  let! sb := alloc newSize in
  match sb with
  | Some p =>
      let! mySize := size a in
      copy_data p a (if (newSize <? mySize)%nat then newSize else mySize) ;;; release false a ;;; hret (Some p)
  | None => hret None
  end.

Definition editResize a (newSize : nat) : hM A (option Z) :=
  let! own := onlyOwner a in
  if own then
    let! n := size a in
    if (n =? newSize)%nat then hret (Some a)
    else
      let! buf := realloc a newSize in
      match buf with Some p => hret (Some p) | None => copy_resize a newSize end
  else copy_resize a newSize.

Definition attemptEdit a : hM A (option Z) :=
  let! own := onlyOwner a in hret (if own then Some a else None).

Definition reset a (new_size : nat) : hM A (option Z) :=
  let! sb := alloc new_size in
  match sb with Some p => release false a ;;; hret (Some p) | None => hret None end.

End SharedBuffer.
