(* ===== verification/Vector.v ===== *)
(** * Copy-on-write vectors

    Models [VectorImpl] of libpixelflinger/tinyutils/VectorImpl.cpp, which
    [Vector] of Vector.h instantiates at a type of items: a vector is a
    pointer to the data of a shared buffer and a count.  Assigning a vector
    shares its buffer; an operation that changes the items of a shared buffer
    is meant to copy it first.  [tcopy] and [tdtor] are the flags
    [HAS_TRIVIAL_COPY] and [HAS_TRIVIAL_DTOR] of the item type, [dflt] the item
    its default constructor makes ([None] for a trivial constructor, which
    leaves the storage as it is).  Statuses are those of [VectorImpl.cpp],
    with the error numbers of Windows and lib_errno.in.h. *)

From stdpp Require Import gmap.
From S2P Require Import Prelude SharedBuffer.

#[local] Open Scope state_scope.

Definition NO_ERROR : Z := 0.
Definition NO_MEMORY : Z := -12.
Definition BAD_VALUE : Z := -22.
Definition BAD_INDEX : Z := -132.
Definition NAME_NOT_FOUND : Z := -2.

Definition kMinVectorCapacity : nat := 4.

Record vec := mk_vec { v_storage : option Z; v_count : nat }.
#[export] Instance eta_vec : Eta vec := fun v => mk_vec (v_storage v) (v_count v).
Definition empty_vec : vec := mk_vec None 0.

Section Vector.
  Context {A : Type} (tcopy tdtor : bool) (dflt : option A).
  Implicit Types (v : vec) (n index amount : nat).

(** ** Items *)

Definition do_construct (a : Z) (off n : nat) : hM A unit :=
  match dflt with Some x => store_slots a off (replicate n (Some x)) | None => hret tt end.

Definition do_destroy (a : Z) (off n : nat) : hM A unit :=
  if tdtor then hret tt
  else let! _ := load_slots a off n in store_slots a off (replicate n None).

Definition do_copy (dst : Z) (off : nat) (src : option Z) (soff n : nat) : hM A unit :=
  if (n =? 0)%nat then hret tt
  else match src with
       | Some s => let! xs := load_slots s soff n in store_slots dst off xs
       | None => hfail
       end.

(** Move [n] items within a block; a destructor leaves the slots an item moved
    out of empty, the trivial case is [memmove]. *)
Definition do_move (a : Z) (dst src n : nat) : hM A unit :=
  let! xs := load_slots a src n in
  (if tcopy && tdtor then hret tt else do_destroy a src n) ;;; store_slots a dst xs.

(** ** Storage *)

Definition capacity v : hM A nat := match v_storage v with Some a => size a | None => hret 0%nat end.

Definition release_storage v : hM A unit :=
  match v_storage v with
  | None => hret tt
  | Some a =>
      let! prev := release true a in
      if prev =? 1 then do_destroy a 0 (v_count v) ;;; dealloc a ;;; hret tt else hret tt
  end.

(** The vector ready to be written to; a failed allocation leaves it shared. *)
Definition editArrayImpl v : hM A vec :=
  match v_storage v with
  | None => hret v
  | Some a =>
      let! e := attemptEdit a in
      match e with
      | Some _ => hret v
      | None =>
          let! n := capacity v in
          let! sb := alloc n in
          match sb with
          | Some p => do_copy p 0 (Some a) 0 (v_count v) ;;; release_storage v ;;; hret (v <| v_storage := Some p |>)
          | None => hret v
          end
      end
  end.

(** The copy constructor and the assignment of another vector. *)
Definition vector_copy v : hM A vec :=
  match v_storage v with Some a => acquire a ;;; hret v | None => hret v end.
Definition vector_assign v (rhs : vec) : hM A vec :=
  release_storage v ;;;
  (if (v_count rhs =? 0)%nat then hret empty_vec else vector_copy rhs).
Definition finish_vector v : hM A vec := release_storage v ;;; hret empty_vec.

(** ** Growing and shrinking *)

(** The part of [_grow] and [_shrink] that moves to a new buffer: the first
    [where] items, then those from [from] on at [dest]. *)
Definition relocate v (new_capacity where_ dest from : nat) : hM A vec :=
  let! sb := alloc new_capacity in
  match sb with
  | Some p =>
      do_copy p 0 (v_storage v) 0 where_ ;;;
      do_copy p dest (v_storage v) from (v_count v - from) ;;;
      release_storage v ;;; hret (v <| v_storage := Some p |>)
  | None => hret v
  end.

(** The resizing of a buffer of trivial items; a failure there is a null
    pointer the code goes on to use. *)
Definition resize_trivial v (a : Z) (new_capacity : nat) : hM A vec :=
  let! sb := editResize a new_capacity in
  match sb with Some p => hret (v <| v_storage := Some p |>) | None => hfail end.

(** Make room for [amount] items; also where the room starts. *)
Definition grow v (where_ amount : nat) : hM A (vec * option (Z * nat)) :=
  let where_ := if (v_count v <? where_)%nat then v_count v else where_ in
  let new_size := (v_count v + amount)%nat in
  let! cap := capacity v in
  let! v := (if (cap <? new_size)%nat then
               let new_capacity := Nat.max kMinVectorCapacity ((new_size * 3 + 1) / 2) in
               match v_storage v with
               | Some a =>
                   if (v_count v =? where_)%nat && tcopy && tdtor then resize_trivial v a new_capacity
                   else relocate v new_capacity where_ (where_ + amount) where_
               | None => relocate v new_capacity where_ (where_ + amount) where_
               end
             else if (where_ <? v_count v)%nat then
               let! v := editArrayImpl v in
               match v_storage v with
               | Some a => do_move a (where_ + amount) where_ (v_count v - where_) ;;; hret v
               | None => hfail
               end
             else hret v) in
  let v := v <| v_count := new_size |> in
  hret (v, match v_storage v with Some a => Some (a, where_) | None => None end).

Definition shrink v (where_ amount : nat) : hM A vec :=
  match v_storage v with
  | None => hret v
  | Some a =>
      let where_ := if (v_count v <=? where_)%nat then (v_count v - amount)%nat else where_ in
      let new_size := (v_count v - amount)%nat in
      let! cap := capacity v in
      let! v := (if (new_size * 3 <? cap)%nat then
                   let new_capacity := Nat.max kMinVectorCapacity (new_size * 2) in
                   if (where_ =? v_count v - amount)%nat && tcopy && tdtor then resize_trivial v a new_capacity
                   else relocate v new_capacity where_ where_ (where_ + amount)
                 else
                   let! v := editArrayImpl v in
                   match v_storage v with
                   | Some a =>
                       do_destroy a where_ amount ;;;
                       (if (where_ + amount <? v_count v)%nat
                        then do_move a where_ (where_ + amount) (v_count v - (where_ + amount)) else hret tt) ;;;
                       hret v
                   | None => hfail
                   end) in
      hret (v <| v_count := new_size |>)
  end.

(** ** The public operations: a status and the vector *)

(** Reading [array()[index]]. *)
Definition item_at v index : hM A A :=
  match v_storage v with
  | Some a => let! xs := load_slots a index 1 in match xs with [Some x] => hret x | _ => hfail end
  | None => hfail
  end.

(** [editItemAt(index) = f(...)]. *)
Definition edit_item v index (f : A -> A) : hM A vec :=
  let! v := editArrayImpl v in
  match v_storage v with
  | Some a =>
      let! xs := load_slots a index 1 in
      match xs with [Some x] => store_slots a index [Some (f x)] ;;; hret v | _ => hfail end
  | None => hfail
  end.

(** Open room for [n] items at [index] and fill it. *)
Definition insert_items v index n (fill : Z -> nat -> hM A unit) : hM A (Z * vec) :=
  if (v_count v <? index)%nat then hret (BAD_INDEX, v)
  else
    let! (v, room) := grow v index n in
    match room with
    | Some (a, off) => fill a off ;;; hret (Z.of_nat index, v)
    | None => hret (NO_MEMORY, v)
    end.

Definition insertAt v (item : option A) index (numItems : nat) : hM A (Z * vec) :=
  insert_items v index numItems (fun a off =>
    match item with
    | Some x => store_slots a off (replicate numItems (Some x))
    | None => do_construct a off numItems
    end).

Definition insertVectorAt v (vector : vec) index : hM A (Z * vec) :=
  insert_items v index (v_count vector) (fun a off => do_copy a off (v_storage vector) 0 (v_count vector)).
Definition appendVector v (vector : vec) : hM A (Z * vec) := insertVectorAt v vector (v_count v).

Definition removeItemsAt v index (count : nat) : hM A (Z * vec) :=
  if (v_count v <? index + count)%nat then hret (BAD_VALUE, v)
  else let! v := shrink v index count in hret (Z.of_nat index, v).
Definition clear v : hM A vec := shrink v 0 (v_count v).

Definition push v (item : A) : hM A vec := let! (_, v) := insertAt v (Some item) (v_count v) 1 in hret v.
Definition pop v : hM A vec :=
  if (v_count v =? 0)%nat then hret v else let! (_, v) := removeItemsAt v (v_count v - 1) 1 in hret v.
Definition add v (item : A) : hM A (Z * vec) := insertAt v (Some item) (v_count v) 1.

Definition replaceAt v (item : option A) index : hM A (Z * vec) :=
  let! v := editArrayImpl v in
  match v_storage v with
  | None => hret (NO_MEMORY, v)
  | Some a =>
      do_destroy a index 1 ;;;
      (match item with Some x => store_slots a index [Some x] | None => do_construct a index 1 end) ;;;
      hret (Z.of_nat index, v)
  end.

Definition setCapacity v (new_capacity : nat) : hM A (Z * vec) :=
  let! current := capacity v in
  if (new_capacity <=? v_count v)%nat then hret (Z.of_nat current, v)
  else
    let! sb := alloc new_capacity in
    match sb with
    | Some p => do_copy p 0 (v_storage v) 0 (v_count v) ;;; release_storage v ;;;
                hret (Z.of_nat new_capacity, v <| v_storage := Some p |>)
    | None => hret (NO_MEMORY, v)
    end.

End Vector.
