(* ===== verification/VectorSpec.v ===== *)
(** * What vectors guarantee

    The heap of [SharedBuffer.v] with the list [vs] of all live vectors is well
    formed when every block has as many references as vectors point to it, so
    that no block is lost and none is freed early.  On such a heap every
    operation of [Vector.v] does to the items of its vector what the
    corresponding function does to a list, and leaves the items of every other
    vector alone, shared or not; growing a shared vector in place is the
    exception. *)

From stdpp Require Import gmap.
From S2P Require Import Prelude SharedBuffer Vector.

#[local] Open Scope state_scope.

(** ** Well-formed heaps *)

(** The number of vectors that point to [a]. *)
Fixpoint cnt (a : Z) (vs : list vec) : Z :=
  match vs with
  | [] => 0
  | v :: vs => (if bool_decide (v_storage v = Some a) then 1 else 0) + cnt a vs
  end.

Section VectorSpec.
  Context {A : Type} (tcopy tdtor : bool) (dflt : option A).
  Implicit Types (h : heap A) (v w : vec) (vs : list vec) (l : list A).

Definition refs_ok h vs : Prop :=
  forall a, match h_blocks h !! a with
            | Some b => b_refs b = cnt a vs /\ 0 < cnt a vs < 2 ^ 31
            | None => cnt a vs = 0
            end.

Record wf h vs : Prop := mk_wf {
  wf_refs : refs_ok h vs;
  wf_next : forall a b, h_blocks h !! a = Some b -> a < h_next h;
  wf_memory : h_fails h = [] }.

(** The vector [v] holds the items [l]. *)
Definition holds h v l : Prop :=
  match v_storage v with
  | None => v_count v = 0%nat /\ l = []
  | Some a => exists r rest, h_blocks h !! a = Some (mk_block r (map Some l ++ rest)) /\ v_count v = length l
  end.

(** The vectors [vs] hold in [h'] the items they held in [h]. *)
Definition keep vs h h' : Prop := forall w l, In w vs -> holds h w l -> holds h' w l.

Lemma keep_refl vs h : keep vs h h.
Proof. by intros w l. Qed.
Lemma keep_trans vs h1 h2 h3 : keep vs h1 h2 -> keep vs h2 h3 -> keep vs h1 h3.
Proof. intros H1 H2 w l Hw H. by apply H2, H1. Qed.
Lemma keep_tail v vs h h' : keep (v :: vs) h h' -> keep vs h h'.
Proof. intros H w l Hw. apply H. by right. Qed.

Lemma cnt_nonneg a vs : 0 <= cnt a vs.
Proof. induction vs as [|v vs IH]; cbn [cnt]; [lia|]. case_bool_decide; lia. Qed.
Lemma cnt_zero a vs w : cnt a vs = 0 -> In w vs -> v_storage w <> Some a.
Proof.
  induction vs as [|v vs IH]; [done|]. cbn [cnt]. pose proof (cnt_nonneg a vs).
  case_bool_decide; intros Hc [->|Hi]; try done; [lia|lia|]. apply IH; [lia|done].
Qed.
Lemma cnt_cons a v vs : v_storage v <> Some a -> cnt a (v :: vs) = cnt a vs.
Proof. intros H. cbn [cnt]. rewrite bool_decide_false by done. lia. Qed.
Lemma cnt_cons_eq a v vs : v_storage v = Some a -> cnt a (v :: vs) = 1 + cnt a vs.
Proof. intros H. cbn [cnt]. by rewrite bool_decide_true. Qed.
Lemma cnt_storage a v w vs : v_storage v = v_storage w -> cnt a (v :: vs) = cnt a (w :: vs).
Proof. intros H. cbn [cnt]. by rewrite H. Qed.
Lemma cnt_swap a v w vs : cnt a (v :: w :: vs) = cnt a (w :: v :: vs).
Proof. cbn [cnt]. lia. Qed.

Lemma wf_ext h vs vs' : (forall a, cnt a vs = cnt a vs') -> wf h vs -> wf h vs'.
Proof. intros E [R N M]. split; [|done|done]. intros a. specialize (R a). by rewrite <- E. Qed.
Lemma wf_storage h v w vs : v_storage v = v_storage w -> wf h (v :: vs) -> wf h (w :: vs).
Proof. intros E. apply wf_ext. intros a. by apply cnt_storage. Qed.
Lemma wf_swap h v w vs : wf h (v :: w :: vs) -> wf h (w :: v :: vs).
Proof. apply wf_ext. intros a. apply cnt_swap. Qed.

Lemma wf_block h v vs a : wf h (v :: vs) -> v_storage v = Some a ->
  exists b, h_blocks h !! a = Some b /\ b_refs b = 1 + cnt a vs /\ 1 + cnt a vs < 2 ^ 31.
Proof.
  intros [R _ _] E. specialize (R a). rewrite (cnt_cons_eq a v vs E) in R.
  pose proof (cnt_nonneg a vs). destruct (h_blocks h !! a) as [b|]; [|lia]. exists b. split; [done|lia].
Qed.

(** ** Changing one block *)

Definition upd_block h (a : Z) (b : block A) : heap A := mk_heap (<[a := b]> (h_blocks h)) (h_next h) (h_fails h).

Lemma upd_lookup h a b : h_blocks (upd_block h a b) !! a = Some b.
Proof. cbn. apply lookup_insert_eq. Qed.
Lemma upd_lookup_ne h a b c : a <> c -> h_blocks (upd_block h a b) !! c = h_blocks h !! c.
Proof. intros H. cbn. by apply lookup_insert_ne. Qed.

Lemma wf_upd h vs a b b' :
  wf h vs -> h_blocks h !! a = Some b -> b_refs b' = b_refs b -> wf (upd_block h a b') vs.
Proof.
  intros [R N M] Ea Er. split; [|intros c b0|done].
  - intros c. specialize (R c). destruct (decide (a = c)) as [<-|Hc].
    + rewrite upd_lookup. rewrite Ea in R. by rewrite Er.
    + by rewrite upd_lookup_ne.
  - destruct (decide (a = c)) as [<-|Hc]; [intros _; by apply (N a b)|].
    rewrite upd_lookup_ne by done. apply N.
Qed.

Lemma keep_upd h vs a b' : cnt a vs = 0 -> keep vs h (upd_block h a b').
Proof.
  intros Hc w l Hw. unfold holds. destruct (v_storage w) as [c|] eqn:E; [|done].
  intros (r & rest & Eb & Ec). exists r, rest. split; [|done].
  rewrite upd_lookup_ne; [done|]. intros <-. by apply (cnt_zero a vs w Hc Hw).
Qed.

(** ** Slots *)

Lemma load_slots_spec h a r s1 s2 s3 n :
  h_blocks h !! a = Some (mk_block r (s1 ++ s2 ++ s3)) -> n = length s2 ->
  load_slots a (length s1) n h = Some (s2, h).
Proof.
  intros E ->. unfold load_slots, hbind, get. rewrite E. cbn [mbind option_bind b_slots].
  unfold read_slots. rewrite !length_app.
  destruct (Nat.leb_spec (length s1 + length s2) (length s1 + (length s2 + length s3))); [|lia].
  rewrite drop_app_length, take_app_length. done.
Qed.

Lemma store_slots_spec h a r s1 s2 s3 xs :
  h_blocks h !! a = Some (mk_block r (s1 ++ s2 ++ s3)) -> length xs = length s2 ->
  store_slots a (length s1) xs h = Some (tt, upd_block h a (mk_block r (s1 ++ xs ++ s3))).
Proof.
  intros E Hx. unfold store_slots, hbind, get. rewrite E. cbn [mbind option_bind b_slots b_refs].
  unfold write_slots. rewrite !length_app, Hx.
  destruct (Nat.leb_spec (length s1 + length s2) (length s1 + (length s2 + length s3))); [|lia].
  rewrite take_app_length. rewrite (app_assoc s1 s2 s3), <- (length_app s1 s2), drop_app_length. done.
Qed.

Lemma upd_twice h a b b' : upd_block (upd_block h a b) a b' = upd_block h a b'.
Proof. unfold upd_block. cbn. by rewrite insert_insert_eq. Qed.

(** Destroying items keeps the length of the block. *)
Lemma do_destroy_spec h a r s1 s2 s3 n :
  h_blocks h !! a = Some (mk_block r (s1 ++ s2 ++ s3)) -> n = length s2 ->
  exists s2', do_destroy tdtor a (length s1) n h = Some (tt, upd_block h a (mk_block r (s1 ++ s2' ++ s3))) /\
    length s2' = length s2.
Proof.
  intros E ->. unfold do_destroy. destruct tdtor.
  - exists s2. split; [|done]. unfold hret, upd_block. rewrite insert_id by done. by destruct h.
  - exists (replicate (length s2) None). rewrite length_replicate. split; [|done].
    unfold hbind. rewrite (load_slots_spec h a r s1 s2 s3) by done. cbn [mbind option_bind].
    by apply (store_slots_spec h a r s1 s2 s3); [|rewrite length_replicate].
Qed.

(** ** Allocation and release *)

Lemma alloc_spec h vs n : wf h vs ->
  exists p, let h' := mk_heap (<[p := mk_block 1 (replicate n None)]> (h_blocks h)) (p + 1) [] in
    alloc n h = Some (Some p, h') /\ wf h' (mk_vec (Some p) 0 :: vs) /\ cnt p vs = 0 /\ h_blocks h !! p = None.
Proof.
  intros [R N M]. exists (h_next h).
  assert (h_blocks h !! h_next h = None) as E0.
  { destruct (h_blocks h !! h_next h) as [b|] eqn:E; [|done]. specialize (N _ _ E). lia. }
  pose proof (R (h_next h)) as C0. rewrite E0 in C0.
  unfold alloc, malloc. rewrite M. cbv zeta. split; [done|]. split; [|done]. split; cbn [h_blocks h_next h_fails].
  - intros a. specialize (R a). cbn [h_blocks]. destruct (decide (h_next h = a)) as [<-|Hn].
    + rewrite lookup_insert_eq. rewrite (cnt_cons_eq _ _ vs) by done. cbn [b_refs]. lia.
    + rewrite lookup_insert_ne by done. rewrite cnt_cons; [done|]. cbn. congruence.
  - intros a b. destruct (decide (h_next h = a)) as [<-|Hn].
    + intros _. lia.
    + rewrite lookup_insert_ne by done. intros H. specialize (N a b H). lia.
  - done.
Qed.

Lemma keep_fresh h vs p b n f : h_blocks h !! p = None -> keep vs h (mk_heap (<[p := b]> (h_blocks h)) n f).
Proof.
  intros E w l _. unfold holds. destruct (v_storage w) as [c|]; [|done].
  intros (r & rest & Eb & Ec). exists r, rest. split; [|done]. cbn. rewrite lookup_insert_ne; [done|]. congruence.
Qed.

Lemma get_spec h a b : h_blocks h !! a = Some b -> get a h = Some (b, h).
Proof. intros E. unfold get. by rewrite E. Qed.

Lemma release_keep_spec h a r s : h_blocks h !! a = Some (mk_block r s) ->
  release true a h = Some (r, upd_block h a (mk_block (if r =? 1 then 0 else s32 (r - 1)) s)).
Proof.
  intros E. unfold release. rewrite (hbind_some _ _ _ _ _ (get_spec _ _ _ E)). cbn [b_refs b_slots negb].
  by rewrite andb_false_r.
Qed.

Lemma dealloc_spec h a s : h_blocks h !! a = Some (mk_block 0 s) ->
  dealloc a h = Some (0, mk_heap (delete a (h_blocks h)) (h_next h) (h_fails h)).
Proof.
  intros E. unfold dealloc. rewrite (hbind_some _ _ _ _ _ (get_spec _ _ _ E)). cbn [b_refs negb Z.eqb].
  unfold free, hbind. by rewrite E.
Qed.

(** Releasing a vector leaves a heap that is well formed for the others. *)
Lemma release_storage_spec h v vs l : wf h (v :: vs) -> holds h v l ->
  exists h', release_storage tdtor v h = Some (tt, h') /\ wf h' vs /\ keep vs h h' /\
    forall a, v_storage v <> Some a -> h_blocks h' !! a = h_blocks h !! a.
Proof.
  intros W H. unfold holds in H. unfold release_storage. destruct (v_storage v) as [a|] eqn:E.
  2: { exists h. split; [done|]. split; [|split; [apply keep_refl|done]].
       revert W. apply wf_ext. intros a. rewrite cnt_cons; [done|congruence]. }
  destruct H as (r & rest & Eb & Ec). destruct (wf_block h v vs a W E) as (b & Eb' & Er & Hr).
  rewrite Eb in Eb'. injection Eb' as <-. cbn [b_refs] in Er.
  pose proof (cnt_nonneg a vs) as C0.
  rewrite (hbind_some _ _ _ _ _ (release_keep_spec _ _ _ _ Eb)).
  destruct (Z.eqb_spec r 1) as [R1|R1].
  - assert (cnt a vs = 0) as C by lia.
    destruct (do_destroy_spec (upd_block h a (mk_block 0 (map Some l ++ rest))) a 0 [] (map Some l) rest (v_count v))
      as (s2' & ED & _); [apply upd_lookup|by rewrite length_map|].
    cbn [length] in ED. rewrite upd_twice in ED. rewrite (hbind_some _ _ _ _ _ ED).
    rewrite (hbind_some _ _ _ _ _ (dealloc_spec _ _ _ (upd_lookup _ _ _))). unfold hret.
    cbn [upd_block h_blocks h_next h_fails]. rewrite delete_insert_eq.
    eexists. split; [reflexivity|]. destruct W as [R N M]. split; [split; cbn [h_blocks h_next h_fails]|split].
    + intros c. specialize (R c). cbn [h_blocks]. destruct (decide (a = c)) as [<-|Hc].
      * by rewrite lookup_delete_eq.
      * rewrite lookup_delete_ne by done. rewrite cnt_cons in R by congruence. done.
    + intros c b0. destruct (decide (a = c)) as [<-|Hc]; [by rewrite lookup_delete_eq|].
      rewrite lookup_delete_ne by done. apply N.
    + done.
    + intros w l' Hw. unfold holds. destruct (v_storage w) as [c|] eqn:Ew; [|done].
      intros (r' & rest' & E1 & E2). exists r', rest'. split; [|done]. cbn [h_blocks].
      rewrite lookup_delete_ne; [done|]. intros <-. by apply (cnt_zero a vs w C Hw).
    + intros c Hc. cbn [h_blocks]. apply lookup_delete_ne. congruence.
  - eexists. split; [reflexivity|]. assert (0 < cnt a vs) as C by lia.
    rewrite s32_id by (unfold is_s32; lia). destruct W as [R N M]. split; [split|split].
    + intros c. specialize (R c). destruct (decide (a = c)) as [<-|Hc].
      * rewrite upd_lookup. cbn [b_refs]. lia.
      * rewrite upd_lookup_ne by done. rewrite cnt_cons in R by congruence. done.
    + intros c b0. destruct (decide (a = c)) as [<-|Hc]; [intros _; by apply (N a _ Eb)|].
      rewrite upd_lookup_ne by done. apply N.
    + done.
    + intros w l' Hw. unfold holds. destruct (v_storage w) as [c|] eqn:Ew; [|done].
      intros (r' & rest' & E1 & E2). destruct (decide (a = c)) as [<-|Hc].
      * rewrite upd_lookup. rewrite Eb in E1. injection E1 as <- E1. eexists _, rest'. split; [by rewrite E1|done].
      * rewrite upd_lookup_ne by done. by exists r', rest'.
    + intros c Hc. apply upd_lookup_ne. congruence.
Qed.


(** ** Storage of one's own *)

(** The vector [v] has a block no vector of [vs] points to, with slots [s]. *)
Definition own_slots h vs v (s : list (option A)) : Prop :=
  exists p r, v_storage v = Some p /\ h_blocks h !! p = Some (mk_block r s) /\ cnt p vs = 0.

(** What an operation on [v] that ends with storage of its own leaves. *)
Record owned h vs v h' v' (s : list (option A)) : Prop := mk_owned {
  ow_wf : wf h' (v' :: vs);
  ow_keep : keep vs h h';
  ow_count : v_count v' = v_count v;
  ow_slots : own_slots h' vs v' s }.

(** No vector of [vs] shares the storage of [v]. *)
Definition alone vs v : Prop := match v_storage v with Some a => cnt a vs = 0 | None => True end.

Lemma own_alone h vs v s : own_slots h vs v s -> alone vs v.
Proof. intros (p & r & E & _ & C). unfold alone. by rewrite E. Qed.

Lemma split_map l (i k : nat) : (i + k <= length l)%nat ->
  map Some l = map (@Some A) (take i l) ++ map Some (take k (drop i l)) ++ map Some (drop (i + k) l).
Proof.
  intros H. rewrite <- !map_app. f_equal. rewrite <- drop_drop.
  by rewrite (take_drop k (drop i l)), take_drop.
Qed.

Lemma upd_same h a b : h_blocks h !! a = Some b -> upd_block h a b = h.
Proof. intros E. unfold upd_block. rewrite insert_id by done. by destruct h. Qed.

Lemma load_items h a r l rest (i k : nat) :
  h_blocks h !! a = Some (mk_block r (map Some l ++ rest)) -> (i + k <= length l)%nat ->
  load_slots a i k h = Some (map Some (take k (drop i l)), h).
Proof.
  intros E H. rewrite (split_map l i k H), <- !app_assoc in E.
  replace i with (length (map (@Some A) (take i l))) at 1 by (rewrite length_map, length_take; lia).
  apply (load_slots_spec h a r _ _ _ k E). rewrite length_map, length_take, length_drop. lia.
Qed.

Lemma do_copy_spec h p r s1 s2 s3 w l (soff k off : nat) :
  holds h w l -> h_blocks h !! p = Some (mk_block r (s1 ++ s2 ++ s3)) -> length s2 = k ->
  (soff + k <= length l)%nat -> off = length s1 ->
  do_copy p off (v_storage w) soff k h =
    Some (tt, upd_block h p (mk_block r (s1 ++ map Some (take k (drop soff l)) ++ s3))).
Proof.
  intros H E Ek Hk ->. unfold do_copy. destruct (Nat.eqb_spec k 0) as [K0|K0].
  - rewrite K0 in *. destruct s2; [|done]. cbn [take map app]. rewrite take_0. cbn [map app].
    by rewrite upd_same.
  - unfold holds in H. destruct (v_storage w) as [a|].
    + destruct H as (r' & rest & Eb & _).
      rewrite (hbind_some _ _ _ _ _ (load_items h a r' l rest soff k Eb Hk)).
      apply (store_slots_spec h p r s1 s2 s3); [done|].
      rewrite length_map, length_take, length_drop. lia.
    + destruct H as [_ ->]. cbn [length] in Hk. lia.
Qed.

Lemma holds_other h v l p b : v_storage v <> Some p -> holds h v l -> holds (upd_block h p b) v l.
Proof.
  unfold holds. destruct (v_storage v) as [a|]; [|done]. intros Hn (r & rest & E & C).
  exists r, rest. split; [|done]. rewrite upd_lookup_ne; [done|congruence].
Qed.

(** Allocate a block, fill it from [v] by [fill], drop [v]'s storage. *)
Lemma move_storage h v vs l n (fill : Z -> hM A unit) (s : list (option A)) :
  wf h (v :: vs) -> holds h v l ->
  (forall p h1, holds h1 v l -> h_blocks h1 !! p = Some (mk_block 1 (replicate n None)) -> v_storage v <> Some p ->
     fill p h1 = Some (tt, upd_block h1 p (mk_block 1 s))) ->
  exists p h1 h' v', alloc n h = Some (Some p, h1) /\
    (fill p ;;; release_storage tdtor v ;;; hret (v <| v_storage := Some p |>)) h1 = Some (v', h') /\
    owned h vs v h' v' s.
Proof.
  intros W H HF. destruct (alloc_spec h (v :: vs) n W) as (p & EA & W1 & C1 & N1).
  set (h1 := mk_heap _ _ _) in *. exists p, h1.
  assert (v_storage v <> Some p) as Hp by (apply (cnt_zero p (v :: vs)); [done|by left]).
  assert (holds h1 v l) as H1 by (apply (keep_fresh h [v] p _ _ _ N1); [by left|done]).
  assert (h_blocks h1 !! p = Some (mk_block 1 (replicate n None))) as E1 by (cbn; apply lookup_insert_eq).
  rewrite (hbind_some _ _ _ _ _ (HF p h1 H1 E1 Hp)).
  set (h2 := upd_block h1 p (mk_block 1 s)).
  assert (wf h2 (v :: mk_vec (Some p) 0 :: vs)) as W2 by (apply wf_swap; by apply (wf_upd h1 _ p _ _ W1 E1)).
  destruct (release_storage_spec h2 v _ l W2 (holds_other h1 v l p _ Hp H1)) as (h' & ER & W' & K & F).
  rewrite (hbind_some _ _ _ _ _ ER). unfold hret. exists h'. eexists. split; [done|]. split; [done|].
  assert (cnt p vs = 0) as C by (rewrite cnt_cons in C1 by done; done).
  split.
  - revert W'. by apply wf_storage.
  - intros w l' Hw Hl. apply (keep_tail _ _ _ _ K _ _ Hw). apply (keep_upd h1 vs p _ C w l' Hw).
    by apply (keep_fresh h vs p _ _ _ N1).
  - done.
  - exists p, 1. split; [done|]. split; [|done]. rewrite (F p Hp). apply upd_lookup.
Qed.

Lemma relocate_spec h v vs l (n where_ dest from : nat) :
  wf h (v :: vs) -> holds h v l ->
  (where_ <= from <= length l)%nat -> (where_ <= dest)%nat -> (dest + (length l - from) <= n)%nat ->
  exists v' h', relocate tdtor v n where_ dest from h = Some (v', h') /\
    owned h vs v h' v' (map Some (take where_ l) ++ replicate (dest - where_) None ++
      map Some (drop from l) ++ replicate (n - dest - (length l - from)) None).
Proof.
  intros W H Hf Hd Hn.
  assert (v_count v = length l) as Hc
    by (unfold holds in H; destruct (v_storage v); [by destruct H as (? & ? & _ & ?)|by destruct H as [-> ->]]).
  set (s := _ ++ _).
  destruct (move_storage h v vs l n (fun p => do_copy p 0 (v_storage v) 0 where_ ;;;
      do_copy p dest (v_storage v) from (v_count v - from)) s W H) as (p & h1 & h' & v' & EA & ER & O).
  - intros p h1 H1 E1 Hp.
    assert (replicate n (@None A) = [] ++ replicate where_ None ++ replicate (n - where_) None) as E2
      by (cbn [app]; rewrite <- replicate_add; f_equal; lia).
    rewrite E2 in E1.
    rewrite (hbind_some _ _ _ _ _ (do_copy_spec h1 p 1 _ _ _ v l 0 where_ 0 H1 E1
      (length_replicate _ _) ltac:(lia) eq_refl)).
    rewrite drop_0. cbn [app].
    rewrite (do_copy_spec _ p 1 (map Some (take where_ l) ++ replicate (dest - where_) None)
      (replicate (length l - from) None) (replicate (n - dest - (length l - from)) None) v l from (v_count v - from) dest
      (holds_other h1 v l p _ Hp H1)).
    + rewrite upd_twice. unfold s. rewrite <- app_assoc. do 6 f_equal.
      by rewrite take_ge by (rewrite length_drop; lia).
    + rewrite upd_lookup. do 2 f_equal. rewrite <- !app_assoc. f_equal. rewrite <- !replicate_add. f_equal. lia.
    + rewrite length_replicate. lia.
    + lia.
    + rewrite length_app, length_map, length_take, length_replicate. lia.
  - exists v', h'. split; [|done]. unfold relocate. rewrite (hbind_some _ _ _ _ _ EA).
    revert ER. clear. unfold hbind. intros <-.
    destruct (do_copy p 0 (v_storage v) 0 where_ h1) as [[[] h2]|]; [|done]. done.
Qed.

Lemma own_slots_holds h v vs l rest : own_slots h vs v (map Some l ++ rest) -> v_count v = length l -> holds h v l.
Proof. intros (p & r & E & Eb & _) C. unfold holds. rewrite E. by exists r, rest. Qed.

Lemma edit_array_spec h v vs l :
  wf h (v :: vs) -> holds h v l -> v_storage v <> None ->
  exists v' h' rest, editArrayImpl tdtor v h = Some (v', h') /\ owned h vs v h' v' (map Some l ++ rest) /\
    forall a b, v_storage v = Some a -> h_blocks h !! a = Some b -> length (b_slots b) = (length l + length rest)%nat.
Proof.
  intros W H Hs. pose proof H as H0. unfold holds in H0. unfold editArrayImpl.
  destruct (v_storage v) as [a|] eqn:E; [|done]. destruct H0 as (r & rest & Eb & Ec).
  destruct (wf_block h v vs a W E) as (b & Eb' & Er & _). rewrite Eb in Eb'. injection Eb' as <-. cbn [b_refs] in Er.
  pose proof (cnt_nonneg a vs) as C0.
  assert (attemptEdit a h = Some (if r =? 1 then Some a else None, h)) as EE.
  { unfold attemptEdit, onlyOwner, hbind. by rewrite (get_spec _ _ _ Eb). }
  rewrite (hbind_some _ _ _ _ _ EE). destruct (Z.eqb_spec r 1) as [R1|R1].
  - exists v, h, rest. split; [done|]. split.
    + split; [done|apply keep_refl|done|]. exists a, r. split; [done|]. split; [done|lia].
    + intros a' b [= <-] E2. rewrite Eb in E2. injection E2 as <-. cbn. by rewrite length_app, length_map.
  - set (n := length (map Some l ++ rest)).
    assert (capacity v h = Some (n, h)) as EC
      by (unfold capacity, size; rewrite E; unfold hbind; by rewrite (get_spec _ _ _ Eb)).
    rewrite (hbind_some _ _ _ _ _ EC).
    destruct (move_storage h v vs l n (fun p => do_copy p 0 (Some a) 0 (v_count v)) (map Some l ++ replicate (length rest) None) W H)
      as (p & h1 & h' & v' & EA & ER & O).
    + intros p h1 H1 E1 Hp. rewrite <- E.
      assert (replicate n (@None A) = [] ++ replicate (length l) None ++ replicate (length rest) None) as E2
        by (cbn [app]; rewrite <- replicate_add; f_equal; unfold n; by rewrite length_app, length_map).
      rewrite E2 in E1. rewrite (do_copy_spec h1 p 1 _ _ _ v l 0 (v_count v) 0 H1 E1); cbn [app].
      * rewrite drop_0, take_ge by lia. done.
      * rewrite length_replicate. lia.
      * lia.
      * done.
    + exists v', h', (replicate (length rest) None). split; [|split; [done|]].
      * by rewrite (hbind_some _ _ _ _ _ EA).
      * intros a' b [= <-] E2. rewrite Eb in E2. injection E2 as <-. cbn.
        by rewrite length_app, length_map, length_replicate.
Qed.

(** ** Moving items inside a block *)

Lemma clear_moved h p r s1 s2 s3 :
  h_blocks h !! p = Some (mk_block r (s1 ++ s2 ++ s3)) ->
  exists s2', (if tcopy && tdtor then hret tt else do_destroy tdtor p (length s1) (length s2)) h =
    Some (tt, upd_block h p (mk_block r (s1 ++ s2' ++ s3))) /\ length s2' = length s2.
Proof.
  intros E. destruct (tcopy && tdtor).
  - exists s2. by rewrite upd_same.
  - by apply (do_destroy_spec h p r s1 s2 s3 (length s2)).
Qed.

Lemma do_move_forward h p r s1 s2 s3 (m : nat) :
  h_blocks h !! p = Some (mk_block r (s1 ++ s2 ++ s3)) -> (m <= length s3)%nat ->
  exists gap s3', do_move tcopy tdtor p (length s1 + m) (length s1) (length s2) h =
    Some (tt, upd_block h p (mk_block r (s1 ++ gap ++ s2 ++ s3'))) /\ length gap = m.
Proof.
  intros E Hm. unfold do_move.
  rewrite (hbind_some _ _ _ _ _ (load_slots_spec h p r s1 s2 s3 _ E eq_refl)).
  destruct (clear_moved h p r s1 s2 s3 E) as (s2' & ED & L). rewrite (hbind_some _ _ _ _ _ ED).
  set (T := s2' ++ s3). assert (length T = (length s2 + length s3)%nat) as LT by (unfold T; by rewrite length_app, L).
  exists (take m T), (drop (m + length s2) T). split; [|rewrite length_take; lia].
  assert (s1 ++ T = (s1 ++ take m T) ++ take (length s2) (drop m T) ++ drop (m + length s2) T) as ET
    by (by rewrite <- app_assoc, <- drop_drop, (take_drop (length s2) (drop m T)), take_drop).
  replace (length s1 + m)%nat with (length (s1 ++ take m T)) by (rewrite length_app, length_take; lia).
  rewrite (store_slots_spec _ p r (s1 ++ take m T) (take (length s2) (drop m T)) (drop (m + length s2) T)).
  - by rewrite upd_twice, <- app_assoc.
  - rewrite upd_lookup. do 2 f_equal. done.
  - rewrite length_take, length_drop. lia.
Qed.

Lemma do_move_backward h p r s1 s0 s2 s3 :
  h_blocks h !! p = Some (mk_block r (s1 ++ s0 ++ s2 ++ s3)) ->
  exists s3', do_move tcopy tdtor p (length s1) (length s1 + length s0) (length s2) h =
    Some (tt, upd_block h p (mk_block r (s1 ++ s2 ++ s3'))).
Proof.
  intros E. unfold do_move. rewrite app_assoc in E. rewrite <- length_app.
  rewrite (hbind_some _ _ _ _ _ (load_slots_spec h p r (s1 ++ s0) s2 s3 _ E eq_refl)).
  destruct (clear_moved h p r (s1 ++ s0) s2 s3 E) as (s2' & ED & L). rewrite (hbind_some _ _ _ _ _ ED).
  set (T := s0 ++ s2' ++ s3).
  assert (length T = (length s0 + length s2 + length s3)%nat) as LT by (unfold T; rewrite !length_app, L; lia).
  exists (drop (length s2) T).
  rewrite (store_slots_spec _ p r s1 (take (length s2) T) (drop (length s2) T)).
  - by rewrite upd_twice.
  - rewrite upd_lookup, take_drop. do 2 f_equal. unfold T. by rewrite <- app_assoc.
  - rewrite length_take. lia.
Qed.

(** ** Resizing a buffer of trivial items *)

Lemma own_upd h h' vs v v' s s' p r :
  owned h vs v h' v' s -> v_storage v' = Some p -> h_blocks h' !! p = Some (mk_block r s) ->
  owned h vs v (upd_block h' p (mk_block r s')) v' s'.
Proof.
  intros [W K C (q & r' & E & Eb & C0)] Ep E1. rewrite Ep in E. injection E as <-.
  split.
  - by apply (wf_upd h' _ p _ _ W E1).
  - eapply keep_trans; [done|]. by apply keep_upd.
  - done.
  - exists p, r. split; [done|]. split; [apply upd_lookup|done].
Qed.

Lemma realloc_spec h v vs a r s (n : nat) :
  wf h (v :: vs) -> v_storage v = Some a -> h_blocks h !! a = Some (mk_block r s) -> r = 1 ->
  exists p h', realloc a n h = Some (Some p, h') /\
    owned h vs v h' (v <| v_storage := Some p |>) (take n s ++ replicate (n - length s) None).
Proof.
  intros W E Eb ->. destruct (wf_block h v vs a W E) as (b & Eb' & Er & _).
  rewrite Eb in Eb'. injection Eb' as <-. cbn [b_refs] in Er. assert (cnt a vs = 0) as Ca by lia.
  pose proof W as [R N M]. set (p := h_next h).
  assert (h_blocks h !! p = None) as E0
    by (destruct (h_blocks h !! p) as [b|] eqn:Ep; [specialize (N _ _ Ep); unfold p in N; lia|done]).
  assert (p <> a) as Hpa by congruence.
  pose proof (R p) as Cp. rewrite E0, cnt_cons in Cp by congruence.
  exists p. eexists. split.
  - unfold realloc. rewrite (hbind_some _ _ _ _ _ (get_spec _ _ _ Eb)). cbn [b_refs b_slots].
    assert (forall b, malloc b h = Some (Some p, mk_heap (<[p := b]> (h_blocks h)) (p + 1) [])) as EM
      by (intros b; unfold malloc; by rewrite M).
    rewrite (hbind_some _ _ _ _ _ (EM _)). unfold free, hbind. cbn [h_blocks]. rewrite lookup_insert_ne by done.
    rewrite Eb. cbn [mbind option_bind h_blocks h_next h_fails].
    unfold hret. reflexivity.
  - split.
    + split; cbn [h_blocks h_next h_fails]; [|intros c b0|done].
      * intros c. cbn [h_blocks]. specialize (R c). destruct (decide (a = c)) as [<-|Hc].
        -- rewrite lookup_delete_eq. rewrite cnt_cons by (cbn; congruence). done.
        -- rewrite lookup_delete_ne by done. rewrite (cnt_cons c v vs) in R by congruence.
           destruct (decide (p = c)) as [<-|Hp].
           ++ rewrite lookup_insert_eq, cnt_cons_eq by done. cbn [b_refs]. lia.
           ++ rewrite lookup_insert_ne by done. rewrite cnt_cons by (cbn; congruence). done.
      * destruct (decide (a = c)) as [<-|Hc]; [by rewrite lookup_delete_eq|]. rewrite lookup_delete_ne by done.
        destruct (decide (p = c)) as [<-|Hp]; [intros _; lia|].
        rewrite lookup_insert_ne by done. intros Hb. specialize (N c b0 Hb). unfold p. lia.
    + intros w l Hw. unfold holds. destruct (v_storage w) as [c|] eqn:Ew; [|done].
      intros (r' & rest & E1 & E2). exists r', rest. split; [|done]. cbn [h_blocks].
      rewrite lookup_delete_ne by (intros <-; by apply (cnt_zero a vs w Ca Hw)).
      rewrite lookup_insert_ne by congruence. done.
    + done.
    + exists p, 1. split; [done|]. split; [|done]. cbn [h_blocks].
      rewrite lookup_delete_ne by done. by rewrite lookup_insert_eq.
Qed.

Lemma copy_resize_spec h v vs a r s (n : nat) :
  wf h (v :: vs) -> v_storage v = Some a -> h_blocks h !! a = Some (mk_block r s) -> r <> 1 ->
  exists p h', copy_resize a n h = Some (Some p, h') /\
    owned h vs v h' (v <| v_storage := Some p |>) (take n s ++ replicate (n - length s) None).
Proof.
  intros W E Eb Hr. destruct (alloc_spec h (v :: vs) n W) as (p & EA & W1 & C1 & N1).
  set (h1 := mk_heap _ _ _) in *. assert (p <> a) as Hpa by congruence.
  assert (h_blocks h1 !! a = Some (mk_block r s)) as Eb1 by (cbn; by rewrite lookup_insert_ne).
  assert (h_blocks h1 !! p = Some (mk_block 1 (replicate n None))) as E1 by (cbn; by rewrite lookup_insert_eq).
  set (m := if (n <? length s)%nat then n else length s).
  assert (m = Nat.min n (length s)) as Em by (unfold m; destruct (Nat.ltb_spec n (length s)); lia).
  set (s' := take n s ++ replicate (n - length s) None).
  assert (copy_data p a m h1 = Some (tt, upd_block h1 p (mk_block 1 s'))) as EC.
  { unfold copy_data. assert (s = [] ++ take m s ++ drop m s) as Es by (by rewrite app_nil_l, take_drop).
    rewrite Es in Eb1.
    rewrite (hbind_some _ _ _ _ _ (load_slots_spec h1 a r [] (take m s) (drop m s) m Eb1 ltac:(rewrite length_take; lia))).
    assert (replicate n (@None A) = [] ++ replicate m None ++ replicate (n - m) None) as E2
      by (cbn [app]; rewrite <- replicate_add; f_equal; lia).
    rewrite E2 in E1. rewrite (store_slots_spec h1 p 1 [] (replicate m None) (replicate (n - m) None)); cbn [app length].
    - do 4 f_equal. unfold s'. f_equal; [|f_equal; lia]. rewrite Em. destruct (Nat.le_gt_cases n (length s)).
      + by rewrite Nat.min_l by lia.
      + rewrite Nat.min_r by lia. by rewrite !take_ge by lia.
    - done.
    - rewrite length_take, length_replicate. lia. }
  destruct (wf_block h v vs a W E) as (b & Eb' & Er & Hlt). rewrite Eb in Eb'. injection Eb' as <-. cbn [b_refs] in Er.
  pose proof (cnt_nonneg a vs) as Ca.
  set (h2 := upd_block h1 p (mk_block 1 s')).
  assert (h_blocks h2 !! a = Some (mk_block r s)) as Eb2 by (unfold h2; by rewrite upd_lookup_ne).
  assert (release false a h2 = Some (r, upd_block h2 a (mk_block (r - 1) s))) as EL.
  { unfold release. rewrite (hbind_some _ _ _ _ _ (get_spec _ _ _ Eb2)). cbn [b_refs b_slots].
    rewrite (proj2 (Z.eqb_neq r 1) Hr). cbn [andb]. rewrite s32_id by (unfold is_s32; lia). done. }
  exists p. eexists. split.
  - unfold copy_resize. rewrite (hbind_some _ _ _ _ _ EA). cbv iota beta.
    assert (size a h1 = Some (length s, h1)) as ES by (unfold size; by rewrite (hbind_some _ _ _ _ _ (get_spec _ _ _ Eb1))).
    rewrite (hbind_some _ _ _ _ _ ES). fold m. rewrite (hbind_some _ _ _ _ _ EC), (hbind_some _ _ _ _ _ EL). done.
  - assert (wf h2 (v :: mk_vec (Some p) 0 :: vs)) as W2 by (apply wf_swap; by apply (wf_upd h1 _ p _ _ W1 E1)).
    assert (cnt p vs = 0) as C by (rewrite cnt_cons in C1 by congruence; done).
    destruct W2 as [R2 N2 M2]. split.
    + split; [|intros c b0|done].
      * intros c. specialize (R2 c). destruct (decide (a = c)) as [<-|Hc].
        -- rewrite upd_lookup. rewrite cnt_cons by (cbn; congruence). cbn [b_refs]. lia.
        -- rewrite upd_lookup_ne by done. rewrite cnt_cons in R2 by congruence.
           rewrite (cnt_storage c (v <| v_storage := Some p |>) (mk_vec (Some p) 0)) by done. done.
      * destruct (decide (a = c)) as [<-|Hc]; [intros _; by apply (N2 a _ Eb2)|].
        rewrite upd_lookup_ne by done. apply N2.
    + intros w l Hw Hl. assert (holds h2 w l) as Hl2
        by (apply (keep_upd h1 vs p _ C w l Hw); by apply (keep_fresh h vs p _ _ _ N1)).
      revert Hl2. unfold holds. destruct (v_storage w) as [c|]; [|done]. intros (r' & rest & Ec & El).
      destruct (decide (a = c)) as [<-|Hc].
      * rewrite upd_lookup. rewrite Eb2 in Ec. injection Ec as <- Ec. eexists _, rest. by rewrite Ec.
      * rewrite upd_lookup_ne by done. by exists r', rest.
    + done.
    + exists p, 1. split; [done|]. split; [|done]. rewrite upd_lookup_ne by congruence. apply upd_lookup.
Qed.

(** The first [k] items survive a resizing to at least [k]. *)
Lemma resize_trivial_spec h v vs l a (n k : nat) :
  wf h (v :: vs) -> holds h v l -> v_storage v = Some a -> (k <= n)%nat -> (k <= length l)%nat ->
  exists v' h' rest, resize_trivial v a n h = Some (v', h') /\ owned h vs v h' v' (map Some (take k l) ++ rest) /\
    (k + length rest = n)%nat.
Proof.
  intros W H E Hk Hl. pose proof H as H0. unfold holds in H0. rewrite E in H0. destruct H0 as (r & s0 & Eb & Ec).
  set (s := map Some l ++ s0) in *.
  assert (s = map Some (take k l) ++ (map Some (drop k l) ++ s0)) as Es
    by (by rewrite app_assoc, <- map_app, take_drop).
  assert (length (map (@Some A) (take k l)) = k) as Lk by (rewrite length_map, length_take; lia).
  set (s' := take n s ++ replicate (n - length s) None).
  assert (exists rest, s' = map Some (take k l) ++ rest /\ (k + length rest = n)%nat) as (rest & E' & L').
  { exists (take (n - k) (map Some (drop k l) ++ s0) ++ replicate (n - length s) None). split.
    - unfold s'. rewrite Es at 1. rewrite take_app, Lk, <- app_assoc. f_equal. rewrite take_ge by lia. done.
    - rewrite length_app, length_take, length_replicate.
      assert (length s = (k + length (map (@Some A) (drop k l) ++ s0))%nat) by (by rewrite Es at 1; rewrite length_app, Lk).
      lia. }
  unfold resize_trivial, editResize.
  assert (onlyOwner a h = Some (r =? 1, h)) as EO by (unfold onlyOwner; by rewrite (hbind_some _ _ _ _ _ (get_spec _ _ _ Eb))).
  unfold hbind at 1. rewrite (hbind_some _ _ _ _ _ EO). destruct (Z.eqb_spec r 1) as [R1|R1].
  - assert (size a h = Some (length s, h)) as ES by (unfold size; by rewrite (hbind_some _ _ _ _ _ (get_spec _ _ _ Eb))).
    rewrite (hbind_some _ _ _ _ _ ES). destruct (Nat.eqb_spec (length s) n) as [Ln|Ln].
    + unfold hret at 1. cbn [mbind option_bind]. unfold hret. do 2 eexists. exists (map Some (drop k l) ++ s0).
      split; [done|]. rewrite <- Es. split.
      * destruct (wf_block h v vs a W E) as (b & Eb' & Er & _). rewrite Eb in Eb'. injection Eb' as <-. cbn [b_refs] in Er.
        split; [|apply keep_refl|done|exists a, r; split; [done|]; split; [done|lia]].
        revert W. by apply wf_storage.
      * rewrite <- Ln, <- Lk at 1. rewrite <- length_app. by rewrite <- Es.
    + destruct (realloc_spec h v vs a r s n W E Eb R1) as (p & h' & ER & O).
      rewrite (hbind_some _ _ _ _ _ ER). unfold hret at 1. cbn [mbind option_bind]. unfold hret.
      do 2 eexists. exists rest. split; [done|]. rewrite <- E'. done.
  - destruct (copy_resize_spec h v vs a r s n W E Eb R1) as (p & h' & ER & O). rewrite ER.
    cbn [mbind option_bind]. unfold hret. do 2 eexists. exists rest. split; [done|]. rewrite <- E'. done.
Qed.

(** ** Growing *)

(** Items put at the end of the slots in use are written in place even when
    the block is shared. *)
Definition can_grow h vs v (i m : nat) : Prop :=
  match v_storage v with
  | Some a => cnt a vs = 0 \/ (i < v_count v)%nat \/
              exists b, h_blocks h !! a = Some b /\ (length (b_slots b) < v_count v + m)%nat
  | None => True
  end.

(** A new block's room for [m] items at [i], between the items [l]. *)
Definition room h vs v (i m : nat) l : Prop :=
  exists gap rest, own_slots h vs v (map Some (take i l) ++ gap ++ map Some (drop i l) ++ rest) /\ length gap = m.

Lemma holds_count h v l : holds h v l -> v_count v = length l.
Proof. unfold holds. destruct (v_storage v); [by intros (? & ? & _ & ?)|by intros [-> ->]]. Qed.

Lemma new_capacity_enough n : (n <= Nat.max kMinVectorCapacity ((n * 3 + 1) / 2))%nat.
Proof.
  pose proof (Nat.div_mod (n * 3 + 1) 2 ltac:(lia)). pose proof (Nat.mod_upper_bound (n * 3 + 1) 2 ltac:(lia)). lia.
Qed.

Lemma relocate_room h v vs l (i m n : nat) :
  wf h (v :: vs) -> holds h v l -> (i <= length l)%nat -> (length l + m <= n)%nat ->
  exists v' h', relocate tdtor v n i (i + m) i h = Some (v', h') /\
    wf h' (v' :: vs) /\ keep vs h h' /\ v_count v' = length l /\ room h' vs v' i m l.
Proof.
  intros W H Hi Hn. destruct (relocate_spec h v vs l n i (i + m) i W H) as (v' & h' & ER & [W' K C O]); [lia..|].
  exists v', h'. split; [done|]. split; [done|]. split; [done|]. split; [by rewrite C, (holds_count h v l)|].
  exists (replicate m None). eexists. split; [|apply length_replicate].
  replace (i + m - i)%nat with m in O by lia. exact O.
Qed.

Lemma grow_storage h v vs l (i m : nat) :
  wf h (v :: vs) -> holds h v l -> (i <= length l)%nat -> (0 < m)%nat -> can_grow h vs v i m ->
  exists v1 h', (exists p, v_storage v1 = Some p /\
      grow tcopy tdtor v i m h = Some ((v1 <| v_count := (length l + m)%nat |>, Some (p, i)), h')) /\
    wf h' (v1 :: vs) /\ keep vs h h' /\ room h' vs v1 i m l.
Proof.
  intros W H Hi Hm HG. pose proof (holds_count h v l H) as Hc. unfold grow. rewrite Hc.
  destruct (Nat.ltb_spec (length l) i) as [|_]; [lia|]. cbv zeta.
  pose proof (new_capacity_enough (length l + m)) as HN.
  set (nc := Nat.max kMinVectorCapacity _) in *. clearbody nc.
  cut (exists v1 h', (exists cap, capacity v h = Some (cap, h) /\
      (if (cap <? length l + m)%nat
       then match v_storage v with
            | Some a => if (length l =? i)%nat && tcopy && tdtor then resize_trivial v a nc
                        else relocate tdtor v nc i (i + m) i
            | None => relocate tdtor v nc i (i + m) i end
       else if (i <? length l)%nat then
         let! v := editArrayImpl tdtor v in
         match v_storage v with
         | Some a => do_move tcopy tdtor a (i + m) i (v_count v - i) ;;; hret v
         | None => hfail end
       else hret v) h = Some (v1, h')) /\ wf h' (v1 :: vs) /\ keep vs h h' /\ room h' vs v1 i m l).
  { intros (v1 & h' & (cap & EC & EV) & W' & K & HR). exists v1, h'. split; [|done].
    pose proof HR as (gap & rest & (p & r & Ep & _) & _). exists p. split; [done|].
    rewrite (hbind_some _ _ _ _ _ EC). rewrite (hbind_some _ _ _ _ _ EV).
    change (v_storage (v1 <| v_count := _ |>)) with (v_storage v1). unfold hret. by rewrite Ep. }
  unfold holds in H. destruct (v_storage v) as [a|] eqn:E.
  2: { destruct H as [_ ->]. cbn [length] in *. destruct (relocate_room h v vs [] i m nc W) as (v1 & h' & ER & W' & K & _ & HR).
       { unfold holds. by rewrite E. } { cbn. lia. } { cbn. lia. }
       exists v1, h'. split; [|done]. exists 0%nat. split; [unfold capacity; by rewrite E|].
       destruct (Nat.ltb_spec 0 (0 + m)); [done|lia]. }
  assert (holds h v l) as Hv by (unfold holds; by rewrite E).
  destruct H as (r & rest & Eb & _).
  assert (capacity v h = Some (length (map Some l ++ rest), h)) as EC
    by (unfold capacity, size; rewrite E; by rewrite (hbind_some _ _ _ _ _ (get_spec _ _ _ Eb))).
  unfold can_grow in HG. rewrite E, Hc in HG.
  destruct (Nat.ltb_spec (length (map Some l ++ rest)) (length l + m)) as [Lc|Lc].
  - destruct ((length l =? i)%nat && tcopy && tdtor) eqn:ET.
    + apply andb_true_iff in ET as [[<-%Nat.eqb_eq ET]%andb_true_iff _].
      destruct (resize_trivial_spec h v vs l a nc (length l) W Hv E ltac:(lia) ltac:(lia))
        as (v1 & h' & rest' & ER & [W' K C O] & L).
      exists v1, h'. split; [eexists; split; [exact EC|]; by destruct (Nat.ltb_spec (length (map Some l ++ rest)) (length l + m)); [|lia]|].
      split; [done|]. split; [done|]. exists (take m rest'), (drop m rest'). rewrite length_take.
      split; [|lia]. rewrite drop_ge, firstn_all in * by lia. cbn [map app]. by rewrite take_drop.
    + destruct (relocate_room h v vs l i m nc W Hv Hi HN) as (v1 & h' & ER & W' & K & _ & HR).
      exists v1, h'. split; [|done]. eexists. split; [exact EC|].
      by destruct (Nat.ltb_spec (length (map Some l ++ rest)) (length l + m)); [|lia].
  - destruct (Nat.ltb_spec i (length l)) as [Li|Li].
    + destruct (edit_array_spec h v vs l W Hv ltac:(congruence)) as (v1 & h1 & rest1 & EE & O & L1).
      specialize (L1 a _ E Eb). cbn [b_slots] in L1.
      pose proof O as [W1 K1 C1 (p & r1 & Ep & Eb1 & Cp)].
      rewrite length_app, length_map in Lc, L1.
      pose proof Eb1 as Eb2. rewrite <- (take_drop i l) in Eb2 at 1. rewrite map_app, <- app_assoc in Eb2.
      destruct (do_move_forward h1 p r1 _ _ _ m Eb2) as (gap & s3' & EM & Lg); [lia|].
      rewrite !length_map, length_take, length_drop, Nat.min_l in EM by lia.
      exists v1. eexists. split; [eexists; split; [exact EC|]|].
      { destruct (Nat.ltb_spec (length (map Some l ++ rest)) (length l + m)) as [X|_]; [rewrite length_app, length_map in X; lia|].
        destruct (Nat.ltb_spec i (length l)) as [_|]; [|lia].
        rewrite (hbind_some _ _ _ _ _ EE), Ep, C1, Hc. rewrite (hbind_some _ _ _ _ _ EM). reflexivity. }
      destruct (own_upd h h1 vs v v1 _ (map Some (take i l) ++ gap ++ map Some (drop i l) ++ s3') p r1 O Ep Eb1) as [W2 K2 C2 O2].
      split; [exact W2|]. split; [exact K2|]. exists gap, s3'. by split.
    + assert (i = length l) as -> by lia. destruct HG as [C0|[|(b & Eb' & Lb)]]; [|lia|].
      2: { rewrite Eb in Eb'. injection Eb' as <-. cbn [b_slots] in Lb. lia. }
      exists v, h. split.
      { eexists. split; [exact EC|]. destruct (Nat.ltb_spec (length (map Some l ++ rest)) (length l + m)); [lia|].
        destruct (Nat.ltb_spec (length l) (length l)); [lia|done]. }
      split; [done|]. split; [apply keep_refl|]. rewrite length_app, length_map in Lc.
      exists (take m rest), (drop m rest). rewrite length_take. split; [|lia].
      rewrite firstn_all, drop_ge by lia. cbn [map app]. rewrite take_drop. by exists a, r.
Qed.

(** ** Shrinking *)

Lemma own_holds_app h v vs l1 l2 s : own_slots h vs v (map Some l1 ++ map Some l2 ++ s) ->
  v_count v = length (l1 ++ l2) -> holds h v (l1 ++ l2).
Proof. intros O C. apply (own_slots_holds h v vs _ s); [by rewrite map_app, <- app_assoc|done]. Qed.

Lemma shrink_spec h v vs l (i m : nat) :
  wf h (v :: vs) -> holds h v l -> (i + m <= length l)%nat ->
  exists v' h', shrink tcopy tdtor v i m h = Some (v', h') /\ wf h' (v' :: vs) /\ keep vs h h' /\
    holds h' v' (take i l ++ drop (i + m) l) /\ alone vs v'.
Proof.
  intros W H Hi. pose proof (holds_count h v l H) as Hc. unfold shrink.
  destruct (v_storage v) as [a|] eqn:E.
  2: { pose proof H as H0. unfold holds in H0. rewrite E in H0. destruct H0 as [_ ->]. cbn [length] in Hi.
       exists v, h. split; [done|]. split; [done|]. split; [apply keep_refl|].
       rewrite take_nil, drop_nil. unfold alone. by rewrite E. }
  assert ((if (v_count v <=? i)%nat then (v_count v - m)%nat else i) = i) as ->
    by (rewrite Hc; destruct (Nat.leb_spec (length l) i); lia).
  pose proof H as H0. unfold holds in H0. rewrite E in H0. destruct H0 as (r & rest & Eb & _).
  assert (capacity v h = Some (length (map Some l ++ rest), h)) as EC
    by (unfold capacity, size; rewrite E; by rewrite (hbind_some _ _ _ _ _ (get_spec _ _ _ Eb))).
  cbv zeta. rewrite (hbind_some _ _ _ _ _ EC). rewrite Hc.
  assert (forall v1 h' s, own_slots h' vs v1 (map Some (take i l) ++ map Some (drop (i + m) l) ++ s) ->
    wf h' (v1 :: vs) -> keep vs h h' ->
    let v' := v1 <| v_count := (length l - m)%nat |> in
    wf h' (v' :: vs) /\ keep vs h h' /\ holds h' v' (take i l ++ drop (i + m) l) /\ alone vs v') as Fin.
  { intros v1 h' s O W' K v'. split; [revert W'; by apply wf_storage|]. split; [done|].
    split; [|by apply (own_alone h' vs v1 _ O)]. apply (own_holds_app h' v' vs _ _ s); [exact O|]. cbn. rewrite length_app, length_take, length_drop. lia. }
  destruct ((length l - m) * 3 <? length (map Some l ++ rest))%nat.
  - destruct ((i =? length l - m)%nat && tcopy && tdtor) eqn:ET.
    + apply andb_true_iff in ET as [[Ei%Nat.eqb_eq _]%andb_true_iff _].
      destruct (resize_trivial_spec h v vs l a (Nat.max kMinVectorCapacity ((length l - m) * 2)) i W H E ltac:(lia) ltac:(lia))
        as (v1 & h' & rest' & ER & [W' K C O] & _).
      rewrite (hbind_some _ _ _ _ _ ER). unfold hret. do 2 eexists. split; [reflexivity|].
      apply (Fin v1 h' rest'); [|done|done]. by rewrite drop_ge by lia.
    + destruct (relocate_spec h v vs l (Nat.max kMinVectorCapacity ((length l - m) * 2)) i i (i + m) W H)
        as (v1 & h' & ER & [W' K C O]); [lia..|].
      rewrite (hbind_some _ _ _ _ _ ER). unfold hret. do 2 eexists. split; [reflexivity|].
      rewrite Nat.sub_diag in O. by apply (Fin v1 h' _ O).
  - destruct (edit_array_spec h v vs l W H ltac:(congruence)) as (v1 & h1 & rest1 & EE & O & _).
    pose proof O as [W1 K1 C1 (p & r1 & Ep & Eb1 & Cp)].
    pose proof Eb1 as Eb2. rewrite (split_map l i m Hi), <- !app_assoc in Eb2.
    destruct (do_destroy_spec h1 p r1 _ _ _ m Eb2) as (s2 & ED & L2);
      [rewrite length_map, length_take, length_drop; lia|].
    rewrite length_map, length_take, Nat.min_l in ED by lia.
    rewrite length_map, length_take, length_drop, Nat.min_l in L2 by lia.
    set (b2 := mk_block r1 (map Some (take i l) ++ s2 ++ map Some (drop (i + m) l) ++ rest1)) in *.
    pose proof (own_upd h h1 vs v v1 _ (b_slots b2) p r1 O Ep Eb1) as O2. fold b2 in O2.
    assert (exists h3 s3, (if (i + m <? v_count v1)%nat
        then do_move tcopy tdtor p i (i + m) (v_count v1 - (i + m)) else hret tt) (upd_block h1 p b2) = Some (tt, h3) /\
      owned h vs v h3 v1 (map Some (take i l) ++ map Some (drop (i + m) l) ++ s3)) as (h3 & s3 & EM & O3).
    { rewrite C1, Hc. destruct (Nat.ltb_spec (i + m) (length l)) as [Lt|Ge].
      - destruct (do_move_backward (upd_block h1 p b2) p r1 _ _ _ _ (upd_lookup h1 p b2)) as (s3 & EM).
        rewrite !length_map, length_take, length_drop, L2, Nat.min_l in EM by lia.
        do 2 eexists. split; [exact EM|]. apply (own_upd h _ vs v v1 _ _ p r1 O2 Ep). apply upd_lookup.
      - exists (upd_block h1 p b2), (s2 ++ rest1). split; [done|].
        assert (b_slots b2 = map Some (take i l) ++ map Some (drop (i + m) l) ++ s2 ++ rest1) as <-
          by (unfold b2; cbn [b_slots]; by rewrite (drop_ge l (i + m)) by lia).
        exact O2. }
    destruct O3 as [W3 K3 C3 O3]. unfold hret. do 2 eexists.
    split; [|by apply (Fin v1 h3 s3)].
    erewrite hbind_some; [reflexivity|].
    by rewrite (hbind_some _ _ _ _ _ EE), Ep, (hbind_some _ _ _ _ _ ED), (hbind_some _ _ _ _ _ EM).
Qed.

(** ** The public operations *)

Lemma item_at_spec h v l (i : nat) x : holds h v l -> l !! i = Some x -> item_at v i h = Some (x, h).
Proof.
  intros H Hx. unfold holds in H. unfold item_at. pose proof (lookup_lt_Some _ _ _ Hx).
  destruct (v_storage v) as [a|]; [|by destruct H as [_ ->]]. destruct H as (r & rest & Eb & _).
  rewrite (hbind_some _ _ _ _ _ (load_items h a r l rest i 1 Eb ltac:(lia))).
  by rewrite (drop_S l x i Hx).
Qed.

Lemma list_update_at (l : list A) (i : nat) x y : l !! i = Some x ->
  <[i := y]> l = take i l ++ y :: drop (S i) l.
Proof. intros Hx. apply insert_take_drop. by apply (lookup_lt_Some _ _ _ Hx). Qed.

Lemma edit_item_spec h v vs l (i : nat) x f :
  wf h (v :: vs) -> holds h v l -> l !! i = Some x ->
  exists v' h', edit_item tdtor v i f h = Some (v', h') /\ wf h' (v' :: vs) /\ keep vs h h' /\
    holds h' v' (<[i := f x]> l) /\ alone vs v'.
Proof.
  intros W H Hx. pose proof (holds_count h v l H) as Hc. pose proof (lookup_lt_Some _ _ _ Hx).
  assert (v_storage v <> None) as Hs by (unfold holds in H; destruct (v_storage v); [done|by destruct H as [_ ->]]).
  destruct (edit_array_spec h v vs l W H Hs) as (v1 & h1 & rest & EE & O & _).
  pose proof O as [W1 K1 C1 (p & r & Ep & Eb & Cp)].
  unfold edit_item. rewrite (hbind_some _ _ _ _ _ EE), Ep.
  rewrite (hbind_some _ _ _ _ _ (load_items h1 p r l rest i 1 Eb ltac:(lia))).
  rewrite (drop_S l x i Hx). cbn [take map]. rewrite take_0. cbn [map].
  pose proof Eb as Eb2. rewrite <- (take_drop_middle l i x Hx), map_app in Eb2. cbn [map] in Eb2.
  rewrite <- app_assoc, <- app_comm_cons in Eb2.
  assert (length (map (@Some A) (take i l)) = i) as Li by (rewrite length_map, length_take; lia).
  pose proof (store_slots_spec h1 p r _ [Some x] _ [Some (f x)] Eb2 eq_refl) as ES. rewrite Li in ES.
  rewrite (hbind_some _ _ _ _ _ ES).
  unfold hret. do 2 eexists. split; [reflexivity|].
  destruct (own_upd h h1 vs v v1 _ (map Some (take i l) ++ [Some (f x)] ++ map Some (drop (S i) l) ++ rest) p r O Ep Eb)
    as [W2 K2 C2 O2].
  split; [done|]. split; [done|]. split; [|by apply (own_alone _ _ _ _ O2)].
  apply (own_slots_holds _ v1 vs _ rest).
  - rewrite (list_update_at l i x _ Hx), map_app, <- app_assoc. exact O2.
  - rewrite length_insert. congruence.
Qed.

Lemma removeItemsAt_spec h v vs l (i m : nat) :
  wf h (v :: vs) -> holds h v l ->
  (length l < i + m)%nat /\ removeItemsAt tcopy tdtor v i m h = Some ((BAD_VALUE, v), h) \/
  (i + m <= length l)%nat /\ exists v' h', removeItemsAt tcopy tdtor v i m h = Some ((Z.of_nat i, v'), h') /\
    wf h' (v' :: vs) /\ keep vs h h' /\ holds h' v' (take i l ++ drop (i + m) l) /\ alone vs v'.
Proof.
  intros W H. unfold removeItemsAt. rewrite (holds_count h v l H).
  destruct (Nat.ltb_spec (length l) (i + m)); [by left|right]. split; [done|].
  destruct (shrink_spec h v vs l i m W H) as (v' & h' & ES & W' & K & H'); [done|].
  exists v', h'. by rewrite (hbind_some _ _ _ _ _ ES).
Qed.

Lemma insert_items_spec h v vs l (i : nat) xs (fill : Z -> nat -> hM A unit) :
  wf h (v :: vs) -> holds h v l -> (0 < length xs)%nat -> can_grow h vs v i (length xs) ->
  (forall h1 p r s1 s2 s3, keep vs h h1 -> h_blocks h1 !! p = Some (mk_block r (s1 ++ s2 ++ s3)) ->
    length s2 = length xs ->
    fill p (length s1) h1 = Some (tt, upd_block h1 p (mk_block r (s1 ++ map Some xs ++ s3)))) ->
  (length l < i)%nat /\ insert_items tcopy tdtor v i (length xs) fill h = Some ((BAD_INDEX, v), h) \/
  (i <= length l)%nat /\ exists v' h', insert_items tcopy tdtor v i (length xs) fill h = Some ((Z.of_nat i, v'), h') /\
    wf h' (v' :: vs) /\ keep vs h h' /\ holds h' v' (take i l ++ xs ++ drop i l) /\ alone vs v'.
Proof.
  intros W H Hx HG HF. unfold insert_items. rewrite (holds_count h v l H).
  destruct (Nat.ltb_spec (length l) i); [by left|right]. split; [done|].
  destruct (grow_storage h v vs l i (length xs) W H) as (v1 & h1 & (p & Ep & EG) & W1 & K1 & gap & rest & O & Lg); [done..|].
  rewrite (hbind_some _ _ _ _ _ EG). cbv beta iota.
  destruct O as (p' & r & Ep' & Eb & Cp). rewrite Ep in Ep'. injection Ep' as <-.
  assert (length (map (@Some A) (take i l)) = i) as Li by (rewrite length_map, length_take; lia).
  pose proof (HF h1 p r _ gap _ K1 Eb Lg) as ES. rewrite Li in ES.
  rewrite (hbind_some _ _ _ _ _ ES). unfold hret. do 2 eexists. split; [reflexivity|].
  assert (owned h vs v1 h1 v1 (map Some (take i l) ++ gap ++ map Some (drop i l) ++ rest)) as O
    by (split; [done|done|done|by exists p, r]).
  destruct (own_upd h h1 vs v1 v1 _ (map Some (take i l) ++ map Some xs ++ map Some (drop i l) ++ rest) p r O Ep Eb)
    as [W2 K2 _ O2].
  set (v' := v1 <| v_count := _ |>).
  split; [revert W2; by apply wf_storage|]. split; [done|].
  split; [|by apply (own_alone _ _ _ _ O2)]. apply (own_slots_holds _ v' vs _ rest).
  - rewrite !map_app, <- !app_assoc. exact O2.
  - cbn. rewrite !length_app, length_take, length_drop. lia.
Qed.

Lemma insertAt_spec h v vs l (i n : nat) x :
  wf h (v :: vs) -> holds h v l -> (0 < n)%nat -> can_grow h vs v i n ->
  (length l < i)%nat /\ insertAt tcopy tdtor dflt v (Some x) i n h = Some ((BAD_INDEX, v), h) \/
  (i <= length l)%nat /\ exists v' h', insertAt tcopy tdtor dflt v (Some x) i n h = Some ((Z.of_nat i, v'), h') /\
    wf h' (v' :: vs) /\ keep vs h h' /\ holds h' v' (take i l ++ replicate n x ++ drop i l) /\ alone vs v'.
Proof.
  intros W H Hn HG. unfold insertAt. pose proof (length_replicate n x) as Ln.
  pose proof (insert_items_spec h v vs l i (replicate n x)) as HI. rewrite Ln in HI.
  apply HI; try done. intros h1 p r s1 s2 s3 _ Eb E2.
  assert (replicate n (Some x) = map Some (replicate n x)) as -> by (symmetry; apply (fmap_replicate Some)).
  apply (store_slots_spec h1 p r s1 s2 s3); [done|]. by rewrite length_map, Ln, E2.
Qed.

Lemma replaceAt_spec h v vs l (i : nat) x y :
  wf h (v :: vs) -> holds h v l -> l !! i = Some y ->
  exists v' h', replaceAt tdtor dflt v (Some x) i h = Some ((Z.of_nat i, v'), h') /\ wf h' (v' :: vs) /\
    keep vs h h' /\ holds h' v' (<[i := x]> l) /\ alone vs v'.
Proof.
  intros W H Hy. pose proof (holds_count h v l H) as Hc. pose proof (lookup_lt_Some _ _ _ Hy).
  assert (v_storage v <> None) as Hs by (unfold holds in H; destruct (v_storage v); [done|by destruct H as [_ ->]]).
  destruct (edit_array_spec h v vs l W H Hs) as (v1 & h1 & rest & EE & O & _).
  pose proof O as [W1 K1 C1 (p & r & Ep & Eb & Cp)].
  unfold replaceAt. rewrite (hbind_some _ _ _ _ _ EE), Ep.
  pose proof Eb as Eb2. rewrite <- (take_drop_middle l i y Hy), map_app in Eb2. cbn [map] in Eb2.
  rewrite <- app_assoc, <- app_comm_cons in Eb2.
  assert (length (map (@Some A) (take i l)) = i) as Li by (rewrite length_map, length_take; lia).
  destruct (do_destroy_spec h1 p r _ [Some y] _ 1 Eb2 eq_refl) as (s2 & ED & L2). rewrite Li in ED.
  rewrite (hbind_some _ _ _ _ _ ED).
  set (b2 := mk_block r (map Some (take i l) ++ s2 ++ map Some (drop (S i) l) ++ rest)) in *.
  pose proof (own_upd h h1 vs v v1 _ (b_slots b2) p r O Ep Eb) as O2.
  pose proof (store_slots_spec _ p r _ s2 _ [Some x] (upd_lookup h1 p b2) ltac:(by rewrite L2)) as ES.
  rewrite Li in ES. rewrite (hbind_some _ _ _ _ _ ES). unfold hret. do 2 eexists. split; [reflexivity|].
  destruct (own_upd h _ vs v v1 _ (map Some (take i l) ++ [Some x] ++ map Some (drop (S i) l) ++ rest) p r O2 Ep
    (upd_lookup h1 p b2)) as [W3 K3 C3 O3].
  split; [done|]. split; [done|]. split; [|by apply (own_alone _ _ _ _ O3)].
  apply (own_slots_holds _ v1 vs _ rest).
  - rewrite (list_update_at l i y _ Hy), map_app, <- app_assoc. exact O3.
  - rewrite length_insert. congruence.
Qed.

Lemma clear_spec h v vs l : wf h (v :: vs) -> holds h v l ->
  exists v' h', clear tcopy tdtor v h = Some (v', h') /\ wf h' (v' :: vs) /\ keep vs h h' /\ holds h' v' [].
Proof.
  intros W H. unfold clear. destruct (shrink_spec h v vs l 0 (v_count v) W H) as (v' & h' & ES & W' & K & H' & _);
    rewrite (holds_count h v l H) in *; [lia|].
  exists v', h'. split_and!; try done. cbn [take app Nat.add] in H'. by rewrite drop_ge in H' by lia.
Qed.

Lemma insertVectorAt_spec h v vs l w (i : nat) lw :
  wf h (v :: vs) -> holds h v l -> In w vs -> holds h w lw -> (0 < length lw)%nat -> can_grow h vs v i (length lw) ->
  (length l < i)%nat /\ insertVectorAt tcopy tdtor v w i h = Some ((BAD_INDEX, v), h) \/
  (i <= length l)%nat /\ exists v' h', insertVectorAt tcopy tdtor v w i h = Some ((Z.of_nat i, v'), h') /\
    wf h' (v' :: vs) /\ keep vs h h' /\ holds h' v' (take i l ++ lw ++ drop i l) /\ alone vs v'.
Proof.
  intros W H Hw Hlw Hx HG. unfold insertVectorAt. rewrite (holds_count h w lw Hlw).
  apply insert_items_spec; try done. intros h1 p r s1 s2 s3 K1 Eb E2.
  rewrite (do_copy_spec h1 p r s1 s2 s3 w lw 0 (length lw) (length s1) (K1 w lw Hw Hlw) Eb E2 ltac:(lia) eq_refl).
  by rewrite drop_0, firstn_all.
Qed.

(** Assigning a vector shares its storage. *)
Lemma vector_copy_spec h vs w l : wf h vs -> In w vs -> holds h w l -> Z.of_nat (length vs) < 2 ^ 31 - 1 ->
  exists h', vector_copy w h = Some (w, h') /\ wf h' (w :: vs) /\ keep vs h h' /\ holds h' w l.
Proof.
  intros W Hw H Hn. unfold vector_copy. destruct (v_storage w) as [a|] eqn:E.
  2: { exists h. split; [done|]. split; [|split; [apply keep_refl|done]].
       revert W. apply wf_ext. intros a. by rewrite cnt_cons by congruence. }
  pose proof H as H0. unfold holds in H0. rewrite E in H0. destruct H0 as (r & rest & Eb & Ec).
  destruct W as [R N M]. pose proof (R a) as Ra. rewrite Eb in Ra. cbn [b_refs] in Ra.
  assert (cnt a vs <= Z.of_nat (length vs)) as Cle.
  { clear. induction vs as [|v vs IH]; cbn [cnt length]; [lia|]. case_bool_decide; lia. }
  assert (acquire a h = Some (tt, upd_block h a (mk_block (r + 1) (map Some l ++ rest)))) as EA.
  { unfold acquire. rewrite (hbind_some _ _ _ _ _ (get_spec _ _ _ Eb)). cbn [b_refs b_slots].
    by rewrite s32_id by (unfold is_s32; lia). }
  rewrite (hbind_some _ _ _ _ _ EA). unfold hret. eexists. split; [reflexivity|].
  assert (keep vs h (upd_block h a (mk_block (r + 1) (map Some l ++ rest)))) as K.
  { intros u lu _. unfold holds. destruct (v_storage u) as [c|]; [|done]. intros (r' & rest' & Ec' & El).
    destruct (decide (a = c)) as [<-|Hc].
    - rewrite upd_lookup. rewrite Eb in Ec'. injection Ec' as <- Ec'. eexists _, rest'. by rewrite Ec'.
    - rewrite upd_lookup_ne by done. by exists r', rest'. }
  split; [|split; [exact K|by apply K]]. split; [|intros c b|done].
  - intros c. specialize (R c). destruct (decide (a = c)) as [<-|Hc].
    + rewrite upd_lookup, cnt_cons_eq by done. cbn [b_refs]. lia.
    + rewrite upd_lookup_ne by done. by rewrite cnt_cons by congruence.
  - destruct (decide (a = c)) as [<-|Hc]; [intros _; by apply (N a _ Eb)|].
    rewrite upd_lookup_ne by done. apply N.
Qed.

Lemma wf_empty h vs : wf h vs -> wf h (empty_vec :: vs).
Proof. apply wf_ext. intros a. by rewrite cnt_cons. Qed.

Lemma vector_assign_spec h v vs l w lw :
  wf h (v :: vs) -> holds h v l -> In w vs -> holds h w lw -> Z.of_nat (length vs) < 2 ^ 31 - 1 ->
  exists v' h', vector_assign tdtor v w h = Some (v', h') /\ wf h' (v' :: vs) /\ keep vs h h' /\ holds h' v' lw.
Proof.
  intros W H Hw Hlw Hn. unfold vector_assign.
  destruct (release_storage_spec h v vs l W H) as (h1 & ER & W1 & K1 & _).
  rewrite (hbind_some _ _ _ _ _ ER). pose proof (K1 w lw Hw Hlw) as H1.
  rewrite (holds_count h w lw Hlw). destruct (Nat.eqb_spec (length lw) 0) as [E0|E0].
  - exists empty_vec, h1. split; [done|]. split; [by apply wf_empty|]. split; [done|]. by destruct lw.
  - destruct (vector_copy_spec h1 vs w lw W1 Hw H1 Hn) as (h2 & EC & W2 & K2 & H2).
    exists w, h2. split; [done|]. split; [done|]. split; [by eapply keep_trans|done].
Qed.

Lemma setCapacity_spec h v vs l (n : nat) : wf h (v :: vs) -> holds h v l ->
  exists s v' h', setCapacity tdtor v n h = Some ((s, v'), h') /\ wf h' (v' :: vs) /\ keep vs h h' /\ holds h' v' l.
Proof.
  intros W H. pose proof (holds_count h v l H) as Hc. unfold setCapacity.
  assert (exists c, capacity v h = Some (c, h)) as [c EC].
  { unfold capacity, holds in *. destruct (v_storage v) as [a|]; [|by exists 0%nat].
    destruct H as (r & rest & Eb & _). eexists. unfold size. by rewrite (hbind_some _ _ _ _ _ (get_spec _ _ _ Eb)). }
  rewrite (hbind_some _ _ _ _ _ EC). rewrite Hc. destruct (Nat.leb_spec n (length l)) as [Le|Lt].
  { exists (Z.of_nat c), v, h. split_and!; try done. apply keep_refl. }
  destruct (move_storage h v vs l n (fun p => do_copy p 0 (v_storage v) 0 (length l))
    (map Some l ++ replicate (n - length l) None) W H) as (p & h1 & h' & v' & EA & ER & [W' K C O]).
  - intros p h1 H1 E1 Hp.
    assert (replicate n (@None A) = [] ++ replicate (length l) None ++ replicate (n - length l) None) as E2
      by (cbn [app]; rewrite <- replicate_add; f_equal; lia).
    rewrite E2 in E1. rewrite (do_copy_spec h1 p 1 _ _ _ v l 0 (length l) 0 H1 E1); cbn [app length]; try lia.
    + by rewrite drop_0, firstn_all.
    + by rewrite length_replicate.
  - rewrite (hbind_some _ _ _ _ _ EA). exists (Z.of_nat n), v', h'.
    split; [|split; [done|]; split; [done|]; by apply (own_slots_holds h' v' vs l _ O); rewrite C].
    revert ER. unfold hbind.
    destruct (do_copy p 0 (v_storage v) 0 (length l) h1) as [[[] h2]|]; [|done]. cbn [mbind option_bind].
    destruct (release_storage tdtor v h2) as [[[] h3]|]; [|done]. cbn [mbind option_bind]. unfold hret.
    by intros [= <- <-].
Qed.

(** ** Runs over several vectors *)

(** The operations on the variables of a program; [insert] also stands for
    [push] and [add], [assign] for the copy constructor. *)
Inductive vop :=
  | V_insertAt (k : nat) (x : A) (index numItems : nat)
  | V_removeItemsAt (k index count : nat)
  | V_edit (k index : nat) (f : A -> A)
  | V_replaceAt (k index : nat) (x : A)
  | V_insertVectorAt (k j index : nat)
  | V_assign (k j : nat)
  | V_setCapacity (k n : nat)
  | V_clear (k : nat).

Definition vop_target (o : vop) : nat :=
  match o with
  | V_insertAt k _ _ _ | V_removeItemsAt k _ _ | V_edit k _ _ | V_replaceAt k _ _ | V_insertVectorAt k _ _
  | V_assign k _ | V_setCapacity k _ | V_clear k => k
  end.

(** What the operation makes of the target [v], [vs] being all the vectors. *)
Definition vop_vec (o : vop) (vs : list vec) (v : vec) : hM A vec :=
  let status (m : hM A (Z * vec)) : hM A vec := let! (_, v) := m in hret v in
  let other (j : nat) (f : vec -> hM A vec) : hM A vec := match vs !! j with Some w => f w | None => hfail end in
  match o with
  | V_insertAt _ x i n => status (insertAt tcopy tdtor dflt v (Some x) i n)
  | V_removeItemsAt _ i n => status (removeItemsAt tcopy tdtor v i n)
  | V_edit _ i f => edit_item tdtor v i f
  | V_replaceAt _ i x => status (replaceAt tdtor dflt v (Some x) i)
  | V_insertVectorAt _ j i => other j (fun w => status (insertVectorAt tcopy tdtor v w i))
  | V_assign _ j => other j (fun w => vector_assign tdtor v w)
  | V_setCapacity _ n => status (setCapacity tdtor v n)
  | V_clear _ => clear tcopy tdtor v
  end.

Definition run_vop (o : vop) (st : list vec * heap A) : option (list vec * heap A) :=
  let '(vs, h) := st in
  v ← vs !! vop_target o;
  '(v, h) ← vop_vec o vs v h;
  Some (<[vop_target o := v]> vs, h).

(** What it must make of lists of items. *)
Definition spec_list (o : vop) (ls : list (list A)) (l : list A) : list A :=
  match o with
  | V_insertAt _ x i n => if (length l <? i)%nat then l else take i l ++ replicate n x ++ drop i l
  | V_removeItemsAt _ i n => if (length l <? i + n)%nat then l else take i l ++ drop (i + n) l
  | V_edit _ i f => alter f i l
  | V_replaceAt _ i x => <[i := x]> l
  | V_insertVectorAt _ j i => if (length l <? i)%nat then l else take i l ++ default [] (ls !! j) ++ drop i l
  | V_assign _ j => default [] (ls !! j)
  | V_setCapacity _ _ => l
  | V_clear _ => []
  end.
Definition spec_vop (o : vop) (ls : list (list A)) : list (list A) := alter (spec_list o ls) (vop_target o) ls.

(** The calls the code is meant for: vectors that exist, positions in range for
    accesses to items, another vector as a source, something to insert, and no
    insertion at the end of shared storage. *)
Definition vop_ok (o : vop) (st : list vec * heap A) : Prop :=
  let '(vs, h) := st in
  let k := vop_target o in
  exists v, vs !! k = Some v /\
  match o with
  | V_insertAt _ _ i n => (0 < n)%nat /\ can_grow h (delete k vs) v i n
  | V_edit _ i _ | V_replaceAt _ i _ => (i < v_count v)%nat
  | V_insertVectorAt _ j i => j <> k /\ exists w, vs !! j = Some w /\ (0 < v_count w)%nat /\
      can_grow h (delete k vs) v i (v_count w)
  | V_assign _ j => j <> k /\ is_Some (vs !! j)
  | _ => True
  end.

Fixpoint run_vops (os : list vop) (st : list vec * heap A) : option (list vec * heap A) :=
  match os with [] => Some st | o :: os => st ← run_vop o st; run_vops os st end.
Fixpoint vops_ok (os : list vop) (st : list vec * heap A) : Prop :=
  match os with
  | [] => True
  | o :: os => vop_ok o st /\ match run_vop o st with Some st => vops_ok os st | None => True end
  end.

Record represents (st : list vec * heap A) (ls : list (list A)) : Prop := mk_represents {
  rp_wf : wf (snd st) (fst st);
  rp_holds : Forall2 (holds (snd st)) (fst st) ls;
  rp_few : Z.of_nat (length (fst st)) < 2 ^ 31 - 1 }.

Lemma list_alter_insert {B} (f : B -> B) (xs : list B) (i : nat) x : xs !! i = Some x -> alter f i xs = <[i := f x]> xs.
Proof.
  revert i. induction xs as [|y xs IH]; [done|]. intros [|i] E; cbn in *; [by injection E as ->|].
  f_equal. by apply IH.
Qed.

Lemma cnt_delete a vs k v : vs !! k = Some v -> cnt a vs = cnt a (v :: delete k vs).
Proof.
  revert k. induction vs as [|u vs IH]; [done|]. intros [|k] E; [by injection E as ->|].
  change (delete (S k) (u :: vs)) with (u :: delete k vs). rewrite cnt_swap. cbn [cnt] in *.
  rewrite (IH k E). lia.
Qed.
Lemma delete_insert_list vs (k : nat) v v' : vs !! k = Some v -> delete k (<[k := v']> vs) = delete k vs.
Proof. revert k. induction vs as [|u vs IH]; [done|]. intros [|k] E; [done|]. cbn. f_equal. by apply IH. Qed.
Lemma cnt_insert a vs k v v' : vs !! k = Some v -> cnt a (<[k := v']> vs) = cnt a (v' :: delete k vs).
Proof.
  intros E. rewrite (cnt_delete a _ k v') by (apply list_lookup_insert_eq; by apply (lookup_lt_Some _ _ _ E)).
  by rewrite (delete_insert_list vs k v v' E).
Qed.
Lemma in_delete (vs : list vec) (k j : nat) w : vs !! j = Some w -> j <> k -> In w (delete k vs).
Proof.
  revert k j. induction vs as [|u vs IH]; [done|]. intros [|k] [|j] E Hj; try done.
  - cbn in *. by apply list_elem_of_In, (list_elem_of_lookup_2 _ j).
  - injection E as ->. by left.
  - right. apply (IH k j E). lia.
Qed.

Lemma represents_update vs h ls (k : nat) v l v' h' l' :
  represents (vs, h) ls -> vs !! k = Some v -> ls !! k = Some l ->
  wf h' (v' :: delete k vs) -> keep (delete k vs) h h' -> holds h' v' l' ->
  represents (<[k := v']> vs, h') (<[k := l']> ls).
Proof.
  intros [W F N] Ev El W' K H'. cbn [fst snd] in *. split; cbn [fst snd].
  - revert W'. apply wf_ext. intros a. symmetry. by apply (cnt_insert a vs k v).
  - rewrite Forall2_lookup in F |- *. intros j. specialize (F j). destruct (decide (k = j)) as [<-|Hj].
    + rewrite !list_lookup_insert_eq by (eapply lookup_lt_Some; eauto). by constructor.
    + rewrite !list_lookup_insert_ne by done. destruct (vs !! j) as [w|] eqn:Ew; [|inversion F; constructor].
      inversion F as [w' lw Hw|]; subst. constructor. apply K; [by apply (in_delete vs k j)|done].
  - by rewrite length_insert.
Qed.

(** One operation, against its effect on the target's items. *)
Lemma vop_vec_spec o vs h ls v l :
  represents (vs, h) ls -> vop_ok o (vs, h) -> vs !! vop_target o = Some v -> ls !! vop_target o = Some l ->
  wf h (v :: delete (vop_target o) vs) -> holds h v l ->
  exists v' h', vop_vec o vs v h = Some (v', h') /\ wf h' (v' :: delete (vop_target o) vs) /\ keep (delete (vop_target o) vs) h h' /\ holds h' v' (spec_list o ls l).
Proof.
  intros [W0 F N] (v0 & Ev0 & Hok) Ev El W H. cbn [fst snd] in *. rewrite Ev in Ev0. injection Ev0 as <-.
  set (k := vop_target o) in *. pose proof (holds_count h v l H) as Hc.
  assert (forall j, (vs !! j = None -> ls !! j = None) /\ forall w, vs !! j = Some w -> exists lw, ls !! j = Some lw /\ holds h w lw) as HF.
  { rewrite Forall2_lookup in F. intros j. specialize (F j). split.
    - intros E. rewrite E in F. by inversion F.
    - intros w E. rewrite E in F. inversion F as [? lw Hw|]; subst. by exists lw. }
  assert (Z.of_nat (length (delete k vs)) < 2 ^ 31 - 1) as Nd by (rewrite length_delete by done; lia).
  destruct o as [? x i n|? i m|? i f|? i x|? j i|? j|? n|?]; cbn [vop_vec spec_list].
  - destruct Hok as [Hn HG].
    destruct (insertAt_spec h v _ l i n x W H Hn HG) as [[Lt E]|(Le & v' & h' & E & W' & K & H' & _)];
      erewrite hbind_some by exact E; unfold hret.
    + exists v, h. rewrite (proj2 (Nat.ltb_lt _ _) Lt). split_and!; try done. apply keep_refl.
    + exists v', h'. by rewrite (proj2 (Nat.ltb_ge _ _) Le).
  - destruct (removeItemsAt_spec h v _ l i m W H) as [[Lt E]|(Le & v' & h' & E & W' & K & H' & _)];
      erewrite hbind_some by exact E; unfold hret.
    + exists v, h. rewrite (proj2 (Nat.ltb_lt _ _) Lt). split_and!; try done. apply keep_refl.
    + exists v', h'. by rewrite (proj2 (Nat.ltb_ge _ _) Le).
  - rewrite Hc in Hok. apply lookup_lt_is_Some_2 in Hok as [x Hx].
    destruct (edit_item_spec h v _ l i x f W H Hx) as (v' & h' & E & W' & K & H' & _).
    exists v', h'. split_and!; try done. by rewrite (list_alter_insert f l i x Hx).
  - rewrite Hc in Hok. apply lookup_lt_is_Some_2 in Hok as [y Hy].
    destruct (replaceAt_spec h v _ l i x y W H Hy) as (v' & h' & E & W' & K & H' & _).
    exists v', h'. split_and!; try done. by erewrite hbind_some by exact E.
  - destruct Hok as (Hj & w & Ew & Hw & HG). rewrite Ew. destruct (proj2 (HF j) w Ew) as (lw & Elw & Hlw).
    rewrite Elw. cbn [default]. rewrite (holds_count h w lw Hlw) in *.
    destruct (insertVectorAt_spec h v _ l w i lw W H (in_delete vs k j w Ew Hj) Hlw Hw HG)
      as [[Lt E]|(Le & v' & h' & E & W' & K & H' & _)]; erewrite hbind_some by exact E; unfold hret.
    + exists v, h. rewrite (proj2 (Nat.ltb_lt _ _) Lt). split_and!; try done. apply keep_refl.
    + exists v', h'. by rewrite (proj2 (Nat.ltb_ge _ _) Le).
  - destruct Hok as (Hj & w & Ew). rewrite Ew. destruct (proj2 (HF j) w Ew) as (lw & Elw & Hlw).
    rewrite Elw. cbn [default].
    by apply (vector_assign_spec h v _ l w lw W H (in_delete vs k j w Ew Hj) Hlw).
  - destruct (setCapacity_spec h v _ l n W H) as (s & v' & h' & E & R). exists v', h'.
    split; [by erewrite hbind_some by exact E|done].
  - by apply (clear_spec h v _ l).
Qed.

Lemma run_vop_sim o st ls : represents st ls -> vop_ok o st ->
  exists st', run_vop o st = Some st' /\ represents st' (spec_vop o ls).
Proof.
  destruct st as [vs h]. intros HR Hok. pose proof HR as [W F N]. cbn [fst snd] in *.
  pose proof Hok as (v & Ev & _).
  assert (exists l, ls !! vop_target o = Some l /\ holds h v l) as (l & El & H).
  { rewrite Forall2_lookup in F. specialize (F (vop_target o)). rewrite Ev in F. inversion F; subst. by eexists. }
  assert (wf h (v :: delete (vop_target o) vs)) as W'.
  { revert W. apply wf_ext. intros a. by apply cnt_delete. }
  destruct (vop_vec_spec o vs h ls v l HR Hok Ev El W' H) as (v' & h' & E & W2 & K & H').
  unfold run_vop. rewrite Ev. cbn [mbind option_bind]. rewrite E. cbn [mbind option_bind].
  eexists. split; [reflexivity|]. unfold spec_vop.
  assert (alter (spec_list o ls) (vop_target o) ls = <[vop_target o := spec_list o ls l]> ls) as ->
    by (by apply list_alter_insert).
  by apply (represents_update vs h ls _ v l).
Qed.

End VectorSpec.

Arguments V_insertAt {A}.
Arguments V_removeItemsAt {A}.
Arguments V_edit {A}.
Arguments V_replaceAt {A}.
Arguments V_insertVectorAt {A}.
Arguments V_assign {A}.
Arguments V_setCapacity {A}.
Arguments V_clear {A}.

Lemma represents_empty {A} (n : nat) : Z.of_nat n < 2 ^ 31 - 1 ->
  represents (replicate n empty_vec, @empty_heap A) (replicate n []).
Proof.
  intros H. split; cbn [fst snd].
  - assert (forall a, cnt a (replicate n empty_vec) = 0) as C by (intros a; induction n; [done|cbn; apply IHn; lia]).
    split; [intros a|intros a b|done]; unfold empty_heap; cbn [h_blocks]; by rewrite lookup_empty.
  - apply Forall2_replicate. by split.
  - by rewrite length_replicate.
Qed.

(** ** Where the code departs from values *)

(** Pushing on two vectors that share storage: nothing copies the storage, and
    the second push overwrites the item the first one added. *)
Theorem shared_push_overwrites :
  exists vs h v,
    run_vops true true None [V_insertAt 0 1 0 1; V_assign 1 0; V_insertAt 0 2 1 1; V_insertAt 1 3 1 1]
      ([empty_vec; empty_vec], empty_heap) = Some (vs, h) /\
    vs !! 0%nat = Some v /\ item_at v 1 h = Some (3, h).
Proof. do 3 eexists. split; [vm_compute; reflexivity|]. split; reflexivity. Qed.

(** A full vector of four items, and a memory that refuses two allocations. *)
Definition full_vec : vec := mk_vec (Some 1) 4.
Definition full_heap : heap Z := mk_heap {[1 := mk_block 1 [Some 10; Some 11; Some 12; Some 13]]} 2 [true; true].

(** When memory runs out while a full vector grows, [NO_MEMORY] is not reported:
    an item added at the end is written out of the bounds of the old storage
    (or through a null pointer, for trivial items); one inserted before the end
    replaces an item, and the vector counts more items than it has room for. *)
Theorem grow_out_of_memory :
  add false false None full_vec 14 full_heap = None /\ add true true None full_vec 14 full_heap = None /\
  exists h', insertAt false false None full_vec (Some 14) 2 1 full_heap = Some ((2, mk_vec (Some 1) 5), h') /\
    h_blocks h' !! 1 = Some (mk_block 1 [Some 10; Some 11; Some 14; Some 13]).
Proof. split; [reflexivity|]. split; [reflexivity|]. eexists. split; reflexivity. Qed.

(** ** Witnesses *)

Definition sharing_run : list vop :=
  [V_insertAt 0 7 0 3; V_assign 1 0; V_edit 1 1 (Z.add 1); V_removeItemsAt 0 0 2; V_insertAt 1 5 1 2;
   V_insertVectorAt 0 1 0; V_clear 1].

