(* ===== verification/Sequence.v ===== *)
(** * Sequences: what their users rely on

    The containers of swrender and of SortedVector.h are written against
    [Vector].  [SeqOps] lists the operations they use, [SeqLaws] what these
    promise of the items of a vector that shares its storage with no other;
    the users' theorems are proved from the laws alone.  Two implementations
    meet them: plain lists, and the copy-on-write vectors of [Vector.v].  The
    file ends with the binary search that SortedVectorImpl and Tokenizer both
    contain. *)

From stdpp Require Import gmap sorting.
From S2P Require Import Prelude SharedBuffer Vector VectorSpec.

#[local] Open Scope state_scope.

Class SeqOps (W V A : Type) := {
  seq_empty : V;
  seq_size : V -> nat;
  seq_get : V -> nat -> stM W A;                       (* v[i] *)
  seq_edit : V -> nat -> (A -> A) -> stM W V;          (* v.editItemAt(i) = ... *)
  seq_insert : V -> A -> nat -> stM W (Z * V);         (* v.insertAt(x, i) *)
  seq_replace : V -> A -> nat -> stM W (Z * V);        (* v.replaceAt(x, i) *)
  seq_remove : V -> nat -> nat -> stM W (Z * V);       (* v.removeItemsAt(i, n) *)
  seq_insert_seq : V -> V -> nat -> stM W (Z * V) }.   (* v.insertVectorAt(u, i) *)
#[global] Hint Mode SeqOps - + - : typeclass_instances.

(** [repr w v l]: the vector [v] holds the items [l]; [other w u l]: so does the
    vector [u], which the operations on [v] only read; [frame]: what they leave
    alone in the world. *)
Class SeqLaws {W V A} (O : SeqOps W V A) (repr other : W -> V -> list A -> Prop) (frame : W -> W -> Prop) := {
  frame_preorder : PreOrder frame;
  other_frame w w' u l : frame w w' -> other w u l -> other w' u l;
  repr_size w v l : repr w v l -> seq_size v = length l;
  other_size w u l : other w u l -> seq_size u = length l;
  repr_get w v l i x : repr w v l -> l !! i = Some x -> seq_get v i w = Some (x, w);
  other_get w u l i x : other w u l -> l !! i = Some x -> seq_get u i w = Some (x, w);
  repr_edit w v l i x f : repr w v l -> l !! i = Some x ->
    exists v' w', seq_edit v i f w = Some (v', w') /\ repr w' v' (<[i := f x]> l) /\ frame w w';
  repr_insert w v l x i : repr w v l -> (i <= length l)%nat ->
    exists v' w', seq_insert v x i w = Some ((Z.of_nat i, v'), w') /\
      repr w' v' (take i l ++ x :: drop i l) /\ frame w w';
  repr_replace w v l i x y : repr w v l -> l !! i = Some y ->
    exists v' w', seq_replace v x i w = Some ((Z.of_nat i, v'), w') /\ repr w' v' (<[i := x]> l) /\ frame w w';
  repr_remove w v l i n : repr w v l -> (i + n <= length l)%nat ->
    exists v' w', seq_remove v i n w = Some ((Z.of_nat i, v'), w') /\
      repr w' v' (take i l ++ drop (i + n) l) /\ frame w w';
  repr_remove_over w v l i n : repr w v l -> (length l < i + n)%nat -> seq_remove v i n w = Some ((BAD_VALUE, v), w);
  repr_insert_seq w v l u lu i : repr w v l -> other w u lu -> (0 < length lu)%nat -> (i <= length l)%nat ->
    exists v' w', seq_insert_seq v u i w = Some ((Z.of_nat i, v'), w') /\
      repr w' v' (take i l ++ lu ++ drop i l) /\ frame w w' }.

Section Frame.
  Context {W V A : Type} {Ops : SeqOps W V A} {repr other : W -> V -> list A -> Prop} {frame : W -> W -> Prop}.
  Context {Laws : SeqLaws Ops repr other frame}.
Lemma frame_refl w : frame w w.
Proof. destruct frame_preorder. reflexivity. Qed.
Lemma frame_trans w1 w2 w3 : frame w1 w2 -> frame w2 w3 -> frame w1 w3.
Proof. destruct frame_preorder. apply transitivity. Qed.
End Frame.

(** ** Lists *)

#[export] Instance list_seq (A : Type) : SeqOps unit (list A) A := {|
  seq_empty := [];
  seq_size l := length l;
  seq_get l i := match l !! i with Some x => hret x | None => hfail end;
  seq_edit l i f := hret (alter f i l);
  seq_insert l x i := hret (if (length l <? i)%nat then (BAD_INDEX, l) else (Z.of_nat i, take i l ++ x :: drop i l));
  seq_replace l x i := hret (Z.of_nat i, <[i := x]> l);
  seq_remove l i n := hret (if (length l <? i + n)%nat then (BAD_VALUE, l) else (Z.of_nat i, take i l ++ drop (i + n) l));
  seq_insert_seq l u i := hret (if (length l <? i)%nat then (BAD_INDEX, l) else (Z.of_nat i, take i l ++ u ++ drop i l)) |}.

Definition list_repr {A} (_ : unit) (v l : list A) : Prop := v = l.

#[export] Instance list_seq_laws (A : Type) :
  SeqLaws (list_seq A) list_repr list_repr (fun _ _ => True).
Proof.
  split; cbn -[Nat.ltb]; unfold list_repr, hret.
  - by split.
  - done.
  - by intros w v l ->.
  - by intros w v l ->.
  - by intros w v l i x -> ->.
  - by intros w v l i x -> ->.
  - intros w v l i x f -> Hi. eexists _, w. split; [done|]. split; [|done]. by apply list_alter_insert.
  - intros w v l x i -> Hi. rewrite (proj2 (Nat.ltb_ge _ _) Hi). by eexists _, w.
  - intros w v l i x y -> Hi. by eexists _, w.
  - intros w v l i n -> Hi. rewrite (proj2 (Nat.ltb_ge _ _) Hi). by eexists _, w.
  - intros w v l i n -> Hi. by rewrite (proj2 (Nat.ltb_lt _ _) Hi).
  - intros w v l u lu i -> -> _ Hi. rewrite (proj2 (Nat.ltb_ge _ _) Hi). by eexists _, w.
Qed.

(** ** Copy-on-write vectors *)

Section Vectors.
  Context {A : Type} (tcopy tdtor : bool) (dflt : option A) (vs : list vec).

#[export] Instance vector_seq : SeqOps (heap A) vec A := {|
  seq_empty := empty_vec;
  seq_size v := v_count v;
  seq_get v i := item_at v i;
  seq_edit v i f := edit_item tdtor v i f;
  seq_insert v x i := insertAt tcopy tdtor dflt v (Some x) i 1;
  seq_replace v x i := replaceAt tdtor dflt v (Some x) i;
  seq_remove v i n := removeItemsAt tcopy tdtor v i n;
  seq_insert_seq v u i := insertVectorAt tcopy tdtor v u i |}.

(** The vector shares its storage with none of the other live vectors [vs]. *)
Definition vector_repr (h : heap A) (v : vec) (l : list A) : Prop := wf h (v :: vs) /\ holds h v l /\ alone vs v.
Definition vector_other (h : heap A) (u : vec) (l : list A) : Prop := In u vs /\ holds h u l.

Lemma alone_can_grow (h : heap A) v (i n : nat) : alone vs v -> can_grow h vs v i n.
Proof. unfold alone, can_grow. destruct (v_storage v); [by left|done]. Qed.

#[export] Instance vector_seq_laws : SeqLaws vector_seq vector_repr vector_other (keep vs).
Proof.
  split; cbn; unfold vector_repr, vector_other.
  - split; [intros h; apply keep_refl|intros h1 h2 h3; apply keep_trans].
  - intros h h' u l K [Hu Hl]. split; [done|]. by apply K.
  - intros h v l (_ & H & _). by apply (holds_count h).
  - intros h v l (_ & H). by apply (holds_count h).
  - intros h v l i x (_ & H & _). by apply item_at_spec.
  - intros h v l i x (_ & H). by apply item_at_spec.
  - intros h v l i x f (W & H & _) Hi. destruct (edit_item_spec tdtor h v vs l i x f W H Hi) as (v' & h' & E & ?).
    exists v', h'. tauto.
  - intros h v l x i (W & H & Al) Hi.
    destruct (insertAt_spec tcopy tdtor dflt h v vs l i 1 x W H ltac:(lia) (alone_can_grow h v i 1 Al))
      as [[? _]|(_ & v' & h' & ?)]; [lia|]. exists v', h'. cbn [replicate app] in *. tauto.
  - intros h v l i x y (W & H & _) Hi. destruct (replaceAt_spec tdtor dflt h v vs l i x y W H Hi) as (v' & h' & ?).
    exists v', h'. tauto.
  - intros h v l i n (W & H & _) Hi.
    destruct (removeItemsAt_spec tcopy tdtor h v vs l i n W H) as [[? _]|(_ & v' & h' & ?)]; [lia|].
    exists v', h'. tauto.
  - intros h v l i n (W & H & _) Hi. destruct (removeItemsAt_spec tcopy tdtor h v vs l i n W H) as [[_ ->]|[? _]]; [done|lia].
  - intros h v l u lu i (W & H & Al) [Hu Hlu] Hn Hi.
    destruct (insertVectorAt_spec tcopy tdtor h v vs l u i lu W H Hu Hlu Hn (alone_can_grow h v i _ Al))
      as [[? _]|(_ & v' & h' & ?)]; [lia|]. exists v', h'. tauto.
Qed.
End Vectors.

Lemma vector_repr_empty {A} : vector_repr [] (@empty_heap A) empty_vec [].
Proof. destruct (represents_empty (A := A) 1 ltac:(lia)) as [W _ _]. by split. Qed.

(** ** Sorted lists *)

Lemma StronglySorted_app_iff {A} (R : A -> A -> Prop) l1 l2 : StronglySorted R (l1 ++ l2) <->
  StronglySorted R l1 /\ StronglySorted R l2 /\ forall x y, x ∈ l1 -> y ∈ l2 -> R x y.
Proof.
  induction l1 as [|z l1 IH]; cbn [app].
  - split; [|tauto]. intros H. split; [constructor|]. split; [done|]. intros x y Hx. by apply elem_of_nil in Hx.
  - split.
    + intros H. apply StronglySorted_inv in H as [H F]. apply IH in H as (H1 & H2 & H12).
      rewrite Forall_app in F. destruct F as [F1 F2]. split; [by constructor|]. split; [done|].
      intros x y Hx Hy. apply elem_of_cons in Hx as [->|Hx]; [|by apply H12].
      rewrite Forall_forall in F2. by apply F2.
    + intros (H1 & H2 & H12). apply StronglySorted_inv in H1 as [H1 F]. constructor.
      * apply IH. split; [done|]. split; [done|]. intros x y Hx. apply H12. by right.
      * apply Forall_app. split; [done|]. apply Forall_forall. intros y Hy. apply H12; [by left|done].
Qed.
Lemma StronglySorted_cons_iff {A} (R : A -> A -> Prop) x l : StronglySorted R (x :: l) <->
  StronglySorted R l /\ forall y, y ∈ l -> R x y.
Proof.
  split.
  - intros H. apply StronglySorted_inv in H as [H F]. by rewrite Forall_forall in F.
  - intros [H F]. constructor; [done|]. by apply Forall_forall.
Qed.

(** ** Binary search *)

(** The loop of SortedVectorImpl::_indexOrderOf and Tokenizer::_indexOrderOf:
    [f] compares an item with what is looked for; the result is an index or
    [NAME_NOT_FOUND], and where the item belongs. *)
Section Search.
  Context {W V A : Type} `{Ops : SeqOps W V A}.

Fixpoint search_loop (fuel : nat) (v : V) (f : A -> Z) (l h : Z) : stM W (Z * Z) :=
  if h <? l then hret (NAME_NOT_FOUND, l)
  else match fuel with
       | O => hfail
       | S fuel =>
           let mid := l + (h - l) / 2 in
           let! curr := seq_get v (Z.to_nat mid) in
           let c := f curr in
           if c =? 0 then hret (mid, mid)
           else if c <? 0 then search_loop fuel v f (mid + 1) h
           else search_loop fuel v f l (mid - 1)
       end.
Definition search (v : V) (f : A -> Z) : stM W (Z * Z) :=
  search_loop (seq_size v) v f 0 (Z.of_nat (seq_size v) - 1).

(** The items [f] calls smaller come first; at most one is equal. *)
Definition arranged (f : A -> Z) (l : list A) : Prop :=
  forall i j x y, (i < j)%nat -> l !! i = Some x -> l !! j = Some y -> 0 <= f x -> 0 < f y.

(** What a search must return. *)
Inductive searched (f : A -> Z) (l : list A) : Z * Z -> Prop :=
  | searched_found l1 x l2 : l = l1 ++ x :: l2 -> f x = 0 ->
      Forall (fun y => f y < 0) l1 -> Forall (fun y => 0 < f y) l2 ->
      searched f l (Z.of_nat (length l1), Z.of_nat (length l1))
  | searched_absent l1 l2 : l = l1 ++ l2 ->
      Forall (fun y => f y < 0) l1 -> Forall (fun y => 0 < f y) l2 ->
      searched f l (NAME_NOT_FOUND, Z.of_nat (length l1)).

Context {repr other : W -> V -> list A -> Prop} {frame : W -> W -> Prop} `{Laws : !SeqLaws Ops repr other frame}.

Lemma search_loop_spec fuel w v items f l h :
  repr w v items -> arranged f items -> 0 <= l -> h < Z.of_nat (length items) -> l <= h + 1 ->
  (forall i x, items !! i = Some x -> Z.of_nat i < l -> f x < 0) ->
  (forall i x, items !! i = Some x -> h < Z.of_nat i -> 0 < f x) ->
  h - l + 1 <= Z.of_nat fuel ->
  exists r, search_loop fuel v f l h w = Some (r, w) /\ searched f items r.
Proof.
  intros R HS. revert l h. induction fuel as [|fuel IH]; intros l h H0 Hh Hlh Hlow Hhigh Hf; cbn [search_loop];
    destruct (Z.ltb_spec h l) as [Hd|Hd].
  1, 3: eexists; split; [reflexivity|]; replace l with (Z.of_nat (length (take (Z.to_nat l) items)))
          by (rewrite length_take; lia);
        apply (searched_absent f items _ (drop (Z.to_nat l) items)); [by rewrite take_drop|..];
        apply Forall_lookup; intros i x Hi.
  1, 3: apply lookup_take_Some in Hi as [Hi ?]; apply (Hlow i x Hi); lia.
  1, 2: rewrite lookup_drop in Hi; apply (Hhigh _ x Hi); lia.
  - lia.
  - set (mid := l + (h - l) / 2). assert (l <= mid <= h) as Hmid by (unfold mid; div_lia).
    destruct (lookup_lt_is_Some_2 items (Z.to_nat mid) ltac:(lia)) as [x Hx].
    rewrite (hbind_some _ _ _ _ _ (repr_get w v items _ x R Hx)). cbv zeta.
    destruct (Z.eqb_spec (f x) 0) as [E|E]; [|destruct (Z.ltb_spec (f x) 0)].
    + eexists. split; [reflexivity|]. assert (Z.of_nat (length (take (Z.to_nat mid) items)) = mid) as Lm by (rewrite length_take; lia).
      rewrite <- Lm. apply (searched_found f items _ x (drop (S (Z.to_nat mid)) items)); [|done|..];
        [by rewrite take_drop_middle|..];
        apply Forall_lookup; intros i y Hi.
      * apply lookup_take_Some in Hi as [Hi Hl]. destruct (Z.lt_ge_cases (f y) 0) as [|G]; [done|].
        pose proof (HS i _ y x Hl Hi Hx G). lia.
      * rewrite lookup_drop in Hi. eapply HS; [|exact Hx|exact Hi|]; lia.
    + apply IH; try lia; [|done]. intros i y Hi Hl.
      destruct (decide (i = Z.to_nat mid)) as [->|Hne]; [by rewrite Hx in Hi; injection Hi as <-|].
      destruct (Z.lt_ge_cases (f y) 0) as [|G]; [done|]. pose proof (HS i (Z.to_nat mid) y x ltac:(lia) Hi Hx G). lia.
    + apply IH; try lia; [done|]. intros i y Hi Hl.
      destruct (decide (i = Z.to_nat mid)) as [->|Hne]; [rewrite Hx in Hi; injection Hi as <-; lia|].
      apply (HS (Z.to_nat mid) i x y ltac:(lia) Hx Hi). lia.
Qed.

Lemma search_spec w v items f : repr w v items -> arranged f items ->
  exists r, search v f w = Some (r, w) /\ searched f items r.
Proof.
  intros R S. unfold search. rewrite (repr_size w v items R).
  apply search_loop_spec; try done; try lia. all: intros i x Hi; pose proof (lookup_lt_Some _ _ _ Hi); lia.
Qed.
End Search.
