(* ===== verification/SortedVector.v ===== *)
(** * Sorted vectors

    Models [SortedVectorImpl] of libpixelflinger/tinyutils/VectorImpl.cpp over
    any implementation of sequences, and shows that sorted vectors are finite
    maps: every operation keeps the items strictly sorted by key and does to the
    map they stand for what a map does.  Merging two sorted vectors is the
    exception. *)

From stdpp Require Import gmap sorting.
From S2P Require Import Prelude SharedBuffer Vector VectorSpec Sequence.

#[local] Open Scope state_scope.

(** ** Comparison *)

(** [strictly_order_type] and [compare_type] of TypeHelpers.h. *)
Definition strictly_order_type {A} (lt : A -> A -> bool) (lhs rhs : A) : Z := if lt lhs rhs then 1 else 0.
Definition compare_type {A} (lt : A -> A -> bool) (lhs rhs : A) : Z :=
  strictly_order_type lt rhs lhs - strictly_order_type lt lhs rhs.

Module SortedVector.
Section Operations.
  Context {W V A : Type} `{Ops : SeqOps W V A} (do_compare : A -> A -> Z).

Definition indexOrderOf (v : V) (item : A) : stM W (Z * Z) := search v (fun curr => do_compare curr item).
Definition indexOf (v : V) (item : A) : stM W Z := let! (i, _) := indexOrderOf v item in hret i.
Definition orderOf (v : V) (item : A) : stM W Z := let! (_, o) := indexOrderOf v item in hret o.

Definition add (v : V) (item : A) : stM W (Z * V) :=
  let! (index, order) := indexOrderOf v item in
  if index <? 0 then seq_insert v item (Z.to_nat order) else seq_replace v item (Z.to_nat index).

Definition remove (v : V) (item : A) : stM W (Z * V) :=
  let! i := indexOf v item in
  if 0 <=? i then let! (_, v) := seq_remove v (Z.to_nat i) 1 in hret (i, v) else hret (i, v).

(** The loop of [merge]: the [n] items of [vector] from [i] on. *)
Fixpoint merge_loop (n : nat) (v vector : V) (i : nat) : stM W (Z * V) :=
  match n with
  | O => hret (NO_ERROR, v)
  | S n =>
      let! item := seq_get vector i in
      let! (err, v) := add v item in
      if err <? 0 then hret (err, v) else merge_loop n v vector (S i)
  end.
Definition merge (v vector : V) : stM W (Z * V) :=
  if (seq_size vector =? 0)%nat then hret (NO_ERROR, v) else merge_loop (seq_size vector) v vector 0.

(** [merge] of another sorted vector. *)
Definition merge_sorted (v vector : V) : stM W (Z * V) :=
  if (seq_size vector =? 0)%nat then hret (NO_ERROR, v)
  else
    let! last := seq_get vector (seq_size vector - 1) in
    let! first := seq_get v 0 in
    if do_compare last first <=? 0 then seq_insert_seq v vector 0
    else
      let! first := seq_get vector 0 in
      let! last := seq_get v (seq_size v - 1) in
      if 0 <=? do_compare first last then seq_insert_seq v vector (seq_size v)
      else merge v vector.
End Operations.

(** ** The map a sorted vector stands for *)

Section Map.
  Context {A : Type} (key : A -> Z).

Definition key_lt (x y : A) : bool := key x <? key y.
Definition by_key : A -> A -> Z := compare_type key_lt.
Definition sorted (l : list A) : Prop := StronglySorted (fun x y => key x < key y) l.
Definition to_map (l : list A) : gmap Z A := list_to_map (map (fun x => (key x, x)) l).

Lemma by_key_spec x y :
  (key x < key y /\ by_key x y = -1) \/ (key x = key y /\ by_key x y = 0) \/ (key y < key x /\ by_key x y = 1).
Proof.
  unfold by_key, compare_type, strictly_order_type, key_lt.
  destruct (Z.ltb_spec (key x) (key y)), (Z.ltb_spec (key y) (key x)); lia.
Qed.

Lemma sorted_app l1 l2 : sorted (l1 ++ l2) <->
  sorted l1 /\ sorted l2 /\ forall x y, x ∈ l1 -> y ∈ l2 -> key x < key y.
Proof. apply StronglySorted_app_iff. Qed.
Lemma sorted_cons x l : sorted (x :: l) <-> sorted l /\ forall y, y ∈ l -> key x < key y.
Proof. apply StronglySorted_cons_iff. Qed.

Lemma sorted_arranged l item : sorted l -> arranged (fun curr => by_key curr item) l.
Proof.
  intros H i j x y Hij Hx Hy. rewrite <- (take_drop_middle l j y Hy), sorted_app in H. destruct H as (_ & _ & H).
  assert (key x < key y).
  { apply H; [|by left]. apply (list_elem_of_lookup_2 _ i). by rewrite lookup_take_lt. }
  destruct (by_key_spec x item), (by_key_spec y item); lia.
Qed.

Lemma to_map_lookup l k x : sorted l -> to_map l !! k = Some x <-> x ∈ l /\ key x = k.
Proof.
  intros H. unfold to_map. induction l as [|y l IH]; cbn [map list_to_map foldr].
  - rewrite lookup_empty. split; [done|]. intros [Hx _]. by apply elem_of_nil in Hx.
  - apply sorted_cons in H as [H Hl]. cbn [fst snd uncurry]. destruct (decide (key y = k)) as [<-|Hk].
    + rewrite lookup_insert_eq, elem_of_cons. split; [intros [= ->]; by split; [left|]|].
      intros [[->|Hx] E]; [done|]. pose proof (Hl x Hx). lia.
    + rewrite lookup_insert_ne by done. rewrite elem_of_cons. etransitivity; [apply IH, H|].
      split; intros [? ?]; [tauto|]. split; [|done]. by destruct H0 as [->|].
Qed.

Lemma to_map_none l k : sorted l -> to_map l !! k = None <-> forall x, x ∈ l -> key x <> k.
Proof.
  intros H. split.
  - intros E x Hx Hk. by rewrite (proj2 (to_map_lookup l k x H)) in E.
  - intros Hl. apply eq_None_not_Some. intros [x E]. apply (to_map_lookup l k x H) in E as [Hx Hk]. by apply (Hl x).
Qed.

(** Inserting between smaller and larger items, and dropping an item. *)
Lemma sorted_insert l1 x l2 : sorted (l1 ++ l2) ->
  Forall (fun y => key y < key x) l1 -> Forall (fun y => key x < key y) l2 -> sorted (l1 ++ x :: l2).
Proof.
  rewrite !sorted_app, sorted_cons, !Forall_forall. intros (H1 & H2 & H12) F1 F2.
  split; [done|]. split; [split; [done|]; intros y Hy; by apply F2|].
  intros a b Ha Hb. apply elem_of_cons in Hb as [->|Hb]; [by apply F1|by apply H12].
Qed.
Lemma sorted_delete l1 x l2 : sorted (l1 ++ x :: l2) -> sorted (l1 ++ l2).
Proof.
  rewrite !sorted_app, sorted_cons. intros (H1 & [H2 _] & H12). split_and!; try done.
  intros a b Ha Hb. apply H12; [done|by right].
Qed.

Lemma to_map_insert l1 l2 x : sorted (l1 ++ x :: l2) -> to_map (l1 ++ x :: l2) = <[key x := x]> (to_map (l1 ++ l2)).
Proof.
  intros H. pose proof (sorted_delete _ _ _ H) as H'. apply map_eq. intros k. apply option_eq. intros y.
  rewrite (to_map_lookup _ k y H), lookup_insert_Some, (to_map_lookup _ k y H'), !elem_of_app, elem_of_cons.
  apply sorted_app in H as (H1 & H2 & H12). apply sorted_cons in H2 as [H2 Hx].
  split.
  - intros [[Hy|[->|Hy]] E]; [right|by left|right]; (split; [|tauto]); intros E2.
    + pose proof (H12 y x Hy ltac:(by left)). lia.
    + pose proof (Hx y Hy). lia.
  - intros [[<- ->]|[Hne [[Hy|Hy] E]]]; tauto.
Qed.
Lemma to_map_delete l1 l2 x : sorted (l1 ++ x :: l2) -> to_map (l1 ++ l2) = delete (key x) (to_map (l1 ++ x :: l2)).
Proof.
  intros H. rewrite (to_map_insert _ _ _ H), delete_insert_eq, delete_id; [done|].
  apply to_map_none; [by apply sorted_delete in H|]. apply sorted_app in H as (_ & H2 & H12). apply sorted_cons in H2 as [_ Hx].
  intros y Hy E. apply elem_of_app in Hy as [Hy|Hy].
  - pose proof (H12 y x Hy ltac:(by left)). lia.
  - pose proof (Hx y Hy). lia.
Qed.
End Map.

(** ** The operations against the map *)

Section Spec.
  Context {W V A : Type} `{Ops : SeqOps W V A} {repr other : W -> V -> list A -> Prop} {frame : W -> W -> Prop}.
  Context `{Laws : !SeqLaws Ops repr other frame} (key : A -> Z).
  #[local] Abbreviation compare := (by_key key).

(** [v] stands for the map [m]. *)
Definition stands_for (w : W) (v : V) (m : gmap Z A) : Prop :=
  exists l, repr w v l /\ sorted key l /\ to_map key l = m.

Lemma searched_by_key l item r : searched (fun curr => compare curr item) l r ->
  (exists l1 x l2, l = l1 ++ x :: l2 /\ key x = key item /\ r = (Z.of_nat (length l1), Z.of_nat (length l1))) \/
  (exists l1 l2, l = l1 ++ l2 /\ r = (NAME_NOT_FOUND, Z.of_nat (length l1)) /\
     Forall (fun y => key y < key item) l1 /\ Forall (fun y => key item < key y) l2).
Proof.
  intros [l1 x l2 -> E _ _|l1 l2 -> F1 F2]; [left|right].
  - exists l1, x, l2. split_and!; try done. destruct (by_key_spec key x item); lia.
  - exists l1, l2. split_and!; try done; (eapply Forall_impl; [eassumption|]); intros y Hy; cbn in Hy;
      destruct (by_key_spec key y item); lia.
Qed.

Lemma indexOrderOf_spec w v l item : repr w v l -> sorted key l ->
  exists r, indexOrderOf compare v item w = Some (r, w) /\ searched (fun curr => compare curr item) l r.
Proof. intros R S. apply (search_spec w v l _ R). by apply sorted_arranged. Qed.

Lemma indexOf_spec w v m item : stands_for w v m ->
  exists i, indexOf compare v item w = Some (i, w) /\
    match m !! key item with
    | Some x => 0 <= i /\ seq_get v (Z.to_nat i) w = Some (x, w)
    | None => i = NAME_NOT_FOUND
    end.
Proof.
  intros (l & R & S & <-). destruct (indexOrderOf_spec w v l item R S) as (r & E & Hr).
  unfold indexOf. rewrite (hbind_some _ _ _ _ _ E).
  destruct (searched_by_key l item r Hr) as [(l1 & x & l2 & -> & Ek & ->)|(l1 & l2 & -> & -> & F1 & F2)]; unfold hret;
    eexists; (split; [reflexivity|]).
  - rewrite (proj2 (to_map_lookup key _ (key item) x S)) by (split; [apply elem_of_app; right; by left|done]).
    split; [lia|]. apply (repr_get w v _ _ x R). rewrite Nat2Z.id. by apply list_lookup_middle.
  - rewrite (proj2 (to_map_none key _ (key item) S)); [done|]. rewrite !Forall_forall in *.
    intros x Hx. apply elem_of_app in Hx as [Hx|Hx]; [pose proof (F1 x Hx)|pose proof (F2 x Hx)]; cbn in *; lia.
Qed.

Lemma add_spec w v m item : stands_for w v m ->
  exists i v' w', add compare v item w = Some ((i, v'), w') /\ 0 <= i /\
    stands_for w' v' (<[key item := item]> m) /\ frame w w'.
Proof.
  intros (l & R & S & <-). destruct (indexOrderOf_spec w v l item R S) as (r & E & Hr).
  unfold add. rewrite (hbind_some _ _ _ _ _ E).
  destruct (searched_by_key l item r Hr) as [(l1 & x & l2 & -> & Ek & ->)|(l1 & l2 & -> & -> & F1 & F2)].
  - destruct (Z.ltb_spec (Z.of_nat (length l1)) 0); [lia|]. rewrite Nat2Z.id.
    destruct (repr_replace w v _ (length l1) item x R) as (v' & w' & -> & R' & Fr); [by apply list_lookup_middle|].
    eexists _, v', w'. split; [done|]. split; [lia|]. split; [|done].
    exists (l1 ++ item :: l2). rewrite insert_app_r_alt, Nat.sub_diag in R' by done. split; [exact R'|].
    apply sorted_app in S as (S1 & S2 & S12). pose proof S2 as S2'. apply sorted_cons in S2 as [S2 Sx].
    assert (sorted key (l1 ++ item :: l2)) as S'.
    { apply sorted_app. split; [done|]. split.
      - apply sorted_cons. split; [done|]. intros y Hy. rewrite <- Ek. by apply Sx.
      - intros a b Ha Hb. apply elem_of_cons in Hb as [->|Hb]; [rewrite <- Ek; apply S12; [done|by left]|].
        apply S12; [done|by right]. }
    split; [done|]. rewrite (to_map_insert key l1 l2 item S').
    rewrite (to_map_insert key l1 l2 x) by (by apply sorted_app). by rewrite Ek, insert_insert_eq.
  - change (NAME_NOT_FOUND <? 0) with true. cbv iota. rewrite Nat2Z.id.
    destruct (repr_insert w v _ item (length l1) R) as (v' & w' & -> & R' & Fr); [rewrite length_app; lia|].
    rewrite take_app_length, drop_app_length in R'.
    eexists _, v', w'. split; [done|]. split; [lia|]. split; [|done]. exists (l1 ++ item :: l2).
    pose proof (sorted_insert key l1 item l2 S F1 F2) as S'. split; [done|]. split; [done|]. by apply to_map_insert.
Qed.

Lemma remove_spec w v m item : stands_for w v m ->
  exists i v' w', remove compare v item w = Some ((i, v'), w') /\ (0 <= i <-> is_Some (m !! key item)) /\
    stands_for w' v' (delete (key item) m) /\ frame w w'.
Proof.
  intros H. pose proof H as (l & R & S & Em). destruct (indexOrderOf_spec w v l item R S) as (r & E & Hr).
  unfold remove, indexOf, hbind. rewrite E. cbn [mbind option_bind].
  destruct (searched_by_key l item r Hr) as [(l1 & x & l2 & -> & Ek & ->)|(l1 & l2 & -> & -> & F1 & F2)]; cbn [hret mbind option_bind].
  - cbn. destruct (Z.leb_spec 0 (Z.of_nat (length l1))); [|lia]. rewrite Nat2Z.id.
    destruct (repr_remove w v _ (length l1) 1 R) as (v' & w' & -> & R' & Fr); [rewrite length_app; cbn; lia|]. cbn.
    eexists _, v', w'. split; [done|].
    assert (m !! key item = Some x) as Ex
      by (rewrite <- Em; apply to_map_lookup; [done|]; split; [apply elem_of_app; right; by left|done]).
    split; [rewrite Ex; split; [by eexists|lia]|]. split; [|done]. exists (l1 ++ l2).
    replace (drop (length l1 + 1) (l1 ++ x :: l2)) with l2 in R'
      by (rewrite <- drop_drop, drop_app_length; reflexivity).
    rewrite take_app_length in R'. split; [done|]. split; [by apply (sorted_delete key l1 x l2)|].
    rewrite <- Em, <- Ek. by apply to_map_delete.
  - cbn. eexists _, v, w. split; [done|].
    assert (m !! key item = None) as En.
    { rewrite <- Em. apply to_map_none; [done|]. rewrite !Forall_forall in *. intros x Hx.
      apply elem_of_app in Hx as [Hx|Hx]; [pose proof (F1 x Hx)|pose proof (F2 x Hx)]; cbn in *; lia. }
    split; [rewrite En; split; [done|by intros [? ?]]|]. rewrite delete_id by done. split; [done|].
    apply frame_refl.
Qed.

Lemma merge_loop_spec u lu n i w v m : stands_for w v m -> other w u lu -> (i + n = length lu)%nat ->
  exists v' w', merge_loop compare n v u i w = Some ((NO_ERROR, v'), w') /\
    stands_for w' v' (foldl (fun m x => <[key x := x]> m) m (drop i lu)) /\ frame w w'.
Proof.
  revert i w v m. induction n as [|n IH]; intros i w v m Hv Hu Hn; cbn [merge_loop].
  - exists v, w. split; [done|]. rewrite drop_ge by lia. split; [done|].
    apply frame_refl.
  - destruct (lookup_lt_is_Some_2 lu i ltac:(lia)) as [x Hx].
    rewrite (hbind_some _ _ _ _ _ (other_get w u lu i x Hu Hx)).
    destruct (add_spec w v m x Hv) as (j & v1 & w1 & E & Hj & Hv1 & F1).
    rewrite (hbind_some _ _ _ _ _ E). destruct (Z.ltb_spec j 0); [lia|].
    destruct (IH (S i) w1 v1 _ Hv1 (other_frame w w1 u lu F1 Hu) ltac:(lia)) as (v' & w' & E' & Hv' & F').
    exists v', w'. split; [done|]. rewrite (drop_S lu x i Hx). split; [done|].
    by apply (frame_trans w w1 w').
Qed.

Lemma merge_spec w v m u lu : stands_for w v m -> other w u lu ->
  exists v' w', merge compare v u w = Some ((NO_ERROR, v'), w') /\
    stands_for w' v' (foldl (fun m x => <[key x := x]> m) m lu) /\ frame w w'.
Proof.
  intros Hv Hu. unfold merge. rewrite (other_size w u lu Hu). destruct (Nat.eqb_spec (length lu) 0) as [E|E].
  - exists v, w. split; [done|]. destruct lu; [|done]. split; [done|].
    apply frame_refl.
  - by apply (merge_loop_spec u lu (length lu) 0).
Qed.

(** Merging a sorted vector whose ends do not meet those of a non-empty one. *)
Lemma foldl_insert_union lu m : sorted key lu -> foldl (fun m x => <[key x := x]> m) m lu = to_map key lu ∪ m.
Proof.
  revert m. induction lu as [|x lu IH]; intros m S; cbn [foldl]; [symmetry; apply (left_id_L ∅ (∪))|].
  pose proof S as S'. apply sorted_cons in S as [S Hx]. rewrite IH by done. unfold to_map at 2. cbn [map list_to_map foldr fst snd uncurry].
  fold (to_map key lu). rewrite <- insert_union_l. rewrite insert_union_r; [done|].
  apply to_map_none; [done|]. intros y Hy E. pose proof (Hx y Hy). lia.
Qed.
Lemma to_map_app l1 l2 : to_map key (l1 ++ l2) = to_map key l1 ∪ to_map key l2.
Proof. unfold to_map. by rewrite map_app, list_to_map_app. Qed.
Lemma to_map_app_comm l1 l2 : sorted key (l1 ++ l2) -> to_map key (l1 ++ l2) = to_map key l2 ∪ to_map key l1.
Proof.
  intros S. rewrite to_map_app. apply map_union_comm. apply sorted_app in S as (S1 & S2 & S12).
  intros k. destruct (to_map key l1 !! k) as [x|] eqn:E1, (to_map key l2 !! k) as [y|] eqn:E2; try done.
  apply to_map_lookup in E1 as [Hx E1]; [|done]. apply to_map_lookup in E2 as [Hy E2]; [|done].
  pose proof (S12 x y Hx Hy). lia.
Qed.

Lemma sorted_ends l i j x y : sorted key l -> l !! i = Some x -> l !! j = Some y -> (i <= j)%nat -> key x <= key y.
Proof.
  intros S Hx Hy Hij. destruct (decide (i = j)) as [->|Hne]; [by rewrite Hx in Hy; injection Hy as ->|].
  rewrite <- (take_drop_middle l j y Hy), sorted_app in S. destruct S as (_ & _ & S).
  assert (key x < key y); [|lia]. apply S; [|by left]. apply (list_elem_of_lookup_2 _ i). rewrite lookup_take_lt by lia. done.
Qed.
Lemma sorted_glue l1 l2 x y : sorted key l1 -> sorted key l2 -> l1 !! (length l1 - 1)%nat = Some x -> l2 !! 0%nat = Some y ->
  key x < key y -> sorted key (l1 ++ l2).
Proof.
  intros S1 S2 Hx Hy Hk. apply sorted_app. split; [done|]. split; [done|]. intros a b Ha Hb.
  apply list_elem_of_lookup in Ha as [i Hi]. apply list_elem_of_lookup in Hb as [j Hj].
  pose proof (lookup_lt_Some _ _ _ Hi).
  pose proof (sorted_ends l1 i _ a x S1 Hi Hx ltac:(lia)). pose proof (sorted_ends l2 0 j y b S2 Hy Hj ltac:(lia)). lia.
Qed.

Lemma merge_sorted_spec w v l u lu first last ufirst ulast : repr w v l -> sorted key l -> other w u lu -> sorted key lu ->
  l !! 0%nat = Some first -> l !! (length l - 1)%nat = Some last ->
  lu !! 0%nat = Some ufirst -> lu !! (length lu - 1)%nat = Some ulast ->
  key ulast <> key first -> key ufirst <> key last ->
  exists s v' w', merge_sorted compare v u w = Some ((s, v'), w') /\ 0 <= s /\
    stands_for w' v' (foldl (fun m x => <[key x := x]> m) (to_map key l) lu) /\ frame w w'.
Proof.
  intros R S Ru Su Hf Hl Huf Hul N1 N2. unfold merge_sorted. rewrite (other_size w u lu Ru).
  pose proof (lookup_lt_Some _ _ _ Huf). pose proof (lookup_lt_Some _ _ _ Hf).
  destruct (Nat.eqb_spec (length lu) 0); [lia|].
  rewrite (hbind_some _ _ _ _ _ (other_get w u lu _ _ Ru Hul)), (hbind_some _ _ _ _ _ (repr_get w v l _ _ R Hf)).
  destruct (Z.leb_spec (compare ulast first) 0) as [C|C].
  - destruct (repr_insert_seq w v l u lu 0 R Ru) as (v' & w' & -> & R' & F); [lia..|].
    eexists _, v', w'. split; [done|]. split; [lia|]. split; [|done]. exists (lu ++ l). cbn [take app drop] in R'. split; [done|].
    assert (sorted key (lu ++ l)) as S'.
    { apply (sorted_glue lu l ulast first); try done. destruct (by_key_spec key ulast first); lia. }
    split; [done|]. by rewrite to_map_app, foldl_insert_union.
  - rewrite (hbind_some _ _ _ _ _ (other_get w u lu _ _ Ru Huf)), (repr_size w v l R), (hbind_some _ _ _ _ _ (repr_get w v l _ _ R Hl)).
    destruct (Z.leb_spec 0 (compare ufirst last)) as [C2|C2].
    + destruct (repr_insert_seq w v l u lu (length l) R Ru) as (v' & w' & -> & R' & F); [lia..|].
      eexists _, v', w'. split; [done|]. split; [lia|]. split; [|done]. exists (l ++ lu).
      rewrite firstn_all, drop_all, app_nil_r in R'. split; [done|].
      assert (sorted key (l ++ lu)) as S'.
      { apply (sorted_glue l lu last ufirst); try done. destruct (by_key_spec key ufirst last); lia. }
      split; [done|]. by rewrite to_map_app_comm, foldl_insert_union.
    + destruct (merge_spec w v (to_map key l) u lu) as (v' & w' & E & Hv & F); [by exists l|done|].
      exists NO_ERROR, v', w'. done.
Qed.
End Spec.
End SortedVector.

(** Merging sorted vectors whose ends meet keeps both items with the key, and
    the vector is no longer a map; merging into a vector that never held an
    item follows a null pointer. *)
Theorem merge_sorted_duplicates :
  SortedVector.merge_sorted (SortedVector.by_key fst) [(3, 0); (8, 0)] [(1, 1); (3, 1)] tt =
    Some ((0, [(1, 1); (3, 1); (3, 0); (8, 0)]), tt) /\
  SortedVector.remove (SortedVector.by_key fst) [(1, 1); (3, 1); (3, 0); (8, 0)] (3, 0) tt =
    Some ((1, [(1, 1); (3, 0); (8, 0)]), tt) /\
  SortedVector.merge_sorted (Ops := vector_seq true true None) (SortedVector.by_key fst) empty_vec (mk_vec (Some 1) 1)
    (mk_heap {[1 := mk_block 1 [Some (3, 0)]]} 2 []) = None.
Proof. by vm_compute. Qed.
