(* ===== verification/KeyedVector.v ===== *)
(** * Keyed vectors

    Models [KeyedVector] of include/utils/KeyedVector.h, a sorted vector of
    pairs, over any implementation of sequences: it is a finite map. *)

From stdpp Require Import gmap sorting.
From S2P Require Import Prelude SharedBuffer Vector VectorSpec Sequence SortedVector.

#[local] Open Scope state_scope.

Module KeyedVector.
Section Operations.
  Context {W V B : Type} `{Ops : SeqOps W V (Z * B)}.
  (** The value of a pair made from a key alone is not looked at. *)
  Context (unset : B).

Definition pair_compare : Z * B -> Z * B -> Z := SortedVector.by_key fst.

Definition indexOfKey (v : V) (key : Z) : stM W Z := SortedVector.indexOf pair_compare v (key, unset).
Definition valueAt (v : V) (index : nat) : stM W B := let! item := seq_get v index in hret (snd item).
Definition keyAt (v : V) (index : nat) : stM W Z := let! item := seq_get v index in hret (fst item).
Definition valueFor (v : V) (key : Z) : stM W B :=
  let! i := indexOfKey v key in if 0 <=? i then valueAt v (Z.to_nat i) else hfail.
(** [DefaultKeyedVector]. *)
Definition default_valueFor (mDefault : B) (v : V) (key : Z) : stM W B :=
  let! i := indexOfKey v key in if 0 <=? i then valueAt v (Z.to_nat i) else hret mDefault.

Definition editValueAt (v : V) (index : nat) (f : B -> B) : stM W V := seq_edit v index (fun item => (fst item, f (snd item))).
Definition editValueFor (v : V) (key : Z) (f : B -> B) : stM W V :=
  let! i := indexOfKey v key in if 0 <=? i then editValueAt v (Z.to_nat i) f else hfail.

Definition add (v : V) (key : Z) (value : B) : stM W (Z * V) := SortedVector.add pair_compare v (key, value).
Definition replaceValueFor (v : V) (key : Z) (value : B) : stM W (Z * V) :=
  let! (_, v) := SortedVector.remove pair_compare v (key, value) in SortedVector.add pair_compare v (key, value).
Definition replaceValueAt (v : V) (index : nat) (item : B) : stM W (Z * V) :=
  if (index <? seq_size v)%nat then
    let! v := seq_edit v index (fun x => (fst x, item)) in hret (Z.of_nat index, v)
  else hret (BAD_INDEX, v).
Definition removeItem (v : V) (key : Z) : stM W (Z * V) := SortedVector.remove pair_compare v (key, unset).
Definition removeItemsAt (v : V) (index count : nat) : stM W (Z * V) := seq_remove v index count.
End Operations.

Section Spec.
  Context {W V B : Type} `{Ops : SeqOps W V (Z * B)} {repr other : W -> V -> list (Z * B) -> Prop} {frame : W -> W -> Prop}.
  Context `{Laws : !SeqLaws Ops repr other frame} (unset : B).
  Implicit Types (m : gmap Z B).

(** [v] stands for the map [m]. *)
Definition maps (w : W) (v : V) m : Prop :=
  exists M, SortedVector.stands_for (repr := repr) fst w v M /\ snd <$> M = m.

Lemma maps_key w v M k x : SortedVector.stands_for (repr := repr) fst w v M -> M !! k = Some x -> fst x = k.
Proof. intros (l & _ & S & <-) E. by apply SortedVector.to_map_lookup in E as [_ ->]. Qed.

(** Looking a key up, and what its index is good for. *)
Lemma indexOfKey_spec w v m k : maps w v m ->
  exists i, indexOfKey unset v k w = Some (i, w) /\
    match m !! k with
    | Some b => 0 <= i /\ valueAt v (Z.to_nat i) w = Some (b, w) /\
        (exists v' w', removeItemsAt v (Z.to_nat i) 1 w = Some ((i, v'), w') /\ maps w' v' (delete k m) /\ frame w w') /\
        forall f, exists v' w', editValueAt v (Z.to_nat i) f w = Some (v', w') /\ maps w' v' (<[k := f b]> m) /\ frame w w'
    | None => i = NAME_NOT_FOUND
    end.
Proof.
  intros (M & (l & R & S & EM) & Em).
  destruct (SortedVector.indexOrderOf_spec fst w v l (k, unset) R S) as (r & E & Hr).
  unfold indexOfKey, SortedVector.indexOf. rewrite (hbind_some _ _ _ _ _ E). exists (fst r).
  destruct r as [i o]. cbn [fst].
  destruct (SortedVector.searched_by_key fst l (k, unset) _ Hr)
    as [(l1 & x & l2 & -> & Ek & [= -> ->])|(l1 & l2 & -> & [= -> ->] & F1 & F2)]; (split; [reflexivity|]); cbn [fst] in *.
  - assert (M !! k = Some x) as Ex
      by (rewrite <- EM; apply SortedVector.to_map_lookup; [done|]; split; [apply elem_of_app; right; by left|done]).
    assert (m !! k = Some (snd x)) as Em' by (by rewrite <- Em, lookup_fmap, Ex). rewrite Em'.
    assert ((l1 ++ x :: l2) !! length l1 = Some x) as Lx by by apply list_lookup_middle.
    rewrite Nat2Z.id. split; [lia|]. split; [|split].
    + unfold valueAt. by rewrite (hbind_some _ _ _ _ _ (repr_get w v _ _ x R Lx)).
    + destruct (repr_remove w v _ (length l1) 1 R) as (v' & w' & ER & R' & Fr); [rewrite length_app; cbn; lia|].
      exists v', w'. split; [exact ER|]. split; [|done]. exists (delete k M). split; [|by rewrite fmap_delete, Em].
      exists (l1 ++ l2). replace (drop (length l1 + 1) (l1 ++ x :: l2)) with l2 in R'
        by (rewrite <- drop_drop, drop_app_length; reflexivity).
      rewrite take_app_length in R'. split; [done|]. split; [by apply (SortedVector.sorted_delete fst l1 x l2)|].
      rewrite <- EM, <- Ek. by apply SortedVector.to_map_delete.
    + intros f. destruct (repr_edit w v _ _ x (fun item => (fst item, f (snd item))) R Lx) as (v' & w' & ER & R' & Fr).
      exists v', w'. split; [exact ER|]. split; [|done]. exists (<[k := (fst x, f (snd x))]> M).
      split; [|by rewrite fmap_insert, Em]. exists (l1 ++ (fst x, f (snd x)) :: l2).
      rewrite insert_app_r_alt, Nat.sub_diag in R' by done. split; [exact R'|].
      assert (SortedVector.sorted fst (l1 ++ (fst x, f (snd x)) :: l2)) as S'.
      { revert S. rewrite !SortedVector.sorted_app, !SortedVector.sorted_cons. intros (? & [? ?] & S12). split_and!; try done.
        intros a b Ha Hb. apply elem_of_cons in Hb as [->|Hb]; [by apply (S12 a x Ha); left|apply S12; [done|by right]]. }
      split; [done|]. rewrite (SortedVector.to_map_insert fst _ _ _ S'), <- EM, (SortedVector.to_map_insert fst _ _ _ S).
      cbn [fst]. by rewrite Ek, insert_insert_eq.
  - replace (m !! k) with (@None B); [done|]. symmetry. rewrite <- Em, lookup_fmap, <- EM.
    replace (SortedVector.to_map fst (l1 ++ l2) !! k) with (@None (Z * B)); [done|]. symmetry.
    apply SortedVector.to_map_none; [done|]. rewrite !Forall_forall in *. intros x Hx.
    apply elem_of_app in Hx as [Hx|Hx]; [pose proof (F1 x Hx)|pose proof (F2 x Hx)]; cbn in *; lia.
Qed.

Lemma keyed_add_spec w v m k b : maps w v m ->
  exists i v' w', add v k b w = Some ((i, v'), w') /\ 0 <= i /\ maps w' v' (<[k := b]> m) /\ frame w w'.
Proof.
  intros (M & H & Em). destruct (SortedVector.add_spec fst w v M (k, b) H) as (i & v' & w' & E & Hi & H' & F).
  exists i, v', w'. split; [exact E|]. split; [done|]. split; [|done]. eexists. split; [exact H'|].
  by rewrite fmap_insert, Em.
Qed.

Lemma keyed_remove_spec w v m k b : maps w v m ->
  exists i v' w', SortedVector.remove pair_compare v (k, b) w = Some ((i, v'), w') /\ (0 <= i <-> is_Some (m !! k)) /\
    maps w' v' (delete k m) /\ frame w w'.
Proof.
  intros (M & H & Em). destruct (SortedVector.remove_spec fst w v M (k, b) H) as (i & v' & w' & E & Hi & H' & F).
  exists i, v', w'. split; [exact E|]. rewrite <- Em, lookup_fmap, fmap_is_Some. split; [done|]. split; [|done].
  eexists. split; [exact H'|]. by rewrite fmap_delete.
Qed.

Lemma valueFor_spec w v m k : maps w v m -> valueFor unset v k w = (b ← m !! k; Some (b, w)).
Proof.
  intros H. destruct (indexOfKey_spec w v m k H) as (i & E & Hi). unfold valueFor. rewrite (hbind_some _ _ _ _ _ E).
  destruct (m !! k) as [b|]; [|by rewrite Hi]. destruct Hi as (Hi & Ev & _). by destruct (Z.leb_spec 0 i); [|lia].
Qed.
Lemma default_valueFor_spec w v m k d : maps w v m ->
  default_valueFor unset d v k w = Some (default d (m !! k), w).
Proof.
  intros H. destruct (indexOfKey_spec w v m k H) as (i & E & Hi). unfold default_valueFor. rewrite (hbind_some _ _ _ _ _ E).
  destruct (m !! k) as [b|]; [|by rewrite Hi]. destruct Hi as (Hi & Ev & _). by destruct (Z.leb_spec 0 i); [|lia].
Qed.

(** ** Runs *)

Inductive kop :=
  | K_add (key : Z) (value : B)
  | K_replaceValueFor (key : Z) (value : B)
  | K_removeItem (key : Z)
  | K_editValueFor (key : Z) (f : B -> B).

Definition run_kop (v : V) (o : kop) : stM W V :=
  match o with
  | K_add k b => let! (_, v) := add v k b in hret v
  | K_replaceValueFor k b => let! (_, v) := replaceValueFor v k b in hret v
  | K_removeItem k => let! (_, v) := removeItem unset v k in hret v
  | K_editValueFor k f => editValueFor unset v k f
  end.
Fixpoint run_kops (os : list kop) (v : V) : stM W V :=
  match os with [] => hret v | o :: os => let! v := run_kop v o in run_kops os v end.

Definition spec_kop (m : gmap Z B) (o : kop) : gmap Z B :=
  match o with
  | K_add k b | K_replaceValueFor k b => <[k := b]> m
  | K_removeItem k => delete k m
  | K_editValueFor k f => alter f k m
  end.
(** A value that is edited must be there. *)
Fixpoint kops_ok (os : list kop) m : Prop :=
  match os with
  | [] => True
  | o :: os => match o with K_editValueFor k _ => is_Some (m !! k) | _ => True end /\ kops_ok os (spec_kop m o)
  end.

Lemma run_kop_spec w v m o : maps w v m -> kops_ok [o] m ->
  exists v' w', run_kop v o w = Some (v', w') /\ maps w' v' (spec_kop m o) /\ frame w w'.
Proof.
  intros H [Ho _]. destruct o as [k b|k b|k|k f]; cbn [run_kop spec_kop].
  - destruct (keyed_add_spec w v m k b H) as (i & v' & w' & E & _ & H' & F). exists v', w'. by rewrite (hbind_some _ _ _ _ _ E).
  - destruct (keyed_remove_spec w v m k b H) as (i & v1 & w1 & E & _ & H1 & F1).
    destruct (keyed_add_spec w1 v1 _ k b H1) as (i2 & v' & w' & E2 & _ & H' & F2). exists v', w'.
    unfold replaceValueFor, hbind. rewrite E. cbn [mbind option_bind]. unfold add in E2. rewrite E2. cbn [mbind option_bind].
    split; [done|]. rewrite insert_delete_eq in H'. split; [done|]. by apply (frame_trans w w1 w').
  - destruct (keyed_remove_spec w v m k unset H) as (i & v' & w' & E & _ & H' & F). exists v', w'.
    unfold removeItem. by rewrite (hbind_some _ _ _ _ _ E).
  - destruct Ho as [b Eb]. destruct (indexOfKey_spec w v m k H) as (i & E & Hi). rewrite Eb in Hi.
    destruct Hi as (Hi & _ & _ & He). destruct (He f) as (v' & w' & E' & H' & F). exists v', w'.
    unfold editValueFor. rewrite (hbind_some _ _ _ _ _ E). destruct (Z.leb_spec 0 i); [|lia]. split; [done|]. split; [|done].
    replace (alter f k m) with (<[k := f b]> m); [done|]. apply map_eq. intros j. destruct (decide (k = j)) as [<-|Hj].
    + by rewrite lookup_insert_eq, lookup_alter_eq, Eb.
    + by rewrite lookup_insert_ne, lookup_alter_ne.
Qed.

(** C13: A keyed vector over any sequence is a finite map: from any state that stands
    for a map, every run of additions, replacements, removals and edits ends,
    in a state that stands for the map the same updates give; looking a key up
    finds its value, and only then; nothing else in the world changes. *)
Theorem keyed_vector_is_map os w v m : maps w v m -> kops_ok os m ->
  exists v' w', run_kops os v w = Some (v', w') /\ maps w' v' (foldl spec_kop m os) /\ frame w w' /\
    forall k, valueFor unset v' k w' = (b ← foldl spec_kop m os !! k; Some (b, w')).
Proof.
  revert w v m. induction os as [|o os IH]; intros w v m H Hok; cbn [run_kops foldl].
  - exists v, w. split; [done|]. split; [done|]. split; [apply frame_refl|]. intros k. by apply valueFor_spec.
  - destruct Hok as [Ho Hok]. destruct (run_kop_spec w v m o H) as (v1 & w1 & E & H1 & F1); [by split|].
    rewrite (hbind_some _ _ _ _ _ E). destruct (IH w1 v1 _ H1 Hok) as (v' & w' & E' & H' & F' & L).
    exists v', w'. split; [done|]. split; [done|]. split; [by apply (frame_trans w w1 w')|done].
Qed.

Lemma maps_empty w v : repr w v [] -> maps w v ∅.
Proof.
  intros R. exists ∅. split; [|apply fmap_empty]. exists []. split; [done|]. split; [constructor|done].
Qed.
End Spec.
Arguments K_add {B}.
Arguments K_replaceValueFor {B}.
Arguments K_removeItem {B}.
Arguments K_editValueFor {B}.
End KeyedVector.

(** On copy-on-write vectors of a heap. *)
Definition keyed_run : list (KeyedVector.kop (B := Z)) :=
  [KeyedVector.K_add 5 50; KeyedVector.K_add 2 20; KeyedVector.K_add 9 90; KeyedVector.K_replaceValueFor 2 21;
   KeyedVector.K_removeItem 9; KeyedVector.K_editValueFor 5 (Z.add 1); KeyedVector.K_add 7 70].
Lemma keyed_vector_is_map_witness :
  exists v h, KeyedVector.run_kops (Ops := vector_seq false false None) 0 keyed_run empty_vec empty_heap = Some (v, h) /\
    holds h v [(2, 21); (5, 51); (7, 70)] /\ KeyedVector.valueFor (Ops := vector_seq false false None) 0 v 5 h = Some (51, h).
Proof.
  destruct (KeyedVector.keyed_vector_is_map (Laws := vector_seq_laws false false None []) 0 keyed_run empty_heap empty_vec ∅
    (KeyedVector.maps_empty _ _ vector_repr_empty)) as (v & h & E & _ & _ & L).
  - repeat split; try exact I. vm_compute. by eexists.
  - exists v, h. split; [exact E|]. split; [|exact (L 5)].
    vm_compute in E. injection E as <- <-. do 2 eexists. split; reflexivity.
Defined.
