(* ===== verification/Tokenizer.v ===== *)
(** * Tokens

    Models swrender/Tokenizer.cpp and swrender/TokenManager.cpp, which hand out
    the names of textures and buffer objects: the tokens in use are kept as a
    sorted vector of maximal runs.  The runs refine a set of tokens; an acquired
    token is the smallest that is free. *)

From S2P Require Import Prelude SharedBuffer Vector VectorSpec Sequence.
From stdpp Require Import base gmap sorting.

#[local] Set Warnings "-clear-no-such-hyp".
#[local] Open Scope Z_scope.
#[local] Open Scope state_scope.

Module Tokenizer.
Record run_t := mk_run { first : Z; length : Z }.
#[export] Instance eta_run : Eta run_t := fun r => mk_run (first r) (length r).

Section Operations.
  Context {W V : Type} `{Ops : SeqOps W V run_t}.
  Implicit Types (mRanges : V).

Definition compare_token (token : Z) (curr : run_t) : Z :=
  if token <? first curr then 1 else if u32 (first curr + length curr) <=? token then -1 else 0.
Definition indexOrderOf mRanges (token : Z) : stM W (Z * Z) := search mRanges (compare_token token).

(** The three writes of [_insertTokenAt] through references into the vector. *)
Definition extend_previous mRanges (token : Z) (index c : nat) : stM W (Z * V) :=
  let! mRanges := seq_edit mRanges (index - 1) (fun p => p <| length := u32 (length p + 1) |>) in
  if (index <? c)%nat then
    let! n := seq_get mRanges index in
    if u32 (token + 1) =? first n then
      let! mRanges := seq_edit mRanges (index - 1) (fun p => p <| length := u32 (length p + length n) |>) in
      let! (_, mRanges) := seq_remove mRanges index 1 in hret (Z.of_nat index, mRanges)
    else hret (Z.of_nat index, mRanges)
  else hret (Z.of_nat index, mRanges).

Definition insert_before_next mRanges (token : Z) (index c : nat) : stM W (Z * V) :=
  let insert mRanges := seq_insert mRanges (mk_run token 1) index in
  if (index <? c)%nat then
    let! mRanges := seq_edit mRanges index (fun n => n) in
    let! n := seq_get mRanges index in
    if u32 (token + 1) =? first n then
      let! mRanges := seq_edit mRanges index (fun n => mk_run (u32 (first n - 1)) (u32 (length n + 1))) in
      hret (Z.of_nat index, mRanges)
    else insert mRanges
  else insert mRanges.

Definition insertTokenAt mRanges (token : Z) (index : nat) : stM W (Z * V) :=
  let c := seq_size mRanges in
  if (1 <=? index)%nat then
    let! mRanges := seq_edit mRanges (index - 1) (fun p => p) in
    let! p := seq_get mRanges (index - 1) in
    if u32 (first p + length p) =? token then extend_previous mRanges token index c
    else insert_before_next mRanges token index c
  else insert_before_next mRanges token index c.

Definition acquire mRanges : stM W (Z * V) :=
  let fresh := let! (_, mRanges) := insertTokenAt mRanges 0 0 in hret (0, mRanges) in
  if (seq_size mRanges =? 0)%nat then fresh
  else
    let! run := seq_get mRanges 0 in
    if negb (first run =? 0) then fresh
    else
      let token := u32 (first run + length run) in
      let! (_, mRanges) := insertTokenAt mRanges token 1 in hret (token, mRanges).

Definition isAcquired mRanges (token : Z) : stM W bool :=
  let! (i, _) := indexOrderOf mRanges token in hret (0 <=? i).

Definition reserve mRanges (token : Z) : stM W (Z * V) :=
  let! (i, o) := indexOrderOf mRanges token in
  if 0 <=? i then hret (BAD_VALUE, mRanges)
  else
    let! (err, mRanges) := insertTokenAt mRanges token (Z.to_nat o) in
    hret (if err <? 0 then err else NO_ERROR, mRanges).

(** Take [token] out of the run [i]. *)
Definition release_from mRanges (token : Z) (i : nat) : stM W V :=
  let! mRanges := seq_edit mRanges i (fun run => run) in
  let! run := seq_get mRanges i in
  if (token =? first run) || (token =? u32 (first run + length run - 1)) then
    let! mRanges := seq_edit mRanges i (fun run =>
      mk_run (if token =? first run then u32 (first run + 1) else first run) (u32 (length run - 1))) in
    let! run := seq_get mRanges i in
    if length run =? 0 then let! (_, mRanges) := seq_remove mRanges i 1 in hret mRanges else hret mRanges
  else
    let new_first := u32 (token + 1) in
    let new_run := mk_run new_first (u32 (first run + length run - new_first)) in
    let! mRanges := seq_edit mRanges i (fun run => run <| length := u32 (token - first run) |>) in
    let! (_, mRanges) := seq_insert mRanges new_run (i + 1) in hret mRanges.

Definition release mRanges (token : Z) : stM W (Z * V) :=
  let! (i, _) := indexOrderOf mRanges token in
  if 0 <=? i then
    let! run := seq_get mRanges (Z.to_nat i) in
    if (first run <=? token) && (token <? u32 (first run + length run)) then
      let! mRanges := release_from mRanges token (Z.to_nat i) in hret (NO_ERROR, mRanges)
    else hret (NAME_NOT_FOUND, mRanges)
  else hret (NAME_NOT_FOUND, mRanges).
End Operations.

(** ** The set of tokens the runs stand for *)

Definition fin (r : run_t) : Z := first r + length r.
Definition run_ok (r : run_t) : Prop := 0 <= first r /\ 0 < length r /\ fin r < 2 ^ 32.
Definition runs_ok (l : list run_t) : Prop := Forall run_ok l /\ StronglySorted (fun a b => fin a < first b) l.
Definition covers (l : list run_t) (t : Z) : Prop := Exists (fun r => first r <= t < fin r) l.

Lemma runs_ok_app l1 l2 : runs_ok (l1 ++ l2) <->
  runs_ok l1 /\ runs_ok l2 /\ forall a b, a ∈ l1 -> b ∈ l2 -> fin a < first b.
Proof. unfold runs_ok. rewrite Forall_app, StronglySorted_app_iff. tauto. Qed.
Lemma runs_ok_cons r l : runs_ok (r :: l) <-> run_ok r /\ runs_ok l /\ forall b, b ∈ l -> fin r < first b.
Proof. unfold runs_ok. rewrite Forall_cons, StronglySorted_cons_iff. tauto. Qed.
Lemma runs_ok_nil : runs_ok [].
Proof. by split; constructor. Qed.
Lemma run_ok_in l r : runs_ok l -> r ∈ l -> run_ok r.
Proof. intros [F _]. rewrite Forall_forall in F. apply F. Qed.

Lemma covers_app l1 l2 t : covers (l1 ++ l2) t <-> covers l1 t \/ covers l2 t.
Proof. apply Exists_app. Qed.
Lemma covers_cons r l t : covers (r :: l) t <-> first r <= t < fin r \/ covers l t.
Proof. apply Exists_cons. Qed.
Lemma covers_nil t : covers [] t <-> False.
Proof. apply Exists_nil. Qed.
Lemma covers_in l t : covers l t <-> exists r, r ∈ l /\ first r <= t < fin r.
Proof. apply Exists_exists. Qed.

Ltac runs := rewrite ?runs_ok_app, ?runs_ok_cons in *.

Section Spec.
  Context {W V : Type} `{Ops : SeqOps W V run_t} {repr other : W -> V -> list run_t -> Prop} {frame : W -> W -> Prop}.
  Context `{Laws : !SeqLaws Ops repr other frame}.

(** Editing and reading the run between two parts of the vector. *)
Lemma edit_middle w v l1 r l2 f : repr w v (l1 ++ r :: l2) ->
  exists v' w', seq_edit v (List.length l1) f w = Some (v', w') /\ repr w' v' (l1 ++ f r :: l2) /\ frame w w'.
Proof.
  intros R. destruct (repr_edit w v _ (List.length l1) r f R) as (v' & w' & E & R' & F); [by apply list_lookup_middle|].
  exists v', w'. by rewrite insert_app_r_alt, Nat.sub_diag in R' by done.
Qed.
Lemma get_middle w v l1 r l2 : repr w v (l1 ++ r :: l2) -> seq_get v (List.length l1) w = Some (r, w).
Proof. intros R. apply (repr_get w v _ _ r R). by apply list_lookup_middle. Qed.
Lemma remove_middle w v l1 r l2 : repr w v (l1 ++ r :: l2) ->
  exists v' w', seq_remove v (List.length l1) 1 w = Some ((Z.of_nat (List.length l1), v'), w') /\ repr w' v' (l1 ++ l2) /\ frame w w'.
Proof.
  intros R. destruct (repr_remove w v _ (List.length l1) 1 R) as (v' & w' & E & R' & F); [rewrite length_app; cbn; lia|].
  exists v', w'. rewrite take_app_length in R'.
  by replace (drop (List.length l1 + 1) (l1 ++ r :: l2)) with l2 in R' by (rewrite <- drop_drop, drop_app_length; reflexivity).
Qed.
Lemma insert_middle w v l1 r l2 : repr w v (l1 ++ l2) ->
  exists v' w', seq_insert v r (List.length l1) w = Some ((Z.of_nat (List.length l1), v'), w') /\ repr w' v' (l1 ++ r :: l2) /\ frame w w'.
Proof.
  intros R. destruct (repr_insert w v _ r (List.length l1) R) as (v' & w' & E & R' & F); [rewrite length_app; lia|].
  exists v', w'. by rewrite take_app_length, drop_app_length in R'.
Qed.

Lemma u32_fin r : run_ok r -> u32 (first r + length r) = fin r.
Proof. intros (? & ? & ?). unfold fin in *. apply u32_id. unfold is_u32. lia. Qed.

(** What adding a token to the runs [l] must give. *)
Definition adds (t : Z) (l l' : list run_t) : Prop := runs_ok l' /\ forall x, covers l' x <-> x = t \/ covers l x.

Lemma insert_before_next_spec w v l1 l2 t : repr w v (l1 ++ l2) -> runs_ok (l1 ++ l2) -> 0 <= t < 2 ^ 32 - 1 ->
  (forall a, a ∈ l1 -> fin a < t) -> (forall b, b ∈ l2 -> t < first b) ->
  exists v' w' l', insert_before_next v t (List.length l1) (List.length (l1 ++ l2)) w = Some ((Z.of_nat (List.length l1), v'), w') /\
    repr w' v' l' /\ adds t (l1 ++ l2) l' /\ frame w w'.
Proof.
  intros R G Ht H1 H2. unfold insert_before_next.
  assert (forall w0 v0, repr w0 v0 (l1 ++ l2) -> (forall b, b ∈ l2 -> t + 1 < first b) -> frame w w0 ->
    exists v' w' l', seq_insert v0 (mk_run t 1) (List.length l1) w0 = Some ((Z.of_nat (List.length l1), v'), w') /\
      repr w' v' l' /\ adds t (l1 ++ l2) l' /\ frame w w') as HI.
  { intros w0 v0 R0 Hn F0. destruct (insert_middle w0 v0 l1 (mk_run t 1) l2 R0) as (v' & w' & E & R' & F).
    exists v', w', (l1 ++ mk_run t 1 :: l2). split; [done|]. split; [done|]. split; [|by apply (frame_trans w w0 w')]. split.
    - runs. destruct G as (G1 & G2 & G12). split_and!; try done; [unfold run_ok, fin; cbn; lia|].
      intros a b Ha Hb. apply elem_of_cons in Hb as [->|Hb]; [by apply H1|by apply G12].
    - intros x. rewrite !covers_app, covers_cons. unfold fin. cbn [first length].
      assert (t <= x < t + 1 <-> x = t) as -> by lia. tauto. }
  rewrite length_app. destruct l2 as [|n l2].
  { destruct (Nat.ltb_spec (List.length l1) (List.length l1 + List.length (@nil run_t))) as [Hl|_]; [cbn in Hl; lia|].
    apply (HI w v R); [intros b Hb; by apply elem_of_nil in Hb|apply frame_refl]. }
  destruct (Nat.ltb_spec (List.length l1) (List.length l1 + List.length (n :: l2))) as [_|Hl]; [|cbn in Hl; lia].
  destruct (edit_middle w v l1 n l2 (fun n => n) R) as (v1 & w1 & E1 & R1 & F1).
  rewrite (hbind_some _ _ _ _ _ E1), (hbind_some _ _ _ _ _ (get_middle w1 v1 l1 n l2 R1)).
  pose proof (H2 n ltac:(by left)) as Hn. rewrite u32_id by (unfold is_u32; lia).
  destruct (Z.eqb_spec (t + 1) (first n)) as [E|E].
  2: { apply (HI w1 v1 R1); [|done]. intros b Hb. runs. apply elem_of_cons in Hb as [->|Hb]; [lia|].
       destruct G as (_ & (Gn & _ & Gnl) & _). specialize (Gnl b Hb). unfold run_ok, fin in *. lia. }
  destruct (edit_middle w1 v1 l1 n l2 (fun n => mk_run (u32 (first n - 1)) (u32 (length n + 1))) R1) as (v2 & w2 & E2 & R2 & F2).
  rewrite (hbind_some _ _ _ _ _ E2). exists v2, w2. eexists. split; [done|]. split; [exact R2|].
  split; [|by apply (frame_trans w w1 w2)].
  runs. destruct G as (G1 & (Gn & G2 & Gnl) & G12). unfold run_ok, fin in *.
  rewrite !u32_id by (unfold is_u32; lia). split.
  - runs. unfold run_ok, fin. cbn [first length]. split_and!; try done; try lia.
    + intros b Hb. specialize (Gnl b Hb). lia.
    + intros a b Ha Hb. apply elem_of_cons in Hb as [->|Hb]; cbn [first]; [pose proof (H1 a Ha); lia|by apply G12; [|right]].
  - intros x. rewrite !covers_app, !covers_cons. unfold fin. cbn [first length].
    assert (first n - 1 <= x < first n - 1 + (length n + 1) <-> x = t \/ first n <= x < first n + length n) as -> by lia. tauto.
Qed.

Lemma extend_previous_spec w v l0 p l2 t : repr w v (l0 ++ p :: l2) -> runs_ok (l0 ++ p :: l2) -> 0 <= t < 2 ^ 32 - 1 ->
  fin p = t -> (forall b, b ∈ l2 -> t < first b) ->
  exists v' w' l', extend_previous v t (List.length (l0 ++ [p])) (List.length (l0 ++ p :: l2)) w =
      Some ((Z.of_nat (List.length (l0 ++ [p])), v'), w') /\
    repr w' v' l' /\ adds t (l0 ++ p :: l2) l' /\ frame w w'.
Proof.
  intros R G Ht Ep H2. unfold extend_previous. rewrite !length_app. cbn [Datatypes.length].
  replace (List.length l0 + 1 - 1)%nat with (List.length l0) by lia.
  destruct (edit_middle w v l0 p l2 (fun p => p <| length := u32 (length p + 1) |>) R) as (v1 & w1 & E1 & R1 & F1).
  rewrite (hbind_some _ _ _ _ _ E1). set (p1 := p <| length := _ |>) in *.
  pose proof G as G'. runs. destruct G' as (G0 & (Gp & G2 & Gpl) & G01).
  assert (p1 = mk_run (first p) (length p + 1)) as Ep1.
  { unfold p1. cbn. f_equal. unfold run_ok, fin in *. apply u32_id. unfold is_u32. lia. }
  assert ((forall b, b ∈ l2 -> t + 1 < first b) -> adds t (l0 ++ p :: l2) (l0 ++ p1 :: l2)) as HA.
  { intros Hn. rewrite Ep1. unfold run_ok, fin in *. split.
    - runs. unfold run_ok, fin. cbn [first length]. split_and!; try done; try lia.
      + intros b Hb. specialize (Hn b Hb). lia.
      + intros a b Ha Hb. apply elem_of_cons in Hb as [->|Hb]; cbn [first]; [by apply G01; [|left]|by apply G01; [|right]].
    - intros x. rewrite !covers_app, !covers_cons. unfold fin. cbn [first length].
      assert (first p <= x < first p + (length p + 1) <-> x = t \/ first p <= x < first p + length p) as -> by lia. tauto. }
  destruct l2 as [|n l2]; cbn [Datatypes.length].
  { destruct (Nat.ltb_spec (List.length l0 + 1) (List.length l0 + 1)); [lia|].
    exists v1, w1, (l0 ++ [p1]). split; [done|]. split; [done|]. split; [|done]. apply HA. intros b Hb. by apply elem_of_nil in Hb. }
  destruct (Nat.ltb_spec (List.length l0 + 1) (List.length l0 + S (S (List.length l2)))); [|lia].
  rewrite runs_ok_cons in G2. pose proof R1 as R1'. rewrite cons_middle, app_assoc in R1'.
  pose proof (get_middle w1 v1 (l0 ++ [p1]) n l2 R1') as EG. rewrite length_app in EG. cbn [Datatypes.length] in EG.
  rewrite (hbind_some _ _ _ _ _ EG). rewrite u32_id by (unfold is_u32; lia).
  destruct (Z.eqb_spec (t + 1) (first n)) as [En|En].
  2: { exists v1, w1, (l0 ++ p1 :: n :: l2). split; [done|]. split; [done|]. split; [|done]. apply HA.
       intros b Hb. pose proof (H2 n ltac:(by left)). apply elem_of_cons in Hb as [->|Hb]; [lia|].
       destruct G2 as (Gn & _ & Gnl). specialize (Gnl b Hb). unfold run_ok, fin in *. lia. }
  destruct (edit_middle w1 v1 l0 p1 (n :: l2) (fun p => p <| length := u32 (length p + length n) |>) R1) as (v2 & w2 & E2 & R2 & F2).
  rewrite (hbind_some _ _ _ _ _ E2). set (p2 := p1 <| length := _ |>) in *.
  assert (p2 = mk_run (first p) (length p + 1 + length n)) as Ep2.
  { unfold p2. rewrite Ep1. cbn. f_equal. destruct G2 as (Gn & _). unfold run_ok, fin in *. apply u32_id. unfold is_u32. lia. }
  rewrite cons_middle, app_assoc in R2.
  destruct (remove_middle w2 v2 (l0 ++ [p2]) n l2 R2) as (v3 & w3 & E3 & R3 & F3).
  rewrite length_app in E3. cbn [Datatypes.length] in E3. rewrite (hbind_some _ _ _ _ _ E3).
  rewrite <- app_assoc in R3. cbn [app] in R3. exists v3, w3, (l0 ++ p2 :: l2). split; [done|]. split; [done|].
  split; [|by apply (frame_trans w w1 w3); [|apply (frame_trans w1 w2 w3)]].
  rewrite Ep2. destruct G2 as (Gn & G2 & Gnl). unfold run_ok, fin in *. split.
  - runs. unfold run_ok, fin. cbn [first length]. split_and!; try done; try lia.
    + intros b Hb. specialize (Gnl b Hb). lia.
    + intros a b Ha Hb. apply elem_of_cons in Hb as [->|Hb]; cbn [first]; [by apply G01; [|left]|by apply G01; [|right; right]].
  - intros x. rewrite !covers_app, !covers_cons. unfold fin. cbn [first length].
    assert (first p <= x < first p + (length p + 1 + length n) <->
      x = t \/ first p <= x < first p + length p \/ first n <= x < first n + length n) as -> by lia. tauto.
Qed.

Lemma insertTokenAt_spec w v l1 l2 t : repr w v (l1 ++ l2) -> runs_ok (l1 ++ l2) -> 0 <= t < 2 ^ 32 - 1 ->
  (forall a, a ∈ l1 -> fin a <= t) -> (forall b, b ∈ l2 -> t < first b) ->
  exists v' w' l', insertTokenAt v t (List.length l1) w = Some ((Z.of_nat (List.length l1), v'), w') /\
    repr w' v' l' /\ adds t (l1 ++ l2) l' /\ frame w w'.
Proof.
  intros R G Ht H1 H2. unfold insertTokenAt. rewrite (repr_size w v _ R).
  destruct l1 as [|p l0 _] using rev_ind.
  { apply insert_before_next_spec; try done. intros a Ha. by apply elem_of_nil in Ha. }
  rewrite <- app_assoc in R, G. cbn [app] in R, G. rewrite length_app. cbn [Datatypes.length].
  destruct (Nat.leb_spec 1 (List.length l0 + 1)); [|lia]. replace (List.length l0 + 1 - 1)%nat with (List.length l0) by lia.
  destruct (edit_middle w v l0 p l2 (fun p => p) R) as (v1 & w1 & E1 & R1 & F1).
  rewrite (hbind_some _ _ _ _ _ E1), (hbind_some _ _ _ _ _ (get_middle w1 v1 l0 p l2 R1)).
  pose proof (H1 p ltac:(apply elem_of_app; right; by left)) as Hp.
  pose proof G as Gp. runs. destruct Gp as (G0 & (Gp & G2 & Gpl) & G01).
  rewrite u32_fin by done. destruct (Z.eqb_spec (fin p) t) as [Et|Et].
  2: { destruct (insert_before_next_spec w1 v1 (l0 ++ [p]) l2 t) as (v' & w' & l' & E & R' & A & F); try done.
       - by rewrite <- app_assoc.
       - rewrite <- app_assoc. cbn [app]. by runs.
       - intros a Ha. apply elem_of_app in Ha as [Ha|Ha].
         + pose proof (G01 a p Ha ltac:(by left)). unfold run_ok, fin in *. lia.
         + apply list_elem_of_singleton in Ha as ->. lia.
       - exists v', w', l'. rewrite <- app_assoc in A. rewrite <- (app_assoc l0) in E |- *. rewrite length_app in E. cbn [Datatypes.length app] in *.
         split; [exact E|]. split; [done|]. split; [done|]. by apply (frame_trans w w1 w'). }
  destruct (extend_previous_spec w1 v1 l0 p l2 t R1) as (v' & w' & l' & E & R' & A & F); [by runs|done..|].
  exists v', w', l'. rewrite length_app in E. cbn [Datatypes.length] in E. rewrite <- app_assoc. cbn [app].
  split; [|split; [done|]; split; [done|]; by apply (frame_trans w w1 w')].
  by rewrite <- E, !length_app.
Qed.

(** ** The operations against the set *)

(** The runs [v] stand for the tokens [X]. *)
Definition tracks (w : W) (v : V) (X : gset Z) : Prop :=
  exists l, repr w v l /\ runs_ok l /\ forall t, covers l t <-> t ∈ X.

Lemma tracks_adds w v l l' t X : repr w v l' -> adds t l l' -> (forall x, covers l x <-> x ∈ X) -> tracks w v ({[t]} ∪ X).
Proof. intros R [G C] E. exists l'. split; [done|]. split; [done|]. intros x. by rewrite C, E, elem_of_union, elem_of_singleton. Qed.

Lemma tracks_range w v X t : tracks w v X -> t ∈ X -> 0 <= t < 2 ^ 32 - 1.
Proof.
  intros (l & _ & G & E) Ht. apply E, covers_in in Ht as (r & Hr & Hc).
  pose proof (run_ok_in l r G Hr). unfold run_ok, fin in *. lia.
Qed.

(** The comparison of the search, on proper runs. *)
Lemma compare_token_spec t r : run_ok r ->
  (t < first r /\ compare_token t r = 1) \/ (fin r <= t /\ compare_token t r = -1) \/ (first r <= t < fin r /\ compare_token t r = 0).
Proof.
  intros G. unfold compare_token. rewrite (u32_fin r G). unfold run_ok, fin in *.
  destruct (Z.ltb_spec t (first r)); [lia|]. destruct (Z.leb_spec (first r + length r) t); lia.
Qed.
Lemma runs_arranged l t : runs_ok l -> arranged (compare_token t) l.
Proof.
  intros G i j x y Hij Hx Hy. rewrite <- (take_drop_middle l j y Hy) in G. runs. destruct G as (G1 & (Gy & _) & G12).
  assert (x ∈ take j l) as Hxj by (apply (list_elem_of_lookup_2 _ i); by rewrite lookup_take_lt).
  pose proof (run_ok_in _ x G1 Hxj). pose proof (G12 x y Hxj ltac:(by left)).
  destruct (compare_token_spec t x), (compare_token_spec t y); try done; unfold run_ok, fin in *; lia.
Qed.

Lemma run_order_spec w v l t : repr w v l -> runs_ok l ->
  (exists l1 r l2, l = l1 ++ r :: l2 /\ first r <= t < fin r /\
     indexOrderOf v t w = Some ((Z.of_nat (List.length l1), Z.of_nat (List.length l1)), w)) \/
  (exists l1 l2, l = l1 ++ l2 /\ ~ covers l t /\ (forall a, a ∈ l1 -> fin a <= t) /\ (forall b, b ∈ l2 -> t < first b) /\
     indexOrderOf v t w = Some ((NAME_NOT_FOUND, Z.of_nat (List.length l1)), w)).
Proof.
  intros R G. unfold indexOrderOf. destruct (search_spec w v l _ R (runs_arranged l t G)) as (r & -> & Hr).
  destruct Hr as [l1 x l2 -> E _ _|l1 l2 -> F1 F2]; [left|right].
  - exists l1, x, l2. split; [done|]. split; [|done]. runs. destruct G as (_ & (Gx & _) & _).
    destruct (compare_token_spec t x Gx); lia.
  - exists l1, l2. split; [done|]. rewrite Forall_forall in F1, F2.
    assert (forall a, a ∈ l1 -> fin a <= t) as H1.
    { intros a Ha. specialize (F1 a Ha). runs. destruct G as (G1 & _). destruct (compare_token_spec t a (run_ok_in _ a G1 Ha)); lia. }
    assert (forall b, b ∈ l2 -> t < first b) as H2.
    { intros b Hb. specialize (F2 b Hb). runs. destruct G as (_ & G2 & _). destruct (compare_token_spec t b (run_ok_in _ b G2 Hb)); lia. }
    split; [|done]. rewrite covers_in. intros (r & Hr & Hc). apply elem_of_app in Hr as [Hr|Hr]; [specialize (H1 r Hr)|specialize (H2 r Hr)]; lia.
Qed.

Lemma isAcquired_spec w v X t : tracks w v X -> isAcquired v t w = Some (bool_decide (t ∈ X), w).
Proof.
  intros (l & R & G & E). unfold isAcquired.
  destruct (run_order_spec w v l t R G) as [(l1 & r & l2 & -> & Hc & Es)|(l1 & l2 & -> & Hn & _ & _ & Es)];
    rewrite (hbind_some _ _ _ _ _ Es); unfold hret.
  - rewrite bool_decide_true by (apply E; rewrite covers_app, covers_cons; tauto).
    by destruct (Z.leb_spec 0 (Z.of_nat (List.length l1))); [|lia].
  - by rewrite bool_decide_false by (by rewrite <- E).
Qed.

Lemma reserve_spec w v X t : tracks w v X -> 0 <= t < 2 ^ 32 - 1 ->
  (t ∈ X /\ reserve v t w = Some ((BAD_VALUE, v), w)) \/
  ((t ∉ X) /\ exists v' w', reserve v t w = Some ((NO_ERROR, v'), w') /\ tracks w' v' ({[t]} ∪ X) /\ frame w w').
Proof.
  intros (l & R & G & E) Ht. unfold reserve.
  destruct (run_order_spec w v l t R G) as [(l1 & r & l2 & -> & Hc & Es)|(l1 & l2 & -> & Hn & H1 & H2 & Es)];
    rewrite (hbind_some _ _ _ _ _ Es); [left|right].
  - split; [apply E; rewrite covers_app, covers_cons; tauto|]. by destruct (Z.leb_spec 0 (Z.of_nat (List.length l1))); [|lia].
  - split; [by rewrite <- E|]. cbn [Z.leb Z.compare NAME_NOT_FOUND]. rewrite Nat2Z.id.
    destruct (insertTokenAt_spec w v l1 l2 t R G Ht H1 H2) as (v' & w' & l' & EI & R' & A & F).
    exists v', w'. change (0 <=? NAME_NOT_FOUND) with false. cbv iota. rewrite (hbind_some _ _ _ _ _ EI).
    destruct (Z.ltb_spec (Z.of_nat (List.length l1)) 0); [lia|]. split; [done|]. split; [|done]. by eapply tracks_adds.
Qed.

(** The token returned is the smallest free one. *)
Lemma acquire_spec w v X : tracks w v X -> (exists f, 0 <= f < 2 ^ 32 - 1 /\ f ∉ X) ->
  exists t v' w', acquire v w = Some ((t, v'), w') /\ 0 <= t < 2 ^ 32 - 1 /\ (t ∉ X) /\ (forall u, 0 <= u < t -> u ∈ X) /\
    tracks w' v' ({[t]} ∪ X) /\ frame w w'.
Proof.
  intros (l & R & G & E) (f & Hf & Nf). unfold acquire. rewrite (repr_size w v l R).
  assert ((forall b, b ∈ l -> 0 < first b) -> exists t v' w',
    (let! (_, mRanges) := insertTokenAt v 0 0 in hret (0, mRanges)) w = Some ((t, v'), w') /\ 0 <= t < 2 ^ 32 - 1 /\ (t ∉ X) /\
    (forall u, 0 <= u < t -> u ∈ X) /\ tracks w' v' ({[t]} ∪ X) /\ frame w w') as HF.
  { intros H0. destruct (insertTokenAt_spec w v [] l 0 R G) as (v' & w' & l' & EI & R' & A & F); [lia| |done|].
    { intros a Ha. by apply elem_of_nil in Ha. }
    cbn [List.length] in EI. exists 0, v', w'. split; [by rewrite (hbind_some _ _ _ _ _ EI)|]. split; [lia|].
    split; [|split; [lia|split; [by apply (tracks_adds w' v' l l')|done]]].
    rewrite <- E, covers_in. intros (r & Hr & Hc). specialize (H0 r Hr). lia. }
  destruct l as [|r l]; [apply HF; intros b Hb; by apply elem_of_nil in Hb|]. cbn [List.length Nat.eqb].
  pose proof G as G'. runs. destruct G' as (Gr & Gl & Grl).
  rewrite (hbind_some _ _ _ _ _ (get_middle w v [] r l R)). destruct (Z.eqb_spec (first r) 0) as [Z0|Z0]; cbn [negb].
  2: { apply HF. intros b Hb. apply elem_of_cons in Hb as [->|Hb]; [|specialize (Grl b Hb)]; unfold run_ok, fin in *; lia. }
  rewrite (u32_fin r Gr).
  assert (fin r <= f) as Hrf.
  { destruct (Z.le_gt_cases (fin r) f); [done|]. destruct Nf. apply E. rewrite covers_cons. left. unfold run_ok, fin in *. lia. }
  destruct (insertTokenAt_spec w v [r] l (fin r) R) as (v' & w' & l' & EI & R' & A & F);
    [change (runs_ok (r :: l)); by runs|unfold run_ok, fin in *; lia|..].
  { intros a Ha. apply list_elem_of_singleton in Ha as ->. lia. }
  { done. }
  cbn [List.length] in EI. exists (fin r), v', w'. split; [by rewrite (hbind_some _ _ _ _ _ EI)|].
  split; [unfold run_ok, fin in *; lia|]. split; [|split; [|split; [by apply (tracks_adds w' v' (r :: l) l')|done]]].
  - rewrite <- E, covers_cons, covers_in. intros [Hc|(b & Hb & Hc)]; [lia|]. specialize (Grl b Hb). lia.
  - intros u Hu. apply E. rewrite covers_cons. left. lia.
Qed.

(** What taking a token out of the runs must give. *)
Definition drops (t : Z) (l l' : list run_t) : Prop := runs_ok l' /\ forall x, covers l' x <-> x <> t /\ covers l x.

(** Replacing one run by the runs [rs] inside it. *)
Lemma drops_middle t l1 r l2 rs : runs_ok (l1 ++ r :: l2) -> runs_ok rs ->
  (forall s, s ∈ rs -> first r <= first s /\ fin s <= fin r) -> first r <= t < fin r ->
  (forall x, covers rs x <-> x <> t /\ first r <= x < fin r) -> drops t (l1 ++ r :: l2) (l1 ++ rs ++ l2).
Proof.
  intros G Grs Hin Ht Hc. runs. destruct G as (G1 & (Gr & G2 & Grl) & G12). split.
  - runs. split_and!; try done.
    + intros a b Ha Hb. destruct (Hin a Ha). specialize (Grl b Hb). lia.
    + intros a b Ha Hb. apply elem_of_app in Hb as [Hb|Hb]; [|apply G12; [done|by right]].
      destruct (Hin b Hb). pose proof (G12 a r Ha ltac:(by left)). lia.
  - intros x. rewrite !covers_app, covers_cons, Hc.
    assert (covers l1 x -> x <> t) as N1.
    { rewrite covers_in. intros (a & Ha & Hx). pose proof (G12 a r Ha ltac:(by left)). unfold run_ok, fin in *. lia. }
    assert (covers l2 x -> x <> t) as N2.
    { rewrite covers_in. intros (b & Hb & Hx). specialize (Grl b Hb). lia. }
    tauto.
Qed.

Lemma release_from_spec w v l1 r l2 t : repr w v (l1 ++ r :: l2) -> runs_ok (l1 ++ r :: l2) -> first r <= t < fin r ->
  exists v' w' l', release_from v t (List.length l1) w = Some (v', w') /\ repr w' v' l' /\ drops t (l1 ++ r :: l2) l' /\ frame w w'.
Proof.
  intros R G Ht. unfold release_from.
  destruct (edit_middle w v l1 r l2 (fun r => r) R) as (v1 & w1 & E1 & R1 & F1).
  rewrite (hbind_some _ _ _ _ _ E1), (hbind_some _ _ _ _ _ (get_middle w1 v1 l1 r l2 R1)).
  assert (run_ok r) as Gr by (apply (run_ok_in _ r G), elem_of_app; right; by left).
  assert (u32 (first r + length r - 1) = fin r - 1) as -> by (unfold run_ok, fin in *; apply u32_id; unfold is_u32; lia).
  destruct ((t =? first r) || (t =? fin r - 1)) eqn:EB.
  { set (f := fun run : run_t => mk_run _ _).
    destruct (edit_middle w1 v1 l1 r l2 f R1) as (v2 & w2 & E2 & R2 & F2).
    rewrite (hbind_some _ _ _ _ _ E2), (hbind_some _ _ _ _ _ (get_middle w2 v2 l1 _ l2 R2)).
    assert (f r = mk_run (if t =? first r then first r + 1 else first r) (length r - 1)) as Ef.
    { unfold f, run_ok, fin in *. f_equal; [destruct (t =? first r); [|done]|]; apply u32_id; unfold is_u32; lia. }
    rewrite Ef in *. cbn [length]. destruct (Z.eqb_spec (length r - 1) 0) as [EZ|EZ].
    - destruct (remove_middle w2 v2 l1 _ l2 R2) as (v3 & w3 & E3 & R3 & F3). rewrite (hbind_some _ _ _ _ _ E3).
      exists v3, w3, (l1 ++ l2). split; [done|]. split; [done|].
      split; [|by apply (frame_trans w w1 w3); [|apply (frame_trans w1 w2 w3)]].
      apply (drops_middle t l1 r l2 [] G runs_ok_nil); [intros s Hs; by apply elem_of_nil in Hs|done|].
      intros x. rewrite covers_nil. unfold fin in *. lia.
    - exists v2, w2. eexists. split; [done|]. split; [exact R2|]. split; [|by apply (frame_trans w w1 w2)].
      apply (drops_middle t l1 r l2 [mk_run (if t =? first r then first r + 1 else first r) (length r - 1)] G); [| |done|].
      + rewrite runs_ok_cons. split; [|split; [apply runs_ok_nil|intros b Hb; by apply elem_of_nil in Hb]].
        unfold run_ok, fin in *. cbn [first length]. destruct (t =? first r); lia.
      + intros s Hs. apply list_elem_of_singleton in Hs as ->. unfold run_ok, fin in *. cbn [first length].
        destruct (t =? first r); lia.
      + intros x. rewrite covers_cons, covers_nil. unfold run_ok, fin in *. cbn [first length].
        destruct (Z.eqb_spec t (first r)); [lia|]. destruct (Z.eqb_spec t (first r + length r - 1)); [lia|done]. }
  apply orb_false_iff in EB as [Ef El]. apply Z.eqb_neq in Ef, El.
  destruct (edit_middle w1 v1 l1 r l2 (fun run => run <| length := u32 (t - first run) |>) R1) as (v2 & w2 & E2 & R2 & F2).
  rewrite (hbind_some _ _ _ _ _ E2). set (r1 := r <| length := _ |>) in *.
  assert (r1 = mk_run (first r) (t - first r)) as Er1.
  { unfold r1. cbn. f_equal. unfold run_ok, fin in *. apply u32_id. unfold is_u32. lia. }
  set (r2 := mk_run (u32 (t + 1)) _).
  assert (r2 = mk_run (t + 1) (fin r - (t + 1))) as Er2.
  { unfold r2. unfold run_ok, fin in *. rewrite !u32_id; (unfold is_u32; try rewrite !u32_id by (unfold is_u32; lia); lia) || done. }
  rewrite cons_middle, app_assoc in R2.
  destruct (insert_middle w2 v2 (l1 ++ [r1]) r2 l2 R2) as (v3 & w3 & E3 & R3 & F3).
  rewrite length_app in E3. cbn [Datatypes.length] in E3. rewrite (hbind_some _ _ _ _ _ E3).
  rewrite <- app_assoc in R3. exists v3, w3. eexists. split; [done|]. split; [exact R3|].
  split; [|by apply (frame_trans w w1 w3); [|apply (frame_trans w1 w2 w3)]].
  apply (drops_middle t l1 r l2 [r1; r2] G); rewrite ?Er1, ?Er2; try done.
  - rewrite !runs_ok_cons. unfold run_ok, fin in *. cbn [first length]. split; [lia|].
    split; [split; [lia|]; split; [apply runs_ok_nil|]; intros b Hb; by apply elem_of_nil in Hb|].
    intros b Hb. apply list_elem_of_singleton in Hb as ->. cbn [first]. lia.
  - intros s Hs. apply elem_of_cons in Hs as [->|Hs]; [|apply list_elem_of_singleton in Hs as ->];
      unfold run_ok, fin in *; cbn [first length]; lia.
  - intros x. rewrite !covers_cons, covers_nil. unfold run_ok, fin in *. cbn [first length]. lia.
Qed.

Lemma release_spec w v X t : tracks w v X ->
  (t ∈ X /\ exists v' w', release v t w = Some ((NO_ERROR, v'), w') /\ tracks w' v' (X ∖ {[t]}) /\ frame w w') \/
  ((t ∉ X) /\ release v t w = Some ((NAME_NOT_FOUND, v), w)).
Proof.
  intros (l & R & G & E). unfold release.
  destruct (run_order_spec w v l t R G) as [(l1 & r & l2 & -> & Hc & Es)|(l1 & l2 & -> & Hn & _ & _ & Es)];
    rewrite (hbind_some _ _ _ _ _ Es); [left|right; split; [by rewrite <- E|done]].
  split; [apply E; rewrite covers_app, covers_cons; tauto|].
  destruct (Z.leb_spec 0 (Z.of_nat (List.length l1))); [|lia]. rewrite Nat2Z.id.
  rewrite (hbind_some _ _ _ _ _ (get_middle w v l1 r l2 R)).
  rewrite u32_fin by (apply (run_ok_in _ r G), elem_of_app; right; by left).
  destruct (Z.leb_spec (first r) t), (Z.ltb_spec t (fin r)); try lia. cbn [andb].
  destruct (release_from_spec w v l1 r l2 t R G Hc) as (v' & w' & l' & EI & R' & [G' C'] & F).
  exists v', w'. rewrite (hbind_some _ _ _ _ _ EI). split; [done|]. split; [|done]. exists l'. split; [done|]. split; [done|].
  intros x. rewrite C', E, elem_of_difference, elem_of_singleton. tauto.
Qed.

(** ** Runs *)

Inductive top := T_acquire | T_reserve (token : Z) | T_release (token : Z) | T_isAcquired (token : Z).

Definition run_top (o : top) (v : V) : stM W (Z * V) :=
  match o with
  | T_acquire => acquire v
  | T_reserve t => reserve v t
  | T_release t => release v t
  | T_isAcquired t => let! b := isAcquired v t in hret (if b then 1 else 0, v)
  end.
Fixpoint run_tops (os : list top) (v : V) : stM W (list Z * V) :=
  match os with
  | [] => hret ([], v)
  | o :: os => let! (r, v) := run_top o v in let! (rs, v) := run_tops os v in hret (r :: rs, v)
  end.

(** The result [r] and the next set an operation on a set of tokens has. *)
Definition top_spec (o : top) (X : gset Z) (r : Z) (X' : gset Z) : Prop :=
  match o with
  | T_acquire => (r ∉ X) /\ 0 <= r /\ (forall u, 0 <= u < r -> u ∈ X) /\ X' = {[r]} ∪ X
  | T_reserve t => r = (if decide (t ∈ X) then BAD_VALUE else NO_ERROR) /\ X' = {[t]} ∪ X
  | T_release t => r = (if decide (t ∈ X) then NO_ERROR else NAME_NOT_FOUND) /\ X' = X ∖ {[t]}
  | T_isAcquired t => r = (if decide (t ∈ X) then 1 else 0) /\ X' = X
  end.
Fixpoint tops_spec (os : list top) (X : gset Z) (rs : list Z) (X' : gset Z) : Prop :=
  match os, rs with
  | [], [] => X' = X
  | o :: os, r :: rs => exists X1, top_spec o X r X1 /\ tops_spec os X1 rs X'
  | _, _ => False
  end.
Definition top_ok (o : top) : Prop := match o with T_reserve t => 0 <= t < 2 ^ 32 - 1 | _ => True end.

Lemma free_token (X : gset Z) (n : Z) : Z.of_nat (size X) < n -> exists f, 0 <= f < n /\ (f ∉ X).
Proof.
  intros Hn. destruct (decide (Exists (fun f : Z => f ∉ X) (seqZ 0 n))) as [H|H].
  - apply Exists_exists in H as (f & Hf & Nf). exists f. apply elem_of_seqZ in Hf. split; [lia|done].
  - exfalso. assert (list_to_set (seqZ 0 n) ⊆ X) as Hs.
    { intros f Hf. apply elem_of_list_to_set in Hf. destruct (decide (f ∈ X)) as [|N]; [done|]. destruct H. apply Exists_exists. by exists f. }
    apply subseteq_size in Hs. rewrite size_list_to_set in Hs by apply NoDup_seqZ. rewrite length_seqZ in Hs. lia.
Qed.

Lemma run_top_spec o w v X : tracks w v X -> top_ok o -> Z.of_nat (size X) < 2 ^ 32 - 1 ->
  exists r v' w' X', run_top o v w = Some ((r, v'), w') /\ tracks w' v' X' /\ top_spec o X r X' /\ frame w w' /\
    (size X' <= size X + 1)%nat.
Proof.
  intros H Hok Hn.
  assert (forall t, size (({[t]} : gset Z) ∪ X) <= size X + 1)%nat as Hs.
  { intros t. rewrite size_union_alt, size_singleton. pose proof (subseteq_size (X ∖ {[t]}) X ltac:(by apply subseteq_difference_l)). lia. }
  destruct o as [|t|t|t]; cbn [run_top top_spec].
  - destruct (acquire_spec w v X H (free_token X _ Hn)) as (t & v' & w' & E & ? & ? & ? & H' & F).
    exists t, v', w', ({[t]} ∪ X). split_and!; try done; lia.
  - destruct (reserve_spec w v X t H Hok) as [[Ht E]|(Ht & v' & w' & E & H' & F)].
    + exists BAD_VALUE, v, w, X. rewrite decide_True by done. split_and!; try done; [set_solver|apply frame_refl|lia].
    + exists NO_ERROR, v', w', ({[t]} ∪ X). rewrite decide_False by done. by split_and!.
  - destruct (release_spec w v X t H) as [(Ht & v' & w' & E & H' & F)|[Ht E]].
    + exists NO_ERROR, v', w', (X ∖ {[t]}). rewrite decide_True by done. split_and!; try done.
      pose proof (subseteq_size (X ∖ {[t]}) X ltac:(by apply subseteq_difference_l)). lia.
    + exists NAME_NOT_FOUND, v, w, X. rewrite decide_False by done. split_and!; try done; [set_solver|apply frame_refl|lia].
  - exists (if bool_decide (t ∈ X) then 1 else 0), v, w, X. rewrite (hbind_some _ _ _ _ _ (isAcquired_spec w v X t H)).
    split_and!; try done; [|apply frame_refl|lia]. by case_bool_decide; case_decide.
Qed.

(** C12: The tokenizer computes with its runs as with a set of tokens: every call
    returns what the set gives, [acquire] the smallest free token, and the runs
    stay sorted, apart and non-empty, as long as some token below 2^32-1 is
    free. *)
Theorem tokenizer_is_set os w v X : tracks w v X -> Forall top_ok os ->
  Z.of_nat (size X + List.length os) < 2 ^ 32 - 1 ->
  exists rs v' w' X', run_tops os v w = Some ((rs, v'), w') /\ tracks w' v' X' /\ tops_spec os X rs X' /\ frame w w'.
Proof.
  revert w v X. induction os as [|o os IH]; intros w v X H Hok Hn; cbn [run_tops].
  - exists [], v, w, X. split; [done|]. split; [done|]. split; [done|apply frame_refl].
  - apply Forall_cons in Hok as [Ho Hok]. cbn [List.length] in Hn.
    destruct (run_top_spec o w v X H Ho ltac:(lia)) as (r & v1 & w1 & X1 & E & H1 & S1 & F1 & N1).
    rewrite (hbind_some _ _ _ _ _ E). destruct (IH w1 v1 X1 H1 Hok ltac:(lia)) as (rs & v' & w' & X' & E' & H' & S' & F').
    rewrite (hbind_some _ _ _ _ _ E'). exists (r :: rs), v', w', X'. split; [done|]. split; [done|].
    split; [by exists X1|by apply (frame_trans w w1 w')].
Qed.

Lemma tracks_empty w v : repr w v [] -> tracks w v ∅.
Proof. intros R. exists []. split; [done|]. split; [apply runs_ok_nil|]. intros t. rewrite covers_nil. set_solver. Qed.
End Spec.
End Tokenizer.

Module TokenManager.
Section Operations.
  Context {W V : Type} `{Ops : SeqOps W V Tokenizer.run_t}.
  Implicit Types (mTokenizer : V).

(** The constructor reserves token 0. *)
Definition create : stM W V := let! (_, mTokenizer) := Tokenizer.reserve seq_empty 0 in hret mTokenizer.

Fixpoint getToken (n : nat) mTokenizer : stM W (list Z * V) :=
  match n with
  | O => hret ([], mTokenizer)
  | S n =>
      let! (token, mTokenizer) := Tokenizer.acquire mTokenizer in
      let! (tokens, mTokenizer) := getToken n mTokenizer in
      hret (token :: tokens, mTokenizer)
  end.

Fixpoint recycleTokens (tokens : list Z) mTokenizer : stM W V :=
  match tokens with
  | [] => hret mTokenizer
  | token :: tokens =>
      let! (_, mTokenizer) := (if negb (token =? 0) then Tokenizer.release mTokenizer token else hret (NO_ERROR, mTokenizer)) in
      recycleTokens tokens mTokenizer
  end.

Definition isTokenValid mTokenizer (token : Z) : stM W bool := Tokenizer.isAcquired mTokenizer token.
End Operations.

Section Spec.
  Context {W V : Type} `{Ops : SeqOps W V Tokenizer.run_t} {repr other : W -> V -> list Tokenizer.run_t -> Prop}.
  Context {frame : W -> W -> Prop} `{Laws : !SeqLaws Ops repr other frame}.
  #[local] Abbreviation tracks := (Tokenizer.tracks (repr := repr)).

Lemma create_spec w : repr w seq_empty [] -> exists v' w', create w = Some (v', w') /\ tracks w' v' {[0]} /\ frame w w'.
Proof.
  intros R. unfold create. destruct (Tokenizer.reserve_spec w seq_empty ∅ 0 (Tokenizer.tracks_empty w _ R) ltac:(lia))
    as [[Ht _]|(_ & v' & w' & E & H' & F)]; [set_solver|].
  exists v', w'. rewrite (hbind_some _ _ _ _ _ E). rewrite union_empty_r_L in H'. done.
Qed.

(** [getToken] hands out different tokens that were not acquired. *)
Lemma getToken_spec n w v X : tracks w v X -> 0 ∈ X -> Z.of_nat (size X + n) < 2 ^ 32 - 1 ->
  exists tokens v' w', getToken n v w = Some ((tokens, v'), w') /\ length tokens = n /\ NoDup tokens /\
    (forall t, t ∈ tokens -> 0 < t < 2 ^ 32 - 1 /\ (t ∉ X)) /\ tracks w' v' (list_to_set tokens ∪ X) /\ frame w w'.
Proof.
  revert w v X. induction n as [|n IH]; intros w v X H H0 Hn; cbn [getToken].
  - exists [], v, w. cbn [list_to_set]. rewrite union_empty_l_L. split_and!; try done; [constructor|set_solver|apply frame_refl].
  - destruct (Tokenizer.acquire_spec w v X H (Tokenizer.free_token X (2 ^ 32 - 1) ltac:(lia)))
      as (t & v1 & w1 & E & Ht & Nt & _ & H1 & F1).
    rewrite (hbind_some _ _ _ _ _ E).
    assert (size (({[t]} : gset Z) ∪ X) = S (size X)) as Sz.
    { rewrite size_union by set_solver. by rewrite size_singleton. }
    destruct (IH w1 v1 ({[t]} ∪ X) H1 ltac:(set_solver) ltac:(rewrite Sz; lia)) as (ts & v' & w' & E' & L & N & HF & H' & F').
    rewrite (hbind_some _ _ _ _ _ E'). exists (t :: ts), v', w'. split; [done|]. split; [cbn; lia|].
    split; [constructor; [|done]; intros Hin; destruct (HF t Hin) as [_ Hx]; set_solver|].
    split; [|split; [|by apply (frame_trans w w1 w')]].
    + intros u Hu. apply elem_of_cons in Hu as [->|Hu].
      * split; [|done]. assert (t <> 0) by (by intros ->). lia.
      * destruct (HF u Hu) as [? Hx]. split; [done|]. set_solver.
    + cbn [list_to_set]. by replace ({[t]} ∪ list_to_set ts ∪ X) with (list_to_set ts ∪ ({[t]} ∪ X)) by set_solver.
Qed.

(** C14: [getToken] hands out as many tokens as are asked for, all different, none in
    use before, none of them 0; afterwards these and the earlier ones are valid. *)
Theorem getToken_fresh n w v X : tracks w v X -> 0 ∈ X -> Z.of_nat (size X + n) < 2 ^ 32 - 1 ->
  exists tokens v' w', getToken n v w = Some ((tokens, v'), w') /\ length tokens = n /\ NoDup tokens /\
    (forall t, t ∈ tokens -> 0 < t < 2 ^ 32 - 1 /\ isTokenValid v t w = Some (false, w)) /\
    (forall t, isTokenValid v' t w' = Some (bool_decide (t ∈ tokens \/ t ∈ X), w')) /\
    tracks w' v' (list_to_set tokens ∪ X) /\ frame w w'.
Proof.
  intros H H0 Hn. unfold isTokenValid. setoid_rewrite (Tokenizer.isAcquired_spec w v X _ H).
  destruct (getToken_spec n w v X H H0 Hn) as (tokens & v' & w' & E & L & N & HF & H' & F).
  exists tokens, v', w'. split_and!; try done.
  - intros t Ht. destruct (HF t Ht). by rewrite bool_decide_false.
  - intros t. rewrite (Tokenizer.isAcquired_spec w' v' _ t H'). do 2 f_equal. apply bool_decide_ext. set_solver.
Qed.

(** Recycled tokens are free again; token 0 stays reserved. *)
Lemma recycleTokens_spec tokens w v X : tracks w v X ->
  exists v' w', recycleTokens tokens v w = Some (v', w') /\
    tracks w' v' (X ∖ (list_to_set tokens ∖ {[0]})) /\ frame w w'.
Proof.
  revert w v X. induction tokens as [|t tokens IH]; intros w v X H; cbn [recycleTokens].
  - exists v, w. cbn [list_to_set]. split; [done|]. split; [|apply frame_refl].
    by replace (X ∖ (∅ ∖ {[0]})) with X by set_solver.
  - destruct (Z.eqb_spec t 0) as [->|Ht]; cbn [negb].
    + rewrite (hbind_some _ _ w (NO_ERROR, v) w eq_refl). destruct (IH w v X H) as (v' & w' & E & H' & F).
      exists v', w'. split; [done|]. split; [|done]. cbn [list_to_set].
      by replace (X ∖ (({[0]} ∪ list_to_set tokens) ∖ {[0]})) with (X ∖ (list_to_set tokens ∖ {[0]})) by set_solver.
    + assert (exists r v1 w1, Tokenizer.release v t w = Some ((r, v1), w1) /\ tracks w1 v1 (X ∖ {[t]}) /\ frame w w1)
        as (r & v1 & w1 & E & H1 & F1).
      { destruct (Tokenizer.release_spec w v X t H) as [(_ & v1 & w1 & E & H1 & F)|[Nt E]]; [by exists NO_ERROR, v1, w1|].
        exists NAME_NOT_FOUND, v, w. split; [done|]. split; [|apply frame_refl]. by replace (X ∖ {[t]}) with X by set_solver. }
      rewrite (hbind_some _ _ _ _ _ E). destruct (IH w1 v1 _ H1) as (v' & w' & E' & H' & F').
      exists v', w'. split; [done|]. split; [|by apply (frame_trans w w1 w')]. cbn [list_to_set].
      by replace (X ∖ (({[t]} ∪ list_to_set tokens) ∖ {[0]})) with (X ∖ {[t]} ∖ (list_to_set tokens ∖ {[0]})) by set_solver.
Qed.
End Spec.
End TokenManager.

(** ** At the ends of the range, and witnesses *)

(** Reserving 2^32-1 succeeds, but the end of its run wraps to 0: the token is
    not found again, and reserving it a second time succeeds too. *)
Theorem token_max_lost :
  Tokenizer.reserve [] 4294967295 tt = Some ((NO_ERROR, [Tokenizer.mk_run 4294967295 1]), tt) /\
  Tokenizer.isAcquired [Tokenizer.mk_run 4294967295 1] 4294967295 tt = Some (false, tt) /\
  Tokenizer.reserve [Tokenizer.mk_run 4294967295 1] 4294967295 tt =
    Some ((NO_ERROR, [Tokenizer.mk_run 4294967295 1; Tokenizer.mk_run 4294967295 1]), tt).
Proof. by vm_compute. Qed.

Definition token_run : list Tokenizer.top :=
  [Tokenizer.T_reserve 0; Tokenizer.T_acquire; Tokenizer.T_acquire; Tokenizer.T_reserve 5; Tokenizer.T_acquire;
   Tokenizer.T_release 2; Tokenizer.T_release 9; Tokenizer.T_acquire; Tokenizer.T_reserve 4; Tokenizer.T_release 3;
   Tokenizer.T_isAcquired 3; Tokenizer.T_isAcquired 5].
Lemma tokenizer_is_set_witness :
  exists v w, Tokenizer.run_tops (Ops := vector_seq true true None) token_run empty_vec empty_heap =
    Some (([0; 1; 2; 0; 3; 0; NAME_NOT_FOUND; 2; 0; 0; 0; 1], v), w) /\
    holds w v [Tokenizer.mk_run 0 3; Tokenizer.mk_run 4 2].
Proof.
  destruct (Tokenizer.tokenizer_is_set (Laws := vector_seq_laws true true None []) token_run empty_heap empty_vec ∅
    (Tokenizer.tracks_empty (Laws := vector_seq_laws true true None []) _ _ vector_repr_empty)) as (rs & v & w & X & E & _).
  - repeat constructor; cbn; lia.
  - rewrite size_empty. vm_compute. reflexivity.
  - exists v, w. vm_compute in E. injection E as <- <- <-. split; [reflexivity|]. do 2 eexists. split; reflexivity.
Defined.

Lemma getToken_fresh_witness :
  exists tokens v, TokenManager.getToken 3 [Tokenizer.mk_run 0 2; Tokenizer.mk_run 3 1] tt = Some ((tokens, v), tt) /\
    tokens = [2; 4; 5] /\ NoDup tokens.
Proof.
  destruct (TokenManager.getToken_fresh (Laws := list_seq_laws Tokenizer.run_t) 3 tt
    [Tokenizer.mk_run 0 2; Tokenizer.mk_run 3 1] {[0; 1; 3]}) as (tokens & v & [] & E & _ & N & _).
  - exists [Tokenizer.mk_run 0 2; Tokenizer.mk_run 3 1]. split; [reflexivity|]. split.
    + split; [repeat constructor; cbn; lia|]. repeat constructor; cbn; lia.
    + intros t. rewrite !Tokenizer.covers_cons, Tokenizer.covers_nil. unfold Tokenizer.fin. cbn.
      rewrite !elem_of_union, !elem_of_singleton. lia.
  - set_solver.
  - vm_compute. reflexivity.
  - exists tokens, v. split; [exact E|]. split; [|exact N]. vm_compute in E. by injection E as <- _.
Defined.
