(* ===== verification/BufferObjects.v ===== *)
(** * Buffer objects

    Models EGLBufferObjectManager of swrender/BufferObjectManager.cpp: the
    buffer objects of a context, found by name in a keyed vector of pointers,
    each with a data store of its own.  The objects and the stores live in a
    memory in which following or freeing a pointer that is not allocated has no
    result; [m_fails] lists the outcomes of the next calls of [malloc], which
    succeed when the list is over.  The manager refines a map from names to
    sizes and usages and neither loses a store nor frees one twice. *)

From S2P Require Import Prelude SharedBuffer Vector VectorSpec Sequence SortedVector KeyedVector.
From stdpp Require Import base gmap.

#[local] Set Warnings "-clear-no-such-hyp".
#[local] Open Scope Z_scope.
#[local] Open Scope state_scope.

Definition GL_STATIC_DRAW : Z := 0x88E4.

Record buffer_t := mk_buffer { bo_size : Z; bo_usage : Z; bo_data : Z; bo_name : Z }.

Module BufferObjects.

(** The world of the manager: that of its vector, the objects, the sizes of the
    allocated stores, and the next fresh address. *)
Record world (W : Type) := mk_world {
  m_vector : W; m_objects : gmap Z buffer_t; m_stores : gmap Z Z; m_next : Z; m_fails : list bool }.
Arguments mk_world {W}.
Arguments m_vector {W}.
Arguments m_objects {W}.
Arguments m_stores {W}.
Arguments m_next {W}.
Arguments m_fails {W}.

Section Operations.
  Context {W V : Type} `{Ops : SeqOps W V (Z * Z)}.
  Implicit Types (mBuffers : V) (s : world W).

(** A computation on the vector. *)
Definition on_vector {B} (m : stM W B) : stM (world W) B := fun s =>
  '(x, w) ← m (m_vector s); Some (x, mk_world w (m_objects s) (m_stores s) (m_next s) (m_fails s)).

Definition new_object (b : buffer_t) : stM (world W) Z := fun s =>
  Some (m_next s, mk_world (m_vector s) (<[m_next s := b]> (m_objects s)) (m_stores s) (m_next s + 1) (m_fails s)).
Definition get_object (p : Z) : stM (world W) buffer_t := fun s => b ← m_objects s !! p; Some (b, s).
Definition set_object (p : Z) (b : buffer_t) : stM (world W) unit := fun s =>
  Some (tt, mk_world (m_vector s) (<[p := b]> (m_objects s)) (m_stores s) (m_next s) (m_fails s)).
Definition delete_object (p : Z) : stM (world W) unit := fun s =>
  _ ← m_objects s !! p; Some (tt, mk_world (m_vector s) (delete p (m_objects s)) (m_stores s) (m_next s) (m_fails s)).

Definition malloc_store (size : Z) : stM (world W) Z := fun s =>
  match m_fails s with
  | true :: fs => Some (0, mk_world (m_vector s) (m_objects s) (m_stores s) (m_next s) fs)
  | fs => Some (m_next s, mk_world (m_vector s) (m_objects s) (<[m_next s := size]> (m_stores s)) (m_next s + 1) (tail fs))
  end.
Definition free_store (p : Z) : stM (world W) unit := fun s =>
  if p =? 0 then Some (tt, s)
  else _ ← m_stores s !! p; Some (tt, mk_world (m_vector s) (m_objects s) (delete p (m_stores s)) (m_next s) (m_fails s)).

(** ** The operations: the vector is passed along *)

Definition bind mBuffers (buffer : Z) : stM (world W) (Z * V) :=
  let! i := on_vector (KeyedVector.indexOfKey 0 mBuffers buffer) in
  if 0 <=? i then let! bo := on_vector (KeyedVector.valueAt mBuffers (Z.to_nat i)) in hret (bo, mBuffers)
  else
    let! bo := new_object (mk_buffer 0 GL_STATIC_DRAW 0 buffer) in
    let! (_, mBuffers) := on_vector (KeyedVector.add mBuffers buffer bo) in hret (bo, mBuffers).

Definition allocateStore (bo size usage : Z) : stM (world W) Z :=
  let! b := get_object bo in
  if negb (size =? bo_size b) then
    let! data := malloc_store size in
    if data =? 0 then hret (-1)
    else free_store (bo_data b) ;;; set_object bo (mk_buffer size usage data (bo_name b)) ;;; hret 0
  else set_object bo (mk_buffer (bo_size b) usage (bo_data b) (bo_name b)) ;;; hret 0.

(** The body of the loop of [deleteBuffers]. *)
Definition deleteBuffer mBuffers (t : Z) : stM (world W) V :=
  if negb (t =? 0) then
    let! index := on_vector (KeyedVector.indexOfKey 0 mBuffers t) in
    if 0 <=? index then
      let! bo := on_vector (KeyedVector.valueAt mBuffers (Z.to_nat index)) in
      let! b := get_object bo in
      free_store (bo_data b) ;;;
      let! (_, mBuffers) := on_vector (KeyedVector.removeItemsAt mBuffers (Z.to_nat index) 1) in
      delete_object bo ;;; hret mBuffers
    else hret mBuffers
  else hret mBuffers.
Fixpoint deleteBuffers mBuffers (buffers : list Z) : stM (world W) V :=
  match buffers with
  | [] => hret mBuffers
  | t :: buffers => let! mBuffers := deleteBuffer mBuffers t in deleteBuffers mBuffers buffers
  end.

(** The destructor. *)
Fixpoint destroy_from (n : nat) mBuffers (i : nat) : stM (world W) unit :=
  match n with
  | O => hret tt
  | S n =>
      let! bo := on_vector (KeyedVector.valueAt mBuffers i) in
      let! b := get_object bo in
      free_store (bo_data b) ;;; delete_object bo ;;; destroy_from n mBuffers (S i)
  end.
Definition destroy mBuffers : stM (world W) unit := destroy_from (seq_size mBuffers) mBuffers 0.
End Operations.

(** ** What the manager stands for *)

Section Spec.
  Context {W V : Type} `{Ops : SeqOps W V (Z * Z)} {repr other : W -> V -> list (Z * Z) -> Prop}.
  Context {frame : W -> W -> Prop} `{Laws : !SeqLaws Ops repr other frame}.
  Implicit Types (v : V) (s : world W) (m : gmap Z (Z * Z)) (names : gmap Z Z).

Definition store_ok (stores : gmap Z Z) (b : buffer_t) : Prop :=
  bo_data b = 0 /\ bo_size b = 0 \/ bo_data b <> 0 /\ stores !! bo_data b = Some (bo_size b).

(** The objects are those the names lead to, each under its own name; every
    store belongs to exactly one of them. *)
Record memory_ok s names : Prop := mk_memory_ok {
  mo_named : forall k p, names !! k = Some p -> exists b, m_objects s !! p = Some b /\ bo_name b = k;
  mo_object : forall p b, m_objects s !! p = Some b -> names !! bo_name b = Some p /\ store_ok (m_stores s) b;
  mo_unshared : forall p q b c, m_objects s !! p = Some b -> m_objects s !! q = Some c ->
    bo_data b = bo_data c -> bo_data b <> 0 -> p = q;
  mo_owned : forall d n, m_stores s !! d = Some n -> exists p b, m_objects s !! p = Some b /\ bo_data b = d;
  mo_next : 0 < m_next s;
  mo_fresh_object : forall p b, m_objects s !! p = Some b -> 0 < p < m_next s;
  mo_fresh_store : forall d n, m_stores s !! d = Some n -> 0 < d < m_next s }.

(** Size and usage by name. *)
Definition contents s names (k : Z) : option (Z * Z) :=
  p ← names !! k; b ← m_objects s !! p; Some (bo_size b, bo_usage b).
Definition represents s v m : Prop :=
  exists names, KeyedVector.maps (repr := repr) (m_vector s) v names /\ memory_ok s names /\
    forall k, m !! k = contents s names k.

Lemma on_vector_some {B} (c : stM W B) s x w : c (m_vector s) = Some (x, w) ->
  on_vector c s = Some (x, mk_world w (m_objects s) (m_stores s) (m_next s) (m_fails s)).
Proof. intros E. unfold on_vector. by rewrite E. Qed.
Lemma on_vector_read {B} (c : stM W B) s x : c (m_vector s) = Some (x, m_vector s) -> on_vector c s = Some (x, s).
Proof. intros E. rewrite (on_vector_some c s x _ E). by destruct s. Qed.

Lemma memory_ok_vector s names w : memory_ok s names -> memory_ok (mk_world w (m_objects s) (m_stores s) (m_next s) (m_fails s)) names.
Proof. by intros []. Qed.

Lemma contents_some s names k p b : names !! k = Some p -> m_objects s !! p = Some b -> contents s names k = Some (bo_size b, bo_usage b).
Proof. intros E1 E2. unfold contents. by rewrite E1; cbn; rewrite E2. Qed.
Lemma contents_none s names k : names !! k = None -> contents s names k = None.
Proof. intros E. unfold contents. by rewrite E. Qed.
Lemma represents_lookup s v m names k : memory_ok s names -> (forall k, m !! k = contents s names k) ->
  (m !! k = None <-> names !! k = None).
Proof.
  intros MO C. rewrite C. destruct (names !! k) as [p|] eqn:E; [|by rewrite (contents_none s names k E)].
  destruct (mo_named s names MO k p E) as (b & Eb & _). by rewrite (contents_some s names k p b E Eb).
Qed.

(** Looking a buffer up. *)
Lemma find_spec s v m k : represents s v m ->
  exists i, on_vector (KeyedVector.indexOfKey 0 v k) s = Some (i, s) /\
    match m !! k with
    | Some sz => 0 <= i /\ exists p b, on_vector (KeyedVector.valueAt v (Z.to_nat i)) s = Some (p, s) /\
        m_objects s !! p = Some b /\ bo_name b = k /\ sz = (bo_size b, bo_usage b)
    | None => i = NAME_NOT_FOUND
    end.
Proof.
  intros (names & KM & MO & C).
  destruct (KeyedVector.indexOfKey_spec 0 _ v names k KM) as (i & E & Hi). exists i. split; [by apply on_vector_read|].
  rewrite C. destruct (names !! k) as [p|] eqn:En; [|by rewrite (contents_none s names k En)].
  destruct (mo_named s names MO k p En) as (b & Eb & Nb). rewrite (contents_some s names k p b En Eb).
  destruct Hi as (Hi & Ev & _). split; [done|]. exists p, b. split; [by apply on_vector_read|done].
Qed.

Lemma new_object_spec s v m k : represents s v m -> m !! k = None ->
  exists v' s', (let! (_, v) := on_vector (KeyedVector.add v k (m_next s)) in hret (m_next s, v))
      (mk_world (m_vector s) (<[m_next s := mk_buffer 0 GL_STATIC_DRAW 0 k]> (m_objects s)) (m_stores s) (m_next s + 1) (m_fails s)) =
      Some ((m_next s, v'), s') /\ represents s' v' (<[k := (0, GL_STATIC_DRAW)]> m) /\ m_fails s' = m_fails s /\
    exists b, m_objects s' !! m_next s = Some b /\ bo_name b = k.
Proof.
  intros (names & KM & MO & C) Nk. pose proof Nk as Nn. rewrite (represents_lookup s v m names k MO C) in Nn.
  set (p := m_next s). set (b := mk_buffer 0 GL_STATIC_DRAW 0 k).
  destruct (KeyedVector.keyed_add_spec _ v names k p KM) as (i & v' & w' & E & Hi & KM' & _).
  erewrite hbind_some; [|by apply on_vector_some]. do 2 eexists. split; [reflexivity|]. cbn [m_fails m_objects].
  split; [|split; [done|]; exists b; by rewrite lookup_insert_eq]. exists (<[k := p]> names). split; [done|].
  destruct MO as [NA OB UN OW NX FO FS]. fold p in FO, FS, NX.
  assert (m_objects s !! p = None) as Fp.
  { destruct (m_objects s !! p) as [c|] eqn:Ec; [|done]. pose proof (FO p c Ec). lia. }
  split; [split; cbn [m_objects m_stores m_next]|].
  - intros j q. rewrite lookup_insert_Some. intros [[<- <-]|[Hj Ej]]; [exists b; by rewrite lookup_insert_eq|].
    destruct (NA j q Ej) as (c & Ec & Nc). exists c. rewrite lookup_insert_ne; [done|]. intros <-. congruence.
  - intros q c. rewrite lookup_insert_Some. intros [[<- <-]|[Hq Eq]].
    + cbn. rewrite lookup_insert_eq. split; [done|]. by left.
    + destruct (OB q c Eq) as [Ec Sc]. split; [|done]. rewrite lookup_insert_ne; [done|]. intros Hk. congruence.
  - intros q q' c c'. rewrite !lookup_insert_Some. intros [[<- <-]|[Hq Eq]] [[<- <-]|[Hq' Eq']]; cbn; try done.
    by apply (UN q q' c c').
  - intros d n Ed. destruct (OW d n Ed) as (q & c & Eq & Ec). exists q, c. split; [|done].
    rewrite lookup_insert_ne; [done|]. intros <-. congruence.
  - lia.
  - intros q c. rewrite lookup_insert_Some. intros [[<- _]|[_ Eq]]; [lia|]. pose proof (FO q c Eq). lia.
  - intros d n Ed. pose proof (FS d n Ed). lia.
  - intros j. unfold contents. cbn [m_objects]. destruct (decide (k = j)) as [<-|Hj].
    + rewrite !lookup_insert_eq. cbn. by rewrite lookup_insert_eq.
    + rewrite !lookup_insert_ne by done. rewrite C. unfold contents. destruct (names !! j) as [q|] eqn:Ej; cbn; [|done].
      rewrite lookup_insert_ne; [done|]. intros <-. destruct (NA j p Ej) as (c & Ec & _). congruence.
Qed.

(** Binding finds the object of a name, or makes an empty one. *)
Lemma bind_spec s v m k : represents s v m ->
  exists p v' s', bind v k s = Some ((p, v'), s') /\
    represents s' v' (match m !! k with Some _ => m | None => <[k := (0, GL_STATIC_DRAW)]> m end) /\
    m_fails s' = m_fails s /\ exists b, m_objects s' !! p = Some b /\ bo_name b = k.
Proof.
  intros R. destruct (find_spec s v m k R) as (i & E & Hi). unfold bind. rewrite (hbind_some _ _ _ _ _ E).
  destruct (m !! k) as [sz|] eqn:Em.
  - destruct Hi as (Hi & p & b & Ev & Eb & Nb & _). destruct (Z.leb_spec 0 i); [|lia].
    rewrite (hbind_some _ _ _ _ _ Ev). exists p, v, s. split; [done|]. split; [done|]. split; [done|]. by exists b.
  - subst i. cbn [Z.leb Z.compare NAME_NOT_FOUND].
    destruct (new_object_spec s v m k R Em) as (v' & s' & E' & R' & Fl & Hb).
    exists (m_next s), v', s'. split; [|done]. change (0 <=? NAME_NOT_FOUND) with false. cbv iota.
    by erewrite hbind_some by reflexivity.
Qed.

(** Changing one object and the stores. *)
Lemma memory_update s names p b b' w stores next fails :
  memory_ok s names -> m_objects s !! p = Some b -> bo_name b' = bo_name b -> store_ok stores b' ->
  (forall q c, q <> p -> m_objects s !! q = Some c -> store_ok stores c /\ (bo_data c = bo_data b' -> bo_data c = 0)) ->
  (forall d n, stores !! d = Some n -> d = bo_data b' \/ exists q c, q <> p /\ m_objects s !! q = Some c /\ bo_data c = d) ->
  (forall d n, stores !! d = Some n -> 0 < d < next) -> m_next s <= next ->
  memory_ok (mk_world w (<[p := b']> (m_objects s)) stores next fails) names.
Proof.
  intros [NA OB UN OW NX FO FS] Eb Nb Sb' So Sd Fd Hn. split; cbn [m_objects m_stores m_next]; try done.
  - intros k q Eq. destruct (NA k q Eq) as (c & Ec & Nc). destruct (decide (p = q)) as [<-|Hq].
    + exists b'. rewrite lookup_insert_eq. split; [done|]. congruence.
    + exists c. by rewrite lookup_insert_ne.
  - intros q c. rewrite lookup_insert_Some. intros [[<- <-]|[Hq Eq]].
    + rewrite Nb. split; [by apply (OB p b)|done].
    + split; [by apply (OB q c)|]. by apply (So q c).
  - intros q q' c c'. rewrite !lookup_insert_Some. intros [[<- <-]|[Hq Eq]] [[<- <-]|[Hq' Eq']] Ed Nd; [done|..].
    + destruct (So q' c' ltac:(done) Eq') as [_ H]. rewrite Ed, H in Nd; done.
    + destruct (So q c ltac:(done) Eq) as [_ H]. by rewrite H in Nd.
    + by apply (UN q q' c c').
  - intros d n Ed. destruct (Sd d n Ed) as [->|(q & c & Hq & Eq & Ec)]; [exists p, b'; by rewrite lookup_insert_eq|].
    exists q, c. by rewrite lookup_insert_ne.
  - lia.
  - intros q c. rewrite lookup_insert_Some. intros [[<- _]|[_ Eq]]; [pose proof (FO p b Eb)|pose proof (FO q c Eq)]; lia.
Qed.

Lemma buffers_update s v m p b b' w stores next fails : represents s v m ->
  m_objects s !! p = Some b -> bo_name b' = bo_name b -> w = m_vector s ->
  (forall names, memory_ok s names -> memory_ok (mk_world w (<[p := b']> (m_objects s)) stores next fails) names) ->
  represents (mk_world w (<[p := b']> (m_objects s)) stores next fails) v (<[bo_name b := (bo_size b', bo_usage b')]> m).
Proof.
  intros (names & KM & MO & C) Eb Nb -> HM. exists names. split; [done|]. split; [by apply HM|].
  intros j. destruct (mo_object s names MO p b Eb) as [En _]. unfold contents. cbn [m_objects].
  destruct (decide (bo_name b = j)) as [<-|Hj].
  - rewrite lookup_insert_eq, En. cbn. by rewrite lookup_insert_eq.
  - rewrite lookup_insert_ne by done. rewrite C. unfold contents. destruct (names !! j) as [q|] eqn:Ej; cbn; [|done].
    rewrite lookup_insert_ne; [done|]. intros <-. destruct (mo_named s names MO j p Ej) as (c & Ec & Nc). congruence.
Qed.

(** Freeing a store that is [0] or allocated. *)
Lemma free_store_spec s b : store_ok (m_stores s) b -> m_stores s !! 0 = None ->
  free_store (bo_data b) s = Some (tt, mk_world (m_vector s) (m_objects s) (delete (bo_data b) (m_stores s)) (m_next s) (m_fails s)).
Proof.
  intros Sb N0. unfold free_store. destruct (Z.eqb_spec (bo_data b) 0) as [E|E].
  - rewrite E, delete_id by done. by destruct s.
  - destruct Sb as [[? _]|[_ ->]]; [done|]. done.
Qed.
Lemma no_store_at_0 s names : memory_ok s names -> m_stores s !! 0 = None.
Proof.
  intros MO. destruct (m_stores s !! 0) as [n|] eqn:E; [|done]. pose proof (mo_fresh_store s names MO 0 n E). lia.
Qed.

(** The new store takes the place of the old one. *)
Lemma memory_new_store s names p b size usage fails : memory_ok s names -> m_objects s !! p = Some b ->
  memory_ok (mk_world (m_vector s) (<[p := mk_buffer size usage (m_next s) (bo_name b)]> (m_objects s))
    (delete (bo_data b) (<[m_next s := size]> (m_stores s))) (m_next s + 1) fails) names.
Proof.
  intros MO Eb. pose proof MO as [NA OB UN OW NX FO FS].
  assert (forall c, store_ok (m_stores s) c -> bo_data c <> m_next s) as NN.
  { intros c [[-> _]|[_ Ec]]; [lia|]. pose proof (FS _ _ Ec). lia. }
  destruct (OB p b Eb) as [_ Sb]. pose proof (NN b Sb). apply (memory_update s names p b); try done; cbn; try lia.
  - right. cbn. split; [lia|]. rewrite lookup_delete_ne by congruence. by rewrite lookup_insert_eq.
  - intros q c Hq Eq. destruct (OB q c Eq) as [_ Sc]. split; [|intros Ed; by destruct (NN c Sc)].
    destruct Sc as [?|[N0 Ec]]; [by left|right]. split; [done|].
    rewrite lookup_delete_ne; [rewrite lookup_insert_ne; [done|]|].
    + pose proof (FS _ _ Ec). lia.
    + intros Ed. apply Hq. symmetry. apply (UN p q b c Eb Eq Ed). congruence.
  - intros d n Ed. apply lookup_delete_Some in Ed as [Hd Ed]. apply lookup_insert_Some in Ed as [[<- _]|[_ Ed]]; [by left|right].
    destruct (OW d n Ed) as (q & c & Eq & Ec). exists q, c. split; [|done]. intros ->. congruence.
  - intros d n Ed. apply lookup_delete_Some in Ed as [Hd Ed]. apply lookup_insert_Some in Ed as [[<- _]|[_ Ed]]; [lia|].
    pose proof (FS d n Ed). lia.
Qed.

Lemma allocateStore_spec s v m p b size usage : represents s v m -> m_objects s !! p = Some b ->
  exists r s', allocateStore p size usage s = Some (r, s') /\
    (r = 0 /\ represents s' v (<[bo_name b := (size, usage)]> m) \/
     r = -1 /\ represents s' v m /\ head (m_fails s) = Some true).
Proof.
  intros R Eb. pose proof R as (names0 & _ & MO & _). destruct (mo_object s names0 MO p b Eb) as [_ Sb]. unfold allocateStore.
  rewrite (hbind_some _ _ s b s) by (unfold get_object; by rewrite Eb).
  destruct (Z.eqb_spec size (bo_size b)) as [->|Hs]; cbn [negb].
  - eexists _, _. split; [reflexivity|]. left. split; [done|].
    apply (buffers_update s v m p b (mk_buffer (bo_size b) usage (bo_data b) (bo_name b))); try done.
    intros names MOn. pose proof MOn as [NA OB UN OW NX FO FS]. apply (memory_update s names p b); try done.
    + intros q c Hq Eq. split; [by apply (OB q c)|]. cbn. intros Ed. destruct (decide (bo_data c = 0)); [done|].
      by destruct (Hq (UN q p c b Eq Eb Ed ltac:(done))).
    + intros d n Ed. cbn. destruct (OW d n Ed) as (q & c & Eq & Ec). destruct (decide (q = p)) as [->|Hq].
      * left. congruence.
      * right. by exists q, c.
  - unfold malloc_store at 1, hbind at 1. destruct (m_fails s) as [|[] fs] eqn:Ef; cbn [mbind option_bind tail].
    2: { eexists _, _. split; [reflexivity|]. right. split; [done|]. split; [|done].
         destruct R as (names & KM & MOn & C). exists names. split; [done|]. split; [by destruct MOn|done]. }
    all: pose proof (mo_next s names0 MO) as NX; destruct (Z.eqb_spec (m_next s) 0); [lia|].
    all: set (s1 := mk_world _ _ _ _ _).
    all: assert (store_ok (m_stores s1) b) as Sb1 by
      (destruct Sb as [?|[N0 E]]; [by left|right]; split; [done|]; cbn; rewrite lookup_insert_ne; [done|];
       intros En; pose proof (mo_fresh_store s names0 MO _ _ E); lia).
    all: assert (m_stores s1 !! 0 = None) as N0 by
      (unfold s1; cbn [m_stores]; rewrite lookup_insert_ne by lia; by apply (no_store_at_0 s names0)).
    all: rewrite (hbind_some _ _ s1 tt _ (free_store_spec s1 b Sb1 N0)); eexists _, _; (split; [reflexivity|]); left; (split; [done|]).
    all: apply (buffers_update s v m p b (mk_buffer size usage (m_next s) (bo_name b))); try done.
    all: intros names MOn; by apply (memory_new_store s names p b).
Qed.

(** Deleting an object and its store. *)
Lemma memory_delete s names p b w fails : memory_ok s names -> m_objects s !! p = Some b ->
  memory_ok (mk_world w (delete p (m_objects s)) (delete (bo_data b) (m_stores s)) (m_next s) fails) (delete (bo_name b) names).
Proof.
  intros [NA OB UN OW NX FO FS] Eb. split; cbn [m_objects m_stores m_next]; try done.
  - intros k q. rewrite lookup_delete_Some. intros [Hk Eq]. destruct (NA k q Eq) as (c & Ec & Nc).
    exists c. rewrite lookup_delete_ne; [done|]. intros <-. congruence.
  - intros q c. rewrite lookup_delete_Some. intros [Hq Eq]. destruct (OB q c Eq) as [En Sc]. destruct (OB p b Eb) as [Enb _].
    split; [rewrite lookup_delete_ne; [done|]; congruence|]. destruct Sc as [?|[N0 Ec]]; [by left|right].
    split; [done|]. rewrite lookup_delete_ne; [done|]. intros Ed. apply Hq. apply (UN p q b c Eb Eq Ed). congruence.
  - intros q q' c c'. rewrite !lookup_delete_Some. intros [_ Eq] [_ Eq']. by apply (UN q q' c c').
  - intros d n. rewrite lookup_delete_Some. intros [Hd Ed]. destruct (OW d n Ed) as (q & c & Eq & Ec). exists q, c.
    rewrite lookup_delete_ne; [done|]. intros <-. congruence.
  - intros q c. rewrite lookup_delete_Some. intros [_ Eq]. by apply (FO q c).
  - intros d n. rewrite lookup_delete_Some. intros [_ Ed]. by apply (FS d n).
Qed.

Lemma deleteBuffer_spec s v m t : represents s v m ->
  exists v' s', deleteBuffer v t s = Some (v', s') /\ represents s' v' (if t =? 0 then m else delete t m) /\ m_fails s' = m_fails s.
Proof.
  intros R. unfold deleteBuffer. destruct (Z.eqb_spec t 0) as [Ht|Ht]; cbn [negb]; [by exists v, s|].
  pose proof R as (names & KM & MO & C).
  destruct (KeyedVector.indexOfKey_spec 0 _ v names t KM) as (i & E & Hi).
  rewrite (hbind_some _ _ _ _ _ (on_vector_read _ _ _ E)).
  destruct (names !! t) as [p|] eqn:En.
  2: { rewrite Hi. change (0 <=? NAME_NOT_FOUND) with false. cbv iota. exists v, s. split; [done|].
       rewrite delete_id; [done|]. by rewrite C, (contents_none s names t En). }
  destruct Hi as (Hi & Ev & (v' & w' & ER & KM' & _) & _). destruct (mo_named s names MO t p En) as (b & Eb & Nb).
  destruct (Z.leb_spec 0 i); [|lia]. rewrite (hbind_some _ _ _ _ _ (on_vector_read _ _ _ Ev)).
  rewrite (hbind_some _ _ s b s) by (unfold get_object; by rewrite Eb).
  destruct (mo_object s names MO p b Eb) as [_ Sb].
  rewrite (hbind_some _ _ _ _ _ (free_store_spec s b Sb (no_store_at_0 s names MO))).
  erewrite hbind_some; [|by apply on_vector_some]. unfold delete_object, hbind. cbn [m_objects]. rewrite Eb. cbn.
  exists v'. eexists. split; [reflexivity|]. split; [|done].
  exists (delete t names). split; [done|]. rewrite <- Nb. split; [by apply (memory_delete s names p b)|].
  intros j. unfold contents. cbn [m_objects]. destruct (decide (bo_name b = j)) as [<-|Hj]; [by rewrite !lookup_delete_eq|].
  rewrite !lookup_delete_ne by done. rewrite C. unfold contents. destruct (names !! j) as [q|] eqn:Ej; cbn; [|done].
  rewrite lookup_delete_ne; [done|]. intros <-. destruct (mo_named s names MO j p Ej) as (c & Ec & Nc). congruence.
Qed.

Definition delete_name m (t : Z) : gmap Z (Z * Z) := if t =? 0 then m else delete t m.
Lemma deleteBuffers_spec buffers s v m : represents s v m ->
  exists v' s', deleteBuffers v buffers s = Some (v', s') /\ represents s' v' (foldl delete_name m buffers) /\ m_fails s' = m_fails s.
Proof.
  revert s v m. induction buffers as [|t ts IH]; intros s v m R; cbn [deleteBuffers foldl]; [by exists v, s|].
  destruct (deleteBuffer_spec s v m t R) as (v1 & s1 & E & R1 & F1). rewrite (hbind_some _ _ _ _ _ E).
  destruct (IH s1 v1 _ R1) as (v' & s' & E' & R' & F'). exists v', s'. split; [done|]. split; [done|]. congruence.
Qed.

(** Destroying the manager leaves neither objects nor stores. *)
Lemma destroy_from_spec l n i s v : repr (m_vector s) v l -> SortedVector.sorted fst l -> (i + n = length l)%nat ->
  memory_ok s (snd <$> SortedVector.to_map fst (drop i l)) ->
  exists s', destroy_from n v i s = Some (tt, s') /\ m_objects s' = ∅ /\ m_stores s' = ∅.
Proof.
  revert i s. induction n as [|n IH]; intros i s R S Hn MO; cbn [destroy_from].
  - exists s. split; [done|]. rewrite drop_ge in MO by lia. cbn in MO. unfold SortedVector.to_map in MO. cbn in MO. rewrite fmap_empty in MO.
    assert (m_objects s = ∅) as EO.
    { apply map_empty. intros p. apply eq_None_not_Some. intros [b Eb]. by destruct (mo_object s _ MO p b Eb) as [E _]. }
    split; [done|]. apply map_empty. intros d. apply eq_None_not_Some. intros [k Ek].
    destruct (mo_owned s _ MO d k Ek) as (p & b & Eb & _). by rewrite EO in Eb.
  - destruct (lookup_lt_is_Some_2 l i ltac:(lia)) as [[k p] Hx]. rewrite (drop_S l _ i Hx) in MO.
    pose proof S as S0. rewrite <- (take_drop i l), (drop_S l _ i Hx) in S0. apply SortedVector.sorted_app in S0 as (_ & S0 & _).
    apply SortedVector.sorted_cons in S0 as [S0 Hl].
    change (SortedVector.to_map fst ((k, p) :: drop (Datatypes.S i) l)) with
      (<[k := (k, p)]> (SortedVector.to_map fst (drop (Datatypes.S i) l))) in MO. rewrite fmap_insert in MO. cbn [snd] in MO.
    destruct (mo_named s _ MO k p) as (b & Eb & Nb); [apply lookup_insert_eq|].
    assert (on_vector (KeyedVector.valueAt v i) s = Some (p, s)) as EV.
    { apply on_vector_read. unfold KeyedVector.valueAt. by rewrite (hbind_some _ _ _ _ _ (repr_get _ v l i _ R Hx)). }
    rewrite (hbind_some _ _ _ _ _ EV), (hbind_some _ _ s b s) by (unfold get_object; by rewrite Eb).
    destruct (mo_object s _ MO p b Eb) as [_ Sb].
    rewrite (hbind_some _ _ _ _ _ (free_store_spec s b Sb (no_store_at_0 s _ MO))).
    unfold delete_object at 1, hbind at 1. cbn [m_objects]. rewrite Eb. cbn [mbind option_bind].
    apply (IH (Datatypes.S i)); [exact R|exact S|lia|].
    pose proof (memory_delete s _ p b (m_vector s) (m_fails s) MO Eb) as MD. rewrite Nb, delete_insert_eq, (delete_id (snd <$> _) k) in MD; [exact MD|].
    rewrite lookup_fmap, (proj2 (SortedVector.to_map_none fst _ k S0)); [done|].
    intros [k' p'] Hin. specialize (Hl _ Hin). cbn in *. lia.
Qed.

Lemma destroy_spec s v m : represents s v m -> exists s', destroy v s = Some (tt, s') /\ m_objects s' = ∅ /\ m_stores s' = ∅.
Proof.
  intros (names & (M & (l & R & S & EM) & En) & MO & _). unfold destroy. rewrite (repr_size _ v l R).
  apply (destroy_from_spec l (length l) 0); try done. by rewrite drop_0, EM, En.
Qed.

(** ** Runs *)

Inductive bop := B_bind (name : Z) | B_data (name size usage : Z) | B_delete (names : list Z).

(** [B_data] is what glBufferData does to the object bound under a name. *)
Definition run_bop (v : V) (o : bop) : stM (world W) V :=
  match o with
  | B_bind k => let! (_, v) := bind v k in hret v
  | B_data k size usage => let! (bo, v) := bind v k in let! _ := allocateStore bo size usage in hret v
  | B_delete ks => deleteBuffers v ks
  end.
Fixpoint run_bops (os : list bop) (v : V) : stM (world W) V :=
  match os with [] => hret v | o :: os => let! v := run_bop v o in run_bops os v end.

Definition touch m (k : Z) : gmap Z (Z * Z) := match m !! k with Some _ => m | None => <[k := (0, GL_STATIC_DRAW)]> m end.
Inductive spec_bop m : bop -> gmap Z (Z * Z) -> Prop :=
  | spec_bind k : spec_bop m (B_bind k) (touch m k)
  | spec_data k size usage : spec_bop m (B_data k size usage) (<[k := (size, usage)]> (touch m k))
  | spec_data_fails k size usage : spec_bop m (B_data k size usage) (touch m k)
  | spec_delete ks : spec_bop m (B_delete ks) (foldl delete_name m ks).
Inductive spec_bops : gmap Z (Z * Z) -> list bop -> gmap Z (Z * Z) -> Prop :=
  | spec_done m : spec_bops m [] m
  | spec_step m o os m1 m' : spec_bop m o m1 -> spec_bops m1 os m' -> spec_bops m (o :: os) m'.

Lemma run_bop_spec o s v m : represents s v m ->
  exists v' s' m', run_bop v o s = Some (v', s') /\ represents s' v' m' /\ spec_bop m o m'.
Proof.
  intros R. destruct o as [k|k size usage|ks]; cbn [run_bop].
  - destruct (bind_spec s v m k R) as (p & v' & s' & E & R' & _). rewrite (hbind_some _ _ _ _ _ E).
    exists v', s', (touch m k). split; [done|]. split; [exact R'|constructor].
  - destruct (bind_spec s v m k R) as (p & v' & s1 & E & R1 & _ & b & Eb & Nb). rewrite (hbind_some _ _ _ _ _ E).
    destruct (allocateStore_spec s1 v' _ p b size usage R1 Eb) as (r & s' & E' & [[_ R']|(_ & R' & _)]);
      rewrite (hbind_some _ _ _ _ _ E'); exists v', s'; eexists; (split; [reflexivity|]); (split; [exact R'|]).
    + rewrite Nb. apply spec_data.
    + apply spec_data_fails.
  - destruct (deleteBuffers_spec ks s v m R) as (v' & s' & E & R' & _). exists v', s'. eexists. split; [done|].
    split; [exact R'|constructor].
Qed.

(** C18: Any run of binding, filling and deleting buffer objects, allocations failing
    or not, does to the sizes and usages by name what the same updates do to a
    map (filling may leave it as it was), and destroying the manager at the end
    leaves no object and no store: nothing is lost, freed twice or used after it
    is freed. *)
Theorem buffer_objects_safe os s v m : represents s v m ->
  exists v' s' m', run_bops os v s = Some (v', s') /\ represents s' v' m' /\ spec_bops m os m' /\
    exists s'', destroy v' s' = Some (tt, s'') /\ m_objects s'' = ∅ /\ m_stores s'' = ∅.
Proof.
  revert s v m. induction os as [|o os IH]; intros s v m R; cbn [run_bops].
  - exists v, s, m. split; [done|]. split; [done|]. split; [constructor|by apply (destroy_spec s v m)].
  - destruct (run_bop_spec o s v m R) as (v1 & s1 & m1 & E & R1 & S1). rewrite (hbind_some _ _ _ _ _ E).
    destruct (IH s1 v1 m1 R1) as (v' & s' & m' & E' & R' & S' & D). exists v', s', m'.
    split; [done|]. split; [done|]. split; [by eapply spec_step|done].
Qed.

Lemma buffers_empty w v fails : repr w v [] -> represents (mk_world w ∅ ∅ 1 fails) v ∅.
Proof.
  intros R. exists ∅. split; [by apply KeyedVector.maps_empty|]. split; [|intros k; by rewrite lookup_empty].
  split; cbn; try lia; intros *; rewrite ?lookup_empty; try done.
Qed.
End Spec.
End BufferObjects.

Definition buffer_run : list BufferObjects.bop :=
  [BufferObjects.B_bind 3; BufferObjects.B_data 3 100 1; BufferObjects.B_data 7 50 2; BufferObjects.B_data 3 60 3;
   BufferObjects.B_delete [0; 7; 9]; BufferObjects.B_bind 7].
Lemma buffer_objects_safe_witness :
  exists v s, BufferObjects.run_bops (Ops := vector_seq false false None) buffer_run empty_vec
      (BufferObjects.mk_world empty_heap ∅ ∅ 1 [false; false; true]) = Some (v, s) /\
    BufferObjects.m_stores s = {[2 := 100]} /\
    exists s', BufferObjects.destroy (Ops := vector_seq false false None) v s = Some (tt, s') /\ BufferObjects.m_stores s' = ∅.
Proof.
  destruct (BufferObjects.buffer_objects_safe (Laws := vector_seq_laws false false None []) buffer_run
    (BufferObjects.mk_world empty_heap ∅ ∅ 1 [false; false; true]) empty_vec ∅
    (BufferObjects.buffers_empty _ _ _ vector_repr_empty))
    as (v & s & m & E & _ & _ & s' & D & _ & DS).
  exists v, s. split; [exact E|]. split; [|exists s'; split; [exact D|exact DS]].
  vm_compute in E. injection E as _ <-. reflexivity.
Defined.
