(* ===== verification/TextureObjects.v ===== *)
(** * Texture objects

    Models EGLTextureObject of swrender/TextureObjectManager.cpp: a base surface
    and an array of mipmap surfaces, each with pixels of its own.  The memory is
    the set of allocated blocks; freeing a block that is not allocated has no
    result; [t_fails] lists the outcomes of the next calls of [malloc], which
    succeed when the list is over. *)

From S2P Require Import Prelude Fixed Context Vector.
From stdpp Require Import base gmap.

#[local] Set Warnings "-clear-no-such-hyp".
#[local] Open Scope Z_scope.
#[local] Open Scope state_scope.

(** ** Memory *)

Record blocks := mk_blocks { t_live : gset Z; t_next : Z; t_fails : list bool }.
Definition malloc_block : stM blocks Z := fun m =>
  match t_fails m with
  | true :: fs => Some (0, mk_blocks (t_live m) (t_next m) fs)
  | fs => Some (t_next m, mk_blocks ({[t_next m]} ∪ t_live m) (t_next m + 1) (tail fs))
  end.
Definition free_block (p : Z) : stM blocks unit := fun m =>
  if p =? 0 then Some (tt, m)
  else if decide (p ∈ t_live m) then Some (tt, mk_blocks (t_live m ∖ {[p]}) (t_next m) (t_fails m)) else None.

(** ** Data *)

Definition GL_REPEAT : Z := 0x2901.
Definition GL_LINEAR : Z := 0x2601.
Definition NO_INIT : Z := -19.
(** On a 64-bit build. *)
Definition sizeof_GGLSurface : Z := 40.

Definition zero_GGLSurface : GGLSurface := mk_GGLSurface 0 0 0 0 0 0 0.
#[export] Instance eta_GGLSurface : Eta GGLSurface := fun s =>
  mk_GGLSurface (gs_version s) (gs_width s) (gs_height s) (gs_stride s) (gs_data s) (gs_format s) (gs_compressedFormat s).

Record EGLTextureObject := mk_texture {
  mSize : Z;
  mMipmaps : option (Z * list GGLSurface);   (* the block of the array, and its entries *)
  mNumExtraLod : Z;
  mIsComplete : bool;
  surface : GGLSurface;
  wraps : Z; wrapt : Z; min_filter : Z; mag_filter : Z;
  internalformat : Z;
  crop_rect : list Z;
  generate_mipmap : Z; direct : Z; native : Z }.
#[export] Instance eta_texture : Eta EGLTextureObject := fun t =>
  mk_texture (mSize t) (mMipmaps t) (mNumExtraLod t) (mIsComplete t) (surface t) (wraps t) (wrapt t)
    (min_filter t) (mag_filter t) (internalformat t) (crop_rect t) (generate_mipmap t) (direct t) (native t).

(** ** Operations *)

(** The constructor: [mSize] is 0 and [init] sets the rest. *)
Definition init (size : Z) : EGLTextureObject :=
  mk_texture size None 0 false (zero_GGLSurface <| gs_version := sizeof_GGLSurface |>) GL_REPEAT GL_REPEAT GL_LINEAR GL_LINEAR
    0 [0; 0; 0; 0] 0 0 0.
Definition new_texture : EGLTextureObject := init 0.

Definition copyParameters (t old : EGLTextureObject) : EGLTextureObject :=
  mk_texture (mSize t) (mMipmaps t) (mNumExtraLod t) (mIsComplete t) (surface t) (wraps old) (wrapt old)
    (min_filter old) (mag_filter old) (internalformat t) (crop_rect old) (generate_mipmap old) (direct old) (native t).

(** Free the pixels the object owns. *)
Definition free_surface (t : EGLTextureObject) : stM blocks unit :=
  if negb (mSize t =? 0) && negb (gs_data (surface t) =? 0) then free_block (gs_data (surface t)) else hret tt.

Fixpoint free_data (ms : list GGLSurface) : stM blocks unit :=
  match ms with
  | [] => hret tt
  | m :: ms => (if negb (gs_data m =? 0) then free_block (gs_data m) else hret tt) ;;; free_data ms
  end.
Definition freeMipmaps (t : EGLTextureObject) : stM blocks EGLTextureObject :=
  match mMipmaps t with
  | Some (p, ms) =>
      free_data (take (Z.to_nat (mNumExtraLod t)) ms) ;;; free_block p ;;;
      hret (t <| mMipmaps := None |> <| mNumExtraLod := 0 |>)
  | None => hret t
  end.

Definition destroy (t : EGLTextureObject) : stM blocks unit :=
  if direct t =? 0 then free_surface t ;;; let! _ := freeMipmaps t in hret tt else hret tt.

Definition allocateMipmaps (t : EGLTextureObject) : stM blocks (Z * EGLTextureObject) :=
  if gs_data (surface t) =? 0 then hret (NO_INIT, t)
  else
    let numLods := 31 - gglClz (Z.max (s32 (gs_width (surface t))) (s32 (gs_height (surface t)))) in
    if numLods <=? 0 then hret (NO_ERROR, t)
    else
      let! p := malloc_block in
      if p =? 0 then hret (NO_MEMORY, t)
      else hret (NO_ERROR, t <| mMipmaps := Some (p, replicate (Z.to_nat numLods) zero_GGLSurface) |>
                             <| mNumExtraLod := numLods |>).

(** The entry [mip] refers to: [None] is the base surface. *)
Definition mip_index (t : EGLTextureObject) (lod : Z) : option Z :=
  match mMipmaps t with
  | Some _ => if lod <=? 0 then None else Some (Z.min (lod - 1) (mNumExtraLod t - 1))
  | None => None
  end.
(** An index out of the array has no result. *)
Definition array_get (ms : list GGLSurface) (i : Z) : option GGLSurface := if i <? 0 then None else ms !! Z.to_nat i.
Definition mip (t : EGLTextureObject) (lod : Z) : stM blocks GGLSurface := fun m =>
  match mip_index t lod, mMipmaps t with
  | Some i, Some (_, ms) => s ← array_get ms i; Some (s, m)
  | _, _ => Some (surface t, m)
  end.
Definition editMip (t : EGLTextureObject) (lod : Z) (s : GGLSurface) : EGLTextureObject :=
  match mip_index t lod, mMipmaps t with
  | Some i, Some (p, ms) => t <| mMipmaps := Some (p, <[Z.to_nat i := s]> ms) |>
  | _, _ => t <| surface := s |>
  end.

Definition setSurface (t : EGLTextureObject) (s : GGLSurface) : stM blocks EGLTextureObject :=
  free_surface t ;;;
  let! t := freeMipmaps (mk_texture 0 (mMipmaps t) (mNumExtraLod t) (mIsComplete t) s (wraps t) (wrapt t) (min_filter t) (mag_filter t)
    0 [0; 0; 0; 0] 0 1 0) in
  hret (t <| mIsComplete := true |>).

Definition setImage (t : EGLTextureObject) (width height stride format native_buffer : Z) : stM blocks EGLTextureObject :=
  let! t := setSurface t (mk_GGLSurface sizeof_GGLSurface (u32 width) (u32 height) (s32 stride) 0 (u8 format) 0) in
  hret (t <| native := native_buffer |>).
Definition setImageBits (t : EGLTextureObject) (vaddr : Z) : EGLTextureObject := t <| surface ; gs_data := vaddr |>.

(** Does the chain of mipmaps halve the surface down the levels? *)
Fixpoint chain_complete (format : Z) (prev : GGLSurface) (ms : list GGLSurface) : bool :=
  match ms with
  | [] => true
  | curr :: ms =>
      let half x := if negb (Z.shiftr x 1 =? 0) then Z.shiftr x 1 else 1 in
      if negb (gs_format curr =? format) then false
      else if negb (half (gs_width prev) =? gs_width curr) || negb (half (gs_height prev) =? gs_height curr) then false
      else chain_complete format curr ms
  end.

Definition described (s : GGLSurface) (w h stride format compressedFormat : Z) : GGLSurface :=
  mk_GGLSurface sizeof_GGLSurface (u32 w) (u32 h) stride (gs_data s) (u8 format) compressedFormat.

(** The pixels of level 0, replaced when their size changes. *)
Definition reallocate_pixels (t : EGLTextureObject) (size : Z) : stM blocks (bool * EGLTextureObject) :=
  if negb (size =? mSize t) || (gs_data (surface t) =? 0) then
    free_surface t ;;;
    let! data := malloc_block in
    if data =? 0 then hret (false, t <| surface ; gs_data := 0 |> <| mSize := 0 |> <| mIsComplete := false |>)
    else hret (true, t <| surface ; gs_data := data |> <| mSize := size |>)
  else hret (true, t).

Definition reallocate_base (t : EGLTextureObject) (w h s format compressedFormat size : Z) : stM blocks (Z * EGLTextureObject) :=
  let! (ok, t) := reallocate_pixels t size in
  if negb ok then hret (NO_MEMORY, t)
  else
    let! t := freeMipmaps (t <| surface := described (surface t) w h s format compressedFormat |>) in
    hret (NO_ERROR, t <| mIsComplete := true |>).

(** New pixels for a mipmap, and the completeness of the result. *)
Definition reallocate_level (t : EGLTextureObject) (level w h s format compressedFormat : Z) : stM blocks (Z * EGLTextureObject) :=
  let! mipmap := mip t level in
  (if negb (gs_data mipmap =? 0) then free_block (gs_data mipmap) else hret tt) ;;;
  let! data := malloc_block in
  if data =? 0 then hret (NO_MEMORY, (editMip t level zero_GGLSurface) <| mIsComplete := false |>)
  else
    let t := editMip t level (described (mipmap <| gs_data := data |>) w h s format compressedFormat) in
    let levels := match mMipmaps t with Some (_, ms) => take (Z.to_nat (mNumExtraLod t)) ms | None => [] end in
    hret (NO_ERROR, t <| mIsComplete := chain_complete (gs_format (surface t)) (surface t) levels |>).

Definition reallocate_mip (t : EGLTextureObject) (level w h s format compressedFormat : Z) : stM blocks (Z * EGLTextureObject) :=
  let! (err, t) := (match mMipmaps t with Some _ => hret (NO_ERROR, t) | None => allocateMipmaps t end) in
  if negb (err =? NO_ERROR) then hret (NO_MEMORY, t) else reallocate_level t level w h s format compressedFormat.

Definition reallocate (t : EGLTextureObject) (level w h s format compressedFormat bpr : Z) : stM blocks (Z * EGLTextureObject) :=
  let size := u64 (s32 (h * bpr)) in
  if level =? 0 then reallocate_base t w h s format compressedFormat size
  else reallocate_mip t level w h s format compressedFormat.

(** ** Ownership *)

(** [l] lists the places where an object keeps blocks ([0]: none): each block is
    in one place, and the allocated blocks are these and the [rest]. *)
Record owns (m : blocks) (rest : gset Z) (l : list Z) : Prop := mk_owns {
  ow_once : forall i j p, l !! i = Some p -> l !! j = Some p -> p <> 0 -> i = j;
  ow_live : forall p, p ∈ t_live m <-> p ∈ rest \/ p <> 0 /\ p ∈ l;
  ow_apart : forall p, p ∈ l -> p <> 0 -> p ∉ rest;
  ow_next : 0 < t_next m;
  ow_fresh : forall p, p ∈ t_live m -> 0 < p < t_next m }.

Lemma elem_insert (l : list Z) (i : nat) (x p : Z) : (i < length l)%nat ->
  p ∈ <[i := x]> l <-> p = x \/ exists j, j <> i /\ l !! j = Some p.
Proof.
  intros Hi. rewrite list_elem_of_lookup. split.
  - intros [j Hj]. destruct (decide (i = j)) as [<-|Hne].
    + rewrite list_lookup_insert_eq in Hj by done. left. congruence.
    + rewrite list_lookup_insert_ne in Hj by done. right. by exists j.
  - intros [->|(j & Hne & Hj)]; [exists i; by apply list_lookup_insert_eq|]. exists j. by rewrite list_lookup_insert_ne.
Qed.

Lemma owns_free m rest l i p : owns m rest l -> l !! i = Some p ->
  exists m', free_block p m = Some (tt, m') /\ owns m' rest (<[i := 0]> l) /\ t_fails m' = t_fails m.
Proof.
  intros [O L P N F] Hi. pose proof (lookup_lt_Some _ _ _ Hi) as Hlt. unfold free_block. destruct (Z.eqb_spec p 0) as [->|Hp].
  { exists m. split; [done|]. split; [|done]. by rewrite list_insert_id. }
  assert (p ∈ l) as Hin by (by apply (list_elem_of_lookup_2 _ i)).
  rewrite decide_True by (apply L; by right). eexists. split; [reflexivity|]. split; [|done]. split; cbn [t_live t_next]; try done.
  - intros j k q Hj Hk Hq. rewrite list_lookup_insert_Some in Hj, Hk.
    destruct Hj as [(_ & <- & _)|[_ Hj]]; [done|]. destruct Hk as [(_ & <- & _)|[_ Hk]]; [done|]. by apply (O j k q).
  - intros q. rewrite elem_of_difference, elem_of_singleton, L, elem_insert by done. split.
    + intros [[Hr|[Hq Hl]] Hne]; [by left|right]. split; [done|]. right. apply list_elem_of_lookup in Hl as [j Hj].
      exists j. split; [|done]. intros ->. congruence.
    + intros [Hr|[Hq [->|(j & Hj & El)]]]; [|done|].
      * split; [by left|]. intros ->. by apply (P p).
      * split; [right; split; [done|by apply (list_elem_of_lookup_2 _ j)]|]. intros ->. by apply Hj, (O j i p).
  - intros q Hq Hq0. rewrite elem_insert in Hq by done. destruct Hq as [->|(j & _ & Hj)]; [done|].
    apply P; [by apply (list_elem_of_lookup_2 _ j)|done].
  - intros q Hq. apply elem_of_difference in Hq as [Hq _]. by apply F.
Qed.

Lemma owns_alloc m rest l i : owns m rest l -> l !! i = Some 0 ->
  exists q m', malloc_block m = Some (q, m') /\
    (q = 0 /\ owns m' rest l \/ q <> 0 /\ owns m' rest (<[i := q]> l)).
Proof.
  intros OW Hi. pose proof OW as [O L P N F]. pose proof (lookup_lt_Some _ _ _ Hi) as Hlt.
  assert (t_next m ∉ t_live m) as Nn by (intros H; pose proof (F _ H); lia).
  assert (forall fs, owns (mk_blocks ({[t_next m]} ∪ t_live m) (t_next m + 1) fs) rest (<[i := t_next m]> l)) as HA.
  { intros fs. split; cbn [t_live t_next]; try lia.
    - intros j k q Hj Hk Hq. rewrite list_lookup_insert_Some in Hj, Hk.
      assert (forall k, l !! k <> Some (t_next m)) as Nl.
      { intros k' Hk'. apply Nn, L. right. split; [lia|]. by apply (list_elem_of_lookup_2 _ k'). }
      destruct Hj as [(<- & <- & _)|[_ Hj]], Hk as [(<- & Hk' & _)|[_ Hk]]; try done.
      + by destruct (Nl k).
      + rewrite <- Hk' in Hj. by destruct (Nl j).
      + by apply (O j k q).
    - intros q. rewrite elem_of_union, elem_of_singleton, L, elem_insert by done. split.
      + intros [->|[Hr|[Hq Hl]]]; [right; split; [lia|by left]|by left|right]. split; [done|]. right.
        apply list_elem_of_lookup in Hl as [j Hj]. exists j. split; [|done]. intros ->. congruence.
      + intros [Hr|[Hq [->|(j & _ & Hj)]]]; [tauto|tauto|]. right. right. split; [done|]. by apply (list_elem_of_lookup_2 _ j).
    - intros q Hq Hq0. rewrite elem_insert in Hq by done. destruct Hq as [->|(j & _ & Hj)].
      + intros Hr. apply Nn, L. by left.
      + apply P; [by apply (list_elem_of_lookup_2 _ j)|done].
    - intros q Hq. apply elem_of_union in Hq as [Hq|Hq]; [apply elem_of_singleton in Hq as ->; lia|]. pose proof (F q Hq). lia. }
  unfold malloc_block. destruct (t_fails m) as [|[] fs]; cbn [tail].
  - exists (t_next m). eexists. split; [reflexivity|]. right. split; [lia|apply HA].
  - exists 0. eexists. split; [reflexivity|]. left. by split.
  - exists (t_next m). eexists. split; [reflexivity|]. right. split; [lia|apply HA].
Qed.

(** Empty places at the end do not matter. *)
Lemma owns_zeros m rest l zs : Forall (eq 0) zs -> owns m rest (l ++ zs) <-> owns m rest l.
Proof.
  intros Hz. rewrite Forall_forall in Hz. split; intros [O L P N F]; split; try done.
  - intros i j p Hi Hj. apply (O i j p); by apply lookup_app_l_Some.
  - intros p. rewrite L, elem_of_app. split; [|tauto]. intros [?|[Hp [?|Hi]]]; [tauto|tauto|]. by destruct Hp, (Hz p Hi).
  - intros p Hp. apply P, elem_of_app. by left.
  - intros i j p Hi Hj Hp. apply lookup_app_Some in Hi as [Hi|[_ Hi]]; [|destruct Hp; symmetry; apply Hz; by eapply list_elem_of_lookup_2].
    apply lookup_app_Some in Hj as [Hj|[_ Hj]]; [by apply (O i j p)|destruct Hp; symmetry; apply Hz; by eapply list_elem_of_lookup_2].
  - intros p. rewrite L, elem_of_app. split; [tauto|]. intros [?|[Hp [?|Hi]]]; [tauto|tauto|]. by destruct Hp, (Hz p Hi).
  - intros p Hp Hp0. apply elem_of_app in Hp as [Hp|Hp]; [by apply P|]. by destruct Hp0, (Hz p Hp).
Qed.

(** The places of a texture: its pixels if it owns them, the array, the pixels
    of each mipmap. *)
Definition base_slot (t : EGLTextureObject) : Z := if mSize t =? 0 then 0 else gs_data (surface t).
Definition mip_slots (t : EGLTextureObject) : list Z :=
  match mMipmaps t with Some (p, ms) => p :: map gs_data ms | None => [0] end.
Definition slots (t : EGLTextureObject) : list Z := base_slot t :: mip_slots t.

Definition shape_ok (t : EGLTextureObject) : Prop :=
  match mMipmaps t with
  | Some (p, ms) => p <> 0 /\ mNumExtraLod t = Z.of_nat (length ms) /\ ms <> []
  | None => mNumExtraLod t = 0
  end.
Record texture_ok (m : blocks) (rest : gset Z) (t : EGLTextureObject) : Prop := mk_texture_ok {
  tx_owns : owns m rest (slots t);
  tx_shape : shape_ok t }.

Lemma owns_free_if m rest l i p : owns m rest l -> l !! i = Some p ->
  exists m', (if negb (p =? 0) then free_block p else hret tt) m = Some (tt, m') /\ owns m' rest (<[i := 0]> l).
Proof.
  intros O Hi. destruct (owns_free m rest l i p O Hi) as (m' & E & O' & _). exists m'. split; [|done].
  destruct (Z.eqb_spec p 0) as [->|]; [|done]. cbn. unfold free_block in E. by injection E as ->.
Qed.

Lemma free_surface_spec m rest t : owns m rest (slots t) ->
  exists m', free_surface t m = Some (tt, m') /\ owns m' rest (0 :: mip_slots t).
Proof.
  intros O. destruct (owns_free_if m rest (slots t) 0 (base_slot t) O eq_refl) as (m' & E & O'). exists m'. split; [|done].
  unfold free_surface, base_slot in *. by destruct (mSize t =? 0).
Qed.

Lemma free_data_spec m rest l1 ms l2 : owns m rest (l1 ++ map gs_data ms ++ l2) ->
  exists m', free_data ms m = Some (tt, m') /\ owns m' rest (l1 ++ replicate (length ms) 0 ++ l2).
Proof.
  revert m l1. induction ms as [|s ms IH]; intros m l1 O; cbn [free_data map replicate length app] in *; [by exists m|].
  destruct (owns_free_if m rest _ (length l1) (gs_data s) O) as (m1 & E & O1); [by apply list_lookup_middle|].
  rewrite (hbind_some _ _ _ _ _ E). rewrite insert_app_r_alt, Nat.sub_diag in O1 by done. cbn in O1.
  rewrite cons_middle, app_assoc in O1. destruct (IH m1 (l1 ++ [0]) O1) as (m' & E' & O'). exists m'. split; [done|].
  by rewrite <- app_assoc in O'.
Qed.

Lemma freeMipmaps_spec m rest b t : owns m rest (b :: mip_slots t) -> shape_ok t ->
  exists m' t', freeMipmaps t m = Some (t', m') /\ owns m' rest [b; 0] /\ shape_ok t' /\
    t' = t <| mMipmaps := None |> <| mNumExtraLod := 0 |>.
Proof.
  unfold freeMipmaps, mip_slots, shape_ok. intros O S. destruct (mMipmaps t) as [[p ms]|] eqn:EM.
  - destruct S as (Hp & Hn & _). rewrite Hn, Nat2Z.id, firstn_all.
    destruct (free_data_spec m rest [b; p] ms []) as (m1 & E & O1); [by rewrite app_nil_r|]. rewrite (hbind_some _ _ _ _ _ E).
    destruct (owns_free m1 rest _ 1 p O1 eq_refl) as (m2 & E2 & O2 & _). rewrite (hbind_some _ _ _ _ _ E2).
    exists m2. eexists. split; [reflexivity|]. split; [|done]. cbn in O2. rewrite app_nil_r in O2.
    apply (owns_zeros m2 rest [b; 0] (replicate (length ms) 0)); [|done]. apply Forall_forall. by intros x [-> _]%elem_of_replicate.
  - exists m, t. split; [done|]. split; [done|]. split; [by rewrite EM|]. destruct t. cbn in *. by subst.
Qed.

(** Destroying a texture that is not direct frees all it owns. *)
Lemma texture_destroy_spec m rest t : texture_ok m rest t -> direct t = 0 ->
  exists m', destroy t m = Some (tt, m') /\ t_live m' = rest.
Proof.
  intros [O S] D. unfold destroy. rewrite D. cbn [Z.eqb].
  destruct (free_surface_spec m rest t O) as (m1 & E & O1). rewrite (hbind_some _ _ _ _ _ E).
  destruct (freeMipmaps_spec m1 rest 0 t O1 S) as (m2 & t' & E2 & O2 & _). rewrite (hbind_some _ _ _ _ _ E2).
  exists m2. split; [done|]. apply set_eq. intros p. rewrite (ow_live _ _ _ O2), !elem_of_cons, elem_of_nil. tauto.
Qed.

Lemma setSurface_spec m rest t s : texture_ok m rest t ->
  exists m' t', setSurface t s m = Some (t', m') /\ texture_ok m' rest t' /\ mMipmaps t' = None /\ surface t' = s /\ direct t' = 1 /\ mSize t' = 0.
Proof.
  intros [O S]. unfold setSurface. destruct (free_surface_spec m rest t O) as (m1 & E & O1). rewrite (hbind_some _ _ _ _ _ E).
  set (t1 := mk_texture _ _ _ _ _ _ _ _ _ _ _ _ _ _).
  destruct (freeMipmaps_spec m1 rest 0 t1 O1 S) as (m2 & t' & E2 & O2 & S2 & ->). rewrite (hbind_some _ _ _ _ _ E2).
  exists m2. eexists. split; [reflexivity|]. split; [|done]. split; [exact O2|done].
Qed.

Lemma allocateMipmaps_spec m rest t : texture_ok m rest t -> mMipmaps t = None ->
  exists err t' m', allocateMipmaps t m = Some ((err, t'), m') /\ texture_ok m' rest t' /\
    surface t' = surface t /\ mSize t' = mSize t /\ direct t' = direct t.
Proof.
  intros [O S] EM. unfold allocateMipmaps. destruct (gs_data (surface t) =? 0).
  { exists NO_INIT, t, m. by split_and!. }
  set (n := 31 - gglClz _). destruct (Z.leb_spec n 0) as [Hn|Hn].
  { exists NO_ERROR, t, m. by split_and!. }
  assert (owns m rest [base_slot t; 0]) as O' by (unfold slots, mip_slots in O; by rewrite EM in O).
  destruct (owns_alloc m rest [base_slot t; 0] 1 O' eq_refl) as (q & m1 & E & [[-> O1]|[Hq O1]]); rewrite (hbind_some _ _ _ _ _ E).
  - exists NO_MEMORY, t, m1. split; [done|]. split; [|done]. split; [|done]. unfold slots, mip_slots. by rewrite EM.
  - rewrite (proj2 (Z.eqb_neq q 0) Hq). eexists _, _, m1. split; [reflexivity|]. split; [|done]. split.
    + unfold slots, mip_slots. cbn. cbn in O1.
      apply (owns_zeros m1 rest [base_slot t; q] (map gs_data (replicate (Z.to_nat n) zero_GGLSurface))); [|done].
      apply Forall_forall. intros x Hx. apply list_elem_of_In, in_map_iff in Hx as (s & <- & Hs).
      apply list_elem_of_In, elem_of_replicate in Hs as [-> _]. done.
    + unfold shape_ok. cbn. split; [done|]. rewrite length_replicate. split; [lia|]. destruct (Z.to_nat n) eqn:E0; [lia|done].
Qed.

(** Where [mip] and [editMip] reach. *)
Lemma mip_slot m t level : shape_ok t -> 0 < level -> (mMipmaps t = None -> mSize t <> 0) ->
  exists i cur, mip t level m = Some (cur, m) /\ slots t !! i = Some (gs_data cur) /\
    forall s, slots (editMip t level s) = <[i := gs_data s]> (slots t) /\ shape_ok (editMip t level s).
Proof.
  intros S Hl Hd. unfold mip, editMip, mip_index, shape_ok, slots, mip_slots, base_slot in *.
  destruct (mMipmaps t) as [[p ms]|] eqn:EM.
  - destruct S as (Hp & Hn & Hms). assert (0 < length ms)%nat by (destruct ms; [done|cbn; lia]).
    destruct (Z.leb_spec level 0); [lia|]. set (i := Z.min (level - 1) (mNumExtraLod t - 1)).
    assert (0 <= i < Z.of_nat (length ms)) as Hi by lia.
    destruct (lookup_lt_is_Some_2 ms (Z.to_nat i) ltac:(lia)) as [cur Hc].
    exists (Datatypes.S (Datatypes.S (Z.to_nat i))), cur. unfold array_get. destruct (Z.ltb_spec i 0); [lia|]. rewrite Hc. split; [done|].
    split; [change ((gs_data <$> ms) !! Z.to_nat i = Some (gs_data cur)); by rewrite list_lookup_fmap, Hc|].
    intros s. cbn. split.
    + do 2 f_equal. by apply (list_fmap_insert gs_data).
    + rewrite length_insert. split_and!; try done. intros E. apply (f_equal length) in E. rewrite length_insert in E. cbn in E. lia.
  - exists 0%nat, (surface t). split; [done|]. rewrite (proj2 (Z.eqb_neq _ 0) (Hd eq_refl)). split; [done|].
    intros s. cbn. rewrite EM. by rewrite (proj2 (Z.eqb_neq _ 0) (Hd eq_refl)).
Qed.

Lemma reallocate_pixels_spec m rest t size : texture_ok m rest t -> size <> 0 ->
  exists ok t' m', reallocate_pixels t size m = Some ((ok, t'), m') /\ texture_ok m' rest t' /\ direct t' = direct t /\
    (ok = true -> mSize t' = size).
Proof.
  intros [O S] Hs. unfold reallocate_pixels. destruct (negb (size =? mSize t) || (gs_data (surface t) =? 0)) eqn:EC.
  - destruct (free_surface_spec m rest t O) as (m1 & E & O1). rewrite (hbind_some _ _ _ _ _ E).
    destruct (owns_alloc m1 rest (0 :: mip_slots t) 0 O1 eq_refl) as (q & m2 & E2 & [[-> O2]|[Hq O2]]);
      rewrite (hbind_some _ _ _ _ _ E2).
    + eexists _, _, m2. split; [reflexivity|]. split; [by split|]. done.
    + rewrite (proj2 (Z.eqb_neq q 0) Hq). eexists _, _, m2. split; [reflexivity|]. split; [|done]. split; [|exact S].
      unfold slots, base_slot. cbn. by rewrite (proj2 (Z.eqb_neq size 0) Hs).
  - apply orb_false_iff in EC as [EC _]. apply negb_false_iff, Z.eqb_eq in EC. by exists true, t, m.
Qed.

Lemma reallocate_base_spec m rest t w h s format comp size : texture_ok m rest t -> size <> 0 ->
  exists err t' m', reallocate_base t w h s format comp size m = Some ((err, t'), m') /\ texture_ok m' rest t' /\ direct t' = direct t /\
    (err = NO_MEMORY \/ err = NO_ERROR /\ mIsComplete t' = true /\ mMipmaps t' = None /\ mSize t' = size /\
      exists data, surface t' = described (zero_GGLSurface <| gs_data := data |>) w h s format comp).
Proof.
  intros H Hs. unfold reallocate_base. destruct (reallocate_pixels_spec m rest t size H Hs) as ([] & t1 & m1 & E & [O1 S1] & D1 & Z1);
    rewrite (hbind_some _ _ _ _ _ E); cbn [negb].
  - set (t2 := t1 <| surface := _ |>).
    destruct (freeMipmaps_spec m1 rest (base_slot t2) t2) as (m2 & t3 & E2 & O2 & S2 & ->); [exact O1|exact S1|].
    rewrite (hbind_some _ _ _ _ _ E2). eexists _, _, m2. split; [reflexivity|]. split; [by split|]. split; [exact D1|]. right.
    split_and!; try done; [by apply Z1|by exists (gs_data (surface t1))].
  - exists NO_MEMORY, t1, m1. split; [done|]. split; [by split|]. split; [done|by left].
Qed.

Lemma reallocate_level_spec m rest t level w h s format comp : texture_ok m rest t -> 0 < level -> (mMipmaps t = None -> mSize t <> 0) ->
  exists err t' m', reallocate_level t level w h s format comp m = Some ((err, t'), m') /\
    texture_ok m' rest t' /\ direct t' = direct t /\ (err = NO_MEMORY \/ err = NO_ERROR).
Proof.
  intros [O S] Hl Hd. destruct (mip_slot m t level S Hl Hd) as (i & cur & EM & Hi & HE).
  unfold reallocate_level. rewrite (hbind_some _ _ _ _ _ EM).
  destruct (owns_free_if m rest (slots t) i (gs_data cur) O Hi) as (m1 & E & O1). rewrite (hbind_some _ _ _ _ _ E).
  pose proof (lookup_lt_Some _ _ _ Hi) as Hlt.
  destruct (owns_alloc m1 rest _ i O1) as (q & m2 & E2 & Hq); [by apply list_lookup_insert_eq|].
  rewrite (hbind_some _ _ _ _ _ E2). rewrite list_insert_insert_eq in Hq.
  assert (forall s, direct (editMip t level s) = direct t) as HD.
  { intros s0. unfold editMip. destruct (mip_index t level) as [j|]; [|done]. by destruct (mMipmaps t) as [[p ms]|]. }
  destruct Hq as [[-> O2]|[Hq O2]].
  - eexists _, _, m2. split; [reflexivity|]. split; [|split; [by apply HD|by left]]. destruct (HE zero_GGLSurface) as [ES SS].
    split; [|exact SS]. cbn in ES. rewrite <- ES in O2. exact O2.
  - rewrite (proj2 (Z.eqb_neq q 0) Hq). eexists _, _, m2. split; [reflexivity|]. split; [|split; [by apply HD|by right]].
    destruct (HE (described (cur <| gs_data := q |>) w h s format comp)) as [ES SS].
    split; [|exact SS]. cbn in ES. rewrite <- ES in O2. exact O2.
Qed.

(** A level above 0 of a texture without mipmaps is level 0 itself when that is a
    single pixel; then its pixels must be the texture's own. *)
Definition level_ok (t : EGLTextureObject) : Prop :=
  mMipmaps t <> None \/ mSize t <> 0 \/
  1 < Z.max (gs_width (surface t)) (gs_height (surface t)) < 2 ^ 31 /\ 0 <= gs_width (surface t) /\ 0 <= gs_height (surface t).

Lemma lods_large (t : EGLTextureObject) :
  1 < Z.max (gs_width (surface t)) (gs_height (surface t)) < 2 ^ 31 -> 0 <= gs_width (surface t) -> 0 <= gs_height (surface t) ->
  31 - gglClz (Z.max (s32 (gs_width (surface t))) (s32 (gs_height (surface t)))) =
    Z.log2 (Z.max (gs_width (surface t)) (gs_height (surface t))) /\
  0 < Z.log2 (Z.max (gs_width (surface t)) (gs_height (surface t))).
Proof.
  intros Hm Hw Hh. rewrite !s32_id by (unfold is_s32; lia). rewrite gglClz_pos by lia. split; [lia|]. apply Z.log2_pos. lia.
Qed.

Lemma reallocate_mip_spec m rest t level w h s format comp : texture_ok m rest t -> 0 < level -> level_ok t ->
  exists err t' m', reallocate_mip t level w h s format comp m = Some ((err, t'), m') /\ texture_ok m' rest t' /\ direct t' = direct t /\
    (err = NO_MEMORY \/ err = NO_ERROR).
Proof.
  intros H Hl Hok. unfold reallocate_mip. destruct (mMipmaps t) as [[p ms]|] eqn:EM.
  { rewrite (hbind_some _ _ m (NO_ERROR, t) m) by done. apply reallocate_level_spec; try done. by rewrite EM. }
  destruct (allocateMipmaps_spec m rest t H EM) as (err & t1 & m1 & E & H1 & ES & EZ & ED). rewrite (hbind_some _ _ _ _ _ E).
  destruct (Z.eqb_spec err NO_ERROR) as [->|Hne]; cbn [negb].
  2: { exists NO_MEMORY, t1, m1. split; [done|]. split; [done|]. split; [done|by left]. }
  rewrite <- ED. apply reallocate_level_spec; [done|done|]. intros EM1. rewrite EZ. destruct Hok as [?|[?|(Hm & Hw & Hh)]]; [done|done|].
  exfalso. destruct (lods_large t Hm Hw Hh) as [EL HL]. revert E. unfold allocateMipmaps. rewrite EL.
  destruct (gs_data (surface t) =? 0); [by intros [= ? _ _]|]. destruct (Z.leb_spec (Z.log2 (Z.max (gs_width (surface t)) (gs_height (surface t)))) 0); [lia|].
  unfold hbind. destruct (malloc_block m) as [[q m2]|]; [|done]. cbn. destruct (q =? 0); [by intros [= ? _ _]|].
  unfold hret. intros [= <- _]. done.
Qed.

(** ** Runs *)

Inductive xop :=
  | X_setSurface (s : GGLSurface)
  | X_setImage (width height stride format native_buffer : Z)
  | X_reallocate (level w h s format compressedFormat bpr : Z).
Definition run_xop (t : EGLTextureObject) (o : xop) : stM blocks EGLTextureObject :=
  match o with
  | X_setSurface s => setSurface t s
  | X_setImage w h st f b => setImage t w h st f b
  | X_reallocate level w h s f c bpr => let! (_, t) := reallocate t level w h s f c bpr in hret t
  end.
Fixpoint run_xops (os : list xop) (t : EGLTextureObject) : stM blocks EGLTextureObject :=
  match os with [] => hret t | o :: os => let! t := run_xop t o in run_xops os t end.

(** The calls the callers make: levels that are not negative, pixels to hold. *)
Definition xop_ok (t : EGLTextureObject) (o : xop) : Prop :=
  match o with
  | X_reallocate level _ h _ _ _ bpr => 0 <= level /\ (level = 0 -> u64 (s32 (h * bpr)) <> 0) /\ (0 < level -> level_ok t)
  | _ => True
  end.
Fixpoint xops_ok (os : list xop) (t : EGLTextureObject) (m : blocks) : Prop :=
  match os with
  | [] => True
  | o :: os => xop_ok t o /\ match run_xop t o m with Some (t, m) => xops_ok os t m | None => True end
  end.
Definition owned_only (o : xop) : bool := match o with X_reallocate _ _ _ _ _ _ _ => true | _ => false end.

Lemma run_xop_spec o m rest t : texture_ok m rest t -> xop_ok t o ->
  exists t' m', run_xop t o m = Some (t', m') /\ texture_ok m' rest t' /\ (owned_only o = true -> direct t' = direct t).
Proof.
  intros H Hok. destruct o as [s|w h st f b|level w h s f c bpr]; cbn [run_xop owned_only].
  - destruct (setSurface_spec m rest t s H) as (m' & t' & E & H' & _). by exists t', m'.
  - unfold setImage. destruct (setSurface_spec m rest t (mk_GGLSurface sizeof_GGLSurface (u32 w) (u32 h) (s32 st) 0 (u8 f) 0) H)
      as (m' & t' & E & [O' S'] & _). rewrite (hbind_some _ _ _ _ _ E). eexists _, m'. split; [reflexivity|]. split; [|done]. by split.
  - destruct Hok as (H0 & Hz & Hl). unfold reallocate. destruct (Z.eqb_spec level 0) as [El|El].
    + destruct (reallocate_base_spec m rest t w h s f c _ H (Hz El)) as (err & t' & m' & E & H' & D & _).
      rewrite (hbind_some _ _ _ _ _ E). by exists t', m'.
    + destruct (reallocate_mip_spec m rest t level w h s f c H ltac:(lia) (Hl ltac:(lia))) as (err & t' & m' & E & H' & D & _).
      rewrite (hbind_some _ _ _ _ _ E). by exists t', m'.
Qed.


Lemma new_texture_ok m : t_live m = ∅ -> 0 < t_next m -> texture_ok m ∅ new_texture.
Proof.
  intros E N. split; [|done]. unfold slots, mip_slots, base_slot. cbn.
  apply (owns_zeros m ∅ [] [0; 0]); [by repeat constructor|]. split; rewrite ?E; set_solver.
Qed.

(** ** Complete textures *)

(** The size of a side [n] levels down. *)
Definition lod_size (x : Z) (n : nat) : Z := Z.max 1 (Z.shiftr x (Z.of_nat n)).

Lemma half_spec x : 0 <= x -> (if negb (Z.shiftr x 1 =? 0) then Z.shiftr x 1 else 1) = Z.max 1 (Z.shiftr x 1).
Proof. intros Hx. pose proof (proj2 (Z.shiftr_nonneg x 1) Hx). destruct (Z.eqb_spec (Z.shiftr x 1) 0); cbn [negb]; lia. Qed.

Lemma half_lod x n : 0 <= x ->
  (if negb (Z.shiftr (lod_size x n) 1 =? 0) then Z.shiftr (lod_size x n) 1 else 1) = lod_size x (Datatypes.S n).
Proof.
  intros Hx. rewrite half_spec by (unfold lod_size; lia). unfold lod_size.
  rewrite Nat2Z.inj_succ, <- Z.add_1_r, <- Z.shiftr_shiftr by lia.
  set (y := Z.shiftr x (Z.of_nat n)). assert (0 <= y) by (by apply Z.shiftr_nonneg).
  rewrite !shiftr_div by lia. destruct (Z.max_spec 1 y); div_lia.
Qed.

Lemma chain_complete_spec format base (n : nat) prev ms :
  0 <= gs_width base -> 0 <= gs_height base ->
  (forall x y : Z, (x = gs_width base /\ y = gs_width prev \/ x = gs_height base /\ y = gs_height prev) ->
    (if negb (Z.shiftr y 1 =? 0) then Z.shiftr y 1 else 1) = lod_size x (Datatypes.S n)) ->
  chain_complete format prev ms = true <->
  forall i s, ms !! i = Some s -> gs_format s = format /\
    gs_width s = lod_size (gs_width base) (Datatypes.S n + i) /\ gs_height s = lod_size (gs_height base) (Datatypes.S n + i).
Proof.
  intros Hw Hh. revert n prev. induction ms as [|c ms IH]; intros n prev HP; cbn [chain_complete].
  { split; [|done]. intros _ i s. by rewrite lookup_nil. }
  rewrite (HP (gs_width base) (gs_width prev)), (HP (gs_height base) (gs_height prev)) by tauto.
  destruct (Z.eqb_spec (gs_format c) format) as [Ef|Ef]; cbn [negb].
  2: { split; [done|]. intros H. destruct (H 0%nat c eq_refl) as [? _]. done. }
  destruct (Z.eqb_spec (lod_size (gs_width base) (Datatypes.S n)) (gs_width c)) as [Ew|Ew]; cbn [negb orb].
  2: { split; [done|]. intros H. destruct (H 0%nat c eq_refl) as (_ & H1 & _). rewrite Nat.add_0_r in H1. congruence. }
  destruct (Z.eqb_spec (lod_size (gs_height base) (Datatypes.S n)) (gs_height c)) as [Eh|Eh]; cbn [negb].
  2: { split; [done|]. intros H. destruct (H 0%nat c eq_refl) as (_ & _ & H1). rewrite Nat.add_0_r in H1. congruence. }
  rewrite (IH (Datatypes.S n) c).
  2: { intros x y [[-> ->]|[-> ->]]; [rewrite <- Ew|rewrite <- Eh]; by apply half_lod. }
  split; intros H i s Hs.
  - destruct i as [|i]; [injection Hs as <-; rewrite Nat.add_0_r; by split_and!|]. replace (Datatypes.S n + Datatypes.S i)%nat with (Datatypes.S (Datatypes.S n) + i)%nat by lia. by apply (H i s).
  - replace (Datatypes.S (Datatypes.S n) + i)%nat with (Datatypes.S n + Datatypes.S i)%nat by lia. by apply (H (Datatypes.S i) s).
Qed.

(** C16: After level [level] of a texture with mipmaps is allocated, the texture is
    complete exactly when every level has the format of level 0 and the sides of
    level 0 halved as many times, down to 1. *)
Theorem texture_complete t level w h s format comp m t' m' p ms :
  reallocate_level t level w h s format comp m = Some ((NO_ERROR, t'), m') ->
  mMipmaps t' = Some (p, ms) -> mNumExtraLod t' = Z.of_nat (length ms) ->
  0 <= gs_width (surface t') -> 0 <= gs_height (surface t') ->
  mIsComplete t' = true <->
  forall i c, ms !! i = Some c -> gs_format c = gs_format (surface t') /\
    gs_width c = lod_size (gs_width (surface t')) (Datatypes.S i) /\ gs_height c = lod_size (gs_height (surface t')) (Datatypes.S i).
Proof.
  unfold reallocate_level, hbind. destruct (mip t level m) as [[cur m1]|]; [|done]. cbn [mbind option_bind].
  destruct ((if negb (gs_data cur =? 0) then free_block (gs_data cur) else hret tt) m1) as [[[] m2]|]; [|done]. cbn [mbind option_bind].
  destruct (malloc_block m2) as [[q m3]|]; [|done]. cbn [mbind option_bind]. destruct (q =? 0); unfold hret; [done|].
  set (t1 := editMip t level _). intros [= <- _] EM EN Hw Hh. cbn in *. rewrite EM, EN, Nat2Z.id, firstn_all.
  rewrite (chain_complete_spec (gs_format (surface t1)) (surface t1) 0 (surface t1) ms Hw Hh); [done|].
  intros x y [[-> ->]|[-> ->]]; by apply half_spec.
Qed.

(** ** Where memory is lost or not the texture's own *)

Definition fresh_blocks (fails : list bool) : blocks := mk_blocks ∅ 1 fails.
Definition foreign (w h : Z) : GGLSurface := mk_GGLSurface sizeof_GGLSurface w h w 4096 4 0.

(** A texture once set from a foreign surface stays [direct] for good: pixels
    allocated afterwards are not freed with it. *)
Theorem direct_texture_leaks :
  exists t m, run_xops [X_setSurface (foreign 8 8); X_reallocate 0 4 4 4 1 0 16] new_texture (fresh_blocks []) = Some (t, m) /\
    gs_data (surface t) = 1 /\ destroy t m = Some (tt, m) /\ 1 ∈ t_live m.
Proof. do 2 eexists. split; [reflexivity|]. split; [reflexivity|]. split; [reflexivity|]. vm_compute. reflexivity. Qed.

(** Level 1 of a single-pixel texture is level 0 itself: the call replaces the
    base level by the image meant for level 1, and frees the pixels of a foreign
    surface. *)
Theorem single_pixel_level1 :
  (exists t m, run_xops [X_reallocate 0 1 1 1 4 0 2; X_reallocate 1 8 8 8 4 0 16] new_texture (fresh_blocks []) = Some (t, m) /\
    gs_width (surface t) = 8 /\ mMipmaps t = None /\ mSize t = 2) /\
  run_xops [X_setSurface (foreign 1 1); X_reallocate 1 1 1 1 4 0 2] new_texture (fresh_blocks []) = None.
Proof. split; [do 2 eexists; split; [reflexivity|]; by split_and!|reflexivity]. Qed.

(** ** Witnesses *)

Definition pyramid_run : list xop :=
  [X_reallocate 0 4 2 4 4 0 8; X_reallocate 1 2 1 2 4 0 4; X_reallocate 2 1 1 1 4 0 2; X_reallocate 1 3 3 3 4 0 6;
   X_reallocate 0 2 2 2 4 0 4; X_reallocate 1 1 1 1 4 0 2].

Definition half_pyramid : EGLTextureObject :=
  mk_texture 16 (Some (2, [mk_GGLSurface 40 2 1 2 3 4 0; zero_GGLSurface])) 2 false (mk_GGLSurface 40 4 2 4 1 4 0)
    GL_REPEAT GL_REPEAT GL_LINEAR GL_LINEAR 0 [0; 0; 0; 0] 0 0 0.
Definition full_pyramid : EGLTextureObject :=
  half_pyramid <| mMipmaps := Some (2, [mk_GGLSurface 40 2 1 2 3 4 0; mk_GGLSurface 40 1 1 1 7 4 0]) |> <| mIsComplete := true |>.
Lemma texture_complete_witness :
  exists m', reallocate_level half_pyramid 2 1 1 1 4 0 (mk_blocks ∅ 7 []) = Some ((NO_ERROR, full_pyramid), m') /\
    forall i c, [mk_GGLSurface 40 2 1 2 3 4 0; mk_GGLSurface 40 1 1 1 7 4 0] !! i = Some c ->
      gs_format c = 4 /\ gs_width c = lod_size 4 (Datatypes.S i) /\ gs_height c = lod_size 2 (Datatypes.S i).
Proof.
  exists (mk_blocks ({[7]} ∪ ∅) 8 []). split; [reflexivity|].
  refine (proj1 (texture_complete half_pyramid 2 1 1 1 4 0 (mk_blocks ∅ 7 []) full_pyramid (mk_blocks ({[7]} ∪ ∅) 8 []) 2
    [mk_GGLSurface 40 2 1 2 3 4 0; mk_GGLSurface 40 1 1 1 7 4 0] eq_refl eq_refl eq_refl _ _) eq_refl); vm_compute; discriminate.
Defined.
