(* ===== verification/TextureManager.v ===== *)
(** * The texture manager

    Models EGLSurfaceManager of swrender/TextureObjectManager.cpp: texture
    objects counted by their references and found by name in a keyed vector,
    which holds one reference to each.  A call that returns a strong pointer
    returns an address ([0]: null) and leaves the caller one reference.  The
    references are exactly the names' and the callers', and an object that is to
    be changed under a name is shared with nobody. *)

From S2P Require Import Prelude SharedBuffer Vector VectorSpec Sequence SortedVector KeyedVector TextureObjects.
From stdpp Require Import base gmap.

#[local] Set Warnings "-clear-no-such-hyp".
#[local] Open Scope Z_scope.
#[local] Open Scope state_scope.

Module TextureManager.

(** The world: that of the vector, the live objects with their counts, the next
    fresh address.  What an object's destructor frees is [TextureObjects.v]'s. *)
Record world (W : Type) := mk_world { m_vector : W; m_objects : gmap Z (Z * EGLTextureObject); m_next : Z }.
Arguments mk_world {W}.
Arguments m_vector {W}.
Arguments m_objects {W}.
Arguments m_next {W}.

Section Operations.
  Context {W V : Type} `{Ops : SeqOps W V (Z * Z)}.
  Implicit Types (mTextures : V) (s : world W).

Definition on_vector {B} (m : stM W B) : stM (world W) B := fun s =>
  '(x, w) ← m (m_vector s); Some (x, mk_world w (m_objects s) (m_next s)).
Definition set_objects (o : gmap Z (Z * EGLTextureObject)) : stM (world W) unit := fun s =>
  Some (tt, mk_world (m_vector s) o (m_next s)).
Definition get_object (p : Z) : stM (world W) (Z * EGLTextureObject) := fun s => x ← m_objects s !! p; Some (x, s).
(** [new EGLTextureObject()], with the references [refs] it is given at once. *)
Definition new_object (refs : Z) (t : EGLTextureObject) : stM (world W) Z := fun s =>
  Some (m_next s, mk_world (m_vector s) (<[m_next s := (refs, t)]> (m_objects s)) (m_next s + 1)).

Definition incStrong (p : Z) : stM (world W) unit := fun s =>
  '(r, t) ← m_objects s !! p; set_objects (<[p := (r + 1, t)]> (m_objects s)) s.
Definition decStrong (p : Z) : stM (world W) unit := fun s =>
  '(r, t) ← m_objects s !! p;
  set_objects (if r =? 1 then delete p (m_objects s) else <[p := (r - 1, t)]> (m_objects s)) s.

(** Removing an item from the vector drops its reference. *)
Definition remove_at mTextures (index p : Z) : stM (world W) V :=
  let! (_, mTextures) := on_vector (KeyedVector.removeItemsAt mTextures (Z.to_nat index) 1) in
  decStrong p ;;; hret mTextures.

Definition createTexture mTextures (name : Z) : stM (world W) (Z * V) :=
  let! i := on_vector (KeyedVector.indexOfKey 0 mTextures name) in
  if 0 <=? i then hret (0, mTextures)
  else
    let! result := new_object 1 new_texture in
    let! (err, mTextures) := on_vector (KeyedVector.add mTextures name result) in
    if err <? 0 then decStrong result ;;; hret (0, mTextures)
    else incStrong result ;;; hret (result, mTextures).

Definition removeTexture mTextures (name : Z) : stM (world W) (Z * V) :=
  let! index := on_vector (KeyedVector.indexOfKey 0 mTextures name) in
  if 0 <=? index then
    let! result := on_vector (KeyedVector.valueAt mTextures (Z.to_nat index)) in
    incStrong result ;;;
    let! mTextures := remove_at mTextures index result in hret (result, mTextures)
  else hret (0, mTextures).

Definition replaceTexture mTextures (name : Z) : stM (world W) (Z * V) :=
  let! index := on_vector (KeyedVector.indexOfKey 0 mTextures name) in
  if 0 <=? index then
    let! old := on_vector (KeyedVector.valueAt mTextures (Z.to_nat index)) in
    let! (refs, o) := get_object old in
    if refs =? 1 then incStrong old ;;; hret (old, mTextures)
    else
      let! tex := new_object 1 (copyParameters new_texture o) in
      let! mTextures := remove_at mTextures index old in
      let! (_, mTextures) := on_vector (KeyedVector.add mTextures name tex) in
      incStrong tex ;;; hret (tex, mTextures)
  else hret (0, mTextures).

(** The body of the loop of [deleteTextures]; [removeItem] looks the name up and
    removes what it finds. *)
Definition deleteTexture mTextures (t : Z) : stM (world W) V :=
  if negb (t =? 0) then
    let! index := on_vector (KeyedVector.indexOfKey 0 mTextures t) in
    if 0 <=? index then
      let! p := on_vector (KeyedVector.valueAt mTextures (Z.to_nat index)) in remove_at mTextures index p
    else hret mTextures
  else hret mTextures.
Fixpoint deleteTextures mTextures (tokens : list Z) : stM (world W) V :=
  match tokens with
  | [] => hret mTextures
  | t :: tokens => let! mTextures := deleteTexture mTextures t in deleteTextures mTextures tokens
  end.

Definition texture mTextures (name : Z) : stM (world W) Z :=
  let! index := on_vector (KeyedVector.indexOfKey 0 mTextures name) in
  if 0 <=? index then
    let! p := on_vector (KeyedVector.valueAt mTextures (Z.to_nat index)) in incStrong p ;;; hret p
  else hret 0.
End Operations.

(** ** The invariant *)

Section Spec.
  Context {W V : Type} `{Ops : SeqOps W V (Z * Z)} {repr other : W -> V -> list (Z * Z) -> Prop}.
  Context {frame : W -> W -> Prop} `{Laws : !SeqLaws Ops repr other frame}.
  Implicit Types (v : V) (s : world W) (names : gmap Z Z) (held : list Z).

Definition named names (p : Z) : Z := if decide (map_Exists (fun _ q => q = p) names) then 1 else 0.
Definition held_count held (p : Z) : Z := Z.of_nat (count_occ Z.eq_dec held p).

(** [held] lists the references callers hold. *)
Record counted (objects : gmap Z (Z * EGLTextureObject)) (next : Z) names held : Prop := mk_counted {
  ct_inj : forall j k p, names !! j = Some p -> names !! k = Some p -> j = k;
  ct_refs : forall p, match objects !! p with
    | Some (r, _) => r = named names p + held_count held p /\ 0 < r
    | None => named names p + held_count held p = 0 end;
  ct_next : 0 < next;
  ct_fresh : forall p x, objects !! p = Some x -> 0 < p < next }.
Definition represents s v names held : Prop :=
  KeyedVector.maps (repr := repr) (m_vector s) v names /\ counted (m_objects s) (m_next s) names held.

Lemma named_range names p : 0 <= named names p <= 1.
Proof. unfold named. case_decide; lia. Qed.
Lemma held_nonneg held p : 0 <= held_count held p.
Proof. unfold held_count. lia. Qed.
Lemma named_some names k p : names !! k = Some p -> named names p = 1.
Proof. intros E. unfold named. rewrite decide_True; [done|]. by exists k, p. Qed.
Lemma named_none names p : (forall k, names !! k <> Some p) -> named names p = 0.
Proof. intros E. unfold named. rewrite decide_False; [done|]. intros (k & q & Ek & ->). by apply (E k). Qed.
Lemma named_delete names k p q : (forall j k p, names !! j = Some p -> names !! k = Some p -> j = k) -> names !! k = Some p ->
  named (delete k names) q = named names q - (if decide (q = p) then 1 else 0).
Proof.
  intros I E. case_decide as D; [subst q|].
  - rewrite (named_some names k p E). rewrite named_none; [done|]. intros j. rewrite lookup_delete_Some. intros [Hj Ej].
    apply Hj. by apply (I k j p).
  - unfold named at 2. case_decide as X.
    + destruct X as (j & q' & Ej & ->). rewrite (named_some _ j q); [done|]. rewrite lookup_delete_ne; [done|]. intros ->. congruence.
    + rewrite named_none; [done|]. intros j. rewrite lookup_delete_Some. intros [_ Ej]. apply X. by exists j, q.
Qed.
Lemma named_insert names k p q : names !! k = None ->
  named (<[k := p]> names) q = if decide (q = p) then 1 else named names q.
Proof.
  intros E. case_decide as D; [subst q; apply (named_some _ k); apply lookup_insert_eq|].
  unfold named at 2. case_decide as X.
  - destruct X as (j & q' & Ej & ->). apply (named_some _ j). rewrite lookup_insert_ne; [done|]. congruence.
  - apply named_none. intros j. rewrite lookup_insert_Some. intros [[_ ->]|[_ Ej]]; [done|]. apply X. by exists j, q.
Qed.
Lemma held_cons p held q : held_count (p :: held) q = held_count held q + (if decide (q = p) then 1 else 0).
Proof. unfold held_count. cbn. destruct (Z.eq_dec p q) as [->|N]; case_decide; subst; try done; lia. Qed.

(** A live object: its address, its count, its place below the next address. *)
Lemma counted_named objects next names held k p : counted objects next names held -> names !! k = Some p ->
  exists r t, objects !! p = Some (r, t) /\ r = 1 + held_count held p.
Proof.
  intros [_ R _ _] E. specialize (R p). rewrite (named_some names k p E) in R. pose proof (held_nonneg held p).
  destruct (objects !! p) as [[r t]|]; [|lia]. exists r, t. split; [done|]. lia.
Qed.
Lemma counted_fresh objects next names held p : counted objects next names held -> next <= p ->
  objects !! p = None /\ named names p = 0 /\ held_count held p = 0.
Proof.
  intros [_ R _ F] Hp. assert (objects !! p = None) as E.
  { destruct (objects !! p) as [x|] eqn:E; [|done]. pose proof (F p x E). lia. }
  specialize (R p). rewrite E in R. pose proof (named_range names p). pose proof (held_nonneg held p). split; [done|]. lia.
Qed.

(** A caller takes a reference; a reference is dropped. *)
Lemma counted_inc objects next names held p r t : counted objects next names held -> objects !! p = Some (r, t) ->
  counted (<[p := (r + 1, t)]> objects) next names (p :: held).
Proof.
  intros [I R N F] E. split; try done.
  - intros q. rewrite held_cons. specialize (R q). destruct (decide (q = p)) as [->|Hq].
    + rewrite E in R. rewrite lookup_insert_eq. lia.
    + rewrite lookup_insert_ne by done. destruct (objects !! q) as [[r' t']|]; lia.
  - intros q x. rewrite lookup_insert_Some. intros [[<- _]|[_ Eq]]; [by apply (F p (r, t))|by apply (F q x)].
Qed.
Lemma counted_dec objects next names held names' held' p r t : counted objects next names held -> objects !! p = Some (r, t) ->
  (forall j k p, names' !! j = Some p -> names' !! k = Some p -> j = k) ->
  (forall q, named names' q + held_count held' q = named names q + held_count held q - (if decide (q = p) then 1 else 0)) ->
  counted (if r =? 1 then delete p objects else <[p := (r - 1, t)]> objects) next names' held'.
Proof.
  intros [I R N F] E I' C. split; try done.
  - intros q. rewrite C. specialize (R q). destruct (decide (q = p)) as [->|Hq].
    + rewrite E in R. destruct (Z.eqb_spec r 1); [rewrite lookup_delete_eq; lia|rewrite lookup_insert_eq; lia].
    + replace ((if r =? 1 then delete p objects else <[p := (r - 1, t)]> objects) !! q) with (objects !! q).
      * destruct (objects !! q) as [[r' t']|]; lia.
      * destruct (r =? 1); [by rewrite lookup_delete_ne|by rewrite lookup_insert_ne].
  - intros q x Hx. destruct (objects !! q) as [y|] eqn:Ey; [by apply (F q y)|]. exfalso. revert Hx.
    destruct (r =? 1); [rewrite lookup_delete_Some|rewrite lookup_insert_Some]; intros Hx; destruct Hx; try congruence.
    + destruct H. congruence.
    + destruct H. congruence.
Qed.
(** A new object under a new name, also held by the caller. *)
Lemma counted_new objects next names held k t : counted objects next names held -> names !! k = None ->
  counted (<[next := (2, t)]> objects) (next + 1) (<[k := next]> names) (next :: held).
Proof.
  intros CT E. pose proof (counted_fresh _ _ _ _ next CT ltac:(lia)) as (_ & Nn & Hn). destruct CT as [I R N F].
  assert (forall j, names !! j <> Some next) as Nj.
  { intros j Ej. rewrite (named_some names j next Ej) in Nn. lia. }
  split.
  - intros i j p. rewrite !lookup_insert_Some. intros [[<- <-]|[_ Ei]] [[<- Ep]|[_ Ej]]; try done.
    + by destruct (Nj j).
    + subst p. by destruct (Nj i).
    + by apply (I i j p).
  - intros q. rewrite held_cons, named_insert by done. specialize (R q). destruct (decide (q = next)) as [->|Hq].
    + rewrite lookup_insert_eq. lia.
    + rewrite lookup_insert_ne by done. destruct (objects !! q) as [[r' t']|]; lia.
  - lia.
  - intros q x. rewrite lookup_insert_Some. intros [[<- _]|[_ Eq]]; [lia|]. pose proof (F q x Eq). lia.
Qed.

(** ** The operations *)

Lemma textures_on_vector_some {B} (c : stM W B) s x w : c (m_vector s) = Some (x, w) ->
  on_vector c s = Some (x, mk_world w (m_objects s) (m_next s)).
Proof. intros E. unfold on_vector. by rewrite E. Qed.
Lemma textures_on_vector_read {B} (c : stM W B) s x : c (m_vector s) = Some (x, m_vector s) -> on_vector c s = Some (x, s).
Proof. intros E. rewrite (textures_on_vector_some c s x _ E). by destruct s. Qed.

Lemma texture_find_spec s v names held k : represents s v names held ->
  exists i, on_vector (KeyedVector.indexOfKey 0 v k) s = Some (i, s) /\
    match names !! k with
    | Some p => 0 <= i /\ on_vector (KeyedVector.valueAt v (Z.to_nat i)) s = Some (p, s) /\
        exists v' w', KeyedVector.removeItemsAt v (Z.to_nat i) 1 (m_vector s) = Some ((i, v'), w') /\
          KeyedVector.maps (repr := repr) w' v' (delete k names)
    | None => i = NAME_NOT_FOUND
    end.
Proof.
  intros [KM _]. destruct (KeyedVector.indexOfKey_spec 0 _ v names k KM) as (i & E & Hi). exists i.
  split; [by apply textures_on_vector_read|]. destruct (names !! k) as [p|]; [|done].
  destruct Hi as (Hi & Ev & (v' & w' & ER & KM' & _) & _). split; [done|]. split; [by apply textures_on_vector_read|]. by exists v', w'.
Qed.

Lemma incStrong_spec s v names held p r t : represents s v names held -> m_objects s !! p = Some (r, t) ->
  incStrong p s = Some (tt, mk_world (m_vector s) (<[p := (r + 1, t)]> (m_objects s)) (m_next s)) /\
  represents (mk_world (m_vector s) (<[p := (r + 1, t)]> (m_objects s)) (m_next s)) v names (p :: held).
Proof.
  intros [KM CT] E. unfold incStrong. rewrite E. split; [done|]. split; [done|]. by apply counted_inc.
Qed.

(** Taking a name out of the vector. *)
Lemma remove_at_spec s v names held k p i r t v' w' : represents s v names held -> names !! k = Some p ->
  KeyedVector.removeItemsAt v (Z.to_nat i) 1 (m_vector s) = Some ((i, v'), w') ->
  KeyedVector.maps (repr := repr) w' v' (delete k names) -> m_objects s !! p = Some (r, t) ->
  exists s', remove_at v i p s = Some (v', s') /\ represents s' v' (delete k names) held /\ m_vector s' = w' /\ m_next s' = m_next s /\
    m_objects s' = if r =? 1 then delete p (m_objects s) else <[p := (r - 1, t)]> (m_objects s).
Proof.
  intros [KM CT] En ER KM' E. unfold remove_at. erewrite hbind_some; [|by apply textures_on_vector_some].
  unfold decStrong, set_objects, hbind. cbn [m_objects m_vector m_next]. rewrite E. cbn.
  eexists. split; [reflexivity|]. split; [|done]. split; [done|]. cbn. pose proof (ct_inj _ _ _ _ CT) as I.
  apply (counted_dec (m_objects s) (m_next s) names held); [done|done| |].
  - intros j j' q. rewrite !lookup_delete_Some. intros [_ Ej] [_ Ej']. by apply (I j j' q).
  - intros q. rewrite (named_delete names k p q I En). lia.
Qed.

Lemma createTexture_spec s v names held k : represents s v names held ->
  match names !! k with
  | Some _ => createTexture v k s = Some ((0, v), s)
  | None => exists v' s', createTexture v k s = Some ((m_next s, v'), s') /\
      represents s' v' (<[k := m_next s]> names) (m_next s :: held) /\ 0 < m_next s /\
      m_objects s' = <[m_next s := (2, new_texture)]> (m_objects s)
  end.
Proof.
  intros R. destruct (texture_find_spec s v names held k R) as (i & E & Hi). unfold createTexture. rewrite (hbind_some _ _ _ _ _ E).
  destruct (names !! k) as [p|] eqn:En; [destruct Hi as [Hi _]; by destruct (Z.leb_spec 0 i); [|lia]|].
  rewrite Hi. change (0 <=? NAME_NOT_FOUND) with false. cbv iota. destruct R as [KM CT].
  rewrite (hbind_some _ _ s (m_next s) _ eq_refl).
  destruct (KeyedVector.keyed_add_spec _ v names k (m_next s) KM) as (j & v' & w' & EA & Hj & KM' & _).
  erewrite hbind_some; [|by apply textures_on_vector_some]. cbv beta iota.
  rewrite (proj2 (Z.ltb_ge j 0) Hj). unfold incStrong, set_objects, hbind. cbn. rewrite lookup_insert_eq. cbn. eexists v', _. split; [reflexivity|].
  rewrite insert_insert_eq. split; [|split; [apply (ct_next _ _ _ _ CT)|done]]. split; [done|]. cbn. by apply counted_new.
Qed.

Lemma removeTexture_spec s v names held k : represents s v names held ->
  match names !! k with
  | Some p => exists v' s' r t, removeTexture v k s = Some ((p, v'), s') /\ represents s' v' (delete k names) (p :: held) /\
      m_objects s !! p = Some (r, t) /\ m_objects s' = m_objects s
  | None => removeTexture v k s = Some ((0, v), s)
  end.
Proof.
  intros R. destruct (texture_find_spec s v names held k R) as (i & E & Hi). unfold removeTexture. rewrite (hbind_some _ _ _ _ _ E).
  destruct (names !! k) as [p|] eqn:En; [|by rewrite Hi].
  destruct Hi as (Hi & Ev & v' & w' & ER & KM'). destruct (Z.leb_spec 0 i); [|lia]. rewrite (hbind_some _ _ _ _ _ Ev).
  destruct (counted_named _ _ _ _ k p (proj2 R) En) as (r & t & Eo & Er). pose proof (held_nonneg held p).
  destruct (incStrong_spec s v names held p r t R Eo) as [EI R1]. rewrite (hbind_some _ _ _ _ _ EI).
  destruct (remove_at_spec _ v names (p :: held) k p i (r + 1) t v' w' R1 En ER KM') as (s' & ES & R' & _ & _ & EO);
    [apply lookup_insert_eq|]. rewrite (hbind_some _ _ _ _ _ ES). exists v', s', r, t. split; [done|]. split; [done|]. split; [done|].
  rewrite EO. destruct (Z.eqb_spec (r + 1) 1); [lia|]. cbn [m_objects]. rewrite insert_insert_eq. apply insert_id.
  by replace (r + 1 - 1) with r by lia.
Qed.

Lemma replaceTexture_spec s v names held k old r t : represents s v names held ->
  names !! k = Some old -> m_objects s !! old = Some (r, t) ->
  exists p v' s' t', replaceTexture v k s = Some ((p, v'), s') /\ represents s' v' (<[k := p]> names) (p :: held) /\
    m_objects s' !! p = Some (2, t') /\
    (r = 1 /\ p = old /\ t' = t \/
     r <> 1 /\ p = m_next s /\ t' = copyParameters new_texture t /\ m_objects s' !! old = Some (r - 1, t)) /\
    forall q, q <> p -> q <> old -> m_objects s' !! q = m_objects s !! q.
Proof.
  intros R En Eo. destruct (texture_find_spec s v names held k R) as (i & E & Hi). unfold replaceTexture. rewrite (hbind_some _ _ _ _ _ E).
  rewrite En in Hi. destruct Hi as (Hi & Ev & v' & w' & ER & KM'). destruct (Z.leb_spec 0 i); [|lia]. rewrite (hbind_some _ _ _ _ _ Ev).
  rewrite (hbind_some _ _ s (r, t) s) by (unfold get_object; by rewrite Eo).
  destruct (Z.eqb_spec r 1) as [->|Hr].
  { destruct (incStrong_spec s v names held old 1 t R Eo) as [EI R1]. rewrite (hbind_some _ _ _ _ _ EI).
    exists old, v. eexists _, t. split; [reflexivity|].
    split; [rewrite (insert_id names k old En); exact R1|]. cbn. rewrite lookup_insert_eq.
    split; [done|]. split; [by left|]. intros q Hq _. by rewrite lookup_insert_ne. }
  rewrite (hbind_some _ _ s (m_next s) _ eq_refl). set (t' := copyParameters new_texture t).
  pose proof R as [KM CT]. destruct (counted_named _ _ _ _ k old CT En) as (r' & t0 & Eo' & Er). rewrite Eo in Eo'. injection Eo' as <- <-.
  pose proof (held_nonneg held old). pose proof (ct_fresh _ _ _ _ CT old _ Eo) as Fo.
  destruct (remove_at_spec s v names held k old i r t v' w' R En ER KM' Eo) as (s1 & ES & [_ CT1] & Ew & Ex & EO).
  assert (exists s2, remove_at v i old (mk_world (m_vector s) (<[m_next s := (1, t')]> (m_objects s)) (m_next s + 1)) = Some (v', s2) /\
    m_vector s2 = w' /\ m_next s2 = m_next s + 1 /\ m_objects s2 = <[m_next s := (1, t')]> (m_objects s1)) as (s2 & ES2 & Ew2 & Ex2 & EO2).
  { unfold remove_at. erewrite hbind_some; [|by apply textures_on_vector_some]. unfold decStrong, set_objects, hbind. cbn.
    rewrite lookup_insert_ne by lia. rewrite Eo. cbn. eexists. split; [reflexivity|]. split_and!; try done. rewrite EO.
    cbn. destruct (Z.eqb_spec r 1); [done|]. by rewrite insert_insert_ne by lia. }
  rewrite (hbind_some _ _ _ _ _ ES2). rewrite <- Ew2 in KM'.
  destruct (KeyedVector.keyed_add_spec _ v' _ k (m_next s) KM') as (j & v2 & w2 & EA & Hj & KM2 & _).
  erewrite hbind_some; [|by apply textures_on_vector_some]. unfold incStrong, set_objects, hbind. cbn. rewrite EO2, lookup_insert_eq. cbn.
  rewrite insert_delete_eq in KM2. exists (m_next s), v2. eexists _, t'. split; [reflexivity|]. rewrite insert_insert_eq, Ex2, <- Ex.
  cbn. split; [|split; [apply lookup_insert_eq|split]].
  - split; [by rewrite Ex|]. cbn. replace (<[k := m_next s1]> names) with (<[k := m_next s1]> (delete k names)) by apply insert_delete_eq.
    apply counted_new; [done|apply lookup_delete_eq].
  - right. split; [done|]. split; [done|]. split; [done|]. rewrite lookup_insert_ne by (rewrite Ex; lia). rewrite EO.
    destruct (Z.eqb_spec r 1); [done|]. apply lookup_insert_eq.
  - intros q Hq Hq'. rewrite lookup_insert_ne by done. rewrite EO. destruct (Z.eqb_spec r 1); [done|]. by rewrite lookup_insert_ne.
Qed.


Lemma deleteTexture_spec s v names held k : represents s v names held ->
  exists v' s', deleteTexture v k s = Some (v', s') /\ represents s' v' (if k =? 0 then names else delete k names) held.
Proof.
  intros R. unfold deleteTexture. destruct (Z.eqb_spec k 0); cbn [negb]; [by exists v, s|].
  destruct (texture_find_spec s v names held k R) as (i & E & Hi). rewrite (hbind_some _ _ _ _ _ E).
  destruct (names !! k) as [p|] eqn:En.
  - destruct Hi as (Hi & Ev & v' & w' & ER & KM'). destruct (Z.leb_spec 0 i); [|lia]. rewrite (hbind_some _ _ _ _ _ Ev).
    destruct (counted_named _ _ _ _ k p (proj2 R) En) as (r & t & Eo & _).
    destruct (remove_at_spec s v names held k p i r t v' w' R En ER KM' Eo) as (s' & ES & R' & _). by exists v', s'.
  - rewrite Hi. exists v, s. by rewrite delete_id.
Qed.
Lemma deleteTextures_spec tokens s v names held : represents s v names held ->
  exists v' s' names', deleteTextures v tokens s = Some (v', s') /\ represents s' v' names' held /\
    dom names' = dom names ∖ (list_to_set tokens ∖ {[0]}).
Proof.
  revert s v names. induction tokens as [|k ks IH]; intros s v names R; cbn [deleteTextures].
  - exists v, s, names. split; [done|]. split; [done|]. set_solver.
  - destruct (deleteTexture_spec s v names held k R) as (v1 & s1 & E & R1). rewrite (hbind_some _ _ _ _ _ E).
    destruct (IH s1 v1 _ R1) as (v' & s' & names' & E' & R' & D). exists v', s', names'. split; [done|]. split; [done|].
    rewrite D. destruct (Z.eqb_spec k 0) as [->|Hk]; cbn [list_to_set]; [set_solver|]. rewrite dom_delete_L. set_solver.
Qed.

Lemma texture_spec s v names held k : represents s v names held ->
  match names !! k with
  | Some p => exists s', texture v k s = Some (p, s') /\ represents s' v names (p :: held) /\ 0 < p
  | None => texture v k s = Some (0, s)
  end.
Proof.
  intros R. destruct (texture_find_spec s v names held k R) as (i & E & Hi). unfold texture. rewrite (hbind_some _ _ _ _ _ E).
  destruct (names !! k) as [p|] eqn:En; [|by rewrite Hi].
  destruct Hi as (Hi & Ev & _). destruct (Z.leb_spec 0 i); [|lia]. rewrite (hbind_some _ _ _ _ _ Ev).
  destruct (counted_named _ _ _ _ k p (proj2 R) En) as (r & t & Eo & Er).
  destruct (incStrong_spec s v names held p r t R Eo) as [EI R1]. rewrite (hbind_some _ _ _ _ _ EI).
  eexists. split; [reflexivity|]. split; [done|]. pose proof (ct_fresh _ _ _ _ (proj2 R) p _ Eo). lia.
Qed.

(** ** Runs *)

(** [M_release n]: the caller drops the [n]-th reference it holds. *)
Inductive mop :=
  | M_createTexture (name : Z) | M_removeTexture (name : Z) | M_replaceTexture (name : Z)
  | M_deleteTextures (tokens : list Z) | M_texture (name : Z) | M_release (n : nat).

Definition grab (p : Z) held : list Z := if p =? 0 then held else p :: held.
Definition run_mop (v : V) held (o : mop) : stM (world W) (V * list Z) :=
  match o with
  | M_createTexture k => let! (p, v) := createTexture v k in hret (v, grab p held)
  | M_removeTexture k => let! (p, v) := removeTexture v k in hret (v, grab p held)
  | M_replaceTexture k => let! (p, v) := replaceTexture v k in hret (v, grab p held)
  | M_deleteTextures ks => let! v := deleteTextures v ks in hret (v, held)
  | M_texture k => let! p := texture v k in hret (v, grab p held)
  | M_release n => match held !! n with Some p => decStrong p ;;; hret (v, delete n held) | None => hret (v, held) end
  end.
Fixpoint run_mops (os : list mop) (v : V) held : stM (world W) (V * list Z) :=
  match os with [] => hret (v, held) | o :: os => let! (v, held) := run_mop v held o in run_mops os v held end.

Definition spec_mop (D : gset Z) (o : mop) : gset Z :=
  match o with
  | M_createTexture k => {[k]} ∪ D
  | M_removeTexture k => D ∖ {[k]}
  | M_deleteTextures ks => D ∖ (list_to_set ks ∖ {[0]})
  | _ => D
  end.

Lemma grab_pos p held : 0 < p -> grab p held = p :: held.
Proof. intros H. unfold grab. by destruct (Z.eqb_spec p 0); [lia|]. Qed.

Lemma counted_release objects next names held n p r t : counted objects next names held -> held !! n = Some p ->
  objects !! p = Some (r, t) ->
  counted (if r =? 1 then delete p objects else <[p := (r - 1, t)]> objects) next names (delete n held).
Proof.
  intros CT En Eo. apply (counted_dec objects next names held); [done|done|by destruct CT|]. intros q.
  enough (held_count held q = held_count (delete n held) q + (if decide (q = p) then 1 else 0)) by lia.
  rewrite <- held_cons. unfold held_count. f_equal. clear CT Eo. revert n En. induction held as [|h held IH]; [done|]. intros [|n] En.
  - by injection En as ->.
  - change (delete (Datatypes.S n) (h :: held)) with (h :: delete n held). specialize (IH n En). cbn [count_occ] in *.
    destruct (Z.eq_dec h q), (Z.eq_dec p q); lia.
Qed.

Lemma run_mop_spec o s v names held : represents s v names held ->
  exists v' held' s' names', run_mop v held o s = Some ((v', held'), s') /\ represents s' v' names' held' /\
    dom names' = spec_mop (dom names) o.
Proof.
  intros R. destruct o as [k|k|k|ks|k|n]; cbn [run_mop spec_mop].
  - pose proof (createTexture_spec s v names held k R) as H. destruct (names !! k) as [p|] eqn:En.
    + rewrite (hbind_some _ _ _ _ _ H). exists v, held, s, names. split; [done|]. split; [done|].
      apply elem_of_dom_2 in En. set_solver.
    + destruct H as (v' & s' & E & R' & Hp & _). rewrite (hbind_some _ _ _ _ _ E), grab_pos by done.
      eexists _, _, s', _. split; [reflexivity|]. split; [done|]. by rewrite dom_insert_L.
  - pose proof (removeTexture_spec s v names held k R) as H. destruct (names !! k) as [p|] eqn:En.
    + destruct H as (v' & s' & r & t & E & R' & Eo & _). rewrite (hbind_some _ _ _ _ _ E).
      rewrite grab_pos by (pose proof (ct_fresh _ _ _ _ (proj2 R) p _ Eo); lia).
      eexists _, _, s', _. split; [reflexivity|]. split; [done|]. by rewrite dom_delete_L.
    + rewrite (hbind_some _ _ _ _ _ H). exists v, held, s, names. split; [done|]. split; [done|].
      apply not_elem_of_dom in En. set_solver.
  - destruct (names !! k) as [p|] eqn:En.
    + destruct (counted_named _ _ _ _ k p (proj2 R) En) as (r & t & Eo & _).
      destruct (replaceTexture_spec s v names held k p r t R En Eo) as (q & v' & s' & t' & E & R' & Eq & _).
      rewrite (hbind_some _ _ _ _ _ E). rewrite grab_pos by (pose proof (ct_fresh _ _ _ _ (proj2 R') q _ Eq); lia).
      eexists _, _, s', _. split; [reflexivity|]. split; [done|]. rewrite dom_insert_L. apply elem_of_dom_2 in En. set_solver.
    + destruct (texture_find_spec s v names held k R) as (i & E & Hi). rewrite En in Hi. unfold replaceTexture.
      assert (replaceTexture v k s = Some ((0, v), s)) as E'.
      { unfold replaceTexture. rewrite (hbind_some _ _ _ _ _ E). by rewrite Hi. }
      fold (replaceTexture v k). rewrite (hbind_some _ _ _ _ _ E'). by exists v, held, s, names.
  - destruct (deleteTextures_spec ks s v names held R) as (v' & s' & names' & E & R' & D). rewrite (hbind_some _ _ _ _ _ E).
    by exists v', held, s', names'.
  - pose proof (texture_spec s v names held k R) as H. destruct (names !! k) as [p|] eqn:En.
    + destruct H as (s' & E & R' & Hp). rewrite (hbind_some _ _ _ _ _ E), grab_pos by done. by exists v, (p :: held), s', names.
    + rewrite (hbind_some _ _ _ _ _ H). by exists v, held, s, names.
  - destruct (held !! n) as [p|] eqn:En; [|by exists v, held, s, names]. destruct R as [KM CT].
    pose proof (ct_refs _ _ _ _ CT p) as Rp. pose proof (named_range names p).
    assert (0 < held_count held p) as Hc.
    { apply list_elem_of_lookup_2, list_elem_of_In, (count_occ_In Z.eq_dec) in En. unfold held_count. lia. }
    destruct (m_objects s !! p) as [[r t]|] eqn:Eo; [|lia]. unfold decStrong, set_objects, hbind. rewrite Eo. cbn.
    eexists v, _, _, names. split; [reflexivity|]. split; [|done]. split; [done|]. by apply counted_release.
Qed.

(** C19: Any run of calls keeps exactly the objects that have a name or are held by a
    caller, each with as many references as these; the names are those the calls
    leave.  So with no name and no reference left, no object is. *)
Theorem texture_manager_counts os s v names held : represents s v names held ->
  exists v' held' s' names', run_mops os v held s = Some ((v', held'), s') /\ represents s' v' names' held' /\
    dom names' = foldl spec_mop (dom names) os /\
    forall p, is_Some (m_objects s' !! p) <-> (exists k, names' !! k = Some p) \/ p ∈ held'.
Proof.
  revert s v names held. induction os as [|o os IH]; intros s v names held R; cbn [run_mops foldl].
  - exists v, held, s, names. split; [done|]. split; [done|]. split; [done|]. intros p. destruct R as [_ CT].
    pose proof (ct_refs _ _ _ _ CT p) as Rp. pose proof (named_range names p).
    assert (held_count held p = 0 <-> p ∉ held) as HC.
    { unfold held_count. rewrite list_elem_of_In, (count_occ_not_In Z.eq_dec). lia. }
    pose proof (held_nonneg held p).
    assert (named names p = 0 <-> ~ exists k, names !! k = Some p) as NC.
    { split; [intros E [k Ek]; rewrite (named_some names k p Ek) in E; lia|]. intros NE. apply named_none. intros k Ek. apply NE. by exists k. }
    destruct (m_objects s !! p) as [[r t]|]; split.
    + intros _. destruct (decide (p ∈ held)); [by right|left]. destruct (Z.eq_dec (named names p) 0) as [E|E]; [exfalso; apply HC in n; lia|].
      unfold named in E. case_decide as X; [|done]. destruct X as (k & q & Ek & ->). by exists k.
    + by eexists.
    + by intros [? ?].
    + intros [X|X]; exfalso; [apply (proj1 NC); [lia|done]|apply (proj1 HC); [lia|done]].
  - destruct (run_mop_spec o s v names held R) as (v1 & held1 & s1 & names1 & E & R1 & D1). rewrite (hbind_some _ _ _ _ _ E).
    destruct (IH s1 v1 names1 held1 R1) as (v' & held' & s' & names' & E' & R' & D' & O'). exists v', held', s', names'.
    split; [done|]. split; [done|]. split; [by rewrite D', D1|done].
Qed.

Lemma textures_empty w v : repr w v [] -> represents (mk_world w ∅ 1) v ∅ [].
Proof.
  intros R. split; [by apply KeyedVector.maps_empty|]. by split.
Qed.
End Spec.
End TextureManager.

Definition example_names : TextureManager.world (heap (Z * Z)) := TextureManager.mk_world empty_heap ∅ 1.
Definition texture_run : list TextureManager.mop :=
  [TextureManager.M_createTexture 4; TextureManager.M_createTexture 2; TextureManager.M_release 0; TextureManager.M_texture 4;
   TextureManager.M_replaceTexture 4; TextureManager.M_replaceTexture 2; TextureManager.M_deleteTextures [0; 2];
   TextureManager.M_release 0].
Lemma texture_manager_counts_witness :
  exists v held s, TextureManager.run_mops (Ops := vector_seq false false None) texture_run empty_vec [] example_names =
      Some ((v, held), s) /\ held = [3; 1; 1] /\ TextureManager.m_objects s = {[1 := (2, new_texture); 3 := (2, new_texture)]}.
Proof.
  destruct (TextureManager.texture_manager_counts (Laws := vector_seq_laws false false None []) texture_run example_names
    empty_vec ∅ [] (TextureManager.textures_empty _ _ vector_repr_empty)) as (v & held & s & names & E & _).
  exists v, held, s. split; [exact E|]. vm_compute in E. injection E as _ <- <-. split; reflexivity.
Defined.

Definition shared_names : TextureManager.world unit :=
  TextureManager.mk_world tt {[1 := (2, new_texture <| wraps := 5 |>)]} 2.
