(* ===== verification/Mipmap.v ===== *)
(** * Building mipmaps

    Models swrender/mipmap.cpp: [buildAPyramid], which allocates each level of a
    texture after its base and fills it with averages of four pixels of the level
    before, in a memory of pixels by block.

    [averages_exact] shows the bit tricks compute the average of every component
    where they do; [mip_levels] that a level holds the averages of the level
    before, [pyramid_returns] that the levels come to an end without losing
    memory. *)

From stdpp Require Import gmap.
From S2P Require Import Prelude Vector TextureObjects Fixed Names Context PixelFormat Surface.

#[local] Open Scope Z_scope.
#[local] Open Scope state_scope.

Definition BAD_TYPE : Z := -2147483647.

(** ** Four pixels under one *)

Definition sum4 (p00 p10 p01 p11 : Z) : Z := p00 + p10 + p01 + p11.

Definition average_565 (p00 p10 p01 p11 : Z) : Z :=
  let mask := 0x07E0F81F in
  let spread p := Z.land (Z.lor p (u32 (Z.shiftl p 16))) mask in
  let grb := Z.land (Z.shiftr (u32 (sum4 (spread p00) (spread p10) (spread p01) (spread p11))) 2) mask in
  Z.lor (Z.land grb 0xFFFF) (Z.shiftr grb 16).

Definition average_5551 (p00 p10 p01 p11 : Z) : Z :=
  let each f := sum4 (f p00) (f p10) (f p01) (f p11) in
  let r := Z.shiftr (each (fun p => Z.shiftr p 11) + 2) 2 in
  let g := Z.land (Z.shiftr (each (fun p => Z.shiftr p 6) + 2) 2) 0x3F in
  let b := Z.shiftr (each (fun p => Z.land p 0x3E) + 4) 3 in
  let a := Z.shiftr (each (fun p => Z.land p 1) + 2) 2 in
  Z.lor (Z.lor (Z.lor (Z.shiftl r 11) (Z.shiftl g 6)) (Z.shiftl b 1)) a.

Definition average_8888 (p00 p10 p01 p11 : Z) : Z :=
  let each f := sum4 (f p00) (f p10) (f p01) (f p11) in
  let rb := Z.shiftr (each (fun p => Z.land p 0x00FF00FF)) 2 in
  let ga := Z.shiftr (each (fun p => Z.land (Z.shiftr p 8) 0x00FF00FF)) 2 in
  Z.lor (Z.land rb 0x00FF00FF) (u32 (Z.shiftl (Z.land ga 0x00FF00FF) 8)).

Definition average_8 (p00 p10 p01 p11 : Z) : Z := Z.shiftr (sum4 p00 p10 p01 p11) 2.

Definition average_4444 (p00 p10 p01 p11 : Z) : Z :=
  let spread p := Z.lor (Z.land (u32 (Z.shiftl p 12)) 0x0F0F0000) (Z.land p 0x0F0F) in
  let rbga := Z.shiftr (sum4 (spread p00) (spread p10) (spread p01) (spread p11)) 2 in
  Z.lor (Z.land rbga 0x0F0F) (Z.land (Z.shiftr rbga 12) 0xF0F0).

(** ** One level

    [px] gives the pixels of each block.  [src] and [dst] are blocks; [bs] is the
    stride of the level before, in pixels. *)

Abbreviation pixels := (Z -> mem).
Definition set_pixels (p : Z) (m : mem) (px : pixels) : pixels := fun q => if q =? p then m else px q.

Section Level.
  Variables (size : Z) (average : Z -> Z -> Z -> Z -> Z) (src dst bs stride : Z).

Definition texel (px : pixels) (p i : Z) : Z := load_pixel (px p) (size * i) size.
Definition put_texel (p i v : Z) (px : pixels) : pixels := set_pixels p (store_pixel (px p) (size * i) size v) px.

Fixpoint reduce_row (n : nat) (x y offset : Z) (px : pixels) : pixels :=
  match n with
  | O => px
  | S n =>
      let v := average (texel px src offset) (texel px src (offset + 1)) (texel px src (offset + bs)) (texel px src (offset + bs + 1)) in
      reduce_row n (x + 1) y (offset + 2) (put_texel dst (x + y * stride) v px)
  end.
Fixpoint reduce_rows (n w : nat) (y : Z) (px : pixels) : pixels :=
  match n with O => px | S n => reduce_rows n w (y + 1) (reduce_row w 0 y (y * 2 * bs) px) end.
End Level.

(** Bytes: [skip] components; the pixels of a row are written one byte apart. *)
Section Bytes.
  Variables (skip : nat) (src dst bs stride : Z).
Definition put_byte (p i v : Z) (px : pixels) : pixels := set_pixels p (store8 (px p) i v) px.

Fixpoint reduce_components (k : nat) (c : Z) (at_ offset : Z) (px : pixels) : pixels :=
  match k with
  | O => px
  | S k =>
      let s := Z.of_nat skip in
      let v := average_8 (px src (c + offset)) (px src (c + offset + s)) (px src (c + offset + bs)) (px src (c + offset + bs + s)) in
      reduce_components k (c + 1) at_ offset (put_byte dst (at_ + c) v px)
  end.
Fixpoint reduce_byte_row (n : nat) (x y offset : Z) (px : pixels) : pixels :=
  match n with
  | O => px
  | S n => reduce_byte_row n (x + 1) y (offset + 2 * Z.of_nat skip) (reduce_components skip 0 (x + y * stride) offset px)
  end.
Fixpoint reduce_byte_rows (n w : nat) (y : Z) (px : pixels) : pixels :=
  match n with O => px | S n => reduce_byte_rows n w (y + 1) (reduce_byte_row w 0 y (y * 2 * bs) px) end.
End Bytes.

(** The pixels of a level of [w] by [h] from those of [base]; nothing for the
    formats that are not supported. *)
Definition bytes_per_texel (format : Z) : option nat :=
  if format =? GGL_PIXEL_FORMAT_RGB_888 then Some 3%nat
  else if format =? GGL_PIXEL_FORMAT_LA_88 then Some 2%nat
  else if (format =? GGL_PIXEL_FORMAT_A_8) || (format =? GGL_PIXEL_FORMAT_L_8) then Some 1%nat
  else None.
Definition reduce_level (base : GGLSurface) (dst w h : Z) (px : pixels) : option pixels :=
  let format := gs_format base in
  let rows size average := Some (reduce_rows size average (gs_data base) dst (gs_stride base) w (Z.to_nat h) (Z.to_nat w) 0 px) in
  if format =? GGL_PIXEL_FORMAT_RGB_565 then rows 2 average_565
  else if format =? GGL_PIXEL_FORMAT_RGBA_5551 then rows 2 average_5551
  else if format =? GGL_PIXEL_FORMAT_RGBA_8888 then rows 4 average_8888
  else match bytes_per_texel format with
  | Some skip => Some (reduce_byte_rows skip (gs_data base) dst (gs_stride base * Z.of_nat skip) (w * Z.of_nat skip)
                         (Z.to_nat h) (Z.to_nat w) 0 px)
  | None => if format =? GGL_PIXEL_FORMAT_RGBA_4444 then rows 2 average_4444 else None
  end.

(** ** The levels *)

Record pyramid_t := mk_pyramid { py_blocks : blocks; py_pixels : pixels }.
Definition on_blocks {A} (m : stM blocks A) : stM pyramid_t A := fun st =>
  '(a, b) ← m (py_blocks st); Some (a, mk_pyramid b (py_pixels st)).
Definition fill_level (base : GGLSurface) (dst w h : Z) : stM pyramid_t bool := fun st =>
  Some (match reduce_level base dst w h (py_pixels st) with
        | Some px => (true, mk_pyramid (py_blocks st) px) | None => (false, st) end).

Definition half_side (n : Z) : Z := if Z.shiftr n 1 =? 0 then 1 else Z.shiftr n 1.

(** The loop, from the level that follows [level]; [size] is that of a pixel. *)
Fixpoint pyramid_loop (fuel : nat) (size level : Z) (base : GGLSurface) (w h : Z) (t : EGLTextureObject)
    : stM pyramid_t (Z * EGLTextureObject) :=
  match fuel with
  | O => hfail
  | S fuel =>
      let level := level + 1 in
      let! (err, t) := on_blocks (reallocate t level w h w (gs_format base) (gs_compressedFormat base) (w * size)) in
      if negb (err =? NO_ERROR) then hret (NO_MEMORY, t)
      else
        let! cur := on_blocks (mip t level) in
        let! ok := fill_level base (gs_data cur) w h in
        if negb (ok : bool) then hret (BAD_TYPE, t)
        else if Z.land w h =? 1 then hret (NO_ERROR, t)
        else pyramid_loop fuel size level cur (half_side w) (half_side h) t
  end.

Definition buildAPyramid (formats : list GGLFormat) (t : EGLTextureObject) : stM pyramid_t (Z * EGLTextureObject) :=
  let base := surface t in
  let w := s32 (gs_width base) in
  let h := s32 (gs_height base) in
  if Z.land w h =? 1 then hret (NO_ERROR, t)
  else
    let size := f_size (nth (Z.to_nat (gs_format base)) formats no_format) in
    pyramid_loop 32 size 0 base (half_side w) (half_side h) t.

(** ** The averages *)

Lemma field_ext a b l w : 0 <= l -> 0 <= w -> (forall k, 0 <= k < w -> Z.testbit a (l + k) = Z.testbit b (l + k)) -> field_of a l w = field_of b l w.
Proof.
  intros Hl Hw H. apply Z.bits_inj'. intros k Hk. rewrite !field_of_testbit by done.
  destruct (Z.ltb_spec k w); [|done]. cbn. by apply H.
Qed.
Lemma field_land_all x mask l w : 0 <= l -> 0 <= w -> field_of mask l w = 2 ^ w - 1 -> field_of (Z.land x mask) l w = field_of x l w.
Proof.
  intros Hl Hw Hm. apply field_ext; [done..|]. intros k Hk. rewrite Z.land_spec.
  rewrite (field_of_eq_testbit mask (2 ^ w - 1) l w k) by (done || lia).
  replace (2 ^ w - 1) with (Z.ones w) by (rewrite Z.ones_equiv; lia). rewrite Z.ones_spec_low by lia. apply andb_true_r.
Qed.
Lemma field_land_none x mask l w : 0 <= l -> 0 <= w -> field_of mask l w = 0 -> field_of (Z.land x mask) l w = 0.
Proof.
  intros Hl Hw Hm. rewrite <-(Z.mod_0_l (2 ^ w)), <-(Z.div_0_l (2 ^ l)) by lia. fold (field_of 0 l w). apply field_ext; [done..|].
  intros k Hk. rewrite Z.land_spec, (field_of_eq_testbit mask 0 l w k), !Z.bits_0 by (done || lia). apply andb_false_r.
Qed.
Lemma field_lor a b l w : 0 <= l -> 0 <= w -> field_of (Z.lor a b) l w = Z.lor (field_of a l w) (field_of b l w).
Proof.
  intros Hl Hw. apply Z.bits_inj'. intros k Hk. rewrite Z.lor_spec, !field_of_testbit, Z.lor_spec by done. by destruct (k <? w).
Qed.
Lemma field_shiftr a n l w : 0 <= n -> 0 <= l -> 0 <= w -> field_of (Z.shiftr a n) l w = field_of a (n + l) w.
Proof.
  intros Hn Hl Hw. apply Z.bits_inj'. intros k Hk. rewrite !field_of_testbit, Z.shiftr_spec by lia. do 2 f_equal. lia.
Qed.
Lemma field_shiftl a n l w : 0 <= n <= l -> 0 <= w -> field_of (Z.shiftl a n) l w = field_of a (l - n) w.
Proof.
  intros Hn Hw. apply Z.bits_inj'. intros k Hk. rewrite !field_of_testbit, Z.shiftl_spec by lia. do 2 f_equal. lia.
Qed.
Lemma field_u32 a l w : 0 <= l -> 0 <= w -> l + w <= 32 -> field_of (u32 a) l w = field_of a l w.
Proof. intros. unfold u32. by apply field_of_mod. Qed.

(** Every component of the average is the average of the components, rounded
    down. *)
Definition averages_field (average : Z -> Z -> Z -> Z -> Z) (n l w : Z) : Prop := forall p00 p10 p01 p11,
  0 <= p00 < 2 ^ n -> 0 <= p10 < 2 ^ n -> 0 <= p01 < 2 ^ n -> 0 <= p11 < 2 ^ n ->
  field_of (average p00 p10 p01 p11) l w = sum4 (field_of p00 l w) (field_of p10 l w) (field_of p01 l w) (field_of p11 l w) / 4.

Lemma field_bound v l w : 0 <= w -> 0 <= field_of v l w < 2 ^ w.
Proof. intros Hw. unfold field_of. apply Z.mod_pos_bound. lia. Qed.

(** A mask taken apart. *)
Lemma land_split x k m1 m0 : 0 <= k -> 0 <= m0 < 2 ^ k ->
  Z.land x (m1 * 2 ^ k + m0) = Z.land (x / 2 ^ k) m1 * 2 ^ k + Z.land (x mod 2 ^ k) m0.
Proof.
  intros Hk H0. assert (0 <= Z.land (x mod 2 ^ k) m0 < 2 ^ k) as Hl.
  { apply bits_small; [done|]. intros i Hi. rewrite Z.land_spec, (testbit_small m0 k i) by done. apply andb_false_r. }
  replace (m1 * 2 ^ k + m0) with (Z.lor m0 (Z.shiftl m1 k)) by (rewrite lor_shiftl_add by done; lia).
  rewrite Z.add_comm, <-lor_shiftl_add by done.
  apply Z.bits_inj'. intros n Hn. rewrite Z.lor_spec, !Z.land_spec, Z.lor_spec.
  destruct (Z.lt_ge_cases n k).
  - rewrite !Z.shiftl_spec_low, Z.mod_pow2_bits_low by done. by rewrite !orb_false_r.
  - rewrite !Z.shiftl_spec, !Z.land_spec, Z.mod_pow2_bits_high, Z.div_pow2_bits by lia. replace (n - k + k) with n by lia.
    rewrite (testbit_small m0 k n) by done. done.
Qed.

Lemma land_ones_mod x n : 0 <= n -> Z.land x (2 ^ n - 1) = x mod 2 ^ n.
Proof. intros Hn. rewrite <-Z.land_ones by done. f_equal. rewrite Z.ones_equiv. lia. Qed.

Lemma spread_565 p : 0 <= p < 2 ^ 16 ->
  Z.land (Z.lor p (u32 (Z.shiftl p 16))) 0x07E0F81F = field_of p 5 6 * 2 ^ 21 + field_of p 11 5 * 2 ^ 11 + field_of p 0 5.
Proof.
  intros Hp. assert (Z.lor p (u32 (Z.shiftl p 16)) = p + p * 2 ^ 16) as ->.
  { rewrite u32_id by (unfold is_u32; rewrite Z.shiftl_mul_pow2; lia). by apply lor_shiftl_add. }
  change 0x07E0F81F with ((2 ^ 6 - 1) * 2 ^ 21 + ((2 ^ 5 - 1) * 2 ^ 11 + (2 ^ 5 - 1))).
  rewrite !land_split, !land_ones_mod by lia. unfold field_of. rewrite Z.add_assoc.
  f_equal; [f_equal; f_equal|]; clear -Hp; div_lia.
Qed.

Lemma average_565_field l w : In (l, w) [(0, 5); (5, 6); (11, 5)] -> averages_field average_565 16 l w.
Proof.
  intros Hi p00 p10 p01 p11 H00 H10 H01 H11. unfold average_565. rewrite !spread_565 by done. unfold sum4.
  pose proof (fun p => field_bound p 5 6 ltac:(lia)) as BG. pose proof (fun p => field_bound p 11 5 ltac:(lia)) as BR.
  pose proof (fun p => field_bound p 0 5 ltac:(lia)) as BB.
  pose proof (BG p00). pose proof (BG p10). pose proof (BG p01). pose proof (BG p11).
  pose proof (BR p00). pose proof (BR p10). pose proof (BR p01). pose proof (BR p11).
  pose proof (BB p00). pose proof (BB p10). pose proof (BB p01). pose proof (BB p11).
  clear BG BR BB.
  set (G := field_of p00 5 6 + field_of p10 5 6 + field_of p01 5 6 + field_of p11 5 6).
  set (R := field_of p00 11 5 + field_of p10 11 5 + field_of p01 11 5 + field_of p11 11 5).
  set (B := field_of p00 0 5 + field_of p10 0 5 + field_of p01 0 5 + field_of p11 0 5).
  assert (0 <= G <= 252) by lia. assert (0 <= R <= 124) by lia. assert (0 <= B <= 124) by lia.
  match goal with |- context [u32 ?x] => replace x with (G * 2 ^ 21 + R * 2 ^ 11 + B) by (subst G R B; ring) end.
  rewrite u32_id by (unfold is_u32; lia). set (x := Z.shiftr _ 2). assert (x = G * 2 ^ 19 + R * 2 ^ 9 + B / 4) as Hx.
  { subst x. rewrite shiftr_div by lia. div_lia. }
  change (2 ^ 16) with 65536 in *. rewrite field_lor, field_shiftr by (destruct Hi as [[= <- <-]|[[= <- <-]|[[= <- <-]|[]]]]; lia).
  destruct Hi as [[= <- <-]|[[= <- <-]|[[= <- <-]|[]]]]; rewrite field_land_all by (lia || reflexivity).
  - rewrite field_land_all, field_land_none, Z.lor_0_r by (lia || reflexivity). fold B. rewrite Hx. unfold field_of. clearbody G R B. div_lia.
  - rewrite field_land_none, field_land_all, Z.lor_0_l by (lia || reflexivity). fold G. rewrite Hx. unfold field_of. clearbody G R B. div_lia.
  - rewrite field_land_all, field_land_none, Z.lor_0_r by (lia || reflexivity). fold R. rewrite Hx. unfold field_of. clearbody G R B. div_lia.
Qed.

(** The components of a pixel, as lanes with room to add four of them. *)
Lemma lanes_8888 p : Z.land p 0x00FF00FF = field_of p 16 8 * 2 ^ 16 + field_of p 0 8.
Proof.
  change 0x00FF00FF with ((2 ^ 8 - 1) * 2 ^ 16 + (2 ^ 8 - 1)). rewrite land_split, !land_ones_mod by lia.
  unfold field_of. f_equal. clear. div_lia.
Qed.
Lemma lanes_8888_high p : Z.land (Z.shiftr p 8) 0x00FF00FF = field_of p 24 8 * 2 ^ 16 + field_of p 8 8.
Proof. by rewrite lanes_8888, !field_shiftr. Qed.

Lemma lane_average a b : 0 <= a <= 1020 -> 0 <= b <= 1020 ->
  field_of (Z.shiftr (a * 2 ^ 16 + b) 2) 0 8 = b / 4 /\ field_of (Z.shiftr (a * 2 ^ 16 + b) 2) 16 8 = a / 4.
Proof.
  intros Ha Hb. assert (Z.shiftr (a * 2 ^ 16 + b) 2 = a * 2 ^ 14 + b / 4) as -> by (rewrite shiftr_div by lia; div_lia).
  unfold field_of. split; div_lia.
Qed.

Ltac bounds_of l w := repeat match goal with |- context [field_of ?p l w] =>
  lazymatch goal with _ : 0 <= field_of p l w < _ |- _ => fail | _ => pose proof (field_bound p l w ltac:(lia)) end end.

Lemma average_8888_field l w : In (l, w) [(0, 8); (8, 8); (16, 8); (24, 8)] -> averages_field average_8888 32 l w.
Proof.
  intros Hi p00 p10 p01 p11 _ _ _ _. unfold average_8888, sum4. rewrite !lanes_8888_high, (lanes_8888 p00), (lanes_8888 p10), (lanes_8888 p01), (lanes_8888 p11).
  pose proof (fun p l => field_bound p l 8 ltac:(lia)) as Hf. change (2 ^ 8) with 256 in Hf.
  assert (forall l, 0 <= field_of p00 l 8 + field_of p10 l 8 + field_of p01 l 8 + field_of p11 l 8 <= 1020) as Hs.
  { intros k. pose proof (Hf p00 k). pose proof (Hf p10 k). pose proof (Hf p01 k). pose proof (Hf p11 k). lia. }
  set (S k := field_of p00 k 8 + field_of p10 k 8 + field_of p01 k 8 + field_of p11 k 8) in *.
  assert (forall h k, field_of p00 h 8 * 2 ^ 16 + field_of p00 k 8 + (field_of p10 h 8 * 2 ^ 16 + field_of p10 k 8) +
    (field_of p01 h 8 * 2 ^ 16 + field_of p01 k 8) + (field_of p11 h 8 * 2 ^ 16 + field_of p11 k 8) = S h * 2 ^ 16 + S k) as E
    by (intros h k; unfold S; ring).
  rewrite !E. destruct (lane_average (S 16) (S 0) (Hs 16) (Hs 0)) as [A0 A16]. destruct (lane_average (S 24) (S 8) (Hs 24) (Hs 8)) as [A8 A24].
  destruct Hi as [[= <- <-]|[[= <- <-]|[[= <- <-]|[[= <- <-]|[]]]]]; rewrite field_lor, field_u32 by lia.
  - rewrite field_land_all by (lia || reflexivity). rewrite A0. change (S 0) with (S 0).
    replace (field_of (Z.shiftl _ 8) 0 8) with 0; [apply Z.lor_0_r|]. unfold field_of. rewrite Z.shiftl_mul_pow2 by lia. clear. div_lia.
  - rewrite field_land_none, field_shiftl by (lia || reflexivity). rewrite field_land_all by (lia || reflexivity). exact A8.
  - rewrite field_land_all, field_shiftl by (lia || reflexivity). rewrite (field_land_none _ _ (16 - 8)) by (lia || reflexivity). rewrite A16. apply Z.lor_0_r.
  - rewrite field_land_none, field_shiftl by (lia || reflexivity). rewrite field_land_all by (lia || reflexivity). exact A24.
Qed.

Lemma average_8_field : averages_field average_8 8 0 8.
Proof.
  intros p00 p10 p01 p11 H00 H10 H01 H11. unfold average_8, sum4, field_of. rewrite shiftr_div by lia.
  change (2 ^ 0) with 1. rewrite !Z.div_1_r, !(Z.mod_small _ (2 ^ 8)) by (done || div_lia). done.
Qed.

Lemma lanes_4444 p : 0 <= p < 2 ^ 16 ->
  Z.lor (Z.land (u32 (Z.shiftl p 12)) 0x0F0F0000) (Z.land p 0x0F0F) =
  field_of p 12 4 * 2 ^ 24 + field_of p 4 4 * 2 ^ 16 + field_of p 8 4 * 2 ^ 8 + field_of p 0 4.
Proof.
  intros Hp. rewrite u32_id by (unfold is_u32; rewrite Z.shiftl_mul_pow2; lia). rewrite Z.shiftl_mul_pow2 by lia.
  change 0x0F0F0000 with ((2 ^ 4 - 1) * 2 ^ 24 + ((2 ^ 4 - 1) * 2 ^ 16 + 0)).
  change 0x0F0F with ((2 ^ 4 - 1) * 2 ^ 8 + (2 ^ 4 - 1)). rewrite !land_split, !land_ones_mod, Z.land_0_r, Z.add_0_r by lia.
  rewrite Z.lor_comm. pose proof (field_bound p 8 4 ltac:(lia)) as B8. pose proof (field_bound p 0 4 ltac:(lia)) as B0. unfold field_of in *.
  assert (p * 2 ^ 12 / 2 ^ 24 mod 2 ^ 4 = p / 2 ^ 12 mod 2 ^ 4) as -> by (clear -Hp; f_equal; div_lia).
  assert (p * 2 ^ 12 mod 2 ^ 24 / 2 ^ 16 mod 2 ^ 4 = p / 2 ^ 4 mod 2 ^ 4) as -> by (clear -Hp; div_lia).
  assert (p mod 2 ^ 8 mod 2 ^ 4 = p / 2 ^ 0 mod 2 ^ 4) as -> by (clear -Hp; div_lia).
  set (a := p / 2 ^ 12 mod 2 ^ 4). set (b := p / 2 ^ 4 mod 2 ^ 4).
  replace (a * 2 ^ 24 + b * 2 ^ 16) with (Z.shiftl (a * 2 ^ 8 + b) 16) by (rewrite Z.shiftl_mul_pow2 by lia; ring).
  rewrite lor_shiftl_add, Z.shiftl_mul_pow2 by lia. ring.
Qed.

Lemma average_4444_field l w : In (l, w) [(0, 4); (4, 4); (8, 4); (12, 4)] -> averages_field average_4444 16 l w.
Proof.
  intros Hi p00 p10 p01 p11 H00 H10 H01 H11. unfold average_4444, sum4. rewrite !lanes_4444 by done.
  pose proof (fun p l => field_bound p l 4 ltac:(lia)) as Hf. change (2 ^ 4) with 16 in Hf.
  assert (forall l, 0 <= field_of p00 l 4 + field_of p10 l 4 + field_of p01 l 4 + field_of p11 l 4 <= 60) as Hs.
  { intros k. pose proof (Hf p00 k). pose proof (Hf p10 k). pose proof (Hf p01 k). pose proof (Hf p11 k). lia. }
  set (S k := field_of p00 k 4 + field_of p10 k 4 + field_of p01 k 4 + field_of p11 k 4) in *.
  match goal with |- context [Z.shiftr ?x 2] => replace x with (S 12 * 2 ^ 24 + S 4 * 2 ^ 16 + S 8 * 2 ^ 8 + S 0) by (unfold S; ring) end.
  assert (forall k, 0 <= S k <= 60) as HS by exact Hs. pose proof (HS 0). pose proof (HS 4). pose proof (HS 8). pose proof (HS 12). set (x := Z.shiftr _ 2).
  assert (x = S 12 * 2 ^ 22 + S 4 * 2 ^ 14 + S 8 * 2 ^ 6 + S 0 / 4) as Hx by (subst x; rewrite shiftr_div by lia; clear -H; div_lia).
  rewrite field_lor by (destruct Hi as [[= <- <-]|[[= <- <-]|[[= <- <-]|[[= <- <-]|[]]]]]; lia).
  destruct Hi as [[= <- <-]|[[= <- <-]|[[= <- <-]|[[= <- <-]|[]]]]].
  - fold (S 0). rewrite field_land_all, field_land_none, Z.lor_0_r, Hx by (lia || reflexivity). unfold field_of. clearbody S. div_lia.
  - fold (S 4). rewrite field_land_none, field_land_all, field_shiftr, Z.lor_0_l, Hx by (lia || reflexivity). unfold field_of. clearbody S. div_lia.
  - fold (S 8). rewrite field_land_all, field_land_none, Z.lor_0_r, Hx by (lia || reflexivity). unfold field_of. clearbody S. div_lia.
  - fold (S 12). rewrite field_land_none, field_land_all, field_shiftr, Z.lor_0_l, Hx by (lia || reflexivity). unfold field_of. clearbody S. div_lia.
Qed.

(** ** A level holds the averages of the level before *)

Section LevelSpec.
  Context {size : Z} {average : Z -> Z -> Z -> Z -> Z} {src dst bs : Z} (Hsize : 1 <= size <= 4) (Hne : src <> dst).
#[local] Abbreviation texel := (texel size).

Lemma put_texel_other p i v px q : q <> p -> put_texel size p i v px q = px q.
Proof. intros Hq. unfold put_texel, set_pixels. by destruct (Z.eqb_spec q p). Qed.
Lemma put_texel_mem p i v px : is_mem (px p) -> is_mem (put_texel size p i v px p).
Proof. intros H. unfold put_texel, set_pixels. rewrite Z.eqb_refl. by apply is_mem_store_pixel. Qed.
Lemma load_pixel_ext m m' a : (forall b, a <= b < a + size -> m b = m' b) -> load_pixel m a size = load_pixel m' a size.
Proof.
  intros H. unfold load_pixel, load8, load24, load32, load16. assert (size = 1 \/ size = 2 \/ size = 3 \/ size = 4) as [E|[E|[E|E]]] by lia;
    rewrite E in *; cbn [Z.eqb Pos.eqb]; rewrite ?H by lia; done.
Qed.
Lemma texel_put p i v px j : is_mem (px p) ->
  texel (put_texel size p i v px) p j = if j =? i then v mod 2 ^ (8 * size) else texel px p j.
Proof.
  intros Hm. unfold Mipmap.texel, put_texel, set_pixels. rewrite Z.eqb_refl. destruct (Z.eqb_spec j i) as [->|Hj]; [by apply load_store_pixel|].
  apply load_pixel_ext. intros b Hb. apply store_pixel_frame. nia.
Qed.

(** The average of the four pixels from [o] on. *)
Definition average_at (px : pixels) (o : Z) : Z :=
  average (texel px src o) (texel px src (o + 1)) (texel px src (o + bs)) (texel px src (o + bs + 1)).
(** All that is written is in [dst], in [first .. last - 1]. *)
Definition fills (px px' : pixels) (first last : Z) (f : Z -> Z) : Prop :=
  (forall q, q <> dst -> px' q = px q) /\ is_mem (px' dst) /\
  forall i, texel px' dst i = if (first <=? i) && (i <? last) then f i mod 2 ^ (8 * size) else texel px dst i.

Lemma average_at_frame px px' o : px' src = px src -> average_at px' o = average_at px o.
Proof. intros H. unfold average_at, Mipmap.texel. by rewrite H. Qed.

Lemma reduce_row_fills stride n : forall x y offset px, is_mem (px dst) ->
  fills px (reduce_row size average src dst bs stride n x y offset px) (x + y * stride) (x + y * stride + Z.of_nat n)
    (fun i => average_at px (offset + 2 * (i - (x + y * stride)))).
Proof.
  induction n as [|n IH]; intros x y offset px Hm; cbn [reduce_row].
  { split; [done|]. split; [done|]. intros i. destruct (Z.leb_spec (x + y * stride) i), (Z.ltb_spec i (x + y * stride + Z.of_nat 0)); try done; lia. }
  cbv zeta. fold (average_at px offset). set (px1 := put_texel _ _ _ _ px).
  assert (is_mem (px1 dst)) as Hm1 by by apply put_texel_mem.
  destruct (IH (x + 1) y (offset + 2) px1 Hm1) as (F & M & T). split; [|split; [done|]].
  - intros q Hq. rewrite F by done. by apply put_texel_other.
  - intros i. rewrite T. replace (x + 1 + y * stride + Z.of_nat n) with (x + y * stride + Z.of_nat (S n)) by lia.
    assert (px1 src = px src) as Es by by apply put_texel_other. rewrite (average_at_frame px px1) by done.
    replace (offset + 2 + 2 * (i - (x + 1 + y * stride))) with (offset + 2 * (i - (x + y * stride))) by ring.
    unfold px1. rewrite texel_put by done.
    destruct (Z.eqb_spec i (x + y * stride)) as [->|Hi].
    + rewrite Z.sub_diag, Z.mul_0_r, Z.add_0_r. destruct (Z.leb_spec (x + 1 + y * stride) (x + y * stride)); [lia|]. cbn [andb].
      destruct (Z.leb_spec (x + y * stride) (x + y * stride)), (Z.ltb_spec (x + y * stride) (x + y * stride + Z.of_nat (S n))); try lia; done.
    + destruct (Z.leb_spec (x + 1 + y * stride) i), (Z.leb_spec (x + y * stride) i); try lia; done.
Qed.

Lemma reduce_rows_fills w n : (0 < w)%nat -> forall y px, is_mem (px dst) ->
  fills px (reduce_rows size average src dst bs (Z.of_nat w) n w y px) (y * Z.of_nat w) ((y + Z.of_nat n) * Z.of_nat w)
    (fun i => average_at px (i / Z.of_nat w * 2 * bs + 2 * (i mod Z.of_nat w))).
Proof.
  intros Hw. induction n as [|n IH]; intros y px Hm; cbn [reduce_rows].
  { split; [done|]. split; [done|]. intros i. destruct (Z.leb_spec (y * Z.of_nat w) i), (Z.ltb_spec i ((y + Z.of_nat 0) * Z.of_nat w)); try done; lia. }
  destruct (reduce_row_fills (Z.of_nat w) w 0 y (y * 2 * bs) px Hm) as (F1 & M1 & T1). set (px1 := reduce_row _ _ _ _ _ _ _ _ _ _ px) in *.
  destruct (IH (y + 1) px1 M1) as (F & M & T). split; [|split; [done|]].
  - intros q Hq. by rewrite F, F1.
  - intros i. rewrite T, T1. rewrite (average_at_frame px px1) by by apply F1.
    replace ((y + 1 + Z.of_nat n) * Z.of_nat w) with ((y + Z.of_nat (S n)) * Z.of_nat w) by lia. rewrite !Z.add_0_l.
    destruct (Z.leb_spec ((y + 1) * Z.of_nat w) i), (Z.leb_spec (y * Z.of_nat w) i); try nia; cbn [andb].
    + destruct (Z.ltb_spec i ((y + Z.of_nat (S n)) * Z.of_nat w)); [done|]. destruct (Z.ltb_spec i (y * Z.of_nat w + Z.of_nat w)); [nia|done].
    + destruct (Z.ltb_spec i (y * Z.of_nat w + Z.of_nat w)), (Z.ltb_spec i ((y + Z.of_nat (S n)) * Z.of_nat w)); try nia.
      assert (i / Z.of_nat w = y) as -> by (symmetry; apply (Z.div_unique i _ y (i - y * Z.of_nat w)); nia).
      assert (i mod Z.of_nat w = i - y * Z.of_nat w) as -> by (symmetry; apply (Z.mod_unique i _ y); nia). done.
    + done.
Qed.
End LevelSpec.

(** ** Claims on one level *)

(** The average of four pixels by masks and shifts is, in every component of
    the formats of 16, 32 and 8 bits but 5551, the average of the components
    rounded down: no component carries into another. *)
Theorem averages_exact : (forall l w, In (l, w) [(0, 5); (5, 6); (11, 5)] -> averages_field average_565 16 l w) /\
  (forall l w, In (l, w) [(0, 8); (8, 8); (16, 8); (24, 8)] -> averages_field average_8888 32 l w) /\
  (forall l w, In (l, w) [(0, 4); (4, 4); (8, 4); (12, 4)] -> averages_field average_4444 16 l w) /\
  averages_field average_8 8 0 8.
Proof.
  split_and!; [apply average_565_field|apply average_8888_field|apply average_4444_field|apply average_8_field].
Qed.

(** The formats whose pixels are averaged as numbers. *)
Definition word_average (format : Z) : option (Z * (Z -> Z -> Z -> Z -> Z)) :=
  if format =? GGL_PIXEL_FORMAT_RGB_565 then Some (2, average_565)
  else if format =? GGL_PIXEL_FORMAT_RGBA_5551 then Some (2, average_5551)
  else if format =? GGL_PIXEL_FORMAT_RGBA_8888 then Some (4, average_8888)
  else if format =? GGL_PIXEL_FORMAT_RGBA_4444 then Some (2, average_4444)
  else None.

Lemma reduce_level_words base dst w h px size average : word_average (gs_format base) = Some (size, average) ->
  reduce_level base dst w h px = Some (reduce_rows size average (gs_data base) dst (gs_stride base) w (Z.to_nat h) (Z.to_nat w) 0 px) /\ 1 <= size <= 4.
Proof.
  unfold word_average, reduce_level, bytes_per_texel. set (f := gs_format base).
  destruct (Z.eqb_spec f GGL_PIXEL_FORMAT_RGB_565); [by intros [= <- <-]|].
  destruct (Z.eqb_spec f GGL_PIXEL_FORMAT_RGBA_5551); [by intros [= <- <-]|].
  destruct (Z.eqb_spec f GGL_PIXEL_FORMAT_RGBA_8888); [by intros [= <- <-]|].
  destruct (Z.eqb_spec f GGL_PIXEL_FORMAT_RGBA_4444) as [E|]; [|done]. intros [= <- <-]. by rewrite E.
Qed.

(** Level [d] of [w] by [h] is level [s] with each square of four pixels replaced
    by its average. *)
Definition averaged (size : Z) (average : Z -> Z -> Z -> Z -> Z) (px : pixels) (s d : GGLSurface) (w h : Z) : Prop :=
  gs_width d = w /\ gs_height d = h /\ gs_stride d = w /\ gs_format d = gs_format s /\
  forall x y, 0 <= x < w -> 0 <= y < h ->
    let p dx dy := texel size px (gs_data s) (2 * x + dx + (2 * y + dy) * gs_stride s) in
    texel size px (gs_data d) (x + y * w) = average (p 0 0) (p 1 0) (p 0 1) (p 1 1) mod 2 ^ (8 * size).

(** In the formats of 16 and 32 bits; only the block of the level is written. *)
Lemma reduce_level_spec base dst w h px size average : word_average (gs_format base) = Some (size, average) ->
  gs_data base <> dst -> is_mem (px dst) -> 0 < w -> 0 <= h ->
  exists px', reduce_level base dst w h px = Some px' /\ (forall q, q <> dst -> px' q = px q) /\ is_mem (px' dst) /\
    (forall d, gs_data d = dst -> gs_width d = w -> gs_height d = h -> gs_stride d = w -> gs_format d = gs_format base ->
      averaged size average px' base d w h) /\
    (forall i, i < 0 \/ w * h <= i -> texel size px' dst i = texel size px dst i).
Proof.
  intros Ha Hne Hm Hw Hh. destruct (reduce_level_words base dst w h px size average Ha) as [-> Hs]. eexists. split; [reflexivity|].
  pose proof (reduce_rows_fills (average := average) (src := gs_data base) (bs := gs_stride base) Hs Hne (Z.to_nat w) (Z.to_nat h) ltac:(lia) 0 px Hm) as (F & M & T).
  rewrite (Z2Nat.id w) in F, M, T by lia. rewrite (Z2Nat.id h) in T by lia. split; [done|]. split; [done|]. split.
  - intros d Ed Ew Eh Es Ef. split_and!; [done..|]. intros x y Hx Hy p. rewrite Ed, T.
    destruct (Z.leb_spec (0 * w) (x + y * w)), (Z.ltb_spec (x + y * w) ((0 + h) * w)); try nia. cbn [andb].
    rewrite Z.div_add, Z.div_small, Z.mod_add, (Z.mod_small x) by lia. unfold average_at, p, texel. rewrite F by done. f_equal. f_equal; f_equal; ring.
  - intros i Hi. rewrite T. destruct (Z.leb_spec (0 * w) i), (Z.ltb_spec i ((0 + h) * w)); try nia; done.
Qed.

(** ** The levels come to an end *)

(** There is a surface for every level: entries of the array, or level 0 owned. *)
Definition has_levels (t : EGLTextureObject) : Prop := mMipmaps t <> None \/ mSize t <> 0.

Lemma hbind_inv {W A B} (m : stM W A) (k : A -> stM W B) w r : hbind m k w = Some r -> exists a w', m w = Some (a, w') /\ k a w' = Some r.
Proof. unfold hbind. destruct (m w) as [[a w']|]; [|done]. by exists a, w'. Qed.

Lemma has_levels_ok t : has_levels t -> level_ok t.
Proof. intros [H|H]; [by left|right; by left]. Qed.
Lemma has_levels_edit t level s : has_levels t -> has_levels (editMip t level s).
Proof.
  unfold has_levels, editMip. intros H. destruct (mip_index t level) as [i|]; [|exact H]. destruct (mMipmaps t) as [[p ms]|] eqn:EM; [by left|]. right. by destruct H.
Qed.
Lemma allocateMipmaps_levels t m t1 m1 : level_ok t -> mMipmaps t = None -> allocateMipmaps t m = Some ((NO_ERROR, t1), m1) -> has_levels t1.
Proof.
  unfold allocateMipmaps, level_ok, has_levels. intros Hok EM E. rewrite EM in Hok. destruct (gs_data (surface t) =? 0); [done|].
  set (n := 31 - _) in E. destruct (Z.leb_spec n 0) as [Hn|Hn].
  - injection E as <- <-. destruct Hok as [?|[?|(Hm & Hw & Hh)]]; [done|by right|]. exfalso.
    destruct (lods_large t Hm Hw Hh) as [EL HL]. subst n. lia.
  - apply hbind_inv in E as (p & m2 & _ & E). destruct (p =? 0); [done|]. injection E as <- <-. by left.
Qed.
Lemma reallocate_level_levels t level w h s f c m t1 m1 : has_levels t -> reallocate_level t level w h s f c m = Some ((NO_ERROR, t1), m1) -> has_levels t1.
Proof.
  intros Hh E. unfold reallocate_level in E. apply hbind_inv in E as (cur & m2 & _ & E). apply hbind_inv in E as ([] & m3 & _ & E).
  apply hbind_inv in E as (p & m4 & _ & E). destruct (p =? 0); [done|]. injection E as <- <-. by apply (has_levels_edit t level).
Qed.
Lemma reallocate_mip_levels t level w h s f c m t1 m1 : level_ok t -> reallocate_mip t level w h s f c m = Some ((NO_ERROR, t1), m1) -> has_levels t1.
Proof.
  intros Hok E. unfold reallocate_mip in E. apply hbind_inv in E as ([err t2] & m2 & E2 & E).
  destruct (Z.eqb_spec err NO_ERROR) as [->|]; cbn [negb] in E; [|done]. eapply reallocate_level_levels; [|exact E].
  destruct (mMipmaps t) eqn:EM; [|by eapply allocateMipmaps_levels]. injection E2 as <- <-. left. by rewrite EM.
Qed.
Lemma mip_levels_some t level m rest : texture_ok m rest t -> has_levels t -> 0 < level -> exists cur, mip t level m = Some (cur, m).
Proof.
  intros [_ S] Hh Hl. destruct (mip_slot m t level S Hl) as (i & cur & E & _); [|by exists cur]. by destruct Hh.
Qed.

Lemma half_side_bound n fuel : 1 <= n < 2 ^ Z.of_nat (S fuel) -> 1 <= half_side n < 2 ^ Z.max 1 (Z.of_nat fuel).
Proof.
  intros Hn. unfold half_side. rewrite shiftr_div by lia. change (2 ^ 1) with 2 in *.
  assert (n / 2 < 2 ^ Z.of_nat fuel).
  { apply Z.div_lt_upper_bound; [lia|]. rewrite <-Z.pow_succ_r by lia. rewrite <-Nat2Z.inj_succ. lia. }
  assert (2 ^ Z.of_nat fuel <= 2 ^ Z.max 1 (Z.of_nat fuel)) by (apply Z.pow_le_mono_r; lia).
  assert (2 ^ 1 <= 2 ^ Z.max 1 (Z.of_nat fuel)) by (apply Z.pow_le_mono_r; lia).
  destruct (Z.eqb_spec (n / 2) 0); [lia|]. pose proof (Z.div_pos n 2). lia.
Qed.

Lemma pyramid_loop_returns rest size fuel : (0 < fuel)%nat -> forall level base w h t st,
  1 <= w < 2 ^ Z.of_nat fuel -> 1 <= h < 2 ^ Z.of_nat fuel -> 0 <= level ->
  texture_ok (py_blocks st) rest t -> level_ok t ->
  exists err t' st', pyramid_loop fuel size level base w h t st = Some ((err, t'), st') /\
    texture_ok (py_blocks st') rest t' /\ direct t' = direct t /\ (err = NO_ERROR \/ err = NO_MEMORY \/ err = BAD_TYPE).
Proof.
  induction fuel as [|fuel IH]; intros Hf level base w h t st Hw Hh Hl HT Hok; [lia|]. cbn [pyramid_loop]. cbv zeta.
  destruct (reallocate_mip_spec _ rest t (level + 1) w h w (gs_format base) (gs_compressedFormat base) HT ltac:(lia) Hok)
    as (err & t1 & b1 & E & HT1 & HD & Herr).
  assert (on_blocks (reallocate t (level + 1) w h w (gs_format base) (gs_compressedFormat base) (w * size)) st = Some ((err, t1), mk_pyramid b1 (py_pixels st))) as E1.
  { unfold on_blocks, reallocate. destruct (Z.eqb_spec (level + 1) 0); [lia|]. by rewrite E. }
  rewrite (hbind_some _ _ _ _ _ E1). destruct Herr as [->| ->]; cbn [Z.eqb NO_ERROR NO_MEMORY negb].
  { eexists _, t1, _. split; [reflexivity|]. split; [done|]. split; [done|]. tauto. }
  pose proof (reallocate_mip_levels _ _ _ _ _ _ _ _ _ _ Hok E) as HL1.
  destruct (mip_levels_some t1 (level + 1) b1 rest HT1 HL1 ltac:(lia)) as [cur EC].
  assert (on_blocks (mip t1 (level + 1)) (mk_pyramid b1 (py_pixels st)) = Some (cur, mk_pyramid b1 (py_pixels st))) as E2 by (unfold on_blocks; cbn; by rewrite EC).
  rewrite (hbind_some _ _ _ _ _ E2). unfold hbind at 1, fill_level. cbn [py_pixels py_blocks].
  destruct (reduce_level base (gs_data cur) w h (py_pixels st)) as [px|]; cbn [negb].
  2: { eexists _, t1, _. split; [reflexivity|]. split; [done|]. split; [done|]. tauto. }
  destruct (Z.eqb_spec (Z.land w h) 1) as [|Hn].
  { eexists _, t1, _. split; [reflexivity|]. split; [done|]. split; [done|]. tauto. }
  destruct fuel as [|fuel]; [exfalso; apply Hn; replace w with 1 by lia; by replace h with 1 by lia|].
  pose proof (half_side_bound w (S fuel) ltac:(lia)) as Hw'. pose proof (half_side_bound h (S fuel) ltac:(lia)) as Hh'.
  replace (Z.max 1 (Z.of_nat (S fuel))) with (Z.of_nat (S fuel)) in Hw', Hh' by lia.
  destruct (IH ltac:(lia) (level + 1) cur (half_side w) (half_side h) t1 (mk_pyramid b1 px) Hw' Hh' ltac:(lia) HT1 (has_levels_ok t1 HL1))
    as (err & t' & st' & E' & HT' & HD' & He). exists err, t', st'. split; [exact E'|]. split; [done|]. split; [congruence|done].
Qed.

(** Building the mipmaps of a texture of any size ends, allocations failing or
    not: no error, no memory or an unsupported format is reported, no block is
    freed twice and every block is still owned. *)
Theorem pyramid_returns formats rest t st : texture_ok (py_blocks st) rest t -> level_ok t ->
  0 <= gs_width (surface t) < 2 ^ 31 -> 0 <= gs_height (surface t) < 2 ^ 31 ->
  exists err t' st', buildAPyramid formats t st = Some ((err, t'), st') /\
    texture_ok (py_blocks st') rest t' /\ direct t' = direct t /\ (err = NO_ERROR \/ err = NO_MEMORY \/ err = BAD_TYPE).
Proof.
  intros HT Hok Hw Hh. unfold buildAPyramid. rewrite !s32_id by (unfold is_s32; lia). destruct (Z.land _ _ =? 1).
  { exists NO_ERROR, t, st. split; [done|]. tauto. }
  assert (forall n, 0 <= n < 2 ^ 31 -> 1 <= half_side n < 2 ^ Z.of_nat 32) as Hb.
  { intros n Hn. unfold half_side. rewrite shiftr_div by lia. change (2 ^ 1) with 2. destruct (Z.eqb_spec (n / 2) 0); div_lia. }
  apply pyramid_loop_returns; [lia|by apply Hb|by apply Hb|lia|done|done].
Qed.

(** ** The whole chain *)

Definition surface_at (t : EGLTextureObject) (k : nat) : option GGLSurface :=
  match k with O => Some (surface t) | S i => match mMipmaps t with Some (_, ms) => ms !! i | None => None end end.
(** Where the blocks of a level are among the places of a texture. *)
Definition slot_of (k : nat) : nat := match k with O => O | S i => S (S i) end.

Lemma surface_slot t k s : mSize t <> 0 -> surface_at t k = Some s -> slots t !! slot_of k = Some (gs_data s).
Proof.
  intros Hz. unfold surface_at, slots, base_slot, mip_slots. rewrite (proj2 (Z.eqb_neq _ 0) Hz).
  destruct k as [|i]; [by intros [= <-]|]. destruct (mMipmaps t) as [[p ms]|]; [|done]. intros H. cbn. change ((gs_data <$> ms) !! i = Some (gs_data s)).
  by rewrite list_lookup_fmap, H.
Qed.

(** A level after the first, when the array is there. *)
Lemma reallocate_level_array m rest t p ms i w h s f c t1 m1 : texture_ok m rest t -> mMipmaps t = Some (p, ms) -> (i < length ms)%nat ->
  reallocate_level t (Z.of_nat (S i)) w h s f c m = Some ((NO_ERROR, t1), m1) ->
  texture_ok m1 rest t1 /\ exists q, q <> 0 /\ mSize t1 = mSize t /\ surface t1 = surface t /\
    mMipmaps t1 = Some (p, <[i := described (zero_GGLSurface <| gs_data := q |>) w h s f c]> ms).
Proof.
  intros HT EM Hi E. destruct (reallocate_level_spec m rest t (Z.of_nat (S i)) w h s f c HT ltac:(lia)) as (err & t' & m' & E' & HT' & _); [by rewrite EM|].
  rewrite E in E'. injection E' as <- <- <-. split; [done|]. unfold reallocate_level in E.
  apply hbind_inv in E as (cur & m2 & _ & E). apply hbind_inv in E as ([] & m3 & _ & E). apply hbind_inv in E as (q & m4 & _ & E).
  destruct (Z.eqb_spec q 0) as [|Hq]; [done|]. injection E as <- <-. exists q. split; [done|].
  destruct HT as [_ S0]. unfold shape_ok in S0. rewrite EM in S0. destruct S0 as (_ & Hn & _).
  unfold editMip, mip_index. rewrite EM. destruct (Z.leb_spec (Z.of_nat (S i)) 0); [lia|]. cbn. split; [done|]. split; [done|].
  replace (Z.to_nat (Z.min (Z.of_nat (S i) - 1) (mNumExtraLod t - 1))) with i by lia. done.
Qed.

Section Chain.
  Context {rest : gset Z} {size : Z} {average : Z -> Z -> Z -> Z -> Z} {W H : Z}.
  Hypothesis (HW : 0 <= W < 2 ^ 31) (HH : 0 <= H < 2 ^ 31).
#[local] Abbreviation side_w k := (lod_size W k).
#[local] Abbreviation side_h k := (lod_size H k).

(** What a level leaves as it is: the surfaces up to level [k] and their pixels. *)
Definition keeps (k : nat) (t t' : EGLTextureObject) (px px' : pixels) : Prop :=
  mSize t' = mSize t /\ (forall j, (j <= k)%nat -> surface_at t' j = surface_at t j) /\
  forall j s, (j <= k)%nat -> surface_at t j = Some s -> px' (gs_data s) = px (gs_data s).

Lemma keeps_levels_trans k k' t t1 t' px px1 px' : (k <= k')%nat -> keeps k t t1 px px1 -> keeps k' t1 t' px1 px' -> keeps k t t' px px'.
Proof.
  intros Hk (Z1 & S1 & P1) (Z2 & S2 & P2). split; [congruence|]. split.
  - intros j Hj. rewrite S2 by lia. by apply S1.
  - intros j s Hj Hs. rewrite <-(P1 j s Hj Hs). apply (P2 j); [lia|]. by rewrite S1.
Qed.

Lemma averaged_ext px px' s d w h : px' (gs_data s) = px (gs_data s) -> px' (gs_data d) = px (gs_data d) ->
  averaged size average px s d w h -> averaged size average px' s d w h.
Proof.
  intros Es Ed (A & B & C & D & E). split_and!; [done..|]. intros x y Hx Hy. specialize (E x y Hx Hy). unfold texel in *. by rewrite Es, Ed.
Qed.

(** One turn of the loop, for level [S k]. *)
Lemma chain_step k t p ms base b px t1 b1 : texture_ok b rest t -> mSize t <> 0 -> mMipmaps t = Some (p, ms) -> (k < length ms)%nat ->
  surface_at t k = Some base -> gs_data base <> 0 -> is_u8 (gs_format base) -> word_average (gs_format base) = Some (size, average) ->
  (forall q, is_mem (px q)) ->
  reallocate_level t (Z.of_nat (S k)) (side_w (S k)) (side_h (S k)) (side_w (S k)) (gs_format base) (gs_compressedFormat base) b = Some ((NO_ERROR, t1), b1) ->
  exists cur px1, mip t1 (Z.of_nat (S k)) b1 = Some (cur, b1) /\ reduce_level base (gs_data cur) (side_w (S k)) (side_h (S k)) px = Some px1 /\
    texture_ok b1 rest t1 /\ (exists ms1, mMipmaps t1 = Some (p, ms1) /\ length ms1 = length ms) /\ keeps k t t1 px px1 /\
    surface_at t1 (S k) = Some cur /\ gs_data cur <> 0 /\ gs_format cur = gs_format base /\ (forall q, is_mem (px1 q)) /\
    averaged size average px1 base cur (side_w (S k)) (side_h (S k)).
Proof.
  intros HT Hz EM Hk Hb Hd Hf Ha Hm E. destruct (reallocate_level_array _ _ _ _ _ _ _ _ _ _ _ _ _ HT EM Hk E) as (HT1 & q & Hq & Z1 & S1 & M1).
  set (cur := described _ _ _ _ _ _) in M1. exists cur. assert (surface_at t1 (S k) = Some cur) as Hc by (cbn; rewrite M1; by apply list_lookup_insert_eq).
  assert (forall j, (j <= k)%nat -> surface_at t1 j = surface_at t j) as HS.
  { intros [|j] Hj; cbn; [by f_equal|]. rewrite M1, EM. apply list_lookup_insert_ne. lia. }
  assert (forall j s, (j <= k)%nat -> surface_at t j = Some s -> gs_data s <> q) as Hne.
  { intros j s Hj Hs Eq. rewrite <-HS in Hs by done. apply surface_slot in Hs, Hc; [|congruence..]. rewrite Eq in Hs.
    pose proof (ow_once _ _ _ (tx_owns _ _ _ HT1) _ _ q Hs Hc Hq). destruct j; cbn in *; lia. }
  assert (forall n, 0 <= n < 2 ^ 31 -> 1 <= lod_size n (S k) < 2 ^ 31) as Hb1.
  { intros n Hn. unfold lod_size. rewrite Z.shiftr_div_pow2 by lia. pose proof (Z.div_le_upper_bound n (2 ^ Z.of_nat (S k)) n ltac:(lia) ltac:(nia)). lia. }
  pose proof (Hb1 W HW). pose proof (Hb1 H HH).
  destruct (reduce_level_spec base q (side_w (S k)) (side_h (S k)) px size average Ha (Hne k base ltac:(lia) Hb) (Hm q) ltac:(lia) ltac:(lia))
    as (px1 & ER & F & M & A & _).
  exists px1. split_and!; try done.
  - destruct HT1 as [_ S0]. unfold shape_ok in S0. rewrite M1 in S0. destruct S0 as (_ & Hn & _). unfold mip, mip_index. rewrite M1.
    destruct (Z.leb_spec (Z.of_nat (S k)) 0); [lia|]. rewrite Hn, length_insert. unfold array_get.
    replace (Z.min (Z.of_nat (S k) - 1) (Z.of_nat (length ms) - 1)) with (Z.of_nat k) by lia. destruct (Z.ltb_spec (Z.of_nat k) 0); [lia|].
    rewrite Nat2Z.id. by rewrite list_lookup_insert_eq.
  - eexists. split; [exact M1|]. apply length_insert.
  - split; [done|]. split; [done|]. intros j s Hj Hs. apply F. by apply (Hne j).
  - unfold cur, described. cbn. by apply u8_id.
  - intros q'. destruct (Z.eq_dec q' q) as [->|]; [done|]. by rewrite F.
  - apply A; unfold cur, described; cbn; rewrite ?u32_id, ?u8_id by (done || unfold is_u32; lia); done.
Qed.

Lemma chain_loop fuel : forall bpp k t p ms base b px t' st', texture_ok b rest t -> mSize t <> 0 -> mMipmaps t = Some (p, ms) -> (k < length ms)%nat ->
  side_w (length ms) = 1 -> side_h (length ms) = 1 ->
  surface_at t k = Some base -> gs_data base <> 0 -> is_u8 (gs_format base) -> word_average (gs_format base) = Some (size, average) ->
  (forall q, is_mem (px q)) ->
  pyramid_loop fuel bpp (Z.of_nat k) base (side_w (S k)) (side_h (S k)) t (mk_pyramid b px) = Some ((NO_ERROR, t'), st') ->
  exists n, (k < n)%nat /\ Z.land (side_w n) (side_h n) = 1 /\ keeps k t t' px (py_pixels st') /\
    forall j, (k <= j < n)%nat -> exists s d, surface_at t' j = Some s /\ surface_at t' (S j) = Some d /\
      averaged size average (py_pixels st') s d (side_w (S j)) (side_h (S j)).
Proof.
  induction fuel as [|fuel IH]; intros bpp k t p ms base b px t' st' HT Hz EM Hk Lw Lh Hb Hd Hf Ha Hm E; [done|]. cbn [pyramid_loop] in E. cbv zeta in E.
  replace (Z.of_nat k + 1) with (Z.of_nat (S k)) in E by lia.
  apply hbind_inv in E as ([err t1] & [b1 px0] & E1 & E). destruct (Z.eqb_spec err NO_ERROR) as [->|]; cbn [negb] in E; [|done].
  unfold on_blocks in E1. cbn [py_blocks py_pixels] in E1. apply bind_Some in E1 as ([[err1 t2] b2] & E1 & [= -> -> -> ->]).
  unfold reallocate in E1. destruct (Z.eqb_spec (Z.of_nat (S k)) 0); [lia|]. unfold reallocate_mip in E1. rewrite EM in E1.
  rewrite (hbind_some _ _ b (NO_ERROR, t) b) in E1 by done. cbn [Z.eqb NO_ERROR negb] in E1.
  destruct (chain_step k t p ms base b px0 t1 b1 HT Hz EM Hk Hb Hd Hf Ha Hm E1)
    as (cur & px1 & EC & ER & HT1 & (ms1 & EM1 & EL) & K & Hc & Hdc & Hfc & Hm1 & A).
  assert (on_blocks (mip t1 (Z.of_nat (S k))) (mk_pyramid b1 px0) = Some (cur, mk_pyramid b1 px0)) as E2 by (unfold on_blocks; cbn; by rewrite EC).
  rewrite (hbind_some _ _ _ _ _ E2) in E. unfold hbind at 1, fill_level in E. cbn [py_pixels py_blocks] in E. rewrite ER in E. cbn [negb] in E.
  destruct (Z.eqb_spec (Z.land (side_w (S k)) (side_h (S k))) 1) as [E3|Hn].
  - injection E as <- <-. exists (S k). split; [lia|]. split; [done|]. split; [done|]. intros j Hj. assert (j = k) as -> by lia.
    exists base, cur. split; [|done]. destruct K as (_ & KS & _). by rewrite KS.
  - assert (S k < length ms)%nat as Hk'.
    { destruct (Nat.eq_dec (S k) (length ms)) as [Ek|]; [|lia]. exfalso. apply Hn. by rewrite Ek, Lw, Lh. }
    rewrite <-EL in Hk', Lw, Lh.
    assert (forall n, 0 <= n -> half_side (lod_size n (S k)) = lod_size n (S (S k))) as Hh.
    { intros n0 Hn0. rewrite <-(half_lod n0 (S k)) by done. unfold half_side. by destruct (_ =? 0). }
    rewrite !Hh in E by lia.
    destruct (IH bpp (S k) t1 p ms1 cur b1 px1 t' st' HT1 ltac:(by rewrite (proj1 K)) EM1 Hk' Lw Lh Hc Hdc ltac:(by rewrite Hfc) ltac:(by rewrite Hfc) Hm1 E)
      as (n1 & Hn1 & Hl & K1 & HL).
    exists n1. split; [lia|]. split; [done|]. split; [by apply (keeps_levels_trans k (S k) t t1 t' px0 px1); [lia|..]|].
    intros j Hj. destruct (Nat.eq_dec j k) as [->|]; [|apply HL; lia]. destruct K as (_ & KS & KP), K1 as (_ & KS1 & KP1).
    exists base, cur. split; [rewrite KS1, KS by lia; done|]. split; [rewrite KS1 by lia; done|].
    apply (averaged_ext px1); [|by apply (KP1 (S k))|done]. apply (KP1 k); [lia|]. rewrite KS; [done|lia].
Qed.
End Chain.

Lemma hbind_cong {St A B} (m m' : stM St A) (k : A -> stM St B) w w' : m w = m' w' -> hbind m k w = hbind m' k w'.
Proof. unfold hbind. by intros ->. Qed.

(** The first level of a texture without an array allocates it. *)
Lemma loop_allocates fuel bpp level base w h t t1 b b1 px : mMipmaps t = None -> mMipmaps t1 <> None -> 0 <= level ->
  allocateMipmaps t b = Some ((NO_ERROR, t1), b1) ->
  pyramid_loop fuel bpp level base w h t (mk_pyramid b px) = pyramid_loop fuel bpp level base w h t1 (mk_pyramid b1 px).
Proof.
  intros EM EM1 Hl E. destruct fuel as [|fuel]; [done|]. cbn [pyramid_loop]. cbv zeta. apply hbind_cong.
  unfold on_blocks, reallocate. cbn [py_blocks py_pixels]. destruct (Z.eqb_spec (level + 1) 0); [lia|].
  unfold reallocate_mip. rewrite EM, (hbind_some _ _ _ _ _ E). destruct (mMipmaps t1) as [a|]; [|done].
  by rewrite (hbind_some _ _ b1 (NO_ERROR, t1) b1).
Qed.

Lemma loop_no_array fuel bpp level base w h t t1 err b b1 px : mMipmaps t = None -> 0 <= level -> err <> NO_ERROR ->
  allocateMipmaps t b = Some ((err, t1), b1) ->
  pyramid_loop (S fuel) bpp level base w h t (mk_pyramid b px) = Some ((NO_MEMORY, t1), mk_pyramid b1 px).
Proof.
  intros EM Hl He E. cbn [pyramid_loop]. cbv zeta. refine (hbind_some _ _ _ (NO_MEMORY, t1) (mk_pyramid b1 px) _). unfold on_blocks, reallocate. cbn [py_blocks py_pixels].
  destruct (Z.eqb_spec (level + 1) 0); [lia|]. unfold reallocate_mip. by rewrite EM, (hbind_some _ _ _ _ _ E), (proj2 (Z.eqb_neq _ _) He).
Qed.

Lemma lod_size_one x M : 0 <= x <= M -> 0 < Z.log2 M -> lod_size x (Z.to_nat (Z.log2 M)) = 1.
Proof.
  intros Hx HM. unfold lod_size. rewrite Z2Nat.id, shiftr_div by lia. assert (0 < M) by (destruct (Z.eq_dec M 0) as [->|]; [cbn in HM; lia|lia]).
  pose proof (Z.log2_spec M ltac:(lia)) as [_ H2]. rewrite Z.pow_succ_r in H2 by lia.
  assert (x / 2 ^ Z.log2 M < 2) by (apply Z.div_lt_upper_bound; lia). lia.
Qed.

(** The array a texture has leads down to one pixel; without an array, the
    pixels are there. *)
Definition array_ok (t : EGLTextureObject) : Prop :=
  match mMipmaps t with
  | Some (_, ms) => lod_size (gs_width (surface t)) (length ms) = 1 /\ lod_size (gs_height (surface t)) (length ms) = 1
  | None => True
  end.

Lemma allocateMipmaps_array m rest t t1 m1 : texture_ok m rest t -> mMipmaps t = None ->
  1 <= gs_width (surface t) < 2 ^ 31 -> 1 <= gs_height (surface t) < 2 ^ 31 -> Z.land (gs_width (surface t)) (gs_height (surface t)) <> 1 ->
  allocateMipmaps t m = Some ((NO_ERROR, t1), m1) ->
  texture_ok m1 rest t1 /\ surface t1 = surface t /\ mSize t1 = mSize t /\ array_ok t1 /\ exists p ms, mMipmaps t1 = Some (p, ms) /\ ms <> [].
Proof.
  intros HT EM Hw Hh Hn E. destruct (allocateMipmaps_spec m rest t HT EM) as (err & t' & m' & E' & HT' & S' & Z' & _). rewrite E in E'.
  injection E' as <- <- <-. split; [done|]. split; [done|]. split; [done|].
  assert (1 < Z.max (gs_width (surface t)) (gs_height (surface t)) < 2 ^ 31) as HM.
  { destruct (Z.eq_dec (gs_width (surface t)) 1) as [E1|]; [|lia]. destruct (Z.eq_dec (gs_height (surface t)) 1) as [E2|]; [|lia]. by rewrite E1, E2 in Hn. }
  destruct (lods_large t HM ltac:(lia) ltac:(lia)) as [EL HL]. unfold allocateMipmaps in E. rewrite EL in E.
  destruct (gs_data (surface t) =? 0); [done|]. destruct (Z.leb_spec (Z.log2 (Z.max (gs_width (surface t)) (gs_height (surface t)))) 0); [lia|].
  apply hbind_inv in E as (p & m2 & _ & E). destruct (p =? 0); [done|]. injection E as <- <-. split.
  - unfold array_ok. cbn. rewrite length_replicate. split; apply lod_size_one; lia.
  - eexists p, _. split; [reflexivity|]. destruct (Z.to_nat _) eqn:E0; [lia|done].
Qed.


(** ** Concrete textures *)

(** A texture of [w] by [h] that owns block 1. *)
Definition square_texture (format w h : Z) : EGLTextureObject :=
  new_texture <| mSize := w * h |> <| surface := mk_GGLSurface sizeof_GGLSurface w h w 1 format 0 |>.
Definition one_block (fs : list bool) : blocks := mk_blocks {[1]} 2 fs.
(** Every byte of a block is its address. *)
Definition counting : pixels := fun _ a => a mod 256.

Lemma square_texture_ok format w h fs : w * h <> 0 -> texture_ok (one_block fs) ∅ (square_texture format w h).
Proof.
  intros Hs. split; [|done]. unfold slots, mip_slots, base_slot, square_texture. cbn. rewrite (proj2 (Z.eqb_neq (w * h) 0) Hs).
  apply (owns_zeros _ ∅ [1] [0]); [by repeat constructor|]. split; cbn.
  - intros i j p [-> _]%list_lookup_singleton_Some [-> _]%list_lookup_singleton_Some. done.
  - intros p. set_unfold. split; [intros ->; right; lia|]. intros [?|[? [?|?]]]; tauto.
  - set_solver.
  - lia.
  - intros p. set_unfold. lia.
Qed.

Lemma pyramid_returns_witness : exists err t' st',
  buildAPyramid gPixelFormatInfos (square_texture GGL_PIXEL_FORMAT_RGB_565 4 2) (mk_pyramid (one_block [true; false; true]) counting) = Some ((err, t'), st') /\
    texture_ok (py_blocks st') ∅ t' /\ direct t' = 0 /\ (err = NO_ERROR \/ err = NO_MEMORY \/ err = BAD_TYPE).
Proof.
  apply (pyramid_returns gPixelFormatInfos ∅ (square_texture GGL_PIXEL_FORMAT_RGB_565 4 2) (mk_pyramid (one_block [true; false; true]) counting)).
  - by apply square_texture_ok.
  - right. by left.
  - cbn. lia.
  - cbn. lia.
Defined.


(** ** Faults *)

(** Red leaks into the green of the 5551 average: of one pixel with red 1 and three
    of black, the green is 8 of 31. *)
Example red_in_green : field_of (average_5551 0x0800 0 0 0) 6 5 = 8 /\ field_of 0x0800 6 5 = 0.
Proof. split; reflexivity. Qed.

(** The components of a pixel of three bytes are written over those of its
    neighbour: of the two pixels of a level of 2 by 1, the second starts at byte 1. *)
Example byte_pixels_overlap :
  let base := mk_GGLSurface sizeof_GGLSurface 4 2 4 1 GGL_PIXEL_FORMAT_RGB_888 0 in
  let px : pixels := fun p a => if (p =? 1) && (a mod 3 =? 0) then 200 else 0 in
  option_map (fun px' : pixels => map (px' 2) [0; 1; 2; 3; 4; 5]) (reduce_level base 2 2 1 px) = Some [200; 200; 0; 0; 0; 0].
Proof. vm_compute. reflexivity. Qed.

(** The level of a base of one row is averaged with what follows the base. *)
Example row_past_the_end :
  let base := mk_GGLSurface sizeof_GGLSurface 4 1 4 1 GGL_PIXEL_FORMAT_A_8 0 in
  let px v : pixels := fun p a => if a <? 4 then 0 else v in
  option_map (fun px' : pixels => px' 2 0) (reduce_level base 2 2 1 (px 0)) = Some 0 /\
  option_map (fun px' : pixels => px' 2 0) (reduce_level base 2 2 1 (px 200)) = Some 100.
Proof. split; vm_compute; reflexivity. Qed.

(** The test for a level of one pixel holds at any two odd sides without another
    bit in common: of 10 by 6, only the level of 5 by 3 is made, the texture is
    left incomplete. *)
Example odd_sides_stop :
  option_map (fun '((err, t), _) => (err, mNumExtraLod t, mIsComplete t, map gs_width (match mMipmaps t with Some (_, ms) => ms | None => [] end)))
    (buildAPyramid gPixelFormatInfos (square_texture GGL_PIXEL_FORMAT_A_8 10 6) (mk_pyramid (one_block []) counting)) =
  Some (NO_ERROR, 3, false, [5; 0; 0]).
Proof. vm_compute. reflexivity. Qed.
(** Of 8 by 4, all are. *)
Example even_sides :
  option_map (fun '((err, t), _) => (err, mNumExtraLod t, mIsComplete t, map gs_width (match mMipmaps t with Some (_, ms) => ms | None => [] end)))
    (buildAPyramid gPixelFormatInfos (square_texture GGL_PIXEL_FORMAT_A_8 8 4) (mk_pyramid (one_block []) counting)) =
  Some (NO_ERROR, 3, true, [4; 2; 1]).
Proof. vm_compute. reflexivity. Qed.
