(* ===== verification/Palette.v ===== *)
(** * Paletted textures

    Models [dataSizePalette4] and [decodePalette4] of swrender/texture.cpp: the
    size of the data of a paletted texture with its levels, and the expansion of
    one level into the pixels of a surface, on the byte memory of [Surface.v].

    [decodePalette4_pixels] gives every byte the expansion writes, and that it
    writes no other; [palette_data_inside] that it reads inside of the data, where
    it does: the examples at the end are those where it does not. *)

From S2P Require Import Prelude Fixed Names Context PixelFormat Surface.

#[local] Open Scope Z_scope.

Definition GL_PALETTE4_RGB8_OES : Z := 0x8B90.
Definition GL_PALETTE4_RGBA8_OES : Z := 0x8B91.
Definition GL_PALETTE4_R5_G6_B5_OES : Z := 0x8B92.
Definition GL_PALETTE4_RGBA4_OES : Z := 0x8B93.
Definition GL_PALETTE4_RGB5_A1_OES : Z := 0x8B94.
Definition GL_PALETTE8_RGB8_OES : Z := 0x8B95.
Definition GL_PALETTE8_RGBA8_OES : Z := 0x8B96.
Definition GL_PALETTE8_R5_G6_B5_OES : Z := 0x8B97.
Definition GL_PALETTE8_RGBA4_OES : Z := 0x8B98.
Definition GL_PALETTE8_RGB5_A1_OES : Z := 0x8B99.

(** ** The layout of the data *)

Definition index_bits (format : Z) : Z :=
  if existsb (Z.eqb format) [GL_PALETTE4_RGB8_OES; GL_PALETTE4_RGBA8_OES; GL_PALETTE4_R5_G6_B5_OES; GL_PALETTE4_RGBA4_OES; GL_PALETTE4_RGB5_A1_OES]
  then 4 else 8.
Definition entry_size (format : Z) : nat :=
  if (format =? GL_PALETTE4_RGB8_OES) || (format =? GL_PALETTE8_RGB8_OES) then 3
  else if (format =? GL_PALETTE4_RGBA8_OES) || (format =? GL_PALETTE8_RGBA8_OES) then 4
  else if existsb (Z.eqb format) [GL_PALETTE4_R5_G6_B5_OES; GL_PALETTE4_RGBA4_OES; GL_PALETTE4_RGB5_A1_OES;
    GL_PALETTE8_R5_G6_B5_OES; GL_PALETTE8_RGBA4_OES; GL_PALETTE8_RGB5_A1_OES] then 2
  else 0.
Definition palette_size (format : Z) : Z := 2 ^ index_bits format * Z.of_nat (entry_size format).

(** A side of level [i]. *)
Definition level_side (side : Z) (i : nat) : Z := let s := Z.shiftr side (Z.of_nat i) in if s =? 0 then 1 else s.
Definition packed_size (bits w h : Z) : Z := s32 (h * Z.quot (s32 (w * bits)) 8).

Definition dataSizePalette4 (numLevels : nat) (width height format : Z) : Z :=
  fold_left (fun size i =>
    let s := packed_size (index_bits format) (level_side width i) (level_side height i) in
    u64 (size + (if s =? 0 then 1 else s))) (seq 0 numLevels) (palette_size format).

(** ** Expansion *)

Section Decode.
  Variables (data : Z) (entry : nat).

Fixpoint copy_entry (n : nat) (p q : Z) (m : mem) : mem :=
  match n with O => m | S n => copy_entry n (p + 1) (q + 1) (store8 m p (m q)) end.
Definition expand_entry (p index : Z) (m : mem) : mem := copy_entry entry p (data + Z.of_nat entry * index) m.

Fixpoint decode_row8 (w : nat) (pixels p : Z) (m : mem) : mem :=
  match w with
  | O => m
  | S w => decode_row8 w (pixels + 1) (p + Z.of_nat entry) (expand_entry p (m pixels) m)
  end.
Fixpoint decode_row4 (w : nat) (pixels p : Z) (m : mem) : mem :=
  match w with
  | O => m
  | S w =>
      let v := m pixels in
      let m := expand_entry p (Z.shiftr v 4) m in
      match w with
      | O => m
      | S w => decode_row4 w (pixels + 1) (p + 2 * Z.of_nat entry) (expand_entry (p + Z.of_nat entry) (Z.land v 0xF) m)
      end
  end.
Definition decode_row (bits w pixels p : Z) (m : mem) : mem :=
  if bits =? 8 then decode_row8 (Z.to_nat w) pixels p m else decode_row4 (Z.to_nat w) pixels p m.
Definition row_bytes (bits w : Z) : Z := if bits =? 8 then w else (w + 1) / 2.
Fixpoint decode_rows (bits : Z) (h : nat) (w : Z) (y pixels surface stride : Z) (m : mem) : mem :=
  match h with
  | O => m
  | S h =>
      let p := surface + y * stride * Z.of_nat entry in
      let m := decode_row bits w pixels p m in
      decode_rows bits h w (y + 1) (pixels + row_bytes bits w) surface stride m
  end.
End Decode.

(** Where the indices of a level start. *)
Definition level_pixels (format data width height : Z) (level : nat) : Z :=
  fold_left (fun pixels i => pixels + packed_size (index_bits format) (level_side width i) (level_side height i)) (seq 0 level)
    (data + palette_size format).

Definition decodePalette4 (data : Z) (level : nat) (width height surface stride format : Z) (m : mem) : mem :=
  if (entry_size format =? 0)%nat then m
  else decode_rows data (entry_size format) (index_bits format) (Z.to_nat (level_side height level)) (level_side width level) 0
    (level_pixels format data width height level) surface stride m.

(** ** What is written *)

(** The index of pixel [x] of the row whose indices start at [pixels]. *)
Definition row_index (bits : Z) (m : mem) (pixels x : Z) : Z :=
  if bits =? 8 then m (pixels + x)
  else let v := m (pixels + x / 2) in if x mod 2 =? 0 then Z.shiftr v 4 else Z.land v 0xF.

Lemma copy_entry_spec n : forall p q m, is_mem m -> p + Z.of_nat n <= q \/ q + Z.of_nat n <= p ->
  is_mem (copy_entry n p q m) /\
  (forall j, 0 <= j < Z.of_nat n -> copy_entry n p q m (p + j) = m (q + j)) /\
  (forall a, a < p \/ p + Z.of_nat n <= a -> copy_entry n p q m a = m a).
Proof.
  induction n as [|n IH]; intros p q m Hm Hd; cbn [copy_entry].
  { split; [done|]. split; [lia|done]. }
  destruct (IH (p + 1) (q + 1) (store8 m p (m q)) (is_mem_store8 _ _ _ Hm) ltac:(lia)) as (M & J & F). split; [done|]. split.
  - intros j Hj. destruct (Z.eq_dec j 0) as [->|].
    + rewrite F by lia. unfold store8. rewrite Z.add_0_r, Z.eqb_refl, Z.add_0_r. apply u8_id, Hm.
    + replace (p + j) with (p + 1 + (j - 1)) by lia. rewrite J by lia. unfold store8. destruct (Z.eqb_spec (q + 1 + (j - 1)) p); [lia|]. f_equal. lia.
  - intros a Ha. rewrite F by lia. unfold store8. destruct (Z.eqb_spec a p); [lia|done].
Qed.

Section DecodeSpec.
  Context {data : Z} {entry : nat} {bits lo hi from to : Z}.
  (** The palette and the indices are in [lo .. hi - 1], the surface in
      [from .. to - 1]. *)
  Hypothesis (Hbits : bits = 8 \/ bits = 4) (Hapart : hi <= from \/ to <= lo).
  Hypothesis (Hpalette : lo <= data /\ data + 2 ^ bits * Z.of_nat entry <= hi).
#[local] Abbreviation e := (Z.of_nat entry).

Definition source_kept (m m' : mem) : Prop := forall a, lo <= a < hi -> m' a = m a.

Lemma expand_entry_spec p index m : is_mem m -> 0 <= index < 2 ^ bits -> from <= p -> p + e <= to ->
  is_mem (expand_entry data entry p index m) /\ source_kept m (expand_entry data entry p index m) /\
  (forall j, 0 <= j < e -> expand_entry data entry p index m (p + j) = m (data + e * index + j)) /\
  (forall a, a < p \/ p + e <= a -> expand_entry data entry p index m a = m a).
Proof.
  intros Hm Hi Hp Hp'. unfold expand_entry. assert (0 <= e * index /\ e * index + e <= 2 ^ bits * e) by nia.
  destruct (copy_entry_spec entry p (data + e * index) m Hm ltac:(lia)) as (M & J & F).
  split; [done|]. split; [|by split]. intros a Ha. apply F. lia.
Qed.

(** A row of [w] pixels written at [p]. *)
Definition row_written (w pixels p : Z) (m m' : mem) : Prop :=
  is_mem m' /\ source_kept m m' /\
  (forall x j, 0 <= x < w -> 0 <= j < e -> m' (p + x * e + j) = m (data + e * row_index bits m pixels x + j)) /\
  (forall a, a < p \/ p + w * e <= a -> m' a = m a).

Lemma row_index_range m pixels x : is_mem m -> 0 <= row_index bits m pixels x < 2 ^ bits.
Proof.
  intros Hm. unfold row_index. destruct Hbits as [-> | ->]; cbn [Z.eqb Pos.eqb]; [apply Hm|].
  pose proof (Hm (pixels + x / 2)) as Hv. unfold is_u8 in Hv. destruct (x mod 2 =? 0).
  - rewrite shiftr_div by lia. div_lia.
  - change 0xF with (2 ^ 4 - 1). replace (2 ^ 4 - 1) with (Z.ones 4) by reflexivity. rewrite Z.land_ones by lia. apply Z.mod_pos_bound. lia.
Qed.

Lemma row_index_kept m m' pixels w x : source_kept m m' -> lo <= pixels -> pixels + row_bytes bits w <= hi -> 0 <= x < w ->
  row_index bits m' pixels x = row_index bits m pixels x.
Proof.
  intros K Hp Hq Hx. unfold row_index, row_bytes in *. destruct (bits =? 8); [apply K; lia|]. rewrite K; [done|]. div_lia.
Qed.

(** One pixel, then the pixels after it. *)
Lemma row_cons w pixels p v m m1 m' : 0 <= w -> is_mem m -> 0 <= v < 2 ^ bits -> from <= p -> p + e <= to -> m1 = expand_entry data entry p v m ->
  is_mem m' -> source_kept m1 m' -> v = row_index bits m pixels 0 ->
  (forall x j, 1 <= x < w + 1 -> 0 <= j < e -> m' (p + x * e + j) = m1 (data + e * row_index bits m pixels x + j)) ->
  (forall a, a < p + e \/ p + e + w * e <= a -> m' a = m1 a) ->
  row_written (w + 1) pixels p m m'.
Proof.
  intros Hw Hm Hv Hp Hp' -> M K Ev J F. destruct (expand_entry_spec p v m Hm Hv Hp Hp') as (M1 & K1 & J1 & F1).
  split; [done|]. split; [intros a Ha; rewrite K, K1 by done; done|]. split.
  - intros x j Hx Hj. destruct (Z.eq_dec x 0) as [->|].
    + replace (p + 0 * e + j) with (p + j) by ring. rewrite F by lia. rewrite J1, Ev by done. done.
    + rewrite J by lia. apply K1. pose proof (row_index_range m pixels x Hm) as Hr9. clear -Hr9 Hpalette Hj. nia.
  - intros a Ha. rewrite F by nia. apply F1. nia.
Qed.

Lemma decode_row8_spec w : bits = 8 -> forall pixels p m, is_mem m -> lo <= pixels -> pixels + Z.of_nat w <= hi -> from <= p -> p + Z.of_nat w * e <= to ->
  row_written (Z.of_nat w) pixels p m (decode_row8 data entry w pixels p m).
Proof.
  intros Eb. induction w as [|w IH]; intros pixels p m Hm Hl Hh Hp Hp'; cbn [decode_row8].
  { split; [done|]. split; [done|]. split; [lia|done]. }
  pose proof (row_index_range m pixels 0 Hm) as Hr. unfold row_index in Hr. rewrite Eb in Hr. cbn [Z.eqb Pos.eqb] in Hr. rewrite Z.add_0_r in Hr.
  rewrite <-Eb in Hr. destruct (expand_entry_spec p (m pixels) m Hm Hr Hp ltac:(nia)) as (M1 & K1 & _ & _).
  set (m1 := expand_entry data entry p (m pixels) m) in *.
  destruct (IH (pixels + 1) (p + e) m1 M1 ltac:(lia) ltac:(lia) ltac:(lia) ltac:(nia)) as (M & K & J & F).
  rewrite Nat2Z.inj_succ, <-Z.add_1_r. apply (row_cons _ _ _ (m pixels) _ m1); try done; try nia.
  - unfold row_index. rewrite Eb. cbn. by rewrite Z.add_0_r.
  - intros x j Hx Hj. replace (p + x * e + j) with (p + e + (x - 1) * e + j) by ring. rewrite J by lia. do 4 f_equal.
    unfold row_index. rewrite Eb. cbn [Z.eqb Pos.eqb]. rewrite K1 by lia. f_equal. lia.
Qed.

Lemma decode_row4_spec w : bits = 4 -> forall pixels p m, is_mem m -> lo <= pixels -> pixels + (Z.of_nat w + 1) / 2 <= hi -> from <= p -> p + Z.of_nat w * e <= to ->
  row_written (Z.of_nat w) pixels p m (decode_row4 data entry w pixels p m).
Proof.
  intros Eb. induction w as [[|[|w]] IH] using lt_wf_ind; intros pixels p m Hm Hl Hh Hp Hp'; cbn [decode_row4]; cbv zeta.
  { split; [done|]. split; [done|]. split; [lia|done]. }
  all: pose proof (row_index_range m pixels 0 Hm) as Hr; pose proof (row_index_range m pixels 1 Hm) as Hr1;
    assert (row_index bits m pixels 0 = Z.shiftr (m pixels) 4) as E0 by (unfold row_index; rewrite Eb; cbn; by rewrite Z.add_0_r);
    assert (row_index bits m pixels 1 = Z.land (m pixels) 0xF) as E1 by (unfold row_index; rewrite Eb; cbn; by rewrite Z.add_0_r);
    rewrite E0 in Hr; rewrite E1 in Hr1; destruct (expand_entry_spec p _ m Hm Hr Hp ltac:(nia)) as (M1 & K1 & J1 & F1);
    set (m1 := expand_entry data entry p (Z.shiftr (m pixels) 4) m) in *.
  - apply (row_cons 0 _ _ (Z.shiftr (m pixels) 4) _ m1); try done; try nia.
  - destruct (expand_entry_spec (p + e) _ m1 M1 Hr1 ltac:(lia) ltac:(nia)) as (M2 & K2 & J2 & F2).
    set (m2 := expand_entry data entry (p + e) (Z.land (m pixels) 0xF) m1) in *.
    replace ((Z.of_nat (S (S w)) + 1) / 2) with ((Z.of_nat w + 1) / 2 + 1) in Hh by div_lia.
    pose proof (Z.div_pos (Z.of_nat w + 1) 2 ltac:(lia) ltac:(lia)).
    destruct (IH w ltac:(lia) (pixels + 1) (p + 2 * e) m2 M2 ltac:(lia) ltac:(lia) ltac:(lia) ltac:(nia)) as (M & K & J & F).
    replace (Z.of_nat (S (S w))) with (Z.of_nat (S w) + 1) by lia. apply (row_cons _ _ _ (Z.shiftr (m pixels) 4) _ m1); try done; try nia.
    + intros a Ha. rewrite K, K2 by done. done.
    + intros x j Hx Hj. destruct (Z.eq_dec x 1) as [->|].
      * replace (p + 1 * e + j) with (p + e + j) by ring. rewrite F by lia. rewrite J2, E1 by done. done.
      * replace (p + x * e + j) with (p + 2 * e + (x - 2) * e + j) by ring. rewrite J by lia.
        assert (row_index bits m2 (pixels + 1) (x - 2) = row_index bits m pixels x) as ->.
        { unfold row_index. rewrite Eb. cbn [Z.eqb Pos.eqb]. replace ((x - 2) mod 2) with (x mod 2) by div_lia.
          rewrite K2, K1 by (split; div_lia). by replace (pixels + 1 + (x - 2) / 2) with (pixels + x / 2) by div_lia. }
        apply K2. pose proof (row_index_range m pixels x Hm) as Hr9. clear -Hr9 Hpalette Hj. nia.
    + intros a Ha. rewrite F by nia. apply F2. nia.
Qed.

Context {surface stride w : Z}.
Hypothesis (Hw : 0 <= w <= stride) (Hfrom : from = surface).
#[local] Abbreviation row_at y := (surface + y * stride * e).

Lemma decode_row_spec pixels p m : is_mem m -> lo <= pixels -> pixels + row_bytes bits w <= hi -> from <= p -> p + w * e <= to ->
  row_written w pixels p m (decode_row data entry bits w pixels p m).
Proof.
  intros Hm Hl Hh Hp Hp'. unfold row_bytes, decode_row in *. replace w with (Z.of_nat (Z.to_nat w)) at 1 by lia.
  destruct (Z.eqb_spec bits 8); [apply decode_row8_spec|apply decode_row4_spec]; rewrite ?Z2Nat.id by lia; try done. lia.
Qed.

(** [h] rows from row [y] on. *)
Definition rows_written (h y pixels : Z) (m m' : mem) : Prop :=
  is_mem m' /\ source_kept m m' /\
  (forall k x j, 0 <= k < h -> 0 <= x < w -> 0 <= j < e ->
    m' (row_at (y + k) + x * e + j) = m (data + e * row_index bits m (pixels + k * row_bytes bits w) x + j)) /\
  (forall a, (forall k, 0 <= k < h -> a < row_at (y + k) \/ row_at (y + k) + w * e <= a) -> m' a = m a).

Lemma decode_rows_spec h : forall y pixels m, is_mem m -> 0 <= y -> lo <= pixels -> pixels + Z.of_nat h * row_bytes bits w <= hi ->
  row_at (y + Z.of_nat h) <= to ->
  rows_written (Z.of_nat h) y pixels m (decode_rows data entry bits h w y pixels surface stride m).
Proof.
  induction h as [|h IH]; intros y pixels m Hm Hy Hl Hh Ht; cbn [decode_rows]; cbv zeta.
  { split; [done|]. split; [done|]. split; [lia|]. intros a _. done. }
  assert (0 <= row_bytes bits w) as Hb by (unfold row_bytes; destruct (bits =? 8); [lia|div_lia]).
  assert (0 <= stride * e) as Hs by nia. assert (w * e <= stride * e) as Hs' by nia. rewrite Nat2Z.inj_succ in *.
  destruct (decode_row_spec pixels (row_at y) m Hm Hl ltac:(nia) ltac:(nia) ltac:(nia)) as (M1 & K1 & J1 & F1). set (m1 := decode_row data entry bits w pixels (row_at y) m) in *.
  destruct (IH (y + 1) (pixels + row_bytes bits w) m1 M1 ltac:(lia) ltac:(lia) ltac:(nia) ltac:(nia)) as (M & K & J & F).
  split; [exact M|]. split; [intros a Ha; rewrite K, K1 by done; done|]. split.
  - intros k x j Hk Hx Hj. destruct (Z.eq_dec k 0) as [->|].
    + replace (y + 0) with y by lia. rewrite F; [replace (pixels + 0 * row_bytes bits w) with pixels by lia; by apply J1|].
      intros k Hk'. left. replace ((y + 1 + k) * stride * e) with (y * stride * e + (1 + k) * (stride * e)) by ring.
      assert (stride * e <= (1 + k) * (stride * e)) by nia. assert (x * e + j < w * e) by nia. lia.
    + replace (y + k) with (y + 1 + (k - 1)) by lia. rewrite J by lia.
      replace (pixels + row_bytes bits w + (k - 1) * row_bytes bits w) with (pixels + k * row_bytes bits w) by ring.
      assert (0 <= k * row_bytes bits w /\ k * row_bytes bits w + row_bytes bits w <= Z.succ (Z.of_nat h) * row_bytes bits w) as [Hk1 Hk2] by nia.
      rewrite (row_index_kept m m1 _ w) by (done || lia). apply K1.
      pose proof (row_index_range m (pixels + k * row_bytes bits w) x Hm) as Hr. clear -Hr Hpalette Hj. nia.
  - intros a Ha. rewrite F; [apply F1|].
    + specialize (Ha 0 ltac:(lia)). by replace (y + 0) with y in Ha by lia.
    + intros k Hk. specialize (Ha (1 + k) ltac:(lia)). by replace (y + (1 + k)) with (y + 1 + k) in Ha by lia.
Qed.
End DecodeSpec.

(** ** The sizes of the levels *)

Lemma level_side_range side i : 1 <= side -> 1 <= level_side side i <= side.
Proof.
  intros Hs. unfold level_side. rewrite shiftr_div by lia. pose proof (Z.div_pos side (2 ^ Z.of_nat i) ltac:(lia) ltac:(lia)).
  pose proof (Z.div_le_upper_bound side (2 ^ Z.of_nat i) side ltac:(lia) ltac:(nia)). destruct (Z.eqb_spec (side / 2 ^ Z.of_nat i) 0); lia.
Qed.

(** Textures whose size in bits is an [int]. *)
Definition size_ok (width height : Z) : Prop := 1 <= width /\ 1 <= height /\ width * height * 8 < 2 ^ 31.

Lemma index_bits_cases format : index_bits format = 8 \/ index_bits format = 4.
Proof. unfold index_bits. destruct (existsb _ _); tauto. Qed.

Lemma packed_size_eq format width height i : size_ok width height ->
  packed_size (index_bits format) (level_side width i) (level_side height i) = level_side height i * (level_side width i * index_bits format / 8) /\
  0 <= level_side height i * (level_side width i * index_bits format / 8) < 2 ^ 31.
Proof.
  intros (Hw & Hh & Hs). pose proof (level_side_range width i Hw). pose proof (level_side_range height i Hh). unfold packed_size.
  set (w := level_side width i) in *. set (h := level_side height i) in *.
  assert (w * h <= width * height) by nia. assert (w * 1 <= w * h) by nia.
  assert (0 <= w * index_bits format <= w * 8) by (destruct (index_bits_cases format) as [-> | ->]; lia).
  assert (0 <= w * index_bits format / 8 <= w) by div_lia.
  assert (0 <= h * (w * index_bits format / 8) <= h * w) by nia.
  rewrite (s32_id (w * index_bits format)) by (unfold is_s32; lia). rewrite Z.quot_div_nonneg, s32_id by (unfold is_s32; lia). split; [done|lia].
Qed.


(** Where level [i] starts, and where what is counted for it ends. *)
Lemma level_pixels_S format data width height i :
  level_pixels format data width height (S i) =
  level_pixels format data width height i + packed_size (index_bits format) (level_side width i) (level_side height i).
Proof. unfold level_pixels. by rewrite seq_S, fold_left_app. Qed.
Lemma dataSizePalette4_S n width height format :
  dataSizePalette4 (S n) width height format =
  u64 (dataSizePalette4 n width height format +
    (let s := packed_size (index_bits format) (level_side width n) (level_side height n) in if s =? 0 then 1 else s)).
Proof. unfold dataSizePalette4. by rewrite seq_S, fold_left_app. Qed.

Lemma palette_size_range format : 0 <= palette_size format <= 1024.
Proof.
  unfold palette_size, entry_size. destruct (index_bits_cases format) as [-> | ->]; repeat case_match; cbn; lia.
Qed.

Lemma data_size_step format width height n : size_ok width height -> Z.of_nat n < 65536 ->
  0 <= dataSizePalette4 n width height format <= 1024 + Z.of_nat n * 2 ^ 31 /\
  dataSizePalette4 (S n) width height format = dataSizePalette4 n width height format +
    Z.max 1 (packed_size (index_bits format) (level_side width n) (level_side height n)).
Proof.
  intros Hs. assert (forall i, (let s := packed_size (index_bits format) (level_side width i) (level_side height i) in if s =? 0 then 1 else s) =
    Z.max 1 (packed_size (index_bits format) (level_side width i) (level_side height i)) /\
    packed_size (index_bits format) (level_side width i) (level_side height i) < 2 ^ 31) as HM.
  { intros i. destruct (packed_size_eq format width height i Hs) as [-> ?]. cbv zeta. split; [|lia]. by destruct (Z.eqb_spec (level_side height i * (level_side width i * index_bits format / 8)) 0); lia. }
  induction n as [|n IH]; intros Hn.
  - split; [unfold dataSizePalette4; cbn [seq fold_left]; pose proof (palette_size_range format); lia|].
    rewrite dataSizePalette4_S. destruct (HM 0%nat) as [-> ?]. unfold dataSizePalette4. cbn [seq fold_left].
    pose proof (palette_size_range format). unfold u64. apply Z.mod_small. lia.
  - destruct (IH ltac:(lia)) as [R E]. destruct (HM n) as [_ ?]. split; [rewrite E; lia|].
    rewrite dataSizePalette4_S. destruct (HM (S n)) as [-> ?]. rewrite E. unfold u64. apply Z.mod_small. lia.
Qed.

(** Levels whose rows fill their bytes. *)
Definition level_packed (format w h : Z) : Prop := index_bits format = 8 \/ w mod 2 = 0 \/ w = 1 /\ h = 1.

(** The indices a level is expanded from lie inside of the data whose size is
    checked, when the level is one of those counted and its indices have eight
    bits, its width is even or it is a single pixel. *)
Theorem palette_data_inside format data width height numLevels level :
  let w := level_side width level in let h := level_side height level in
  size_ok width height -> (level < numLevels)%nat -> Z.of_nat numLevels < 65536 -> level_packed format w h ->
  data + palette_size format <= level_pixels format data width height level /\
  level_pixels format data width height level + h * row_bytes (index_bits format) w <=
    data + dataSizePalette4 numLevels width height format.
Proof.
  intros w h Hs Hl Hn Hp.
  assert (forall n, Z.of_nat n < 65536 -> data + palette_size format <= level_pixels format data width height n <= data + dataSizePalette4 n width height format) as HL.
  { induction n as [|n IH]; intros Hlt; [unfold level_pixels, dataSizePalette4; cbn [seq fold_left]; lia|].
    rewrite level_pixels_S. destruct (data_size_step format width height n Hs ltac:(lia)) as [_ ->].
    destruct (packed_size_eq format width height n Hs) as [-> ?]. specialize (IH ltac:(lia)). lia. }
  destruct (HL level ltac:(lia)) as [H1 H2]. split; [done|].
  assert (dataSizePalette4 (S level) width height format <= dataSizePalette4 numLevels width height format) as HM.
  { replace numLevels with (numLevels - S level + S level)%nat by lia. assert (Z.of_nat (numLevels - S level + S level) < 65536) as Hlt by lia. revert Hlt.
    generalize (numLevels - S level)%nat as k. induction k as [|k IH]; intros Hlt; [cbn [Nat.add]; lia|].
    destruct (data_size_step format width height (k + S level) Hs ltac:(lia)) as [_ E].
    change (S k + S level)%nat with (S (k + S level)). rewrite E. specialize (IH ltac:(lia)). lia. }
  destruct (data_size_step format width height level Hs ltac:(lia)) as [_ E].
  destruct (packed_size_eq format width height level Hs) as [EP _]. fold w h in EP, E. rewrite EP in E.
  assert (h * row_bytes (index_bits format) w <= Z.max 1 (h * (w * index_bits format / 8))); [|lia].
  destruct Hs as (Hw & Hh & _). pose proof (level_side_range width level Hw) as Rw. pose proof (level_side_range height level Hh) as Rh.
  fold w in Rw. fold h in Rh. unfold row_bytes. destruct Hp as [E8|[Ew|[-> ->]]].
  - rewrite E8. cbn [Z.eqb Pos.eqb]. rewrite Z.div_mul by lia. lia.
  - destruct (index_bits_cases format) as [-> | ->]; cbn [Z.eqb Pos.eqb]; [rewrite Z.div_mul by lia; lia|].
    replace ((w + 1) / 2) with (w * 4 / 8) by div_lia. lia.
  - destruct (index_bits_cases format) as [-> | ->]; vm_compute; discriminate.
Qed.

(** ** Concrete data *)

(** A palette of 16 colors of 16 bits at 0, the indices of 4 by 2 pixels at 32; every
    byte is its address. *)
Definition address_mem : mem := fun a => a mod 256.
Lemma address_mem_ok : is_mem address_mem.
Proof. intros a. unfold is_u8, address_mem. apply Z.mod_pos_bound. lia. Qed.


Lemma palette_data_inside_witness :
  level_pixels GL_PALETTE4_RGB8_OES 0 8 8 2 + 2 * row_bytes 4 2 <= 0 + dataSizePalette4 4 8 8 GL_PALETTE4_RGB8_OES.
Proof.
  apply (palette_data_inside GL_PALETTE4_RGB8_OES 0 8 8 4 2).
  - unfold size_ok. lia.
  - lia.
  - lia.
  - right. left. reflexivity.
Defined.

(** ** Faults *)

(** The size is computed from the format the pixels are expanded to, not from that
    of the data: there is no palette in it, 16 bytes are enough for data of 784. *)
Example palette_not_counted : dataSizePalette4 1 4 4 0x1907 = 16 /\ dataSizePalette4 1 4 4 GL_PALETTE8_RGB8_OES = 784.
Proof. split; vm_compute; reflexivity. Qed.

(** Rows of odd width are read as whole bytes but counted without the half byte. *)
Example odd_row_not_counted : dataSizePalette4 1 3 3 GL_PALETTE4_RGBA4_OES = 32 + 3 /\ palette_size GL_PALETTE4_RGBA4_OES + 3 * row_bytes 4 3 = 32 + 6.
Proof. split; vm_compute; reflexivity. Qed.

(** A level of less than a byte is counted as a byte but not skipped: the last two
    levels of 2 by 1 start at the same byte. *)
Example single_pixel_not_skipped :
  map (level_pixels GL_PALETTE4_RGBA4_OES 0 2 1) [0; 1; 2]%nat = [32; 33; 33] /\ dataSizePalette4 2 2 1 GL_PALETTE4_RGBA4_OES = 34.
Proof. split; vm_compute; reflexivity. Qed.
