(* ===== verification/Float.v ===== *)
(** * Single-precision floats

    Models swrender/fp.cpp and the bit manipulations of fp.h.  A float is its
    32-bit pattern; the arithmetic of the C type is that of [SpecFloat] with 24
    bits of precision.  [fixedToFloat_value] shows that the conversion built from
    shifts gives the float nearest to zero of the fixed-point number. *)

From Stdlib Require Import SpecFloat.
From S2P Require Import Prelude Fixed.

(** ** The value of a pattern *)

Definition SF_of_bits (b : Z) : spec_float :=
  let s := Z.testbit b 31 in
  let e := Z.land (Z.shiftr b 23) 0xFF in
  let m := Z.land b 0x7FFFFF in
  if e =? 255 then if m =? 0 then S754_infinity s else S754_nan
  else if e =? 0 then if m =? 0 then S754_zero s else S754_finite s (Z.to_pos m) (-149)
  else S754_finite s (Z.to_pos (m + 2 ^ 23)) (e - 150).

Definition float_mul : spec_float -> spec_float -> spec_float := SFmul 24 128.
Definition float_add : spec_float -> spec_float -> spec_float := SFadd 24 128.

(** [floorf]; [None] for what is not a number. *)
Definition float_floor (f : spec_float) : option Z :=
  match f with
  | S754_zero _ => Some 0
  | S754_finite s m e =>
      let n := if s then Z.neg m else Z.pos m in
      Some (if 0 <=? e then n * 2 ^ e else n / 2 ^ (- e))
  | _ => None
  end.

(** The conversion to [int]; out of range it is undefined in C, and the lowest
    number on the target. *)
Definition int_of_floor (z : option Z) : Z :=
  match z with
  | Some n => if (- 2 ^ 31 <=? n) && (n <? 2 ^ 31) then n else - 2 ^ 31
  | None => - 2 ^ 31
  end.

(** [gglFloatToFixed] on a value. *)
Definition float_to_fixed (f : spec_float) : Z :=
  int_of_floor (float_floor (float_add (float_mul f (SF_of_bits 0x47800000)) (SF_of_bits 0x3F000000))).
Definition gglFloatToFixed (v : Z) : Z := float_to_fixed (SF_of_bits v).

Definition fixedToFloat (x : Z) : Z :=
  if x =? 0 then 0
  else
    let s := Z.land (u32 x) 0x80000000 in
    let i := u32 (if s =? 0 then x else - x) in
    let c := gglClz i - 8 in
    let i := if 0 <=? c then u32 (Z.shiftl i c) else Z.shiftr i (- c) in
    let e := 134 - c in
    let i := Z.land i (u32 (Z.lnot 0x800000)) in
    let i := Z.lor i (u32 (Z.shiftl e 23)) in
    Z.lor i s.

(** ** Bit manipulations *)

Definition isZerof (v : Z) : bool := u32 (Z.shiftl v 1) =? 0.
Definition cmpf (a b : Z) : bool := a =? b.
Definition isOnef (v : Z) : bool := cmpf v 0x3F800000.
(** [isZerof(v) | (i>>31)], as a condition. *)
Definition isZeroOrNegativef (v : Z) : bool := isZerof v || Z.testbit v 31.
Definition exponent (v : Z) : Z := s32 (Z.shiftr (u32 (Z.shiftl v 1)) 24 - 127).
Definition mantissa (v : Z) : Z :=
  if Z.land v 0x7F800000 =? 0 then 0
  else
    let i := Z.land (Z.lor v (2 ^ 23)) 0x00FFFFFF in
    if Z.testbit v 31 then s32 (- i) else i.
Definition clampToZerof (v : Z) : Z := Z.land v (u32 (Z.lnot (Z.shiftr (s32 v) 31))).
Definition addExpf (v e : Z) : Z :=
  if isZerof v then v else u32 (v + Z.shiftl e 23).
Definition mul2f (v : Z) : Z := addExpf v 1.
Definition div2f (v : Z) : Z := addExpf v (-1).
Definition absf (v : Z) : Z := Z.land v 0x7FFFFFFF.

(** ** Approximations

    Constants the compiler computes in double precision are rounded as it does. *)

Definition double_of_Z (z : Z) : spec_float := binary_normalize 53 1024 z 0 false.
Definition float_of_double (f : spec_float) : spec_float :=
  match f with
  | S754_finite s m e => binary_normalize 24 128 (if s then Z.neg m else Z.pos m) e s
  | _ => f
  end.
Definition float_sub : spec_float -> spec_float -> spec_float := SFsub 24 128.
Definition M_PI : spec_float := S754_finite false 0x1921FB54442D18 (-51).
Definition M_LN2 : spec_float := S754_finite false 0x162E42FEFA39EF (-53).

Definition float_ceil (f : spec_float) : spec_float :=
  match f with
  | S754_finite s m e =>
      if 0 <=? e then f
      else binary_normalize 24 128 (- ((if s then Z.pos m else Z.neg m) / 2 ^ (- e))) 0 s
  | _ => f
  end.

(** [int32_t(f)]: toward zero. *)
Definition int_of_float (f : spec_float) : Z :=
  match f with
  | S754_finite s m e =>
      let n := if 0 <=? e then Z.pos m * 2 ^ e else Z.pos m / 2 ^ (- e) in
      int_of_floor (Some (if s then - n else n))
  | S754_zero _ => 0
  | _ => int_of_floor None
  end.

Definition sinef (x : spec_float) : spec_float :=
  let A := float_of_double (SFdiv 53 1024 (double_of_Z 1) (SFmul 53 1024 (double_of_Z 2) M_PI)) in
  let B := SF_of_bits 0xC1800000 in
  let C := SF_of_bits 0x41000000 in
  let x := float_mul x A in
  let x := if SFleb (SF_of_bits 0x3F000000) (SFabs x) then
             float_add (float_sub x (float_ceil (float_add x (SF_of_bits 0x3F000000)))) (SF_of_bits 0x3F800000)
           else x in
  let y := float_add (float_mul (float_mul B x) (SFabs x)) (float_mul C x) in
  float_add (float_mul (SF_of_bits 0x3E62D0E5) (float_sub (float_mul y (SFabs y)) y)) y.
Definition cosinef (x : spec_float) : spec_float :=
  sinef (float_add x (float_of_double (SFdiv 53 1024 M_PI (double_of_Z 2)))).

(** The bits of the result; above 88 they are only set for one compiler, else
    [undefined]. *)
Definition fastexpf (undefined : Z) (y : spec_float) : Z :=
  if SFltb y (SF_of_bits 0xC2B00000) then 0
  else if SFltb (SF_of_bits 0x42B00000) y then undefined
  else
    let kOneOverLogTwo := float_of_double (SFdiv 53 1024 (double_of_Z (2 ^ 23)) M_LN2) in
    u32 (int_of_float (float_mul y kOneOverLogTwo) + 127 * 2 ^ 23).

(** ** Arithmetic on patterns

    What the pattern of a NaN is the standard leaves open; nothing more is
    assumed than that the operations agree on one. *)

Class Nans := { nan_bits : Z }.

Section Patterns.
  Context {NAN : Nans}.

Definition sign_bit (s : bool) : Z := if s then 0x80000000 else 0.
Definition bits_of_SF (f : spec_float) : Z :=
  match f with
  | S754_zero s => sign_bit s
  | S754_infinity s => sign_bit s + 0x7F800000
  | S754_nan => nan_bits
  | S754_finite s m e =>
      if Z.pos m <? 2 ^ 23 then sign_bit s + Z.pos m
      else sign_bit s + (e + 150) * 2 ^ 23 + (Z.pos m - 2 ^ 23)
  end.

Definition fadd (a b : Z) : Z := bits_of_SF (float_add (SF_of_bits a) (SF_of_bits b)).
Definition fsub (a b : Z) : Z := bits_of_SF (float_sub (SF_of_bits a) (SF_of_bits b)).
Definition fmul (a b : Z) : Z := bits_of_SF (float_mul (SF_of_bits a) (SF_of_bits b)).
Definition fdiv (a b : Z) : Z := bits_of_SF (SFdiv 24 128 (SF_of_bits a) (SF_of_bits b)).
Definition fneg (a : Z) : Z := Z.lxor a 0x80000000.
Definition sqrtf (a : Z) : Z := bits_of_SF (SFsqrt 24 128 (SF_of_bits a)).
Definition flt (a b : Z) : bool := SFltb (SF_of_bits a) (SF_of_bits b).
Definition fle (a b : Z) : bool := SFleb (SF_of_bits a) (SF_of_bits b).
Definition feq (a b : Z) : bool := SFeqb (SF_of_bits a) (SF_of_bits b).
(** [float(i)]. *)
Definition int_to_float (i : Z) : Z := bits_of_SF (binary_normalize 24 128 i 0 false).
Definition f_0 : Z := 0.
Definition f_1 : Z := 0x3F800000.

Definition reciprocalf (v : Z) : Z := fdiv f_1 v.
Definition sincosf (angle : Z) : Z * Z :=
  (bits_of_SF (sinef (SF_of_bits angle)), bits_of_SF (cosinef (SF_of_bits angle))).

(** The replacements of internal.h. *)
Definition isnan (v : Z) : bool := negb (feq v v).
Definition isinf (v : Z) : bool := false.

(** Expressions with a [double] among their operands, assigned to a float. *)
Definition mul_double (a t : Z) : Z :=
  bits_of_SF (float_of_double (SFmul 53 1024 (SF_of_bits a) (SF_of_bits t))).
Definition msub_double (a b t : Z) : Z :=
  bits_of_SF (float_of_double (SFsub 53 1024 (SF_of_bits a) (SFmul 53 1024 (SF_of_bits b) (SF_of_bits t)))).

Example pattern_arithmetic :
  fadd f_1 f_1 = 0x40000000 /\ fdiv f_1 0x40000000 = 0x3F000000 /\ fsub f_1 f_1 = f_0 /\ fdiv f_1 f_0 = 0x7F800000 /\
  fmul 0x00000001 0x3F000000 = 0 /\ fmul 0x00000003 0x3F000000 = 2 /\ int_to_float (- 3) = 0xC0400000 /\
  sqrtf 0x40800000 = 0x40000000 /\ fsub f_0 0x7F800000 = 0xFF800000 /\ msub_double f_1 0x40000000 0x3F000000 = 0.
Proof. repeat split; reflexivity. Qed.
End Patterns.

Example float_one : gglFloatToFixed 0x3F800000 = 0x10000 /\ fixedToFloat 0x10000 = 0x3F800000.
Proof. split; reflexivity. Qed.

(** 0, a whole turn, a right angle and half a turn. *)
Example float_cosine :
  map (fun x => float_to_fixed (cosinef (SF_of_bits x))) [0; 0x40C90FDB; 0x3FC90FDB; 0x40490FDB] =
  [65536; 65536; 0; -65536].
Proof. reflexivity. Qed.

(** [exp(0)], [exp(-1)] (0.389 for 0.368), [exp(-89)]. *)
Example float_exp :
  map (fun y => gglFloatToFixed (fastexpf 0 (SF_of_bits y))) [0; 0xBF800000; 0xC2B20000] = [65536; 25515; 0].
Proof. reflexivity. Qed.

(** ** Conversion from fixed point *)

Lemma float_fields s e m : 0 <= e < 256 -> 0 <= m < 2 ^ 23 -> 0 <= s < 2 ->
  let b := Z.lor (Z.lor m (Z.shiftl e 23)) (s * 2 ^ 31) in
  Z.testbit b 31 = (s =? 1) /\ Z.land (Z.shiftr b 23) 0xFF = e /\ Z.land b 0x7FFFFF = m.
Proof.
  intros He Hm Hs b.
  assert (b = s * 2 ^ 31 + (e * 2 ^ 23 + m)) as ->.
  { unfold b. rewrite Z.lor_comm, (Z.lor_comm m), Z.shiftl_mul_pow2 by lia.
    by rewrite (lor_add_small e m 23), lor_add_small by lia. }
  change 0xFF with (Z.shiftl 1 8 - 1). change 0x7FFFFF with (Z.shiftl 1 23 - 1).
  rewrite !land_pow2_pred, shiftr_div by lia. split_and!; [|div_lia..].
  rewrite Z.testbit_eqb by lia. assert (s = 0 \/ s = 1) as [-> | ->] by lia; apply Z.eqb_eq || apply Z.eqb_neq; div_lia.
Qed.

(** [fixedToFloat x] is [x / 65536] rounded toward zero to 24 bits: its
    mantissa has its top bit set, and it is exact when [|x| < 2^24]. *)
Theorem fixedToFloat_value x : is_s32 x -> x <> 0 ->
  exists m e, SF_of_bits (fixedToFloat x) = S754_finite (x <? 0) (Z.to_pos m) (e - 16) /\
    2 ^ 23 <= m < 2 ^ 24 /\ -23 <= e <= 8 /\
    (if e <=? 0 then m = Z.abs x * 2 ^ (- e) else m = Z.abs x / 2 ^ e).
Proof.
  intros Hx H0. unfold is_s32 in Hx.
  assert (Z.land (u32 x) 0x80000000 = (if x <? 0 then 1 else 0) * 2 ^ 31) as Es.
  { change 0x80000000 with (1 * 2 ^ 31). destruct (Z.ltb_spec x 0).
    - replace (u32 x) with (1 * 2 ^ 31 + (x + 2 ^ 31)) by wrap_lia.
      rewrite <-lor_add_small, Z.land_lor_distr_l, (Z.land_comm (x + 2 ^ 31)), (land_mul_pow2_small 1 (x + 2 ^ 31)) by lia. done.
    - rewrite u32_id by (unfold is_u32; lia). by rewrite Z.land_comm, land_mul_pow2_small by lia. }
  unfold fixedToFloat. destruct (Z.eqb_spec x 0); [done|]. rewrite Es.
  set (s := if x <? 0 then 1 else 0). assert (s = 0 /\ 0 < x \/ s = 1 /\ x < 0) as Hs.
  { unfold s. destruct (Z.ltb_spec x 0); lia. }
  assert (u32 (if s * 2 ^ 31 =? 0 then x else - x) = Z.abs x) as ->.
  { destruct Hs as [[-> ?]|[-> ?]].
    - change (0 * 2 ^ 31 =? 0) with true. cbv iota. rewrite u32_id by (unfold is_u32; lia). lia.
    - change (1 * 2 ^ 31 =? 0) with false. cbv iota. rewrite u32_id by (unfold is_u32; lia). lia. }
  assert (exists lg, gglClz (Z.abs x) = 31 - lg /\ 0 <= lg <= 31 /\ 2 ^ lg <= Z.abs x < 2 ^ (lg + 1)) as (lg & -> & Hl & Hx2).
  { destruct (Z.eq_dec (Z.abs x) (2 ^ 31)) as [->|]; [by exists 31|].
    exists (Z.log2 (Z.abs x)). rewrite gglClz_pos by lia. split; [done|].
    split; [split; [apply Z.log2_nonneg|assert (Z.log2 (Z.abs x) < 31) by (apply Z.log2_lt_pow2; lia); lia]|].
    apply Z.log2_spec. lia. }
  set (i := if 0 <=? 31 - lg - 8 then _ else _).
  assert (i = (if 0 <=? 23 - lg then Z.abs x * 2 ^ (23 - lg) else Z.abs x / 2 ^ (lg - 23)) /\ 2 ^ 23 <= i < 2 ^ 24) as [Ei Hi].
  { unfold i. replace (31 - lg - 8) with (23 - lg) by lia. destruct (Z.leb_spec 0 (23 - lg)).
    - rewrite Z.shiftl_mul_pow2 by lia.
      assert (2 ^ 23 = 2 ^ lg * 2 ^ (23 - lg)) by (rewrite <-Z.pow_add_r by lia; f_equal; lia).
      assert (2 ^ 24 = 2 ^ (lg + 1) * 2 ^ (23 - lg)) by (rewrite <-Z.pow_add_r by lia; f_equal; lia).
      assert (0 < 2 ^ (23 - lg)) by (apply Z.pow_pos_nonneg; lia).
      assert (2 ^ 23 <= Z.abs x * 2 ^ (23 - lg) < 2 ^ 24) by nia.
      by rewrite u32_id by (unfold is_u32; lia).
    - rewrite shiftr_div by lia. replace (- (23 - lg)) with (lg - 23) by lia. split; [done|].
      assert (2 ^ lg = 2 ^ (lg - 23) * 2 ^ 23) by (rewrite <-Z.pow_add_r by lia; f_equal; lia).
      assert (2 ^ (lg + 1) = 2 ^ (lg - 23) * 2 ^ 24) by (rewrite <-Z.pow_add_r by lia; f_equal; lia).
      assert (0 < 2 ^ (lg - 23)) by (apply Z.pow_pos_nonneg; lia).
      split; [apply Z.div_le_lower_bound|apply Z.div_lt_upper_bound]; lia. }
  assert (Z.land i (u32 (Z.lnot 0x800000)) = i - 2 ^ 23) as ->.
  { replace i with (1 * 2 ^ 23 + (i - 2 ^ 23)) at 1 by lia. rewrite <-lor_add_small, Z.land_lor_distr_l by lia.
    change (Z.land (1 * 2 ^ 23) (u32 (Z.lnot 0x800000))) with 0. rewrite Z.lor_0_l.
    apply Z.bits_inj'. intros k Hk. rewrite Z.land_spec. destruct (Z.lt_ge_cases k 23).
    - replace (Z.testbit (u32 (Z.lnot 0x800000)) k) with true; [by rewrite andb_true_r|].
      symmetry. assert (0 <= k < 23) as Hb by lia. clear - Hb. by split_range Hb.
    - by rewrite (testbit_small (i - 2 ^ 23) 23) by lia. }
  assert (u32 (Z.shiftl (134 - (31 - lg - 8)) 23) = Z.shiftl (111 + lg) 23) as ->.
  { rewrite u32_id; [f_equal; lia|]. rewrite Z.shiftl_mul_pow2 by lia. unfold is_u32. lia. }
  destruct (float_fields s (111 + lg) (i - 2 ^ 23)) as (F1 & F2 & F3); [lia..|].
  exists i, (lg - 23). unfold SF_of_bits. rewrite F1, F2, F3.
  destruct (Z.eqb_spec (111 + lg) 255); [lia|]. destruct (Z.eqb_spec (111 + lg) 0); [lia|].
  split; [|split; [done|split; [lia|]]].
  - f_equal; [|f_equal; lia|lia]. unfold s. by destruct (x <? 0).
  - rewrite Ei. destruct (Z.leb_spec 0 (23 - lg)), (Z.leb_spec (lg - 23) 0); lia || (try done; do 2 f_equal; lia).
Qed.
