(* ===== verification/Vertex.v ===== *)
(** * Vertices and their projection

    Models the vertices of include/gl_context.h, the matrix products of
    swrender/matrix.h and matrix.cpp, and swrender/vertex.cpp: the clip flags,
    the user clip planes and the perspective divide.  Matrices are the 16
    fixed-point numbers of [matrixx_t]; how they are computed from floats is
    not modelled.  For [|w| < 0.5], [gglRecip28] shifts by a count C leaves
    undefined; what the processor makes of it is a field of the projection. *)

From S2P Require Import Prelude Fixed Names Context.

(** ** Vectors and vertices *)

Record vec4_t := mk_vec4 { vx : Z; vy : Z; vz : Z; vw : Z }.
#[export] Instance eta_vec4 : Eta vec4_t := fun r => mk_vec4 (vx r) (vy r) (vz r) (vw r).
#[export] Instance vec4_eq_dec : EqDecision vec4_t.
Proof. solve_decision. Defined.

Definition vec4_map2 (f : Z -> Z -> Z) (a b : vec4_t) : vec4_t :=
  mk_vec4 (f (vx a) (vx b)) (f (vy a) (vy b)) (f (vz a) (vz b)) (f (vw a) (vw b)).

(** Coordinate [i] of [v[4]]. *)
Definition vec4_at (i : Z) (a : vec4_t) : Z :=
  if i =? 0 then vx a else if i =? 1 then vy a else if i =? 2 then vz a else vw a.

Definition zero_vec4 : vec4_t := mk_vec4 0 0 0 0.

Definition CLIP_L : Z := 0x0001.
Definition CLIP_R : Z := 0x0002.
Definition CLIP_B : Z := 0x0004.
Definition CLIP_T : Z := 0x0008.
Definition CLIP_N : Z := 0x0010.
Definition CLIP_F : Z := 0x0020.
Definition EYE : Z := 0x0040.
Definition LIT : Z := 0x4000.
Definition TT : Z := 0x8000.
Definition FRUSTUM_CLIP_ALL : Z := 0x003F.
Definition USER_CLIP_ALL : Z := 0x3F00.
Definition CLIP_ALL : Z := 0x3F3F.

(** [v_obj] is the union of [obj] and [eye]; [mru] is not used by the indexed
    cache. *)
Record vertex_t := mk_vertex {
  v_obj : vec4_t; v_clip : vec4_t; v_flags : Z; v_index : Z; v_fog : Z; v_locked : Z;
  v_window : vec4_t; v_color : vec4_t; v_texture : list vec4_t }.
#[export] Instance eta_vertex : Eta vertex_t := fun r =>
  mk_vertex (v_obj r) (v_clip r) (v_flags r) (v_index r) (v_fog r) (v_locked r)
    (v_window r) (v_color r) (v_texture r).
Definition v_eye (v : vertex_t) : vec4_t := v_obj v.
Definition zero_vertex : vertex_t :=
  mk_vertex zero_vec4 zero_vec4 0 0 0 0 zero_vec4 zero_vec4 [zero_vec4; zero_vec4].

Definition vertex_clear (v : vertex_t) : vertex_t :=
  v <| v_flags := 0 |> <| v_index := 0 |> <| v_locked := 0 |>.

Definition clip_flags (v : vertex_t) : Z := Z.land (v_flags v) CLIP_ALL.

(** ** Products *)

Definition vsquare3 (a b c : Z) : Z := s32 (Z.shiftr (s64 (a * a + b * b + c * c + 0x8000)) 16).
Definition mla2a (a0 b0 a1 b1 c : Z) : Z := s32 (Z.shiftr (s64 (a0 * b0 + a1 * b1)) 16 + c).
Definition mla3a (a0 b0 a1 b1 a2 b2 c : Z) : Z :=
  s32 (Z.shiftr (s64 (a0 * b0 + a1 * b1 + a2 * b2)) 16 + c).
Definition mla3 (a0 b0 a1 b1 a2 b2 : Z) : Z :=
  s32 (Z.shiftr (s64 (a0 * b0 + a1 * b1 + a2 * b2 + 0x8000)) 16).
Definition mla4 (a0 b0 a1 b1 a2 b2 a3 b3 : Z) : Z :=
  s32 (Z.shiftr (s64 (a0 * b0 + a1 * b1 + a2 * b2 + a3 * b3 + 0x8000)) 16).
Definition dot4 (a b : vec4_t) : Z := mla4 (vx a) (vx b) (vy a) (vy b) (vz a) (vz b) (vw a) (vw b).
Definition dot3 (a b : vec4_t) : Z := mla3 (vx a) (vx b) (vy a) (vy b) (vz a) (vz b).

(** ** Transformations *)

Definition elt (m : list Z) (i : nat) : Z := nth i m 0.

Definition point2__generic (m : list Z) (p : vec4_t) : vec4_t :=
  let row i := mla2a (vx p) (elt m i) (vy p) (elt m (4 + i)) (elt m (12 + i)) in
  mk_vec4 (row 0%nat) (row 1%nat) (row 2%nat) (row 3%nat).
Definition point3__generic (m : list Z) (p : vec4_t) : vec4_t :=
  let row i := mla3a (vx p) (elt m i) (vy p) (elt m (4 + i)) (vz p) (elt m (8 + i)) (elt m (12 + i)) in
  mk_vec4 (row 0%nat) (row 1%nat) (row 2%nat) (row 3%nat).
Definition mla4_row (m : list Z) (p : vec4_t) (i : nat) : Z :=
  mla4 (vx p) (elt m i) (vy p) (elt m (4 + i)) (vz p) (elt m (8 + i)) (vw p) (elt m (12 + i)).
Definition point4__generic (m : list Z) (p : vec4_t) : vec4_t :=
  mk_vec4 (mla4_row m p 0) (mla4_row m p 1) (mla4_row m p 2) (mla4_row m p 3).
Definition point3__mvui (m : list Z) (p : vec4_t) : vec4_t :=
  let row i := mla3 (vx p) (elt m i) (vy p) (elt m (4 + i)) (vz p) (elt m (8 + i)) in
  mk_vec4 (row 0%nat) (row 1%nat) (row 2%nat) 0.
Definition point4__mvui (m : list Z) (p : vec4_t) : vec4_t :=
  mk_vec4 (mla4_row m p 0) (mla4_row m p 1) (mla4_row m p 2) (vw p).
Definition point2__nop (p : vec4_t) : vec4_t := mk_vec4 (vx p) (vy p) 0 0x10000.
Definition point3__nop (p : vec4_t) : vec4_t := mk_vec4 (vx p) (vy p) (vz p) 0x10000.
Definition point4__nop (p : vec4_t) : vec4_t := p.

Inductive point_fn :=
  | use_point2__nop | use_point3__nop | use_point4__nop
  | use_point2__generic | use_point3__generic | use_point4__generic
  | use_point3__mvui | use_point4__mvui.

Definition run_point (f : point_fn) (m : list Z) (p : vec4_t) : vec4_t :=
  match f with
  | use_point2__nop => point2__nop p | use_point3__nop => point3__nop p | use_point4__nop => point4__nop p
  | use_point2__generic => point2__generic m p | use_point3__generic => point3__generic m p
  | use_point4__generic => point4__generic m p
  | use_point3__mvui => point3__mvui m p | use_point4__mvui => point4__mvui m p
  end.

Definition OP_IDENTITY : Z := 0.
Definition OP_ALL : Z := 0x1F.
Definition FLAGS_2D_PROJECTION : Z := 1.

Record transform_t := mk_transform {
  tr_m : list Z; tr_flags : Z; tr_ops : Z;
  tr_point2 : point_fn; tr_point3 : point_fn; tr_point4 : point_fn }.
#[export] Instance eta_transform : Eta transform_t := fun r =>
  mk_transform (tr_m r) (tr_flags r) (tr_ops r) (tr_point2 r) (tr_point3 r) (tr_point4 r).

(** [pointv[size - 2]]. *)
Definition tr_pointv (t : transform_t) (size : Z) : point_fn :=
  if size =? 2 then tr_point2 t else if size =? 3 then tr_point3 t else tr_point4 t.

Definition gIdentityx : list Z :=
  [0x10000; 0; 0; 0; 0; 0x10000; 0; 0; 0; 0; 0x10000; 0; 0; 0; 0; 0x10000].

Definition transform_loadIdentity : transform_t :=
  mk_transform gIdentityx 0 OP_IDENTITY use_point2__nop use_point3__nop use_point4__nop.

Definition notZero (v : Z) : Z := Z.land (s32 (Z.abs v)) (Z.lnot 3).
Definition notOne (v : Z) : Z := notZero (s32 (v - 0x10000)).

Definition transform_picker (t : transform_t) : transform_t :=
  let m := tr_m t in
  let not2D := Z.lor (Z.lor (Z.lor (notZero (elt m 3)) (notZero (elt m 7))) (notZero (elt m 11)))
                 (notOne (elt m 15)) in
  mk_transform m (if not2D =? 0 then FLAGS_2D_PROJECTION else 0) OP_ALL
    use_point2__generic use_point3__generic use_point4__generic.

Definition mvui_picker (t : transform_t) : transform_t :=
  mk_transform (tr_m t) 0 OP_ALL (tr_point2 t) use_point3__mvui use_point4__mvui.

(** ** What the projection of a vertex reads of the context *)

Inductive perspective_fn :=
  | use_perspective2D | use_perspective3D | use_perspective3DZ
  | use_clipAllPerspective3D | use_clipAllPerspective3DZ.

Record projection_t := mk_projection {
  pj_viewport : list Z;                     (* transforms.vpt.transform.matrix.m *)
  pj_modelview : list Z; pj_mv_transform : point_fn;
  pj_mvp : list Z; pj_mvp_transform : point_fn;
  pj_planes : list vec4_t; pj_planes_enable : Z;
  pj_perspective : perspective_fn;
  pj_undefined_shift : Z -> Z }.

Definition plane_equation (pj : projection_t) (i : Z) : vec4_t := nth (Z.to_nat i) (pj_planes pj) zero_vec4.

(** ** The perspective divide *)

(** [z] says whether [enables & GGL_ENABLE_DEPTH_TEST]. *)
Definition perspective (pj : projection_t) (z : bool) (v : vertex_t) : vertex_t :=
  let rw := default (pj_undefined_shift pj (vw (v_clip v))) (gglRecip28 (vw (v_clip v))) in
  let m := pj_viewport pj in
  let window c i j := gglMulAddx_shift (gglMulx c rw) (elt m i) (elt m j) 28 in
  let v := v <| v_window ::= fun w =>
    w <| vw := rw |> <| vx := TRI_FROM_FIXED (window (vx (v_clip v)) 0%nat 12%nat) |>
      <| vy := TRI_FROM_FIXED (window (vy (v_clip v)) 5%nat 13%nat) |> |> in
  if z then v <| v_window ; vz := window (vz (v_clip v)) 10%nat 14%nat |> else v.

Definition outcode (p : vec4_t) : Z :=
  let w := vw p in
  let clip := 0 in
  let clip := if vx p <? s32 (- w) then Z.lor clip CLIP_L else clip in
  let clip := if w <? vx p then Z.lor clip CLIP_R else clip in
  let clip := if vy p <? s32 (- w) then Z.lor clip CLIP_B else clip in
  let clip := if w <? vy p then Z.lor clip CLIP_T else clip in
  let clip := if vz p <? s32 (- w) then Z.lor clip CLIP_N else clip in
  if w <? vz p then Z.lor clip CLIP_F else clip.

(** [cull] is [c->arrays.cull], also in the results. *)
Definition clipFrustumPerspective (pj : projection_t) (z : bool) (v : vertex_t) (cull : Z) : vertex_t * Z :=
  let clip := Z.lor (clip_flags v) (outcode (v_clip v)) in
  let v := v <| v_flags ::= set_bits clip |> in
  let cull := Z.land cull clip in
  (if clip =? 0 then perspective pj z v else v, cull).

(** The loop over the enabled planes, from the highest on. *)
Fixpoint user_outcode (fuel : nat) (pj : projection_t) (eye : vec4_t) (planes clip : Z) : Z :=
  match fuel with
  | O => clip
  | S fuel =>
      if planes =? 0 then clip
      else
        let i := 31 - gglClz planes in
        let d := dot4 (plane_equation pj i) eye in
        user_outcode fuel pj eye (clear_bits (Z.shiftl 1 i) planes)
          (if d <? 0 then Z.lor clip (Z.shiftl 0x100 i) else clip)
  end.

Definition clipAllPerspective (pj : projection_t) (z : bool) (v : vertex_t) (cull : Z) : vertex_t * Z :=
  let v := v <| v_obj ::= run_point (pj_mv_transform pj) (pj_modelview pj) |>
             <| v_flags ::= set_bits EYE |> in
  let clip := user_outcode 32 pj (v_eye v) (pj_planes_enable pj) 0 in
  clipFrustumPerspective pj z (v <| v_flags ::= set_bits clip |>) cull.

Definition ogles_vertex_project (pj : projection_t) (enables : Z) (v : vertex_t) : vertex_t :=
  perspective pj (has enables GGL_ENABLE_DEPTH_TEST) v.

Definition ogles_vertex_perspective2D (v : vertex_t) : vertex_t * Z :=
  (v <| v_window := mk_vec4 (TRI_FROM_FIXED (vx (v_clip v))) (TRI_FROM_FIXED (vy (v_clip v)))
                      (vz (v_clip v)) (s32 (Z.shiftl (vw (v_clip v)) 12)) |>, 0).

(** The call [c->arrays.perspective(c, v)]. *)
Definition run_perspective (pj : projection_t) (v : vertex_t) (cull : Z) : vertex_t * Z :=
  match pj_perspective pj with
  | use_perspective2D => ogles_vertex_perspective2D v
  | use_perspective3D => clipFrustumPerspective pj false v cull
  | use_perspective3DZ => clipFrustumPerspective pj true v cull
  | use_clipAllPerspective3D => clipAllPerspective pj false v cull
  | use_clipAllPerspective3DZ => clipAllPerspective pj true v cull
  end.

(** What [validate_perspective] picks; [size] is the size of the vertex array,
    [flags] those of [mvp4]. *)
Definition pick_perspective (enables planes_enable size flags : Z) : perspective_fn :=
  let p := if planes_enable =? 0 then use_perspective3D else use_clipAllPerspective3D in
  let p := if has enables (GGL_ENABLE_DEPTH_TEST + GGL_ENABLE_FOG) then
             if negb (planes_enable =? 0) || has enables GGL_ENABLE_FOG
             then use_clipAllPerspective3DZ else use_perspective3DZ
           else p in
  if negb (size =? 4) && has flags FLAGS_2D_PROJECTION then use_perspective2D else p.
