(* ===== verification/Clipping.v ===== *)
(** * Clipping of lines and triangles

    Models the clippers of swrender/primitives.cpp ([clip_triangle],
    [clip_line], [cull_triangle]) and the vertex interpolation of
    swrender/array.cpp they call through [c->arrays.clipVertex] and
    [c->arrays.clipEye].  The clipper's fixed arrays are modelled by their
    capacity: a result is [None] where the code would write past the end of
    one.  [clip_triangle_in_bounds] shows that it never does;
    [clip_triangle_inside] that the polygon it leaves is inside the view volume
    up to the rounding; [clipEye_wrong_end] and [clip_line_moves_vertex] are
    faults of the code. *)

From S2P Require Import Prelude Fixed Names Context Vertex.

(** ** Interpolation *)

Definition clipVec4 (t : Z) (s p : vec4_t) : vec4_t :=
  vec4_map2 (fun s p => gglMulAddx_shift t (s32 (s - p)) p 28) s p.

Inductive clip_fn := use_clipVertex | use_clipVertexC | use_clipVertexT | use_clipVertexAll.

(** What the clippers read of the context. *)
Record clipper_t := mk_clipper {
  cp_projection : projection_t; cp_enables : Z; cp_units : list bool; cp_clipVertex : clip_fn }.

Definition clipVertex (c : clipper_t) (nv : vertex_t) (t : Z) (s p : vertex_t) : vertex_t :=
  let nv := nv <| v_clip := clipVec4 t (v_clip s) (v_clip p) |>
              <| v_fog := gglMulAddx_shift t (s32 (v_fog s - v_fog p)) (v_fog p) 28 |> in
  let nv := ogles_vertex_project (cp_projection c) (cp_enables c) nv in
  nv <| v_flags ::= fun f => clear_bits CLIP_ALL (set_bits (LIT + EYE + TT) f) |>.

Definition clip_colors (nv : vertex_t) (t : Z) (s p : vertex_t) : vertex_t :=
  nv <| v_color := clipVec4 t (v_color s) (v_color p) |>.
Definition clip_textures (c : clipper_t) (nv : vertex_t) (t : Z) (s p : vertex_t) : vertex_t :=
  nv <| v_texture ::= fun old =>
    zip_with (fun '(on, o) '(s, p) => if (on : bool) then clipVec4 t s p else o)
      (zip (cp_units c) old) (zip (v_texture s) (v_texture p)) |>.

Definition clipVertexC (c : clipper_t) (nv : vertex_t) (t : Z) (s p : vertex_t) : vertex_t :=
  clipVertex c (clip_colors nv t s p) t s p.
Definition clipVertexT (c : clipper_t) (nv : vertex_t) (t : Z) (s p : vertex_t) : vertex_t :=
  clipVertex c (clip_textures c nv t s p) t s p.
Definition clipVertexAll (c : clipper_t) (nv : vertex_t) (t : Z) (s p : vertex_t) : vertex_t :=
  clipVertexT c (clip_colors nv t s p) t s p.

(** The call [c->arrays.clipVertex]. *)
Definition run_clipVertex (c : clipper_t) : vertex_t -> Z -> vertex_t -> vertex_t -> vertex_t :=
  match cp_clipVertex c with
  | use_clipVertex => clipVertex c | use_clipVertexC => clipVertexC c
  | use_clipVertexT => clipVertexT c | use_clipVertexAll => clipVertexAll c
  end.

(** What [validate_arrays] picks. *)
Definition pick_clipVertex (enables : Z) : clip_fn :=
  match has enables GGL_ENABLE_SMOOTH, has enables GGL_ENABLE_TMUS with
  | false, false => use_clipVertex | true, false => use_clipVertexC
  | false, true => use_clipVertexT | true, true => use_clipVertexAll
  end.

(** [p] and [s] are swapped in the call. *)
Definition clipEye (c : clipper_t) (nv : vertex_t) (t : Z) (s p : vertex_t) : vertex_t :=
  let nv := vertex_clear nv in
  let nv := run_clipVertex c nv t p s in
  nv <| v_obj := clipVec4 t (v_eye s) (v_eye p) |>.

(** ** Distances *)

Definition frustumPlaneDist (plane : Z) (s : vec4_t) : Z :=
  let d := vec4_at (Z.shiftr plane 1) s in
  if Z.testbit plane 0 then s32 (vw s - d) else s32 (vw s + d).

(** The result is a 4.28 number; [gglMulDivi] returns for this first operand. *)
Definition clipDivide (a b : Z) : Z := default 0 (gglMulDivi (2 ^ 28) a b).

(** ** One plane *)

Definition MAX_CLIPPING_PLANES : nat := 12.
Definition MAX_VERTICES : nat := 3.
Definition BUFFER_SIZE : nat := MAX_CLIPPING_PLANES * 2 + 1.
Definition OUT_SIZE : nat := MAX_CLIPPING_PLANES + MAX_VERTICES + 2.

#[global] Arguments BUFFER_SIZE : simpl never.
#[global] Arguments OUT_SIZE : simpl never.

(** The output list, [sentinel], and the vertices of [buffer] in use. *)
Record clip_state := mk_clip { cs_out : list vertex_t; cs_sentinel : nat; cs_buf : nat }.
#[export] Instance eta_clip : Eta clip_state := fun r =>
  mk_clip (cs_out r) (cs_sentinel r) (cs_buf r).

(** A step of the clipper overflows an array, gives the triangle up, or goes
    on. *)
Inductive clip_result (A : Type) := Overflow | Dropped | Going (x : A).
#[global] Arguments Overflow {A}.
#[global] Arguments Dropped {A}.
#[global] Arguments Going {A} x.

Definition clip_bind {A B} (m : clip_result A) (k : A -> clip_result B) : clip_result B :=
  match m with Overflow => Overflow | Dropped => Dropped | Going x => k x end.

(** [*output++ = p; oc++]. *)
Definition emit (p : vertex_t) (st : clip_state) : clip_result clip_state :=
  if (length (cs_out st) <? OUT_SIZE)%nat then Going (st <| cs_out ::= fun o => o ++ [p] |>) else Overflow.

(** The same with a new vertex of [buffer]. *)
Definition emit_new (nv : vertex_t) (st : clip_state) : clip_result clip_state :=
  if (cs_buf st <? BUFFER_SIZE)%nat then
    clip_bind (emit nv (st <| cs_buf ::= S |>)) (fun st =>
      let st := st <| cs_sentinel ::= S |> in
      if (3 <=? cs_sentinel st)%nat then Dropped else Going st)
  else Overflow.

Section Plane.
  (** What [buffer] held before, the distance to the plane, and how the vertex
      at [t] between two others is made. *)
  Variable buffer : nat -> vertex_t.
  Variable dist : vertex_t -> Z.
  Variable cut : vertex_t -> Z -> vertex_t -> vertex_t -> vertex_t.

(** The body of the loop over the edges. *)
Definition clip_edge (s : vertex_t) (sd : Z) (p : vertex_t) (pd : Z) (st : clip_state)
    : clip_result clip_state :=
  let buf := buffer (cs_buf st) in
  if 0 <=? sd then
    if 0 <=? pd then emit p st
    else emit_new (cut buf (clipDivide sd (s32 (sd - pd))) p s) st
  else
    if 0 <=? pd then
      if pd =? 0 then emit p st
      else clip_bind (emit_new (cut buf (clipDivide pd (s32 (pd - sd))) s p) st) (emit p)
    else Going st.

Fixpoint clip_edges (s : vertex_t) (sd : Z) (ivl : list vertex_t) (st : clip_state)
    : clip_result clip_state :=
  match ivl with
  | [] => Going st
  | p :: ivl =>
      let pd := dist p in
      clip_bind (clip_edge s sd p pd st) (clip_edges p pd ivl)
  end.

(** A plane: the polygon and the vertices of [buffer] in use. *)
Definition clip_plane (ivl : list vertex_t) (buf : nat) : clip_result (list vertex_t * nat) :=
  let s := List.last ivl zero_vertex in
  clip_bind (clip_edges s (dist s) ivl (mk_clip [] 0 buf)) (fun st =>
    if (length (cs_out st) <? 3)%nat then Dropped else Going (cs_out st, cs_buf st)).
End Plane.

(** ** All planes *)

(** [do { if (cc & 1) ...; cc >>= 1; plane++; } while (cc)]. *)
Fixpoint clip_planes (one : Z -> list vertex_t -> nat -> clip_result (list vertex_t * nat))
    (fuel : nat) (plane cc : Z) (ivl : list vertex_t) (buf : nat) : clip_result (list vertex_t * nat) :=
  match fuel with
  | O => Going (ivl, buf)
  | S fuel =>
      clip_bind (if Z.testbit cc 0 then one plane ivl buf else Going (ivl, buf)) (fun '(ivl, buf) =>
        let cc := Z.shiftr cc 1 in
        if cc =? 0 then Going (ivl, buf) else clip_planes one fuel (plane + 1) cc ivl buf)
  end.

Definition user_distance (c : clipper_t) (plane : Z) (v : vertex_t) : Z :=
  dot4 (plane_equation (cp_projection c) plane) (v_eye v).

Definition clip_user_plane (c : clipper_t) (buffer : nat -> vertex_t) (plane : Z) :=
  clip_plane buffer (user_distance c plane) (clipEye c).
Definition clip_frustum_plane (c : clipper_t) (buffer : nat -> vertex_t) (plane : Z) :=
  clip_plane buffer (fun v => frustumPlaneDist plane (v_clip v)) (run_clipVertex c).

(** The polygon [clip_triangle] is left with. *)
Definition clip_polygon (c : clipper_t) (buffer : nat -> vertex_t) (v0 v1 v2 : vertex_t)
    : clip_result (list vertex_t) :=
  let all_cc := Z.land (Z.lor (Z.lor (v_flags v0) (v_flags v1)) (v_flags v2)) CLIP_ALL in
  let user_cc := Z.shiftr (Z.land all_cc USER_CLIP_ALL) 8 in
  let cc := Z.land all_cc FRUSTUM_CLIP_ALL in
  clip_bind
    (clip_bind
       (if user_cc =? 0 then Going ([v0; v1; v2], O)
        else clip_planes (clip_user_plane c buffer) 6 0 user_cc [v0; v1; v2] O)
       (fun '(ivl, buf) =>
          if cc =? 0 then Going (ivl, buf)
          else clip_planes (clip_frustum_plane c buffer) 6 0 cc ivl buf))
    (fun '(ivl, _) => Going ivl).

(** ** Culling and drawing *)

Definition GL_FRONT : Z := 0x0404.
Definition GL_BACK : Z := 0x0405.
Definition GL_CW : Z := 0x0900.
Definition GL_CCW : Z := 0x0901.

Record culling_t := mk_culling { cu_cullFace : Z; cu_frontFace : Z; cu_enable : Z }.

(** [m_area] of [compute_iterators_t::initTriangle]. *)
Definition triangle_area (v0 v1 v2 : vertex_t) : Z :=
  let dx01 := s32 (vx (v_window v1) - vx (v_window v0)) in
  let dy10 := s32 (vy (v_window v0) - vy (v_window v1)) in
  let dx20 := s32 (vx (v_window v0) - vx (v_window v2)) in
  let dy02 := s32 (vy (v_window v2) - vy (v_window v0)) in
  s32 (s32 (dx01 * dy02) + s32 (s32 (- dy10) * dx20)).

Definition cull_triangle (cu : culling_t) (v0 v1 v2 : vertex_t) : bool :=
  if cu_enable cu =? 0 then false
  else
    let winding := if 0 <? triangle_area v0 v1 v2 then GL_CW else GL_CCW in
    let face := if winding =? cu_frontFace cu then GL_FRONT else GL_BACK in
    face =? cu_cullFace cu.

(** The final loop: the triangles handed to [triangle]. *)
Fixpoint polygon_fan (cu : culling_t) (p0 p1 : vertex_t) (ivl : list vertex_t)
    : list (vertex_t * vertex_t * vertex_t) :=
  match ivl with
  | [] => []
  | p2 :: ivl =>
      (if cull_triangle cu p0 p1 p2 then [] else [(p0, p1, p2)]) ++ polygon_fan cu p0 p2 ivl
  end.

Definition clip_triangle (c : clipper_t) (cu : culling_t) (buffer : nat -> vertex_t)
    (v0 v1 v2 : vertex_t) : clip_result (list (vertex_t * vertex_t * vertex_t)) :=
  clip_bind (clip_polygon c buffer v0 v1 v2) (fun ivl =>
    match ivl with
    | p0 :: p1 :: ivl => Going (polygon_fan cu p0 p1 ivl)
    | _ => Overflow
    end).

(** ** Lines *)

(** One plane; the two vertices are changed in place.  The result says whether
    anything is left, which is not so after [return 0]. *)
Definition clip_line_plane (dist : vertex_t -> Z)
    (cut : vertex_t -> Z -> vertex_t -> vertex_t -> vertex_t) (s p : vertex_t)
    : bool * (vertex_t * vertex_t) :=
  let sd := dist s in
  let pd := dist p in
  if 0 <=? sd then
    if 0 <=? pd then (true, (s, p))
    else (true, (s, cut p (clipDivide sd (s32 (sd - pd))) p s))
  else
    if 0 <=? pd then
      if pd =? 0 then (true, (s, p)) else (true, (cut s (clipDivide pd (s32 (pd - sd))) s p, p))
    else (false, (s, p)).

Fixpoint clip_line_planes (one : Z -> vertex_t -> vertex_t -> bool * (vertex_t * vertex_t))
    (fuel : nat) (plane cc : Z) (s p : vertex_t) : bool * (vertex_t * vertex_t) :=
  match fuel with
  | O => (true, (s, p))
  | S fuel =>
      let '(left_, (s, p)) := if Z.testbit cc 0 then one plane s p else (true, (s, p)) in
      if left_ then
        let cc := Z.shiftr cc 1 in
        if cc =? 0 then (true, (s, p)) else clip_line_planes one fuel (plane + 1) cc s p
      else (false, (s, p))
  end.

Definition clip_line (c : clipper_t) (s p : vertex_t) : bool * (vertex_t * vertex_t) :=
  let all_cc := Z.land (Z.lor (v_flags s) (v_flags p)) CLIP_ALL in
  let user_cc := Z.shiftr (Z.land all_cc USER_CLIP_ALL) 8 in
  let cc := Z.land all_cc FRUSTUM_CLIP_ALL in
  let '(left_, (s, p)) :=
    if user_cc =? 0 then (true, (s, p))
    else clip_line_planes (fun i => clip_line_plane (user_distance c i) (clipEye c)) 6 0 user_cc s p in
  if negb left_ || (cc =? 0) then (left_, (s, p))
  else clip_line_planes (fun i => clip_line_plane (fun v => frustumPlaneDist i (v_clip v)) (run_clipVertex c))
         6 0 cc s p.

(** ** The arrays of the clipper *)

#[local] Arguments Nat.ltb : simpl never.
#[local] Arguments Nat.leb : simpl never.

Section PlaneSpec.
  Variable buffer : nat -> vertex_t.
  Variable dist : vertex_t -> Z.
  Variable cut : vertex_t -> Z -> vertex_t -> vertex_t -> vertex_t.
  Variable given : vertex_t -> Prop.       (* the vertices of the polygon *)

(** A vertex the clipper keeps, or one it makes on an edge that crosses. *)
Definition clipped (v : vertex_t) : Prop :=
  (given v /\ 0 <= dist v) \/
  exists i o buf, given i /\ given o /\ 0 <= dist i /\ dist o < 0 /\
    v = cut (buffer buf) (clipDivide (dist i) (s32 (dist i - dist o))) o i.

(** After [n] edges, [a] of which left the inside and [b] of which came back and
    made a vertex; [inside] is the side of the last vertex. *)
Definition clip_inv (buf0 n : nat) (inside : bool) (st : clip_state) : Prop :=
  Forall clipped (cs_out st) /\
  exists a b, cs_sentinel st = (a + b)%nat /\ (a + b <= 2)%nat /\ cs_buf st = (buf0 + a + b)%nat /\
    (length (cs_out st) <= n + b)%nat /\ (b <= a + (if inside then 1 else 0))%nat.

Definition clip_ok {A} (P : A -> Prop) (r : clip_result A) : Prop :=
  match r with Overflow => False | Dropped => True | Going x => P x end.

Lemma clip_ok_bind {A B} (P : A -> Prop) (Q : B -> Prop) m k :
  clip_ok P m -> (forall x, P x -> clip_ok Q (k x)) -> clip_ok Q (clip_bind m k).
Proof. destruct m; cbn; auto. Qed.

Lemma emit_ok p st (P : clip_state -> Prop) :
  (length (cs_out st) < OUT_SIZE)%nat -> P (st <| cs_out ::= fun o => o ++ [p] |>) -> clip_ok P (emit p st).
Proof. intros H HP. unfold emit. by destruct (Nat.ltb_spec (length (cs_out st)) OUT_SIZE); [|lia]. Qed.

Lemma emit_new_ok nv st (P : clip_state -> Prop) :
  (length (cs_out st) < OUT_SIZE)%nat -> (cs_buf st < BUFFER_SIZE)%nat ->
  (S (cs_sentinel st) < 3 -> P (mk_clip (cs_out st ++ [nv]) (S (cs_sentinel st)) (S (cs_buf st))))%nat ->
  clip_ok P (emit_new nv st).
Proof.
  intros HO HB HP. destruct st as [o n b]. unfold emit_new, emit. cbn in *.
  apply Nat.ltb_lt in HO as ->, HB as ->. cbn. by destruct (Nat.leb_spec 3 (S n)); [|apply HP].
Qed.

Lemma clip_edge_ok buf0 n s p st :
  (n + 2 < OUT_SIZE)%nat -> (buf0 + 2 < BUFFER_SIZE)%nat -> given s -> given p ->
  clip_inv buf0 n (0 <=? dist s) st ->
  clip_ok (clip_inv buf0 (S n) (0 <=? dist p)) (clip_edge buffer cut s (dist s) p (dist p) st).
Proof.
  intros Hn Hb Gs Gp (F & a & b & Es & Hab & Eb & Ho & Hba). unfold clip_edge.
  destruct (Z.leb_spec 0 (dist s)) as [Is|Os], (Z.leb_spec 0 (dist p)) as [Ip|Op].
  - apply emit_ok; [lia|]. split; cbn.
    + apply Forall_app. split; [done|]. constructor; [by left|constructor].
    + exists a, b. rewrite length_app. cbn. lia.
  - apply emit_new_ok; [lia..|]. intros H3. split; cbn.
    + apply Forall_app. split; [done|]. constructor; [|constructor]. right. by exists s, p, (cs_buf st).
    + exists (S a), b. rewrite length_app. cbn. lia.
  - destruct (Z.eqb_spec (dist p) 0).
    + apply emit_ok; [lia|]. split; cbn.
      * apply Forall_app. split; [done|]. constructor; [by left|constructor].
      * exists a, b. rewrite length_app. cbn. lia.
    + eapply clip_ok_bind; [|intros x H; exact H]. 
      apply emit_new_ok; [lia..|]. intros H3. apply emit_ok; cbn; [rewrite length_app; cbn; lia|]. split; cbn.
      * rewrite !Forall_app. split; [split; [done|]|]; (constructor; [|constructor]); [|by left].
        right. by exists p, s, (cs_buf st).
      * exists a, (S b). rewrite !length_app. cbn. lia.
  - split; [done|]. exists a, b. lia.
Qed.

Lemma clip_edges_ok buf0 ivl : forall n s st,
  (n + length ivl + 1 < OUT_SIZE)%nat -> (buf0 + 2 < BUFFER_SIZE)%nat -> given s -> Forall given ivl ->
  clip_inv buf0 n (0 <=? dist s) st ->
  clip_ok (fun st => exists inside, clip_inv buf0 (n + length ivl) inside st)
    (clip_edges buffer dist cut s (dist s) ivl st).
Proof.
  induction ivl as [|p ivl IH]; intros n s st Hn Hb Gs G H; cbn [clip_edges length] in *.
  - exists (0 <=? dist s). by rewrite Nat.add_0_r.
  - inversion_clear G as [|? ? Gp Gl]. eapply clip_ok_bind; [apply (clip_edge_ok buf0 n); done || lia|].
    intros st' H'. rewrite <-Nat.add_succ_comm. apply IH; done || lia.
Qed.

Lemma last_given ivl : ivl <> [] -> Forall given ivl -> given (List.last ivl zero_vertex).
Proof.
  intros Hne H. destruct (exists_last Hne) as (l & x & ->). rewrite last_last.
  apply Forall_app in H as [_ H]. by inversion H.
Qed.

(** One plane adds one vertex to the polygon at most, and two to the buffer. *)
Lemma clip_plane_ok ivl buf :
  ivl <> [] -> Forall given ivl -> (length ivl + 1 < OUT_SIZE)%nat -> (buf + 2 < BUFFER_SIZE)%nat ->
  clip_ok (fun r => Forall clipped (fst r) /\ (3 <= length (fst r) <= length ivl + 1)%nat /\ (snd r <= buf + 2)%nat)
    (clip_plane buffer dist cut ivl buf).
Proof.
  intros Hne G Hl Hb. unfold clip_plane. eapply clip_ok_bind.
  - apply (clip_edges_ok buf ivl 0); [lia|done|by apply last_given|done|].
    split; [constructor|]. exists 0%nat, 0%nat. cbn. lia.
  - intros st (inside & F & a & b & Es & Hab & Eb & Ho & Hba).
    destruct (Nat.ltb_spec (length (cs_out st)) 3); cbn; [done|]. split; [done|]. destruct inside; lia.
Qed.
End PlaneSpec.

Lemma clip_ok_weaken {A} (P Q : A -> Prop) r : (forall x, P x -> Q x) -> clip_ok P r -> clip_ok Q r.
Proof. destruct r; cbn; auto. Qed.

(** The polygon and the buffer after [k] planes. *)
Definition sizes_ok (k : nat) (r : list vertex_t * nat) : Prop :=
  (3 <= length (fst r) <= k + 3)%nat /\ (snd r <= 2 * k)%nat.

(** Planes one after the other: [I i] holds of the polygon when the planes below
    [i] are done. *)
Section Planes.
  Variable one : Z -> list vertex_t -> nat -> clip_result (list vertex_t * nat).
  Variable I : Z -> list vertex_t -> Prop.
  Variable cc : Z.
  Hypothesis one_ok : forall i k ivl buf, 0 <= i -> Z.testbit cc i = true -> I i ivl ->
    sizes_ok k (ivl, buf) -> (k < 12)%nat ->
    clip_ok (fun r => I (i + 1) (fst r) /\ sizes_ok (S k) r) (one i ivl buf).
  Hypothesis skip_ok : forall i ivl, 0 <= i -> Z.testbit cc i = false -> I i ivl -> I (i + 1) ivl.

Lemma sizes_ok_le k k' r : (k <= k')%nat -> sizes_ok k r -> sizes_ok k' r.
Proof. unfold sizes_ok. lia. Qed.

Lemma skip_all (n : nat) : forall i ivl, 0 <= i -> Z.shiftr cc i = 0 -> I i ivl -> I (i + Z.of_nat n) ivl.
Proof.
  induction n as [|n IH]; intros i ivl Hi H HI; [by rewrite Z.add_0_r|].
  replace (i + Z.of_nat (S n)) with (i + 1 + Z.of_nat n) by lia. apply IH; [lia| |].
  - by rewrite <-Z.shiftr_shiftr, H, Z.shiftr_0_l by lia.
  - apply skip_ok; [done| |done]. by rewrite <-(Z.add_0_l i), <-Z.shiftr_spec, H, Z.testbit_0_l by lia.
Qed.

Lemma clip_planes_ok (fuel : nat) : forall i k ivl buf, 0 <= i -> I i ivl -> sizes_ok k (ivl, buf) ->
  (k + fuel <= 12)%nat ->
  clip_ok (fun r => I (i + Z.of_nat fuel) (fst r) /\ sizes_ok (k + fuel) r)
    (clip_planes one fuel i (Z.shiftr cc i) ivl buf).
Proof.
  induction fuel as [|fuel IH]; intros i k ivl buf Hi HI Hs Hk; cbn [clip_planes].
  { by rewrite Z.add_0_r, Nat.add_0_r. }
  rewrite Z.shiftr_spec, Z.add_0_l by lia.
  apply (clip_ok_bind (fun r => I (i + 1) (fst r) /\ sizes_ok (S k) r)).
  - destruct (Z.testbit cc i) eqn:E; [apply one_ok; done || lia|].
    split; [by apply skip_ok|]. by apply (sizes_ok_le k); [lia|].
  - intros [ivl' buf'] [HI' Hs']. cbn [fst] in HI'. rewrite Z.shiftr_shiftr by lia.
    replace (i + Z.of_nat (S fuel)) with (i + 1 + Z.of_nat fuel) by lia.
    destruct (Z.eqb_spec (Z.shiftr cc (i + 1)) 0) as [E|_].
    + split; [by apply skip_all; [lia|..]|]. by apply (sizes_ok_le (S k)); [lia|].
    + rewrite <-Nat.add_succ_comm. apply IH; done || lia.
Qed.
End Planes.

(** The planes of [clip_polygon]: from [sizes_ok] and what one plane does. *)
Lemma clip_frustum_plane_ok c buffer (given : vertex_t -> Prop) i k ivl buf :
  Forall given ivl -> sizes_ok k (ivl, buf) -> (k < 12)%nat ->
  clip_ok (fun r => Forall (clipped buffer (fun v => frustumPlaneDist i (v_clip v)) (run_clipVertex c) given) (fst r) /\
                    sizes_ok (S k) r) (clip_frustum_plane c buffer i ivl buf).
Proof.
  intros G [Hl Hb] Hk. cbn in Hl, Hb. eapply clip_ok_weaken; [|apply clip_plane_ok; try exact G].
  - intros r (F & L & B). split; [done|]. unfold sizes_ok. lia.
  - by destruct ivl; cbn in *; [lia|].
  - unfold OUT_SIZE, MAX_CLIPPING_PLANES, MAX_VERTICES. lia.
  - unfold BUFFER_SIZE, MAX_CLIPPING_PLANES. lia.
Qed.

Lemma clip_user_plane_ok c buffer i k ivl buf :
  sizes_ok k (ivl, buf) -> (k < 12)%nat -> clip_ok (sizes_ok (S k)) (clip_user_plane c buffer i ivl buf).
Proof.
  intros [Hl Hb] Hk. cbn in Hl, Hb.
  eapply clip_ok_weaken; [|apply (clip_plane_ok _ _ _ (fun _ => True))].
  - intros r (_ & L & B). unfold sizes_ok. lia.
  - by destruct ivl; cbn in *; [lia|].
  - by apply Forall_true.
  - unfold OUT_SIZE, MAX_CLIPPING_PLANES, MAX_VERTICES. lia.
  - unfold BUFFER_SIZE, MAX_CLIPPING_PLANES. lia.
Qed.

Lemma clip_polygon_ok c buffer v0 v1 v2 :
  clip_ok (fun ivl => (3 <= length ivl)%nat) (clip_polygon c buffer v0 v1 v2).
Proof.
  unfold clip_polygon. set (all_cc := Z.land _ CLIP_ALL).
  set (user_cc := Z.shiftr _ 8). set (cc := Z.land all_cc FRUSTUM_CLIP_ALL). clearbody user_cc cc.
  assert (sizes_ok 0 ([v0; v1; v2], O)) as H0 by (unfold sizes_ok; cbn; lia).
  apply (clip_ok_bind (sizes_ok 12)); [|intros [ivl buf] [H _]; cbn in *; lia].
  apply (clip_ok_bind (sizes_ok 6)).
  - destruct (user_cc =? 0); [by apply (sizes_ok_le 0); [lia|]|].
    eapply clip_ok_weaken; [|apply (clip_planes_ok (clip_user_plane c buffer) (fun _ _ => True) user_cc) with (k := O);
      try done; try lia].
    + intros r [_ H]. exact H.
    + intros i k ivl buf _ _ _ Hs Hk. eapply clip_ok_weaken; [|by apply clip_user_plane_ok]. by split.
  - intros [ivl buf] Hs. destruct (cc =? 0); [by apply (sizes_ok_le 6); [lia|]|].
    eapply clip_ok_weaken; [|apply (clip_planes_ok (clip_frustum_plane c buffer) (fun _ _ => True) cc) with (k := 6%nat);
      try done; try lia].
    + intros r [_ H]. exact H.
    + intros i k ivl' buf' _ _ _ Hs' Hk.
      eapply clip_ok_weaken; [|apply (clip_frustum_plane_ok c buffer (fun _ => True)); [by apply Forall_true|done..]].
      intros r [_ H]. by split.
Qed.

Lemma clip_triangle_fits c cu buffer v0 v1 v2 : clip_triangle c cu buffer v0 v1 v2 <> Overflow.
Proof.
  unfold clip_triangle. pose proof (clip_polygon_ok c buffer v0 v1 v2) as H.
  destruct (clip_polygon c buffer v0 v1 v2) as [| |[|p0 [|p1 ivl]]]; cbn in *; done || lia.
Qed.

(** C26: Clipping a triangle never writes past the end of the clipper's arrays,
    whatever the vertices, their flags, the planes and the rounding of the
    intersections: at most two vertices are made per plane, and the polygon
    grows by one vertex per plane. *)
Theorem clip_triangle_in_bounds c cu buffer v0 v1 v2 :
  clip_triangle c cu buffer v0 v1 v2 <> Overflow.
Proof. apply clip_triangle_fits. Qed.

(** ** Where the vertices end up *)

(** Coordinates whose sums and differences are far from overflowing. *)
Definition moderate (p : vec4_t) : Prop :=
  Z.abs (vx p) <= 2 ^ 27 /\ Z.abs (vy p) <= 2 ^ 27 /\ Z.abs (vz p) <= 2 ^ 27 /\ Z.abs (vw p) <= 2 ^ 27.

Lemma vec4_at_moderate p i : moderate p -> Z.abs (vec4_at i p) <= 2 ^ 27.
Proof. intros (? & ? & ? & ?). unfold vec4_at. by repeat case_match. Qed.

(** The distance without wrap-around. *)
Lemma frustumPlaneDist_eq i p : moderate p ->
  frustumPlaneDist i p = (if Z.testbit i 0 then vw p - vec4_at (Z.shiftr i 1) p else vw p + vec4_at (Z.shiftr i 1) p).
Proof.
  intros H. pose proof (vec4_at_moderate p (Z.shiftr i 1) H). destruct H as (_ & _ & _ & ?).
  unfold frustumPlaneDist. destruct (Z.testbit i 0); apply s32_id; unfold is_s32; lia.
Qed.

Lemma frustumPlaneDist_range i p : moderate p -> Z.abs (frustumPlaneDist i p) <= 2 ^ 28.
Proof.
  intros H. rewrite frustumPlaneDist_eq by done. pose proof (vec4_at_moderate p (Z.shiftr i 1) H).
  destruct H as (_ & _ & _ & ?). destruct (Z.testbit i 0); lia.
Qed.

(** Bit [i] of the clip flags is set when the vertex is outside of plane [i]. *)
Lemma outcode_sound i p : moderate p -> 0 <= i < 6 ->
  Z.testbit (outcode p) i = (frustumPlaneDist i p <? 0).
Proof.
  intros H Hi. rewrite frustumPlaneDist_eq by done. destruct H as (Hx & Hy & Hz & Hw).
  unfold outcode. rewrite !s32_id by (unfold is_s32; lia).
  assert (forall a, (a <? - vw p) = (vw p + a <? 0)) as E1 by (intros a; destruct (Z.ltb_spec a (- vw p)), (Z.ltb_spec (vw p + a) 0); lia).
  assert (forall a, (vw p <? a) = (vw p - a <? 0)) as E2 by (intros a; destruct (Z.ltb_spec (vw p) a), (Z.ltb_spec (vw p - a) 0); lia).
  rewrite !E1, !E2. assert (In i [0; 1; 2; 3; 4; 5]) as Hin by (cbn; lia).
  destruct Hin as [<-|[<-|[<-|[<-|[<-|[<-|[]]]]]]]; cbn [Z.testbit Z.shiftr Z.shiftl Z.opp Pos.pred_N Z.div2 Pos.div2 vec4_at Z.eqb Pos.eqb Pos.iter];
    do 6 (destruct (_ <? 0)); reflexivity.
Qed.

Lemma outcode_bits p : outcode p = Z.land (outcode p) FRUSTUM_CLIP_ALL.
Proof. unfold outcode. by do 6 (destruct (_ <? _)). Qed.

(** [t] is the fraction of the edge, rounded down. *)
Lemma clipDivide_spec a b : 0 <= a <= b -> a <= 2 ^ 28 -> 0 < b <= 2 ^ 29 ->
  let t := clipDivide a b in 0 <= t <= 2 ^ 28 /\ t * b <= 2 ^ 28 * a < t * b + b.
Proof.
  intros Hab Ha Hb t.
  assert (t = 2 ^ 28 * a / b) as ->.
  { unfold t, clipDivide, gglMulDivi.
    destruct (Z.ltb_spec (2 ^ 28) 0); [lia|]. destruct (Z.ltb_spec a 0); [lia|]. destruct (Z.ltb_spec b 0); [lia|].
    destruct (Z.ltb_spec (2 ^ 28) a); [lia|]. destruct (Z.leb_spec a b); [|lia].
    rewrite quick_muldiv_spec by lia. cbn [mbind option_bind default].
    assert (0 <= Z.lxor (2 ^ 28) a) by (apply Z.lxor_nonneg; lia).
    assert (0 <= Z.lxor (Z.lxor (2 ^ 28) a) b) by (apply Z.lxor_nonneg; lia).
    by destruct (Z.ltb_spec (Z.lxor (Z.lxor (2 ^ 28) a) b) 0); [lia|]. }
  pose proof (Z.div_mod (2 ^ 28 * a) b). pose proof (Z.mod_pos_bound (2 ^ 28 * a) b).
  assert (2 ^ 28 * a / b <= 2 ^ 28) by (apply Z.div_le_upper_bound; nia).
  assert (0 <= 2 ^ 28 * a / b) by (apply Z.div_pos; lia). split; [lia|]. nia.
Qed.

Lemma lerp_spec t s p : 0 <= t <= 2 ^ 28 -> Z.abs s <= 2 ^ 27 -> Z.abs p <= 2 ^ 27 ->
  let l := gglMulAddx_shift t (s32 (s - p)) p 28 in
  t * (s - p) - 2 ^ 28 < 2 ^ 28 * (l - p) <= t * (s - p) /\ Z.min s p <= l <= Z.max s p.
Proof.
  intros Ht Hs Hp l. 
  assert (l = t * (s - p) / 2 ^ 28 + p) as E.
  { unfold l, gglMulAddx_shift. rewrite shiftr_div by lia. rewrite (s32_id (s - p)) by (unfold is_s32; lia).
    assert (- 2 ^ 28 <= t * (s - p) / 2 ^ 28 <= 2 ^ 28).
    { split; [apply Z.div_le_lower_bound|apply Z.div_le_upper_bound]; nia. }
    by rewrite (s32_id (t * _ / _)), s32_id by (unfold is_s32; lia). }
  rewrite E. pose proof (Z.div_mod (t * (s - p)) (2 ^ 28)). pose proof (Z.mod_pos_bound (t * (s - p)) (2 ^ 28)).
  set (q := t * (s - p) / 2 ^ 28) in *. clearbody q. split; [lia|].
  destruct (Z.le_gt_cases p s); nia.
Qed.

Lemma run_clipVertex_clip c nv t s p : v_clip (run_clipVertex c nv t s p) = clipVec4 t (v_clip s) (v_clip p).
Proof.
  assert (forall nv, v_clip (clipVertex c nv t s p) = clipVec4 t (v_clip s) (v_clip p)) as E.
  { intros nv'. unfold clipVertex, ogles_vertex_project, perspective. by destruct (has _ _). }
  unfold run_clipVertex. destruct (cp_clipVertex c); unfold clipVertexC, clipVertexT, clipVertexAll, clipVertexT; apply E.
Qed.

Lemma clipVec4_at t s p i :
  vec4_at i (clipVec4 t s p) = gglMulAddx_shift t (s32 (vec4_at i s - vec4_at i p)) (vec4_at i p) 28.
Proof. unfold vec4_at. by repeat case_match. Qed.

Lemma clipVec4_moderate t o i : 0 <= t <= 2 ^ 28 -> moderate o -> moderate i -> moderate (clipVec4 t o i).
Proof.
  intros Ht (? & ? & ? & ?) (? & ? & ? & ?). unfold moderate, clipVec4, vec4_map2. cbn [vx vy vz vw].
  split_and!; (match goal with |- Z.abs (gglMulAddx_shift _ (s32 (?s - ?p)) _ _) <= _ =>
    pose proof (lerp_spec t s p Ht) as [_ ?]; [done..|lia] end).
Qed.

(** The distance to a plane of a vertex made at [t]. *)
Lemma clipVec4_distance j t o i : 0 <= t <= 2 ^ 28 -> moderate o -> moderate i ->
  let d := frustumPlaneDist j in
  t * (d o - d i) - 2 ^ 29 < 2 ^ 28 * (d (clipVec4 t o i) - d i) /\
  2 ^ 28 * (d (clipVec4 t o i) - d i) < t * (d o - d i) + 2 ^ 28.
Proof.
  intros Ht Ho Hi d. unfold d. rewrite !frustumPlaneDist_eq, clipVec4_at by (done || by apply clipVec4_moderate).
  pose proof (vec4_at_moderate o (Z.shiftr j 1) Ho). pose proof (vec4_at_moderate i (Z.shiftr j 1) Hi).
  destruct Ho as (_ & _ & _ & Ho), Hi as (_ & _ & _ & Hi). unfold clipVec4, vec4_map2. cbn [vw].
  pose proof (lerp_spec t (vw o) (vw i) Ht Ho Hi) as [A _].
  pose proof (lerp_spec t (vec4_at (Z.shiftr j 1) o) (vec4_at (Z.shiftr j 1) i) Ht ltac:(done) ltac:(done)) as [B _].
  cbn zeta in A, B. destruct (Z.testbit j 0); lia.
Qed.

(** Such a vertex is at most one unit further out than the outer end; on the
    plane it was made for, it is at most one unit out. *)
Lemma cut_distance t o i j k : 0 <= t <= 2 ^ 28 -> moderate o -> moderate i -> 0 <= k ->
  - k <= frustumPlaneDist j o -> - k <= frustumPlaneDist j i -> - (k + 1) <= frustumPlaneDist j (clipVec4 t o i).
Proof.
  intros Ht Ho Hi Hk Do Di. pose proof (clipVec4_distance j t o i Ht Ho Hi) as [H _]. cbn zeta in H. nia.
Qed.

Lemma cut_on_plane o i j : moderate o -> moderate i ->
  0 <= frustumPlaneDist j i -> frustumPlaneDist j o < 0 ->
  let t := clipDivide (frustumPlaneDist j i) (s32 (frustumPlaneDist j i - frustumPlaneDist j o)) in
  0 <= t <= 2 ^ 28 /\ -1 <= frustumPlaneDist j (clipVec4 t o i).
Proof.
  intros Ho Hi Di Do t. pose proof (frustumPlaneDist_range j o Ho). pose proof (frustumPlaneDist_range j i Hi).
  unfold t. rewrite s32_id by (unfold is_s32; lia).
  destruct (clipDivide_spec (frustumPlaneDist j i) (frustumPlaneDist j i - frustumPlaneDist j o)) as [Ht T]; [lia..|].
  split; [done|]. pose proof (clipVec4_distance j _ o i Ht Ho Hi) as [D _]. cbn zeta in D, T. nia.
Qed.

(** Every frustum plane below [i], and every one no vertex was outside of, is at
    most [i] units away. *)
Definition inside_planes (cc i : Z) (v : vertex_t) : Prop :=
  moderate (v_clip v) /\
  forall j, 0 <= j < 6 -> j < i \/ Z.testbit cc j = false -> - i <= frustumPlaneDist j (v_clip v).

Lemma clipped_inside c buffer cc i v : 0 <= i ->
  clipped buffer (fun v => frustumPlaneDist i (v_clip v)) (run_clipVertex c) (inside_planes cc i) v ->
  inside_planes cc (i + 1) v.
Proof.
  intros Hi [[[M P] D]|(a & o & b & [Ma Pa] & [Mo Po] & Da & Do & ->)].
  - split; [done|]. intros j Hj Hc. destruct (Z.eq_dec j i) as [->|]; [lia|].
    pose proof (P j Hj ltac:(destruct Hc; [left; lia|by right])). lia.
  - destruct (cut_on_plane (v_clip o) (v_clip a) i Mo Ma Da Do) as [Ht Hn].
    split; rewrite run_clipVertex_clip; [by apply clipVec4_moderate|]. intros j Hj Hc.
    destruct (Z.eq_dec j i) as [->|]; [lia|].
    assert (j < i \/ Z.testbit cc j = false) as Hc' by (destruct Hc; [left; lia|by right]).
    apply cut_distance; auto.
Qed.

Lemma clip_polygon_inside c buffer v0 v1 v2 :
  Forall (fun v => moderate (v_clip v) /\ clip_flags v = outcode (v_clip v)) [v0; v1; v2] ->
  clip_ok (Forall (inside_planes 0 6)) (clip_polygon c buffer v0 v1 v2).
Proof.
  intros Hv. unfold clip_polygon.
  assert (Z.land (Z.lor (Z.lor (v_flags v0) (v_flags v1)) (v_flags v2)) CLIP_ALL =
          Z.lor (Z.lor (outcode (v_clip v0)) (outcode (v_clip v1))) (outcode (v_clip v2))) as ->.
  { unfold clip_flags in Hv. rewrite !Forall_cons in Hv. destruct Hv as ((_ & <-) & (_ & <-) & (_ & <-) & _).
    by rewrite !Z.land_lor_distr_l. }
  assert (Forall (fun v => moderate (v_clip v)) [v0; v1; v2]) as Hm by (eapply Forall_impl; [exact Hv|by intros v [? _]]).
  set (cc := Z.lor (Z.lor _ _) _).
  assert (cc = Z.land cc FRUSTUM_CLIP_ALL) as Ecc.
  { unfold cc. rewrite !Z.land_lor_distr_l. by rewrite <-!outcode_bits. }
  assert (Z.shiftr (Z.land cc USER_CLIP_ALL) 8 = 0) as -> by (rewrite Ecc, <-Z.land_assoc; by rewrite Z.land_0_r).
  rewrite Z.eqb_refl. cbn [clip_bind]. rewrite <-Ecc.
  assert (Forall (inside_planes cc 0) [v0; v1; v2]) as H0.
  { apply Forall_forall. intros v Hin. rewrite Forall_forall in Hm. split; [by apply Hm|]. intros j Hj [|Hb]; [lia|].
    unfold cc in Hb. rewrite !Z.lor_spec, !orb_false_iff, !outcode_sound, !Z.ltb_ge in Hb
      by (done || by apply Hm; repeat constructor).
    rewrite !elem_of_cons, elem_of_nil in Hin. destruct Hin as [->|[->|[->|[]]]]; lia. }
  apply (clip_ok_bind (fun r => Forall (inside_planes 0 6) (fst r))); [|intros [ivl buf] H; exact H].
  destruct (Z.eqb_spec cc 0) as [E|_].
  - cbn. eapply Forall_impl; [exact H0|]. intros v [M P]. split; [done|]. intros j Hj _.
    pose proof (P j Hj ltac:(right; by rewrite E, Z.testbit_0_l)). lia.
  - eapply clip_ok_weaken; [|apply (clip_planes_ok (clip_frustum_plane c buffer) (fun i => Forall (inside_planes cc i)) cc)
      with (k := O); try done; try lia].
    + intros [ivl buf] [H _]. cbn in *. eapply Forall_impl; [exact H|]. intros v [M P]. split; [done|].
      intros j Hj _. apply P; [done|]. left. lia.
    + intros i k ivl buf Hi _ HI Hs Hk. eapply clip_ok_weaken; [|by eapply clip_frustum_plane_ok].
      intros r [F S]. split; [|done]. eapply Forall_impl; [exact F|]. intros v. by apply clipped_inside.
    + intros i ivl Hi Hb H. eapply Forall_impl; [exact H|]. intros v [M P]. split; [done|].
      intros j Hj Hc. assert (j < i \/ Z.testbit cc j = false) as Hc'.
      { destruct Hc; [|by right]. destruct (Z.eq_dec j i) as [->|]; [by right|left; lia]. }
      pose proof (P j Hj Hc'). lia.
Qed.

(** Every plane of the view volume is at most [n] units away. *)
Definition inside_volume (n : Z) (v : vertex_t) : Prop :=
  moderate (v_clip v) /\ forall j, 0 <= j < 6 -> - n <= frustumPlaneDist j (v_clip v).

Lemma polygon_fan_vertices cu (P : vertex_t -> Prop) ivl : forall p0 p1,
  P p0 -> P p1 -> Forall P ivl -> Forall (fun '(a, b, c) => P a /\ P b /\ P c) (polygon_fan cu p0 p1 ivl).
Proof.
  induction ivl as [|p2 ivl IH]; intros p0 p1 H0 H1 H; cbn; [constructor|].
  inversion_clear H. apply Forall_app. split; [|by apply IH]. destruct (cull_triangle _ _ _ _); by repeat constructor.
Qed.

(** C27: The triangles a clipped triangle is cut into lie in the view volume, up to
    6 units of the 16.16 coordinates: one for the rounding at each plane.  The
    triangle's vertices carry the clip flags of their coordinates, which are
    below 2^11, and no user plane cuts it. *)
Theorem clip_triangle_inside c cu buffer v0 v1 v2 :
  Forall (fun v => moderate (v_clip v) /\ clip_flags v = outcode (v_clip v)) [v0; v1; v2] ->
  clip_ok (Forall (fun '(p0, p1, p2) => inside_volume 6 p0 /\ inside_volume 6 p1 /\ inside_volume 6 p2))
    (clip_triangle c cu buffer v0 v1 v2).
Proof.
  intros H. apply (clip_polygon_inside c buffer) in H. pose proof (clip_polygon_ok c buffer v0 v1 v2) as L.
  unfold clip_triangle. destruct (clip_polygon c buffer v0 v1 v2) as [| |ivl]; [done..|]. cbn in *.
  assert (Forall (inside_volume 6) ivl) as H'.
  { eapply Forall_impl; [exact H|]. intros v [M P]. split; [done|]. intros j Hj. apply P; [done|]. left. lia. }
  destruct ivl as [|p0 [|p1 ivl]]; cbn in L; [lia..|].
  rewrite !Forall_cons in H'. destruct H' as (? & ? & ?). by apply polygon_fan_vertices.
Qed.

(** ** Faults *)

(** [clipEye] interpolates the eye coordinates from [p] towards [s], and the clip
    coordinates from [s] towards [p]. *)
Lemma clipEye_wrong_end c nv t s p :
  v_eye (clipEye c nv t s p) = clipVec4 t (v_eye s) (v_eye p) /\
  v_clip (clipEye c nv t s p) = clipVec4 t (v_clip p) (v_clip s).
Proof. split; [done|]. apply (run_clipVertex_clip c (vertex_clear nv) t p s). Qed.

(** A line whose second end is on the plane and whose first is outside of it is
    not clipped by that plane. *)
Lemma clip_line_on_plane dist cut s p : dist s < 0 -> dist p = 0 ->
  clip_line_plane dist cut s p = (true, (s, p)).
Proof.
  intros Hs Hp. unfold clip_line_plane. rewrite Hp.
  by destruct (Z.leb_spec 0 (dist s)); [lia|].
Qed.

(** A vertex with the given clip coordinates and its flags. *)
Definition clip_vertex_at (x y z w : Z) : vertex_t :=
  zero_vertex <| v_clip := mk_vec4 x y z w |> <| v_flags := outcode (mk_vec4 x y z w) |>.

Definition example_clipper : clipper_t :=
  mk_clipper (mk_projection gIdentityx gIdentityx use_point4__nop gIdentityx use_point4__nop
                (repeat zero_vec4 6) 0 use_perspective3D (fun _ => 0))
    0 [false; false] use_clipVertex.

(** The end of a line that leaves the view volume is moved in place: the next
    segment of a strip, which starts at that vertex, starts at the border. *)
Lemma clip_line_moves_vertex :
  let s := clip_vertex_at 0 0 0 0x10000 in
  let p := clip_vertex_at 0x20000 0 0 0x10000 in
  exists p', clip_line example_clipper s p = (true, (s, p')) /\
    clip_flags p = CLIP_R /\ v_clip p' = mk_vec4 0x10000 0 0 0x10000 /\ clip_flags p' = 0.
Proof. eexists. split; [vm_compute; reflexivity|]. split_and!; reflexivity. Qed.

(** ** Examples *)

(** A triangle that sticks out on the right and through the near plane. *)
Lemma clip_triangle_inside_witness :
  exists ts, length ts = 2%nat /\
    clip_triangle example_clipper (mk_culling GL_BACK GL_CCW 0) (fun _ => zero_vertex)
      (clip_vertex_at 0 0 0 0x10000) (clip_vertex_at 0x30000 0 0 0x10000)
      (clip_vertex_at 0 0x8000 (-0x20000) 0x10000) = Going ts /\
    Forall (fun '(p0, p1, p2) => inside_volume 6 p0 /\ inside_volume 6 p1 /\ inside_volume 6 p2) ts.
Proof.
  pose proof (clip_triangle_inside example_clipper (mk_culling GL_BACK GL_CCW 0) (fun _ => zero_vertex)
    (clip_vertex_at 0 0 0 0x10000) (clip_vertex_at 0x30000 0 0 0x10000)
    (clip_vertex_at 0 0x8000 (-0x20000) 0x10000)) as H.
  destruct (clip_triangle _ _ _ _ _ _) as [| |ts] eqn:E; [vm_compute in E; discriminate E..|].
  exists ts. split; [|split; [reflexivity|]].
  - vm_compute in E. injection E as <-. reflexivity.
  - apply H. repeat constructor; vm_compute; discriminate.
Defined.
