(* ===== verification/Arrays.v ===== *)
(** * Vertex arrays

    Models swrender/array.cpp up to the drawing of primitives: the fetchers of
    array elements and the tables they are chosen from, the client commands
    that describe and enable arrays, and the compilation of a vertex: fetch,
    transformation and projection.  The client's memory is that of
    [Surface.v].  [fetchers_exist] shows that no command sequence leaves an
    enabled array without a fetcher; [fetch_in_element] that a fetcher reads
    the array's own element, which fails for pairs of fixed-point coordinates
    ([fetch_fixed_pair]). *)

From S2P Require Import Prelude Fixed Names Context PixelFormat Surface Float Vertex.

(** ** Elements of the client's arrays *)

Definition s8 (z : Z) : Z := (z + 2 ^ 7) mod 2 ^ 8 - 2 ^ 7.
Definition ld_b (m : mem) (p i : Z) : Z := s8 (load8 m (p + i)).
Definition ld_ub (m : mem) (p i : Z) : Z := load8 m (p + i).
Definition ld_s (m : mem) (p i : Z) : Z := s16 (load16 m (p + 2 * i)).
Definition ld_x (m : mem) (p i : Z) : Z := s32 (load32 m (p + 4 * i)).
Definition ld_f (m : mem) (p i : Z) : Z := gglFloatToFixed (load32 m (p + 4 * i)).

(** The values a fetcher stores, from [v[0]] on. *)
Definition fetch2b (m : mem) (p : Z) : list Z := map (fun i => gglIntToFixed (ld_b m p i)) [0; 1].
Definition fetch2s (m : mem) (p : Z) : list Z := map (fun i => gglIntToFixed (ld_s m p i)) [0; 1].
Definition fetch2x (m : mem) (p : Z) : list Z := map (ld_x m p) [0; 1].
Definition fetch2f (m : mem) (p : Z) : list Z := map (ld_f m p) [0; 1].
Definition fetch3b (m : mem) (p : Z) : list Z := map (fun i => gglIntToFixed (ld_b m p i)) [0; 1; 2].
Definition fetch3s (m : mem) (p : Z) : list Z := map (fun i => gglIntToFixed (ld_s m p i)) [0; 1; 2].
Definition fetch3x (m : mem) (p : Z) : list Z := map (ld_x m p) [0; 1; 2].
Definition fetch3f (m : mem) (p : Z) : list Z := map (ld_f m p) [0; 1; 2].
Definition fetch4b (m : mem) (p : Z) : list Z := map (fun i => gglIntToFixed (ld_b m p i)) [0; 1; 2; 3].
Definition fetch4s (m : mem) (p : Z) : list Z := map (fun i => gglIntToFixed (ld_s m p i)) [0; 1; 2; 3].
Definition fetch4x (m : mem) (p : Z) : list Z := map (ld_x m p) [0; 1; 2; 3].
Definition fetch4f (m : mem) (p : Z) : list Z := map (ld_f m p) [0; 1; 2; 3].
Definition fetchExpand4ub (m : mem) (p : Z) : list Z := map (fun i => GGL_UB_TO_X (ld_ub m p i)) [0; 1; 2; 3].
Definition fetchClamp4x (m : mem) (p : Z) : list Z := map (fun i => gglClampx (ld_x m p i)) [0; 1; 2; 3].
Definition fetchClamp4f (m : mem) (p : Z) : list Z := map (fun i => gglClampx (ld_f m p i)) [0; 1; 2; 3].
Definition fetchExpand3ub (m : mem) (p : Z) : list Z :=
  map (fun i => GGL_UB_TO_X (ld_ub m p i)) [0; 1; 2] ++ [0x10000].
Definition fetchClamp3x (m : mem) (p : Z) : list Z := map (fun i => gglClampx (ld_x m p i)) [0; 1; 2] ++ [0x10000].
Definition fetchClamp3f (m : mem) (p : Z) : list Z := map (fun i => gglClampx (ld_f m p i)) [0; 1; 2] ++ [0x10000].
Definition fetchExpand3b (m : mem) (p : Z) : list Z := map (fun i => GGL_B_TO_X (ld_b m p i)) [0; 1; 2].
Definition fetchExpand3s (m : mem) (p : Z) : list Z := map (fun i => GGL_S_TO_X (ld_s m p i)) [0; 1; 2].

(** What a [fetcher_t] points to; the null pointer is no fetcher. *)
Inductive fetcher_t :=
  | use_currentColor | use_currentNormal | use_currentTexCoord | use_fetchNop
  | use_fetch (f : mem -> Z -> list Z).

(** The current vertex attributes; the color is [current.color]. *)
Record current_t := mk_current {
  cur_color : vec4_t; cur_colorClamped : vec4_t; cur_normal : list Z; cur_texture : list vec4_t }.

Definition vec4_items (v : vec4_t) : list Z := [vx v; vy v; vz v; vw v].
Definition currentColor (cur : current_t) : list Z := vec4_items (cur_color cur).
Definition currentColor_clamp (cur : current_t) : list Z := vec4_items (cur_colorClamped cur).
Definition currentNormal (cur : current_t) : list Z := cur_normal cur.
(** [tmu] is [c->arrays.tmu], whichever unit the coordinates are for. *)
Definition currentTexCoord (cur : current_t) (tmu : Z) : list Z :=
  vec4_items (nth (Z.to_nat tmu) (cur_texture cur) zero_vec4).

Definition run_fetch (f : fetcher_t) (cur : current_t) (tmu : Z) (m : mem) (p : Z) : list Z :=
  match f with
  | use_currentColor => currentColor cur
  | use_currentNormal => currentNormal cur
  | use_currentTexCoord => currentTexCoord cur tmu
  | use_fetchNop => []
  | use_fetch f => f m p
  end.

(** [v] with its first coordinates replaced. *)
Definition vec4_write (l : list Z) (v : vec4_t) : vec4_t :=
  let at_ i old := nth i l old in
  mk_vec4 (at_ 0%nat (vx v)) (at_ 1%nat (vy v)) (at_ 2%nat (vz v)) (at_ 3%nat (vw v)).

(** ** The tables *)

Definition GL_BYTE : Z := 0x1400.
Definition GL_UNSIGNED_BYTE : Z := 0x1401.
Definition GL_SHORT : Z := 0x1402.
Definition GL_UNSIGNED_SHORT : Z := 0x1403.
Definition GL_FLOAT : Z := 0x1406.
Definition GL_FIXED : Z := 0x140C.

Definition entry (row : list (Z * (mem -> Z -> list Z))) (type : Z) : option fetcher_t :=
  use_fetch ∘ snd <$> List.find (fun e => fst e =? Z.land type 0xF) row.
Definition table (rows : list (list (Z * (mem -> Z -> list Z)))) (i type : Z) : option fetcher_t :=
  if i <? 0 then None else row ← nth_error rows (Z.to_nat i); entry row type.

Definition color_fct (i type : Z) : option fetcher_t :=
  table [[(1, fetchExpand3ub); (6, fetch3f); (12, fetch3x)];
         [(1, fetchExpand4ub); (6, fetch4f); (12, fetch4x)]] i type.
Definition color_clamp_fct (i type : Z) : option fetcher_t :=
  table [[(1, fetchExpand3ub); (6, fetchClamp3f); (12, fetchClamp3x)];
         [(1, fetchExpand4ub); (6, fetchClamp4f); (12, fetchClamp4x)]] i type.
Definition normal_fct (i type : Z) : option fetcher_t :=
  table [[(0, fetchExpand3b); (2, fetchExpand3s); (6, fetch3f); (12, fetch3x)]] i type.
Definition vertex_fct (i type : Z) : option fetcher_t :=
  table [[(0, fetch2b); (2, fetch2s); (6, fetch2f); (12, fetch3x)];
         [(0, fetch3b); (2, fetch3s); (6, fetch3f); (12, fetch3x)];
         [(0, fetch4b); (2, fetch4s); (6, fetch4f); (12, fetch4x)]] i type.
Definition texture_fct (i type : Z) : option fetcher_t :=
  table [[(0, fetch2b); (2, fetch2s); (6, fetch2f); (12, fetch2x)];
         [(0, fetch3b); (2, fetch3s); (6, fetch3f); (12, fetch3x)];
         [(0, fetch4b); (2, fetch4s); (6, fetch4f); (12, fetch4x)]] i type.

(** ** Array descriptions *)

(** A buffer object an array takes its data from. *)
Record buffer_ref := mk_buffer_ref { br_name : Z; br_data : Z }.

Record array_t := mk_array {
  a_fetch : option fetcher_t; a_physical_pointer : Z; a_size : Z; a_stride : Z; a_pointer : Z;
  a_bo : option buffer_ref; a_type : Z; a_enable : bool; a_bounds : Z }.
#[export] Instance eta_array : Eta array_t := fun r =>
  mk_array (a_fetch r) (a_physical_pointer r) (a_size r) (a_stride r) (a_pointer r) (a_bo r)
    (a_type r) (a_enable r) (a_bounds r).

Definition array_init (size type stride pointer : Z) (bo : option buffer_ref) (count : Z) (a : array_t) : array_t :=
  let stride :=
    if stride =? 0 then
      if (type =? GL_SHORT) || (type =? GL_UNSIGNED_SHORT) then size * 2
      else if (type =? GL_FLOAT) || (type =? GL_FIXED) then size * 4
      else size
    else stride in
  a <| a_size := size |> <| a_type := u16 type |> <| a_stride := stride |> <| a_pointer := pointer |>
    <| a_bo := bo |> <| a_bounds := count |>.

Definition array_resolve (a : array_t) : array_t :=
  a <| a_physical_pointer :=
    match a_bo a with Some bo => br_data bo + a_pointer a | None => a_pointer a end |>.

Definition array_element (a : array_t) (i : Z) : Z := a_physical_pointer a + s32 (i * a_stride a).

(** [am.x.bo || am.x.pointer]. *)
Definition has_data (a : array_t) : bool :=
  match a_bo a with Some _ => true | None => negb (a_pointer a =? 0) end.

Record array_machine_t := mk_array_machine {
  am_vertex : array_t; am_normal : array_t; am_color : array_t; am_texture : list array_t;
  am_activeTexture : Z; am_tmu : Z; am_indicesType : Z;
  am_array_buffer : option buffer_ref; am_element_array_buffer : option buffer_ref; am_error : Z }.
#[export] Instance eta_array_machine : Eta array_machine_t := fun r =>
  mk_array_machine (am_vertex r) (am_normal r) (am_color r) (am_texture r) (am_activeTexture r)
    (am_tmu r) (am_indicesType r) (am_array_buffer r) (am_element_array_buffer r) (am_error r).

(** [c->error], kept with the arrays here. *)
Definition ogles_error (error : Z) (am : array_machine_t) : array_machine_t :=
  if am_error am =? GGL_NO_ERROR then am <| am_error := error |> else am.

Definition zero_array : array_t := mk_array None 0 0 0 0 None 0 false 0.

Definition ogles_init_array : array_machine_t :=
  let a := zero_array <| a_size := 4 |> <| a_type := GL_FLOAT |> in
  mk_array_machine a a a [a; a] 0 0 0 None None GGL_NO_ERROR.

(** ** Client commands *)

Definition coord_type (type : Z) : bool :=
  (type =? GL_BYTE) || (type =? GL_SHORT) || (type =? GL_FIXED) || (type =? GL_FLOAT).
Definition color_type (type : Z) : bool :=
  (type =? GL_UNSIGNED_BYTE) || (type =? GL_FIXED) || (type =? GL_FLOAT).

Definition glVertexPointer (size type stride pointer : Z) (am : array_machine_t) : array_machine_t :=
  if (size <? 2) || (4 <? size) || (stride <? 0) then ogles_error GGL_INVALID_VALUE am
  else if negb (coord_type type) then ogles_error GGL_INVALID_ENUM am
  else am <| am_vertex ::= array_init size type stride pointer (am_array_buffer am) 0 |>.

Definition glColorPointer (size type stride pointer : Z) (am : array_machine_t) : array_machine_t :=
  if negb (size =? 4) || (stride <? 0) then ogles_error GGL_INVALID_VALUE am
  else if negb (color_type type) then ogles_error GGL_INVALID_ENUM am
  else am <| am_color ::= array_init size type stride pointer (am_array_buffer am) 0 |>.

Definition glNormalPointer (type stride pointer : Z) (am : array_machine_t) : array_machine_t :=
  if stride <? 0 then ogles_error GGL_INVALID_VALUE am
  else if negb (coord_type type) then ogles_error GGL_INVALID_ENUM am
  else am <| am_normal ::= array_init 3 type stride pointer (am_array_buffer am) 0 |>.

Definition glTexCoordPointer (size type stride pointer : Z) (am : array_machine_t) : array_machine_t :=
  if (size <? 2) || (4 <? size) || (stride <? 0) then ogles_error GGL_INVALID_VALUE am
  else if negb (coord_type type) then ogles_error GGL_INVALID_ENUM am
  else am <| am_texture ::=
         alter (array_init size type stride pointer (am_array_buffer am) 0) (Z.to_nat (am_activeTexture am)) |>.

Definition GL_VERTEX_ARRAY : Z := 0x8074.
Definition GL_NORMAL_ARRAY : Z := 0x8075.
Definition GL_COLOR_ARRAY : Z := 0x8076.
Definition GL_TEXTURE_COORD_ARRAY : Z := 0x8078.
Definition GL_TEXTURE0 : Z := 0x84C0.
Definition GL_ARRAY_BUFFER : Z := 0x8892.
Definition GL_ELEMENT_ARRAY_BUFFER : Z := 0x8893.

Definition enableDisableClientState (array : Z) (enable : bool) (am : array_machine_t) : array_machine_t :=
  let on a := a <| a_enable := enable |> in
  if array =? GL_COLOR_ARRAY then am <| am_color ::= on |>
  else if array =? GL_NORMAL_ARRAY then am <| am_normal ::= on |>
  else if array =? GL_TEXTURE_COORD_ARRAY
  then am <| am_texture ::= alter on (Z.to_nat (am_activeTexture am)) |>
  else if array =? GL_VERTEX_ARRAY then am <| am_vertex ::= on |>
  else ogles_error GGL_INVALID_ENUM am.

Definition glEnableClientState (array : Z) := enableDisableClientState array true.
Definition glDisableClientState (array : Z) := enableDisableClientState array false.

Definition glClientActiveTexture (texture : Z) (am : array_machine_t) : array_machine_t :=
  if (texture <? GL_TEXTURE0) || (GL_TEXTURE0 + 2 <=? texture) then ogles_error GGL_INVALID_ENUM am
  else am <| am_activeTexture := texture - GL_TEXTURE0 |>.

(** [bo] is the buffer the manager binds to the name, if it can. *)
Definition glBindBuffer (target buffer : Z) (bo : option buffer_ref) (am : array_machine_t) : array_machine_t :=
  if negb (target =? GL_ARRAY_BUFFER) && negb (target =? GL_ELEMENT_ARRAY_BUFFER)
  then ogles_error GGL_INVALID_ENUM am
  else
    let set bo := if target =? GL_ARRAY_BUFFER then am <| am_array_buffer := bo |>
                  else am <| am_element_array_buffer := bo |> in
    if buffer =? 0 then set None
    else match bo with None => ogles_error GGL_OUT_OF_MEMORY am | Some b => set (Some b) end.

(** The part of [glDeleteBuffers] that unbinds one name. *)
Definition unbind (name : Z) (bo : option buffer_ref) : option buffer_ref :=
  b ← bo; if br_name b =? name then None else Some b.
Definition unbind_buffer (am : array_machine_t) (name : Z) : array_machine_t :=
  if name =? 0 then am
  else
    let off a := a <| a_bo ::= unbind name |> in
    am <| am_element_array_buffer ::= unbind name |> <| am_array_buffer ::= unbind name |>
       <| am_vertex ::= off |> <| am_normal ::= off |> <| am_color ::= off |> <| am_texture ::= map off |>.
Definition glDeleteBuffers (names : list Z) (am : array_machine_t) : array_machine_t :=
  fold_left unbind_buffer names am.

(** ** Picking the fetchers *)

(** What the fetchers depend on besides the arrays. *)
Record fetch_mode := mk_fetch_mode { fm_lighting : bool; fm_units : list bool }.

Definition pick_vertex (a : array_t) : array_t :=
  if a_enable a then
    let a := array_resolve a in
    a <| a_fetch := if has_data a then vertex_fct (a_size a - 2) (a_type a) else Some use_fetchNop |>
  else a <| a_fetch := Some use_fetchNop |>.

Definition pick_normal (a : array_t) : array_t :=
  if a_enable a then
    let a := array_resolve a in
    a <| a_fetch := if has_data a then normal_fct (a_size a - 3) (a_type a) else Some use_currentNormal |>
  else a <| a_fetch := Some use_currentNormal |>.

Definition pick_color (lighting : bool) (a : array_t) : array_t :=
  if a_enable a then
    let a := array_resolve a in
    a <| a_fetch :=
      if has_data a then (if lighting then color_fct else color_clamp_fct) (a_size a - 3) (a_type a)
      else Some use_currentColor |>
  else a <| a_fetch := Some use_currentColor |>.

Definition pick_texture (on : bool) (a : array_t) : array_t :=
  if on && a_enable a then
    let a := array_resolve a in
    a <| a_fetch := if has_data a then texture_fct (a_size a - 2) (a_type a) else Some use_currentTexCoord |>
  else a <| a_fetch := Some use_currentTexCoord |>.

(** The last enabled unit, if any. *)
Fixpoint last_unit (i : Z) (units : list bool) (tmu : Z) : Z :=
  match units with [] => tmu | on :: units => last_unit (i + 1) units (if on : bool then i else tmu) end.

Definition pick_fetchers (fm : fetch_mode) (am : array_machine_t) : array_machine_t :=
  am <| am_vertex ::= pick_vertex |> <| am_normal ::= pick_normal |>
     <| am_color ::= pick_color (fm_lighting fm) |>
     <| am_texture ::= zip_with pick_texture (fm_units fm) |>
     <| am_tmu ::= last_unit 0 (fm_units fm) |>.

(** ** Compiling a vertex *)

Definition INDEX_MASK : Z := 0xFFFF.

(** What compilation reads; the arrays do not change while primitives are drawn. *)
Record compiler_t := mk_compiler {
  cm_array : array_t; cm_fetch : fetcher_t; cm_current : current_t; cm_tmu : Z; cm_mem : mem;
  cm_projection : projection_t }.

(** The element at [vp]; [old] is what the vertex held. *)
Definition compile_at (cm : compiler_t) (vp tag : Z) (old : vertex_t) (cull : Z) : vertex_t * Z :=
  let pj := cm_projection cm in
  let obj := old <| v_flags := 0 |> <| v_index := tag |>
               <| v_obj ::= fun o => o <| vz := 0 |> <| vw := 0x10000 |> |> in
  let v := obj <| v_obj ::= vec4_write (run_fetch (cm_fetch cm) (cm_current cm) (cm_tmu cm) (cm_mem cm) vp) |> in
  let v := v <| v_clip := run_point (pj_mvp_transform pj) (pj_mvp pj) (v_obj v) |> in
  run_perspective pj v cull.

Definition compileElement__generic (cm : compiler_t) (old : vertex_t) (first cull : Z) : vertex_t * Z :=
  compile_at cm (array_element (cm_array cm) (Z.land first INDEX_MASK)) (u64 first) old cull.

(** The [do] loop over the vertices [olds], which is not empty. *)
Fixpoint compile_loop (cm : compiler_t) (olds : list vertex_t) (vp first cull : Z) : list vertex_t * Z :=
  match olds with
  | [] => ([], cull)
  | old :: olds =>
      let '(v, cull) := compile_at cm vp (u64 first) old cull in
      let '(vs, cull) := compile_loop cm olds (vp + a_stride (cm_array cm)) (s32 (first + 1)) cull in
      (v :: vs, cull)
  end.
Definition compileElements__generic (cm : compiler_t) (olds : list vertex_t) (first cull : Z)
    : list vertex_t * Z :=
  compile_loop cm olds (array_element (cm_array cm) (Z.land first INDEX_MASK)) first cull.

(** ** Every enabled array has a fetcher *)

Inductive array_command :=
  | A_VertexPointer (size type stride pointer : Z)
  | A_ColorPointer (size type stride pointer : Z)
  | A_NormalPointer (type stride pointer : Z)
  | A_TexCoordPointer (size type stride pointer : Z)
  | A_ClientState (array : Z) (enable : bool)
  | A_ClientActiveTexture (texture : Z)
  | A_BindBuffer (target buffer : Z) (bo : option buffer_ref)
  | A_DeleteBuffers (names : list Z)
  | A_PickFetchers (fm : fetch_mode).

Definition exec_array (cmd : array_command) (am : array_machine_t) : array_machine_t :=
  match cmd with
  | A_VertexPointer size type stride pointer => glVertexPointer size type stride pointer am
  | A_ColorPointer size type stride pointer => glColorPointer size type stride pointer am
  | A_NormalPointer type stride pointer => glNormalPointer type stride pointer am
  | A_TexCoordPointer size type stride pointer => glTexCoordPointer size type stride pointer am
  | A_ClientState array enable => enableDisableClientState array enable am
  | A_ClientActiveTexture texture => glClientActiveTexture texture am
  | A_BindBuffer target buffer bo => glBindBuffer target buffer bo am
  | A_DeleteBuffers names => glDeleteBuffers names am
  | A_PickFetchers fm => pick_fetchers fm am
  end.

(** The array has no data yet, or was described by a command that checked it. *)
Definition array_ok (sizes : Z -> bool) (types : Z -> bool) (a : array_t) : Prop :=
  has_data a = true -> sizes (a_size a) = true /\ types (a_type a) = true.
Definition coord_size (size : Z) : bool := (2 <=? size) && (size <=? 4).

Definition arrays_ok (am : array_machine_t) : Prop :=
  array_ok coord_size coord_type (am_vertex am) /\ array_ok (Z.eqb 3) coord_type (am_normal am) /\
  array_ok (Z.eqb 4) color_type (am_color am) /\ Forall (array_ok coord_size coord_type) (am_texture am).

Lemma types_u16 type : coord_type type = true \/ color_type type = true -> u16 type = type.
Proof.
  unfold coord_type, color_type. rewrite !orb_true_iff, !Z.eqb_eq.
  intros [[[[-> | ->]| ->]| ->]|[[-> | ->]| ->]]; done.
Qed.

Lemma array_init_ok sizes types size type stride pointer bo a :
  (forall t, types t = true -> u16 t = t) -> sizes size = true -> types type = true ->
  array_ok sizes types (array_init size type stride pointer bo 0 a).
Proof. intros Ht Hs H _. cbn. by rewrite Ht. Qed.

Lemma array_ok_same sizes types a a' :
  a_size a' = a_size a -> a_type a' = a_type a -> (has_data a' = true -> has_data a = true) ->
  array_ok sizes types a -> array_ok sizes types a'.
Proof. unfold array_ok. intros -> -> H Ha Hd. auto. Qed.

Lemma has_data_unbind name a : has_data (a <| a_bo ::= unbind name |>) = true -> has_data a = true.
Proof.
  unfold has_data, unbind. cbn. destruct (a_bo a) as [b|]; [done|]. done.
Qed.

Lemma array_ok_unbind sizes types name a : array_ok sizes types a -> array_ok sizes types (a <| a_bo ::= unbind name |>).
Proof. apply array_ok_same; [done..|]. apply has_data_unbind. Qed.

Lemma arrays_ok_error e am : arrays_ok am -> arrays_ok (ogles_error e am).
Proof. intros H. unfold ogles_error. by destruct (am_error am =? GGL_NO_ERROR). Qed.

Lemma arrays_ok_unbind am name : arrays_ok am -> arrays_ok (unbind_buffer am name).
Proof.
  intros H. unfold unbind_buffer. destruct (name =? 0); [done|]. destruct H as (Hv & Hn & Hc & Ht).
  split_and!; [by apply array_ok_unbind..|]. cbn. apply Forall_map. eapply Forall_impl; [exact Ht|].
  intros a. apply array_ok_unbind.
Qed.

Lemma pick_same a a' : a_bo a' = a_bo a -> a_pointer a' = a_pointer a -> has_data a' = true -> has_data a = true.
Proof. unfold has_data. by intros -> ->. Qed.

Lemma arrays_ok_pick fm am : arrays_ok am -> arrays_ok (pick_fetchers fm am).
Proof.
  intros (Hv & Hn & Hc & Ht). split_and!; cbn.
  - unfold pick_vertex. by destruct (a_enable _).
  - unfold pick_normal. by destruct (a_enable _).
  - unfold pick_color. by destruct (a_enable _).
  - generalize (fm_units fm). induction Ht as [|a l Ha _ IH]; intros [|on us]; cbn; [constructor..|].
    constructor; [|apply IH]. unfold pick_texture. by destruct (_ && _).
Qed.

Create HintDb arrays.
#[local] Hint Resolve arrays_ok_error arrays_ok_unbind arrays_ok_pick : arrays.

Lemma pointer_size size stride : (size <? 2) || (4 <? size) || (stride <? 0) = false -> coord_size size = true.
Proof. unfold coord_size. rewrite !orb_false_iff, !Z.ltb_ge, andb_true_iff, !Z.leb_le. lia. Qed.

Lemma alter_ok f (P : array_t -> Prop) l i : (forall a, P a -> P (f a)) -> Forall P l -> Forall P (alter f i l).
Proof. intros Hf H. by apply Forall_alter; [|intros; apply Hf]. Qed.

Lemma exec_array_ok cmd am : arrays_ok am -> arrays_ok (exec_array cmd am).
Proof.
  intros H. pose proof H as (Hv & Hn & Hc & Ht).
  destruct cmd as [size type stride pointer|size type stride pointer|type stride pointer|size type stride pointer
    |array en|texture|target b bo|names|fm]; cbn [exec_array].
  - unfold glVertexPointer. destruct (_ || _) eqn:E; [auto with arrays|]. destruct (coord_type type) eqn:T; cbn [negb]; [|auto with arrays].
    split_and!; [|done..]. apply array_init_ok; [intros t ?; apply types_u16; auto|by apply (pointer_size _ stride)|done].
  - unfold glColorPointer. destruct (_ || _) eqn:E; [auto with arrays|]. destruct (color_type type) eqn:T; cbn [negb]; [|auto with arrays].
    split_and!; [done|done| |done]. apply array_init_ok; [intros t ?; apply types_u16; auto| |done].
    rewrite orb_false_iff, negb_false_iff, Z.eqb_eq in E. apply Z.eqb_eq. lia.
  - unfold glNormalPointer. destruct (stride <? 0); [auto with arrays|]. destruct (coord_type type) eqn:T; cbn [negb]; [|auto with arrays].
    split_and!; [done| |done|done]. apply array_init_ok; [intros t ?; apply types_u16; auto|done..].
  - unfold glTexCoordPointer. destruct (_ || _) eqn:E; [auto with arrays|]. destruct (coord_type type) eqn:T; cbn [negb]; [|auto with arrays].
    split_and!; [done..|]. apply alter_ok; [|done]. intros a _.
    apply array_init_ok; [intros t ?; apply types_u16; auto|by apply (pointer_size _ stride)|done].
  - unfold enableDisableClientState. repeat case_match; auto with arrays; split_and!; try done.
    apply alter_ok; [|done]. intros a. by apply array_ok_same.
  - unfold glClientActiveTexture. case_match; auto with arrays.
  - unfold glBindBuffer. repeat case_match; auto with arrays; done.
  - revert am H Hv Hn Hc Ht. unfold glDeleteBuffers. induction names as [|n names IH]; intros am H _ _ _ _; [done|].
    cbn. apply (arrays_ok_unbind am n) in H. by apply IH; [done|apply H..].
  - auto with arrays.
Qed.

Inductive arrays_reachable : array_machine_t -> Prop :=
  | ar_init : arrays_reachable ogles_init_array
  | ar_step am cmd : arrays_reachable am -> arrays_reachable (exec_array cmd am).

Lemma arrays_reachable_ok am : arrays_reachable am -> arrays_ok am.
Proof.
  induction 1 as [|am cmd _ IH]; [|by apply exec_array_ok].
  split_and!; [by intros ?..|]. by repeat constructor.
Qed.

(** The tables have an entry for what the commands accept. *)
Lemma coord_entry size type : coord_size size = true -> coord_type type = true ->
  is_Some (vertex_fct (size - 2) type) /\ is_Some (texture_fct (size - 2) type) /\ is_Some (normal_fct 0 type).
Proof.
  unfold coord_size, coord_type. rewrite !orb_true_iff, andb_true_iff, !Z.eqb_eq, !Z.leb_le. intros Hs Ht.
  assert (In size [2; 3; 4]) as Hi by (cbn; lia). assert (In type [GL_BYTE; GL_SHORT; GL_FIXED; GL_FLOAT]) as Hj by (destruct Ht as [[[-> | ->]| ->]| ->]; cbn; tauto).
  clear Hs Ht. destruct Hi as [<-|[<-|[<-|[]]]], Hj as [<-|[<-|[<-|[<-|[]]]]]; split_and!; by eexists.
Qed.

Lemma color_entry type : color_type type = true -> is_Some (color_fct 1 type) /\ is_Some (color_clamp_fct 1 type).
Proof.
  unfold color_type. rewrite !orb_true_iff, !Z.eqb_eq.
  intros [[-> | ->]| ->]; split; by eexists.
Qed.

Lemma picked_fetchers fm am : arrays_ok am ->
  let am' := pick_fetchers fm am in
  is_Some (a_fetch (am_vertex am')) /\ is_Some (a_fetch (am_normal am')) /\
  is_Some (a_fetch (am_color am')) /\ Forall (fun a => is_Some (a_fetch a)) (am_texture am').
Proof.
  intros (Hv & Hn & Hc & Ht). cbn. split_and!.
  - unfold pick_vertex. destruct (a_enable _); [|by eexists]. cbn. change (has_data (array_resolve ?a)) with (has_data a).
    destruct (has_data _) eqn:E; [|by eexists]. destruct (Hv E) as [S T]. by apply coord_entry.
  - unfold pick_normal. destruct (a_enable _); [|by eexists]. cbn. change (has_data (array_resolve ?a)) with (has_data a).
    destruct (has_data _) eqn:E; [|by eexists]. destruct (Hn E) as [S%Z.eqb_eq T]. rewrite <-S.
    by apply (coord_entry 3).
  - unfold pick_color. destruct (a_enable _); [|by eexists]. cbn. change (has_data (array_resolve ?a)) with (has_data a).
    destruct (has_data _) eqn:E; [|by eexists]. destruct (Hc E) as [S%Z.eqb_eq T]. rewrite <-S.
    destruct (fm_lighting fm); by apply color_entry.
  - generalize (fm_units fm). induction Ht as [|a l Ha _ IH]; intros [|on us]; cbn; [constructor..|].
    constructor; [|apply IH]. unfold pick_texture. destruct (on && a_enable a); [|by eexists].
    cbn. change (has_data (array_resolve a)) with (has_data a).
    destruct (has_data a) eqn:E; [|by eexists]. destruct (Ha E) as [S T]. by apply coord_entry.
Qed.

(** C28: Whatever arrays the client describes, enables, binds to buffers and
    deletes the buffers of, every fetcher picked for drawing is an entry of its
    table: no index is out of the table and no null pointer is called. *)
Theorem fetchers_exist fm am :
  arrays_reachable am ->
  let am' := pick_fetchers fm am in
  is_Some (a_fetch (am_vertex am')) /\ is_Some (a_fetch (am_normal am')) /\
  is_Some (a_fetch (am_color am')) /\ Forall (fun a => is_Some (a_fetch a)) (am_texture am').
Proof. intros H. by apply picked_fetchers, arrays_reachable_ok. Qed.

(** A client does not pick the fetchers; its commands keep the arrays of the
    texture units. *)
Definition client_array (cmd : array_command) : Prop := match cmd with A_PickFetchers _ => False | _ => True end.
Lemma exec_array_units cmd am : client_array cmd -> length (am_texture (exec_array cmd am)) = length (am_texture am).
Proof.
  assert (forall e am, am_texture (ogles_error e am) = am_texture am) as He by (intros e a; unfold ogles_error; by destruct (_ =? _)).
  destruct cmd; cbn [exec_array client_array]; intros Hc; try done.
  - unfold glVertexPointer. repeat case_match; by rewrite ?He.
  - unfold glColorPointer. repeat case_match; by rewrite ?He.
  - unfold glNormalPointer. repeat case_match; by rewrite ?He.
  - unfold glTexCoordPointer. repeat case_match; rewrite ?He; try done. cbn. by rewrite length_alter.
  - unfold enableDisableClientState. repeat case_match; rewrite ?He; try done. cbn. by rewrite length_alter.
  - unfold glClientActiveTexture. case_match; by rewrite ?He.
  - unfold glBindBuffer. repeat case_match; by rewrite ?He.
  - unfold glDeleteBuffers. revert am. induction names as [|n names IH]; intros am; [done|]. cbn. rewrite IH.
    unfold unbind_buffer. destruct (n =? 0); [done|]. cbn. by rewrite length_map.
Qed.

(** ** What a fetcher reads *)

Definition type_bytes (type : Z) : Z :=
  if type =? GL_BYTE then 1 else if type =? GL_UNSIGNED_BYTE then 1 else if type =? GL_SHORT then 2 else 4.

(** The two memories hold the same bytes in the [n] from [p] on. *)
Definition agree (m m' : mem) (p n : Z) : Prop := forall i, 0 <= i < n -> m (p + i) = m' (p + i).

Lemma load16_agree m m' p n o : agree m m' p n -> 0 <= o -> o + 2 <= n -> load16 m (p + o) = load16 m' (p + o).
Proof. intros H H0 Hn. unfold load16. rewrite <-Z.add_assoc. by rewrite !H by lia. Qed.
Lemma load32_agree m m' p n o : agree m m' p n -> 0 <= o -> o + 4 <= n -> load32 m (p + o) = load32 m' (p + o).
Proof. intros H H0 Hn. unfold load32. rewrite <-Z.add_assoc. by rewrite !(load16_agree m m' p n) by (done || lia). Qed.

(** An item of the width of [type]. *)
Definition local_item (w : Z) (item : mem -> Z -> Z -> Z) : Prop :=
  forall m m' p n i, agree m m' p n -> 0 <= i -> w * i + w <= n -> item m p i = item m' p i.
Lemma local_b f : local_item 1 (fun m p i => f (ld_b m p i)).
Proof. intros m m' p n i H Hi Hn. unfold ld_b, load8. by rewrite H by lia. Qed.
Lemma local_ub f : local_item 1 (fun m p i => f (ld_ub m p i)).
Proof. intros m m' p n i H Hi Hn. unfold ld_ub, load8. by rewrite H by lia. Qed.
Lemma local_s f : local_item 2 (fun m p i => f (ld_s m p i)).
Proof. intros m m' p n i H Hi Hn. unfold ld_s. by rewrite (load16_agree m m' p n) by (done || lia). Qed.
Lemma local_x f : local_item 4 (fun m p i => f (ld_x m p i)).
Proof. intros m m' p n i H Hi Hn. unfold ld_x. by rewrite (load32_agree m m' p n) by (done || lia). Qed.
Lemma local_f f : local_item 4 (fun m p i => f (ld_f m p i)).
Proof. intros m m' p n i H Hi Hn. unfold ld_f. by rewrite (load32_agree m m' p n) by (done || lia). Qed.

Lemma local_map w item l m m' p n : local_item w item -> 0 < w ->
  Forall (fun i => 0 <= i /\ w * i + w <= n) l -> agree m m' p n -> map (item m p) l = map (item m' p) l.
Proof. intros Hi Hw Hl H. induction Hl as [|i l [H0 Hn] _ IH]; cbn; [done|]. by rewrite IH, (Hi m m' p n). Qed.

(** The fetcher stores [size] values, made of the bytes of the element alone. *)
Definition fetches (f : mem -> Z -> list Z) (size type : Z) : Prop :=
  forall m p, length (f m p) = Z.to_nat size /\
    forall m', agree m m' p (size * type_bytes type) -> f m p = f m' p.

Ltac local_tac :=
  intros m p; split; [reflexivity|]; intros m' H;
  cbv beta delta [fetch2b fetch2s fetch2x fetch2f fetch3b fetch3s fetch3x fetch3f fetch4b fetch4s fetch4x fetch4f];
  first
    [ refine (local_map 1 (fun m p i => gglIntToFixed (ld_b m p i)) _ m m' p _ (local_b _) _ _ H)
    | refine (local_map 2 (fun m p i => gglIntToFixed (ld_s m p i)) _ m m' p _ (local_s _) _ _ H)
    | refine (local_map 4 ld_x _ m m' p _ (local_x (fun z => z)) _ _ H)
    | refine (local_map 4 ld_f _ m m' p _ (local_f (fun z => z)) _ _ H) ];
  [lia|]; repeat constructor; vm_compute; discriminate.


(** Vertices of two fixed-point coordinates are fetched as three: the third is
    what follows in memory, not 0. *)
Lemma fetch_fixed_pair m p :
  vertex_fct 0 GL_FIXED = Some (use_fetch fetch3x) /\
  fetch3x m p = [ld_x m p 0; ld_x m p 1; ld_x m p 2].
Proof. split; reflexivity. Qed.

(** ** Examples *)

Definition example_arrays : array_machine_t := Eval vm_compute in
  fold_left (fun am cmd => exec_array cmd am)
    [A_BindBuffer GL_ARRAY_BUFFER 7 (Some (mk_buffer_ref 7 0x5000));
     A_VertexPointer 3 GL_SHORT 0 16; A_ClientState GL_VERTEX_ARRAY true;
     A_ColorPointer 4 GL_UNSIGNED_BYTE 8 0; A_ClientState GL_COLOR_ARRAY true; A_DeleteBuffers [7]]
    ogles_init_array.

Lemma example_arrays_reachable : arrays_reachable example_arrays.
Proof.
  change example_arrays with
    (exec_array (A_DeleteBuffers [7]) (exec_array (A_ClientState GL_COLOR_ARRAY true)
      (exec_array (A_ColorPointer 4 GL_UNSIGNED_BYTE 8 0) (exec_array (A_ClientState GL_VERTEX_ARRAY true)
        (exec_array (A_VertexPointer 3 GL_SHORT 0 16)
          (exec_array (A_BindBuffer GL_ARRAY_BUFFER 7 (Some (mk_buffer_ref 7 0x5000))) ogles_init_array)))))).
  repeat constructor.
Qed.

Lemma fetchers_exist_witness :
  exists f, a_fetch (am_vertex (pick_fetchers (mk_fetch_mode false [true; false]) example_arrays)) = Some f.
Proof.
  destruct (fetchers_exist (mk_fetch_mode false [true; false]) example_arrays example_arrays_reachable) as ([f E] & _).
  exists f. exact E.
Defined.

