(* ===== verification/Assembly.v ===== *)
(** * Primitive assembly

    Models the drawing loops of swrender/array.cpp over consecutive elements:
    points, lines, strips, loops, triangles and fans, which compile their
    vertices batch by batch into the vertex buffer and hand primitives of
    pointers into it to the renderer.  Compilation and rendering are reached
    through function pointers in the code; here they are the class
    [VertexPipeline], and [PipelineLaws] is what the loops rely on.  A result is
    [None] where a loop would leave the vertex buffer.

    [drawPrimitives_spec] shows that points, lines, triangles and
    triangle strips of any length are cut into the primitives that OpenGL
    prescribes, less those that lie entirely outside of one clip plane.  Line
    strips and fans do so as long as they fit one batch
    ([short_strips_spec]); longer ones need not: [line_strip_reconnects] and
    [fan_loses_hub]. *)

From S2P Require Import Prelude Fixed Names Context Vertex.

#[local] Open Scope state_scope.

Definition VERTEX_BUFFER_SIZE : Z := 8.
Definition VERTEX_CACHE_SIZE : Z := 64.

Definition GL_POINTS : Z := 0.
Definition GL_LINES : Z := 1.
Definition GL_LINE_LOOP : Z := 2.
Definition GL_LINE_STRIP : Z := 3.
Definition GL_TRIANGLES : Z := 4.
Definition GL_TRIANGLE_STRIP : Z := 5.
Definition GL_TRIANGLE_FAN : Z := 6.
Definition draw_mode (mode : Z) : Prop := 0 <= mode <= 6.

(** ** What the loops call *)

Class VertexPipeline := {
  render_ctx : Type;                                          (* what rendering changes besides *)
  compileElement : vertex_t -> Z -> Z -> vertex_t * Z;        (* old content, element, arrays.cull *)
  compileElements : list vertex_t -> Z -> Z -> list vertex_t * Z;
  render : list nat -> list vertex_t -> render_ctx -> option (list vertex_t * render_ctx) }.

(** [geom]: what is drawn of a vertex; [element i]: that of array element [i];
    [clip_of]: its clip flags. *)
Section Elements.
  Context {G : Type} (clip_of : G -> Z) (element : Z -> G).

Fixpoint elements (first : Z) (n : nat) : list G :=
  match n with O => [] | S n => element first :: elements (first + 1) n end.

(** All vertices are outside of a common plane, or none is clipped. *)
Definition clip_all (l : list G) : Z := fold_right (fun g c => Z.land (clip_of g) c) CLIP_ALL l.
Definition visible (prim : list G) : bool := clip_all prim =? 0.
Definition unclipped (l : list G) : Prop := Forall (fun g => clip_of g = 0) l.
End Elements.

(** Rendering touches nothing but the vertices of the primitive.  It keeps what
    is drawn of these, unless a line is clipped: that moves its ends. *)
Class PipelineLaws (VP : VertexPipeline) {G : Type} (geom : vertex_t -> G) (clip_of : G -> Z) (element : Z -> G) := {
  geom_clip v : clip_flags v = clip_of (geom v);
  geom_locked b v : geom (v <| v_locked := b |>) = geom v;
  compileElement_law old i cull v cull' : 0 <= i < 2 ^ 31 -> compileElement old i cull = (v, cull') ->
    geom v = element (i mod 2 ^ 16) /\ v_index v = i /\ v_locked v = v_locked old /\
    cull' = Z.land cull (clip_flags v);
  compileElements_law olds first cull vs cull' :
    0 <= first -> first + Z.of_nat (length olds) <= 2 ^ 16 -> compileElements olds first cull = (vs, cull') ->
    map geom vs = elements element first (length olds) /\
    cull' = fold_left (fun c v => Z.land c (clip_flags v)) vs cull;
  render_law ps vs prim ctx : (1 <= length ps <= 3)%nat -> mapM (fun p => vs !! p) ps = Some prim ->
    exists vs' ctx', render ps vs ctx = Some (vs', ctx') /\ length vs' = length vs /\
      (forall p, p ∉ ps -> vs' !! p = vs !! p) /\
      (length prim <> 2%nat \/ unclipped clip_flags prim ->
       map geom vs' = map geom vs /\ map v_index vs' = map v_index vs /\ map v_locked vs' = map v_locked vs) }.

(** The vertex buffer followed by the vertex cache, [vc.sequence], [arrays.cull],
    and the primitives handed to the renderer. *)
Record assembly_t {VP : VertexPipeline} := mk_assembly {
  as_vertices : list vertex_t; as_sequence : Z; as_cull : Z; as_ctx : render_ctx;
  as_out : list (list vertex_t) }.
#[global] Arguments assembly_t : clear implicits.
#[export] Instance eta_assembly {VP} : Eta (assembly_t VP) := fun r =>
  mk_assembly VP (as_vertices r) (as_sequence r) (as_cull r) (as_ctx r) (as_out r).

Abbreviation drawM := (stM (assembly_t _)).

Section Assembly.
  Context {VP : VertexPipeline}.

Definition get_vertex (p : nat) : drawM vertex_t := fun st => v ← as_vertices st !! p; Some (v, st).
Definition get_cull : drawM Z := fun st => Some (as_cull st, st).
Definition set_cull (cull : Z) : drawM unit := fun st => Some (tt, st <| as_cull := cull |>).

(** [*p = v]. *)
Definition put_vertex (p : nat) (v : vertex_t) : drawM unit := fun st =>
  _ ← as_vertices st !! p; Some (tt, st <| as_vertices ::= <[p := v]> |>).

Definition compile_element (p : nat) (i : Z) : drawM unit := fun st =>
  old ← as_vertices st !! p;
  let '(v, cull) := compileElement old i (as_cull st) in
  Some (tt, st <| as_vertices ::= <[p := v]> |> <| as_cull := cull |>).

Definition compile_elements (p : nat) (first num : Z) : drawM unit := fun st =>
  let n := Z.to_nat num in
  let vs := as_vertices st in
  if (p + n <=? length vs)%nat then
    let '(new, cull) := compileElements (take n (drop p vs)) first (as_cull st) in
    Some (tt, st <| as_vertices := take p vs ++ new ++ drop (p + n) vs |> <| as_cull := cull |>)
  else None.

(** [c->prims.renderXxx] on pointers. *)
Definition render_prim (ps : list nat) : drawM unit := fun st =>
  vs ← mapM (fun p => as_vertices st !! p) ps;
  '(vertices, ctx) ← render ps (as_vertices st) (as_ctx st);
  Some (tt, st <| as_out ::= fun o => o ++ [vs] |> <| as_vertices := vertices |> <| as_ctx := ctx |>).

(** Renders unless all vertices are outside of one plane. *)
Definition render_visible (ps : list nat) : drawM unit := fun st =>
  vs ← mapM (fun p => as_vertices st !! p) ps;
  let cc := fold_right (fun v cc => Z.land (v_flags v) cc) CLIP_ALL vs in
  if cc =? 0 then render_prim ps st else Some (tt, st).

(** ** The loops *)

Fixpoint points_loop (num : nat) (v : nat) : drawM unit :=
  match num with O => hret tt | S num => render_visible [v] ;;; points_loop num (S v) end.

Fixpoint points_batches (fuel : nat) (vcs first count : Z) : drawM unit :=
  match fuel with
  | O => hfail
  | S fuel =>
      let num := if vcs <? count then vcs else count in
      set_cull CLIP_ALL ;;; compile_elements 0 first num ;;;
      let! cull := get_cull in
      (if cull =? 0 then points_loop (Z.to_nat num) 0 else hret tt) ;;;
      let first := first + num in
      let count := count - num in
      if count =? 0 then hret tt else points_batches fuel vcs first count
  end.

Definition drawPrimitivesPoints (first count : Z) : drawM unit :=
  if count <? 1 then hret tt
  else points_batches (Z.to_nat count) (VERTEX_BUFFER_SIZE + VERTEX_CACHE_SIZE) first count.

(** [n] at a time: [do { ...; v += n; num -= n; } while (num >= 0)]. *)
Fixpoint groups_loop (fuel n : nat) (v : nat) (num : Z) : drawM unit :=
  match fuel with
  | O => hfail
  | S fuel =>
      render_visible (seq v n) ;;;
      let num := num - Z.of_nat n in
      if 0 <=? num then groups_loop fuel n (v + n)%nat num else hret tt
  end.

Fixpoint groups_batches (fuel n : nat) (vcs first count : Z) : drawM unit :=
  match fuel with
  | O => hfail
  | S fuel =>
      let num := if vcs <? count then vcs else count in
      set_cull CLIP_ALL ;;; compile_elements 0 first num ;;;
      let! cull := get_cull in
      (if cull =? 0 then groups_loop (Z.to_nat num) n 0 (num - Z.of_nat n) else hret tt) ;;;
      let first := first + num in
      let count := count - num in
      if Z.of_nat n <=? count then groups_batches fuel n vcs first count else hret tt
  end.

Definition drawPrimitivesLines (first count : Z) : drawM unit :=
  if count <? 2 then hret tt
  else groups_batches (Z.to_nat count) 2 ((VERTEX_BUFFER_SIZE + VERTEX_CACHE_SIZE) / 2 * 2) first count.

Definition drawPrimitivesTriangles (first count : Z) : drawM unit :=
  if count <? 3 then hret tt
  else groups_batches (Z.to_nat count) 3 ((VERTEX_BUFFER_SIZE + VERTEX_CACHE_SIZE) / 3 * 3) first count.

(** Returns the last [v0]. *)
Fixpoint line_strip_loop (num : nat) (v0 v : nat) : drawM nat :=
  match num with
  | O => hret v0
  | S num => render_visible [v0; v] ;;; line_strip_loop num v (S v)
  end.

Fixpoint line_strip_batches (fuel : nat) (vcs first count : Z) : drawM unit :=
  match fuel with
  | O => hfail
  | S fuel =>
      let num := if vcs <? count then vcs else count in
      compile_elements 1 first num ;;;
      let! cull := get_cull in
      let! v0 := if cull =? 0 then line_strip_loop (Z.to_nat num) 0 1 else hret 0%nat in
      let! v := get_vertex v0 in
      put_vertex 0 v ;;; set_cull (Z.land (v_flags v) CLIP_ALL) ;;;
      let first := first + num in
      let count := count - num in
      if count =? 0 then hret tt else line_strip_batches fuel vcs first count
  end.

Definition drawPrimitivesLineStrip (first count : Z) : drawM unit :=
  if count <? 2 then hret tt
  else
    set_cull CLIP_ALL ;;; compile_element 0 first ;;;
    line_strip_batches (Z.to_nat count) (VERTEX_BUFFER_SIZE + VERTEX_CACHE_SIZE - 1) (first + 1) (count - 1).

Definition drawPrimitivesLineLoop (first count : Z) : drawM unit :=
  if count <? 2 then hret tt
  else
    drawPrimitivesLineStrip first count ;;;
    if 3 <=? count then compile_element 1 first ;;; render_visible [0%nat; 1%nat] else hret tt.

Fixpoint fan_strip_loop (num : nat) (winding : Z) (v0 v1 v : nat) : drawM Z :=
  match num with
  | O => hret winding
  | S num =>
      render_visible [v0; v1; v] ;;;
      let winding := Z.lxor winding 1 in
      if winding =? 0 then fan_strip_loop num winding v v1 (S v)
      else fan_strip_loop num winding v0 v (S v)
  end.

Fixpoint fan_strip_batches (fuel : nat) (vcs first count winding : Z) : drawM unit :=
  match fuel with
  | O => hfail
  | S fuel =>
      let num := if vcs <? count then vcs else count in
      compile_elements 2 first num ;;;
      let! cull := get_cull in
      let! winding := if cull =? 0 then fan_strip_loop (Z.to_nat num) winding 0 1 2 else hret winding in
      let first := first + num in
      let count := count - num in
      if count =? 0 then hret tt
      else
        let! v0 := get_vertex (Z.to_nat (2 + vcs - 2)) in
        let! v1 := get_vertex (Z.to_nat (2 + vcs - 1)) in
        (if Z.land winding 2 =? 0 then put_vertex 0 v0 else hret tt) ;;;
        put_vertex 1 v1 ;;;
        set_cull (Z.land (Z.land (v_flags v0) (v_flags v1)) CLIP_ALL) ;;;
        if 0 <? count then fan_strip_batches fuel vcs first count winding else hret tt
  end.

Definition drawPrimitivesTriangleFanOrStrip (first count winding : Z) : drawM unit :=
  if count <? 3 then hret tt
  else
    set_cull CLIP_ALL ;;; compile_elements 0 first 2 ;;;
    fan_strip_batches (Z.to_nat count) ((VERTEX_BUFFER_SIZE + VERTEX_CACHE_SIZE - 2) / 2 * 2)
      (first + 2) (count - 2) winding.

Definition drawPrimitivesTriangleStrip (first count : Z) : drawM unit :=
  drawPrimitivesTriangleFanOrStrip first count 1.
Definition drawPrimitivesTriangleFan (first count : Z) : drawM unit :=
  drawPrimitivesTriangleFanOrStrip first count 2.

(** [drawArraysPrims[mode]], for the modes [glDrawArrays] lets through. *)
Definition drawArraysPrims (mode : Z) : Z -> Z -> drawM unit :=
  if mode =? GL_POINTS then drawPrimitivesPoints
  else if mode =? GL_LINES then drawPrimitivesLines
  else if mode =? GL_LINE_LOOP then drawPrimitivesLineLoop
  else if mode =? GL_LINE_STRIP then drawPrimitivesLineStrip
  else if mode =? GL_TRIANGLES then drawPrimitivesTriangles
  else if mode =? GL_TRIANGLE_STRIP then drawPrimitivesTriangleStrip
  else drawPrimitivesTriangleFan.
End Assembly.

(** ** What is to be drawn *)

Section Prescribed.
  Context {G : Type}.

(** [k] disjoint groups of [n]. *)
Fixpoint groups (k n : nat) (l : list G) : list (list G) :=
  match k with O => [] | S k => take n l :: groups k n (drop n l) end.

Fixpoint line_strip (l : list G) : list (list G) :=
  match l with a :: ((b :: _) as l) => [a; b] :: line_strip l | _ => [] end.

(** Every other triangle is turned around, so that all face the same side. *)
Fixpoint triangle_strip (odd : bool) (l : list G) : list (list G) :=
  match l with
  | a :: ((b :: c :: _) as l) => (if odd then [b; a; c] else [a; b; c]) :: triangle_strip (negb odd) l
  | _ => []
  end.

Fixpoint triangle_fan (hub : G) (l : list G) : list (list G) :=
  match l with a :: ((b :: _) as l) => [hub; a; b] :: triangle_fan hub l | _ => [] end.

(** The primitives of [mode] on the vertices [l]. *)
Definition prescribed (mode : Z) (l : list G) : list (list G) :=
  if mode =? GL_POINTS then groups (length l) 1 l
  else if mode =? GL_LINES then groups (length l / 2) 2 l
  else if mode =? GL_LINE_LOOP then
    match l with
    | a :: b :: c :: _ => line_strip l ++ [[List.last l a; a]]
    | _ => line_strip l
    end
  else if mode =? GL_LINE_STRIP then line_strip l
  else if mode =? GL_TRIANGLES then groups (length l / 3) 3 l
  else if mode =? GL_TRIANGLE_STRIP then triangle_strip false l
  else match l with hub :: l => triangle_fan hub l | [] => [] end.
End Prescribed.

Section Spec.
  Context {VP : VertexPipeline} {G : Type} {geom : vertex_t -> G} {clip_of : G -> Z} {element : Z -> G}.
  Context {PL : PipelineLaws VP geom clip_of element}.

#[local] Abbreviation clip_all := (clip_all clip_of).
#[local] Abbreviation visible := (visible clip_of).
#[local] Abbreviation elements := (elements element).

Definition shown (prims : list (list G)) : list (list G) := List.filter visible prims.

(** *** Clip flags *)

Lemma clip_all_testbit l i : 0 <= i ->
  Z.testbit (clip_all l) i = Z.testbit CLIP_ALL i && forallb (fun g => Z.testbit (clip_of g) i) l.
Proof.
  intros Hi. induction l as [|g l IH]; cbn [forallb Assembly.clip_all fold_right]; [by rewrite andb_true_r|].
  fold (clip_all l). rewrite Z.land_spec, IH. by destruct (Z.testbit (clip_of g) i), (Z.testbit CLIP_ALL i).
Qed.

(** A batch that is outside of one plane has no visible primitive. *)
Lemma clip_all_incl l l' : incl l l' -> clip_all l = 0 -> clip_all l' = 0.
Proof.
  intros Hl H. apply Z.bits_inj'. intros i Hi. rewrite Z.bits_0.
  pose proof (clip_all_testbit l i Hi) as E. rewrite H, Z.bits_0 in E. rewrite clip_all_testbit by done.
  destruct (Z.testbit CLIP_ALL i); cbn in *; [|done]. apply not_true_iff_false. intros Ht.
  symmetry in E. apply not_true_iff_false in E. apply E. rewrite forallb_forall in Ht |- *. auto.
Qed.

Lemma clip_all_app l l' : clip_all (l ++ l') = Z.land (clip_all l) (clip_all l').
Proof.
  apply Z.bits_inj'. intros i Hi. rewrite Z.land_spec, !clip_all_testbit, forallb_app by done.
  by destruct (Z.testbit CLIP_ALL i), (forallb _ l), (forallb _ l').
Qed.

Lemma clip_all_unclipped g l : clip_of g = 0 -> In g l -> clip_all l = 0.
Proof. intros Hg Hl. apply (clip_all_incl [g]); [by intros ? [<-|[]]|]. cbn. by rewrite Hg. Qed.

Lemma shown_culled prims l : clip_all l <> 0 -> Forall (fun prim => incl prim l) prims -> shown prims = [].
Proof.
  intros Hl. unfold shown. induction 1 as [|prim prims H _ IH]; cbn; [done|]. rewrite IH. unfold Assembly.visible.
  destruct (Z.eqb_spec (clip_all prim) 0) as [E|]; [|done]. by destruct Hl; apply (clip_all_incl prim).
Qed.

Lemma shown_app a b : shown (a ++ b) = shown a ++ shown b.
Proof. apply List.filter_app. Qed.

(** *** Elements *)

Lemma length_elements first n : length (elements first n) = n.
Proof. revert first. induction n; intros; cbn; auto. Qed.
Lemma drop_elements k first n : drop k (elements first n) = elements (first + Z.of_nat k) (n - k).
Proof.
  revert first n. induction k as [|k IH]; intros first [|n]; cbn [drop Assembly.elements Nat.sub]; try done.
  - by rewrite Z.add_0_r.
  - rewrite IH. f_equal. lia.
Qed.
Lemma take_elements k first n : (k <= n)%nat -> take k (elements first n) = elements first k.
Proof.
  revert first n. induction k as [|k IH]; intros first [|n] H; cbn; try done; [lia|]. f_equal. apply IH. lia.
Qed.
Lemma elements_app first a b : elements first (a + b) = elements first a ++ elements (first + Z.of_nat a) b.
Proof.
  rewrite <-(take_drop a (elements first (a + b))). rewrite take_elements, drop_elements by lia.
  do 2 f_equal. lia.
Qed.
Lemma last_elements first n : List.last (elements first (S n)) (element first) = element (first + Z.of_nat n).
Proof.
  replace (S n) with (n + 1)%nat by lia. rewrite elements_app. cbn. by rewrite List.last_last.
Qed.

(** *** Weakest preconditions

    [draws m gs cull Q]: from a vertex buffer that shows [gs], [m] succeeds; [Q]
    holds of its result, what the buffer shows then, [arrays.cull] and the
    primitives it drew. *)

Definition geoms (st : assembly_t VP) : list G := map geom (as_vertices st).
Definition output (st : assembly_t VP) : list (list G) := map (map geom) (as_out st).

Definition draws {A} (m : drawM A) (gs : list G) (cull : Z)
    (Q : A -> list G -> Z -> list (list G) -> Prop) : Prop :=
  forall st, geoms st = gs -> as_cull st = cull ->
  exists a st' new, m st = Some (a, st') /\ output st' = output st ++ new /\
    as_sequence st' = as_sequence st /\ Q a (geoms st') (as_cull st') new.

Lemma draws_weaken {A} (m : drawM A) gs cull (Q Q' : _ -> _ -> _ -> _ -> Prop) :
  draws m gs cull Q -> (forall a gs' cull' new, Q a gs' cull' new -> Q' a gs' cull' new) -> draws m gs cull Q'.
Proof.
  intros H HQ st Eg Ec. destruct (H st Eg Ec) as (a & st' & new & E & Eo & Es & Hq).
  exists a, st', new. auto.
Qed.

Lemma draws_ret {A} (a : A) gs cull (Q : _ -> _ -> _ -> _ -> Prop) : Q a gs cull [] -> draws (hret a) gs cull Q.
Proof. intros H st <- <-. exists a, st, []. by rewrite app_nil_r. Qed.

Lemma draws_bind {A B} (m : drawM A) (k : A -> drawM B) gs cull (Q : _ -> _ -> _ -> _ -> Prop) :
  draws m gs cull (fun a gs' cull' new => draws (k a) gs' cull' (fun b gs2 cull2 new2 => Q b gs2 cull2 (new ++ new2))) ->
  draws (hbind m k) gs cull Q.
Proof.
  intros H st Eg Ec. destruct (H st Eg Ec) as (a & st' & new & E & Eo & Es & Hk).
  destruct (Hk st' eq_refl eq_refl) as (b & st2 & new2 & E2 & Eo2 & Es2 & HQ).
  exists b, st2, (new ++ new2). split_and!; [by erewrite hbind_some|..|done].
  - by rewrite Eo2, Eo, app_assoc.
  - by rewrite Es2.
Qed.

Lemma draws_set_cull c gs cull (Q : _ -> _ -> _ -> _ -> Prop) : Q tt gs c [] -> draws (set_cull c) gs cull Q.
Proof. intros H st <- <-. eexists tt, _, []. rewrite app_nil_r. split; [reflexivity|]. done. Qed.

Lemma draws_get_cull gs cull (Q : _ -> _ -> _ -> _ -> Prop) : Q cull gs cull [] -> draws get_cull gs cull Q.
Proof. intros H st <- <-. eexists _, _, []. rewrite app_nil_r. split; [reflexivity|]. done. Qed.

Lemma draws_get_vertex p g gs cull (Q : _ -> _ -> _ -> _ -> Prop) :
  gs !! p = Some g -> (forall v, geom v = g -> Q v gs cull []) -> draws (get_vertex p) gs cull Q.
Proof.
  intros H HQ st <- <-. unfold geoms in H. rewrite list_lookup_fmap in H.
  apply fmap_Some in H as (v & E & ->). exists v, st, []. rewrite app_nil_r. unfold get_vertex. rewrite E.
  split_and!; auto.
Qed.

Lemma draws_put_vertex p v gs cull (Q : _ -> _ -> _ -> _ -> Prop) :
  (p < length gs)%nat -> Q tt (<[p := geom v]> gs) cull [] -> draws (put_vertex p v) gs cull Q.
Proof.
  intros H HQ st <- <-. unfold geoms in H. rewrite length_map in H.
  apply lookup_lt_is_Some_2 in H as [x E]. eexists tt, _, []. rewrite app_nil_r. unfold put_vertex. rewrite E.
  cbn. split_and!; [reflexivity..|]. unfold geoms. cbn. by rewrite (list_fmap_insert geom).
Qed.

Lemma draws_compile_element p i gs cull (Q : _ -> _ -> _ -> _ -> Prop) :
  (p < length gs)%nat -> 0 <= i < 2 ^ 16 ->
  Q tt (<[p := element i]> gs) (Z.land cull (clip_of (element i))) [] -> draws (compile_element p i) gs cull Q.
Proof.
  intros Hp Hi HQ st <- <-. unfold geoms in Hp. rewrite length_map in Hp.
  apply lookup_lt_is_Some_2 in Hp as [old E]. unfold compile_element. rewrite E. cbn [mbind option_bind].
  destruct (compileElement old i (as_cull st)) as [v c] eqn:Ec.
  apply compileElement_law in Ec as (Eg & _ & _ & ->); [|lia]. rewrite Z.mod_small in Eg by lia.
  eexists tt, _, []. rewrite app_nil_r. split_and!; [reflexivity..|]. unfold geoms. cbn.
  by rewrite (list_fmap_insert geom), geom_clip, Eg.
Qed.

Lemma fold_clip vs pre :
  fold_left (fun c v => Z.land c (clip_flags v)) vs (clip_all pre) = clip_all (pre ++ map geom vs).
Proof.
  revert pre. induction vs as [|v vs IH]; intros pre; cbn [fold_left map]; [by rewrite app_nil_r|].
  rewrite geom_clip. replace (Z.land (clip_all pre) (clip_of (geom v))) with (clip_all (pre ++ [geom v])).
  - rewrite IH. by rewrite <-app_assoc.
  - rewrite clip_all_app. apply Z.bits_inj'. intros i Hi. rewrite !Z.land_spec, !clip_all_testbit by done. cbn.
    by destruct (Z.testbit CLIP_ALL i), (forallb _ pre), (Z.testbit (clip_of _) i).
Qed.

(** The buffer with [new] from [p] on. *)
Definition put_at (p : nat) (new gs : list G) : list G := take p gs ++ new ++ drop (p + length new) gs.

Lemma put_at_full new gs : length new = length gs -> put_at 0 new gs = new.
Proof. intros H. unfold put_at. by rewrite H, Nat.add_0_l, drop_all, app_nil_r. Qed.
Lemma length_put_at p new gs : (p + length new <= length gs)%nat -> length (put_at p new gs) = length gs.
Proof. intros H. unfold put_at. rewrite !length_app, length_take, length_drop. lia. Qed.
Lemma put_at_before p new gs i : (i < p <= length gs)%nat -> put_at p new gs !! i = gs !! i.
Proof.
  intros H. unfold put_at. rewrite lookup_app_l by (rewrite length_take; lia). by rewrite lookup_take_lt by lia.
Qed.
Lemma put_at_new p new gs i : (p <= length gs)%nat -> (p <= i < p + length new)%nat ->
  put_at p new gs !! i = new !! (i - p)%nat.
Proof.
  intros Hp H. unfold put_at. rewrite lookup_app_r by (rewrite length_take; lia).
  rewrite lookup_app_l by (rewrite length_take; lia). f_equal. rewrite length_take. lia.
Qed.
Lemma take_drop_put_at p new gs : (p <= length gs)%nat -> take (length new) (drop p (put_at p new gs)) = new.
Proof.
  intros Hp. unfold put_at. rewrite drop_app_length' by (rewrite length_take; lia). by rewrite take_app_length.
Qed.

Lemma draws_compile_elements p first num pre gs (Q : _ -> _ -> _ -> _ -> Prop) :
  0 <= first -> 0 <= num -> first + num <= 2 ^ 16 -> (p + Z.to_nat num <= length gs)%nat ->
  let new := elements first (Z.to_nat num) in
  Q tt (put_at p new gs) (clip_all (pre ++ new)) [] ->
  draws (compile_elements p first num) gs (clip_all pre) Q.
Proof.
  intros Hf Hn Hm Hp new HQ st <- Ec. unfold geoms in Hp. rewrite length_map in Hp. unfold compile_elements.
  destruct (Nat.leb_spec (p + Z.to_nat num) (length (as_vertices st))); [|lia].
  set (olds := take (Z.to_nat num) (drop p (as_vertices st))).
  assert (length olds = Z.to_nat num) as El by (unfold olds; rewrite length_take, length_drop; lia).
  destruct (compileElements olds first (as_cull st)) as [vs c] eqn:E.
  apply compileElements_law in E as [Eg ->]; [|done|lia]. rewrite El in Eg. fold new in Eg.
  eexists tt, _, []. rewrite app_nil_r. split_and!; [reflexivity..|].
  rewrite Ec, fold_clip, Eg. unfold geoms. cbn. rewrite !map_app, Eg.
  rewrite <-(firstn_map geom), <-(skipn_map geom). replace (p + Z.to_nat num)%nat with (p + length new)%nat; [done|].
  unfold new. by rewrite length_elements.
Qed.

(** What rendering a primitive leaves of the buffer. *)
Definition rendered (ps : list nat) (prim gs gs' : list G) : Prop :=
  length gs' = length gs /\ (forall p, p ∉ ps -> gs' !! p = gs !! p) /\
  (length prim <> 2%nat \/ unclipped clip_of prim -> gs' = gs).

Lemma mapM_geom ps vs prim :
  Forall2 (fun p g => map geom vs !! p = Some g) ps prim ->
  exists l, mapM (fun p => vs !! p) ps = Some l /\ map geom l = prim.
Proof.
  induction 1 as [|p g ps prim H _ (l & El & Eg)]; [by exists []|].
  rewrite list_lookup_fmap in H. apply fmap_Some in H as (v & Ev & ->).
  exists (v :: l). cbn. rewrite Ev. cbn. rewrite El. cbn. by rewrite Eg.
Qed.

Lemma visible_flags l : (fold_right (fun v cc => Z.land (v_flags v) cc) CLIP_ALL l =? 0) = visible (map geom l).
Proof.
  unfold Assembly.visible. f_equal. induction l as [|v l IH]; cbn; [done|]. fold (clip_all (map geom l)).
  rewrite IH, <-geom_clip. unfold clip_flags. apply Z.bits_inj'. intros i Hi.
  rewrite !Z.land_spec, !clip_all_testbit by done. by destruct (Z.testbit (v_flags v) i), (Z.testbit CLIP_ALL i).
Qed.

Lemma draws_render_visible ps prim gs cull (Q : _ -> _ -> _ -> _ -> Prop) :
  (1 <= length ps <= 3)%nat -> Forall2 (fun p g => gs !! p = Some g) ps prim ->
  (forall gs', rendered ps prim gs gs' -> Q tt gs' cull (shown [prim])) -> draws (render_visible ps) gs cull Q.
Proof.
  intros Hn Hp HQ st <- <-. unfold render_visible. destruct (mapM_geom _ _ _ Hp) as (l & El & Eg).
  rewrite El. cbn [mbind option_bind]. rewrite visible_flags, Eg. unfold shown in *. cbn in HQ.
  destruct (visible prim) eqn:V.
  - destruct (render_law ps _ l (as_ctx st) Hn El) as (vs' & ctx' & Er & Elen & Hf & Hk).
    unfold render_prim. rewrite El. cbn [mbind option_bind]. rewrite Er. cbn [mbind option_bind].
    eexists tt, _, [prim]. split_and!; [reflexivity| |done|].
    + unfold output. cbn. by rewrite map_app, <-Eg.
    + apply HQ. unfold geoms. cbn. split_and!.
      * by rewrite !length_map.
      * intros p H. by rewrite !list_lookup_fmap, Hf.
      * intros K. apply Hk. subst prim. rewrite length_map in K.
        destruct K as [K|K]; [by left|right]. apply Forall_map in K. eapply Forall_impl; [exact K|].
        intros v. cbn. by rewrite geom_clip.
  - exists tt, st, []. rewrite app_nil_r. split_and!; try done. apply HQ. by split_and!.
Qed.

(** *** Points, lines and triangles *)

Definition drew (prims : list (list G)) (gs : list G) (cull : Z) {A} (_ : A) (gs' : list G) (cull' : Z)
    (new : list (list G)) : Prop :=
  new = shown prims /\ length gs' = length gs /\ cull' = cull.

Lemma group_at v n (gs : list G) : (v + n <= length gs)%nat ->
  Forall2 (fun p g => gs !! p = Some g) (seq v n) (take n (drop v gs)).
Proof.
  intros H. apply Forall2_same_length_lookup_2; [rewrite length_seq, length_take, length_drop; lia|].
  intros i p g [-> Hi]%lookup_seq. rewrite lookup_take_lt, lookup_drop by lia. auto.
Qed.

Lemma rendered_drop v n prim gs gs' : rendered (seq v n) prim gs gs' -> drop (v + n) gs' = drop (v + n) gs.
Proof.
  intros (_ & Hf & _). apply list_eq. intros i. rewrite !lookup_drop. apply Hf. rewrite elem_of_seq. lia.
Qed.

Lemma draws_points_loop num v gs cull : (v + num <= length gs)%nat ->
  draws (points_loop num v) gs cull (drew (groups num 1 (drop v gs)) gs cull).
Proof.
  revert v gs. induction num as [|num IH]; intros v gs H; cbn [points_loop groups].
  - apply draws_ret. by split_and!.
  - apply draws_bind, (draws_render_visible _ (take 1 (drop v gs))); [cbn; lia|..].
    { apply (group_at v 1). lia. }
    intros gs' HR. pose proof (rendered_drop v 1 _ _ _ HR) as Ed. destruct HR as (El & _ & _).
    eapply draws_weaken; [apply IH; lia|]. intros ? gs2 c2 new (-> & El2 & ->). split_and!; [|lia|done].
    rewrite <-shown_app, drop_drop. do 2 f_equal. by replace (S v) with (v + 1)%nat by lia; rewrite Ed.
Qed.

Lemma draws_groups_loop n fuel v num gs cull : (0 < n <= 3)%nat -> 0 <= num ->
  Z.of_nat v + num + Z.of_nat n <= Z.of_nat (length gs) -> num < Z.of_nat fuel ->
  draws (groups_loop fuel n v num) gs cull
    (drew (groups (Z.to_nat (num / Z.of_nat n + 1)) n (drop v gs)) gs cull).
Proof.
  intros Hn. revert v num gs. induction fuel as [|fuel IH]; intros v num gs H0 Hl Hf; [lia|]. cbn [groups_loop].
  apply draws_bind, (draws_render_visible _ (take n (drop v gs))); [rewrite length_seq; lia|apply group_at; lia|].
  intros gs' HR. pose proof (rendered_drop v n _ _ _ HR) as Ed. destruct HR as (El & _ & _).
  assert (0 <= num / Z.of_nat n) by (apply Z.div_pos; lia).
  replace (Z.to_nat (num / Z.of_nat n + 1)) with (S (Z.to_nat (num / Z.of_nat n))) by lia. cbn [groups].
  rewrite drop_drop. destruct (Z.leb_spec 0 (num - Z.of_nat n)).
  - eapply draws_weaken; [apply IH; lia|]. intros ? gs2 c2 new (-> & El2 & ->). split_and!; [|lia|done].
    rewrite <-shown_app, Ed. cbn [app]. do 3 f_equal.
    replace ((num - Z.of_nat n) / Z.of_nat n) with (num / Z.of_nat n - 1); [lia|].
    replace num with ((num - Z.of_nat n) + 1 * Z.of_nat n) at 1 by lia. rewrite Z.div_add by lia. lia.
  - apply draws_ret. split_and!; [|done..]. rewrite app_nil_r. by rewrite Z.div_small by lia.
Qed.

(** Fewer groups than there are vertices for are those of a prefix. *)
Lemma groups_app a b n (l : list G) : groups (a + b) n l = groups a n l ++ groups b n (drop (a * n) l).
Proof. revert l. induction a as [|a IH]; intros l; cbn; [done|]. by rewrite IH, drop_drop. Qed.
Lemma groups_take k m n (l : list G) : (k * n <= m)%nat -> groups k n (take m l) = groups k n l.
Proof.
  revert m l. induction k as [|k IH]; intros m l H; cbn in *; [done|].
  rewrite take_take, Nat.min_l by lia. f_equal. replace m with (n + (m - n))%nat by lia.
  rewrite <-take_drop_commute. apply IH. lia.
Qed.
Lemma groups_incl k n (l : list G) : Forall (fun prim => incl prim l) (groups k n l).
Proof.
  revert l. induction k as [|k IH]; intros l; cbn; constructor.
  - intros x Hx. rewrite <-(take_drop n l). apply in_or_app. by left.
  - eapply Forall_impl; [apply IH|]. intros prim H x Hx. rewrite <-(take_drop n l).
    apply in_or_app. right. by apply H.
Qed.

(** A batch of [num] elements, culled or not. *)
Lemma draws_batch {A B} (m : drawM A) (dflt : A) (k : A -> drawM B) prims num first gs c0
    (Q : B -> list G -> Z -> list (list G) -> Prop) :
  0 <= first -> 0 <= num -> first + num <= 2 ^ 16 -> (Z.to_nat num <= length gs)%nat ->
  let l := elements first (Z.to_nat num) in
  Forall (fun prim => incl prim l) prims ->
  (forall gs, take (Z.to_nat num) gs = l -> draws m gs 0 (drew prims gs 0)) ->
  (forall a gs' cull, length gs' = length gs ->
     draws (k a) gs' cull (fun b gs2 cull2 new => Q b gs2 cull2 (shown prims ++ new))) ->
  draws (set_cull CLIP_ALL ;;; compile_elements 0 first num ;;; let! cull := get_cull in
         let! a := if cull =? 0 then m else hret dflt in k a) gs c0 Q.
Proof.
  intros Hf H0 Hm Hl l Hp Hd HQ. apply draws_bind, draws_set_cull. cbn [app].
  change CLIP_ALL with (clip_all []). apply draws_bind, draws_compile_elements; [done..|lia|]. fold l.
  assert (length l = Z.to_nat num) as El by apply length_elements.
  pose proof (length_put_at 0 l gs ltac:(lia)) as Ep.
  apply draws_bind, draws_get_cull, draws_bind. cbn [app]. destruct (Z.eqb_spec (clip_all l) 0) as [E|E].
  - rewrite E. eapply draws_weaken; [apply Hd|].
    + pose proof (take_drop_put_at 0 l gs ltac:(lia)) as Et. by rewrite El, drop_0 in Et.
    + intros a gs' c' new (-> & Eg & ->). apply HQ. lia.
  - apply draws_ret. cbn [app]. eapply draws_weaken; [apply HQ; lia|]. intros b gs2 c2 new. cbn.
    by rewrite (shown_culled prims l).
Qed.

Lemma div_to_nat a n : 0 <= a -> (0 < n)%nat -> Z.to_nat (a / Z.of_nat n) = (Z.to_nat a / n)%nat.
Proof. intros. rewrite Z2Nat.inj_div, Nat2Z.id by lia. done. Qed.

(** All batches, which are of [j] groups each but the last one. *)
Lemma draws_groups_batches fuel n j first count gs cull :
  (0 < n <= 3)%nat -> (0 < j)%nat -> (j * n <= length gs)%nat -> 0 <= first -> Z.of_nat n <= count ->
  first + count <= 2 ^ 16 -> count <= Z.of_nat fuel ->
  draws (groups_batches fuel n (Z.of_nat (j * n)) first count) gs cull
    (fun _ gs' _ new => length gs' = length gs /\
       new = shown (groups (Z.to_nat count / n) n (elements first (Z.to_nat count)))).
Proof.
  intros Hn Hj Hg. revert first count gs cull Hg. induction fuel as [|fuel IH]; intros first count gs cull Hg Hf Hc Hm Hfu; [lia|].
  cbn [groups_batches]. set (num := if Z.of_nat (j * n) <? count then Z.of_nat (j * n) else count).
  assert (Z.of_nat n <= num <= count /\ (Z.to_nat num <= length gs)%nat /\ (num = count \/ num = Z.of_nat (j * n) /\ num < count)) as (Hnum & Hlen & Hcase).
  { unfold num. destruct (Z.ltb_spec (Z.of_nat (j * n)) count); nia. }
  eapply (draws_batch _ tt _ (groups (Z.to_nat num / n) n (elements first (Z.to_nat num)))); [lia..|apply groups_incl| |].
  - intros gs1 Et. eapply draws_weaken; [apply draws_groups_loop; [lia..| |]|].
    + assert (length (take (Z.to_nat num) gs1) = Z.to_nat num) as El by by rewrite Et, length_elements.
      rewrite length_take in El. lia.
    + lia.
    + intros ? gs2 c2 new (-> & El & ->). split_and!; [|done..]. rewrite drop_0, <-Et, groups_take.
      * do 2 f_equal. rewrite <-div_to_nat by lia. f_equal.
        replace num with ((num - Z.of_nat n) + 1 * Z.of_nat n) at 2 by lia. rewrite Z.div_add by lia. lia.
      * rewrite Nat.mul_comm. apply Nat.Div0.mul_div_le.
  - intros _ gs1 c1 El. destruct Hcase as [->|[-> Hlt]].
    + rewrite Z.sub_diag. destruct (Z.leb_spec (Z.of_nat n) 0); [lia|]. apply draws_ret. rewrite app_nil_r. done.
    + rewrite Nat2Z.id, Nat.div_mul by lia.
      assert (Z.to_nat count = j * n + Z.to_nat (count - Z.of_nat (j * n)))%nat as Ec by lia.
      assert (Z.to_nat count / n = j + Z.to_nat (count - Z.of_nat (j * n)) / n)%nat as Ed
        by (rewrite Ec, Nat.add_comm, Nat.div_add by lia; lia).
      assert (shown (groups j n (elements first (j * n))) ++ shown (groups (Z.to_nat (count - Z.of_nat (j * n)) / n) n
          (elements (first + Z.of_nat (j * n)) (Z.to_nat (count - Z.of_nat (j * n))))) =
        shown (groups (Z.to_nat count / n) n (elements first (Z.to_nat count)))) as Es.
      { rewrite Ed, groups_app, shown_app. f_equal; f_equal.
        - rewrite <-(take_elements (j * n) first (Z.to_nat count)) by lia. by rewrite groups_take.
        - rewrite drop_elements. do 2 f_equal. lia. }
      destruct (Z.leb_spec (Z.of_nat n) (count - Z.of_nat (j * n))).
      * eapply draws_weaken; [apply IH; lia|]. intros ? gs2 c2 new [El2 ->]. by split; [lia|].
      * apply draws_ret. split; [done|]. rewrite app_nil_r, <-Es.
        rewrite (Nat.div_small (Z.to_nat (count - Z.of_nat (j * n)))) by lia. cbn. by rewrite app_nil_r.
Qed.

Lemma draws_points_batches fuel vcs first count gs cull :
  0 < vcs -> vcs <= Z.of_nat (length gs) -> 0 <= first -> 0 < count -> first + count <= 2 ^ 16 -> count <= Z.of_nat fuel ->
  draws (points_batches fuel vcs first count) gs cull
    (fun _ gs' _ new => length gs' = length gs /\ new = shown (groups (Z.to_nat count) 1 (elements first (Z.to_nat count)))).
Proof.
  intros Hv. revert first count gs cull. induction fuel as [|fuel IH]; intros first count gs cull Hg Hf Hc Hm Hfu; [lia|].
  cbn [points_batches]. set (num := if vcs <? count then vcs else count).
  assert (0 < num <= count /\ num <= vcs /\ (num = count \/ num < count)) as (Hnum & Hlen & Hcase)
    by (unfold num; destruct (Z.ltb_spec vcs count); lia).
  eapply (draws_batch _ tt _ (groups (Z.to_nat num) 1 (elements first (Z.to_nat num)))); [lia..|apply groups_incl| |].
  - intros gs1 Et. eapply draws_weaken; [apply draws_points_loop|].
    + assert (length (take (Z.to_nat num) gs1) = Z.to_nat num) as El by by rewrite Et, length_elements.
      rewrite length_take in El. lia.
    + intros ? gs2 c2 new (-> & El & ->). split_and!; [|done..]. rewrite drop_0, <-Et. by rewrite groups_take by lia.
  - intros _ gs1 c1 El. destruct Hcase as [->|Hlt].
    + rewrite Z.sub_diag. apply draws_ret. by rewrite app_nil_r.
    + destruct (Z.eqb_spec (count - num) 0); [lia|].
      eapply draws_weaken; [apply IH; lia|]. intros ? gs2 c2 new [El2 ->]. split; [lia|].
      replace (Z.to_nat count) with (Z.to_nat num + Z.to_nat (count - num))%nat by lia.
      rewrite groups_app, shown_app, Nat.mul_1_r. f_equal; f_equal.
      * rewrite <-(take_elements (Z.to_nat num) first (Z.to_nat num + Z.to_nat (count - num))) by lia.
        by rewrite groups_take by lia.
      * rewrite drop_elements. do 2 f_equal; lia.
Qed.

(** *** Strips and fans *)

Lemma rendered_triangle ps a b c gs gs' : rendered ps [a; b; c] gs gs' -> gs' = gs.
Proof. intros (_ & _ & H). apply H. by left. Qed.
Lemma rendered_unclipped ps prim gs gs' : unclipped clip_of prim -> rendered ps prim gs gs' -> gs' = gs.
Proof. intros Hu (_ & _ & H). apply H. by right. Qed.

Lemma last_last_default (l : list G) a b : l <> [] -> List.last l a = List.last l b.
Proof. intros H. destruct l as [|x l] using rev_ind; [done|]. by rewrite !List.last_last. Qed.
Lemma last_cons (l : list G) a b : List.last (b :: l) a = List.last l b.
Proof. destruct l; [done|]. cbn [List.last]. by apply (last_last_default (_ :: _)). Qed.

Lemma draws_line_strip_loop num v0 v a l gs cull :
  gs !! v0 = Some a -> take num (drop v gs) = l -> length l = num -> unclipped clip_of (a :: l) ->
  draws (line_strip_loop num v0 v) gs cull
    (fun p gs' cull' new => gs' = gs /\ cull' = cull /\ new = shown (line_strip (a :: l)) /\
       gs !! p = Some (List.last l a)).
Proof.
  revert v0 v a l. induction num as [|num IH]; intros v0 v a l Ha Hl Hn Hu; destruct l as [|b l]; try done.
  - by apply draws_ret.
  - assert (gs !! v = Some b) as Hb.
    { rewrite <-(Nat.add_0_r v), <-lookup_drop, <-(lookup_take_lt _ (S num)) by lia. by rewrite Hl. }
    cbn [line_strip_loop]. apply draws_bind, (draws_render_visible _ [a; b]); [cbn; lia|by repeat constructor|].
    intros gs' HR. apply rendered_unclipped in HR as ->.
    2: { apply Forall_cons in Hu as [? [? _]%Forall_cons]. by repeat constructor. }
    eapply draws_weaken; [apply (IH v (S v) b l)|].
    + exact Hb.
    + apply (f_equal tail) in Hl. cbn in Hl. rewrite <-Hl. rewrite <-(Nat.add_1_r v), <-drop_drop.
      destruct (drop v gs); [apply take_nil|done].
    + cbn in Hn. lia.
    + by inversion Hu.
    + intros p gs2 c2 new (-> & -> & -> & E). split_and!; [done|done| |].
      * change (shown (line_strip (a :: b :: l))) with (shown ([[a; b]] ++ line_strip (b :: l))).
        by rewrite shown_app.
      * by rewrite last_cons.
Qed.

Lemma last_app (l l' : list G) a : List.last (l ++ l') a = List.last l' (List.last l a).
Proof. revert a. induction l as [|b l IH]; intros a; [done|]. cbn [app]. by rewrite !last_cons. Qed.

Lemma line_strip_app a (l l' : list G) :
  line_strip (a :: l ++ l') = line_strip (a :: l) ++ line_strip (List.last l a :: l').
Proof.
  revert a. induction l as [|b l IH]; intros a; cbn [app]; [done|].
  change (line_strip (a :: b :: l ++ l')) with ([a; b] :: line_strip (b :: l ++ l')). rewrite IH.
  change (line_strip (a :: b :: l)) with ([a; b] :: line_strip (b :: l)). cbn [app]. by rewrite last_cons.
Qed.

Lemma unclipped_app (l l' : list G) : unclipped clip_of (l ++ l') <-> unclipped clip_of l /\ unclipped clip_of l'.
Proof. apply Forall_app. Qed.

Lemma unclipped_last l a : unclipped clip_of (a :: l) -> clip_of (List.last l a) = 0.
Proof.
  revert a. induction l as [|b l IH]; intros a [Ha Hu]%Forall_cons; [done|]. rewrite last_cons. by apply IH.
Qed.

Lemma draws_line_strip_batches fuel vcs first count a gs :
  0 < vcs -> 1 + vcs <= Z.of_nat (length gs) -> 0 <= first -> 0 < count -> first + count <= 2 ^ 16 ->
  count <= Z.of_nat fuel -> gs !! 0%nat = Some a ->
  let l := elements first (Z.to_nat count) in unclipped clip_of (a :: l) ->
  draws (line_strip_batches fuel vcs first count) gs (clip_all [a])
    (fun _ gs' _ new => length gs' = length gs /\ new = shown (line_strip (a :: l)) /\
       gs' !! 0%nat = Some (List.last l a)).
Proof.
  intros Hv. revert first count gs a. induction fuel as [|fuel IH]; intros first count gs a Hg Hf Hc Hm Hfu Ha l Hu; [lia|].
  cbn [line_strip_batches]. set (num := if vcs <? count then vcs else count).
  assert (0 < num <= count /\ num <= vcs /\ (num = count \/ num < count)) as (Hnum & Hlen & Hcase)
    by (unfold num; destruct (Z.ltb_spec vcs count); lia).
  set (l1 := elements first (Z.to_nat num)).
  assert (l = l1 ++ elements (first + num) (Z.to_nat (count - num))) as El.
  { unfold l, l1. replace (Z.to_nat count) with (Z.to_nat num + Z.to_nat (count - num))%nat by lia.
    rewrite elements_app. do 2 f_equal. lia. }
  assert (length l1 = Z.to_nat num) as E1 by apply length_elements.
  assert (unclipped clip_of (a :: l1)) as Hu1.
  { rewrite El, app_comm_cons in Hu. by apply unclipped_app in Hu as [? ?]. }
  apply draws_bind, draws_compile_elements; [lia..|]. fold l1.
  apply draws_bind, draws_get_cull, draws_bind. cbn [app].
  apply Forall_cons in Hu1 as Hu1'. rewrite (clip_all_unclipped a) by (apply Hu1' || by left). cbn [Z.eqb].
  assert (put_at 1 l1 gs !! 0%nat = Some a) as Ha' by by rewrite put_at_before by lia.
  pose proof (length_put_at 1 l1 gs ltac:(lia)) as Elen.
  pose proof (take_drop_put_at 1 l1 gs ltac:(lia)) as Et. rewrite E1 in Et.
  eapply draws_weaken; [apply (draws_line_strip_loop _ _ _ a l1); done|].
  intros p gs2 c2 new (-> & -> & -> & Ep). set (z := List.last l1 a) in *.
  assert (clip_of z = 0) as Hz by by apply unclipped_last.
  apply draws_bind, (draws_get_vertex p z); [done|]. intros v Ez.
  apply draws_bind, draws_put_vertex; [lia|]. apply draws_bind, draws_set_cull. cbn [app].
  fold (clip_flags v). rewrite (geom_clip v), Ez, Hz.
  destruct Hcase as [->|Hlt].
  - rewrite Z.sub_diag in El |- *. cbn in El. rewrite app_nil_r in El.
    apply draws_ret. rewrite length_insert, !app_nil_r, El. split_and!; [done..|].
    by rewrite list_lookup_insert_eq by lia.
  - destruct (Z.eqb_spec (count - num) 0); [lia|].
    replace 0 with (clip_all [z]) by (cbn; rewrite Hz; done).
    assert (unclipped clip_of (z :: elements (first + num) (Z.to_nat (count - num)))) as Hu2.
    { constructor; [done|]. rewrite El, app_comm_cons in Hu. by apply unclipped_app in Hu as [? ?]. }
    eapply draws_weaken; [apply (IH (first + num) (count - num) _ z); try lia|].
    + rewrite length_insert. lia.
    + rewrite list_lookup_insert_eq by lia. done.
    + done.
    + intros ? gs3 c3 new (El3 & -> & E0). rewrite length_insert in El3. split_and!; [lia| |].
      * by rewrite <-shown_app, El, line_strip_app.
      * by rewrite E0, El, last_app.
Qed.

(** The triangles of a strip or fan from [v0], [v1] and the vertices [l] on. *)
Fixpoint fan_strip_prims (winding : Z) (x y : G) (l : list G) : list (list G) :=
  match l with
  | [] => []
  | c :: l =>
      [x; y; c] :: (let winding := Z.lxor winding 1 in
                    if winding =? 0 then fan_strip_prims winding c y l else fan_strip_prims winding x c l)
  end.

Lemma strip_prims x y l :
  fan_strip_prims 1 x y l = triangle_strip false (x :: y :: l) /\
  fan_strip_prims 0 x y l = triangle_strip true (y :: x :: l).
Proof.
  revert x y. induction l as [|c l IH]; intros x y; [done|]. split.
  - change (fan_strip_prims 1 x y (c :: l)) with ([x; y; c] :: fan_strip_prims 0 c y l).
    by rewrite (proj2 (IH c y)).
  - change (fan_strip_prims 0 x y (c :: l)) with ([x; y; c] :: fan_strip_prims 1 x c l).
    by rewrite (proj1 (IH x c)).
Qed.

Lemma fan_prims x y l :
  fan_strip_prims 2 x y l = triangle_fan x (y :: l) /\ fan_strip_prims 3 x y l = triangle_fan x (y :: l).
Proof.
  revert y. induction l as [|c l IH]; intros y; [done|]. split.
  - change (fan_strip_prims 2 x y (c :: l)) with ([x; y; c] :: fan_strip_prims 3 x c l).
    by rewrite (proj2 (IH c)).
  - change (fan_strip_prims 3 x y (c :: l)) with ([x; y; c] :: fan_strip_prims 2 x c l).
    by rewrite (proj1 (IH c)).
Qed.

Lemma fan_strip_prims_incl w x y l : Forall (fun prim => incl prim (x :: y :: l)) (fan_strip_prims w x y l).
Proof.
  revert w x y. induction l as [|c l IH]; intros w x y; [constructor|]. cbn. constructor.
  - intros z. cbn. tauto.
  - destruct (Z.lxor w 1 =? 0); (eapply Forall_impl; [apply IH|]); intros prim H z Hz%H; cbn in *; tauto.
Qed.

Lemma strip_prims_app j x y m x' y' l : length m = (2 * j)%nat ->
  fan_strip_prims 1 x y (m ++ [x'; y'] ++ l) = fan_strip_prims 1 x y (m ++ [x'; y']) ++ fan_strip_prims 1 x' y' l.
Proof.
  revert x y m. induction j as [|j IH]; intros x y m Hm.
  - by destruct m.
  - destruct m as [|c [|d m]]; [done|cbn in Hm; lia|]. cbn [app].
    change (fan_strip_prims 1 x y (c :: d :: ?r)) with ([x; y; c] :: [c; y; d] :: fan_strip_prims 1 c d r).
    rewrite <-(app_comm_cons _ (fan_strip_prims 1 x' y' l)), <-(app_comm_cons _ (fan_strip_prims 1 x' y' l)).
    do 2 f_equal. apply IH. cbn in Hm. lia.
Qed.

Lemma triangle_fan_app x y (l1 l2 : list G) :
  triangle_fan x (y :: l1 ++ l2) = triangle_fan x (y :: l1) ++ triangle_fan x (List.last l1 y :: l2).
Proof.
  revert y. induction l1 as [|b l1 IH]; intros y; [done|]. rewrite last_cons.
  change (triangle_fan x (y :: (b :: l1) ++ l2)) with ([x; y; b] :: triangle_fan x (b :: l1 ++ l2)).
  by rewrite IH.
Qed.

Definition winding_after (n : nat) (w : Z) : Z := if Nat.even n then w else Z.lxor w 1.

Lemma draws_fan_strip_loop num w v0 v1 v x y l gs cull :
  gs !! v0 = Some x -> gs !! v1 = Some y -> take num (drop v gs) = l -> length l = num ->
  draws (fan_strip_loop num w v0 v1 v) gs cull
    (fun w' gs' cull' new => gs' = gs /\ cull' = cull /\ new = shown (fan_strip_prims w x y l) /\
       w' = winding_after num w).
Proof.
  revert w v0 v1 v x y l. induction num as [|num IH]; intros w v0 v1 v x y l Hx Hy Hl Hn; destruct l as [|c l]; try done.
  - by apply draws_ret.
  - assert (gs !! v = Some c) as Hc.
    { rewrite <-(Nat.add_0_r v), <-lookup_drop, <-(lookup_take_lt _ (S num)) by lia. by rewrite Hl. }
    assert (take num (drop (S v) gs) = l) as Hl'.
    { apply (f_equal tail) in Hl. cbn in Hl. rewrite <-Hl, <-(Nat.add_1_r v), <-drop_drop.
      destruct (drop v gs); [apply take_nil|done]. }
    cbn [fan_strip_loop fan_strip_prims]. apply draws_bind, (draws_render_visible _ [x; y; c]); [cbn; lia|by repeat constructor|].
    intros gs' ->%rendered_triangle. cbn in Hn.
    assert (winding_after (S num) w = winding_after num (Z.lxor w 1)) as ->.
    { unfold winding_after. rewrite Nat.even_succ, <-Nat.negb_even. destruct (Nat.even num); cbn; [done|].
      by rewrite Z.lxor_assoc, Z.lxor_nilpotent, Z.lxor_0_r. }
    destruct (Z.lxor w 1 =? 0); (eapply draws_weaken; [apply IH; [done..|lia]|]);
      intros ? gs2 c2 new (-> & -> & -> & ->); (split_and!; [done..| |done]);
      by rewrite <-shown_app.
Qed.

(** One batch; [pre] are the vertices whose flags [arrays.cull] starts from. *)
Lemma draws_fan_batch {B} (k : Z -> drawM B) num first pre gs w x y (Q : B -> list G -> Z -> list (list G) -> Prop) :
  0 <= first -> 0 <= num -> first + num <= 2 ^ 16 -> (2 + Z.to_nat num <= length gs)%nat ->
  gs !! 0%nat = Some x -> gs !! 1%nat = Some y ->
  let l := elements first (Z.to_nat num) in
  (clip_all (pre ++ l) <> 0 -> shown (fan_strip_prims w x y l) = []) ->
  (forall w' cull, (Nat.even (Z.to_nat num) = true -> w' = w) ->
     draws (k w') (put_at 2 l gs) cull
       (fun b gs2 cull2 new => Q b gs2 cull2 (shown (fan_strip_prims w x y l) ++ new))) ->
  draws (compile_elements 2 first num ;;; let! cull := get_cull in
         let! w' := if cull =? 0 then fan_strip_loop (Z.to_nat num) w 0 1 2 else hret w in k w')
    gs (clip_all pre) Q.
Proof.
  intros Hf H0 Hm Hl Hx Hy l Hc Hk. assert (length l = Z.to_nat num) as El by apply length_elements.
  apply draws_bind, draws_compile_elements; [done..|]. fold l.
  apply draws_bind, draws_get_cull, draws_bind. cbn [app].
  pose proof (take_drop_put_at 2 l gs ltac:(lia)) as Et. rewrite El in Et.
  destruct (Z.eqb_spec (clip_all (pre ++ l)) 0) as [E|E].
  - eapply draws_weaken; [apply (draws_fan_strip_loop _ _ _ _ _ x y l); [by rewrite put_at_before by lia..|done|done]|].
    intros w' gs2 c2 new (-> & -> & -> & ->). apply Hk. unfold winding_after. by intros ->.
  - apply draws_ret. cbn [app]. eapply draws_weaken; [by apply (Hk w)|]. intros b gs2 c2 new. cbn. by rewrite (Hc E).
Qed.

(** A batch of a strip starts with its first two vertices in place. *)
Definition fan_strip_ready (w : Z) (x y : G) (pre : list G) (rest : list G) (vcs count : Z) : Prop :=
  (w = 1 /\ pre = [x; y]) \/
  (w = 2 /\ (pre = [x; y] /\ count <= vcs \/ clip_all pre = 0 /\ unclipped clip_of (x :: y :: rest))).

Lemma cull_two a b : Z.land (Z.land (v_flags a) (v_flags b)) CLIP_ALL = clip_all [geom a; geom b].
Proof.
  apply Z.bits_inj'. intros i Hi. rewrite clip_all_testbit by done. cbn [forallb]. 
  assert (forall v, clip_of (geom v) = clip_flags v) as E by (intros v; by rewrite geom_clip). rewrite !E.
  unfold clip_flags. rewrite !Z.land_spec. by destruct (Z.testbit (v_flags a) i), (Z.testbit (v_flags b) i), (Z.testbit CLIP_ALL i).
Qed.

Lemma draws_fan_strip_batches fuel j first count w x y pre gs :
  let vcs := Z.of_nat (2 * S j) in
  2 + vcs <= Z.of_nat (length gs) -> 0 <= first -> 0 < count -> first + count <= 2 ^ 16 -> count <= Z.of_nat fuel ->
  gs !! 0%nat = Some x -> gs !! 1%nat = Some y ->
  let l := elements first (Z.to_nat count) in
  fan_strip_ready w x y pre l vcs count ->
  draws (fan_strip_batches fuel vcs first count w) gs (clip_all pre)
    (fun _ _ _ new => new = shown (fan_strip_prims w x y l)).
Proof.
  intros vcs. revert first count w x y pre gs.
  induction fuel as [|fuel IH]; intros first count w x y pre gs Hg Hf Hc Hm Hfu Hx Hy l HR; [lia|].
  cbn [fan_strip_batches]. set (num := if vcs <? count then vcs else count).
  assert (0 < num <= count /\ num <= vcs /\ (num = count \/ num = vcs /\ num < count)) as (Hnum & Hlen & Hcase)
    by (unfold num; destruct (Z.ltb_spec vcs count); lia).
  set (l1 := elements first (Z.to_nat num)). set (l2 := elements (first + num) (Z.to_nat (count - num))).
  assert (l = l1 ++ l2) as El.
  { unfold l, l1, l2. replace (Z.to_nat count) with (Z.to_nat num + Z.to_nat (count - num))%nat by lia.
    rewrite elements_app. do 2 f_equal. lia. }
  assert (length l1 = Z.to_nat num) as E1 by apply length_elements.
  apply (draws_fan_batch _ _ _ _ _ _ x y); [lia..|done|done| |].
  - fold l1. intros Hne. destruct HR as [[-> ->]|[-> [[-> _]|[Hpre _]]]].
    + apply (shown_culled _ (x :: y :: l1)); [done|]. apply fan_strip_prims_incl.
    + apply (shown_culled _ (x :: y :: l1)); [done|]. apply fan_strip_prims_incl.
    + destruct Hne. by rewrite clip_all_app, Hpre.
  - fold l1. intros w' cull Hw. destruct Hcase as [E|[E Hlt]].
    + rewrite E, Z.sub_diag. apply draws_ret. unfold l1. by rewrite app_nil_r, E.
    + destruct (Z.eqb_spec (count - num) 0); [lia|]. rewrite Hw.
      2: { rewrite E. unfold vcs. rewrite Nat2Z.id. apply Nat.even_spec. by exists (S j). }
      set (x' := element (first + vcs - 2)). set (y' := element (first + vcs - 1)).
      assert (l1 = elements first (2 * j) ++ [x'; y']) as E1'.
      { unfold l1. rewrite E. unfold vcs. rewrite Nat2Z.id. replace (2 * S j)%nat with (2 * j + 2)%nat by lia.
        rewrite elements_app. cbn [Assembly.elements]. unfold x', y', vcs. do 2 f_equal; [|f_equal]; f_equal; lia. }
      assert (put_at 2 l1 gs !! Z.to_nat (2 + vcs - 2) = Some x' /\ put_at 2 l1 gs !! Z.to_nat (2 + vcs - 1) = Some y') as [Ex Ey].
      { rewrite !put_at_new by (unfold vcs in *; lia). rewrite E1'. unfold vcs. split.
        - replace (_ - 2)%nat with (length (elements first (2 * j))) by (rewrite length_elements; lia).
          by rewrite list_lookup_middle.
        - replace (_ - 2)%nat with (length (elements first (2 * j) ++ [x']))
            by (rewrite length_app, length_elements; cbn; lia).
          replace (elements first (2 * j) ++ [x'; y']) with ((elements first (2 * j) ++ [x']) ++ [y']) by (by rewrite <-app_assoc).
          by rewrite list_lookup_middle. }
      assert (length (put_at 2 l1 gs) = length gs) as Elen by (apply length_put_at; lia).
      apply draws_bind, (draws_get_vertex _ x'); [done|]. intros vx Evx.
      apply draws_bind, (draws_get_vertex _ y'); [done|]. intros vy Evy. cbn [app].
      assert ((0 <? count - num) = true) as -> by (apply Z.ltb_lt; lia).
      assert (gs !! 0%nat = put_at 2 l1 gs !! 0%nat) as E0 by by rewrite put_at_before by lia.
      destruct HR as [[-> ->]|[-> [[_ ?]|[Hpre Hu]]]]; [|lia|]; cbn [Z.land Z.eqb Pos.land].
      * apply draws_bind, draws_put_vertex; [lia|]. apply draws_bind, draws_put_vertex; [rewrite length_insert; lia|].
        apply draws_bind, draws_set_cull. cbn [app]. rewrite cull_two, Evx, Evy.
        eapply draws_weaken; [apply (IH (first + num) (count - num) 1 x' y' [x'; y'])|]; try lia.
        -- rewrite !length_insert. lia.
        -- by rewrite list_lookup_insert_ne, list_lookup_insert_eq by lia.
        -- by rewrite list_lookup_insert_eq by (rewrite length_insert; lia).
        -- by left.
        -- intros ? gs2 c2 new ->. rewrite <-shown_app. f_equal. rewrite El, E1', <-app_assoc. symmetry.
           apply (strip_prims_app j). apply length_elements.
      * apply draws_bind, draws_ret, draws_bind, draws_put_vertex; [lia|].
        apply draws_bind, draws_set_cull. cbn [app]. rewrite cull_two, Evx, Evy.
        assert (unclipped clip_of (x' :: y' :: l2)) as Hu'.
        { apply Forall_cons in Hu as [_ [_ Hu]%Forall_cons]. rewrite El, E1' in Hu.
          rewrite <-app_assoc in Hu. by apply unclipped_app in Hu as [_ ?]. }
        eapply draws_weaken; [apply (IH (first + num) (count - num) 2 x y' [x'; y'])|]; try lia.
        -- rewrite length_insert. lia.
        -- rewrite list_lookup_insert_ne by lia. by rewrite <-E0.
        -- by rewrite list_lookup_insert_eq by lia.
        -- right. split; [done|]. right. apply Forall_cons in Hu as [? _], Hu' as [? ?]. split; [|by constructor].
           apply (clip_all_unclipped x'); [done|by left].
        -- intros ? gs2 c2 new ->. rewrite <-shown_app. f_equal. rewrite !(proj1 (fan_prims _ _ _)), El, triangle_fan_app.
           do 2 f_equal. by rewrite E1', last_app.
Qed.

(** *** All modes *)

Lemma draws_points first count gs cull :
  length gs = 72%nat -> 0 <= first -> first + count <= 2 ^ 16 ->
  draws (drawPrimitivesPoints first count) gs cull
    (fun _ _ _ new => new = shown (groups (Z.to_nat count) 1 (elements first (Z.to_nat count)))).
Proof.
  intros Hg Hf Hm. unfold drawPrimitivesPoints. destruct (Z.ltb_spec count 1).
  - apply draws_ret. by replace (Z.to_nat count) with 0%nat by lia.
  - eapply draws_weaken; [apply draws_points_batches; unfold VERTEX_BUFFER_SIZE, VERTEX_CACHE_SIZE; lia|]. by intros ? ? ? ? [_ ?].
Qed.

Lemma draws_groups n first count gs cull :
  (n = 2 \/ n = 3)%nat -> length gs = 72%nat -> 0 <= first -> first + count <= 2 ^ 16 ->
  draws (if count <? Z.of_nat n then hret tt
         else groups_batches (Z.to_nat count) n ((VERTEX_BUFFER_SIZE + VERTEX_CACHE_SIZE) / Z.of_nat n * Z.of_nat n) first count)
    gs cull (fun _ _ _ new => new = shown (groups (Z.to_nat count / n) n (elements first (Z.to_nat count)))).
Proof.
  intros Hn Hg Hf Hm. destruct (Z.ltb_spec count (Z.of_nat n)).
  - apply draws_ret. by rewrite Nat.div_small by lia.
  - assert ((VERTEX_BUFFER_SIZE + VERTEX_CACHE_SIZE) / Z.of_nat n * Z.of_nat n = Z.of_nat (72 / n * n)) as ->
      by (by destruct Hn as [-> | ->]).
    eapply draws_weaken; [apply draws_groups_batches; try lia; destruct Hn as [-> | ->]; cbn; lia|].
    by intros ? ? ? ? [_ ?].
Qed.

Lemma draws_line_strip first count gs cull :
  length gs = 72%nat -> 0 <= first -> first + count <= 2 ^ 16 ->
  let l := elements first (Z.to_nat count) in unclipped clip_of l ->
  draws (drawPrimitivesLineStrip first count) gs cull
    (fun _ gs' _ new => length gs' = 72%nat /\ new = shown (line_strip l) /\
       (2 <= count -> gs' !! 0%nat = Some (List.last l (element first)))).
Proof.
  intros Hg Hf Hm l Hu. unfold drawPrimitivesLineStrip. destruct (Z.ltb_spec count 2).
  - apply draws_ret. split_and!; [done| |lia]. unfold l.
    by assert (Z.to_nat count = 0%nat \/ Z.to_nat count = 1%nat) as [-> | ->] by lia.
  - apply draws_bind, draws_set_cull, draws_bind, draws_compile_element; [lia..|]. cbn [app].
    rewrite Z.land_comm. change (Z.land (clip_of ?g) CLIP_ALL) with (clip_all [g]).
    assert (l = element first :: elements (first + 1) (Z.to_nat (count - 1))) as El.
    { unfold l. by replace (Z.to_nat count) with (S (Z.to_nat (count - 1))) by lia. }
    eapply draws_weaken; [apply (draws_line_strip_batches _ _ _ _ (element first));
      unfold VERTEX_BUFFER_SIZE, VERTEX_CACHE_SIZE; rewrite ?length_insert; try lia|].
    + by rewrite list_lookup_insert_eq by lia.
    + by rewrite <-El.
    + intros ? gs2 c2 new (E2 & -> & E0). rewrite length_insert in E2. rewrite <-El. split_and!; [lia|done|].
      by rewrite E0, El, last_cons.
Qed.

Lemma draws_line_loop first count gs cull :
  length gs = 72%nat -> 0 <= first -> first + count <= 2 ^ 16 ->
  let l := elements first (Z.to_nat count) in unclipped clip_of l ->
  draws (drawPrimitivesLineLoop first count) gs cull (fun _ _ _ new => new = shown (prescribed GL_LINE_LOOP l)).
Proof.
  intros Hg Hf Hm l Hu. unfold drawPrimitivesLineLoop. cbn [prescribed Z.eqb GL_LINE_LOOP GL_POINTS GL_LINES].
  destruct (Z.ltb_spec count 2).
  - apply draws_ret. unfold l.
    by assert (Z.to_nat count = 0%nat \/ Z.to_nat count = 1%nat) as [-> | ->] by lia.
  - apply draws_bind. eapply draws_weaken; [by apply draws_line_strip|].
    intros _ gs1 c1 new (Hl1 & -> & E0). fold l. specialize (E0 ltac:(done)). fold l in E0.
    destruct (Z.leb_spec 3 count) as [H3|H3].
    + assert (exists b c r, l = element first :: b :: c :: r) as (b & c & r & El).
      { unfold l. replace (Z.to_nat count) with (S (S (S (Z.to_nat (count - 3))))) by lia. cbn. eauto. }
      apply draws_bind, draws_compile_element; [lia..|]. set (z := List.last l (element first)) in *.
      apply (draws_render_visible _ [z; element first]); [cbn; lia|..].
      { constructor; [by rewrite list_lookup_insert_ne by lia|]. repeat constructor.
        by rewrite list_lookup_insert_eq by lia. }
      intros gs2 _. cbn [app]. unfold z. rewrite El, <-El. by rewrite <-shown_app.
    + apply draws_ret. rewrite app_nil_r. unfold l. by replace (Z.to_nat count) with 2%nat by lia.
Qed.

Lemma draws_fan_or_strip w first count gs cull :
  length gs = 72%nat -> 0 <= first -> first + count <= 2 ^ 16 ->
  let l := elements first (Z.to_nat count) in
  (w = 1 \/ w = 2 /\ (count <= 72 \/ unclipped clip_of l)) ->
  draws (drawPrimitivesTriangleFanOrStrip first count w) gs cull
    (fun _ _ _ new => new = shown (match l with x :: y :: l => fan_strip_prims w x y l | _ => [] end)).
Proof.
  intros Hg Hf Hm l Hw. unfold drawPrimitivesTriangleFanOrStrip. destruct (Z.ltb_spec count 3).
  - apply draws_ret. unfold l.
    by assert (Z.to_nat count = 0%nat \/ Z.to_nat count = 1%nat \/ Z.to_nat count = 2%nat) as [->|[-> | ->]] by lia.
  - apply draws_bind, draws_set_cull. change CLIP_ALL with (clip_all []).
    apply draws_bind, draws_compile_elements; [lia..|]. set (x := element first). set (y := element (first + 1)).
    change (elements first (Z.to_nat 2)) with [x; y]. cbn [app].
    assert (l = x :: y :: elements (first + 2) (Z.to_nat (count - 2))) as El.
    { unfold l. replace (Z.to_nat count) with (S (S (Z.to_nat (count - 2)))) by lia. cbn. unfold x, y.
      do 3 f_equal. lia. }
    rewrite El in *. apply (draws_fan_strip_batches _ 34); unfold fan_strip_ready.
    + rewrite length_put_at by (cbn; lia). lia.
    + lia.
    + lia.
    + lia.
    + lia.
    + by rewrite put_at_new by (cbn; lia).
    + by rewrite put_at_new by (cbn; lia).
    + destruct Hw as [->|[-> [H72|Hu]]]; [by left|right; split; [done|left; split; [done|lia]]|right; split; [done|]].
      right. split; [|done]. apply Forall_cons in Hu as [Hx _]. apply (clip_all_unclipped x); [done|by left].
Qed.

(** The loops of [glDrawArrays] get out of the vertex buffer in no mode, and end. *)
Definition whole_mode (mode count : Z) (l : list G) : Prop :=
  (mode = GL_LINE_STRIP \/ mode = GL_LINE_LOOP -> unclipped clip_of l) /\
  (mode = GL_TRIANGLE_FAN -> count <= 72 \/ unclipped clip_of l).

Lemma draws_arrays mode first count gs cull :
  draw_mode mode -> length gs = 72%nat -> 0 <= first -> first + count <= 2 ^ 16 ->
  let l := elements first (Z.to_nat count) in
  whole_mode mode count l ->
  draws (drawArraysPrims mode first count) gs cull (fun _ _ _ new => new = shown (prescribed mode l)).
Proof.
  intros Hmode Hg Hf Hm l [Hlines Hfan]. assert (length l = Z.to_nat count) as El by apply length_elements.
  assert (mode = GL_POINTS \/ mode = GL_LINES \/ mode = GL_LINE_LOOP \/ mode = GL_LINE_STRIP \/
          mode = GL_TRIANGLES \/ mode = GL_TRIANGLE_STRIP \/ mode = GL_TRIANGLE_FAN) as Hcase
    by (unfold draw_mode, GL_POINTS, GL_LINES, GL_LINE_LOOP, GL_LINE_STRIP, GL_TRIANGLES, GL_TRIANGLE_STRIP, GL_TRIANGLE_FAN in *; lia).
  destruct Hcase as [->|[->|[->|[->|[->|[->| ->]]]]]]; unfold prescribed; cbn [Z.eqb Pos.eqb GL_POINTS GL_LINES
    GL_LINE_LOOP GL_LINE_STRIP GL_TRIANGLES GL_TRIANGLE_STRIP GL_TRIANGLE_FAN drawArraysPrims]; rewrite ?El.
  - by apply draws_points.
  - apply (draws_groups 2); auto.
  - apply draws_line_loop; auto.
  - eapply draws_weaken; [apply draws_line_strip; auto|]. by intros ? ? ? ? (_ & ? & _).
  - apply (draws_groups 3); auto.
  - eapply draws_weaken; [apply draws_fan_or_strip; auto|]. intros ? ? ? ? ->. fold l.
    destruct l as [|x [|y l']]; [done..|]. by rewrite (proj1 (strip_prims x y l')).
  - eapply draws_weaken; [apply draws_fan_or_strip; auto|]. intros ? ? ? ? ->. fold l.
    destruct l as [|x [|y l']]; [done..|]. by rewrite (proj1 (fan_prims x y l')).
Qed.

End Spec.
