(* ===== verification/VertexCache.v ===== *)
(** * The vertex cache and indexed drawing

    Models the vertex cache of swrender/array.cpp ([vertex_cache_t::clear],
    [cache_vertex], [fetch_vertex]; [VC_CACHE_TYPE_INDEXED]) and the loops that
    draw indexed primitives through it.  The indices a loop reads are a list;
    reading past its end fails, as does leaving the vertices.

    [drawElements_spec] shows that the primitives drawn are the prescribed ones:
    a hit is never stale, and no vertex of a primitive is overwritten while it
    is in use.  For strips, loops and fans it needs neighbouring indices to
    differ: [degenerate_fan] is a fan that loses a triangle otherwise. *)

From S2P Require Import Prelude Fixed Names Context PixelFormat Surface Vertex Assembly.

#[local] Open Scope state_scope.

Definition INDEX_SEQ : Z := 2 ^ 16.

Section VertexCache.
  Context {VP : VertexPipeline}.

(** [vc.clear()]. *)
Definition clear (st : assembly_t VP) : assembly_t VP :=
  let st := st <| as_sequence ::= fun s => u32 (s + INDEX_SEQ) |> in
  if 0x80000000 <=? as_sequence st then
    st <| as_sequence := INDEX_SEQ |> <| as_vertices ::= map (fun v => v <| v_index := 0 |>) |>
  else st.

(** [p->locked = b]. *)
Definition set_locked (b : Z) (p : nat) : drawM unit := fun st =>
  _ ← as_vertices st !! p; Some (tt, st <| as_vertices ::= alter (fun v => v <| v_locked := b |>) p |>).

Definition cache_vertex (v : nat) (index : Z) : drawM nat :=
  let! vertex := get_vertex v in
  let! v :=
    if v_locked vertex =? 0 then hret v
    else
      let! v2 := get_vertex 2 in
      let! v3 := get_vertex 3 in
      hret (2 + Z.to_nat (Z.lor (v_locked v2) (Z.shiftl (v_locked v3) 1)))%nat in
  compile_element v (u32 index) ;;; set_locked 1 v ;;; hret v.

Definition fetch_vertex (index : Z) : drawM nat := fun st =>
  let index := Z.lor index (as_sequence st) in
  let v := Z.to_nat (VERTEX_BUFFER_SIZE + Z.land index (VERTEX_CACHE_SIZE - 1)) in
  (let! vertex := get_vertex v in
   if v_index vertex =? index then set_locked 1 v ;;; hret v else cache_vertex v index) st.

(** *** The loops *)

Definition fetch_next (indices : list Z) : drawM (nat * list Z) :=
  match indices with
  | [] => hfail
  | i :: indices => let! v := fetch_vertex i in hret (v, indices)
  end.

Definition compile_next (v : nat) (indices : list Z) : drawM (list Z) :=
  match indices with [] => hfail | i :: indices => compile_element v i ;;; hret indices end.

Fixpoint fetch_n (n : nat) (indices : list Z) : drawM (list nat * list Z) :=
  match n with
  | O => hret ([], indices)
  | S n =>
      let! (v, indices) := fetch_next indices in
      let! (vs, indices) := fetch_n n indices in hret (v :: vs, indices)
  end.

Fixpoint unlock (vs : list nat) : drawM unit :=
  match vs with [] => hret tt | v :: vs => set_locked 0 v ;;; unlock vs end.

(** Disjoint groups of [n]: [do { ...; count -= n; } while (count >= 0)], which
    starts from [count - n]. *)
Fixpoint indexed_groups (fuel n : nat) (count : Z) (indices : list Z) : drawM unit :=
  match fuel with
  | O => hfail
  | S fuel =>
      let! (vs, indices) := fetch_n n indices in
      render_visible vs ;;; unlock vs ;;;
      let count := count - Z.of_nat n in
      if 0 <=? count then indexed_groups fuel n count indices else hret tt
  end.

Fixpoint indexed_points (count : nat) (indices : list Z) : drawM unit :=
  match count with
  | O => hret tt
  | S count =>
      let! (v, indices) := fetch_next indices in
      render_visible [v] ;;; set_locked 0 v ;;; indexed_points count indices
  end.

Definition drawIndexedPrimitivesPoints (count : Z) (indices : list Z) : drawM unit :=
  if count <? 1 then hret tt else indexed_points (Z.to_nat count) indices.

Definition drawIndexedPrimitivesLines (count : Z) (indices : list Z) : drawM unit :=
  if count <? 2 then hret tt else indexed_groups (Z.to_nat count) 2 (count - 2) indices.

Definition drawIndexedPrimitivesTriangles (count : Z) (indices : list Z) : drawM unit :=
  if count <? 3 then hret tt else indexed_groups (Z.to_nat count) 3 (count - 3) indices.

(** Returns the last [v0]. *)
Fixpoint indexed_line_strip (count : nat) (v0 : nat) (indices : list Z) : drawM nat :=
  match count with
  | O => hret v0
  | S count =>
      let! (v1, indices) := fetch_next indices in
      render_visible [v0; v1] ;;; set_locked 0 v0 ;;; indexed_line_strip count v1 indices
  end.

(** The strip, with the last vertex unlocked. *)
Definition line_strip_from (count : Z) (indices : list Z) : drawM nat :=
  let! indices := compile_next 0 indices in
  let! v0 := indexed_line_strip (Z.to_nat (count - 1)) 0 indices in
  unlock [v0] ;;; hret v0.

Definition drawIndexedPrimitivesLineStrip (count : Z) (indices : list Z) : drawM unit :=
  if count <? 2 then hret tt else line_strip_from count indices ;;; hret tt.

Definition drawIndexedPrimitivesLineLoop (count : Z) (indices : list Z) : drawM unit :=
  if count <=? 2 then drawIndexedPrimitivesLines count indices
  else let! v0 := line_strip_from count indices in render_visible [v0; 0%nat].

(** Returns [v0], [v1] and [v2]. *)
Fixpoint indexed_fan_strip (count : nat) (winding : Z) (v0 v1 v2 : nat) (indices : list Z)
    : drawM (nat * nat * nat) :=
  match count with
  | O => hret (v0, v1, v2)
  | S count =>
      let! (v2, indices) := fetch_next indices in
      render_visible [v0; v1; v2] ;;;
      let winding := Z.lxor winding 1 in
      if winding =? 0 then set_locked 0 v0 ;;; indexed_fan_strip count winding v2 v1 v2 indices
      else set_locked 0 v1 ;;; indexed_fan_strip count winding v0 v2 v2 indices
  end.

Definition drawIndexedPrimitivesTriangleFanOrStrip (count : Z) (indices : list Z) (winding : Z) : drawM unit :=
  if count <? 3 then hret tt
  else
    let! indices := compile_next 0 indices in
    let! indices := compile_next 1 indices in
    let! (v0, v1, v2) := indexed_fan_strip (Z.to_nat (count - 2)) winding 0 1 1 indices in
    unlock [v1; v0; v2].

Definition drawIndexedPrimitivesTriangleStrip (count : Z) (indices : list Z) : drawM unit :=
  drawIndexedPrimitivesTriangleFanOrStrip count indices 1.
Definition drawIndexedPrimitivesTriangleFan (count : Z) (indices : list Z) : drawM unit :=
  drawIndexedPrimitivesTriangleFanOrStrip count indices 2.

(** [drawElementsPrims[mode]], for the modes [glDrawElements] lets through. *)
Definition drawElementsPrims (mode : Z) : Z -> list Z -> drawM unit :=
  if mode =? GL_POINTS then drawIndexedPrimitivesPoints
  else if mode =? GL_LINES then drawIndexedPrimitivesLines
  else if mode =? GL_LINE_LOOP then drawIndexedPrimitivesLineLoop
  else if mode =? GL_LINE_STRIP then drawIndexedPrimitivesLineStrip
  else if mode =? GL_TRIANGLES then drawIndexedPrimitivesTriangles
  else if mode =? GL_TRIANGLE_STRIP then drawIndexedPrimitivesTriangleStrip
  else drawIndexedPrimitivesTriangleFan.
End VertexCache.

(** [read_index] through the whole list; [bytes] for [GL_UNSIGNED_BYTE]. *)
Fixpoint read_indices (bytes : bool) (m : mem) (p : Z) (count : nat) : list Z :=
  match count with
  | O => []
  | S count =>
      (if bytes then load8 m p else load16 m p) :: read_indices bytes m (p + (if bytes then 1 else 2)) count
  end.

(** ** The cache *)

Section CacheSpec.
  Context {VP : VertexPipeline} {G : Type} {geom : vertex_t -> G} {clip_of : G -> Z} {element : Z -> G}.
  Context {PL : PipelineLaws VP geom clip_of element}.

#[local] Abbreviation shown := (shown (clip_of := clip_of)).
#[local] Abbreviation output := (output (geom := geom)).

Definition tag_ok (sequence : Z) : Prop := exists s, sequence = s * 2 ^ 16 /\ 1 <= s < 2 ^ 15.

(** What holds of the vertices while those at [locked] are locked: a tag with the
    current sequence number is never stale. *)
Record cache_ok (locked : list nat) (st : assembly_t VP) : Prop := {
  co_length : length (as_vertices st) = 72%nat;
  co_sequence : tag_ok (as_sequence st);
  co_tags k v : as_vertices st !! k = Some v -> v_index v < as_sequence st + 2 ^ 16;
  co_hit k v i : (8 <= k)%nat -> as_vertices st !! k = Some v -> 0 <= i < 2 ^ 16 ->
    v_index v = as_sequence st + i -> geom v = element i;
  co_locked k v : as_vertices st !! k = Some v -> v_locked v = if decide (k ∈ locked) then 1 else 0 }.

(** Before [clear]: no tag is ahead of the sequence number. *)
Record cache_idle (st : assembly_t VP) : Prop := {
  ci_length : length (as_vertices st) = 72%nat;
  ci_sequence : exists s, as_sequence st = s * 2 ^ 16 /\ 0 <= s < 2 ^ 15;
  ci_tags k v : as_vertices st !! k = Some v -> v_index v < as_sequence st + 2 ^ 16;
  ci_locked k v : as_vertices st !! k = Some v -> v_locked v = 0 }.

Lemma cache_ok_idle st : cache_ok [] st -> cache_idle st.
Proof.
  intros [H1 (s & Es & Hs) H3 H4 H5]. split; [done|by exists s; split; [|lia]|done|].
  intros k v E. apply H5 in E as ->. by rewrite decide_False by apply not_elem_of_nil.
Qed.

(** After [clear] the cache is empty, also when the sequence number wraps. *)
Lemma clear_ok st : cache_idle st -> cache_ok [] (clear st) /\ output (clear st) = output st.
Proof.
  intros [Hl (s & Es & Hs) Ht Hk]. unfold clear. cbn. rewrite Es. unfold INDEX_SEQ.
  replace (u32 (s * 2 ^ 16 + 2 ^ 16)) with ((s + 1) * 2 ^ 16) by (rewrite u32_id; [lia|unfold is_u32; lia]).
  destruct (Z.leb_spec 0x80000000 ((s + 1) * 2 ^ 16)); (split; [|done]); split; cbn.
  - by rewrite length_map.
  - exists 1. lia.
  - intros k v E. rewrite list_lookup_fmap in E. apply fmap_Some in E as (v0 & _ & ->). done.
  - intros k v i _ E Hi. rewrite list_lookup_fmap in E. apply fmap_Some in E as (v0 & _ & ->). cbn. lia.
  - intros k v E. rewrite list_lookup_fmap in E. apply fmap_Some in E as (v0 & E & ->). cbn. by apply (Hk k).
  - done.
  - exists (s + 1). lia.
  - intros k v E. apply Ht in E. rewrite Es in E. lia.
  - intros k v i _ E Hi Hv. apply Ht in E. rewrite Es in E. lia.
  - intros k v E. by apply (Hk k).
Qed.

(** ** Weakest preconditions *)

Definition runs {A} (m : drawM A) (st : assembly_t VP) (Q : A -> assembly_t VP -> list (list G) -> Prop) : Prop :=
  exists a st' new, m st = Some (a, st') /\ output st' = output st ++ new /\
    as_sequence st' = as_sequence st /\ Q a st' new.

Lemma runs_weaken {A} (m : drawM A) st (Q Q' : _ -> _ -> _ -> Prop) :
  runs m st Q -> (forall a st' new, Q a st' new -> Q' a st' new) -> runs m st Q'.
Proof. intros (a & st' & new & E & Eo & Es & HQ) HQ'. exists a, st', new. auto. Qed.

Lemma runs_seq {A} (m : drawM A) st (Q : _ -> _ -> _ -> Prop) :
  runs m st Q -> runs m st (fun a st' new => as_sequence st' = as_sequence st /\ Q a st' new).
Proof. intros (a & st' & new & E & Eo & Es & HQ). by exists a, st', new. Qed.

Lemma runs_ret {A} (a : A) st (Q : _ -> _ -> _ -> Prop) : Q a st [] -> runs (hret a) st Q.
Proof. intros H. exists a, st, []. by rewrite app_nil_r. Qed.

Lemma runs_bind {A B} (m : drawM A) (k : A -> drawM B) st (Q : _ -> _ -> _ -> Prop) :
  runs m st (fun a st' new => runs (k a) st' (fun b st2 new2 => Q b st2 (new ++ new2))) -> runs (hbind m k) st Q.
Proof.
  intros (a & st' & new & E & Eo & Es & b & st2 & new2 & E2 & Eo2 & Es2 & HQ).
  exists b, st2, (new ++ new2). split_and!; [by erewrite hbind_some|..|done].
  - by rewrite Eo2, Eo, app_assoc.
  - by rewrite Es2.
Qed.

(** The vertex at [p] shows [g]; it is tagged [i]. *)
Definition holds (st : assembly_t VP) (p : nat) (g : G) : Prop := exists v, as_vertices st !! p = Some v /\ geom v = g.
Definition tagged (st : assembly_t VP) (p : nat) (i : Z) : Prop := exists v, as_vertices st !! p = Some v /\ v_index v = i.

(** The vertices [P] keep what they show and their tags. *)
Definition keeps (P : nat -> Prop) (st st' : assembly_t VP) : Prop :=
  forall q v, P q -> as_vertices st !! q = Some v ->
  exists v', as_vertices st' !! q = Some v' /\ geom v' = geom v /\ v_index v' = v_index v.

Lemma keeps_holds P st st' p g : keeps P st st' -> P p -> holds st p g -> holds st' p g.
Proof. intros K Hp (v & E & <-). destruct (K p v Hp E) as (v' & E' & ? & ?). by exists v'. Qed.
Lemma keeps_tagged P st st' p i : keeps P st st' -> P p -> tagged st p i -> tagged st' p i.
Proof. intros K Hp (v & E & <-). destruct (K p v Hp E) as (v' & E' & ? & ?). by exists v'. Qed.
Lemma keeps_trans P st st1 st2 : keeps P st st1 -> keeps P st1 st2 -> keeps P st st2.
Proof.
  intros K1 K2 q v Hq E. destruct (K1 q v Hq E) as (v1 & E1 & ? & ?).
  destruct (K2 q v1 Hq E1) as (v2 & E2 & ? & ?). exists v2. split_and!; congruence.
Qed.
Lemma keeps_mono (P P' : nat -> Prop) st st' : (forall q, P' q -> P q) -> keeps P st st' -> keeps P' st st'.
Proof. intros HP K q v Hq. by apply K, HP. Qed.
Lemma tagged_inj st p i j : tagged st p i -> tagged st p j -> i = j.
Proof. intros (v & E & <-) (v' & E' & <-). congruence. Qed.

Lemma cache_lookup st locked p : cache_ok locked st -> (p < 72)%nat -> exists v, as_vertices st !! p = Some v.
Proof. intros [Hl _ _ _ _] Hp. apply lookup_lt_is_Some_2. lia. Qed.

(** *** Locking *)

Lemma alter_lookup {A} (f : A -> A) p (l : list A) k x : alter f p l !! k = Some x ->
  exists x0, l !! k = Some x0 /\ x = if decide (k = p) then f x0 else x0.
Proof.
  destruct (decide (k = p)) as [->|Hne].
  - rewrite list_lookup_alter_eq. intros (x0 & E & ->)%fmap_Some. by exists x0.
  - rewrite list_lookup_alter_ne by done. by exists x.
Qed.

Lemma set_locked_ok b p locked locked' st : cache_ok locked st -> (p < 72)%nat ->
  (b = 0 /\ (forall k, k ∈ locked' <-> k ∈ locked /\ k <> p) \/ b = 1 /\ (forall k, k ∈ locked' <-> k ∈ locked \/ k = p)) ->
  runs (set_locked b p) st (fun _ st' new => new = [] /\ cache_ok locked' st' /\ keeps (fun _ => True) st st').
Proof.
  intros H Hp Hb. destruct (cache_lookup st locked p H Hp) as [w Ew]. destruct H as [Hl Hs Ht Hh Hk]. unfold set_locked.
  eexists tt, _, []. rewrite Ew, app_nil_r. split_and!; [reflexivity|done|done|done| |].
  - split; cbn; try done.
    + by rewrite length_alter.
    + intros k v (v0 & E & ->)%alter_lookup. apply Ht in E. by destruct (decide (k = p)).
    + intros k v i H8 (v0 & E & ->)%alter_lookup Hi Hv.
      assert (geom v0 = element i) as <- by (apply (Hh k v0); [done..|]; by destruct (decide (k = p))).
      destruct (decide (k = p)); [apply geom_locked|done].
    + intros k v (v0 & E & ->)%alter_lookup. apply Hk in E. destruct (decide (k = p)) as [->|Hne]; cbn.
      * destruct Hb as [[-> Hb]|[-> Hb]]; [rewrite decide_False|rewrite decide_True]; rewrite ?Hb; tauto.
      * rewrite E. apply decide_ext. destruct Hb as [[-> Hb]|[-> Hb]]; rewrite Hb; tauto.
  - intros q v _ E. destruct (decide (q = p)) as [->|Hne]; cbn.
    + rewrite list_lookup_alter_eq, E. eexists. split; [reflexivity|]. split; [apply geom_locked|done].
    + rewrite list_lookup_alter_ne by done. by exists v.
Qed.

Lemma unlock_ok st locked p : cache_ok locked st -> (p < 72)%nat ->
  runs (set_locked 0 p) st (fun _ st' new => new = [] /\
    cache_ok (List.filter (fun k => negb (k =? p)%nat) locked) st' /\ keeps (fun _ => True) st st').
Proof.
  intros H Hp. apply (set_locked_ok _ _ _ _ _ H Hp). left. split; [done|]. intros k.
  rewrite !list_elem_of_In, filter_In, negb_true_iff, Nat.eqb_neq. done.
Qed.

(** *** Fetching *)

Lemma get_vertex_ok p st v (Q : _ -> _ -> _ -> Prop) :
  as_vertices st !! p = Some v -> Q v st [] -> runs (get_vertex p) st Q.
Proof. intros E H. exists v, st, []. rewrite app_nil_r. unfold get_vertex. by rewrite E. Qed.

Lemma tag_range s i : tag_ok s -> 0 <= i < 2 ^ 16 ->
  Z.lor i s = s + i /\ 0 <= s + i < 2 ^ 31 /\ (s + i) mod 2 ^ 16 = i.
Proof.
  intros (k & -> & Hk) Hi. rewrite Z.lor_comm, lor_add_small by lia. split_and!; [done|lia|lia|].
  rewrite Z.add_comm, Z.mod_add by lia. by apply Z.mod_small.
Qed.

Lemma compile_tagged_ok p i locked st : cache_ok locked st -> (p < 72)%nat -> 0 <= i < 2 ^ 16 ->
  runs (compile_element p (as_sequence st + i)) st (fun _ st' new => new = [] /\ cache_ok locked st' /\
    holds st' p (element i) /\ tagged st' p (as_sequence st + i) /\ keeps (fun q => q <> p) st st').
Proof.
  intros H Hp Hi. destruct (cache_lookup st locked p H Hp) as [old E]. destruct H as [Hl Hs Ht Hh Hk].
  destruct (tag_range _ i Hs Hi) as (_ & Hr & Hm). unfold runs, compile_element.
  rewrite E. cbn [mbind option_bind].
  destruct (compileElement old (as_sequence st + i) (as_cull st)) as [v c] eqn:Ec.
  apply compileElement_law in Ec as (Eg & Ei & El & _); [|done]. rewrite Hm in Eg.
  assert (<[p := v]> (as_vertices st) !! p = Some v) as Ep by (apply list_lookup_insert_eq; lia).
  eexists tt, _, []. rewrite app_nil_r. split_and!; [reflexivity|done|done|done| | | |].
  - split; cbn; [by rewrite length_insert|done|..].
    + intros k w Ew. apply list_lookup_insert_Some in Ew as [(<- & -> & _)|[_ Ew]]; [lia|by apply Ht in Ew].
    + intros k w j H8 Ew Hj Hw. apply list_lookup_insert_Some in Ew as [(<- & -> & _)|[_ Ew]]; [|by apply (Hh k)].
      by replace j with i by lia.
    + intros k w Ew. apply list_lookup_insert_Some in Ew as [(<- & -> & _)|[_ Ew]]; [|by apply (Hk k)].
      rewrite El. by apply Hk in E.
  - by exists v.
  - by exists v.
  - intros q w Hq Ew. cbn. rewrite list_lookup_insert_ne by done. by exists w.
Qed.

(** A vertex that is not the current one may be overwritten unless it is locked;
    a locked one keeps what it shows. *)
Definition fetched (locked : list nat) (st : assembly_t VP) (i : Z) (p : nat) (st' : assembly_t VP) : Prop :=
  cache_ok (p :: locked) st' /\ (2 <= p < 72)%nat /\ holds st' p (element i) /\
  tagged st' p (as_sequence st + i) /\ keeps (fun q => q <> p \/ q ∈ locked) st st'.

Lemma two_locked (locked : list nat) k : (length locked <= 2)%nat -> k ∈ locked ->
  exists j, forall q, q ∈ locked -> q = k \/ q = j.
Proof.
  intros Hl Hk. destruct locked as [|a [|b [|]]]; cbn in Hl; [by apply elem_of_nil in Hk| | |lia].
  - exists a. intros q. rewrite !elem_of_cons, elem_of_nil in *. intuition congruence.
  - exists (if decide (a = k) then b else a). intros q. rewrite !elem_of_cons, elem_of_nil in *.
    destruct (decide (a = k)); intuition congruence.
Qed.

Lemma compile_locked_ok p i locked st : cache_ok locked st -> (length locked <= 2)%nat -> (2 <= p < 72)%nat ->
  p ∉ locked -> 0 <= i < 2 ^ 16 ->
  runs (compile_element p (u32 (as_sequence st + i)) ;;; set_locked 1 p ;;; hret p) st
    (fun q st' new => new = [] /\ fetched locked st i q st').
Proof.
  intros H Hl Hp Hn Hi. destruct (tag_range _ i (co_sequence _ _ H) Hi) as (_ & Hr & _). rewrite u32_id by (unfold is_u32; lia).
  eapply runs_bind, runs_weaken; [apply (compile_tagged_ok p i locked); [done|lia|done]|].
  intros _ st1 ? (-> & H1 & Hh & Ht & K). eapply runs_bind, runs_weaken.
  - apply (set_locked_ok 1 p locked (p :: locked)); [done|lia|]. right. split; [done|]. intros k.
    rewrite elem_of_cons. tauto.
  - intros _ st2 ? (-> & H2 & K2). apply runs_ret. split; [done|]. split_and!; [done|lia|lia| | |].
    + by apply (keeps_holds _ _ _ p _ K2).
    + by apply (keeps_tagged _ _ _ p _ K2).
    + intros q v Hq E. destruct (K q v) as (v1 & E1 & ? & ?); [by destruct Hq; [|intros ->]|done|].
      destruct (K2 q v1 I E1) as (v2 & E2 & ? & ?). exists v2. split_and!; [done|congruence..].
Qed.

Lemma fetch_ok i locked st : cache_ok locked st -> (length locked <= 2)%nat -> 0 <= i < 2 ^ 16 ->
  runs (fetch_vertex i) st (fun p st' new => new = [] /\ fetched locked st i p st').
Proof.
  intros H Hl Hi. destruct (tag_range _ i (co_sequence _ _ H) Hi) as (El & Hr & _). unfold fetch_vertex.
  unfold runs. rewrite El. set (p := Z.to_nat (VERTEX_BUFFER_SIZE + Z.land (as_sequence st + i) (VERTEX_CACHE_SIZE - 1))).
  assert (8 <= p < 72)%nat as Hp.
  { unfold p, VERTEX_BUFFER_SIZE, VERTEX_CACHE_SIZE. change (64 - 1) with (Z.ones 6). rewrite Z.land_ones by lia.
    pose proof (Z.mod_pos_bound (as_sequence st + i) (2 ^ 6) ltac:(lia)). lia. }
  clearbody p. destruct (cache_lookup _ _ p H) as [v E]; [lia|]. apply runs_bind, (get_vertex_ok _ _ v); [done|].
  destruct (Z.eqb_spec (v_index v) (as_sequence st + i)) as [Ev|Ev].
  - eapply runs_bind, runs_weaken.
    { apply (set_locked_ok 1 p locked (p :: locked)); [done|lia|]. right. split; [done|]. intros k.
      rewrite elem_of_cons. tauto. }
    intros _ st1 ? (-> & H1 & K). apply runs_ret. split; [done|].
    assert (holds st p (element i)) as Hh by (exists v; split; [done|]; apply (co_hit _ _ H p v i); [lia|done..]).
    split_and!; [done|lia|lia| | |].
    + by apply (keeps_holds _ _ _ p _ K).
    + apply (keeps_tagged _ _ _ p _ K); [done|]. by exists v.
    + intros q w _ Ew. by apply (K q w).
  - apply runs_bind, (get_vertex_ok _ _ v); [done|]. pose proof (co_locked _ _ H p v E) as Ek.
    destruct (Z.eqb_spec (v_locked v) 0) as [E0|E0].
    + apply runs_bind, runs_ret. cbn [app]. apply compile_locked_ok; [done|done|lia| |done].
      rewrite Ek in E0. by destruct (decide (p ∈ locked)).
    + assert (p ∈ locked) as Hin by (rewrite Ek in E0; by destruct (decide (p ∈ locked))).
      destruct (two_locked _ _ Hl Hin) as [j Hj].
      destruct (cache_lookup _ _ 2 H) as [v2 E2]; [lia|]. destruct (cache_lookup _ _ 3 H) as [v3 E3]; [lia|].
      apply runs_bind, runs_bind, (get_vertex_ok _ _ v2); [done|]. apply runs_bind, (get_vertex_ok _ _ v3); [done|].
      apply runs_ret. cbn [app]. rewrite (co_locked _ _ H 2 v2 E2), (co_locked _ _ H 3 v3 E3).
      destruct (decide (2%nat ∈ locked)) as [H2|H2], (decide (3%nat ∈ locked)) as [H3|H3];
        match goal with |- context [(2 + Z.to_nat ?z)%nat] =>
          let n := eval vm_compute in (2 + Z.to_nat z)%nat in change (2 + Z.to_nat z)%nat with n end;
        (apply compile_locked_ok; [done|done|lia| |done]); try done; intros Hq%Hj;
        [apply Hj in H2, H3|apply Hj in H3]; lia.
Qed.

(** *** Rendering *)

Lemma holds_geom st ps prim : Forall2 (holds st) ps prim ->
  Forall2 (fun p g => map geom (as_vertices st) !! p = Some g) ps prim.
Proof.
  intros H. eapply Forall2_impl; [exact H|]. intros p g (v & E & <-). by rewrite list_lookup_fmap, E.
Qed.

Lemma map_eq_lookup {A B} (f : A -> B) l l' q x : map f l' = map f l -> l !! q = Some x ->
  exists x', l' !! q = Some x' /\ f x' = f x.
Proof.
  intros E H. assert (map f l' !! q = Some (f x)) as H' by (by rewrite E, list_lookup_fmap, H).
  rewrite list_lookup_fmap in H'. apply fmap_Some in H' as (x' & H' & ->). by exists x'.
Qed.

Lemma render_ok ps prim locked st : cache_ok locked st -> (1 <= length ps <= 3)%nat -> Forall2 (holds st) ps prim ->
  (length prim <> 2%nat \/ unclipped clip_of prim) ->
  runs (render_visible ps) st (fun _ st' new => new = shown [prim] /\ cache_ok locked st' /\ keeps (fun _ => True) st st').
Proof.
  intros H Hn Hp Hk. unfold runs, render_visible. destruct (mapM_geom _ _ _ (holds_geom _ _ _ Hp)) as (l & El & Eg).
  rewrite El. cbn [mbind option_bind]. rewrite (visible_flags (geom := geom)), Eg.
  change (shown [prim]) with (if visible clip_of prim then [prim] else []).
  destruct (visible clip_of prim).
  2: { exists tt, st, []. rewrite app_nil_r. split_and!; try done. intros q v _ E. by exists v. }
  destruct (render_law ps _ l (as_ctx st) Hn El) as (vs' & ctx' & Er & Elen & _ & Hkeep).
  destruct Hkeep as (Rg & Ri & Rl).
  { subst prim. rewrite length_map in Hk. destruct Hk as [Hk|Hk]; [by left|right]. apply Forall_map in Hk.
    eapply Forall_impl; [exact Hk|]. intros v. cbn. by rewrite geom_clip. }
  unfold render_prim. rewrite El. cbn [mbind option_bind]. rewrite Er. cbn [mbind option_bind].
  eexists tt, _, [prim]. split_and!; [reflexivity| |done|done| |].
  - unfold Assembly.output. cbn. by rewrite map_app, <-Eg.
  - destruct H as [Hl Hs Ht Hh Hlk].
    assert (forall k v, vs' !! k = Some v -> exists v0, as_vertices st !! k = Some v0 /\
      geom v0 = geom v /\ v_index v0 = v_index v /\ v_locked v0 = v_locked v) as Hv.
    { intros k v E. destruct (map_eq_lookup geom _ _ k v (eq_sym Rg) E) as (v0 & E0 & ?).
      destruct (map_eq_lookup v_index _ _ k v (eq_sym Ri) E) as (v1 & E1 & ?).
      destruct (map_eq_lookup v_locked _ _ k v (eq_sym Rl) E) as (v2 & E2 & ?).
      exists v0. split_and!; congruence. }
    split; cbn; [by rewrite Elen|done|..].
    + intros k v (v0 & E0 & _ & <- & _)%Hv. by apply Ht in E0.
    + intros k v i H8 (v0 & E0 & <- & <- & _)%Hv. by apply (Hh k).
    + intros k v (v0 & E0 & _ & _ & <-)%Hv. by apply (Hlk k).
  - intros q v _ E. cbn. destruct (map_eq_lookup geom _ _ q v Rg E) as (v0 & E0 & ?).
    destruct (map_eq_lookup v_index _ _ q v Ri E) as (v1 & E1 & ?).
    exists v0. split_and!; congruence.
Qed.

(** ** Points, lines and triangles *)

Definition index_ok (i : Z) : Prop := 0 <= i < 2 ^ 16.

Lemma cache_ok_nil locked st : (forall k, k ∉ locked) -> cache_ok locked st -> cache_ok [] st.
Proof. destruct locked as [|k locked]; [done|]. intros H. exfalso. apply (H k). by left. Qed.

Lemma unlock_all vs locked st : cache_ok locked st -> Forall (fun p => p < 72)%nat vs ->
  (forall k, k ∈ locked -> k ∈ vs) ->
  runs (unlock vs) st (fun _ st' new => new = [] /\ cache_ok [] st' /\ keeps (fun _ => True) st st').
Proof.
  intros H Hv. revert locked st H. induction Hv as [|p vs Hp _ IH]; intros locked st H Hin; cbn [unlock].
  - apply runs_ret. split_and!; [done| |intros q v _ E; by exists v]. apply (cache_ok_nil locked); [|done].
    intros k Hk%Hin. by apply elem_of_nil in Hk.
  - eapply runs_bind, runs_weaken; [by apply (unlock_ok st locked p)|]. intros _ st1 ? (-> & H1 & K1).
    eapply runs_weaken; [apply (IH _ _ H1)|].
    + intros k. rewrite list_elem_of_In, filter_In, negb_true_iff, Nat.eqb_neq, <-list_elem_of_In.
      intros [Hk%Hin Hne]. by apply elem_of_cons in Hk as [|].
    + intros _ st2 ? (-> & H2 & K2). split_and!; [done..|]. intros q v _ E.
      destruct (K1 q v I E) as (v1 & E1 & ? & ?). destruct (K2 q v1 I E1) as (v2 & E2 & ? & ?).
      exists v2. split_and!; congruence.
Qed.

Lemma fetch_n_ok n indices locked st : cache_ok locked st -> (n + length locked <= 3)%nat ->
  (n <= length indices)%nat -> Forall index_ok indices ->
  runs (fetch_n n indices) st (fun '(vs, rest) st' new => new = [] /\ rest = drop n indices /\
    cache_ok (rev vs ++ locked) st' /\ Forall2 (holds st') vs (map element (take n indices)) /\
    Forall (fun p => p < 72)%nat vs /\ keeps (fun q => q ∈ locked) st st').
Proof.
  revert indices locked st. induction n as [|n IH]; intros indices locked st H Hn Hl Hi.
  - apply runs_ret. cbn. split_and!; [done|by rewrite drop_0|done|constructor|constructor|].
    intros q v ? E. by exists v.
  - destruct indices as [|i indices]; [cbn in Hl; lia|]. apply Forall_cons in Hi as [Hi Hr].
    cbn [fetch_n fetch_next]. eapply runs_bind, runs_bind, runs_weaken; [apply fetch_ok; [done|lia|done]|].
    intros p st1 ? (-> & H1 & Hp & Hh & _ & K1). apply runs_ret.
    eapply runs_bind, runs_weaken; [apply (IH indices (p :: locked) st1 H1); cbn in *; [lia..|done]|].
    intros [vs rest] st2 ? (-> & -> & H2 & Hvs & Hlt & K2). apply runs_ret. cbn [rev drop take map].
    split_and!; [done|done|by rewrite <-app_assoc| | |].
    + constructor; [|done]. apply (keeps_holds _ _ _ _ _ K2); [by left|done].
    + constructor; [lia|done].
    + intros q v Hq E. destruct (K1 q v) as (v1 & E1 & ? & ?); [by right|done|].
      destruct (K2 q v1) as (v2 & E2 & ? & ?); [by right|done|]. exists v2. split_and!; congruence.
Qed.

Definition drew_cached (prims : list (list G)) {A} (_ : A) (st' : assembly_t VP) (new : list (list G)) : Prop :=
  new = shown prims /\ cache_ok [] st'.

Lemma shown_cons prim prims : shown [prim] ++ shown prims = shown (prim :: prims).
Proof. unfold Assembly.shown. cbn. by destruct (visible clip_of prim). Qed.

Lemma indexed_points_ok count indices st : cache_ok [] st -> length indices = count -> Forall index_ok indices ->
  runs (indexed_points count indices) st (drew_cached (groups count 1 (map element indices))).
Proof.
  revert indices st. induction count as [|count IH]; intros indices st H Hl Hi.
  - by apply runs_ret.
  - destruct indices as [|i indices]; [done|]. apply Forall_cons in Hi as [Hi Hr]. injection Hl as Hl.
    cbn [indexed_points fetch_next groups map take drop].
    eapply runs_bind, runs_bind, runs_weaken; [apply fetch_ok; [done|cbn; lia|done]|].
    intros p st1 ? (-> & H1 & Hp & Hh & _ & _). apply runs_ret. cbn [app].
    eapply runs_bind, runs_weaken; [apply (render_ok _ [element i] _ _ H1); [cbn; lia|by repeat constructor|by left]|].
    intros _ st2 ? (-> & H2 & _).
    eapply runs_bind, runs_weaken; [apply (unlock_ok _ _ p H2); lia|]. intros _ st3 ? (-> & H3 & _).
    cbn [List.filter] in H3. rewrite Nat.eqb_refl in H3. cbn in H3.
    eapply runs_weaken; [by apply IH|]. intros ? st4 new [-> Hst4]. split; [|done]. apply shown_cons.
Qed.

Lemma indexed_groups_ok n fuel count indices st : (1 <= n <= 3)%nat -> cache_ok [] st ->
  0 <= count -> count + Z.of_nat n <= Z.of_nat (length indices) -> count < Z.of_nat fuel ->
  Forall index_ok indices -> (n <> 2%nat \/ unclipped clip_of (map element indices)) ->
  runs (indexed_groups fuel n count indices) st
    (drew_cached (groups (Z.to_nat (count / Z.of_nat n + 1)) n (map element indices))).
Proof.
  intros Hn. revert count indices st. induction fuel as [|fuel IH]; intros count indices st H H0 Hl Hf Hi Hu; [lia|].
  cbn [indexed_groups]. eapply runs_bind, runs_weaken; [apply (fetch_n_ok n indices [] st); [done|cbn; lia|lia|done]|].
  intros [vs rest] st1 ? (-> & -> & H1 & Hh & Hlt & _). rewrite app_nil_r in H1.
  set (prim := map element (take n indices)) in *.
  assert (length prim = n) as Ep by (unfold prim; rewrite length_map, length_take; lia).
  eapply runs_bind, runs_weaken; [apply (render_ok _ prim _ _ H1); [rewrite (Forall2_length _ _ _ Hh); lia|done|]|].
  { rewrite Ep. destruct Hu as [Hu|Hu]; [by left|right]. unfold prim. rewrite <-firstn_map.
    rewrite <-(take_drop n (map element indices)) in Hu. by apply Forall_app in Hu as [? _]. }
  intros _ st2 ? (-> & H2 & _).
  eapply runs_bind, runs_weaken; [apply (unlock_all _ _ _ H2 Hlt)|].
  { intros k. rewrite !list_elem_of_In, <-in_rev. done. }
  intros _ st3 ? (-> & H3 & _).
  assert (0 <= count / Z.of_nat n) by (apply Z.div_pos; lia).
  replace (Z.to_nat (count / Z.of_nat n + 1)) with (S (Z.to_nat (count / Z.of_nat n))) by lia. cbn [groups].
  rewrite firstn_map, skipn_map. fold prim. unfold drew_cached.
  rewrite <-(shown_cons prim (groups _ n _)). cbn [app].
  destruct (Z.leb_spec 0 (count - Z.of_nat n)).
  - eapply runs_weaken; [apply (IH (count - Z.of_nat n) (drop n indices) st3 H3); try lia|].
    + rewrite length_drop. lia.
    + rewrite <-(take_drop n indices) in Hi. by apply Forall_app in Hi as [_ ?].
    + destruct Hu as [Hu|Hu]; [by left|right]. rewrite <-skipn_map.
      rewrite <-(take_drop n (map element indices)) in Hu. by apply Forall_app in Hu as [_ ?].
    + intros ? st4 new [-> Hst4]. split; [|done]. cbn [app]. do 3 f_equal.
      replace ((count - Z.of_nat n) / Z.of_nat n) with (count / Z.of_nat n - 1); [lia|].
      replace count with ((count - Z.of_nat n) + 1 * Z.of_nat n) at 1 by lia. rewrite Z.div_add by lia. lia.
  - apply runs_ret. split; [|done]. by rewrite Z.div_small by lia.
Qed.

(** ** Strips, loops and fans *)

(** Vertex [p] is in the cache and tagged [i], or kept aside and never looked up. *)
Definition tag_is (st : assembly_t VP) (p : nat) (t : option Z) : Prop :=
  match t with
  | None => (p < 2)%nat
  | Some i => (2 <= p < 72)%nat /\ tagged st p (as_sequence st + i)
  end.

(** The vertices of [used] that are in the cache: those that are locked. *)
Definition in_cache (used : list nat) : list nat := List.filter (Nat.leb 2) used.

Lemma elem_of_in_cache used k : k ∈ in_cache used <-> k ∈ used /\ (2 <= k)%nat.
Proof. unfold in_cache. by rewrite !list_elem_of_In, filter_In, Nat.leb_le. Qed.

Lemma in_cache_length used : (length (in_cache used) <= length used)%nat.
Proof. unfold in_cache. induction used as [|x used IH]; cbn [List.filter length]; [done|].
  destruct (Nat.leb 2 x); cbn [length]; lia.
Qed.

Lemma tag_is_lt st p t : tag_is st p t -> (p < 72)%nat.
Proof. destruct t; cbn; lia. Qed.

Lemma tag_is_keeps P st st' p t : keeps P st st' -> P p -> as_sequence st' = as_sequence st ->
  tag_is st p t -> tag_is st' p t.
Proof. destruct t as [i|]; cbn; [|done]. intros K Hp -> [? Ht]. split; [done|]. by apply (keeps_tagged _ _ _ _ _ K). Qed.

(** A fetched vertex is none of those in use that have another tag. *)
Lemma fetched_other used st i p st' q t : fetched (in_cache used) st i p st' -> as_sequence st' = as_sequence st ->
  q ∈ used -> tag_is st q t -> t <> Some i ->
  p <> q /\ forall g, holds st q g -> holds st' q g.
Proof.
  intros (_ & Hp & _ & Htag & K) Es Hq Ht Hne. destruct t as [j|]; cbn in Ht.
  - destruct Ht as [Hr Ht]. assert (q ∈ in_cache used) as Hin by (apply elem_of_in_cache; auto with lia).
    split; [|intros g; apply (keeps_holds _ _ _ _ _ K); by right].
    intros ->. apply (keeps_tagged _ _ _ _ _ K) in Ht; [|by right].
    pose proof (tagged_inj _ _ _ _ Ht Htag). apply Hne. f_equal. lia.
  - split; [lia|]. intros g. apply (keeps_holds _ _ _ _ _ K). left. lia.
Qed.

Lemma relock p q used used' st : cache_ok (p :: in_cache used) st -> (q < 72)%nat -> (2 <= p)%nat ->
  (forall k, k ∈ used' <-> (k ∈ used \/ k = p) /\ k <> q) ->
  runs (set_locked 0 q) st (fun _ st' new => new = [] /\ cache_ok (in_cache used') st' /\ keeps (fun _ => True) st st').
Proof.
  intros H Hq Hp Hu. apply (set_locked_ok _ _ _ _ _ H Hq). left. split; [done|]. intros k.
  rewrite elem_of_cons, !elem_of_in_cache, Hu. intuition lia.
Qed.

(** Tags of neighbours, from that of the vertex before on. *)
Fixpoint adjacent_distinct (t : option Z) (l : list Z) : Prop :=
  match l with [] => True | i :: l => t <> Some i /\ adjacent_distinct (Some i) l end.

Lemma indexed_line_strip_ok v0 t a indices st : cache_ok (in_cache [v0]) st -> holds st v0 a -> tag_is st v0 t ->
  adjacent_distinct t indices -> Forall index_ok indices -> unclipped clip_of (a :: map element indices) ->
  runs (indexed_line_strip (length indices) v0 indices) st (fun v st' new =>
    new = shown (line_strip (a :: map element indices)) /\ cache_ok (in_cache [v]) st' /\ (v < 72)%nat /\
    holds st' v (List.last (map element indices) a) /\ keeps (fun q => (q < 2)%nat) st st').
Proof.
  revert v0 t a st. induction indices as [|i indices IH]; intros v0 t a st H Ha Ht Hd Hi Hu.
  - apply runs_ret. split_and!; [done|done|by apply (tag_is_lt _ _ _ Ht)|done|]. intros q v _ E. by exists v.
  - apply Forall_cons in Hi as [Hi Hr]. destruct Hd as [Hne Hd]. cbn [map] in Hu.
    apply Forall_cons in Hu as [Hua Hu]. pose proof (proj1 (proj1 (Forall_cons _ _ _) Hu)) as Hub.
    cbn [length indexed_line_strip fetch_next].
    assert (length (in_cache [v0]) <= 2)%nat as H2 by (etransitivity; [apply in_cache_length|cbn; lia]).
    eapply runs_bind, runs_bind, runs_weaken; [apply runs_seq, (fetch_ok i _ st H H2 Hi)|].
    intros p st1 ? (Es1 & -> & F).
    destruct (fetched_other [v0] st i p st1 v0 t F Es1 ltac:(by left) Ht Hne) as [Hpv Hv0].
    destruct F as (H1 & Hp & Hh & Htag & K1). apply runs_ret. cbn [app].
    eapply runs_bind, runs_weaken; [apply runs_seq, (render_ok _ [a; element i] _ _ H1); [cbn; lia|by repeat constructor; auto|right; by repeat constructor]|].
    intros _ st2 ? (Es2 & -> & Hc2 & K2).
    eapply runs_bind, runs_weaken; [apply runs_seq, (relock p v0 [v0] [p]); [done|by apply (tag_is_lt _ _ _ Ht)|lia|]|].
    { intros k. rewrite !elem_of_cons, !elem_of_nil. intuition congruence. }
    intros _ st3 ? (Es3 & -> & H3 & K3).
    eapply runs_weaken; [apply (IH p (Some i) (element i) st3 H3)|]; try done.
    + by apply (keeps_holds _ _ _ _ _ K3), (keeps_holds _ _ _ _ _ K2).
    + split; [done|]. rewrite Es3, Es2, Es1. by apply (keeps_tagged _ _ _ _ _ K3), (keeps_tagged _ _ _ _ _ K2).
    + intros v st4 new (-> & H4 & Hv & Hl & K4). split_and!; [|done|done| |].
      * cbn [app map]. change (line_strip (a :: element i :: ?l)) with ([a; element i] :: line_strip (element i :: l)).
        by rewrite <-(shown_cons _ (line_strip _)).
      * cbn [map]. by rewrite last_cons.
      * apply (keeps_trans _ _ st1); [apply (keeps_mono _ _ _ _) with (2 := K1); intros q ?; left; lia|].
        apply (keeps_trans _ _ st2); [by apply (keeps_mono _ _ _ _) with (2 := K2)|].
        apply (keeps_trans _ _ st3); [by apply (keeps_mono _ _ _ _) with (2 := K3)|done].
Qed.

Fixpoint fan_strip_distinct (winding : Z) (t0 t1 : option Z) (l : list Z) : Prop :=
  match l with
  | [] => True
  | i :: l =>
      t0 <> Some i /\ t1 <> Some i /\
      let winding := Z.lxor winding 1 in
      if winding =? 0 then fan_strip_distinct winding (Some i) t1 l else fan_strip_distinct winding t0 (Some i) l
  end.

Lemma indexed_fan_strip_ok w v0 v1 v2 t0 t1 x y indices st : cache_ok (in_cache [v0; v1]) st ->
  holds st v0 x -> holds st v1 y -> tag_is st v0 t0 -> tag_is st v1 t1 -> v0 <> v1 -> (v2 < 72)%nat ->
  fan_strip_distinct w t0 t1 indices -> Forall index_ok indices ->
  runs (indexed_fan_strip (length indices) w v0 v1 v2 indices) st (fun '(w0, w1, w2) st' new =>
    new = shown (fan_strip_prims w x y (map element indices)) /\ cache_ok (in_cache [w0; w1]) st' /\
    Forall (fun p => p < 72)%nat [w1; w0; w2]).
Proof.
  revert w v0 v1 v2 t0 t1 x y st.
  induction indices as [|i indices IH]; intros w v0 v1 v2 t0 t1 x y st H Hx Hy T0 T1 Hne Hv2 Hd Hi.
  - apply runs_ret. rewrite !Forall_cons.
    split_and!; [done|done|by apply (tag_is_lt _ _ _ T1)|by apply (tag_is_lt _ _ _ T0)|done|constructor].
  - apply Forall_cons in Hi as [Hi Hr]. destruct Hd as (N0 & N1 & Hd). cbn [length indexed_fan_strip fetch_next map fan_strip_prims].
    assert (length (in_cache [v0; v1]) <= 2)%nat as H2 by (etransitivity; [apply in_cache_length|cbn; lia]).
    eapply runs_bind, runs_bind, runs_weaken; [apply runs_seq, (fetch_ok i _ st H H2 Hi)|].
    intros p st1 ? (Es1 & -> & F).
    destruct (fetched_other [v0; v1] st i p st1 v0 t0 F Es1 ltac:(by left) T0 N0) as [Hp0 K0].
    destruct (fetched_other [v0; v1] st i p st1 v1 t1 F Es1 ltac:(by right; left) T1 N1) as [Hp1 K1].
    assert (forall q t, q ∈ [v0; v1] -> tag_is st q t -> tag_is st1 q t) as Ktag.
    { intros q t Hq Hqt. destruct F as (_ & Hp & _ & _ & K). destruct t as [j|]; [|done].
      apply (tag_is_keeps _ _ _ _ _ K); [|done|done]. right. apply elem_of_in_cache. cbn in Hqt. split; [done|lia]. }
    destruct F as (H1 & Hp & Hh & Htag & _). apply runs_ret. cbn [app].
    eapply runs_bind, runs_weaken; [apply runs_seq, (render_ok _ [x; y; element i] _ _ H1); [cbn; lia|by repeat constructor; auto|by left]|].
    intros _ st2 ? (Es2 & -> & Hc2 & Kr).
    assert (forall st3, as_sequence st3 = as_sequence st2 -> keeps (fun _ => True) st2 st3 ->
      (forall q g, holds st1 q g -> holds st3 q g) /\ (forall q t, tag_is st1 q t -> tag_is st3 q t)) as Kfin.
    { intros st3 Es3 K3. pose proof (keeps_trans _ _ _ _ Kr K3) as K. split.
      - intros q g. by apply (keeps_holds _ _ _ _ _ K).
      - intros q t. apply (tag_is_keeps _ _ _ _ _ K); [done|congruence]. }
    assert (tag_is st1 p (Some i)) as Tp by (split; [done|by rewrite Es1]).
    revert Hd. cbn zeta. destruct (Z.lxor w 1 =? 0); intros Hd.
    + eapply runs_bind, runs_weaken; [apply runs_seq, (relock p v0 [v0; v1] [p; v1]); [done|by apply (tag_is_lt _ _ _ T0)|lia|]|].
      { intros k. rewrite !elem_of_cons, !elem_of_nil. intuition congruence. }
      intros _ st3 ? (Es3 & -> & H3 & K3). destruct (Kfin st3 Es3 K3) as [Fh Ft].
      eapply runs_weaken; [apply (IH _ p v1 p (Some i) t1 (element i) y st3 H3); auto with lia; apply Ft, Ktag; [by right; left|done]|].
      intros [[w0 w1] w2] st4 new (-> & H4 & Hl). split; [|done]. cbn [app]. apply shown_cons.
    + eapply runs_bind, runs_weaken; [apply runs_seq, (relock p v1 [v0; v1] [v0; p]); [done|by apply (tag_is_lt _ _ _ T1)|lia|]|].
      { intros k. rewrite !elem_of_cons, !elem_of_nil. intuition congruence. }
      intros _ st3 ? (Es3 & -> & H3 & K3). destruct (Kfin st3 Es3 K3) as [Fh Ft].
      eapply runs_weaken; [apply (IH _ v0 p p t0 (Some i) x (element i) st3 H3); auto with lia; apply Ft, Ktag; [by left|done]|].
      intros [[w0 w1] w2] st4 new (-> & H4 & Hl). split; [|done]. cbn [app]. apply shown_cons.
Qed.

(** ** All modes *)

(** The first vertices of strips and fans are kept out of the cache. *)
Lemma compile_next_ok p i indices st : cache_ok [] st -> (p < 2)%nat -> index_ok i ->
  runs (compile_next p (i :: indices)) st (fun rest st' new => new = [] /\ rest = indices /\ cache_ok [] st' /\
    holds st' p (element i) /\ keeps (fun q => q <> p) st st').
Proof.
  intros H Hp Hi. destruct (cache_lookup st [] p H) as [old E]; [lia|]. destruct H as [Hl Hs Ht Hh Hk].
  unfold index_ok in Hi. unfold runs, compile_next, hbind, compile_element. rewrite E. cbn [mbind option_bind].
  destruct (compileElement old i (as_cull st)) as [v c] eqn:Ec.
  apply compileElement_law in Ec as (Eg & Ei & El & _); [|lia]. rewrite Z.mod_small in Eg by lia.
  assert (<[p := v]> (as_vertices st) !! p = Some v) as Ep by (apply list_lookup_insert_eq; lia).
  eexists indices, _, []. rewrite app_nil_r. split_and!; [reflexivity|done|done|done|done| | |].
  - split; cbn; [by rewrite length_insert|done|..].
    + intros k w Ew. apply list_lookup_insert_Some in Ew as [(<- & -> & _)|[_ Ew]]; [|by apply Ht in Ew].
      destruct Hs as (s & -> & Hs). lia.
    + intros k w j H8 Ew Hj Hw. apply list_lookup_insert_Some in Ew as [(<- & -> & _)|[_ Ew]]; [lia|by apply (Hh k)].
    + intros k w Ew. apply list_lookup_insert_Some in Ew as [(<- & -> & _)|[_ Ew]]; [|by apply (Hk k)].
      rewrite El. by apply Hk in E.
  - by exists v.
  - intros q w Hq Ew. cbn. rewrite list_lookup_insert_ne by done. by exists w.
Qed.

Lemma line_strip_from_ok count i indices st : cache_ok [] st -> Z.to_nat (count - 1) = length indices ->
  Forall index_ok (i :: indices) -> adjacent_distinct None indices -> unclipped clip_of (map element (i :: indices)) ->
  runs (line_strip_from count (i :: indices)) st (fun v st' new =>
    new = shown (line_strip (map element (i :: indices))) /\ cache_ok [] st' /\ holds st' 0 (element i) /\
    holds st' v (List.last (map element indices) (element i))).
Proof.
  intros H Hc [Hi Hr]%Forall_cons Hd Hu. unfold line_strip_from.
  eapply runs_bind, runs_weaken; [by apply compile_next_ok; [|lia|]|]. intros rest st1 ? (-> & -> & H1 & Hh & _).
  rewrite Hc. eapply runs_bind, runs_weaken; [apply (indexed_line_strip_ok 0 None (element i) indices st1); [done|done|cbn; lia|done..]|].
  intros v st2 ? (-> & H2 & Hv & Hl & K).
  eapply runs_bind, runs_weaken; [apply (unlock_all [v] _ _ H2); [constructor; [done|constructor]|]|].
  { intros k. rewrite elem_of_in_cache. tauto. }
  intros _ st3 ? (-> & H3 & K3). apply runs_ret. cbn [app map]. rewrite app_nil_r. split_and!; [done|done| |].
  - apply (keeps_holds _ _ _ _ _ K3); [done|]. by apply (keeps_holds _ _ _ _ _ K); [lia|].
  - by apply (keeps_holds _ _ _ _ _ K3).
Qed.

(** What indexed drawing needs of the indices: lines must not be clipped, and
    neighbours must differ, as must the corners of the triangles of a strip. *)
Definition cacheable (mode : Z) (l : list Z) : Prop :=
  (mode = GL_LINES \/ mode = GL_LINE_STRIP \/ mode = GL_LINE_LOOP -> unclipped clip_of (map element l)) /\
  (mode = GL_LINE_STRIP \/ mode = GL_LINE_LOOP -> adjacent_distinct None (drop 1 l)) /\
  (mode = GL_TRIANGLE_STRIP -> fan_strip_distinct 1 None None (drop 2 l)) /\
  (mode = GL_TRIANGLE_FAN -> fan_strip_distinct 2 None None (drop 2 l)).

Lemma indexed_lines_ok n count l st : (n = 2 \/ n = 3)%nat -> cache_ok [] st -> Forall index_ok l ->
  Z.of_nat (length l) = count -> (n <> 2%nat \/ unclipped clip_of (map element l)) ->
  runs (if count <? Z.of_nat n then hret tt else indexed_groups (Z.to_nat count) n (count - Z.of_nat n) l) st
    (drew_cached (groups (length l / n) n (map element l))).
Proof.
  intros Hn H Hi Hl Hu. destruct (Z.ltb_spec count (Z.of_nat n)).
  - apply runs_ret. split; [|done]. by rewrite Nat.div_small by lia.
  - eapply runs_weaken; [apply indexed_groups_ok; [lia|done|lia..|done|done]|]. intros z0 st' new [-> H'].
    split; [|done]. do 2 f_equal. rewrite <-Hl. rewrite <-(Nat2Z.id (length l / n)), Nat2Z.inj_div. f_equal.
    replace (Z.of_nat (length l)) with ((Z.of_nat (length l) - Z.of_nat n) + 1 * Z.of_nat n) at 2 by lia.
    rewrite Z.div_add by lia. lia.
Qed.

Lemma indexed_fan_or_strip w count l st : cache_ok [] st -> Forall index_ok l -> Z.of_nat (length l) = count ->
  fan_strip_distinct w None None (drop 2 l) ->
  runs (drawIndexedPrimitivesTriangleFanOrStrip count l w) st
    (drew_cached (match map element l with x :: y :: l => fan_strip_prims w x y l | _ => [] end)).
Proof.
  intros H Hi Hl Hd. unfold drawIndexedPrimitivesTriangleFanOrStrip. destruct (Z.ltb_spec count 3).
  - apply runs_ret. split; [|done]. destruct l as [|a [|b [|]]]; [done..|cbn in Hl; lia].
  - destruct l as [|a [|b l]]; [cbn in Hl; lia..|]. apply Forall_cons in Hi as [Ha [Hb Hi]%Forall_cons].
    eapply runs_bind, runs_weaken; [by apply compile_next_ok; [|lia|]|]. intros rest st1 ? (-> & -> & H1 & Hh0 & _).
    eapply runs_bind, runs_weaken; [by apply compile_next_ok; [|lia|]|]. intros rest st2 ? (-> & -> & H2 & Hh1 & K).
    replace (Z.to_nat (count - 2)) with (length l) by (cbn in Hl; lia).
    eapply runs_bind, runs_weaken.
    { apply (indexed_fan_strip_ok w 0 1 1 None None (element a) (element b) l st2); try done; try (cbn; lia).
      by apply (keeps_holds _ _ _ _ _ K). }
    intros [[w0 w1] w2] st3 ? (-> & H3 & Hlt).
    eapply runs_weaken; [apply (unlock_all _ _ _ H3 Hlt)|].
    { intros k. rewrite elem_of_in_cache, !elem_of_cons, elem_of_nil. tauto. }
    intros ? st4 ? (-> & H4 & _). split; [|done]. by rewrite !app_nil_r.
Qed.

Lemma drawElements_runs mode count l st : draw_mode mode -> cache_ok [] st -> Forall index_ok l ->
  Z.of_nat (length l) = count -> cacheable mode l ->
  runs (drawElementsPrims mode count l) st (drew_cached (prescribed mode (map element l))).
Proof.
  intros Hmode H Hi Hl (Hlines & Hadj & Hstrip & Hfan).
  assert (mode = GL_POINTS \/ mode = GL_LINES \/ mode = GL_LINE_LOOP \/ mode = GL_LINE_STRIP \/
          mode = GL_TRIANGLES \/ mode = GL_TRIANGLE_STRIP \/ mode = GL_TRIANGLE_FAN) as Hcase
    by (unfold draw_mode, GL_POINTS, GL_LINES, GL_LINE_LOOP, GL_LINE_STRIP, GL_TRIANGLES, GL_TRIANGLE_STRIP, GL_TRIANGLE_FAN in *; lia).
  destruct Hcase as [->|[->|[->|[->|[->|[->| ->]]]]]]; unfold prescribed; cbn [Z.eqb Pos.eqb GL_POINTS GL_LINES
    GL_LINE_LOOP GL_LINE_STRIP GL_TRIANGLES GL_TRIANGLE_STRIP GL_TRIANGLE_FAN drawElementsPrims]; rewrite ?length_map.
  - unfold drawIndexedPrimitivesPoints. destruct (Z.ltb_spec count 1).
    + apply runs_ret. split; [|done]. by replace (length l) with 0%nat by lia.
    + replace (Z.to_nat count) with (length l) by lia. by apply indexed_points_ok.
  - apply (indexed_lines_ok 2); auto.
  - unfold drawIndexedPrimitivesLineLoop. destruct (Z.leb_spec count 2).
    + eapply runs_weaken; [apply (indexed_lines_ok 2); auto|]. intros z0 st' new [-> H']. split; [|done].
      destruct l as [|a [|b [|]]]; [done..|cbn in Hl; lia].
    + destruct l as [|a l]; [cbn in Hl; lia|].
      eapply runs_bind, runs_weaken; [apply line_strip_from_ok; auto; cbn in Hl; lia|].
      intros v st1 ? (-> & H1 & Hh & Hv). cbn [map] in *. specialize (Hlines ltac:(tauto)).
      eapply runs_weaken; [apply (render_ok _ [List.last (map element l) (element a); element a] _ _ H1); [cbn; lia|constructor; [exact Hv|by repeat constructor]|]|].
      { right. pose proof (unclipped_last _ _ Hlines). apply Forall_cons in Hlines as [? _]. by repeat constructor. }
      intros ? st2 ? (-> & H2 & _). split; [|done]. rewrite <-shown_app.
      destruct l as [|b [|c l]]; [cbn in Hl; lia..|]. cbn [map]. by rewrite !last_cons.
  - unfold drawIndexedPrimitivesLineStrip. destruct (Z.ltb_spec count 2).
    + apply runs_ret. split; [|done]. by destruct l as [|a [|]]; [..|cbn in Hl; lia].
    + destruct l as [|a l]; [cbn in Hl; lia|].
      eapply runs_bind, runs_weaken; [apply line_strip_from_ok; auto; cbn in Hl; lia|].
      intros v st1 ? (-> & H1 & _). apply runs_ret. split; [|done]. by rewrite app_nil_r.
  - apply (indexed_lines_ok 3); auto.
  - eapply runs_weaken; [apply indexed_fan_or_strip; auto|]. intros z0 st' new [-> H']. split; [|done].
    destruct (map element l) as [|x [|y l']]; [done..|]. by rewrite (proj1 (strip_prims x y l')).
  - eapply runs_weaken; [apply indexed_fan_or_strip; auto|]. intros z0 st' new [-> H']. split; [|done].
    destruct (map element l) as [|x [|y l']]; [done..|]. by rewrite (proj1 (fan_prims x y l')).
Qed.

End CacheSpec.
