(* ===== verification/AssemblyEnds.v ===== *)
(** * Drawing comes to an end

    The loops of [Assembly.v] and [VertexCache.v], on any elements and any
    number of them, end inside the vertex buffer and the vertex cache as soon
    as compilation and rendering do what the interface [PipelineEnds] says:
    they keep the number of vertices, and the locks of the vertices are 0 or 1.
    Unlike the specifications of what is drawn, this does not depend on what is
    clipped, nor on where the elements are or whether indices are repeated. *)

From S2P Require Import Prelude Fixed Names Context Vertex Assembly VertexCache.

#[local] Open Scope state_scope.

Definition lock_bit (v : vertex_t) : Prop := v_locked v = 0 \/ v_locked v = 1.

Class PipelineEnds (VP : VertexPipeline) := {
  compileElement_locked old i cull : v_locked (fst (compileElement old i cull)) = v_locked old;
  compileElements_locked olds first cull : map v_locked (fst (compileElements olds first cull)) = map v_locked olds;
  render_ends ps vs ctx : (1 <= length ps <= 3)%nat -> Forall (fun p => p < length vs)%nat ps -> Forall lock_bit vs ->
    exists vs' ctx', render ps vs ctx = Some (vs', ctx') /\ length vs' = length vs /\ Forall lock_bit vs' }.

Section Ends.
  Context {VP : VertexPipeline} {PE : PipelineEnds VP}.

Definition vertex_count : nat := 72.
Definition vertices_ok (vs : list vertex_t) : Prop := length vs = vertex_count /\ Forall lock_bit vs.

(** [m] comes to an end with a result in [Q]; no vertex is added or lost, no
    lock is spoiled. *)
Definition ends {A} (Q : A -> Prop) (m : drawM A) : Prop :=
  forall st : assembly_t VP, vertices_ok (as_vertices st) ->
  exists a st', m st = Some (a, st') /\ vertices_ok (as_vertices st') /\ Q a.
Definition any {A} (_ : A) : Prop := True.

Lemma ends_ret {A} (Q : A -> Prop) a : Q a -> ends Q (hret a).
Proof. intros H st Hl. by exists a, st. Qed.
Lemma ends_bind {A B} (P : A -> Prop) (Q : B -> Prop) (m : drawM A) (k : A -> drawM B) :
  ends P m -> (forall a, P a -> ends Q (k a)) -> ends Q (hbind m k).
Proof.
  intros Hm Hk st Hl. destruct (Hm st Hl) as (a & st1 & E1 & L1 & Ha). destruct (Hk a Ha st1 L1) as (b & st2 & E2 & L2 & Hb).
  exists b, st2. by rewrite (hbind_some _ _ _ _ _ E1).
Qed.
Lemma ends_if {A} (Q : A -> Prop) (b : bool) (m m' : drawM A) : ends Q m -> ends Q m' -> ends Q (if b then m else m').
Proof. by destruct b. Qed.
(** A step whose result does not matter. *)
Lemma ends_then {A B} (Q : B -> Prop) (m : drawM A) (k : A -> drawM B) :
  ends any m -> (forall a, ends Q (k a)) -> ends Q (hbind m k).
Proof. intros Hm Hk. apply (ends_bind any); auto. Qed.

Lemma ends_set_cull cull : ends any (set_cull cull).
Proof. intros st Hl. eexists _, _. split; [reflexivity|done]. Qed.
Lemma ends_get_cull : ends any get_cull.
Proof. intros st Hl. eexists _, _. split; [reflexivity|done]. Qed.

(** The vertex at [p] exists. *)
Lemma ends_vertex p vs : (p < vertex_count)%nat -> vertices_ok vs -> exists v, vs !! p = Some v /\ lock_bit v.
Proof.
  intros Hp [Hl Hb]. destruct (lookup_lt_is_Some_2 vs p) as [v E]; [by rewrite Hl|]. exists v. split; [done|].
  by eapply Forall_lookup_1.
Qed.
Lemma vertices_ok_insert p v vs : vertices_ok vs -> lock_bit v -> vertices_ok (<[p := v]> vs).
Proof. intros [Hl Hb] Hv. split; [by rewrite length_insert|by apply Forall_insert]. Qed.
Lemma ends_get_vertex p : (p < vertex_count)%nat -> ends lock_bit (get_vertex p).
Proof.
  intros Hp st Hl. destruct (ends_vertex p _ Hp Hl) as (v & E & Hv). exists v, st. unfold get_vertex. by rewrite E.
Qed.
Lemma ends_put_vertex p v : (p < vertex_count)%nat -> lock_bit v -> ends any (put_vertex p v).
Proof.
  intros Hp Hv st Hl. destruct (ends_vertex p _ Hp Hl) as (v0 & E & _). eexists _, _. unfold put_vertex. rewrite E.
  split; [reflexivity|]. split; [|done]. by apply vertices_ok_insert.
Qed.
Lemma ends_compile_element p i : (p < vertex_count)%nat -> ends any (compile_element p i).
Proof.
  intros Hp st Hl. destruct (ends_vertex p _ Hp Hl) as (v0 & E & Hv). unfold compile_element. rewrite E. cbn [mbind option_bind].
  pose proof (compileElement_locked v0 i (as_cull st)) as L. destruct (compileElement v0 i (as_cull st)) as [v c].
  eexists _, _. split; [reflexivity|]. split; [|done]. apply vertices_ok_insert; [done|]. cbn in L. unfold lock_bit in *. by rewrite L.
Qed.
Lemma lock_bits vs : Forall lock_bit vs <-> Forall (fun b => b = 0 \/ b = 1) (map v_locked vs).
Proof. by rewrite Forall_map. Qed.
Lemma ends_compile_elements p first num : (p + Z.to_nat num <= vertex_count)%nat -> ends any (compile_elements p first num).
Proof.
  intros Hp st [Hl Hb]. unfold compile_elements. rewrite Hl. destruct (Nat.leb_spec (p + Z.to_nat num) vertex_count); [|lia].
  pose proof (compileElements_locked (take (Z.to_nat num) (drop p (as_vertices st))) first (as_cull st)) as L.
  destruct (compileElements _ first (as_cull st)) as [new c]. eexists _, _. split; [reflexivity|]. split; [|done]. cbn in *.
  pose proof (f_equal length L) as Ll. rewrite !length_map in Ll. split.
  - rewrite !length_app, Ll, !length_take, !length_drop, Hl. lia.
  - rewrite !Forall_app. split_and!; [by apply Forall_take|apply lock_bits; rewrite L; by apply lock_bits, Forall_take, Forall_drop|by apply Forall_drop].
Qed.
Lemma ends_render_visible ps : (1 <= length ps <= 3)%nat -> Forall (fun p => p < vertex_count)%nat ps -> ends any (render_visible ps).
Proof.
  intros Hn Hp st Hl. unfold render_visible, render_prim.
  assert (exists vs, mapM (fun p => as_vertices st !! p) ps = Some vs) as [vs ->].
  { clear Hn. induction Hp as [|p ps Hp _ [vs IH]]; [by exists []|]. destruct (ends_vertex p _ Hp Hl) as (v & E & _). exists (v :: vs). cbn. by rewrite E, IH. }
  cbn [mbind option_bind]. destruct (_ =? 0); [|by exists tt, st]. destruct Hl as [Hl Hb].
  destruct (render_ends ps (as_vertices st) (as_ctx st) Hn) as (vs' & ctx' & -> & L & B); [by rewrite Hl|done|]. cbn [mbind option_bind].
  eexists _, _. split; [reflexivity|]. split; [|done]. split; [cbn; by rewrite L|done].
Qed.

(** *** The loops *)

Ltac step := apply ends_then; [|intros ?].
Ltac pointers := repeat (apply Forall_cons; split; [unfold vertex_count in *; lia|]); by apply Forall_nil.

Lemma ends_points_loop num v : (v + num <= vertex_count)%nat -> ends any (points_loop num v).
Proof.
  revert v. induction num as [|num IH]; intros v H; cbn [points_loop]; [by apply ends_ret|].
  step; [apply ends_render_visible; [cbn; lia|pointers]|]. apply IH. lia.
Qed.
Lemma ends_points_batches fuel vcs first count : 0 < vcs <= Z.of_nat vertex_count -> 0 < count <= Z.of_nat fuel ->
  ends any (points_batches fuel vcs first count).
Proof.
  intros Hv. revert first count. induction fuel as [|fuel IH]; intros first count Hc; [lia|]. cbn [points_batches].
  set (num := if vcs <? count then vcs else count). assert (0 < num <= vcs /\ num <= count) by (unfold num; destruct (Z.ltb_spec vcs count); lia).
  step; [apply ends_set_cull|]. step; [apply ends_compile_elements; lia|]. step; [apply ends_get_cull|].
  step; [apply ends_if; [apply ends_points_loop; lia|by apply ends_ret]|].
  destruct (Z.eqb_spec (count - num) 0); [by apply ends_ret|]. apply IH. lia.
Qed.

Lemma ends_groups_loop fuel n v num : (0 < n <= 3)%nat -> 0 <= num < Z.of_nat fuel ->
  Z.of_nat v + num + Z.of_nat n <= Z.of_nat vertex_count -> ends any (groups_loop fuel n v num).
Proof.
  intros Hn. revert v num. induction fuel as [|fuel IH]; intros v num Hf Hv; [lia|]. cbn [groups_loop].
  step; [apply ends_render_visible|].
  - rewrite length_seq. lia.
  - apply Forall_forall. intros p Hp%list_elem_of_In%in_seq. lia.
  - destruct (Z.leb_spec 0 (num - Z.of_nat n)); [apply IH; lia|by apply ends_ret].
Qed.
Lemma ends_groups_batches fuel n vcs first count : (0 < n <= 3)%nat -> Z.of_nat n <= vcs <= Z.of_nat vertex_count ->
  Z.of_nat n <= count <= Z.of_nat fuel -> ends any (groups_batches fuel n vcs first count).
Proof.
  intros Hn Hv. revert first count. induction fuel as [|fuel IH]; intros first count Hc; [lia|]. cbn [groups_batches].
  set (num := if vcs <? count then vcs else count).
  assert (Z.of_nat n <= num <= vcs /\ num <= count) by (unfold num; destruct (Z.ltb_spec vcs count); lia).
  step; [apply ends_set_cull|]. step; [apply ends_compile_elements; lia|]. step; [apply ends_get_cull|].
  step; [apply ends_if; [apply ends_groups_loop; lia|by apply ends_ret]|].
  destruct (Z.leb_spec (Z.of_nat n) (count - num)); [apply IH; lia|by apply ends_ret].
Qed.

Lemma ends_line_strip_loop num v0 v : (v0 < vertex_count)%nat -> (v + num <= vertex_count)%nat ->
  ends (fun p => p < vertex_count)%nat (line_strip_loop num v0 v).
Proof.
  revert v0 v. induction num as [|num IH]; intros v0 v H0 Hv; cbn [line_strip_loop]; [by apply ends_ret|].
  step; [apply ends_render_visible; [cbn; lia|pointers]|]. apply IH; lia.
Qed.
Lemma ends_line_strip_batches fuel vcs first count : 0 < vcs < Z.of_nat vertex_count -> 0 < count <= Z.of_nat fuel ->
  ends any (line_strip_batches fuel vcs first count).
Proof.
  intros Hv. revert first count. induction fuel as [|fuel IH]; intros first count Hc; [lia|]. cbn [line_strip_batches].
  set (num := if vcs <? count then vcs else count). assert (0 < num <= vcs /\ num <= count) by (unfold num; destruct (Z.ltb_spec vcs count); lia).
  assert (0 < vertex_count)%nat by (unfold vertex_count; lia).
  step; [apply ends_compile_elements; lia|]. step; [apply ends_get_cull|].
  apply (ends_bind (fun p => p < vertex_count)%nat); [apply ends_if; [apply ends_line_strip_loop; lia|by apply ends_ret]|].
  intros v0 Hv0. apply (ends_bind lock_bit); [by apply ends_get_vertex|]. intros v Hvb. step; [by apply ends_put_vertex|]. step; [apply ends_set_cull|].
  destruct (Z.eqb_spec (count - num) 0); [by apply ends_ret|]. apply IH. lia.
Qed.

Lemma ends_fan_strip_loop num winding v0 v1 v : (v0 < vertex_count)%nat -> (v1 < vertex_count)%nat -> (v + num <= vertex_count)%nat ->
  ends any (fan_strip_loop num winding v0 v1 v).
Proof.
  revert winding v0 v1 v. induction num as [|num IH]; intros winding v0 v1 v H0 H1 Hv; cbn [fan_strip_loop]; [by apply ends_ret|].
  step; [apply ends_render_visible; [cbn; lia|pointers]|]. cbv zeta. apply ends_if; apply IH; lia.
Qed.
Lemma ends_fan_strip_batches fuel vcs first count winding : 2 <= vcs <= Z.of_nat vertex_count - 2 -> 0 < count <= Z.of_nat fuel ->
  ends any (fan_strip_batches fuel vcs first count winding).
Proof.
  intros Hv. revert first count winding. induction fuel as [|fuel IH]; intros first count winding Hc; [lia|]. cbn [fan_strip_batches].
  set (num := if vcs <? count then vcs else count). assert (0 < num <= vcs /\ num <= count) by (unfold num; destruct (Z.ltb_spec vcs count); lia).
  assert (2 < vertex_count)%nat by (unfold vertex_count; lia).
  step; [apply ends_compile_elements; lia|]. step; [apply ends_get_cull|].
  step; [apply ends_if; [apply ends_fan_strip_loop; lia|by apply ends_ret]|].
  destruct (Z.eqb_spec (count - num) 0); [by apply ends_ret|].
  apply (ends_bind lock_bit); [apply ends_get_vertex; lia|]. intros w0 Hw0. apply (ends_bind lock_bit); [apply ends_get_vertex; lia|]. intros w1 Hw1.
  step; [apply ends_if; [apply ends_put_vertex; [lia|done]|by apply ends_ret]|]. step; [apply ends_put_vertex; [lia|done]|]. step; [apply ends_set_cull|].
  destruct (Z.ltb_spec 0 (count - num)); [apply IH; lia|by apply ends_ret].
Qed.

(** Every mode, any elements, any count. *)
Lemma drawArraysPrims_ends mode first count : ends any (drawArraysPrims mode first count).
Proof.
  assert (ends any (drawPrimitivesLineStrip first count)) as Hs.
  { unfold drawPrimitivesLineStrip, VERTEX_BUFFER_SIZE, VERTEX_CACHE_SIZE. destruct (Z.ltb_spec count 2); [by apply ends_ret|].
    step; [apply ends_set_cull|]. step; [apply ends_compile_element; unfold vertex_count; lia|].
    apply ends_line_strip_batches; unfold vertex_count; lia. }
  assert (forall winding, ends any (drawPrimitivesTriangleFanOrStrip first count winding)) as Hf.
  { intros winding. unfold drawPrimitivesTriangleFanOrStrip. destruct (Z.ltb_spec count 3); [by apply ends_ret|].
    step; [apply ends_set_cull|]. step; [apply ends_compile_elements; unfold vertex_count; lia|].
    apply ends_fan_strip_batches; [by vm_compute|lia]. }
  unfold drawArraysPrims. repeat case_match; try done; try apply Hf.
  - unfold drawPrimitivesPoints. destruct (Z.ltb_spec count 1); [by apply ends_ret|].
    apply ends_points_batches; [by vm_compute|lia].
  - unfold drawPrimitivesLines. destruct (Z.ltb_spec count 2); [by apply ends_ret|].
    apply ends_groups_batches; [lia|..]; [by vm_compute|lia].
  - unfold drawPrimitivesLineLoop. destruct (Z.ltb_spec count 2); [by apply ends_ret|]. step; [done|].
    apply ends_if; [|by apply ends_ret]. step; [apply ends_compile_element; unfold vertex_count; lia|].
    apply ends_render_visible; [cbn; lia|pointers].
  - unfold drawPrimitivesTriangles. destruct (Z.ltb_spec count 3); [by apply ends_ret|].
    apply ends_groups_batches; [lia|..]; [by vm_compute|lia].
Qed.

(** *** The vertex cache *)

Lemma ends_set_locked b p : b = 0 \/ b = 1 -> (p < vertex_count)%nat -> ends any (set_locked b p).
Proof.
  intros Hb Hp st Hl. destruct (ends_vertex p _ Hp Hl) as (v & E & Hv). eexists _, _. unfold set_locked. rewrite E.
  split; [reflexivity|]. split; [|done]. destruct Hl as [Hl HF]. cbn. split; [by rewrite length_alter|].
  apply Forall_alter; [done|]. intros v' _ _. done.
Qed.

Lemma ends_cache_vertex v index : (v < vertex_count)%nat -> ends (fun p => p < vertex_count)%nat (cache_vertex v index).
Proof.
  intros Hv. unfold cache_vertex. apply (ends_bind lock_bit); [by apply ends_get_vertex|]. intros w Hw.
  apply (ends_bind (fun p => p < vertex_count)%nat).
  - apply ends_if; [by apply ends_ret|]. apply (ends_bind lock_bit); [apply ends_get_vertex; unfold vertex_count; lia|]. intros v2 H2.
    apply (ends_bind lock_bit); [apply ends_get_vertex; unfold vertex_count; lia|]. intros v3 H3. apply ends_ret.
    unfold vertex_count. destruct H2 as [-> | ->], H3 as [-> | ->]; vm_compute; lia.
  - intros p Hp. step; [by apply ends_compile_element|]. step; [apply ends_set_locked; auto|]. by apply ends_ret.
Qed.
Lemma ends_fetch_vertex index : ends (fun p => p < vertex_count)%nat (fetch_vertex index).
Proof.
  intros st Hl. unfold fetch_vertex. set (i := Z.lor index (as_sequence st)).
  assert (Z.to_nat (VERTEX_BUFFER_SIZE + Z.land i (VERTEX_CACHE_SIZE - 1)) < vertex_count)%nat as Hp.
  { change (VERTEX_CACHE_SIZE - 1) with (Z.ones 6). rewrite Z.land_ones by done.
    pose proof (Z.mod_pos_bound i (2 ^ 6) ltac:(done)) as Hm. change (2 ^ 6) with 64 in *. unfold VERTEX_BUFFER_SIZE, vertex_count. lia. }
  assert (ends (fun p => p < vertex_count)%nat (let! vertex := get_vertex (Z.to_nat (VERTEX_BUFFER_SIZE + Z.land i (VERTEX_CACHE_SIZE - 1))) in
     if v_index vertex =? i then
       set_locked 1 (Z.to_nat (VERTEX_BUFFER_SIZE + Z.land i (VERTEX_CACHE_SIZE - 1))) ;;;
       hret (Z.to_nat (VERTEX_BUFFER_SIZE + Z.land i (VERTEX_CACHE_SIZE - 1)))
     else cache_vertex (Z.to_nat (VERTEX_BUFFER_SIZE + Z.land i (VERTEX_CACHE_SIZE - 1))) i)) as H; [|by apply H].
  apply (ends_bind lock_bit); [by apply ends_get_vertex|]. intros w _. apply ends_if; [|by apply ends_cache_vertex].
  step; [apply ends_set_locked; auto|by apply ends_ret].
Qed.

(** The indices left, enough for [n] more. *)
Definition left_over (n : nat) (indices : list Z) : Prop := (n <= length indices)%nat.
Definition fetched (n : nat) (r : nat * list Z) : Prop := (r.1 < vertex_count)%nat /\ left_over n r.2.
Lemma ends_fetch_next n indices : left_over (S n) indices -> ends (fetched n) (fetch_next indices).
Proof.
  destruct indices as [|i indices]; unfold left_over; cbn; [lia|]. intros H.
  apply (ends_bind (fun p => p < vertex_count)%nat); [apply ends_fetch_vertex|]. intros v Hv. apply ends_ret. split; [done|cbn; unfold left_over; lia].
Qed.
Lemma ends_compile_next n v indices : (v < vertex_count)%nat -> left_over (S n) indices -> ends (left_over n) (compile_next v indices).
Proof.
  intros Hv. destruct indices as [|i indices]; unfold left_over; cbn; [lia|]. intros H.
  step; [by apply ends_compile_element|]. apply ends_ret. lia.
Qed.
Lemma ends_fetch_n k n indices : left_over (k + n) indices ->
  ends (fun r => length r.1 = k /\ Forall (fun p => p < vertex_count)%nat r.1 /\ left_over n r.2) (fetch_n k indices).
Proof.
  revert indices. induction k as [|k IH]; intros indices H; cbn [fetch_n]; [apply ends_ret; split_and!; [done|constructor|done]|].
  apply (ends_bind (fetched (k + n))); [by apply ends_fetch_next|]. intros [v l] [Hv Hl]. cbn in Hv, Hl.
  eapply ends_bind; [by apply IH|]. intros [vs l'] (L & F & Hl'). cbn in *. apply ends_ret. split_and!; [by cbn; rewrite L|by constructor|done].
Qed.
Lemma ends_unlock vs : Forall (fun p => p < vertex_count)%nat vs -> ends any (unlock vs).
Proof.
  induction 1 as [|v vs Hv _ IH]; cbn [unlock]; [by apply ends_ret|]. step; [apply ends_set_locked; auto|done].
Qed.

Lemma ends_indexed_points count indices : left_over count indices -> ends any (indexed_points count indices).
Proof.
  revert indices. induction count as [|count IH]; intros indices H; cbn [indexed_points]; [by apply ends_ret|].
  eapply ends_bind; [by apply ends_fetch_next|]. intros [v l] [Hv Hl]. cbn in Hv, Hl.
  step; [apply ends_render_visible; [cbn; lia|pointers]|]. step; [apply ends_set_locked; auto|]. by apply IH.
Qed.
Lemma ends_indexed_groups fuel n count indices : (0 < n <= 3)%nat -> 0 <= count < Z.of_nat fuel ->
  left_over (Z.to_nat count + n) indices -> ends any (indexed_groups fuel n count indices).
Proof.
  intros Hn. revert count indices. induction fuel as [|fuel IH]; intros count indices Hf H; [lia|]. cbn [indexed_groups].
  apply (ends_bind (fun r => length r.1 = n /\ Forall (fun p => p < vertex_count)%nat r.1 /\ left_over (Z.to_nat count) r.2)).
  { apply ends_fetch_n. by rewrite Nat.add_comm. }
  intros [vs l] (L & F & Hl). cbn in L, F, Hl. step; [apply ends_render_visible; [lia|done]|]. step; [by apply ends_unlock|].
  destruct (Z.leb_spec 0 (count - Z.of_nat n)); [|by apply ends_ret]. apply IH; [lia|].
  unfold left_over in *. lia.
Qed.
Lemma ends_indexed_line_strip count v0 indices : (v0 < vertex_count)%nat -> left_over count indices ->
  ends (fun p => p < vertex_count)%nat (indexed_line_strip count v0 indices).
Proof.
  revert v0 indices. induction count as [|count IH]; intros v0 indices Hv0 H; cbn [indexed_line_strip]; [by apply ends_ret|].
  eapply ends_bind; [by apply ends_fetch_next|]. intros [v1 l] [Hv Hl]. cbn in Hv, Hl.
  step; [apply ends_render_visible; [cbn; lia|pointers]|]. step; [apply ends_set_locked; auto|]. by apply IH.
Qed.
Lemma ends_line_strip_from count indices : 2 <= count -> left_over (Z.to_nat count) indices ->
  ends (fun p => p < vertex_count)%nat (line_strip_from count indices).
Proof.
  intros Hc H. unfold line_strip_from. eapply ends_bind.
  { apply (ends_compile_next (Z.to_nat (count - 1))); [unfold vertex_count; lia|]. unfold left_over in *. lia. }
  intros l Hl. eapply ends_bind; [apply ends_indexed_line_strip; [unfold vertex_count; lia|done]|]. intros v0 Hv0.
  step; [apply ends_unlock; pointers|]. by apply ends_ret.
Qed.
Lemma ends_indexed_fan_strip count winding v0 v1 v2 indices : (v0 < vertex_count)%nat -> (v1 < vertex_count)%nat ->
  (v2 < vertex_count)%nat -> left_over count indices ->
  ends (fun '(v0, v1, v2) => Forall (fun p => p < vertex_count)%nat [v1; v0; v2]) (indexed_fan_strip count winding v0 v1 v2 indices).
Proof.
  revert winding v0 v1 v2 indices. induction count as [|count IH]; intros winding v0 v1 v2 indices H0 H1 H2 H; cbn [indexed_fan_strip].
  { apply ends_ret. pointers. }
  eapply ends_bind; [by apply ends_fetch_next|]. intros [w l] [Hw Hl]. cbn in Hw, Hl.
  step; [apply ends_render_visible; [cbn; lia|pointers]|]. cbv zeta.
  apply ends_if; (step; [apply ends_set_locked; auto|]; by apply IH).
Qed.

(** Every mode, any indices. *)
Lemma drawElementsPrims_ends mode count indices : left_over (Z.to_nat count) indices ->
  ends any (drawElementsPrims mode count indices).
Proof.
  intros H.
  assert (forall winding, ends any (drawIndexedPrimitivesTriangleFanOrStrip count indices winding)) as Hf.
  { intros winding. unfold drawIndexedPrimitivesTriangleFanOrStrip. destruct (Z.ltb_spec count 3); [by apply ends_ret|].
    eapply ends_bind; [apply (ends_compile_next (S (Z.to_nat (count - 2)))); [unfold vertex_count; lia|unfold left_over in *; lia]|].
    intros l Hl. eapply ends_bind; [apply (ends_compile_next (Z.to_nat (count - 2))); [unfold vertex_count; lia|done]|].
    intros l' Hl'. eapply ends_bind; [apply ends_indexed_fan_strip; [unfold vertex_count; lia..|done]|].
    intros [[v0 v1] v2] Hv. by apply ends_unlock. }
  assert (forall n : nat, (n = 2 \/ n = 3)%nat -> ends any (if count <? Z.of_nat n then hret tt else
            indexed_groups (Z.to_nat count) n (count - Z.of_nat n) indices)) as Hg.
  { intros n Hn. destruct (Z.ltb_spec count (Z.of_nat n)); [by apply ends_ret|].
    apply ends_indexed_groups; [lia|lia|unfold left_over in *; lia]. }
  unfold drawElementsPrims. repeat case_match; try apply Hf.
  - unfold drawIndexedPrimitivesPoints. destruct (Z.ltb_spec count 1); [by apply ends_ret|]. by apply ends_indexed_points.
  - apply (Hg 2%nat). by left.
  - unfold drawIndexedPrimitivesLineLoop. destruct (Z.leb_spec count 2); [apply (Hg 2%nat); by left|].
    eapply ends_bind; [apply ends_line_strip_from; [lia|done]|]. intros v0 Hv0.
    apply ends_render_visible; [cbn; lia|]. pointers.
  - unfold drawIndexedPrimitivesLineStrip. destruct (Z.ltb_spec count 2); [by apply ends_ret|].
    eapply ends_bind; [apply ends_line_strip_from; [lia|done]|]. intros. by apply ends_ret.
  - apply (Hg 3%nat). by right.
Qed.
End Ends.
