(* ===== verification/Light.v ===== *)
(** * Lighting and fog

    Models swrender/light.cpp: the lights, materials and fog that the commands
    set, the products it caches and how [lightVertex] is picked, validated and
    invalidated, the lighting equation and the fog factors.  The client's arrays
    are those of [Arrays.v].  A vertex is not lit ([None]) only when it calls a
    null fetcher; what C leaves undefined (shifts by out-of-range counts) is the
    parameter [undefined].

    [lightVertex_lit] shows what lighting leaves of a vertex, [lit_as_validated]
    that no vertex is lit with stale products as long as lights and color
    material are not switched between two invalidations; [enable_light_stale]
    is what happens when they are.  [spot_ignored_outside] and
    [shininess_scaled_twice] are faults of the code. *)

From Stdlib Require Import SpecFloat.
From S2P Require Import Prelude Fixed Names Context PixelFormat Surface Float Vertex Arrays.

Definition OGLES_MAX_LIGHTS : Z := 8.
Definition GL_FRONT_AND_BACK : Z := 0x0408.
Definition GL_AMBIENT : Z := 0x1200.
Definition GL_DIFFUSE : Z := 0x1201.
Definition GL_SPECULAR : Z := 0x1202.
Definition GL_POSITION : Z := 0x1203.
Definition GL_SPOT_DIRECTION : Z := 0x1204.
Definition GL_SPOT_EXPONENT : Z := 0x1205.
Definition GL_SPOT_CUTOFF : Z := 0x1206.
Definition GL_CONSTANT_ATTENUATION : Z := 0x1207.
Definition GL_LINEAR_ATTENUATION : Z := 0x1208.
Definition GL_QUADRATIC_ATTENUATION : Z := 0x1209.
Definition GL_EMISSION : Z := 0x1600.
Definition GL_SHININESS : Z := 0x1601.
Definition GL_AMBIENT_AND_DIFFUSE : Z := 0x1602.
Definition GL_LIGHT_MODEL_TWO_SIDE : Z := 0x0B52.
Definition GL_LIGHT_MODEL_AMBIENT : Z := 0x0B53.
Definition GL_LIGHT0 : Z := 0x4000.
Definition GL_FLAT : Z := 0x1D00.
Definition GL_SMOOTH : Z := 0x1D01.
Definition GL_FOG_DENSITY : Z := 0x0B62.
Definition GL_FOG_START : Z := 0x0B63.
Definition GL_FOG_END : Z := 0x0B64.
Definition GL_FOG_MODE : Z := 0x0B65.
Definition GL_FOG_COLOR : Z := 0x0B66.
Definition GL_EXP : Z := 0x0800.
Definition GL_EXP2 : Z := 0x0801.
Definition GL_FOG_LINEAR : Z := 0x2601.

(** ** Lights and materials *)

Record light_t := mk_light {
  l_ambient : vec4_t; l_diffuse : vec4_t; l_specular : vec4_t;
  l_implicitAmbient : vec4_t; l_implicitDiffuse : vec4_t; l_implicitSpecular : vec4_t;
  l_position : vec4_t; l_objPosition : vec4_t; l_normalizedObjPosition : vec4_t;
  l_spotDir : vec4_t; l_normalizedSpotDir : vec4_t;
  l_spotExp : Z; l_spotCutoff : Z; l_spotCutoffCosine : Z;
  l_attenuation : Z * Z * Z; l_rConstAttenuation : Z; l_enable : Z }.
#[export] Instance eta_light : Eta light_t := fun r =>
  mk_light (l_ambient r) (l_diffuse r) (l_specular r) (l_implicitAmbient r) (l_implicitDiffuse r)
    (l_implicitSpecular r) (l_position r) (l_objPosition r) (l_normalizedObjPosition r) (l_spotDir r)
    (l_normalizedSpotDir r) (l_spotExp r) (l_spotCutoff r) (l_spotCutoffCosine r) (l_attenuation r)
    (l_rConstAttenuation r) (l_enable r).
Definition zero_light : light_t :=
  mk_light zero_vec4 zero_vec4 zero_vec4 zero_vec4 zero_vec4 zero_vec4 zero_vec4 zero_vec4 zero_vec4
    zero_vec4 zero_vec4 0 0 0 (0, 0, 0) 0 0.

Record material_t := mk_material {
  mt_ambient : vec4_t; mt_diffuse : vec4_t; mt_specular : vec4_t; mt_emission : vec4_t; mt_shininess : Z }.
#[export] Instance eta_material : Eta material_t := fun r =>
  mk_material (mt_ambient r) (mt_diffuse r) (mt_specular r) (mt_emission r) (mt_shininess r).

Record light_model_t := mk_light_model { lm_ambient : vec4_t; lm_twoSide : Z }.
#[export] Instance eta_light_model : Eta light_model_t := fun r => mk_light_model (lm_ambient r) (lm_twoSide r).

Inductive light_fct_t := use_lightVertexValidate | use_lightVertexNop | use_lightVertex | use_lightVertexMaterial.

(** The face and mode of the color material are constants. *)
Record lighting_t := mk_lighting {
  lt_lights : list light_t; lt_front : material_t; lt_lightModel : light_model_t; lt_colorMaterial_enable : Z;
  lt_implicitScene : vec4_t; lt_objViewer : vec4_t; lt_enabledLights : Z; lt_enable : Z; lt_shadeModel : Z;
  lt_lightVertex : light_fct_t }.
#[export] Instance eta_lighting : Eta lighting_t := fun r =>
  mk_lighting (lt_lights r) (lt_front r) (lt_lightModel r) (lt_colorMaterial_enable r) (lt_implicitScene r)
    (lt_objViewer r) (lt_enabledLights r) (lt_enable r) (lt_shadeModel r) (lt_lightVertex r).

Inductive fog_fct_t := use_fog_linear | use_fog_exp | use_fog_exp2.

Record fog_t := mk_fog {
  fog_density : Z; fog_start : Z; fog_end : Z; fog_invEndMinusStart : Z; fog_mode : Z; fog_fog : fog_fct_t }.
#[export] Instance eta_fog : Eta fog_t := fun r =>
  mk_fog (fog_density r) (fog_start r) (fog_end r) (fog_invEndMinusStart r) (fog_mode r) (fog_fog r).

(** [ls_fogColor] is what [fogColor3xv] of the rasterizer was last given. *)
Record light_state := mk_light_state {
  ls_lighting : lighting_t; ls_fog : fog_t; ls_rescaleNormals : Z; ls_fogColor : vec4_t; ls_error : Z }.
#[export] Instance eta_light_state : Eta light_state := fun r =>
  mk_light_state (ls_lighting r) (ls_fog r) (ls_rescaleNormals r) (ls_fogColor r) (ls_error r).

Definition light_error (e : Z) (st : light_state) : light_state :=
  if ls_error st =? GGL_NO_ERROR then st <| ls_error := e |> else st.

Definition get_light (lt : lighting_t) (i : Z) : light_t := nth (Z.to_nat i) (lt_lights lt) zero_light.
Definition upd_light (i : Z) (f : light_t -> light_t) (lt : lighting_t) : lighting_t :=
  lt <| lt_lights ::= alter f (Z.to_nat i) |>.

(** [while (en) { i = 31 - gglClz(en); en &= ~(1<<i); ... }]. *)
Fixpoint over_lights {S} (fuel : nat) (body : Z -> S -> S) (en : Z) (s : S) : S :=
  match fuel with
  | O => s
  | Datatypes.S fuel =>
      if en =? 0 then s
      else
        let i := 31 - gglClz en in
        over_lights fuel body (clear_bits (Z.shiftl 1 i) en) (body i s)
  end.

(** ** Vectors *)

(** The first three coordinates; the fourth of [d] stays. *)
Definition vec3_set (d : vec4_t) (x y z : Z) : vec4_t := d <| vx := x |> <| vy := y |> <| vz := z |>.
Definition vscale3 (d m : vec4_t) (s : Z) : vec4_t :=
  vec3_set d (gglMulx (vx m) s) (gglMulx (vy m) s) (gglMulx (vz m) s).
Definition vsa3 (d m : vec4_t) (s : Z) (a : vec4_t) : vec4_t :=
  vec3_set d (gglMulAddx (vx m) s (vx a)) (gglMulAddx (vy m) s (vy a)) (gglMulAddx (vz m) s (vz a)).
Definition vss3 (d m : vec4_t) (s : Z) (a : vec4_t) : vec4_t :=
  vec3_set d (gglMulSubx (vx m) s (vx a)) (gglMulSubx (vy m) s (vy a)) (gglMulSubx (vz m) s (vz a)).
Definition vmla3 (d m0 m1 a : vec4_t) : vec4_t :=
  vec3_set d (gglMulAddx (vx m0) (vx m1) (vx a)) (gglMulAddx (vy m0) (vy m1) (vy a))
    (gglMulAddx (vz m0) (vz m1) (vz a)).
Definition vmul3 (d m0 m1 : vec4_t) : vec4_t :=
  vec3_set d (gglMulx (vx m0) (vx m1)) (gglMulx (vy m0) (vy m1)) (gglMulx (vz m0) (vz m1)).

Section Light.
  (** What C leaves undefined. *)
  Variable undefined : Z.

Definition or_undefined (o : option Z) : Z := default undefined o.

(** The [n] of [vnorm3]. *)
Definition vnorm_factor (a : vec4_t) : Z :=
  let abs x := if 0 <=? x then x else s32 (- x) in
  let x := abs (vx a) in
  let y := abs (vy a) in
  let z := abs (vz a) in
  if (x <=? 0x6800) && (y <=? 0x6800) && (z <=? 0x6800) then
    s32 (Z.shiftl (or_undefined (gglSqrtRecipx (s32 (x * x + y * y + z * z)))) 8)
  else or_undefined (gglSqrtRecipx (vsquare3 x y z)).
Definition vnorm3 (d a : vec4_t) : vec4_t := vscale3 d a (vnorm_factor a).

(** ** Fog *)

Definition clampF (f : Z) : Z :=
  let f := Z.land f (Z.lnot (Z.shiftr f 31)) in
  if 0x10000 <=? f then 0x10000 else f.

Definition fog_linear (fg : fog_t) (z : Z) : Z :=
  clampF (gglMulx (s32 (fog_end fg - (if z <? 0 then s32 (- z) else z))) (fog_invEndMinusStart fg)).
Definition fog_exp (fg : fog_t) (z : Z) : Z :=
  let e := SF_of_bits (fixedToFloat (gglMulx (fog_density fg) (if z <? 0 then s32 (- z) else z))) in
  clampF (gglFloatToFixed (fastexpf undefined (SFopp e))).
Definition fog_exp2 (fg : fog_t) (z : Z) : Z :=
  let e := SF_of_bits (fixedToFloat (gglMulx (fog_density fg) z)) in
  clampF (gglFloatToFixed (fastexpf undefined (float_mul (SFopp e) e))).

(** The call [c->fog.fog(c, z)]. *)
Definition run_fog (fg : fog_t) (z : Z) : Z :=
  match fog_fog fg with
  | use_fog_linear => fog_linear fg z | use_fog_exp => fog_exp fg z | use_fog_exp2 => fog_exp2 fg z
  end.

(** ** Validation *)

Definition invalidate_lighting (lt : lighting_t) : lighting_t := lt <| lt_lightVertex := use_lightVertexValidate |>.

Definition light_picker (lt : lighting_t) : lighting_t :=
  lt <| lt_lightVertex :=
    if lt_enable lt =? 0 then use_lightVertexNop
    else if lt_colorMaterial_enable lt =? 0 then use_lightVertex else use_lightVertexMaterial |>.

Definition light_mvi (l : light_t) : light_t :=
  let l := l <| l_objPosition := l_position l |> in
  l <| l_normalizedObjPosition := vnorm3 (l_normalizedObjPosition l) (l_objPosition l) |>.
Definition validate_light_mvi (lt : lighting_t) : lighting_t :=
  let lt := over_lights 32 (fun i => upd_light i light_mvi) (lt_enabledLights lt) lt in
  lt <| lt_objViewer := mk_vec4 0 0 0x10000 0 |>.

(** The products of a light and the material, and the flag in the fourth
    specular coordinate. *)
Definition light_products (m : material_t) (l : light_t) : light_t :=
  let l := l <| l_implicitAmbient := vmul3 (l_implicitAmbient l) (mt_ambient m) (l_ambient l) |>
             <| l_implicitDiffuse := vmul3 (l_implicitDiffuse l) (mt_diffuse m) (l_diffuse l) |>
             <| l_implicitSpecular := vmul3 (l_implicitSpecular l) (mt_specular m) (l_specular l) |> in
  let s := l_implicitSpecular l in
  l <| l_implicitSpecular ; vw := Z.lor (Z.lor (vx s) (vy s)) (vz s) |>.
Definition light_attenuation (l : light_t) : light_t :=
  let '(a0, a1, a2) := l_attenuation l in
  l <| l_rConstAttenuation := if Z.lor a1 a2 =? 0 then or_undefined (gglRecipFast a0) else 0 |>.

Definition scene_products (lt : lighting_t) : lighting_t :=
  let m := lt_front lt in
  lt <| lt_implicitScene ::= fun d => vmla3 d (lm_ambient (lt_lightModel lt)) (mt_ambient m) (mt_emission m) |>
     <| lt_implicitScene ; vw := vw (mt_diffuse m) |>.

Definition validate_light (lt : lighting_t) : lighting_t :=
  let lt :=
    if lt_colorMaterial_enable lt =? 0 then
      scene_products
        (over_lights 32 (fun i lt => upd_light i (fun l => light_attenuation (light_products (lt_front lt) l)) lt)
           (lt_enabledLights lt) lt)
    else lt in
  validate_light_mvi lt.

(** ** The lighting equation *)

(** The vertices' normals and colors, and the transformation of normals. *)
Record client_t := mk_client {
  cl_arrays : array_machine_t; cl_current : current_t; cl_mem : mem; cl_mvui : transform_t }.

(** [a.fetch(c, d.v, a.element(index & INDEX_MASK))]. *)
Definition fetch_at (cl : client_t) (a : array_t) (index : Z) (d : vec4_t) : option vec4_t :=
  f ← a_fetch a;
  Some (vec4_write (run_fetch f (cl_current cl) (am_tmu (cl_arrays cl)) (cl_mem cl)
                      (array_element a (Z.land index INDEX_MASK))) d).

Definition two_sided (twoSide s : Z) : Z := if s <? 0 then (if twoSide =? 0 then 0 else s32 (- s)) else s.

(** What light [l] adds; [n] is the normal, [obj] the vertex. *)
Definition light_color (lt : lighting_t) (obj n : vec4_t) (l : light_t) : vec4_t :=
  let m := lt_front lt in
  let twoSide := lm_twoSide (lt_lightModel lt) in
  let positional := negb (vw (l_position l) =? 0) in
  let '(d, sqDist) :=
    if positional then
      let d := vss3 zero_vec4 (l_objPosition l) (vw obj) obj in
      let sqDist := dot3 d d in
      (vscale3 d d (or_undefined (gglSqrtRecipx sqDist)), sqDist)
    else (l_normalizedObjPosition l, 0x10000) in
  let s := two_sided twoSide (dot3 n d) in
  let t := vsa3 zero_vec4 (l_implicitDiffuse l) s (l_implicitAmbient l) in
  let t :=
    if negb (s =? 0) && negb (vw (l_implicitSpecular l) =? 0) then
      let v := lt_objViewer lt in
      let h := mk_vec4 (s32 (vx d + vx v)) (s32 (vy d + vy v)) (s32 (vz d + vz v)) 0 in
      let h := vnorm3 h h in
      let s := two_sided twoSide (dot3 n h) in
      if 0 <? s then vsa3 t (l_implicitSpecular l) (or_undefined (gglPowx s (mt_shininess m))) t else t
    else t in
  let t :=
    if negb (l_spotCutoff l =? gglIntToFixed 180) then
      let spotAtt := s32 (- dot3 (l_normalizedSpotDir l) d) in
      if l_spotCutoffCosine l <=? spotAtt
      then vscale3 t t (or_undefined (gglPowx spotAtt (l_spotExp l))) else t
    else t in
  if positional then
    let '(a0, a1, a2) := l_attenuation l in
    let s :=
      if negb (l_rConstAttenuation l =? 0) then l_rConstAttenuation l
      else
        let s := gglMulAddx sqDist a2 a0 in
        let s := if a1 =? 0 then s else gglMulAddx (or_undefined (gglSqrtx sqDist)) a1 s in
        or_undefined (gglRecipFast s) in
    vscale3 t t s
  else t.

Definition add3 (r t : vec4_t) : vec4_t :=
  vec3_set r (s32 (vx r + vx t)) (s32 (vy r + vy t)) (s32 (vz r + vz t)).

Definition lit_color (cl : client_t) (lt : lighting_t) (rescaleNormals : Z) (v : vertex_t) : option vec4_t :=
  let r := lt_implicitScene lt in
  let en := lt_enabledLights lt in
  if en =? 0 then Some r
  else
    n ← fetch_at cl (am_normal (cl_arrays cl)) (v_index v) zero_vec4;
    let n := run_point (tr_point3 (cl_mvui cl)) (tr_m (cl_mvui cl)) n in
    let n := if rescaleNormals =? 0 then n else vnorm3 n n in
    Some (over_lights 32 (fun i r => add3 r (light_color lt (v_obj v) n (get_light lt i))) en r).

Definition clamp_color (r : vec4_t) : vec4_t :=
  mk_vec4 (gglClampx (vx r)) (gglClampx (vy r)) (gglClampx (vz r)) (gglClampx (vw r)).

Definition lightVertex (cl : client_t) (rescaleNormals : Z) (lt : lighting_t) (v : vertex_t)
    : option (lighting_t * vertex_t) :=
  r ← lit_color cl lt rescaleNormals v;
  Some (lt, v <| v_color := clamp_color r |> <| v_flags ::= set_bits LIT |>).

Definition lightVertexMaterial (cl : client_t) (rescaleNormals : Z) (lt : lighting_t) (v : vertex_t)
    : option (lighting_t * vertex_t) :=
  color ← fetch_at cl (am_color (cl_arrays cl)) (v_index v) (v_color v);
  let v := v <| v_color := color |> in
  let lt := lt <| lt_front ; mt_diffuse := color |> <| lt_front ; mt_ambient := color |> in
  let lt := over_lights 32 (fun i lt => upd_light i (light_products (lt_front lt)) lt) (lt_enabledLights lt) lt in
  lightVertex cl rescaleNormals (scene_products lt) v.

(** The call [c->lighting.lightVertex(c, v)]. *)
Definition run_picked (cl : client_t) (rescaleNormals : Z) (lt : lighting_t) (v : vertex_t)
    : option (lighting_t * vertex_t) :=
  match lt_lightVertex lt with
  | use_lightVertex => lightVertex cl rescaleNormals lt v
  | use_lightVertexMaterial => lightVertexMaterial cl rescaleNormals lt v
  | _ => Some (lt, v)
  end.
Definition run_lightVertex (cl : client_t) (rescaleNormals : Z) (lt : lighting_t) (v : vertex_t)
    : option (lighting_t * vertex_t) :=
  match lt_lightVertex lt with
  | use_lightVertexValidate => run_picked cl rescaleNormals (light_picker (validate_light lt)) v
  | _ => run_picked cl rescaleNormals lt v
  end.

(** ** Commands *)

(** The state after a command of [lighting]; all but [glShadeModel] invalidate. *)
Definition set_lighting (f : lighting_t -> lighting_t) (st : light_state) : light_state :=
  st <| ls_lighting ::= fun lt => invalidate_lighting (f lt) |>.

Definition lightModelx (pname param : Z) (st : light_state) : light_state :=
  if negb (pname =? GL_LIGHT_MODEL_TWO_SIDE) then light_error GGL_INVALID_ENUM st
  else set_lighting (fun lt => lt <| lt_lightModel ; lm_twoSide := if param =? 0 then 0 else 1 |>) st.

Definition set_attenuation (k : Z) (param : Z) (l : light_t) : light_t :=
  l <| l_attenuation ::= fun '(a0, a1, a2) =>
    if k =? 0 then (param, a1, a2) else if k =? 1 then (a0, param, a2) else (a0, a1, param) |>.

(** The argument of the cosine is computed in double precision. *)
Definition cutoff_cosine (param : Z) : Z :=
  let c := SFdiv 53 1024 M_PI (double_of_Z (180 * 65536)) in
  float_to_fixed (cosinef (float_of_double (SFmul 53 1024 c (double_of_Z param)))).

Definition lightx (i pname param : Z) (st : light_state) : light_state :=
  let n := u32 (i - GL_LIGHT0) in
  if OGLES_MAX_LIGHTS <=? n then light_error GGL_INVALID_ENUM st
  else
    let set f := set_lighting (upd_light n f) st in
    if pname =? GL_SPOT_EXPONENT then
      if gglIntToFixed 128 <=? param then light_error GGL_INVALID_VALUE st
      else set (fun l => l <| l_spotExp := param |>)
    else if pname =? GL_SPOT_CUTOFF then
      if negb (param =? gglIntToFixed 180) && (gglIntToFixed 90 <=? param) then light_error GGL_INVALID_VALUE st
      else set (fun l => l <| l_spotCutoff := param |> <| l_spotCutoffCosine := cutoff_cosine param |>)
    else if pname =? GL_CONSTANT_ATTENUATION then
      if param <? 0 then light_error GGL_INVALID_VALUE st else set (set_attenuation 0 param)
    else if pname =? GL_LINEAR_ATTENUATION then
      if param <? 0 then light_error GGL_INVALID_VALUE st else set (set_attenuation 1 param)
    else if pname =? GL_QUADRATIC_ATTENUATION then
      if param <? 0 then light_error GGL_INVALID_VALUE st else set (set_attenuation 2 param)
    else light_error GGL_INVALID_ENUM st.

(** [mv] is the validated modelview transformation. *)
Definition lightxv (mv : transform_t) (i pname : Z) (params : vec4_t) (st : light_state) : light_state :=
  let n := u32 (i - GL_LIGHT0) in
  if OGLES_MAX_LIGHTS <=? n then light_error GGL_INVALID_ENUM st
  else
    let set f := set_lighting (upd_light n f) st in
    if pname =? GL_AMBIENT then set (fun l => l <| l_ambient := params |>)
    else if pname =? GL_DIFFUSE then set (fun l => l <| l_diffuse := params |>)
    else if pname =? GL_SPECULAR then set (fun l => l <| l_specular := params |>)
    else if pname =? GL_POSITION then set (fun l => l <| l_position := run_point (tr_point4 mv) (tr_m mv) params |>)
    else if pname =? GL_SPOT_DIRECTION then
      set (fun l => l <| l_spotDir := params |> <| l_normalizedSpotDir ::= fun d => vnorm3 d params |>)
    else lightx i pname (vx params) st.

Definition materialx (face pname param : Z) (st : light_state) : light_state :=
  if negb (face =? GL_FRONT_AND_BACK) then light_error GGL_INVALID_ENUM st
  else if negb (pname =? GL_SHININESS) then light_error GGL_INVALID_ENUM st
  else set_lighting (fun lt => lt <| lt_front ; mt_shininess := param |>) st.

Definition fogx (pname param : Z) (st : light_state) : light_state :=
  let reciprocal (fg : fog_t) :=
    fg <| fog_invEndMinusStart := or_undefined (gglRecip (s32 (fog_end fg - fog_start fg))) |> in
  if pname =? GL_FOG_DENSITY then
    if 0 <=? param then st <| ls_fog ; fog_density := param |> else light_error GGL_INVALID_VALUE st
  else if pname =? GL_FOG_START then st <| ls_fog ::= fun fg => reciprocal (fg <| fog_start := param |>) |>
  else if pname =? GL_FOG_END then st <| ls_fog ::= fun fg => reciprocal (fg <| fog_end := param |>) |>
  else if pname =? GL_FOG_MODE then
    let set f := st <| ls_fog ::= fun fg => fg <| fog_mode := param |> <| fog_fog := f |> |> in
    if param =? GL_FOG_LINEAR then set use_fog_linear
    else if param =? GL_EXP then set use_fog_exp
    else if param =? GL_EXP2 then set use_fog_exp2
    else light_error GGL_INVALID_ENUM st
  else light_error GGL_INVALID_ENUM st.

Definition glShadeModel (mode : Z) (st : light_state) : light_state :=
  if negb (mode =? GL_SMOOTH) && negb (mode =? GL_FLAT) then light_error GGL_INVALID_ENUM st
  else st <| ls_lighting ; lt_shadeModel := mode |>.

Definition glLightModelx : Z -> Z -> light_state -> light_state := lightModelx.
Definition glLightModelxv (pname : Z) (params : vec4_t) (st : light_state) : light_state :=
  if pname =? GL_LIGHT_MODEL_TWO_SIDE then lightModelx pname (vx params) st
  else if negb (pname =? GL_LIGHT_MODEL_AMBIENT) then light_error GGL_INVALID_ENUM st
  else set_lighting (fun lt => lt <| lt_lightModel ; lm_ambient := params |>) st.
Definition glLightx : Z -> Z -> Z -> light_state -> light_state := lightx.
Definition glLightxv : transform_t -> Z -> Z -> vec4_t -> light_state -> light_state := lightxv.
Definition glMaterialx : Z -> Z -> Z -> light_state -> light_state := materialx.

(** Shared by the two versions, which differ in [what] and in the shininess. *)
Definition material_set (face pname : Z) (what : vec4_t) (shininess : Z) (st : light_state) : light_state :=
  if negb (face =? GL_FRONT_AND_BACK) then light_error GGL_INVALID_ENUM st
  else
    let set f := set_lighting (fun lt => lt <| lt_front ::= f |>) st in
    if pname =? GL_AMBIENT then set (fun m => m <| mt_ambient := what |>)
    else if pname =? GL_DIFFUSE then set (fun m => m <| mt_diffuse := what |>)
    else if pname =? GL_SPECULAR then set (fun m => m <| mt_specular := what |>)
    else if pname =? GL_EMISSION then set (fun m => m <| mt_emission := what |>)
    else if pname =? GL_AMBIENT_AND_DIFFUSE then set (fun m => m <| mt_ambient := what |> <| mt_diffuse := what |>)
    else if pname =? GL_SHININESS then set (fun m => m <| mt_shininess := shininess |>)
    else light_error GGL_INVALID_ENUM st.

(** The float an [int] is converted to where one is expected. *)
Definition float_of_int (z : Z) : spec_float := binary_normalize 24 128 z 0 false.

(** The shininess is converted as if it were a float. *)
Definition glMaterialxv (face pname : Z) (params : vec4_t) (st : light_state) : light_state :=
  material_set face pname params (float_to_fixed (float_of_int (vx params))) st.

(** [GL_FOG_COLOR] goes to the rasterizer. *)
Definition glFogx : Z -> Z -> light_state -> light_state := fogx.
Definition glFogxv (pname : Z) (params : vec4_t) (st : light_state) : light_state :=
  if negb (pname =? GL_FOG_COLOR) then fogx pname (vx params) st else st <| ls_fogColor := params |>.

(** *** Floats *)

Definition fixed4 (params : vec4_t) : vec4_t :=
  mk_vec4 (gglFloatToFixed (vx params)) (gglFloatToFixed (vy params)) (gglFloatToFixed (vz params))
    (gglFloatToFixed (vw params)).

Definition glLightModelf (pname param : Z) : light_state -> light_state := lightModelx pname (gglFloatToFixed param).
Definition glLightModelfv (pname : Z) (params : vec4_t) : light_state -> light_state :=
  glLightModelxv pname (fixed4 params).
Definition glLightf (i pname param : Z) : light_state -> light_state := lightx i pname (gglFloatToFixed param).

(** The fourth coordinate of a direction is not set. *)
Definition glLightfv (mv : transform_t) (i pname : Z) (params : vec4_t) (st : light_state) : light_state :=
  if (pname =? GL_SPOT_EXPONENT) || (pname =? GL_SPOT_CUTOFF) || (pname =? GL_CONSTANT_ATTENUATION) ||
     (pname =? GL_LINEAR_ATTENUATION) || (pname =? GL_QUADRATIC_ATTENUATION)
  then lightx i pname (gglFloatToFixed (vx params)) st
  else
    let paramsx := fixed4 params in
    lightxv mv i pname (if pname =? GL_SPOT_DIRECTION then paramsx <| vw := undefined |> else paramsx) st.

Definition glMaterialf (face pname param : Z) : light_state -> light_state :=
  materialx face pname (gglFloatToFixed param).
Definition glMaterialfv (face pname : Z) (params : vec4_t) : light_state -> light_state :=
  material_set face pname (fixed4 params) (gglFloatToFixed (vx params)).

Definition fog_param (pname param : Z) : Z :=
  if pname =? GL_FOG_MODE then int_of_float (SF_of_bits param) else gglFloatToFixed param.
Definition glFogf (pname param : Z) : light_state -> light_state := fogx pname (fog_param pname param).
Definition glFogfv (pname : Z) (params : vec4_t) (st : light_state) : light_state :=
  if negb (pname =? GL_FOG_COLOR) then fogx pname (fog_param pname (vx params)) st
  else st <| ls_fogColor := fixed4 params |>.

(** The part of [enable_disable] of state.cpp that concerns lighting; [enabled]
    is 0 or 1. *)
Definition GL_LIGHTING : Z := 0x0B50.
Definition GL_COLOR_MATERIAL : Z := 0x0B57.
Definition GL_NORMALIZE : Z := 0x0BA1.
Definition GL_RESCALE_NORMAL : Z := 0x803A.
Definition enable_light (cap enabled : Z) (st : light_state) : light_state :=
  if (GL_LIGHT0 <=? cap) && (cap <? GL_LIGHT0 + OGLES_MAX_LIGHTS) then
    let n := cap - GL_LIGHT0 in
    st <| ls_lighting ::= fun lt =>
      upd_light n (fun l => l <| l_enable := enabled |>) lt
        <| lt_enabledLights ::= fun en => Z.lor (clear_bits (Z.shiftl 1 n) en) (Z.shiftl enabled n) |> |>
  else if cap =? GL_LIGHTING then st <| ls_lighting ; lt_enable := enabled |>
  else if cap =? GL_COLOR_MATERIAL then st <| ls_lighting ; lt_colorMaterial_enable := enabled |>
  else if (cap =? GL_NORMALIZE) || (cap =? GL_RESCALE_NORMAL) then
    st <| ls_rescaleNormals := if enabled =? 0 then 0 else cap |>
  else light_error GGL_INVALID_ENUM st.

(** ** Initial state *)

Definition init_white : vec4_t := mk_vec4 0x10000 0x10000 0x10000 0x10000.
Definition float_0_2 : Z := 0x3E4CCCCD.
Definition float_0_8 : Z := 0x3F4CCCCD.

(** From a context of zeros. *)
Definition ogles_init_light : light_state :=
  let light := zero_light <| l_ambient ; vw := 0x10000 |> <| l_position ; vz := 0x10000 |>
                 <| l_spotDir ; vz := -0x10000 |> <| l_spotCutoff := gglIntToFixed 180 |>
                 <| l_attenuation := (0x10000, 0, 0) |> in
  let light0 := light <| l_diffuse := init_white |> <| l_specular := init_white |> in
  let grey c := mk_vec4 (gglFloatToFixed c) (gglFloatToFixed c) (gglFloatToFixed c) 0x10000 in
  let black := mk_vec4 0 0 0 0x10000 in
  let front := mk_material (grey float_0_2) (grey float_0_8) black black 0 in
  let lt := mk_lighting (light0 :: repeat light 7) front (mk_light_model (grey float_0_2) 0) 0
              zero_vec4 zero_vec4 0 0 0 use_lightVertexNop in
  mk_light_state (invalidate_lighting lt <| lt_shadeModel := GL_SMOOTH |>)
    (mk_fog 0x10000 0 0x10000 0x10000 GL_EXP use_fog_exp) 0 zero_vec4 GGL_NO_ERROR.
End Light.

(** ** Loops over the enabled lights *)

(** The lights of [en] changed by [f]. *)
Definition each_light (f : light_t -> light_t) (en : Z) (lights : list light_t) : list light_t :=
  imap (fun k l => if Z.testbit en (Z.of_nat k) then f l else l) lights.

Lemma each_light_lookup f en lights k :
  each_light f en lights !! k = (fun l => if Z.testbit en (Z.of_nat k) then f l else l) <$> lights !! k.
Proof. unfold each_light. by rewrite list_lookup_imap. Qed.

Lemma each_light_compose f g en lights : each_light f en (each_light g en lights) = each_light (f ∘ g) en lights.
Proof.
  apply list_eq. intros k. rewrite !each_light_lookup. destruct (lights !! k); cbn; [|done].
  by destruct (Z.testbit en _).
Qed.
Lemma each_light_ext f g en lights : (forall l, f l = g l) -> each_light f en lights = each_light g en lights.
Proof.
  intros H. apply list_eq. intros k. rewrite !each_light_lookup. destruct (lights !! k); cbn; [|done].
  destruct (Z.testbit en _); by rewrite ?H.
Qed.

Lemma clear_top_bit en : 0 < en < 2 ^ 31 ->
  clear_bits (Z.shiftl 1 (Z.log2 en)) en = en - 2 ^ Z.log2 en /\ 0 <= en - 2 ^ Z.log2 en < 2 ^ Z.log2 en /\
  forall k, 0 <= k -> Z.testbit (en - 2 ^ Z.log2 en) k = negb (k =? Z.log2 en) && Z.testbit en k.
Proof.
  intros H. pose proof (Z.log2_spec en ltac:(lia)) as Hl. pose proof (Z.log2_nonneg en) as H0.
  assert (Z.log2 en < 31) as H31 by (apply Z.log2_lt_pow2; lia).
  rewrite Z.pow_succ_r in Hl by lia. set (i := Z.log2 en) in *.
  assert (forall k, 0 <= k -> Z.testbit (en - 2 ^ i) k = negb (k =? i) && Z.testbit en k) as Hb.
  { intros k Hk. assert (Z.testbit en i = true) as Ht by (unfold i; apply Z.bit_log2; lia).
    destruct (Z.lt_total k i) as [Hlt|[->|Hlt]].
    - destruct (Z.eqb_spec k i); [lia|]. cbn. rewrite <-(Z.mod_pow2_bits_low (en - 2 ^ i) i k), <-(Z.mod_pow2_bits_low en i k) by lia.
      f_equal. replace en with ((en - 2 ^ i) + 1 * 2 ^ i) at 2 by lia. by rewrite Z.mod_add by lia.
    - rewrite Z.eqb_refl. apply (testbit_small _ i); lia.
    - destruct (Z.eqb_spec k i); [lia|]. cbn. rewrite (testbit_small _ i), (testbit_small en (i + 1)) by (rewrite ?Z.pow_add_r; lia). done. }
  split; [|split; [lia|done]]. apply Z.bits_inj'. intros k Hk. rewrite Hb by done. unfold clear_bits.
  rewrite Z.land_spec, u32_testbit, Z.lnot_spec, Z.shiftl_1_l, Z.pow2_bits_eqb by lia.
  rewrite (Z.eqb_sym i k). destruct (Z.ltb_spec k 32); [by rewrite andb_comm|].
  rewrite (testbit_small en 31) by lia. by rewrite !andb_false_r.
Qed.

Lemma gglClz_log2 en : 0 < en < 2 ^ 31 -> 31 - gglClz en = Z.log2 en.
Proof. intros H. rewrite gglClz_pos by done. lia. Qed.

Lemma each_light_none f lights : each_light f 0 lights = lights.
Proof.
  apply list_eq. intros k. rewrite each_light_lookup, Z.bits_0. by destruct (lights !! k).
Qed.

(** The loop changes every enabled light once. *)
Lemma over_lights_each (f : material_t -> light_t -> light_t) fuel en lt :
  0 <= en < 2 ^ Z.of_nat fuel -> en < 2 ^ 31 ->
  over_lights fuel (fun i lt => upd_light i (f (lt_front lt)) lt) en lt =
  lt <| lt_lights := each_light (f (lt_front lt)) en (lt_lights lt) |>.
Proof.
  revert en lt. induction fuel as [|fuel IH]; intros en lt Hen H31.
  - assert (en = 0) as -> by lia. rewrite each_light_none. by destruct lt.
  - cbn [over_lights]. destruct (Z.eqb_spec en 0) as [->|Hne].
    { rewrite each_light_none. by destruct lt. }
    rewrite gglClz_log2 by lia. destruct (clear_top_bit en) as (-> & Hr & Hb); [lia|].
    assert (Z.log2 en < Z.of_nat (S fuel)) by (apply Z.log2_lt_pow2; lia).
    pose proof (Z.log2_nonneg en).
    rewrite IH; [|split; [lia|apply Z.lt_le_trans with (2 ^ Z.log2 en); [lia|apply Z.pow_le_mono_r; lia]]|lia].
    unfold upd_light. destruct lt as [lights front lm cm sc ov el e sm lv]. cbn -[each_light]. f_equal.
    apply list_eq. intros k. rewrite !each_light_lookup, Hb by lia.
    destruct (decide (k = Z.to_nat (Z.log2 en))) as [->|Hk].
    + rewrite list_lookup_alter_eq, Z2Nat.id, Z.eqb_refl, Z.bit_log2 by lia. cbn.
      by destruct (lights !! _).
    + rewrite list_lookup_alter_ne by done. destruct (Z.eqb_spec (Z.of_nat k) (Z.log2 en)); [lia|done].
Qed.

Lemma over_lights_preserves {S} (P : S -> Prop) fuel body en (s : S) :
  (forall i s, P s -> P (body i s)) -> P s -> P (over_lights fuel body en s).
Proof.
  intros Hb. revert en s. induction fuel as [|fuel IH]; intros en s Hs; cbn; [done|].
  destruct (en =? 0); auto.
Qed.

Create HintDb light.

(** ** What lighting leaves of a vertex *)

Section LightSpec.
  Variable undefined : Z.

#[local] Opaque over_lights gglMulx gglMulAddx vnorm_factor gglRecipFast lit_color.

#[local] Abbreviation validate_light := (validate_light undefined).
#[local] Abbreviation light_mvi := (light_mvi undefined).
#[local] Abbreviation light_attenuation := (light_attenuation undefined).
#[local] Abbreviation run_lightVertex := (run_lightVertex undefined).

Definition color_ok (c : vec4_t) : Prop :=
  (0 <= vx c <= 0x10000) /\ (0 <= vy c <= 0x10000) /\ (0 <= vz c <= 0x10000) /\ (0 <= vw c <= 0x10000).

(** The vertex with another color, marked as lit. *)
Definition shaded (v v' : vertex_t) : Prop :=
  exists c, color_ok c /\ v' = v <| v_color := c |> <| v_flags ::= set_bits LIT |>.

Lemma gglClampx_bounds c : 0 <= gglClampx c <= 0x10000.
Proof.
  unfold gglClampx, FIXED_ONE. assert (0 <= Z.land c (Z.lnot (Z.shiftr c 31))) as H.
  { destruct (Z.lt_ge_cases c 0).
    - apply Z.land_nonneg. right. apply Z.lnot_nonneg. by rewrite Z.shiftr_neg by lia.
    - apply Z.land_nonneg. by left. }
  case_match; lia.
Qed.

Lemma clamp_color_ok r : color_ok (clamp_color r).
Proof. split_and!; apply gglClampx_bounds. Qed.

Lemma lightVertex_shades cl rn lt lt' v v' : lightVertex undefined cl rn lt v = Some (lt', v') -> lt' = lt /\ shaded v v'.
Proof.
  intros (r & _ & [= <- <-])%bind_Some. split; [done|]. eexists. split; [apply clamp_color_ok|done].
Qed.

Lemma run_picked_shades cl rn lt lt' v v' :
  lt_lightVertex lt = use_lightVertex \/ lt_lightVertex lt = use_lightVertexMaterial ->
  run_picked undefined cl rn lt v = Some (lt', v') -> shaded v v'.
Proof.
  intros [E|E] H; unfold run_picked in H; rewrite E in H.
  - by apply lightVertex_shades in H as [_ ?].
  - apply bind_Some in H as (color & _ & [_ (c & Hc & ->)]%lightVertex_shades). by exists c.
Qed.

Lemma light_picker_cases lt : lt_enable lt <> 0 ->
  lt_lightVertex (light_picker lt) = (if lt_colorMaterial_enable lt =? 0 then use_lightVertex else use_lightVertexMaterial).
Proof. intros He. unfold light_picker. cbn. by destruct (Z.eqb_spec (lt_enable lt) 0). Qed.

(** ** Validation *)

Definition lights_few (lt : lighting_t) : Prop := 0 <= lt_enabledLights lt < 2 ^ 8.

Definition refreshed (m : material_t) (l : light_t) : light_t := light_attenuation (light_products m l).

(** Validation without its loops. *)
Definition validated (lt : lighting_t) : lighting_t :=
  let en := lt_enabledLights lt in
  let lt := if lt_colorMaterial_enable lt =? 0
            then scene_products (lt <| lt_lights ::= each_light (refreshed (lt_front lt)) en |>) else lt in
  lt <| lt_lights ::= each_light light_mvi en |> <| lt_objViewer := mk_vec4 0 0 0x10000 0 |>.

Lemma over_lights_const (f : light_t -> light_t) en lt : 0 <= en < 2 ^ 8 ->
  over_lights 32 (fun i => upd_light i f) en lt = lt <| lt_lights ::= each_light f en |>.
Proof. intros H. by apply (over_lights_each (fun _ => f)); lia. Qed.

Lemma validate_light_eq lt : lights_few lt -> validate_light lt = validated lt.
Proof.
  intros H. unfold Light.validate_light, validated, validate_light_mvi. destruct (lt_colorMaterial_enable lt =? 0).
  - rewrite (over_lights_each refreshed) by (unfold lights_few in H; lia). rewrite over_lights_const by done. done.
  - by rewrite over_lights_const.
Qed.

Lemma light_mvi_again l : light_mvi (light_mvi l) = light_mvi l.
Proof. reflexivity. Qed.
Lemma light_products_again m l : light_products m (light_products m l) = light_products m l.
Proof. reflexivity. Qed.
Lemma light_attenuation_again l : light_attenuation (light_attenuation l) = light_attenuation l.
Proof. unfold Light.light_attenuation. destruct (l_attenuation l) as [[a0 a1] a2] eqn:E; cbn. by rewrite E. Qed.
Lemma products_attenuation m l : light_products m (light_attenuation l) = light_attenuation (light_products m l).
Proof. unfold Light.light_attenuation, light_products. cbn. by destruct (l_attenuation l) as [[a0 a1] a2]. Qed.
Lemma mvi_products m l : light_mvi (light_products m l) = light_products m (light_mvi l).
Proof. reflexivity. Qed.
Lemma mvi_attenuation l : light_mvi (light_attenuation l) = light_attenuation (light_mvi l).
Proof. unfold Light.light_attenuation, Light.light_mvi. cbn. by destruct (l_attenuation l) as [[a0 a1] a2]. Qed.

Lemma refreshed_again m l : refreshed m (refreshed m l) = refreshed m l.
Proof. unfold refreshed. by rewrite products_attenuation, light_products_again, light_attenuation_again. Qed.
Lemma mvi_refreshed m l : light_mvi (refreshed m l) = refreshed m (light_mvi l).
Proof. unfold refreshed. by rewrite mvi_attenuation, mvi_products. Qed.

Lemma scene_products_again lt : scene_products (scene_products lt) = scene_products lt.
Proof. reflexivity. Qed.

Lemma validated_again lt : validated (validated lt) = validated lt.
Proof.
  destruct lt as [lights front lm cm sc ov en e sm lv]. unfold validated. cbn -[each_light].
  destruct (cm =? 0) eqn:E; cbn -[each_light]; rewrite E; cbn -[each_light]; f_equal.
  - rewrite !each_light_compose. apply each_light_ext. intros l. cbn [compose].
    by rewrite <-(mvi_refreshed front (refreshed front l)), refreshed_again, light_mvi_again.
  - rewrite each_light_compose. apply each_light_ext. intros l. apply light_mvi_again.
Qed.

(** The products match the lights and materials when a function was picked. *)
Definition lighting_coherent (lt : lighting_t) : Prop :=
  lights_few lt /\
  match lt_lightVertex lt with
  | use_lightVertexValidate => True
  | use_lightVertexNop => False
  | use_lightVertex => (lt_colorMaterial_enable lt =? 0) = true /\ validated lt = lt
  | use_lightVertexMaterial => (lt_colorMaterial_enable lt =? 0) = false /\ validated lt = lt
  end.

Lemma validated_pointer lt f : validated (lt <| lt_lightVertex := f |>) = (validated lt) <| lt_lightVertex := f |>.
Proof. unfold validated. cbn. by destruct (lt_colorMaterial_enable lt =? 0). Qed.
Lemma validated_invalidate lt : validated (invalidate_lighting lt) = invalidate_lighting (validated lt).
Proof. apply validated_pointer. Qed.
Lemma validated_pick lt : validated (light_picker lt) = (validated lt) <| lt_lightVertex := lt_lightVertex (light_picker lt) |>.
Proof. apply validated_pointer. Qed.

Lemma validated_fields lt :
  lt_colorMaterial_enable (validated lt) = lt_colorMaterial_enable lt /\ lt_enable (validated lt) = lt_enable lt /\
  lt_enabledLights (validated lt) = lt_enabledLights lt.
Proof. unfold validated. by destruct (lt_colorMaterial_enable lt =? 0). Qed.

(** What is run after [invalidate_lighting]. *)
Lemma run_invalidated cl rn lt v : lights_few lt ->
  run_lightVertex cl rn (invalidate_lighting lt) v =
  run_picked undefined cl rn (light_picker (validated lt)) v.
Proof.
  intros H. unfold Light.run_lightVertex. change (lt_lightVertex (invalidate_lighting lt)) with use_lightVertexValidate.
  cbv iota. by rewrite validate_light_eq, validated_invalidate.
Qed.

Lemma run_as_validated cl rn lt v :
  lighting_coherent lt -> lt_enable lt <> 0 ->
  run_lightVertex cl rn lt v = run_lightVertex cl rn (invalidate_lighting lt) v.
Proof.
  intros [Hf H] He. rewrite run_invalidated by done. destruct (lt_lightVertex lt) eqn:E.
  - unfold Light.run_lightVertex. by rewrite E, validate_light_eq.
  - done.
  - destruct H as [Hc ->]. unfold Light.run_lightVertex. rewrite E. unfold light_picker. rewrite Hc.
    destruct (Z.eqb_spec (lt_enable lt) 0); [done|]. rewrite <-E. by destruct lt.
  - destruct H as [Hc ->]. unfold Light.run_lightVertex. rewrite E. unfold light_picker. rewrite Hc.
    destruct (Z.eqb_spec (lt_enable lt) 0); [done|]. rewrite <-E. by destruct lt.
Qed.

(** Lighting a vertex keeps the products coherent. *)
Lemma run_coherent cl rn lt lt' v v' : lighting_coherent lt -> lt_enable lt <> 0 ->
  run_lightVertex cl rn lt v = Some (lt', v') -> lighting_coherent lt' /\ lt_enable lt' = lt_enable lt.
Proof.
  intros H He. rewrite run_as_validated by done. destruct H as [Hf _]. rewrite run_invalidated by done.
  destruct (validated_fields lt) as (Ec & Ee & En). unfold run_picked. rewrite light_picker_cases by (by rewrite Ee).
  assert (lights_few (light_picker (validated lt))) as Hf' 
    by (unfold lights_few; change (lt_enabledLights (light_picker ?x)) with (lt_enabledLights x); by rewrite En).
  destruct (lt_colorMaterial_enable (validated lt) =? 0) eqn:E.
  - intros [-> _]%lightVertex_shades. split; [|by rewrite <-Ee]. split; [done|].
    rewrite light_picker_cases, E by (by rewrite Ee). split; [done|].
    by rewrite validated_pick, validated_again.
  - intros (color & _ & [-> _]%lightVertex_shades)%bind_Some.
    rewrite (over_lights_each light_products) by (unfold lights_few in Hf'; cbn in *; lia).
    pose proof (validated_again lt) as Hw. set (w := validated lt) in *. clearbody w.
    destruct w as [lights front lm cm sc ov en e sm lv]. cbn in E, Ee, En, Ec, Hf'. subst.
    split; [|done]. split; [done|]. cbn -[each_light validated].
    destruct (Z.eqb_spec (lt_enable lt) 0); [done|]. rewrite E. split; [done|].
    unfold validated in Hw |- *. cbn -[each_light] in Hw |- *. rewrite E in Hw |- *. injection Hw as Hl Hv. subst ov.
    assert (forall m, each_light light_mvi (lt_enabledLights lt) (each_light (light_products m) (lt_enabledLights lt) lights) =
      each_light (light_products m) (lt_enabledLights lt) lights) as Hm.
    { intros m. rewrite <-Hl at 2. rewrite !each_light_compose. apply each_light_ext. intros l. apply mvi_products. }
    cbn -[each_light]. by rewrite Hm.
Qed.

Lemma over_lights_enable f fuel en lt : (forall i lt, lt_enable (f i lt) = lt_enable lt) ->
  lt_enable (over_lights fuel f en lt) = lt_enable lt.
Proof. intros H. apply (over_lights_preserves (fun l => lt_enable l = lt_enable lt)); [|done]. intros i s <-. apply H. Qed.

Lemma validate_light_enable lt : lt_enable (validate_light lt) = lt_enable lt.
Proof.
  assert (forall lt v, lt_enable (lt <| lt_objViewer := v |>) = lt_enable lt) as Hv by reflexivity.
  assert (forall lt, lt_enable (scene_products lt) = lt_enable lt) as Hs by reflexivity.
  unfold Light.validate_light, validate_light_mvi. rewrite Hv. rewrite over_lights_enable by reflexivity.
  destruct (lt_colorMaterial_enable lt =? 0); [|reflexivity]. by rewrite Hs, over_lights_enable.
Qed.

(** C30: A lit vertex keeps everything but its color and its [LIT] flag, and its
    color is clamped to 0..1, whatever function was picked for it. *)
Theorem lightVertex_lit cl rn lt lt' v v' :
  lt_enable lt <> 0 -> lt_lightVertex lt <> use_lightVertexNop ->
  run_lightVertex cl rn lt v = Some (lt', v') -> shaded v v'.
Proof.
  intros He Hn. unfold Light.run_lightVertex. destruct (lt_lightVertex lt) eqn:E; [|done|apply run_picked_shades; auto..].
  apply run_picked_shades. pose proof (light_picker_cases (validate_light lt)) as Hp. rewrite validate_light_enable in Hp.
  rewrite (Hp He). destruct (_ =? 0); auto.
Qed.

(** ** The commands *)

Inductive light_command :=
  | C_ShadeModel (mode : Z)
  | C_LightModelx (pname param : Z) | C_LightModelxv (pname : Z) (params : vec4_t)
  | C_Lightx (i pname param : Z) | C_Lightxv (mv : transform_t) (i pname : Z) (params : vec4_t)
  | C_Materialx (face pname param : Z) | C_Materialxv (face pname : Z) (params : vec4_t)
  | C_Materialfv (face pname : Z) (params : vec4_t)
  | C_Fogx (pname param : Z) | C_Fogxv (pname : Z) (params : vec4_t)
  | C_Invalidate                              (* ogles_invalidate_lighting_mvui *)
  | C_Enable (cap enabled : Z).

Definition exec_light (cmd : light_command) (st : light_state) : light_state :=
  match cmd with
  | C_ShadeModel mode => glShadeModel mode st
  | C_LightModelx pname param => glLightModelx pname param st
  | C_LightModelxv pname params => glLightModelxv pname params st
  | C_Lightx i pname param => glLightx i pname param st
  | C_Lightxv mv i pname params => glLightxv undefined mv i pname params st
  | C_Materialx face pname param => glMaterialx face pname param st
  | C_Materialxv face pname params => glMaterialxv face pname params st
  | C_Materialfv face pname params => glMaterialfv face pname params st
  | C_Fogx pname param => glFogx undefined pname param st
  | C_Fogxv pname params => glFogxv undefined pname params st
  | C_Invalidate => st <| ls_lighting ::= invalidate_lighting |>
  | C_Enable cap enabled => enable_light cap enabled st
  end.

(** Lights and the color material are switched while nothing is validated. *)
Definition switch_safe (cmd : light_command) (st : light_state) : Prop :=
  match cmd with
  | C_Enable cap enabled =>
      (enabled = 0 \/ enabled = 1) /\
      (lt_lightVertex (ls_lighting st) = use_lightVertexValidate \/
       ~ (GL_LIGHT0 <= cap < GL_LIGHT0 + OGLES_MAX_LIGHTS) /\ cap <> GL_COLOR_MATERIAL)
  | _ => True
  end.

Inductive light_reachable : light_state -> Prop :=
  | lr_init : light_reachable ogles_init_light
  | lr_command st cmd : light_reachable st -> switch_safe cmd st -> light_reachable (exec_light cmd st)
  | lr_vertex st cl v lt v' : light_reachable st -> lt_enable (ls_lighting st) <> 0 ->
      run_lightVertex cl (ls_rescaleNormals st) (ls_lighting st) v = Some (lt, v') ->
      light_reachable (st <| ls_lighting := lt |>).

Lemma coherent_invalid lt : lights_few lt -> lt_lightVertex lt = use_lightVertexValidate -> lighting_coherent lt.
Proof. intros H E. split; [done|]. by rewrite E. Qed.

Lemma coherent_set f st : lights_few (ls_lighting st) ->
  (forall lt, lt_enabledLights (f lt) = lt_enabledLights lt) -> lighting_coherent (ls_lighting (set_lighting f st)).
Proof. intros H Hf. apply coherent_invalid; [|done]. unfold lights_few. cbn. by rewrite Hf. Qed.

Lemma coherent_error e st : lighting_coherent (ls_lighting st) -> lighting_coherent (ls_lighting (light_error e st)).
Proof. unfold light_error. by destruct (ls_error st =? GGL_NO_ERROR). Qed.

#[local] Hint Resolve coherent_error coherent_set : light.

Lemma lightx_coherent i pname param st : lighting_coherent (ls_lighting st) ->
  lighting_coherent (ls_lighting (lightx i pname param st)).
Proof. intros H. pose proof (proj1 H). unfold lightx. repeat case_match; auto with light. Qed.
Lemma lightModelx_coherent pname param st : lighting_coherent (ls_lighting st) ->
  lighting_coherent (ls_lighting (lightModelx pname param st)).
Proof. intros H. pose proof (proj1 H). unfold lightModelx. repeat case_match; auto with light. Qed.
Lemma material_set_coherent face pname what sh st : lighting_coherent (ls_lighting st) ->
  lighting_coherent (ls_lighting (material_set face pname what sh st)).
Proof. intros H. pose proof (proj1 H). unfold material_set. repeat case_match; auto with light. Qed.
Lemma fogx_coherent pname param st : lighting_coherent (ls_lighting st) ->
  lighting_coherent (ls_lighting (fogx undefined pname param st)).
Proof. intros H. unfold fogx. repeat case_match; auto with light. Qed.
#[local] Hint Resolve lightx_coherent lightModelx_coherent material_set_coherent fogx_coherent : light.

Lemma validated_other lt f : (forall lt, lt_lights (f lt) = lt_lights lt /\ lt_front (f lt) = lt_front lt /\
    lt_lightModel (f lt) = lt_lightModel lt /\ lt_colorMaterial_enable (f lt) = lt_colorMaterial_enable lt /\
    lt_implicitScene (f lt) = lt_implicitScene lt /\ lt_enabledLights (f lt) = lt_enabledLights lt /\
    lt_objViewer (f lt) = lt_objViewer lt /\ lt_lightVertex (f lt) = lt_lightVertex lt) ->
  lighting_coherent lt -> lighting_coherent (f lt).
Proof.
  intros H. destruct (H lt) as (E1 & E2 & E3 & E4 & E5 & E6 & E7 & E8). unfold lighting_coherent, lights_few. rewrite E4, E6, E8.
  assert (validated lt = lt -> validated (f lt) = f lt) as Hv.
  { destruct lt, (f _). cbn in *. subst. unfold validated. cbn -[each_light].
    destruct (_ =? 0); cbn -[each_light]; intros [= ->]; congruence. }
  intros [Hf Hc]. split; [done|]. destruct (lt_lightVertex lt); [done|done| |]; (destruct Hc; split; auto).
Qed.

Lemma enabled_lights_few n enabled en : 0 <= n < 8 -> enabled = 0 \/ enabled = 1 -> 0 <= en < 2 ^ 8 ->
  0 <= Z.lor (clear_bits (Z.shiftl 1 n) en) (Z.shiftl enabled n) < 2 ^ 8.
Proof.
  intros Hn He Hen. apply bits_small; [lia|]. intros i Hi. unfold clear_bits.
  rewrite Z.lor_spec, Z.land_spec, (testbit_small en 8) by lia. cbn.
  destruct He as [-> | ->]; [by rewrite Z.shiftl_0_l, Z.bits_0|].
  rewrite Z.shiftl_1_l, Z.pow2_bits_eqb by lia. apply Z.eqb_neq. lia.
Qed.

Lemma exec_light_coherent cmd st : lighting_coherent (ls_lighting st) -> switch_safe cmd st ->
  lighting_coherent (ls_lighting (exec_light cmd st)).
Proof.
  intros H Hs. pose proof (proj1 H) as Hf. destruct cmd; cbn [exec_light].
  - unfold glShadeModel. case_match; [auto with light|].
    by apply (validated_other (ls_lighting st) (fun lt => lt <| lt_shadeModel := mode |>)).
  - apply lightModelx_coherent, H.
  - unfold glLightModelxv. repeat case_match; auto with light.
  - apply lightx_coherent, H.
  - unfold glLightxv, lightxv. repeat case_match; auto with light.
  - unfold glMaterialx, materialx. repeat case_match; auto with light.
  - apply material_set_coherent, H.
  - apply material_set_coherent, H.
  - apply fogx_coherent, H.
  - unfold glFogxv. repeat case_match; auto with light.
  - by apply coherent_invalid.
  - unfold enable_light. destruct Hs as [He Hs]. destruct ((GL_LIGHT0 <=? cap) && (cap <? GL_LIGHT0 + OGLES_MAX_LIGHTS)) eqn:E.
    + apply andb_true_iff in E as [E1%Z.leb_le E2%Z.ltb_lt]. destruct Hs as [Hs|[Hs _]]; [|lia].
      apply coherent_invalid; [|done]. cbn. apply enabled_lights_few; unfold OGLES_MAX_LIGHTS in *; [lia|done|done].
    + case_match; [by apply (validated_other (ls_lighting st) (fun lt => lt <| lt_enable := enabled |>))|].
      destruct (Z.eqb_spec cap GL_COLOR_MATERIAL).
      * apply coherent_invalid; [done|]. cbn. tauto.
      * repeat case_match; auto with light.
Qed.

Lemma light_reachable_coherent st : light_reachable st -> lighting_coherent (ls_lighting st).
Proof.
  induction 1 as [|st cmd _ IH Hs|st cl v lt v' _ IH He Hr].
  - by apply coherent_invalid.
  - by apply exec_light_coherent.
  - by apply run_coherent in Hr as [? _].
Qed.


(** ** Faults *)

(** Outside of its cone a spot shines as if it had none. *)
Lemma spot_ignored_outside lt obj n l : vw (l_position l) = 0 ->
  s32 (- dot3 (l_normalizedSpotDir l) (l_normalizedObjPosition l)) < l_spotCutoffCosine l ->
  light_color undefined lt obj n l = light_color undefined lt obj n (l <| l_spotCutoff := gglIntToFixed 180 |>).
Proof.
  intros Hp Hc. unfold light_color. cbn. rewrite Hp. cbn.
  destruct (Z.leb_spec (l_spotCutoffCosine l) (s32 (- dot3 (l_normalizedSpotDir l) (l_normalizedObjPosition l)))); [lia|].
  by destruct (negb (l_spotCutoff l =? gglIntToFixed 180)).
Qed.

(** While colors come from the vertices, the attenuations are not recomputed. *)
Lemma attenuation_not_refreshed lt i : (lt_colorMaterial_enable lt =? 0) = false -> lights_few lt ->
  l_rConstAttenuation (get_light (validate_light lt) i) = l_rConstAttenuation (get_light lt i).
Proof.
  intros E H. rewrite validate_light_eq by done. unfold get_light, validated. rewrite E. cbn -[each_light].
  rewrite !nth_lookup, each_light_lookup.
  destruct (lt_lights lt !! Z.to_nat i); cbn; [|done]. by destruct (Z.testbit _ _).
Qed.
End LightSpec.

(** ** Examples *)

(** The first light, shining along z on a vertex whose normal is [n]. *)
Definition example_current (n : list Z) : current_t :=
  mk_current init_white init_white n [zero_vec4; zero_vec4].
Definition example_client : client_t :=
  mk_client (pick_fetchers (mk_fetch_mode true [false; false]) ogles_init_array)
    (example_current [0; 0; 0x10000]) (fun _ => 0)
    (transform_loadIdentity).

(** One light is on, another would add green. *)
Definition example_light_commands : list light_command :=
  [C_Enable GL_LIGHTING 1; C_Enable GL_LIGHT0 1;
   C_Lightxv transform_loadIdentity GL_LIGHT0 GL_AMBIENT (mk_vec4 0x8000 0 0 0x10000);
   C_Lightxv transform_loadIdentity (GL_LIGHT0 + 1) GL_AMBIENT (mk_vec4 0 0x8000 0 0x10000)].
Definition example_lights : light_state := Eval vm_compute in
  fold_left (fun st cmd => exec_light 0 cmd st) example_light_commands ogles_init_light.

Lemma example_lights_reachable : light_reachable 0 example_lights.
Proof.
  change example_lights with
    (exec_light 0 (nth 3 example_light_commands C_Invalidate) (exec_light 0 (nth 2 example_light_commands C_Invalidate)
      (exec_light 0 (C_Enable GL_LIGHT0 1) (exec_light 0 (C_Enable GL_LIGHTING 1) ogles_init_light)))).
  do 4 (apply lr_command; [|cbn; auto]). apply lr_init.
Qed.

(** The lighting after a vertex was lit. *)
Definition example_validated : lighting_t := Eval vm_compute in
  match run_lightVertex 0 example_client 0 (ls_lighting example_lights) zero_vertex with
  | Some (lt, _) => lt | None => ls_lighting example_lights
  end.

Lemma lightVertex_lit_witness :
  exists lt' v', run_lightVertex 0 example_client 0 (ls_lighting example_lights) zero_vertex = Some (lt', v') /\
    v_color v' = mk_vec4 61604 55050 55050 0x10000 /\ shaded zero_vertex v'.
Proof.
  destruct (run_lightVertex 0 example_client 0 (ls_lighting example_lights) zero_vertex) as [[lt' v']|] eqn:E;
    [|vm_compute in E; discriminate E].
  exists lt', v'. split; [reflexivity|]. split; [vm_compute in E; injection E as _ <-; reflexivity|].
  apply (lightVertex_lit 0 example_client 0 (ls_lighting example_lights) lt'); [discriminate|discriminate|exact E].
Defined.


(** Switched on between two vertices, the other light adds nothing until
    something invalidates the lighting. *)
Lemma enable_light_stale :
  let st := enable_light (GL_LIGHT0 + 1) 1 (example_lights <| ls_lighting := example_validated |>) in
  let color lt := v_color ∘ snd <$> run_lightVertex 0 example_client 0 lt zero_vertex in
  color (ls_lighting st) = Some (mk_vec4 61604 55050 55050 0x10000) /\
  color (invalidate_lighting (ls_lighting st)) = Some (mk_vec4 61604 61604 55050 0x10000).
Proof. split; vm_compute; reflexivity. Qed.

(** [glMaterialxv] takes a shininess of 8.0 for the float 524288.0. *)
Lemma shininess_scaled_twice :
  let shininess st := mt_shininess (lt_front (ls_lighting st)) in
  shininess (glMaterialx GL_FRONT_AND_BACK GL_SHININESS 0x80000 ogles_init_light) = 0x80000 /\
  shininess (glMaterialxv GL_FRONT_AND_BACK GL_SHININESS (mk_vec4 0x80000 0 0 0) ogles_init_light) = - 2 ^ 31.
Proof. split; vm_compute; reflexivity. Qed.
