(* ===== verification/Lerp.v ===== *)
(** * Interpolation over a triangle

    Models [compute_iterators_t] of swrender/primitives.cpp: the setup of the
    interpolation over a triangle or along a line, and the start values and
    gradients of colors, fog and depth.

    [iterators1616_accuracy] bounds the error of the gradients.  The lemmas at
    the end show where the setup leaves the range of its shifts. *)

From S2P Require Import Prelude Fixed Names Context Vertex Clipping.

Record compute_iterators_t := mk_iterators {
  ci_dx01 : Z; ci_dy10 : Z; ci_dx20 : Z; ci_dy02 : Z;
  ci_x0 : Z; ci_y0 : Z; ci_area : Z; ci_scale : Z; ci_area_scale : Z }.
#[export] Instance eta_iterators : Eta compute_iterators_t := fun r =>
  mk_iterators (ci_dx01 r) (ci_dy10 r) (ci_dx20 r) (ci_dy02 r) (ci_x0 r) (ci_y0 r) (ci_area r)
    (ci_scale r) (ci_area_scale r).

(** [(a | b | ...)]'s leading zeros, of absolute values. *)
Definition abs32 (x : Z) : Z := s32 (Z.abs x).

(** [m_area] of both setups. *)
Definition area_of (dx01 dy10 dx20 dy02 : Z) : Z := s32 (s32 (dx01 * dy02) + s32 (s32 (- dy10) * dx20)).

(** The members the setups do not write are never read before [initLerp]
    writes them. *)
Definition initTriangle (v0 v1 v2 : vertex_t) : compute_iterators_t :=
  let dx01 := s32 (vx (v_window v1) - vx (v_window v0)) in
  let dy10 := s32 (vy (v_window v0) - vy (v_window v1)) in
  let dx20 := s32 (vx (v_window v0) - vx (v_window v2)) in
  let dy02 := s32 (vy (v_window v2) - vy (v_window v0)) in
  mk_iterators dx01 dy10 dx20 dy02 0 0 (area_of dx01 dy10 dx20 dy02) 0 0.

Definition initLine (v0 v1 : vertex_t) : compute_iterators_t :=
  let dx01 := s32 (vx (v_window v1) - vx (v_window v0)) in
  let dy10 := s32 (vy (v_window v0) - vy (v_window v1)) in
  mk_iterators dx01 dy10 dy10 dx01 0 0 (area_of dx01 dy10 dy10 dx01) 0 0.

Section Lerp.
  (** What C leaves undefined: the result of a shift whose count is not below
      the width. *)
  Variable undefined : Z.

Definition mulx (a b shift : Z) : Z := if (1 <=? shift) && (shift <=? 32) then gglMulx_shift a b shift else undefined.
Definition muladdx (a b c shift : Z) : Z :=
  if (0 <=? shift) && (shift <? 64) then gglMulAddx_shift a b c shift else undefined.
Definition shl32 (x n : Z) : Z := if shift_ok n then s32 (Z.shiftl x n) else undefined.
Definition shr32 (x n : Z) : Z := if shift_ok n then Z.shiftr x n else undefined.

(** [abs(m_dy02)|abs(m_dy10)|abs(m_dx01)|abs(m_dx20)]. *)
Definition delta_bits (l : compute_iterators_t) : Z :=
  Z.lor (Z.lor (Z.lor (abs32 (ci_dy02 l)) (abs32 (ci_dy10 l))) (abs32 (ci_dx01 l))) (abs32 (ci_dx20 l)).

(** The reciprocal [d] of the area, the shift [s] and the exponent [q]. *)
Definition area_reciprocal (l : compute_iterators_t) : Z * Z * Z :=
  let area := Z.shiftr (s32 (ci_area l + TRI_HALF)) TRI_FRACTION_BITS in
  let minArea := 2 in
  if minArea <=? abs32 area then
    let '(d, q) := gglRecipQNormalized area in
    let s := 32 - gglClz (delta_bits l) in
    let s := s + 15 in
    let s := if s <? q then q else s in
    if 32 <? s then (shr32 d (32 - s), 32, q) else (d, s, q)
  else (0, 0, 0).

Definition initLerp (v0 : vertex_t) (enables : Z) (l : compute_iterators_t) : compute_iterators_t :=
  let l := l <| ci_x0 := vx (v_window v0) |> <| ci_y0 := vy (v_window v0) |> in
  let '(d, s, q) := area_reciprocal l in
  let l := l <| ci_dx01 ::= fun m => mulx m d s |> <| ci_dy10 ::= fun m => mulx m d s |>
             <| ci_dx20 ::= fun m => mulx m d s |> <| ci_dy02 ::= fun m => mulx m d s |>
             <| ci_area_scale := u8 (32 + q - s) |> in
  l <| ci_scale :=
    if has enables GGL_ENABLE_TMUS then
      let A := gglClz (delta_bits l) in
      let B := gglClz (Z.lor (abs32 (ci_x0 l)) (abs32 (ci_y0 l))) in
      u8 (Z.max 0 (32 - (A + 16)) + Z.max 0 (32 - (B + TRI_FRACTION_BITS)) + 1)
    else 0 |>.

(** The value at the origin and the two gradients, from the differences to the
    value at the first vertex. *)
Definition gradients (l : compute_iterators_t) (c0 dc01 dc02 : Z) : list Z :=
  let s := ci_area_scale l in
  let dcdx := muladdx dc01 (ci_dy02 l) (mulx dc02 (ci_dy10 l) s) s in
  let dcdy := muladdx dc02 (ci_dx01 l) (mulx dc01 (ci_dx20 l) s) s in
  let c := s32 (c0 - gglMulAddx_shift dcdx (ci_x0 l) (gglMulx_shift dcdy (ci_y0 l) TRI_FRACTION_BITS)
                       TRI_FRACTION_BITS) in
  [c; dcdx; dcdy].

(** Also the scale of the result. *)
Definition iteratorsScale (l : compute_iterators_t) (c0 c1 c2 : Z) : list Z * Z :=
  let dc01 := s32 (c1 - c0) in
  let dc02 := s32 (c2 - c0) in
  let A := gglClz (abs32 c0) in
  let B := gglClz (Z.lor (abs32 dc01) (abs32 dc02)) in
  let scale := Z.min A (B - ci_scale l) - 2 in
  let shift x := if 0 <=? scale then shl32 x scale else shr32 x (- scale) in
  (gradients l (shift c0) (shift dc01) (shift dc02), scale).

Definition iterators1616 (l : compute_iterators_t) (c0 c1 c2 : Z) : list Z :=
  gradients l c0 (s32 (c1 - c0)) (s32 (c2 - c0)).

(** With 64-bit results. *)
Definition iterators0032_64 (l : compute_iterators_t) (c0 c1 c2 : Z) : list Z :=
  let s := ci_area_scale l - 16 in
  let dc01 := shr32 (s32 (c1 - c0)) s in
  let dc02 := shr32 (s32 (c2 - c0)) s in
  let dcdx := s64 (gglMulii dc01 (ci_dy02 l) + gglMulii dc02 (ci_dy10 l)) in
  let dcdy := s64 (gglMulii dc02 (ci_dx01 l) + gglMulii dc01 (ci_dx20 l)) in
  [s64 (s32 (Z.shiftl c0 16) - Z.shiftr (s64 (s64 (dcdx * ci_x0 l) + s64 (dcdy * ci_y0 l))) 4); dcdx; dcdy].
Definition iterators0032 (l : compute_iterators_t) (c0 c1 c2 : Z) : list Z :=
  map s32 (iterators0032_64 l c0 c1 c2).
End Lerp.

(** ** Accuracy *)

Lemma abs_le_sum a b c : a = b + c -> Z.abs a <= Z.abs b + Z.abs c.
Proof. intros ->. apply Z.abs_triangle. Qed.
Lemma mul_le_mono_nonneg_l' k a b : 0 <= k -> a <= b -> k * a <= k * b.
Proof. intros. by apply Z.mul_le_mono_nonneg_l. Qed.

(** Rounding division, as [gglMulx] does it. *)
Lemma mulx_error undefined a d s : 1 <= s <= 31 -> Z.abs (a * d) <= 2 ^ 30 * 2 ^ s ->
  2 * Z.abs (2 ^ s * mulx undefined a d s - a * d) <= 2 ^ s.
Proof.
  intros Hs Ha. unfold mulx. replace ((1 <=? s) && (s <=? 32)) with true by (symmetry; rewrite andb_true_iff, !Z.leb_le; lia).
  assert (2 ^ s = 2 * 2 ^ (s - 1)) as E by (rewrite <-Z.pow_succ_r by lia; f_equal; lia).
  assert (0 < 2 ^ (s - 1)) by lia. rewrite gglMulx_shift_spec by lia.
  set (P := 2 ^ (s - 1)) in *. rewrite E in *. clear E.
  pose proof (Z.div_mod (a * d + P) (2 * P) ltac:(lia)) as D.
  pose proof (Z.mod_pos_bound (a * d + P) (2 * P) ltac:(lia)) as M.
  set (k := (a * d + P) / (2 * P)) in *. lia.
Qed.

(** [m] is [m0] over the area [A], scaled by [S]. *)
Definition over_area (A S m0 m : Z) : Prop := 25800 * Z.abs (m * A - m0 * S) <= 12900 * Z.abs A + 2 * (Z.abs m0 * S).

Lemma mulx_over_area undefined A d q s m0 : 1 <= s <= 31 -> s <= 32 + q -> Z.abs (m0 * d) <= 2 ^ 30 * 2 ^ s ->
  12900 * Z.abs (2 ^ (32 + q) - d * A) <= 2 ^ (32 + q) ->
  over_area A (2 ^ (32 + q - s)) m0 (mulx undefined m0 d s).
Proof.
  intros Hs Hq Hm Hd. pose proof (mulx_error undefined m0 d s Hs Hm) as He.
  set (m := mulx _ _ _ _) in *. assert (2 ^ (32 + q) = 2 ^ s * 2 ^ (32 + q - s)) as E.
  { rewrite <-Z.pow_add_r by lia. f_equal. lia. }
  rewrite E in Hd. unfold over_area. set (S := 2 ^ (32 + q - s)) in *. assert (0 < 2 ^ s) by lia. set (P := 2 ^ s) in *.
  apply Z.mul_le_mono_pos_l with P; [done|].
  assert (P * Z.abs (m * A - m0 * S) <= Z.abs (P * m - m0 * d) * Z.abs A + Z.abs m0 * Z.abs (P * S - d * A)) as T.
  { rewrite <-(Z.abs_eq P) at 1 by lia. rewrite <-!Z.abs_mul. rewrite <-(Z.abs_opp (m0 * _)). apply abs_le_sum. ring. }
  pose proof (Z.mul_le_mono_nonneg_r _ _ (Z.abs A) (Z.abs_nonneg A) He) as H1.
  pose proof (mul_le_mono_nonneg_l' (Z.abs m0) _ _ (Z.abs_nonneg m0) Hd) as H2.
  set (e1 := Z.abs (P * m - m0 * d)) in *. set (e2 := Z.abs (P * S - d * A)) in *. lia.
Qed.

(** The error of a gradient. *)
Definition gradient_ok (A S dc1 a1 dc2 a2 g : Z) : Prop :=
  25800 * (S * Z.abs (g * A - (dc1 * a1 + dc2 * a2))) <=
  38700 * (S * Z.abs A) + 12900 * ((Z.abs dc1 + Z.abs dc2) * Z.abs A) + 2 * (S * (Z.abs (dc1 * a1) + Z.abs (dc2 * a2))).

(** What [gradient_ok] needs: differences of attributes of at most 25 bits, and
    a slope that leaves room in 32 bits. *)
Definition slope_ok (A dc1 a1 dc2 a2 : Z) : Prop :=
  Z.abs dc1 <= 2 ^ 25 /\ Z.abs dc2 <= 2 ^ 25 /\ Z.abs (dc1 * a1) + Z.abs (dc2 * a2) <= 2 ^ 28 * Z.abs A.

(** How a product with a member of the iterators differs. *)
Lemma product_error A S dc a m : over_area A S a m ->
  25800 * Z.abs (dc * m * A - dc * a * S) <= 12900 * (Z.abs dc * Z.abs A) + 2 * (Z.abs (dc * a) * S).
Proof.
  unfold over_area. intros H. pose proof (mul_le_mono_nonneg_l' (Z.abs dc) _ _ (Z.abs_nonneg dc) H) as H1.
  replace (dc * m * A - dc * a * S) with (dc * (m * A - a * S)) by ring. rewrite !Z.abs_mul in *. lia.
Qed.

(** A product of a difference and a member stays small. *)
Lemma product_small A S dc a m : A <> 0 -> 2 <= S -> over_area A S a m ->
  Z.abs dc <= 2 ^ 25 -> Z.abs (dc * a) <= 2 ^ 28 * Z.abs A -> Z.abs (dc * m) <= 2 ^ 29 * S.
Proof.
  intros HA HS Hm Hd Ha. apply (product_error A S dc a m) in Hm.
  apply Z.mul_le_mono_pos_r with (Z.abs A); [lia|]. rewrite <-Z.abs_mul.
  pose proof (abs_le_sum (dc * m * A) (dc * m * A - dc * a * S) (dc * a * S) ltac:(ring)) as T.
  rewrite (Z.abs_mul (dc * a) S), (Z.abs_eq S) in T by lia.
  pose proof (Z.mul_le_mono_nonneg_r _ _ S ltac:(lia) Ha) as H1.
  pose proof (Z.mul_le_mono_nonneg_r _ _ (Z.abs A) (Z.abs_nonneg A) Hd) as H2.
  pose proof (mul_le_mono_nonneg_l' (Z.abs A) _ _ (Z.abs_nonneg A) HS) as H3.
  set (p := Z.abs (dc * m * A)) in *. set (e := Z.abs (_ - _)) in *. set (AS := Z.abs A * S) in *.
  replace (2 ^ 28 * Z.abs A * S) with (2 ^ 28 * AS) in H1 by (subst AS; ring).
  replace (2 ^ 29 * S * Z.abs A) with (2 ^ 29 * AS) by (subst AS; ring). lia.
Qed.

Lemma gradient_accuracy undefined A s dc1 a1 m1 dc2 a2 m2 : 1 <= s <= 31 -> A <> 0 ->
  over_area A (2 ^ s) a1 m1 -> over_area A (2 ^ s) a2 m2 -> slope_ok A dc1 a1 dc2 a2 ->
  gradient_ok A (2 ^ s) dc1 a1 dc2 a2 (muladdx undefined dc1 m1 (mulx undefined dc2 m2 s) s).
Proof.
  intros Hs HA H1 H2 (Hd1 & Hd2 & Hm).
  assert (2 <= 2 ^ s) as HS by (change 2 with (2 ^ 1) at 1; apply Z.pow_le_mono_r; lia).
  pose proof (product_small A (2 ^ s) dc1 a1 m1 HA HS H1 Hd1 ltac:(lia)) as P1.
  pose proof (product_small A (2 ^ s) dc2 a2 m2 HA HS H2 Hd2 ltac:(lia)) as P2.
  apply (product_error _ _ dc1) in H1. apply (product_error _ _ dc2) in H2.
  pose proof (mulx_error undefined dc2 m2 s Hs ltac:(lia)) as E2.
  set (r2 := mulx undefined dc2 m2 s) in *.
  unfold muladdx. replace ((0 <=? s) && (s <? 64)) with true by (symmetry; rewrite andb_true_iff, Z.leb_le, Z.ltb_lt; lia).
  unfold gglMulAddx_shift. rewrite Z.shiftr_div_pow2 by lia. set (S := 2 ^ s) in *. clearbody r2.
  pose proof (Z.div_mod (dc1 * m1) S ltac:(lia)) as D. pose proof (Z.mod_pos_bound (dc1 * m1) S ltac:(lia)) as M.
  set (r1 := dc1 * m1 / S) in *. clearbody r1 S.
  assert (Z.abs r1 <= 2 ^ 29 + 1) as B1.
  { apply Z.mul_le_mono_pos_l with S; [lia|]. rewrite <-(Z.abs_eq S) at 1 by lia. rewrite <-Z.abs_mul.
    set (X := S * r1) in *. lia. }
  assert (Z.abs r2 <= 2 ^ 29 + 1) as B2.
  { apply Z.mul_le_mono_pos_l with S; [lia|]. rewrite <-(Z.abs_eq S) at 1 by lia. rewrite <-Z.abs_mul.
    set (X := S * r2) in *. lia. }
  rewrite (s32_id r1), s32_id by (unfold is_s32; lia). unfold gradient_ok.
  assert (2 * Z.abs ((r1 + r2) * S - (dc1 * m1 + dc2 * m2)) <= 3 * S) as Hg.
  { rewrite Z.mul_add_distr_r, !(Z.mul_comm _ S). set (X := S * r1) in *. set (Y := S * r2) in *. lia. }
  set (T := dc1 * m1 + dc2 * m2) in *. set (g := r1 + r2) in *.
  assert (S * Z.abs (g * A - (dc1 * a1 + dc2 * a2)) <=
          Z.abs (g * S - T) * Z.abs A + (Z.abs (dc1 * m1 * A - dc1 * a1 * S) + Z.abs (dc2 * m2 * A - dc2 * a2 * S))) as HN.
  { rewrite <-(Z.abs_eq S) at 1 by lia. rewrite <-!Z.abs_mul. etransitivity; [|apply Z.add_le_mono_l, Z.abs_triangle].
    apply abs_le_sum. subst T. ring. }
  pose proof (Z.mul_le_mono_nonneg_r _ _ (Z.abs A) (Z.abs_nonneg A) Hg) as Hg'.
  clear - H1 H2 HN Hg'. generalize dependent (Z.abs (dc1 * m1 * A - dc1 * a1 * S)).
  generalize dependent (Z.abs (dc2 * m2 * A - dc2 * a2 * S)). generalize (Z.abs (dc1 * a1)) (Z.abs (dc2 * a2)).
  generalize dependent (Z.abs (g * S - T)). generalize (Z.abs (g * A - (dc1 * a1 + dc2 * a2))).
  generalize (Z.abs A) (Z.abs dc1) (Z.abs dc2). clear. intros. lia.
Qed.

(** *** The setup *)

Definition small_deltas (l : compute_iterators_t) : Prop :=
  Z.abs (ci_dx01 l) < 2 ^ 15 /\ Z.abs (ci_dy10 l) < 2 ^ 15 /\ Z.abs (ci_dx20 l) < 2 ^ 15 /\ Z.abs (ci_dy02 l) < 2 ^ 15.
Definition deltas (l : compute_iterators_t) : list Z := [ci_dx01 l; ci_dy10 l; ci_dx20 l; ci_dy02 l].
(** The area in pixels, rounded to 1/16. *)
Definition pixel_area (l : compute_iterators_t) : Z := (ci_area l + 8) / 16.

Lemma log2_delta_bits l a : small_deltas l -> In a (deltas l) -> Z.log2 (Z.abs a) <= Z.log2 (delta_bits l).
Proof.
  intros (H1 & H2 & H3 & H4) Ha. unfold delta_bits, abs32. rewrite !s32_id by (unfold is_s32; lia).
  rewrite !Z.log2_lor by (rewrite ?Z.lor_nonneg; lia). destruct Ha as [<-|[<-|[<-|[<-|[]]]]]; lia.
Qed.

Lemma delta_bits_nonneg l : small_deltas l -> 0 <= delta_bits l.
Proof.
  intros (H1 & H2 & H3 & H4). unfold delta_bits, abs32. rewrite !s32_id by (unfold is_s32; lia).
  rewrite !Z.lor_nonneg. lia.
Qed.

Lemma log2_delta_bits_lt l : small_deltas l -> Z.log2 (delta_bits l) < 15.
Proof.
  intros (H1 & H2 & H3 & H4). unfold delta_bits, abs32. rewrite !s32_id by (unfold is_s32; lia).
  rewrite !Z.log2_lor by (rewrite ?Z.lor_nonneg; lia).
  assert (forall a, Z.abs a < 2 ^ 15 -> Z.log2 (Z.abs a) < 15) as L.
  { intros a Ha. destruct (Z.eq_dec a 0) as [->|]; [done|]. apply Z.log2_lt_pow2; lia. }
  pose proof (L _ H1). pose proof (L _ H2). pose proof (L _ H3). pose proof (L _ H4). lia.
Qed.

(** Every delta is below 2^b, where [b] bits hold all of them. *)
Lemma delta_lt l a : small_deltas l -> In a (deltas l) -> Z.abs a < 2 ^ (Z.log2 (delta_bits l) + 1).
Proof.
  intros Hl Ha. pose proof (log2_delta_bits l a Hl Ha) as H. pose proof (Z.log2_nonneg (delta_bits l)).
  destruct (Z.eq_dec a 0) as [->|]; [cbn; lia|]. apply Z.log2_lt_pow2; lia.
Qed.

Lemma pixel_area_log2 l : small_deltas l ->
  ci_area l = ci_dx01 l * ci_dy02 l - ci_dy10 l * ci_dx20 l -> 3 <= Z.abs (pixel_area l) ->
  1 <= Z.log2 (Z.abs (pixel_area l)) <= 2 * (Z.log2 (delta_bits l) + 1) /\ Z.abs (pixel_area l) < 2 ^ 28.
Proof.
  intros Hl HA H3. assert (Z.log2 3 <= Z.log2 (Z.abs (pixel_area l))) as L by (apply Z.log2_le_mono; lia).
  change (Z.log2 3) with 1 in L. pose proof (log2_delta_bits_lt l Hl) as Hb. pose proof (Z.log2_nonneg (delta_bits l)) as H0.
  set (b := Z.log2 (delta_bits l) + 1).
  assert (forall x y, In x (deltas l) -> In y (deltas l) -> Z.abs (x * y) <= 2 ^ (2 * b)) as P.
  { intros x y Hx Hy. rewrite Z.abs_mul. replace (2 * b) with (b + b) by lia. rewrite Z.pow_add_r by lia.
    apply Z.mul_le_mono_nonneg; (lia || (apply Z.lt_le_incl, delta_lt; done)). }
  pose proof (P (ci_dx01 l) (ci_dy02 l) ltac:(cbn; tauto) ltac:(cbn; tauto)) as P1.
  pose proof (P (ci_dy10 l) (ci_dx20 l) ltac:(cbn; tauto) ltac:(cbn; tauto)) as P2.
  assert (2 ^ (2 * b) <= 2 ^ 30) by (apply Z.pow_le_mono_r; lia). assert (2 ^ 2 <= 2 ^ (2 * b)) by (apply Z.pow_le_mono_r; lia).
  assert (Z.abs (ci_area l) <= 2 * 2 ^ (2 * b)) as PA by lia. clear HA P P1 P2.
  unfold pixel_area in *. pose proof (Z.div_mod (ci_area l + 8) 16 ltac:(done)) as D.
  pose proof (Z.mod_pos_bound (ci_area l + 8) 16 ltac:(done)) as M. set (A := (ci_area l + 8) / 16) in *.
  assert (Z.log2 (Z.abs A) < 2 * b + 1); [|lia]. apply Z.log2_lt_pow2; [lia|]. rewrite Z.pow_add_r by lia. lia.
Qed.

Lemma area_small l : small_deltas l ->
  ci_area l = ci_dx01 l * ci_dy02 l - ci_dy10 l * ci_dx20 l -> Z.abs (ci_area l) < 2 ^ 31 - 16.
Proof.
  intros (H1 & H2 & H3 & H4) ->.
  assert (forall x y, Z.abs x < 2 ^ 15 -> Z.abs y < 2 ^ 15 -> Z.abs (x * y) <= (2 ^ 15 - 1) * (2 ^ 15 - 1)) as P.
  { intros x y Hx Hy. rewrite Z.abs_mul. apply Z.mul_le_mono_nonneg; lia. }
  pose proof (P _ _ H1 H4). pose proof (P _ _ H2 H3). lia.
Qed.

Lemma area_reciprocal_ok l : small_deltas l ->
  ci_area l = ci_dx01 l * ci_dy02 l - ci_dy10 l * ci_dx20 l -> 3 <= Z.abs (pixel_area l) ->
  exists d s q, area_reciprocal 0 l = (d, s, q) /\ (forall undefined, area_reciprocal undefined l = (d, s, q)) /\
    s = Z.log2 (delta_bits l) + 16 /\ q = Z.log2 (Z.abs (pixel_area l)) - 2 /\ Z.abs d <= 2 ^ 30 + 2 ^ 28 /\
    12900 * Z.abs (2 ^ (32 + q) - d * pixel_area l) <= 2 ^ (32 + q).
Proof.
  intros Hl HA H3. pose proof (pixel_area_log2 l Hl HA H3) as [HL HA28].
  pose proof (log2_delta_bits_lt l Hl) as Hb. pose proof (Z.log2_nonneg (delta_bits l)) as H0.
  pose proof (gglRecipQNormalized_accuracy (pixel_area l) ltac:(lia)) as R.
  destruct (gglRecipQNormalized (pixel_area l)) as [d q] eqn:E. destruct R as (Hq & Hd & He).
  rewrite gglClz_pos in Hq by lia.
  assert (forall undefined, area_reciprocal undefined l = (d, Z.log2 (delta_bits l) + 16, q)) as HR.
  { intros undefined. unfold area_reciprocal.
    assert (Z.abs (ci_area l) < 2 ^ 31 - 16) as HA'.
    { by apply area_small. }
    rewrite (s32_id (ci_area l + TRI_HALF)) by (unfold is_s32, TRI_HALF; lia).
    rewrite Z.shiftr_div_pow2 by done. change ((ci_area l + TRI_HALF) / 2 ^ TRI_FRACTION_BITS) with (pixel_area l).
    unfold abs32. rewrite s32_id by (unfold is_s32; lia). rewrite (proj2 (Z.leb_le 2 _)) by lia. rewrite E.
    assert (0 < delta_bits l < 2 ^ 31) as HD.
    { pose proof (delta_bits_nonneg l Hl). destruct (Z.eq_dec (delta_bits l) 0) as [Ez|].
      - rewrite Ez in HL. cbn in HL. exfalso.
        assert (forall a, In a (deltas l) -> Z.abs a < 2) as Z2 by (intros a Ha; pose proof (delta_lt l a Hl Ha) as Hd'; by rewrite Ez in Hd').
        pose proof (Z2 (ci_dx01 l) ltac:(cbn; tauto)). pose proof (Z2 (ci_dy02 l) ltac:(cbn; tauto)).
        pose proof (Z2 (ci_dy10 l) ltac:(cbn; tauto)). pose proof (Z2 (ci_dx20 l) ltac:(cbn; tauto)).
        assert (Z.abs (ci_area l) <= 2) by (rewrite HA; nia). clear - H3 H6.
        unfold pixel_area in H3. pose proof (Z.div_mod (ci_area l + 8) 16 ltac:(done)).
        pose proof (Z.mod_pos_bound (ci_area l + 8) 16 ltac:(done)). lia.
      - split; [lia|]. apply Z.log2_lt_pow2; lia. }
    rewrite gglClz_pos by done. replace (32 - (31 - Z.log2 (delta_bits l)) + 15) with (Z.log2 (delta_bits l) + 16) by lia.
    destruct (Z.ltb_spec (Z.log2 (delta_bits l) + 16) q); [lia|].
    by destruct (Z.ltb_spec 32 (Z.log2 (delta_bits l) + 16)); [lia|]. }
  exists d, (Z.log2 (delta_bits l) + 16), q. split_and!; auto. lia.
Qed.

Lemma s32_wraps z : exists k, s32 z = z + k * 2 ^ 32.
Proof.
  exists (- ((z + 2 ^ 31) / 2 ^ 32)). unfold s32. pose proof (Z.div_mod (z + 2 ^ 31) (2 ^ 32) ltac:(done)). lia.
Qed.

(** The value at the origin, plus the gradients up to the first vertex, is the
    value at that vertex, but for the rounding and 32-bit wrap-around. *)
Lemma gradients_at_vertex undefined l c0 dc01 dc02 :
  exists c dcdx dcdy r k, gradients undefined l c0 dc01 dc02 = [c; dcdx; dcdy] /\ -8 <= r <= 22 /\
    16 * c + dcdx * ci_x0 l + dcdy * ci_y0 l = 16 * c0 + r + k * 2 ^ 36.
Proof.
  unfold gradients. cbv zeta. generalize (muladdx undefined dc01 (ci_dy02 l) (mulx undefined dc02 (ci_dy10 l) (ci_area_scale l)) (ci_area_scale l)).
  generalize (muladdx undefined dc02 (ci_dx01 l) (mulx undefined dc01 (ci_dx20 l) (ci_area_scale l)) (ci_area_scale l)).
  intros dcdy dcdx.
  unfold gglMulAddx_shift, gglMulx_shift.
  change (s32 (Z.shiftl 1 (TRI_FRACTION_BITS - 1))) with 8. rewrite !(Z.shiftr_div_pow2 _ TRI_FRACTION_BITS) by done.
  change (2 ^ TRI_FRACTION_BITS) with 16. set (a := dcdx * ci_x0 l). set (b := dcdy * ci_y0 l).
  destruct (s32_wraps (a / 16)) as [k1 E1]. destruct (s32_wraps ((b + 8) / 16)) as [k2 E2].
  destruct (s32_wraps (s32 (a / 16) + s32 ((b + 8) / 16))) as [k3 E3].
  destruct (s32_wraps (c0 - s32 (s32 (a / 16) + s32 ((b + 8) / 16)))) as [k4 E4].
  eexists _, dcdx, dcdy, (a mod 16 + (b + 8) mod 16 - 8), (k4 - k3 - k2 - k1). split; [reflexivity|].
  pose proof (Z.mod_pos_bound a 16 ltac:(done)). pose proof (Z.mod_pos_bound (b + 8) 16 ltac:(done)).
  pose proof (Z.div_mod a 16 ltac:(done)). pose proof (Z.div_mod (b + 8) 16 ltac:(done)).
  change (dcdx * ci_x0 l) with a. change (dcdy * ci_y0 l) with b. lia.
Qed.

Definition small_triangle (v0 v1 v2 : vertex_t) : Prop :=
  let p v := v_window v in
  Z.abs (vx (p v1) - vx (p v0)) < 2 ^ 15 /\ Z.abs (vy (p v0) - vy (p v1)) < 2 ^ 15 /\
  Z.abs (vx (p v0) - vx (p v2)) < 2 ^ 15 /\ Z.abs (vy (p v2) - vy (p v0)) < 2 ^ 15.

Lemma initTriangle_small v0 v1 v2 : small_triangle v0 v1 v2 ->
  small_deltas (initTriangle v0 v1 v2) /\
  ci_area (initTriangle v0 v1 v2) = ci_dx01 (initTriangle v0 v1 v2) * ci_dy02 (initTriangle v0 v1 v2) -
    ci_dy10 (initTriangle v0 v1 v2) * ci_dx20 (initTriangle v0 v1 v2).
Proof.
  intros (H1 & H2 & H3 & H4). unfold initTriangle, small_deltas. cbn. rewrite !(s32_id (_ - _)) by (unfold is_s32; lia).
  split; [done|]. unfold area_of.
  assert (forall x y, Z.abs x < 2 ^ 15 -> Z.abs y < 2 ^ 15 -> Z.abs (x * y) <= (2 ^ 15 - 1) * (2 ^ 15 - 1)) as P.
  { intros x y Hx Hy. rewrite Z.abs_mul. apply Z.mul_le_mono_nonneg; lia. }
  pose proof (P _ _ H1 H4) as P1. pose proof (P _ _ H2 H3) as P2. clear P.
  rewrite (s32_id (- _)) by (unfold is_s32; lia). rewrite Z.mul_opp_l.
  rewrite (s32_id (- (_ * _))) by (unfold is_s32; lia). rewrite (s32_id (_ * _)) by (unfold is_s32; lia).
  rewrite s32_id by (unfold is_s32; lia). lia.
Qed.

(** After the setup every member is the delta over the area. *)
Lemma initLerp_over_area undefined v0 enables t : small_deltas t ->
  ci_area t = ci_dx01 t * ci_dy02 t - ci_dy10 t * ci_dx20 t -> 3 <= Z.abs (pixel_area t) ->
  exists s, 1 <= s <= 31 /\ ci_area_scale (initLerp undefined v0 enables t) = s /\
    over_area (pixel_area t) (2 ^ s) (ci_dx01 t) (ci_dx01 (initLerp undefined v0 enables t)) /\
    over_area (pixel_area t) (2 ^ s) (ci_dy10 t) (ci_dy10 (initLerp undefined v0 enables t)) /\
    over_area (pixel_area t) (2 ^ s) (ci_dx20 t) (ci_dx20 (initLerp undefined v0 enables t)) /\
    over_area (pixel_area t) (2 ^ s) (ci_dy02 t) (ci_dy02 (initLerp undefined v0 enables t)).
Proof.
  intros Hl HA H3. destruct (area_reciprocal_ok t Hl HA H3) as (d & s & q & _ & E & Es & Eq & Hd & He).
  destruct (pixel_area_log2 t Hl HA H3) as [HL _]. pose proof (log2_delta_bits_lt t Hl) as Hb.
  pose proof (Z.log2_nonneg (delta_bits t)) as H0.
  assert (forall a, In a (deltas t) -> over_area (pixel_area t) (2 ^ (32 + q - s)) a (mulx undefined a d s)) as Ho.
  { intros a Ha. apply mulx_over_area; [lia|lia| |done]. pose proof (delta_lt t a Hl Ha) as Hda.
    rewrite Es. replace (Z.log2 (delta_bits t) + 16) with (Z.log2 (delta_bits t) + 1 + 15) by lia.
    rewrite (Z.pow_add_r 2 _ 15), Z.abs_mul by lia. set (P := 2 ^ (Z.log2 (delta_bits t) + 1)) in *.
    transitivity (P * (2 ^ 30 + 2 ^ 28)); [apply Z.mul_le_mono_nonneg; lia|lia]. }
  unfold initLerp.
  change (area_reciprocal undefined (t <| ci_x0 := vx (v_window v0) |> <| ci_y0 := vy (v_window v0) |>))
    with (area_reciprocal undefined t). rewrite E. cbn.
  exists (32 + q - s). split; [lia|]. split; [unfold u8; apply Z.mod_small; lia|].
  split_and!; apply Ho; cbn; tauto.
Qed.

(** C25: The gradients of an attribute over a triangle are those of the plane
    through its values at the vertices: [dcdx * area] and [dcdy * area] differ
    from the exact products by the rounding of the result (1.5 units), of the
    scaled deltas (half a unit of their scale) and by 1/12900 for the
    reciprocal of the area.  The value at the origin is right up to 22/16 of a
    unit.  The triangle is less than 2048 pixels wide and high and larger than
    3/16 of a pixel, and the gradient leaves room in 32 bits. *)
Theorem iterators1616_accuracy undefined v0 v1 v2 enables c0 c1 c2 t l :
  t = initTriangle v0 v1 v2 -> l = initLerp undefined v0 enables t ->
  small_triangle v0 v1 v2 -> 3 <= Z.abs (pixel_area t) ->
  slope_ok (pixel_area t) (c1 - c0) (ci_dy02 t) (c2 - c0) (ci_dy10 t) ->
  slope_ok (pixel_area t) (c2 - c0) (ci_dx01 t) (c1 - c0) (ci_dx20 t) ->
  exists c dcdx dcdy r k, iterators1616 undefined l c0 c1 c2 = [c; dcdx; dcdy] /\
    gradient_ok (pixel_area t) (2 ^ ci_area_scale l) (c1 - c0) (ci_dy02 t) (c2 - c0) (ci_dy10 t) dcdx /\
    gradient_ok (pixel_area t) (2 ^ ci_area_scale l) (c2 - c0) (ci_dx01 t) (c1 - c0) (ci_dx20 t) dcdy /\
    -8 <= r <= 22 /\
    16 * c + dcdx * vx (v_window v0) + dcdy * vy (v_window v0) = 16 * c0 + r + k * 2 ^ 36.
Proof.
  intros -> -> (Hl & HA)%initTriangle_small H3 Sx Sy. set (t := initTriangle v0 v1 v2) in *.
  destruct (initLerp_over_area undefined v0 enables t Hl HA H3) as (s & Hs & Es & O1 & O2 & O3 & O4).
  assert (ci_x0 (initLerp undefined v0 enables t) = vx (v_window v0) /\
          ci_y0 (initLerp undefined v0 enables t) = vy (v_window v0)) as [<- <-].
  { unfold initLerp. by destruct (area_reciprocal _ _) as [[? ?] ?]. }
  generalize dependent (initLerp undefined v0 enables t). intros l Es O1 O2 O3 O4. clearbody t.
  destruct (gradients_at_vertex undefined l c0 (c1 - c0) (c2 - c0)) as (c & dcdx & dcdy & r & k & E & Hr & Ev).
  exists c, dcdx, dcdy, r, k. unfold iterators1616. pose proof Sx as (D1 & D2 & _).
  rewrite (s32_id (c1 - c0)), (s32_id (c2 - c0)) by (unfold is_s32; lia).
  split; [done|]. unfold gradients in E. injection E as _ <- <-. rewrite Es in *.
  assert (pixel_area t <> 0) by (intros Hz; rewrite Hz in H3; lia).
  split_and!; [by apply gradient_accuracy..|lia|lia|done].
Qed.

Definition vertex_at (x y : Z) : vertex_t := zero_vertex <| v_window ; vx := x |> <| v_window ; vy := y |>.

(** A triangle of 100 by 50 pixels, shaded from black to white. *)
Example iterators1616_accuracy_witness :
  let t := initTriangle (vertex_at 0 0) (vertex_at 1600 160) (vertex_at 320 800) in
  let l := initLerp 0 (vertex_at 0 0) 0 t in
  exists c dcdx dcdy r k, iterators1616 0 l 0 0xFF0000 0x7F0000 = [c; dcdx; dcdy] /\
    gradient_ok (pixel_area t) (2 ^ ci_area_scale l) 0xFF0000 (ci_dy02 t) 0x7F0000 (ci_dy10 t) dcdx /\
    gradient_ok (pixel_area t) (2 ^ ci_area_scale l) 0x7F0000 (ci_dx01 t) 0xFF0000 (ci_dx20 t) dcdy /\
    -8 <= r <= 22 /\ 16 * c + dcdx * 0 + dcdy * 0 = 16 * 0 + r + k * 2 ^ 36.
Proof.
  apply (iterators1616_accuracy 0 (vertex_at 0 0) (vertex_at 1600 160) (vertex_at 320 800) 0 0 0xFF0000 0x7F0000);
    [reflexivity|reflexivity|repeat split; vm_compute; reflexivity|vm_compute; discriminate|
     repeat split; vm_compute; discriminate|repeat split; vm_compute; discriminate].
Defined.

(** An attribute that is the same at the vertices is so everywhere. *)
Lemma iterators1616_constant undefined l c : 1 <= ci_area_scale l <= 31 -> is_s32 c ->
  iterators1616 undefined l c c c = [c; 0; 0].
Proof.
  intros Hs Hc. unfold iterators1616, gradients. rewrite !Z.sub_diag. change (s32 0) with 0.
  assert (forall a, mulx undefined 0 a (ci_area_scale l) = 0) as M.
  { intros a. unfold mulx. replace ((1 <=? ci_area_scale l) && (ci_area_scale l <=? 32)) with true
      by (symmetry; rewrite andb_true_iff, !Z.leb_le; lia). rewrite gglMulx_shift_spec by lia. cbn [Z.mul].
    rewrite Z.add_0_l. apply Z.div_small. split; [lia|]. apply Z.pow_lt_mono_r; lia. }
  assert (forall a b, muladdx undefined 0 a b (ci_area_scale l) = s32 b) as MA.
  { intros a b. unfold muladdx. replace ((0 <=? ci_area_scale l) && (ci_area_scale l <? 64)) with true
      by (symmetry; rewrite andb_true_iff, Z.leb_le, Z.ltb_lt; lia). unfold gglMulAddx_shift.
    by rewrite Z.mul_0_l, Z.shiftr_0_l. }
  rewrite !M, !MA. change (s32 0) with 0. unfold gglMulAddx_shift, gglMulx_shift. rewrite !Z.mul_0_l.
  do 2 f_equal. rewrite <-(s32_id c) at 2 by done. f_equal. vm_compute (s32 _). lia.
Qed.

(** ** Faults *)

(** Below two sixteenths of a pixel no reciprocal is taken, and the deltas are
    shifted by 0 with a rounding term of 1 shifted by -1. *)
Lemma small_area_undefined undefined v0 enables l : -24 <= ci_area l < 24 ->
  let l' := initLerp undefined v0 enables l in
  ci_dx01 l' = undefined /\ ci_dy10 l' = undefined /\ ci_dx20 l' = undefined /\ ci_dy02 l' = undefined.
Proof.
  intros H. unfold initLerp. replace (area_reciprocal undefined _) with (0, 0, 0); [done|].
  unfold area_reciprocal. cbn -[Z.shiftr Z.leb abs32]. rewrite (s32_id (_ + _)) by (unfold is_s32, TRI_HALF; lia).
  rewrite Z.shiftr_div_pow2 by done. change ((ci_area l + TRI_HALF) / 2 ^ TRI_FRACTION_BITS) with (pixel_area l).
  assert (-1 <= pixel_area l <= 1) as P.
  { unfold pixel_area. pose proof (Z.div_mod (ci_area l + 8) 16 ltac:(done)).
    pose proof (Z.mod_pos_bound (ci_area l + 8) 16 ltac:(done)). lia. }
  unfold abs32. rewrite s32_id by (unfold is_s32; lia). by rewrite (proj2 (Z.leb_gt 2 _)) by lia.
Qed.

(** A line whose ends are as far apart horizontally as vertically has the area
    0: what is interpolated along it is undefined. *)
Lemma diagonal_line_undefined undefined v0 v1 enables :
  Z.abs (vx (v_window v1) - vx (v_window v0)) = Z.abs (vy (v_window v1) - vy (v_window v0)) ->
  Z.abs (vx (v_window v1) - vx (v_window v0)) < 2 ^ 15 ->
  let l := initLerp undefined v0 enables (initLine v0 v1) in
  ci_area (initLine v0 v1) = 0 /\ ci_dx01 l = undefined /\ ci_dy10 l = undefined.
Proof.
  intros H Hs. assert (ci_area (initLine v0 v1) = 0) as E.
  { unfold initLine, area_of. cbn. rewrite !(s32_id (_ - _)) by (unfold is_s32; lia).
    set (X := vx (v_window v1) - vx (v_window v0)) in *. set (Y := vy (v_window v0) - vy (v_window v1)) in *.
    rewrite (s32_id (- Y)) by (unfold is_s32; lia). rewrite Z.mul_opp_l.
    replace (Y * Y) with (X * X); [|rewrite <-(Z.abs_square X), <-(Z.abs_square Y); subst X Y; f_equal; lia].
    assert (0 <= X * X <= 2 ^ 30) by (rewrite <-Z.abs_square; nia).
    rewrite (s32_id (X * X)), (s32_id (- (X * X))) by (unfold is_s32; lia). by rewrite Z.add_opp_diag_r. }
  destruct (small_area_undefined undefined v0 enables (initLine v0 v1)) as (? & ? & _); [lia|]. done.
Qed.

(** The depth of a triangle of 100 pixels by one is not interpolated: the
    differences are shifted by -2, whatever they are. *)
Lemma thin_triangle_depth undefined c0 c1 c2 :
  let l := initLerp undefined (vertex_at 0 0) 0 (initTriangle (vertex_at 0 0) (vertex_at 1600 0) (vertex_at 0 16)) in
  ci_area_scale l = 14 /\ iterators0032 undefined l c0 c1 c2 = iterators0032 undefined l c0 c0 c0.
Proof. split; reflexivity. Qed.
