(* ===== verification/Primitives.v ===== *)
(** * Rendering primitives

    Models swrender/primitives.cpp: shading a primitive's vertices, fetching
    their texture coordinates, clipping, the start values and gradients handed
    to the rasterizer, and the rasterizer's drawing calls.  Rendering works on
    pointers to vertices, since a primitive may name a vertex twice; it
    executes the rasterizer's commands and logs them with its drawing calls.
    [run_calls] plays the log on the pixel pipeline.

    [Rendering.v] shows what rendering leaves alone. *)

From S2P Require Import Prelude TextureObjects Fixed Names Context PixelFormat Surface PixelFlinger Picker Iterators Pipeline Shortcuts Scanline Trap AAPoly Vertex Clipping Arrays Assembly Light Lerp.

#[local] Open Scope state_scope.

(** ** Calls on the rasterizer *)

Inductive raster_call :=
  | Issue (cmd : command)
  | Draw_point (v : vec4_t) (size : Z)
  | Draw_line (v0 v1 : vec4_t) (width : Z)
  | Draw_triangle (v0 v1 v2 : vec4_t).

(** ** State *)

Record polygon_offset_t := mk_polygon_offset { po_factor : Z; po_units : Z; po_enable : Z }.

(** What rendering reads of the context.  [rd_stack] is what the local arrays
    of the clipper hold, [rd_undefined] what C leaves undefined. *)
Record renderer_t := mk_renderer {
  rd_client : client_t; rd_projection : projection_t; rd_clipVertex : clip_fn; rd_cull : culling_t;
  rd_fog : Light.fog_t; rd_rescaleNormals : Z;
  rd_tmus : list EGLTextureObject;           (* textures.tmu[i].texture *)
  rd_texture_transforms : list transform_t;  (* transforms.texture[i].transform *)
  rd_point_size : Z; rd_line_width : Z; rd_polygonOffset : polygon_offset_t;
  rd_stack : nat -> vertex_t; rd_undefined : Z }.

(** What rendering changes: the vertices, the rasterizer, the lighting, and the
    calls made. *)
Record render_t := mk_render {
  rn_vertices : list vertex_t; rn_raster : context_t; rn_lighting : lighting_t; rn_calls : list raster_call }.
#[export] Instance eta_render : Eta render_t := fun r =>
  mk_render (rn_vertices r) (rn_raster r) (rn_lighting r) (rn_calls r).

Abbreviation renderM := (stM render_t).

Definition get_at (p : nat) : renderM vertex_t := fun st => v ← rn_vertices st !! p; Some (v, st).
Definition store_at (p : nat) (v : vertex_t) : renderM unit := fun st =>
  _ ← rn_vertices st !! p; Some (tt, st <| rn_vertices ::= <[p := v]> |>).
Definition update_at (p : nat) (f : vertex_t -> option vertex_t) : renderM unit := fun st =>
  v ← rn_vertices st !! p; v ← f v; Some (tt, st <| rn_vertices ::= <[p := v]> |>).
Definition modify_at (p : nat) (f : vertex_t -> vertex_t) : renderM unit := update_at p (fun v => Some (f v)).
Definition get_raster : renderM context_t := fun st => Some (rn_raster st, st).
Definition get_lighting : renderM lighting_t := fun st => Some (rn_lighting st, st).
Definition lift_option {A} (o : option A) : renderM A := fun st => x ← o; Some (x, st).

Definition log_call (call : raster_call) (st : render_t) : render_t := st <| rn_calls ::= fun l => l ++ [call] |>.
Definition issue (cmd : command) : renderM unit := fun st =>
  c ← exec cmd (rn_raster st); Some (tt, log_call (Issue cmd) (st <| rn_raster := c |>)).
Definition draw (call : raster_call) : renderM unit := fun st => Some (tt, log_call call st).

Fixpoint for_each {A} (f : A -> renderM unit) (l : list A) : renderM unit :=
  match l with [] => hret tt | x :: l => f x ;;; for_each f l end.

(** [for (i=0 ; i<GGL_TEXTURE_UNIT_COUNT ; i++) if (state.texture[i].enable) ...]. *)
Definition for_units (f : nat -> renderM unit) : renderM unit :=
  for_each (fun i =>
    let! c := get_raster in
    if tx_enable (texture c (Z.of_nat i)) =? 0 then hret tt else f i) [0%nat; 1%nat].

Definition is_flag (bit : Z) (v : vertex_t) : bool := has (v_flags v) bit.
Definition set_flag (bit : Z) (v : vertex_t) : vertex_t := v <| v_flags ::= set_bits bit |>.

(** The result of [gglRecip28]. *)
Definition recip28 (undefined x : Z) : Z := default undefined (gglRecip28 x).

Section Render.
  Variable rd : renderer_t.
#[local] Abbreviation undefined := (rd_undefined rd).
#[local] Abbreviation client := (rd_client rd).

(** ** Shading *)

(** [c->arrays.color.fetch(c, v->color.v, ...)]. *)
Definition fetch_color (p : nat) : renderM unit :=
  update_at p (fun v =>
    color ← fetch_at client (am_color (cl_arrays client)) (v_index v) (v_color v);
    Some (v <| v_color := color |>)).

(** [c->lighting.lightVertex(c, v)]. *)
Definition light_vertex (p : nat) : renderM unit := fun st =>
  v ← rn_vertices st !! p;
  '(lt, v) ← run_lightVertex undefined client (rd_rescaleNormals rd) (rn_lighting st) v;
  Some (tt, st <| rn_lighting := lt |> <| rn_vertices ::= <[p := v]> |>).

(** [v->fog = c->fog.fog(c, v->eye.z)]. *)
Definition fog_vertex (p : nat) : renderM unit :=
  modify_at p (fun v => v <| v_fog := run_fog undefined (rd_fog rd) (vz (v_eye v)) |>).

Definition unless_lit (p : nat) (m : renderM unit) : renderM unit :=
  let! v := get_at p in if is_flag LIT v then hret tt else m.

Definition dark_vertex (p : nat) : renderM unit :=
  unless_lit p (modify_at p (set_flag LIT) ;;; fetch_color p).

Definition flat_color (p : nat) : renderM unit :=
  let! v := get_at p in issue (C_color4xv (vec4_items (v_color v))).

Definition lightTriangleDarkSmooth (v0 v1 v2 : nat) : renderM unit := dark_vertex v0 ;;; dark_vertex v1 ;;; dark_vertex v2.
Definition lightTriangleDarkFlat (v0 v1 v2 : nat) : renderM unit := dark_vertex v2 ;;; flat_color v2.
Definition lightTriangleSmooth (v0 v1 v2 : nat) : renderM unit :=
  unless_lit v0 (light_vertex v0) ;;; unless_lit v1 (light_vertex v1) ;;; unless_lit v2 (light_vertex v2).
Definition lightTriangleFlat (v0 v1 v2 : nat) : renderM unit := unless_lit v2 (light_vertex v2) ;;; flat_color v2.

Definition lightVertexDarkSmoothFog (p : nat) : renderM unit :=
  unless_lit p (modify_at p (set_flag LIT) ;;; fog_vertex p ;;; fetch_color p).
Definition lightVertexDarkFlatFog (p : nat) : renderM unit :=
  unless_lit p (modify_at p (set_flag LIT) ;;; fog_vertex p).
Definition lightVertexSmoothFog (p : nat) : renderM unit := unless_lit p (fog_vertex p ;;; light_vertex p).

Definition lightTriangleDarkSmoothFog (v0 v1 v2 : nat) : renderM unit :=
  lightVertexDarkSmoothFog v0 ;;; lightVertexDarkSmoothFog v1 ;;; lightVertexDarkSmoothFog v2.
Definition lightTriangleDarkFlatFog (v0 v1 v2 : nat) : renderM unit :=
  lightVertexDarkFlatFog v0 ;;; lightVertexDarkFlatFog v1 ;;; lightVertexDarkSmoothFog v2 ;;; flat_color v2.
Definition lightTriangleSmoothFog (v0 v1 v2 : nat) : renderM unit :=
  lightVertexSmoothFog v0 ;;; lightVertexSmoothFog v1 ;;; lightVertexSmoothFog v2.
Definition lightTriangleFlatFog (v0 v1 v2 : nat) : renderM unit :=
  lightVertexDarkFlatFog v0 ;;; lightVertexDarkFlatFog v1 ;;; lightVertexSmoothFog v2 ;;; flat_color v2.

(** [lightPrimitive[index]], as [ogles_validate_primitives] picks it. *)
Definition lightPrimitive (smooth light fog : bool) : nat -> nat -> nat -> renderM unit :=
  match fog, light, smooth with
  | false, false, false => lightTriangleDarkFlat
  | false, false, true => lightTriangleDarkSmooth
  | false, true, false => lightTriangleFlat
  | false, true, true => lightTriangleSmooth
  | true, false, false => lightTriangleDarkFlatFog
  | true, false, true => lightTriangleDarkSmoothFog
  | true, true, false => lightTriangleFlatFog
  | true, true, true => lightTriangleSmoothFog
  end.
Definition lightTriangle (v0 v1 v2 : nat) : renderM unit :=
  let! c := get_raster in
  let! lt := get_lighting in
  lightPrimitive (has (enables c) GGL_ENABLE_SMOOTH) (negb (lt_enable lt =? 0)) (has (enables c) GGL_ENABLE_FOG)
    v0 v1 v2.

(** ** Texture coordinates *)

Definition texcoord_at (i : nat) (index : Z) (coords : vec4_t) : option vec4_t :=
  a ← am_texture (cl_arrays client) !! i;
  tr ← rd_texture_transforms rd !! i;
  coords ← fetch_at client a index coords;
  let coords := coords <| vw := 0x10000 |> in
  let coords := if tr_ops tr =? 0 then coords else run_point (tr_pointv tr (a_size a)) (tr_m tr) coords in
  let q := vw coords in
  Some (if q =? 0x10000 then coords
        else
          let qinv := recip28 undefined q in
          coords <| vx ::= fun s => gglMulx_shift s qinv 28 |> <| vy ::= fun t => gglMulx_shift t qinv 28 |>).

Definition fetch_texcoord_unit (i : nat) (p : nat) : renderM unit :=
  let! v := get_at p in
  if is_flag TT v then hret tt
  else
    update_at p (fun v =>
      coords ← texcoord_at i (v_index v) (nth i (v_texture v) zero_vec4);
      Some (v <| v_texture ::= <[i := coords]> |>)).

Definition fetch_texcoord_impl (v0 v1 v2 : nat) : renderM unit :=
  for_units (fun i => for_each (fetch_texcoord_unit i) [v0; v1; v2]) ;;;
  for_each (fun p => modify_at p (set_flag TT)) [v0; v1; v2].

Definition fetch_texcoord (v0 v1 v2 : nat) : renderM unit :=
  let! c := get_raster in
  if negb (has (enables c) GGL_ENABLE_TMUS) then hret tt
  else
    let! a := get_at v0 in
    let! b := get_at v1 in
    let! c := get_at v2 in
    if is_flag TT a && is_flag TT b && is_flag TT c then hret tt else fetch_texcoord_impl v0 v1 v2.

(** ** Interpolation *)

Definition clampZ (z : Z) : Z :=
  let z := Z.land z (Z.lnot (Z.shiftr z 31)) in
  if 0x10000 <=? z then 0xFFFF else z.

(** [textures.tmu[i].texture]. *)
Definition unit_texture (i : nat) : renderM EGLTextureObject := lift_option (rd_tmus rd !! i).

(** [texture->mip(lod)], which only reads. *)
Definition mip_surface (t : EGLTextureObject) (lod : Z) : option GGLSurface := fst <$> mip t lod (mk_blocks ∅ 0 []).

Definition compute_lod (t : EGLTextureObject) (l : compute_iterators_t) (s0 t0 s1 t1 s2 t2 : Z) : Z :=
  let area := abs32 (ci_area l) in
  let w := gs_width (TextureObjects.surface t) in
  let h := gs_height (TextureObjects.surface t) in
  let shift := 16 + (16 - TRI_FRACTION_BITS) in
  let texelArea := s32 (s32 (abs32 (s32 (gglMulx_shift (s32 (s1 - s0)) (s32 (t2 - t0)) shift -
                                          gglMulx_shift (s32 (s2 - s0)) (s32 (t1 - t0)) shift)) * w) * h) in
  let log2TArea := (32 - TRI_FRACTION_BITS - 1) - gglClz texelArea in
  let log2Area := (32 - TRI_FRACTION_BITS * 2 - 1) - gglClz area in
  Z.shiftr (log2TArea - log2Area + 1) 1.

Definition coord_s (i : nat) (v : vertex_t) : Z := vx (nth i (v_texture v) zero_vec4).
Definition coord_t (i : nat) (v : vertex_t) : Z := vy (nth i (v_texture v) zero_vec4).

(** Binds the level of detail, then returns the coordinates of the vertices,
    scaled to texels where they are clamped. *)
Definition unit_coords (l : compute_iterators_t) (i : nat) (v0 v1 v2 : vertex_t) : renderM (list Z * list Z) :=
  let s := map (coord_s i) [v0; v1; v2] in
  let t := map (coord_t i) [v0; v1; v2] in
  let! tex := unit_texture i in
  (if GGL_NEAREST_MIPMAP_NEAREST <=? min_filter tex then
     let lod := compute_lod tex l (nth 0 s 0) (nth 0 t 0) (nth 1 s 0) (nth 1 t 0) (nth 2 s 0) (nth 2 t 0) in
     let! surface := lift_option (mip_surface tex lod) in
     issue (C_bindTextureLod (Z.of_nat i) surface)
   else hret tt) ;;;
  let! c := get_raster in
  let tmu := texture c (Z.of_nat i) in
  let s := if tx_s_wrap tmu =? GGL_CLAMP then map (fun s => s32 (s * sf_width (tx_surface tmu))) s else s in
  let t := if tx_t_wrap tmu =? GGL_CLAMP then map (fun t => s32 (t * sf_height (tx_surface tmu))) t else t in
  hret (s, t).

(** [iteratorsScale] on the three values of a list. *)
Definition scale3 (l : compute_iterators_t) (c : list Z) : list Z * Z :=
  iteratorsScale undefined l (nth 0 c 0) (nth 1 c 0) (nth 2 c 0).

Definition lerp_texcoords (l : compute_iterators_t) (v0 v1 v2 : vertex_t) : renderM unit :=
  for_units (fun i =>
    let! (s, t) := unit_coords l i v0 v1 v2 in
    let '(its, ss) := scale3 l s in
    let '(itt, st) := scale3 l t in
    issue (C_texCoordGradScale8xv (Z.of_nat i) (its ++ itt ++ [- ss; - st]))).

Definition lerp_texcoords_w (l : compute_iterators_t) (v0 v1 v2 : vertex_t) : renderM unit :=
  let w := map (fun v => vw (v_window v)) [v0; v1; v2] in
  let wscale := 32 - gglClz (s32 (fold_left Z.lor w 0)) in
  let '(itw, sc) := scale3 l w in
  let sc := sc + (wscale - 16) in
  issue (C_wGrad3xv itw) ;;;
  for_units (fun i =>
    let! (s, t) := unit_coords l i v0 v1 v2 in
    let by_w := zip_with (fun w c => mulx undefined c w wscale) w in
    let '(its, ss) := scale3 l (by_w s) in
    let '(itt, st) := scale3 l (by_w t) in
    issue (C_texCoordGradScale8xv (Z.of_nat i) (its ++ itt ++ [sc - ss; sc - st]))).

(** The color iterators. *)
Definition lerp_colors (l : compute_iterators_t) (v0 v1 v2 : vertex_t) : list Z :=
  concat (map (fun i =>
    let color v := s32 (vec4_at i (v_color v) * 255) in
    iterators1616 undefined l (color v0) (color v1) (color v2)) [0; 1; 2; 3]).

(** The depth iterators, with the polygon offset. *)
Definition lerp_depth (l : compute_iterators_t) (v0 v1 v2 : vertex_t) : list Z :=
  let z v := clampZ (vz (v_window v)) in
  let po := rd_polygonOffset rd in
  if po_enable po =? 0 then iterators0032 undefined l (z v0) (z v1) (z v2)
  else
    let units := s32 (Z.shiftl (po_units po) 16) in
    let factor := po_factor po in
    if factor =? 0 then
      match iterators0032 undefined l (z v0) (z v1) (z v2) with
      | z0 :: grads => s32 (z0 + units) :: grads
      | [] => []
      end
    else
      let itz64 := iterators0032_64 undefined l (z v0) (z v1) (z v2) in
      let maxDepthSlope := Z.max (nth 1 itz64 0) (nth 2 itz64 0) in
      [s32 (u32 (nth 0 itz64 0) + u32 (Z.shiftr (s64 (maxDepthSlope * factor)) 16) + units);
       s32 (nth 1 itz64 0); s32 (nth 2 itz64 0)].

Definition lerp_triangle (l : compute_iterators_t) (v0 v1 v2 : vertex_t) : renderM unit :=
  let! c := get_raster in
  let en := enables c in
  let l := initLerp undefined v0 en l in
  (if has en GGL_ENABLE_TMUS then
     if has en GGL_ENABLE_W then lerp_texcoords_w l v0 v1 v2 else lerp_texcoords l v0 v1 v2
   else hret tt) ;;;
  (if has en GGL_ENABLE_SMOOTH then issue (C_colorGrad12xv (lerp_colors l v0 v1 v2)) else hret tt) ;;;
  (if has en GGL_ENABLE_DEPTH_TEST then issue (C_zGrad3xv (lerp_depth l v0 v1 v2)) else hret tt) ;;;
  (if has en GGL_ENABLE_FOG then issue (C_fogGrad3xv (iterators1616 undefined l (v_fog v0) (v_fog v1) (v_fog v2)))
   else hret tt).

(** What has to be interpolated at all. *)
Definition lerp_mask : Z :=
  Z.lor (Z.lor (Z.lor (Z.lor GGL_ENABLE_TMUS GGL_ENABLE_SMOOTH) GGL_ENABLE_W) GGL_ENABLE_FOG) GGL_ENABLE_DEPTH_TEST.

(** ** Points *)

(** The coordinates of a point in unit [i], whose gradients are zero; those not
    set are whatever the array held. *)
Definition point_texcoords (c : context_t) (tex : EGLTextureObject) (i : nat) (v : vertex_t) : list Z :=
  let tmu := texture c (Z.of_nat i) in
  let '(s, ss) := if tx_s_wrap tmu =? GGL_CLAMP
                  then (s32 (coord_s i v * gs_width (TextureObjects.surface tex)), 0) else (undefined, 16) in
  let '(t, st) := if tx_t_wrap tmu =? GGL_CLAMP
                  then (s32 (coord_t i v * gs_height (TextureObjects.surface tex)), 0) else (undefined, 16) in
  [s; 0; 0; t; 0; 0; ss; st].

Definition primitive_point (p : nat) : renderM unit :=
  let! c := get_raster in
  let en := enables c in
  let! lt := get_lighting in
  unless_lit p
    ((if lt_enable lt =? 0 then modify_at p (set_flag LIT) ;;; fetch_color p else light_vertex p) ;;;
     (if has en GGL_ENABLE_FOG then fog_vertex p else hret tt)) ;;;
  flat_color p ;;;
  (if has en GGL_ENABLE_TMUS then
     fetch_texcoord p p p ;;;
     let! v := get_at p in
     for_units (fun i =>
       let! c := get_raster in
       let! tex := unit_texture i in
       issue (C_texCoordGradScale8xv (Z.of_nat i) (point_texcoords c tex i v)))
   else hret tt) ;;;
  let! v := get_at p in
  (if has en GGL_ENABLE_DEPTH_TEST
   then issue (C_zGrad3xv [s32 (clampZ (vz (v_window v)) * 0x00010001); 0; 0]) else hret tt) ;;;
  (if has en GGL_ENABLE_FOG then issue (C_fogGrad3xv [v_fog v; 0; 0]) else hret tt) ;;;
  draw (Draw_point (v_window v) (rd_point_size rd)).

(** ** Lines *)

(** What the clippers read. *)
Definition clipper (c : context_t) : clipper_t :=
  mk_clipper (rd_projection rd) (enables c) (map (fun t => negb (tx_enable t =? 0)) (st_texture (c_state c)))
    (rd_clipVertex rd).

Definition primitive_line (p0 p1 : nat) : renderM unit :=
  fetch_texcoord p0 p1 p1 ;;;
  lightTriangle p0 p1 p1 ;;;
  let! c := get_raster in
  let! v0 := get_at p0 in
  let! v1 := get_at p1 in
  let! left_ :=
    (if Z.land (Z.lor (v_flags v0) (v_flags v1)) CLIP_ALL =? 0 then hret true
     else
       let '(left_, (v0, v1)) := clip_line (clipper c) v0 v1 in
       store_at p0 v0 ;;; store_at p1 v1 ;;; hret left_) in
  if negb left_ then hret tt
  else
    let! v0 := get_at p0 in
    let! v1 := get_at p1 in
    (if has (enables c) lerp_mask then lerp_triangle (initLine v0 v1) v0 v1 v0 else hret tt) ;;;
    draw (Draw_line (v_window v0) (v_window v1) (rd_line_width rd)).

(** ** Triangles *)

Definition triangle (l : compute_iterators_t) (v0 v1 v2 : vertex_t) : renderM unit :=
  let! c := get_raster in
  (if has (enables c) lerp_mask then lerp_triangle l v0 v1 v2 else hret tt) ;;;
  draw (Draw_triangle (v_window v0) (v_window v1) (v_window v2)).

Definition primitive_clip_triangle (p0 p1 p2 : nat) : renderM unit :=
  let! v0 := get_at p0 in
  let! v1 := get_at p1 in
  let! v2 := get_at p2 in
  if Z.land (Z.lor (Z.lor (v_flags v0) (v_flags v1)) (v_flags v2)) CLIP_ALL =? 0 then
    let l := initTriangle v0 v1 v2 in
    if cull_triangle (rd_cull rd) v0 v1 v2 then hret tt
    else
      fetch_texcoord p0 p1 p2 ;;;
      lightTriangle p0 p1 p2 ;;;
      let! v0 := get_at p0 in
      let! v1 := get_at p1 in
      let! v2 := get_at p2 in
      triangle l v0 v1 v2
  else
    fetch_texcoord p0 p1 p2 ;;;
    lightTriangle p0 p1 p2 ;;;
    let! v0 := get_at p0 in
    let! v1 := get_at p1 in
    let! v2 := get_at p2 in
    let! c := get_raster in
    match clip_triangle (clipper c) (rd_cull rd) (rd_stack rd) v0 v1 v2 with
    | Overflow => hfail
    | Dropped => hret tt
    | Going ts => for_each (fun '(v0, v1, v2) => triangle (initTriangle v0 v1 v2) v0 v1 v2) ts
    end.

(** ** The picked renderers *)

(** [c->prims], as [ogles_validate_primitives] sets them. *)
Definition render_primitive (ps : list nat) : renderM unit :=
  if a_enable (am_vertex (cl_arrays client)) then
    match ps with
    | [p] => primitive_point p
    | [p0; p1] => primitive_line p0 p1
    | [p0; p1; p2] => primitive_clip_triangle p0 p1 p2
    | _ => hfail
    end
  else hret tt.
End Render.

(** ** Playing the calls *)

(** [procs.pointx], [procs.linex] and [procs.trianglex]; the antialiased ones
    start from what the coverage buffer holds. *)
Definition window_xy (v : vec4_t) : Trap.vertex := (vx v, vy v).
Definition play_res (r : res (list event)) (d : draw_t) : option draw_t :=
  match r with Ok es => play es d | Err _ => None end.
Definition coverage_before (d : draw_t) (i : Z) : Z := load16 (d_m d) (coverage_address (d_c d) i).

Definition run_pointx (p : point_proc) (v : vec4_t) (size : Z) (d : draw_t) : option draw_t :=
  let s := draw_scissor (d_c d) in
  match p with
  | use_pointx => play (pointx s (window_xy v) size) d
  | use_aa_nice_pointx => play (aa_nice_pointx s (window_xy v) size) d
  | use_aa_pointx => es ← aa_pointx s (window_xy v) size; play es d
  | _ => None
  end.
Definition call_pointx (v : vec4_t) (size : Z) (d : draw_t) : option draw_t :=
  let d := match pr_pointx (c_procs (d_c d)) with use_pointx_validate => d <| d_c ::= pointx_validate |> | _ => d end in
  run_pointx (pr_pointx (c_procs (d_c d))) v size d.

Definition run_linex (p : line_proc) (v0 v1 : vec4_t) (width : Z) (d : draw_t) : option draw_t :=
  let s := draw_scissor (d_c d) in
  match p with
  | use_linex => es ← linex s (window_xy v0) (window_xy v1) width; play es d
  | use_aa_linex => play_res (aa_linex s (coverage_before d) (window_xy v0) (window_xy v1) width) d
  | _ => None
  end.
Definition call_linex (v0 v1 : vec4_t) (width : Z) (d : draw_t) : option draw_t :=
  let d := match pr_linex (c_procs (d_c d)) with use_linex_validate => d <| d_c ::= linex_validate |> | _ => d end in
  run_linex (pr_linex (c_procs (d_c d))) v0 v1 width d.

Definition run_trianglex (p : triangle_proc) (v0 v1 v2 : vec4_t) (d : draw_t) : option draw_t :=
  let s := draw_scissor (d_c d) in
  match p with
  | use_trianglex_big => es ← trianglex_big s (window_xy v0) (window_xy v1) (window_xy v2); play es d
  | use_aa_trianglex => play_res (aa_trianglex s (coverage_before d) (window_xy v0) (window_xy v1) (window_xy v2)) d
  | _ => None
  end.
Definition call_trianglex (v0 v1 v2 : vec4_t) (d : draw_t) : option draw_t :=
  let d := match pr_trianglex (c_procs (d_c d)) with
           | use_trianglex_validate => d <| d_c ::= trianglex_validate |> | _ => d end in
  run_trianglex (pr_trianglex (c_procs (d_c d))) v0 v1 v2 d.

Definition run_call (call : raster_call) (d : draw_t) : option draw_t :=
  match call with
  | Issue cmd => c ← exec cmd (d_c d); Some (d <| d_c := c |>)
  | Draw_point v size => call_pointx v size d
  | Draw_line v0 v1 width => call_linex v0 v1 width d
  | Draw_triangle v0 v1 v2 => call_trianglex v0 v1 v2 d
  end.
Fixpoint run_calls (calls : list raster_call) (d : draw_t) : option draw_t :=
  match calls with [] => Some d | call :: calls => d ← run_call call d; run_calls calls d end.
