(* ===== verification/Rendering.v ===== *)
(** * What rendering leaves alone

    Rendering a primitive always comes to an end, changes no vertex but those
    of the primitive, and of these only what is shaded: [render_keeps].  That
    makes the renderer of [Primitives.v] and the compiler of [Arrays.v] an
    instance of the interface the drawing loops work against:
    [gl_pipeline_laws]. *)

From S2P Require Import Prelude TextureObjects Fixed Names Context PixelFormat Surface PixelFlinger Picker Vertex Clipping Arrays Assembly VertexCache AssemblyEnds Light Lerp Primitives.

#[local] Open Scope state_scope.

(** What shading keeps of a vertex. *)
Definition core (v : vertex_t) : vec4_t * vec4_t * Z * vec4_t * Z * Z :=
  (v_obj v, v_clip v, clip_flags v, v_window v, v_index v, v_locked v).

(** [m] comes to an end; it changes no vertex but those of [ps] and keeps [I]. *)
Definition safe {A} (I : list vertex_t -> Prop) (ps : list nat) (m : renderM A) : Prop :=
  forall st, I (rn_vertices st) ->
  exists a st', m st = Some (a, st') /\ I (rn_vertices st') /\
    length (rn_vertices st') = length (rn_vertices st) /\
    (forall p, p ∉ ps -> rn_vertices st' !! p = rn_vertices st !! p).

(** Shading does not matter to [I], and the vertices of [ps] exist. *)
Class Shading (I : list vertex_t -> Prop) (ps : list nat) := {
  shading_closed vs p v v' : I vs -> vs !! p = Some v -> core v' = core v -> I (<[p := v']> vs);
  shading_ptr vs p : I vs -> p ∈ ps -> is_Some (vs !! p) }.

Section Safe.
  Context {I : list vertex_t -> Prop} {ps : list nat}.

Lemma safe_ret {A} (a : A) : safe I ps (hret a).
Proof. intros st H. by exists a, st. Qed.

Lemma safe_bind {A B} (m : renderM A) (k : A -> renderM B) :
  safe I ps m -> (forall a, safe I ps (k a)) -> safe I ps (hbind m k).
Proof.
  intros Hm Hk st H. destruct (Hm st H) as (a & st1 & E1 & H1 & L1 & F1).
  destruct (Hk a st1 H1) as (b & st2 & E2 & H2 & L2 & F2). exists b, st2.
  split_and!; [by rewrite (hbind_some _ _ _ _ _ E1)|done|by rewrite L2|]. intros p Hp. by rewrite F2, F1.
Qed.

Lemma safe_if {A} (b : bool) (m m' : renderM A) : safe I ps m -> safe I ps m' -> safe I ps (if b then m else m').
Proof. by destruct b. Qed.

Lemma safe_raster {B} (k : context_t -> renderM B) : (forall c, safe I ps (k c)) -> safe I ps (hbind get_raster k).
Proof. intros H. apply safe_bind; [|done]. intros st Hs. by exists (rn_raster st), st. Qed.

Lemma safe_lighting {B} (k : lighting_t -> renderM B) : (forall lt, safe I ps (k lt)) -> safe I ps (hbind get_lighting k).
Proof. intros H. apply safe_bind; [|done]. intros st Hs. by exists (rn_lighting st), st. Qed.

Lemma safe_lift {A B} (o : option A) (k : A -> renderM B) : is_Some o -> (forall a, o = Some a -> safe I ps (k a)) ->
  safe I ps (hbind (lift_option o) k).
Proof.
  intros [a E] H st Hs. destruct (H a E st Hs) as (b & st' & Ek & R). exists b, st'. split; [|done].
  unfold hbind, lift_option. by rewrite E.
Qed.

Lemma safe_draw call : safe I ps (draw call).
Proof. intros st H. by eexists _, _. Qed.

Lemma safe_issue cmd : (forall c, is_Some (exec cmd c)) -> safe I ps (issue cmd).
Proof. intros H st Hs. destruct (H (rn_raster st)) as [c E]. eexists _, _. unfold issue. by rewrite E. Qed.

Lemma safe_each {A} (f : A -> renderM unit) l : (forall x, In x l -> safe I ps (f x)) -> safe I ps (for_each f l).
Proof.
  induction l as [|x l IH]; intros H; cbn; [apply safe_ret|].
  apply safe_bind; [apply H; by left|]. intros _. apply IH. intros y Hy. apply H. by right.
Qed.

Lemma safe_units f : (forall i, In i [0%nat; 1%nat] -> safe I ps (f i)) -> safe I ps (for_units f).
Proof.
  intros H. apply safe_each. intros i Hi. apply safe_raster. intros c. apply safe_if; [apply safe_ret|auto].
Qed.

  Context {SH : Shading I ps}.

Lemma safe_get {B} p (k : vertex_t -> renderM B) : p ∈ ps ->
  (forall v, (exists vs, I vs /\ vs !! p = Some v) -> safe I ps (k v)) -> safe I ps (hbind (get_at p) k).
Proof.
  intros Hp Hk st H. destruct (shading_ptr _ p H Hp) as [v Ev]. destruct (Hk v ltac:(eauto) st H) as (b & st' & E & R).
  exists b, st'. split; [|done]. unfold hbind, get_at at 1. by rewrite Ev.
Qed.

Lemma safe_update p f : p ∈ ps -> (forall v, exists v', f v = Some v' /\ core v' = core v) -> safe I ps (update_at p f).
Proof.
  intros Hp Hf st H. destruct (shading_ptr _ p H Hp) as [v Ev]. destruct (Hf v) as (v' & E' & Ec).
  eexists _, _. unfold update_at. rewrite Ev. cbn. rewrite E'. cbn. split_and!; [done|..].
  - by eapply shading_closed.
  - apply length_insert.
  - intros q Hq. apply list_lookup_insert_ne. by intros ->.
Qed.

Lemma safe_modify p f : p ∈ ps -> (forall v, core (f v) = core v) -> safe I ps (modify_at p f).
Proof. intros Hp Hf. apply safe_update; [done|]. intros v. by exists (f v). Qed.

Lemma safe_unless_lit p m : p ∈ ps -> safe I ps m -> safe I ps (unless_lit p m).
Proof. intros Hp H. apply safe_get; [done|]. intros v _. apply safe_if; [apply safe_ret|done]. Qed.
End Safe.

(** ** Shading *)

Create HintDb safe.

(** What the drawing state provides: fetchers, and textures for both units. *)
Record renderer_ok (rd : renderer_t) : Prop := mk_renderer_ok {
  rd_color : is_Some (a_fetch (am_color (cl_arrays (rd_client rd))));
  rd_normal : is_Some (a_fetch (am_normal (cl_arrays (rd_client rd))));
  rd_coords i : In i [0%nat; 1%nat] -> exists a, am_texture (cl_arrays (rd_client rd)) !! i = Some a /\ is_Some (a_fetch a);
  rd_transforms i : In i [0%nat; 1%nat] -> is_Some (rd_texture_transforms rd !! i);
  rd_textures i : In i [0%nat; 1%nat] -> exists t, rd_tmus rd !! i = Some t /\ shape_ok t }.

Lemma fetch_at_total cl a index d : is_Some (a_fetch a) -> is_Some (fetch_at cl a index d).
Proof. intros [f E]. unfold fetch_at. rewrite E. by eexists. Qed.

Lemma land_set_bits bit f : Z.land bit CLIP_ALL = 0 -> Z.land (set_bits bit f) CLIP_ALL = Z.land f CLIP_ALL.
Proof. intros H. unfold set_bits. by rewrite Z.land_lor_distr_l, H, Z.lor_0_r. Qed.

Lemma core_set_flag bit v : Z.land bit CLIP_ALL = 0 -> core (set_flag bit v) = core v.
Proof. intros H. unfold core, clip_flags. cbn -[Z.land set_bits]. by rewrite land_set_bits. Qed.

Lemma lit_color_total undefined cl lt rn v : is_Some (a_fetch (am_normal (cl_arrays cl))) -> is_Some (lit_color undefined cl lt rn v).
Proof.
  intros H. unfold lit_color. destruct (lt_enabledLights lt =? 0); [by eexists|].
  destruct (fetch_at_total cl _ (v_index v) zero_vec4 H) as [n ->]. by eexists.
Qed.

Lemma lightVertex_total undefined cl rn lt v : is_Some (a_fetch (am_normal (cl_arrays cl))) ->
  exists v', lightVertex undefined cl rn lt v = Some (lt, v') /\ core v' = core v.
Proof.
  intros H. unfold lightVertex. destruct (lit_color_total undefined cl lt rn v H) as [r ->]. cbn. eexists. split; [done|].
  unfold core, clip_flags. cbn -[Z.land set_bits LIT]. by rewrite land_set_bits.
Qed.

Lemma run_lightVertex_total undefined cl rn lt v :
  is_Some (a_fetch (am_color (cl_arrays cl))) -> is_Some (a_fetch (am_normal (cl_arrays cl))) ->
  exists lt' v', run_lightVertex undefined cl rn lt v = Some (lt', v') /\ core v' = core v.
Proof.
  intros Hc Hn.
  assert (forall lt, exists lt' v', run_picked undefined cl rn lt v = Some (lt', v') /\ core v' = core v) as H.
  { clear lt. intros lt. unfold run_picked. destruct (lt_lightVertex lt); try by eexists _, _.
    - destruct (lightVertex_total undefined cl rn lt v Hn) as (v' & E & Ec). by exists lt, v'.
    - unfold lightVertexMaterial. destruct (fetch_at_total cl _ (v_index v) (v_color v) Hc) as [color ->].
      cbn [mbind option_bind]. edestruct lightVertex_total as (v' & E & Ec); [done|]. eexists _, v'. rewrite E. by split. }
  unfold run_lightVertex. destruct (lt_lightVertex lt); apply H.
Qed.

Section Shading.
  Context {rd : renderer_t} (OK : renderer_ok rd).
  Context {I : list vertex_t -> Prop} {ps : list nat} {SH : Shading I ps}.

#[local] Hint Resolve safe_ret safe_if safe_unless_lit safe_draw : safe.
#[local] Hint Extern 1 (safe _ _ (hbind _ _)) => apply safe_bind; [|intros ?] : safe.

Lemma safe_fetch_color p : p ∈ ps -> safe I ps (fetch_color rd p).
Proof.
  intros Hp. apply safe_update; [done|]. intros v.
  destruct (fetch_at_total (rd_client rd) _ (v_index v) (v_color v) (rd_color _ OK)) as [c ->]. by eexists.
Qed.

Lemma safe_light_vertex p : p ∈ ps -> safe I ps (light_vertex rd p).
Proof.
  intros Hp st H. destruct (shading_ptr _ p H Hp) as [v Ev].
  destruct (run_lightVertex_total (rd_undefined rd) (rd_client rd) (rd_rescaleNormals rd) (rn_lighting st) v
              (rd_color _ OK) (rd_normal _ OK)) as (lt' & v' & E & Ec).
  eexists _, _. unfold light_vertex. rewrite Ev. cbn. rewrite E. cbn. split_and!; [done|..].
  - by eapply shading_closed.
  - apply length_insert.
  - intros q Hq. apply list_lookup_insert_ne. by intros ->.
Qed.

Lemma safe_fog_vertex p : p ∈ ps -> safe I ps (fog_vertex rd p).
Proof. intros Hp. by apply safe_modify. Qed.
Lemma safe_set_flag p bit : p ∈ ps -> Z.land bit CLIP_ALL = 0 -> safe I ps (modify_at p (set_flag bit)).
Proof. intros Hp Hb. apply safe_modify; [done|]. intros v. by apply core_set_flag. Qed.
Lemma safe_flat_color p : p ∈ ps -> safe I ps (flat_color p).
Proof. intros Hp. apply safe_get; [done|]. intros v _. apply safe_issue. by eexists. Qed.

#[local] Hint Resolve safe_fetch_color safe_light_vertex safe_fog_vertex safe_set_flag safe_flat_color : safe.
#[local] Hint Extern 1 (Z.land _ CLIP_ALL = 0) => reflexivity : safe.

Lemma safe_dark_vertex p : p ∈ ps -> safe I ps (dark_vertex rd p).
Proof. unfold dark_vertex. auto 6 with safe. Qed.
Lemma safe_lightVertexDarkSmoothFog p : p ∈ ps -> safe I ps (lightVertexDarkSmoothFog rd p).
Proof. unfold lightVertexDarkSmoothFog. auto 8 with safe. Qed.
Lemma safe_lightVertexDarkFlatFog p : p ∈ ps -> safe I ps (lightVertexDarkFlatFog rd p).
Proof. unfold lightVertexDarkFlatFog. auto 6 with safe. Qed.
Lemma safe_lightVertexSmoothFog p : p ∈ ps -> safe I ps (lightVertexSmoothFog rd p).
Proof. unfold lightVertexSmoothFog. auto 6 with safe. Qed.
#[local] Hint Resolve safe_dark_vertex safe_lightVertexDarkSmoothFog safe_lightVertexDarkFlatFog safe_lightVertexSmoothFog : safe.

Lemma safe_lightTriangle v0 v1 v2 : v0 ∈ ps -> v1 ∈ ps -> v2 ∈ ps -> safe I ps (lightTriangle rd v0 v1 v2).
Proof.
  intros H0 H1 H2. apply safe_raster. intros c. apply safe_lighting. intros lt. unfold lightPrimitive.
  destruct (has _ _), (negb _), (has _ _);
    unfold lightTriangleDarkFlat, lightTriangleDarkSmooth, lightTriangleFlat, lightTriangleSmooth,
      lightTriangleDarkFlatFog, lightTriangleDarkSmoothFog, lightTriangleFlatFog, lightTriangleSmoothFog;
    auto 10 with safe.
Qed.

(** ** Texture coordinates *)

Lemma texcoord_total i index coords : In i [0%nat; 1%nat] -> is_Some (texcoord_at rd i index coords).
Proof.
  intros Hi. destruct (rd_coords _ OK i Hi) as (a & Ea & Ha). destruct (rd_transforms _ OK i Hi) as [tr Et].
  unfold texcoord_at. rewrite Ea, Et. cbn. destruct (fetch_at_total (rd_client rd) a index coords Ha) as [c ->]. by eexists.
Qed.

Lemma safe_fetch_texcoord_unit i p : In i [0%nat; 1%nat] -> p ∈ ps -> safe I ps (fetch_texcoord_unit rd i p).
Proof.
  intros Hi Hp. apply safe_get; [done|]. intros v _. apply safe_if; [apply safe_ret|]. apply safe_update; [done|].
  intros w. destruct (texcoord_total i (v_index w) (nth i (v_texture w) zero_vec4) Hi) as [c ->]. by eexists.
Qed.

Lemma safe_fetch_texcoord v0 v1 v2 : v0 ∈ ps -> v1 ∈ ps -> v2 ∈ ps -> safe I ps (fetch_texcoord rd v0 v1 v2).
Proof.
  intros H0 H1 H2. assert (forall p, In p [v0; v1; v2] -> p ∈ ps) as Hp by (intros p [<-|[<-|[<-|[]]]]; done).
  apply safe_raster. intros c. apply safe_if; [apply safe_ret|].
  apply safe_get; [done|]. intros a _. apply safe_get; [done|]. intros b _. apply safe_get; [done|]. intros d _.
  apply safe_if; [apply safe_ret|]. apply safe_bind; [|intros _].
  - apply safe_units. intros i Hi. apply safe_each. intros p Hin. apply safe_fetch_texcoord_unit; auto.
  - apply safe_each. intros p Hin. apply safe_set_flag; auto.
Qed.

(** ** Interpolation *)

Lemma unit_texture_total i : In i [0%nat; 1%nat] -> is_Some (rd_tmus rd !! i).
Proof. intros Hi. destruct (rd_textures _ OK i Hi) as (t & E & _). by exists t. Qed.

Lemma mip_total t lod : shape_ok t -> is_Some (mip_surface t lod).
Proof.
  unfold shape_ok, mip_surface, mip, mip_index. destruct (mMipmaps t) as [[p ms]|]; [|by eexists].
  intros (_ & En & Hm). destruct (Z.leb_spec lod 0); [by eexists|].
  assert (0 < Z.of_nat (length ms)) by (destruct ms; cbn; [done|lia]).
  unfold array_get. rewrite (proj2 (Z.ltb_ge _ 0)) by lia.
  destruct (lookup_lt_is_Some_2 ms (Z.to_nat (Z.min (lod - 1) (mNumExtraLod t - 1)))) as [s ->]; [lia|]. by eexists.
Qed.

Lemma safe_bind_lod i s : In i [0%nat; 1%nat] -> safe I ps (issue (C_bindTextureLod (Z.of_nat i) s)).
Proof. intros [<-|[<-|[]]]; apply safe_issue; by eexists. Qed.
Lemma safe_tex_grad i g : In i [0%nat; 1%nat] -> safe I ps (issue (C_texCoordGradScale8xv (Z.of_nat i) g)).
Proof. intros [<-|[<-|[]]]; apply safe_issue; by eexists. Qed.

Lemma safe_unit_coords l i v0 v1 v2 : In i [0%nat; 1%nat] -> safe I ps (unit_coords rd l i v0 v1 v2).
Proof.
  intros Hi. apply safe_lift; [by apply unit_texture_total|]. intros tex Et.
  destruct (rd_textures _ OK i Hi) as (t & Et' & Hs). rewrite Et in Et'. injection Et' as ->.
  apply safe_bind; [|intros _; apply safe_raster; intros c; apply safe_ret].
  apply safe_if; [|apply safe_ret]. apply safe_lift; [by apply mip_total|]. intros s _. by apply safe_bind_lod.
Qed.

Lemma safe_lerp_texcoords l v0 v1 v2 : safe I ps (lerp_texcoords rd l v0 v1 v2).
Proof.
  apply safe_units. intros i Hi. apply safe_bind; [by apply safe_unit_coords|]. intros [s t].
  destruct (scale3 rd l s), (scale3 rd l t). by apply safe_tex_grad.
Qed.
Lemma safe_lerp_texcoords_w l v0 v1 v2 : safe I ps (lerp_texcoords_w rd l v0 v1 v2).
Proof.
  unfold lerp_texcoords_w. destruct (scale3 rd l _) as [itw sc]. apply safe_bind; [apply safe_issue; by eexists|]. intros _.
  apply safe_units. intros i Hi. apply safe_bind; [by apply safe_unit_coords|]. intros [s t].
  destruct (scale3 rd l _), (scale3 rd l _). by apply safe_tex_grad.
Qed.

Lemma safe_lerp_triangle l v0 v1 v2 : safe I ps (lerp_triangle rd l v0 v1 v2).
Proof.
  apply safe_raster. intros c. cbv zeta.
  apply safe_bind; [apply safe_if; [apply safe_if|]; auto using safe_ret, safe_lerp_texcoords, safe_lerp_texcoords_w|].
  intros _. repeat (apply safe_bind; [apply safe_if; [apply safe_issue; by eexists|apply safe_ret]|intros _]).
  apply safe_if; [apply safe_issue; by eexists|apply safe_ret].
Qed.

Lemma safe_triangle l v0 v1 v2 : safe I ps (triangle rd l v0 v1 v2).
Proof.
  apply safe_raster. intros c. apply safe_bind; [|intros _; apply safe_draw].
  apply safe_if; [apply safe_lerp_triangle|apply safe_ret].
Qed.

(** ** Points and triangles *)

Lemma safe_point p : p ∈ ps -> safe I ps (primitive_point rd p).
Proof.
  intros Hp. apply safe_raster. intros c. apply safe_lighting. intros lt. cbv zeta.
  apply safe_bind; [apply safe_unless_lit; [done|]; apply safe_bind; auto 8 with safe|intros _].
  apply safe_bind; [auto with safe|intros _]. apply safe_bind.
  { apply safe_if; [|apply safe_ret]. apply safe_bind; [by apply safe_fetch_texcoord|intros _].
    apply safe_get; [done|]. intros v _. apply safe_units. intros i Hi. apply safe_raster. intros c'.
    apply safe_lift; [by apply unit_texture_total|]. intros tex _. by apply safe_tex_grad. }
  intros _. apply safe_get; [done|]. intros v _.
  repeat (apply safe_bind; [apply safe_if; [apply safe_issue; by eexists|apply safe_ret]|intros _]). apply safe_draw.
Qed.

Lemma safe_clip_triangle p0 p1 p2 : p0 ∈ ps -> p1 ∈ ps -> p2 ∈ ps -> safe I ps (primitive_clip_triangle rd p0 p1 p2).
Proof.
  intros H0 H1 H2.
  assert (forall B (k : vertex_t -> vertex_t -> vertex_t -> renderM B), (forall a b c, safe I ps (k a b c)) ->
          safe I ps (hbind (get_at p0) (fun a => hbind (get_at p1) (fun b => hbind (get_at p2) (fun c => k a b c))))) as G3.
  { intros B k Hk. apply safe_get; [done|]. intros a _. apply safe_get; [done|]. intros b _. apply safe_get; [done|]. auto. }
  apply G3. intros v0 v1 v2. cbv zeta.
  assert (forall B (k : renderM B), safe I ps k ->
          safe I ps (hbind (fetch_texcoord rd p0 p1 p2) (fun _ => hbind (lightTriangle rd p0 p1 p2) (fun _ => k)))) as S.
  { intros B k Hk. apply safe_bind; [by apply safe_fetch_texcoord|intros _].
    by apply safe_bind; [apply safe_lightTriangle|intros _]. }
  apply safe_if.
  - apply safe_if; [apply safe_ret|]. apply S, G3. intros. apply safe_triangle.
  - apply S, G3. intros a b c. apply safe_raster. intros ctx.
    pose proof (clip_triangle_fits (clipper rd ctx) (rd_cull rd) (rd_stack rd) a b c) as F.
    destruct (clip_triangle _ _ _ _ _ _) as [| |ts]; [done|apply safe_ret|].
    apply safe_each. intros [[x y] z] _. apply safe_triangle.
Qed.

(** ** Lines *)

(** Vertices that satisfy [P] may be stored, and those stored do. *)
Definition loose (P : vertex_t -> Prop) : Prop :=
  (forall vs p v, I vs -> vs !! p = Some v -> P v) /\ (forall vs p v, I vs -> P v -> I (<[p := v]> vs)).
Definition clip_stable (P : vertex_t -> Prop) : Prop := forall c s p left_ a b, P s -> P p ->
  clip_line c s p = (left_, (a, b)) -> P a /\ P b.
Definition not_clipped (p : nat) : Prop := forall vs v, I vs -> vs !! p = Some v -> clip_flags v = 0.

Lemma safe_store P p v : loose P -> P v -> p ∈ ps -> safe I ps (store_at p v).
Proof.
  intros [_ L] Hv Hp st H. destruct (shading_ptr _ p H Hp) as [old E]. eexists _, _. unfold store_at. rewrite E. cbn.
  split_and!; [done|by apply L|apply length_insert|]. intros q Hq. apply list_lookup_insert_ne. by intros ->.
Qed.

Lemma safe_line p0 p1 : p0 ∈ ps -> p1 ∈ ps ->
  (exists P, loose P /\ clip_stable P) \/ (not_clipped p0 /\ not_clipped p1) ->
  safe I ps (primitive_line rd p0 p1).
Proof.
  intros H0 H1 HL. apply safe_bind; [by apply safe_fetch_texcoord|intros _].
  apply safe_bind; [by apply safe_lightTriangle|intros _]. apply safe_raster. intros c.
  apply safe_get; [done|]. intros v0 (vs0 & I0 & E0). apply safe_get; [done|]. intros v1 (vs1 & I1 & E1).
  apply safe_bind.
  - destruct HL as [(P & L & C)|[N0 N1]].
    + apply safe_if; [apply safe_ret|]. destruct (clip_line _ _ _) as [left_ [a b]] eqn:Ec.
      destruct (C _ _ _ _ _ _ (proj1 L _ _ _ I0 E0) (proj1 L _ _ _ I1 E1) Ec) as [Ha Hb].
      apply safe_bind; [by apply (safe_store P)|intros _]. apply safe_bind; [by apply (safe_store P)|intros _]. apply safe_ret.
    + pose proof (N0 _ _ I0 E0) as C0. pose proof (N1 _ _ I1 E1) as C1. unfold clip_flags in C0, C1.
      rewrite Z.land_lor_distr_l, C0, C1. apply safe_ret.
  - intros left_. apply safe_if; [apply safe_ret|]. apply safe_get; [done|]. intros a _. apply safe_get; [done|]. intros b _.
    apply safe_bind; [apply safe_if; [apply safe_lerp_triangle|apply safe_ret]|intros _]. apply safe_draw.
Qed.
End Shading.

(** ** Primitives *)

(** The vertices show the same, whatever their shading. *)
Definition same_cores (vs : list vertex_t) (vs' : list vertex_t) : Prop := map core vs' = map core vs.

Lemma same_cores_lookup vs vs' p v : same_cores vs vs' -> vs' !! p = Some v -> exists v0, vs !! p = Some v0 /\ core v = core v0.
Proof.
  intros H E. assert (map core vs' !! p = Some (core v)) as M by (by rewrite list_lookup_fmap, E).
  rewrite H, list_lookup_fmap in M. destruct (vs !! p) as [v0|]; [|done]. cbn in M. apply (inj Some) in M. by exists v0.
Qed.

Lemma shading_same (vs : list vertex_t) (ps : list nat) (prim : list vertex_t) : mapM (fun p => vs !! p) ps = Some prim -> Shading (same_cores vs) ps.
Proof.
  intros Hp. split.
  - intros vs' p v v' H E Ec. unfold same_cores in *. rewrite list_fmap_insert, <-H, Ec.
    apply list_insert_id. by rewrite list_lookup_fmap, E.
  - intros vs' p H Hin. apply mapM_Some in Hp. apply list_elem_of_lookup in Hin as [i Hi].
    destruct (Forall2_lookup_l _ _ _ _ _ Hp Hi) as (v & _ & Ev). apply lookup_lt_is_Some.
    unfold same_cores in H. apply (f_equal length) in H. rewrite !length_map in H. rewrite H. by eapply lookup_lt_Some.
Qed.

(** Clipping a line keeps the locks, or drops them. *)
Lemma perspective_locked pj z v : v_locked (perspective pj z v) = v_locked v.
Proof. unfold perspective. by destruct z. Qed.
Lemma project_locked pj en v : v_locked (ogles_vertex_project pj en v) = v_locked v.
Proof. unfold ogles_vertex_project. apply perspective_locked. Qed.
Lemma clipVertex_locked c nv t s p : v_locked (run_clipVertex c nv t s p) = v_locked nv.
Proof.
  assert (forall nv, v_locked (clipVertex c nv t s p) = v_locked nv) as H.
  { intros w. unfold clipVertex. cbn. by rewrite project_locked. }
  unfold run_clipVertex. destruct (cp_clipVertex c); unfold clipVertexAll, clipVertexC, clipVertexT; by rewrite H.
Qed.
Lemma clip_stable_planes (P : vertex_t -> Prop) dist cut fuel : (forall nv t s p, P nv -> P (cut nv t s p)) -> forall plane cc s p left_ a b,
  P s -> P p -> clip_line_planes (fun i => clip_line_plane (dist i) cut) fuel plane cc s p = (left_, (a, b)) -> P a /\ P b.
Proof.
  intros Hcut. induction fuel as [|fuel IH]; intros plane cc s p left_ a b Hs Hp E; cbn [clip_line_planes] in E; [by injection E as _ <- <-|].
  destruct (if Z.testbit cc 0 then _ else _) as [l [s' p']] eqn:E1. assert (P s' /\ P p') as [Hs' Hp'].
  { destruct (Z.testbit cc 0); [|by injection E1 as _ <- <-]. unfold clip_line_plane in E1.
    repeat case_match; simplify_eq; auto. }
  destruct l; [|by injection E as _ <- <-]. destruct (_ =? 0); [by injection E as _ <- <-|]. exact (IH _ _ _ _ _ _ _ Hs' Hp' E).
Qed.
Lemma clip_stable_any : clip_stable (fun _ => True).
Proof. by intros ????????. Qed.
Lemma clip_stable_locked : clip_stable lock_bit.
Proof.
  assert (forall c nv t s p, lock_bit nv -> lock_bit (run_clipVertex c nv t s p)) as Hv.
  { intros c nv t s p. unfold lock_bit. by rewrite clipVertex_locked. }
  intros c s p left_ a b Hs Hp E. unfold clip_line in E.
  destruct (if Z.shiftr _ 8 =? 0 then _ else _) as [l [s' p']] eqn:E1. assert (lock_bit s' /\ lock_bit p') as [Hs' Hp'].
  { destruct (_ =? 0); [by injection E1 as _ <- <-|]. eapply clip_stable_planes in E1; [exact E1| |done|done].
    intros nv t x y _. unfold clipEye, lock_bit. cbn. rewrite clipVertex_locked. by left. }
  destruct (_ || _); [by injection E as _ <- <-|]. eapply clip_stable_planes in E; [exact E|by intros; apply Hv|done|done].
Qed.

Lemma shading_length n (vs : list vertex_t) (ps : list nat) (prim : list vertex_t) : mapM (fun p => vs !! p) ps = Some prim -> length vs = n ->
  Shading (fun vs' => length vs' = n) ps.
Proof.
  intros Hp Hn. split.
  - intros vs' p v v' H _ _. by rewrite length_insert.
  - intros vs' p H Hin. apply mapM_Some in Hp. apply list_elem_of_lookup in Hin as [i Hi].
    destruct (Forall2_lookup_l _ _ _ _ _ Hp Hi) as (v & _ & Ev). apply lookup_lt_is_Some.
    rewrite H, <-Hn. by eapply lookup_lt_Some.
Qed.

Lemma shading_locked n (vs : list vertex_t) (ps : list nat) (prim : list vertex_t) : mapM (fun p => vs !! p) ps = Some prim -> length vs = n ->
  Shading (fun vs' => length vs' = n /\ Forall lock_bit vs') ps.
Proof.
  intros Hp Hn. pose proof (shading_length n vs ps prim Hp Hn) as [Hc Hs]. split.
  - intros vs' p v v' [L F] E Ec. split; [by eapply Hc|]. apply Forall_insert; [done|]. eapply Forall_lookup_1 in F; [|exact E].
    unfold core in Ec. unfold lock_bit in *. injection Ec as _ _ _ _ _ ->. done.
  - intros vs' p [L _]. by apply Hs.
Qed.

Lemma render_loose rd I P (ps : list nat) : renderer_ok rd -> (1 <= length ps <= 3)%nat -> Shading I ps ->
  loose (I := I) P -> clip_stable P -> safe I ps (render_primitive rd ps).
Proof.
  intros OK Hl SH L C. unfold render_primitive. apply safe_if; [|apply safe_ret].
  destruct ps as [|p0 [|p1 [|p2 [|p3 ps]]]]; cbn in Hl; try lia.
  - apply (safe_point OK). by repeat constructor.
  - apply (safe_line OK); [by repeat constructor..|]. left. by exists P.
  - apply (safe_clip_triangle OK); by repeat constructor.
Qed.

(** Rendering a primitive comes to an end.  It changes the vertices of the
    primitive only, and only their shading, unless it is a line with a clipped
    end. *)
Lemma render_safe rd (vs : list vertex_t) (ps : list nat) (prim : list vertex_t) st : renderer_ok rd -> (1 <= length ps <= 3)%nat ->
  mapM (fun p => vs !! p) ps = Some prim -> rn_vertices st = vs ->
  exists st', render_primitive rd ps st = Some (tt, st') /\ length (rn_vertices st') = length vs /\
    (forall p, p ∉ ps -> rn_vertices st' !! p = vs !! p) /\
    (length prim <> 2%nat \/ Forall (fun v => clip_flags v = 0) prim -> map core (rn_vertices st') = map core vs).
Proof.
  intros OK Hl Hp Hv. assert (Forall2 (fun p v => vs !! p = Some v) ps prim) as Hp2 by by apply mapM_Some.
  assert (length prim = length ps) as Lp by by (symmetry; eapply Forall2_length).
  pose proof (shading_same vs ps prim Hp) as SH. pose proof (shading_length _ vs ps prim Hp eq_refl) as SL.
  assert (length prim <> 2%nat \/ Forall (fun v => clip_flags v = 0) prim -> safe (same_cores vs) ps (render_primitive rd ps)) as Strict.
  { intros HC. unfold render_primitive. apply safe_if; [|apply safe_ret].
    destruct ps as [|p0 [|p1 [|p2 [|p3 ps]]]]; cbn in Hl; try lia.
    - apply (safe_point OK). by repeat constructor.
    - apply (safe_line OK); [by repeat constructor..|]. right. destruct HC as [?|HC]; [cbn in Lp; lia|].
      inversion Hp2 as [|? v0 ? ? E0 Hp3]; subst. inversion Hp3 as [|? v1 ? ? E1 _]; subst.
      rewrite !Forall_cons in HC. destruct HC as (C0 & C1 & _).
      split; intros vs' v Hs E; destruct (same_cores_lookup _ _ _ _ Hs E) as (w & Ew & Ec); unfold core in Ec;
        [rewrite E0 in Ew|rewrite E1 in Ew]; injection Ew as <-; congruence.
    - apply (safe_clip_triangle OK); by repeat constructor. }
  assert (safe (fun vs' => length vs' = length vs) ps (render_primitive rd ps)) as Weak.
  { apply (render_loose _ _ (fun _ => True)); [done..| |apply clip_stable_any]. split; [done|].
    intros vs' p v H _. by rewrite length_insert. }
  destruct (Weak st) as ([] & st' & E & L & _ & F); [by rewrite Hv|].
  exists st'. subst vs. split_and!; [done|done|done|]. intros HC.
  destruct (Strict HC st) as ([] & st2 & E2 & C & _); [done|]. rewrite E in E2. by injection E2 as <-.
Qed.

(** The locks of the vertices stay 0 or 1. *)
Lemma render_locked rd (vs : list vertex_t) (ps : list nat) (prim : list vertex_t) st : renderer_ok rd -> (1 <= length ps <= 3)%nat ->
  mapM (fun p => vs !! p) ps = Some prim -> rn_vertices st = vs -> Forall lock_bit vs ->
  exists st', render_primitive rd ps st = Some (tt, st') /\ length (rn_vertices st') = length vs /\ Forall lock_bit (rn_vertices st').
Proof.
  intros OK Hl Hp <- Hb.
  destruct (render_loose rd _ lock_bit ps OK Hl (shading_locked _ _ ps prim Hp eq_refl)) with (st := st) as ([] & st' & E & [L F] & _).
  - split.
    + intros vs' p v [_ F] E. by eapply Forall_lookup_1.
    + intros vs' p v [L F] Hv. split; [by rewrite length_insert|by apply Forall_insert].
  - apply clip_stable_locked.
  - done.
  - by exists st'.
Qed.

(** ** The compiler *)

(** What is drawn of a vertex: its coordinates and clip flags, and its window
    coordinates unless it is clipped. *)
Definition geometry : Type := vec4_t * vec4_t * Z * option (Z * Z * Z).
Definition geom (v : vertex_t) : geometry :=
  (v_obj v, v_clip v, clip_flags v,
   if clip_flags v =? 0 then Some (vx (v_window v), vy (v_window v), vw (v_window v)) else None).
Definition geom_flags (g : geometry) : Z := g.1.2.

Lemma geom_core v v' : core v = core v' -> geom v = geom v'.
Proof. unfold core, geom. intros H. injection H as -> -> -> -> _ _. done. Qed.

(** The rasterizer, the lighting and the calls made. *)
Record draw_ctx := mk_draw_ctx { dc_raster : context_t; dc_lighting : lighting_t; dc_calls : list raster_call }.

Section Pipeline.
  Variables (rd : renderer_t) (fetch : fetcher_t).

Definition compiler : compiler_t :=
  let cl := rd_client rd in
  mk_compiler (am_vertex (cl_arrays cl)) fetch (cl_current cl) (am_tmu (cl_arrays cl)) (cl_mem cl) (rd_projection rd).

(** [c->prims.renderXxx] on the vertices of the buffer and the cache. *)
Definition gl_render (ps : list nat) (vs : list vertex_t) (ctx : draw_ctx) : option (list vertex_t * draw_ctx) :=
  '(_, st) ← render_primitive rd ps (mk_render vs (dc_raster ctx) (dc_lighting ctx) (dc_calls ctx));
  Some (rn_vertices st, mk_draw_ctx (rn_raster st) (rn_lighting st) (rn_calls st)).

Definition gl_pipeline : VertexPipeline := {|
  render_ctx := draw_ctx;
  compileElement old i cull := compileElement__generic compiler old (s32 i) cull;
  compileElements olds first cull := compileElements__generic compiler olds first cull;
  render := gl_render |}.

(** The vertex array has data of two coordinates at least, and elements less
    than 2^15 bytes apart. *)
Record compiler_ok : Prop := mk_compiler_ok {
  ck_fetch p : (2 <= length (run_fetch fetch (cl_current (rd_client rd)) (am_tmu (cl_arrays (rd_client rd)))
                               (cl_mem (rd_client rd)) p))%nat;
  ck_stride : 0 <= a_stride (am_vertex (cl_arrays (rd_client rd))) < 2 ^ 15 }.

(** What is drawn of an array element. *)
Definition gl_element (i : Z) : geometry :=
  geom (fst (compile_at compiler (array_element (am_vertex (cl_arrays (rd_client rd))) i) 0 zero_vertex 0)).
End Pipeline.

(** *** Compiling *)

Lemma outcode_clip_all p : Z.land (outcode p) CLIP_ALL = outcode p.
Proof. rewrite outcode_bits. rewrite <-Z.land_assoc. done. Qed.

(** The flags and window coordinates after the projection; [f0] are the flags
    before. *)
Lemma clipFrustum_flags pj z v cull :
  let '(v', cull') := clipFrustumPerspective pj z v cull in
  clip_flags v' = Z.lor (clip_flags v) (outcode (v_clip v)) /\ cull' = Z.land cull (clip_flags v') /\
  v_obj v' = v_obj v /\ v_clip v' = v_clip v /\ v_index v' = v_index v /\ v_locked v' = v_locked v.
Proof.
  unfold clipFrustumPerspective. set (clip := Z.lor (clip_flags v) (outcode (v_clip v))).
  assert (clip_flags (v <| v_flags ::= set_bits clip |>) = clip) as E.
  { unfold clip_flags, set_bits. cbn -[Z.land CLIP_ALL]. fold (clip_flags v).
    rewrite Z.land_lor_distr_l. fold (clip_flags v). subst clip. rewrite Z.land_lor_distr_l, outcode_clip_all.
    unfold clip_flags at 2. rewrite <-Z.land_assoc. change (Z.land CLIP_ALL CLIP_ALL) with CLIP_ALL. fold (clip_flags v).
    by rewrite Z.lor_assoc, Z.lor_diag. }
  destruct (clip =? 0); cbv beta iota zeta; [|split_and!; [exact E|exact (f_equal (Z.land cull) (eq_sym E))|done..]].
  assert (clip_flags (perspective pj z (v <| v_flags ::= set_bits clip |>)) = clip) as E'.
  { etransitivity; [|exact E]. unfold perspective. by destruct z. }
  split_and!; [exact E'|exact (f_equal (Z.land cull) (eq_sym E'))|..]; unfold perspective; by destruct z.
Qed.

#[local] Opaque user_outcode.

(** What is drawn depends on the coordinates and the flags only. *)
Lemma clipFrustum_geom pj z z' v v' cull cull' : v_obj v = v_obj v' -> v_clip v = v_clip v' -> v_flags v = v_flags v' ->
  geom (fst (clipFrustumPerspective pj z v cull)) = geom (fst (clipFrustumPerspective pj z' v' cull')).
Proof.
  intros Ho Hc Hf.
  pose proof (clipFrustum_flags pj z v cull) as F. pose proof (clipFrustum_flags pj z' v' cull') as F'.
  destruct (clipFrustumPerspective pj z v cull) as [w c] eqn:E.
  destruct (clipFrustumPerspective pj z' v' cull') as [w' c'] eqn:E'.
  destruct F as (Fl & _ & Fo & Fc & _). destruct F' as (Fl' & _ & Fo' & Fc' & _). cbn.
  unfold geom. assert (clip_flags v = clip_flags v') as Ev by (unfold clip_flags; by rewrite Hf).
  rewrite Fo, Fc, Fo', Fc', Fl, Fl', Ho, Hc, Ev. f_equal.
  unfold clipFrustumPerspective in E, E'. rewrite Ev, Hc in E. destruct (Z.lor (clip_flags v') (outcode (v_clip v')) =? 0); [|done].
  injection E as <- _. injection E' as <- _. unfold perspective. destruct z, z'; cbn; by rewrite Hc.
Qed.

Lemma run_perspective_geom pj v v' cull cull' : v_obj v = v_obj v' -> v_clip v = v_clip v' -> v_flags v = v_flags v' ->
  geom (fst (run_perspective pj v cull)) = geom (fst (run_perspective pj v' cull')).
Proof.
  intros Ho Hc Hf. unfold run_perspective. destruct (pj_perspective pj); try by apply clipFrustum_geom.
  - unfold ogles_vertex_perspective2D, geom, clip_flags. cbn -[Z.land CLIP_ALL TRI_FROM_FIXED Z.shiftl s32].
    by rewrite Ho, Hc, Hf.
  - apply clipFrustum_geom; cbn -[user_outcode]; unfold v_eye; cbn -[user_outcode]; by rewrite ?Ho, ?Hf.
  - apply clipFrustum_geom; cbn -[user_outcode]; unfold v_eye; cbn -[user_outcode]; by rewrite ?Ho, ?Hf.
Qed.

(** [arrays.cull] keeps the planes that all vertices so far are outside of. *)
Lemma run_perspective_flags pj v cull : v_flags v = 0 ->
  let '(v', cull') := run_perspective pj v cull in
  cull' = Z.land cull (clip_flags v') /\ v_index v' = v_index v /\ v_locked v' = v_locked v.
Proof.
  intros Hf. unfold run_perspective.
  assert (forall z v0, v_index v0 = v_index v -> v_locked v0 = v_locked v ->
    let '(v', cull') := clipFrustumPerspective pj z v0 cull in
    cull' = Z.land cull (clip_flags v') /\ v_index v' = v_index v /\ v_locked v' = v_locked v) as F.
  { intros z v0 Ei El. pose proof (clipFrustum_flags pj z v0 cull) as F.
    destruct (clipFrustumPerspective pj z v0 cull) as [v' c]. destruct F as (_ & Ec & _ & _ & -> & ->). done. }
  destruct (pj_perspective pj); try by apply F.
  unfold ogles_vertex_perspective2D, clip_flags. cbn. by rewrite Hf, Z.land_0_l, Z.land_0_r.
Qed.

Section Laws.
  Context {rd : renderer_t} {fetch : fetcher_t} (OK : renderer_ok rd) (CK : compiler_ok rd fetch).
#[local] Abbreviation vertices := (am_vertex (cl_arrays (rd_client rd))).

Lemma vec4_write_long l o o' : (2 <= length l)%nat -> vz o = vz o' -> vw o = vw o' -> vec4_write l o = vec4_write l o'.
Proof. destruct l as [|x [|y l]]; cbn; [lia..|]. intros _ Hz Hw. unfold vec4_write. cbn. by rewrite Hz, Hw. Qed.

Lemma compile_at_geom vp tag tag' old old' cull cull' :
  geom (fst (compile_at (compiler rd fetch) vp tag old cull)) = geom (fst (compile_at (compiler rd fetch) vp tag' old' cull')).
Proof.
  unfold compile_at. cbn -[run_perspective vec4_write run_fetch].
  assert (forall o o', vz o = vz o' -> vw o = vw o' ->
    vec4_write (run_fetch fetch (cl_current (rd_client rd)) (am_tmu (cl_arrays (rd_client rd))) (cl_mem (rd_client rd)) vp) o =
    vec4_write (run_fetch fetch (cl_current (rd_client rd)) (am_tmu (cl_arrays (rd_client rd))) (cl_mem (rd_client rd)) vp) o') as W.
  { intros o o' Hz Hw. apply vec4_write_long; [|done|done]. apply (ck_fetch _ _ CK). }
  apply run_perspective_geom; cbn -[vec4_write run_fetch]; [by apply W| |done]. f_equal. by apply W.
Qed.

Lemma compile_at_fields vp tag old cull :
  let '(v, cull') := compile_at (compiler rd fetch) vp tag old cull in
  cull' = Z.land cull (clip_flags v) /\ v_index v = tag /\ v_locked v = v_locked old.
Proof.
  unfold compile_at. cbv zeta. match goal with |- context [run_perspective ?pj ?v cull] =>
    pose proof (run_perspective_flags pj v cull eq_refl) as F; destruct (run_perspective pj v cull) as [w c] end.
  destruct F as (-> & -> & ->). done.
Qed.

(** Consecutive elements are where their index says. *)
Lemma array_element_next i : 0 <= i < 2 ^ 16 ->
  array_element vertices i = array_element vertices 0 + i * a_stride vertices.
Proof.
  intros Hi. destruct (ck_stride _ _ CK) as [S0 S1]. unfold array_element. rewrite Z.mul_0_l. change (s32 0) with 0.
  assert (0 <= i * a_stride vertices < 2 ^ 16 * 2 ^ 15) by nia. rewrite s32_id by (unfold is_s32; lia). lia.
Qed.

Lemma land_index i : Z.land i INDEX_MASK = i mod 2 ^ 16.
Proof. change INDEX_MASK with (Z.ones 16). by apply Z.land_ones. Qed.

Lemma compile_loop_geom olds : forall first cull vs cull',
  0 <= first -> first + Z.of_nat (length olds) <= 2 ^ 16 ->
  compile_loop (compiler rd fetch) olds (array_element vertices 0 + first * a_stride vertices) first cull = (vs, cull') ->
  map geom vs = elements (gl_element rd fetch) first (length olds) /\
  cull' = fold_left (fun c v => Z.land c (clip_flags v)) vs cull.
Proof.
  induction olds as [|old olds IH]; intros first cull vs cull' H0 H1 E; cbn [compile_loop length] in *.
  { by injection E as <- <-. }
  set (vp := array_element vertices 0 + _) in *.
  pose proof (compile_at_fields vp (u64 first) old cull) as F.
  pose proof (compile_at_geom vp (u64 first) 0 old zero_vertex cull 0) as G.
  destruct (compile_at _ vp (u64 first) old cull) as [v c] eqn:Ev. destruct F as (-> & _ & _).
  destruct (compile_loop _ olds _ _ _) as [vs2 c2] eqn:E2. injection E as <- <-.
  rewrite (s32_id (first + 1)) in E2 by (unfold is_s32; lia).
  replace (vp + a_stride (cm_array (compiler rd fetch))) with (array_element vertices 0 + (first + 1) * a_stride vertices) in E2
    by (subst vp; cbn; ring).
  apply IH in E2 as [Em ->]; [|lia..]. split; [|done]. cbn [map elements]. rewrite Em. f_equal.
  unfold gl_element. rewrite array_element_next by lia. exact G.
Qed.

(** The compiler and the renderer are what the drawing loops work with. *)
#[export] Instance gl_pipeline_laws : PipelineLaws (gl_pipeline rd fetch) geom geom_flags (gl_element rd fetch).
Proof.
  split.
  - done.
  - done.
  - intros old i cull v cull' Hi E. cbn in E. unfold compileElement__generic in E.
    rewrite (s32_id i) in E by (unfold is_s32; lia).
    pose proof (compile_at_fields (array_element vertices (Z.land i INDEX_MASK)) (u64 i) old cull) as F.
    pose proof (compile_at_geom (array_element vertices (Z.land i INDEX_MASK)) (u64 i) 0 old zero_vertex cull 0) as G.
    change (cm_array (compiler rd fetch)) with vertices in E. rewrite E in F, G. destruct F as (Fc & Fi & Fl).
    split_and!; [|by rewrite Fi, u64_id by lia|done|done].
    rewrite land_index in G. exact G.
  - intros olds first cull vs cull' H0 H1 E. cbn in E. unfold compileElements__generic in E.
    destruct olds as [|old olds]; [by injection E as <- <-|].
    apply compile_loop_geom; [done|done|]. rewrite <-E. f_equal. cbn [length] in H1.
    change (cm_array (compiler rd fetch)) with vertices. rewrite land_index, Z.mod_small by lia.
    symmetry. apply array_element_next. lia.
  - intros ps vs prim ctx Hl Hp. cbn. unfold gl_render.
    destruct (render_safe rd vs ps prim (mk_render vs (dc_raster ctx) (dc_lighting ctx) (dc_calls ctx)) OK Hl Hp eq_refl)
      as (st & E & L & F & C). rewrite E. cbn. eexists _, _. split_and!; [done|done|done|].
    intros HC. specialize (C HC).
    assert (forall {B} (f : vertex_t -> B), (forall v v', core v = core v' -> f v = f v') -> map f (rn_vertices st) = map f vs) as M.
    { intros B f Hf. clear - C Hf. revert C. generalize (rn_vertices st). induction vs as [|v vs IH]; intros [|v' vs'] C; try done.
      pose proof (f_equal (@tail _) C) as C2. apply (f_equal (@head _)) in C. cbn [map tail head] in *.
      apply (inj Some) in C. f_equal; [by apply Hf|by apply IH]. }
    split_and!; apply M; intros v v' Hv; [by apply geom_core|unfold core in Hv; congruence..].
Qed.
End Laws.

(** ** Drawing ends

    Whatever is fetched, compiled and clipped. *)
Section Ends.
  Context {rd : renderer_t} {fetch : fetcher_t} (OK : renderer_ok rd).

Lemma compile_at_locked cm vp tag old cull : v_locked (fst (compile_at cm vp tag old cull)) = v_locked old.
Proof.
  unfold compile_at. cbv zeta. match goal with |- context [run_perspective ?pj ?v cull] =>
    pose proof (run_perspective_flags pj v cull eq_refl) as F; destruct (run_perspective pj v cull) as [w c] end.
  destruct F as (_ & _ & F). exact F.
Qed.
Lemma compile_loop_locked cm olds : forall vp first cull, map v_locked (fst (compile_loop cm olds vp first cull)) = map v_locked olds.
Proof.
  induction olds as [|old olds IH]; intros vp first cull; cbn [compile_loop]; [done|].
  pose proof (compile_at_locked cm vp (u64 first) old cull) as L. destruct (compile_at _ _ _ _ _) as [v c].
  specialize (IH (vp + a_stride (cm_array cm)) (s32 (first + 1)) c). destruct (compile_loop _ _ _ _ _) as [vs c2]. cbn in *. by rewrite L, IH.
Qed.

#[export] Instance gl_pipeline_ends : PipelineEnds (gl_pipeline rd fetch).
Proof.
  split.
  - intros old i cull. exact (compile_at_locked (compiler rd fetch) _ _ old cull).
  - intros olds first cull. exact (compile_loop_locked (compiler rd fetch) olds _ _ cull).
  - intros ps vs ctx Hl Hp Hb. assert (exists prim, mapM (fun p => vs !! p) ps = Some prim) as [prim Hprim].
    { clear Hl. induction Hp as [|p ps Hp _ [l IH]]; [by exists []|]. destruct (lookup_lt_is_Some_2 vs p Hp) as [v E].
      exists (v :: l). cbn. by rewrite E, IH. }
    destruct (render_locked rd vs ps prim (mk_render vs (dc_raster ctx) (dc_lighting ctx) (dc_calls ctx)) OK Hl Hprim eq_refl Hb)
      as (st & E & L & F). cbn. unfold gl_render. rewrite E. cbn. by eexists _, _.
Qed.
End Ends.
