(* ===== verification/Drawing.v ===== *)
(** * Drawing: the components together

    The drawing loops over the compiler and the renderer, on concrete clients:
    the hypotheses of the specifications of [Assembly.v] and [VertexCache.v]
    hold there, and what they exclude goes wrong. *)

From S2P Require Import Prelude TextureObjects Fixed Names Context PixelFormat Surface PixelFlinger Picker Vertex Clipping Arrays Assembly VertexCache Light Lerp Primitives Rendering.

(** ** A client *)

(** Vertices of three bytes at 0x1000: [x i], [i], 0.  Nothing is transformed. *)
Definition client_mem (x : Z -> Z) : mem := fun a =>
  let k := a - 0x1000 in
  if (k mod 3) =? 0 then u8 (x (k / 3)) else if (k mod 3) =? 1 then u8 (Z.min 1 (k / 3)) else 0.
Definition client_arrays : array_machine_t :=
  pick_fetchers (mk_fetch_mode false [false; false])
    (exec_array (A_ClientState GL_VERTEX_ARRAY true) (exec_array (A_VertexPointer 3 GL_BYTE 0 0x1000) ogles_init_array)).
Definition a_client (x : Z -> Z) : client_t :=
  mk_client client_arrays (example_current [0; 0; 0x10000]) (client_mem x) transform_loadIdentity.
(** A viewport of 32 by 32 pixels. *)
Definition a_projection : projection_t :=
  mk_projection [0x100000; 0; 0; 0; 0; 0x100000; 0; 0; 0; 0; 0x8000; 0; 0x100000; 0x100000; 0x8000; 0x10000]
    gIdentityx use_point3__nop gIdentityx use_point3__nop [] 0 use_perspective3D (fun _ => 0).
Definition a_renderer (x : Z -> Z) : renderer_t :=
  mk_renderer (a_client x) a_projection use_clipVertex (mk_culling GL_BACK GL_CCW 0)
    (ls_fog ogles_init_light) 0 [new_texture; new_texture] [transform_loadIdentity; transform_loadIdentity]
    16 16 (mk_polygon_offset 0 0 0) (fun _ => zero_vertex) 0.

Lemma a_renderer_ok x : renderer_ok (a_renderer x).
Proof.
  split; [by eexists..| | |]; intros i [<-|[<-|[]]]; try by eexists.
Qed.

Lemma a_compiler_ok x : compiler_ok (a_renderer x) (use_fetch fetch3b).
Proof. split; [intros p; cbn; lia|cbn; lia]. Qed.
#[export] Instance a_pipeline_laws x :
  PipelineLaws (gl_pipeline (a_renderer x) (use_fetch fetch3b)) geom geom_flags (gl_element (a_renderer x) (use_fetch fetch3b)) :=
  gl_pipeline_laws (a_renderer_ok x) (a_compiler_ok x).

Definition fresh (rd : renderer_t) (f : fetcher_t) : assembly_t (gl_pipeline rd f) :=
  mk_assembly (gl_pipeline rd f) (repeat zero_vertex 72) 0 0
    (mk_draw_ctx ggl_init_context (ls_lighting ogles_init_light) []) [].

(** The elements that were rendered together. *)
Definition rendered_elements {VP} (r : option (unit * assembly_t VP)) : list (list Z) :=
  match r with Some (_, st) => map (map (fun v => v_index v mod 2 ^ 16)) (as_out st) | None => [] end.

(** ** The specifications apply *)

Definition inside_out : renderer_t := a_renderer (fun i => i mod 2).


Lemma fresh_idle rd f : cache_idle (fresh rd f).
Proof.
  split; cbn -[repeat].
  - apply repeat_length.
  - exists 0. lia.
  - intros k v E. apply list_elem_of_lookup_2, list_elem_of_In, repeat_spec in E as ->. cbn. lia.
  - intros k v E. by apply list_elem_of_lookup_2, list_elem_of_In, repeat_spec in E as ->.
Qed.


(** ** Faults *)

(** The first batch of 72 vertices is outside of the left plane and skipped.
    The line from its last vertex to the first visible one is drawn from the
    first vertex of the strip instead. *)
Definition strip_client : renderer_t := a_renderer (fun i => if i <? 72 then 254 else 0).
Example line_strip_reconnects :
  rendered_elements (drawArraysPrims GL_LINE_STRIP 0 74 (fresh strip_client (use_fetch fetch3b))) = [[0; 72]; [72; 73]].
Proof. vm_compute. reflexivity. Qed.

(** The hub of a fan is visible, all else is outside of the left plane.  Every
    triangle may be partly visible, yet the two of the second batch are not
    drawn: the hub is not asked whether the batch can be skipped. *)
Definition fan_client : renderer_t := a_renderer (fun i => if i =? 0 then 0 else 254).
Example fan_loses_hub :
  length (shown (clip_of := geom_flags) (prescribed GL_TRIANGLE_FAN (elements (gl_element fan_client (use_fetch fetch3b)) 0 74))) = 72%nat /\
  rendered_elements (drawArraysPrims GL_TRIANGLE_FAN 0 74 (fresh fan_client (use_fetch fetch3b))) =
    map (fun k => [0; k; k + 1]) (map (fun k => k + 1) (zrange 70)).
Proof. vm_compute. split; reflexivity. Qed.

(** A fan that names a vertex twice in a row unlocks it while it is in use; a
    vertex of the same cache slot then takes its place: (0, 65, 65) is drawn for
    (0, 1, 65). *)
Example degenerate_fan :
  rendered_elements (drawElementsPrims GL_TRIANGLE_FAN 5 [0; 2; 1; 1; 65] (clear (fresh inside_out (use_fetch fetch3b)))) =
    [[0; 2; 1]; [0; 1; 1]; [0; 65; 65]].
Proof. vm_compute. reflexivity. Qed.

(** A flat line, lit by the current color, white: its color is handed to the
    rasterizer.  With fog on, the second vertex is marked lit before its color is
    fetched, and the color that the vertex happened to have is used. *)
Definition line_calls (commands : list command) : list raster_call :=
  match exec_all commands ggl_init_context with
  | Some c =>
      match render_primitive inside_out [0%nat; 1%nat]
              (mk_render (repeat zero_vertex 2) c (ls_lighting ogles_init_light) []) with
      | Some (_, st) => rn_calls st | None => []
      end
  | None => []
  end.
Definition line_color (calls : list raster_call) : option (list Z) :=
  match calls with Issue (C_color4xv color) :: _ => Some color | _ => None end.
Example flat_fog_line_color :
  line_color (line_calls [C_shadeModel GGL_FLAT]) = Some [0x10000; 0x10000; 0x10000; 0x10000] /\
  line_color (line_calls [C_shadeModel GGL_FLAT; C_enable GGL_FOG]) = Some [0; 0; 0; 0].
Proof. vm_compute. split; reflexivity. Qed.
