(* ===== verification/Matrix.v ===== *)
(** * Matrices, their stacks and the transformations

    Models the float and fixed-point matrices, the matrix stacks and the
    transformation state of swrender/matrix.cpp and include/gl_context.h.  A
    float matrix is a list of 16 patterns; expressions are evaluated in single
    precision, without contraction, and in double precision where the code
    declares a [double].  What the transformations compute from the matrices is
    [Transforms.v]. *)

From Stdlib Require Import SpecFloat.
From S2P Require Import Prelude Fixed Names Float Vertex.

Definition OP_TRANSLATE : Z := 0x01.
Definition OP_UNIFORM_SCALE : Z := 0x02.
Definition OP_SCALE : Z := 0x05.
Definition OP_ROTATE : Z := 0x08.

Definition DO_PICKER : Z := 0x1.
Definition DO_FLOAT_TO_FIXED : Z := 0x2.

Definition OGLES_MODELVIEW_STACK_DEPTH : Z := 16.
Definition OGLES_PROJECTION_STACK_DEPTH : Z := 2.
Definition OGLES_TEXTURE_STACK_DEPTH : Z := 2.

Definition GL_STACK_OVERFLOW : Z := 0x0503.
Definition GL_STACK_UNDERFLOW : Z := 0x0504.
Definition GL_MODELVIEW : Z := 0x1700.
Definition GL_PROJECTION : Z := 0x1701.
Definition GL_TEXTURE : Z := 0x1702.

(** Bits of [transform_state_t::dirty]. *)
Definition MODELVIEW : Z := 0x01.
Definition PROJECTION : Z := 0x02.
Definition VIEWPORT : Z := 0x04.
Definition TEXTURE : Z := 0x08.
Definition MVUI : Z := 0x10.
Definition MVIT : Z := 0x20.
Definition MVP : Z := 0x40.

Abbreviation matrixf_t := (list Z).

Definition gIdentityf : matrixf_t :=
  [f_1; 0; 0; 0; 0; f_1; 0; 0; 0; 0; f_1; 0; 0; 0; 0; f_1].

Section Matrices.
  Context {NAN : Nans}.

(** ** Float matrices

    Element [(i, j)] is at [I(i, j) = j + 4 * i]: [i] is the column. *)

Definition matrix_build (f : nat -> nat -> Z) : matrixf_t :=
  flat_map (fun i => map (f i) (seq 0 4)) (seq 0 4).

Definition matrixf_multiply (lhs rhs : matrixf_t) : matrixf_t :=
  matrix_build (fun i k =>
    fold_left (fun ri j => fadd ri (fmul (elt lhs (4 * j + k)) (elt rhs (4 * i + j)))) [1; 2; 3]%nat
      (fmul (elt lhs k) (elt rhs (4 * i)))).

Definition matrixf_translate (x y z : Z) (m : matrixf_t) : matrixf_t :=
  take 12 m ++
  map (fun i => fadd (elt m (12 + i)) (fadd (fadd (fmul (elt m i) x) (fmul (elt m (4 + i)) y)) (fmul (elt m (8 + i)) z)))
    (seq 0 4).

Definition matrixf_scale (x y z : Z) (m : matrixf_t) : matrixf_t :=
  map (fun i => fmul (elt m i) x) (seq 0 4) ++ map (fun i => fmul (elt m (4 + i)) y) (seq 0 4) ++
  map (fun i => fmul (elt m (8 + i)) z) (seq 0 4) ++ drop 12 m.

(** [GLfloat(M_PI / 180.0f)]. *)
Definition degree : Z := bits_of_SF (float_of_double (SFdiv 53 1024 M_PI (double_of_Z 180))).

(** Rotation about any axis; [s] and [c] are the sine and the cosine. *)
Definition rotation_axis (x y z s c : Z) : matrixf_t :=
  let len := sqrtf (fadd (fadd (fmul x x) (fmul y y)) (fmul z z)) in
  let recipLen := reciprocalf len in
  let unit v := if isOnef len then v else fmul v recipLen in
  let x := unit x in let y := unit y in let z := unit z in
  let nc := fsub f_1 c in
  let xy := fmul x y in let yz := fmul y z in let zx := fmul z x in
  let xs := fmul x s in let ys := fmul y s in let zs := fmul z s in
  [fadd (fmul (fmul x x) nc) c; fadd (fmul xy nc) zs; fsub (fmul zx nc) ys; 0;
   fsub (fmul xy nc) zs; fadd (fmul (fmul y y) nc) c; fadd (fmul yz nc) xs; 0;
   fadd (fmul zx nc) ys; fsub (fmul yz nc) xs; fadd (fmul (fmul z z) nc) c; 0;
   0; 0; 0; f_1].

Definition rotation (a x y z : Z) : matrixf_t :=
  let '(s, c) := sincosf (fmul a degree) in
  if isOnef x && isZerof y && isZerof z then
    [f_1; 0; 0; 0; 0; c; s; 0; 0; fneg s; c; 0; 0; 0; 0; f_1]
  else if isZerof x && isOnef y && isZerof z then
    [c; 0; fneg s; 0; 0; f_1; 0; 0; s; 0; c; 0; 0; 0; 0; f_1]
  else if isZerof x && isZerof y && isOnef z then
    [c; s; 0; 0; fneg s; c; 0; 0; 0; 0; f_1; 0; 0; 0; 0; f_1]
  else rotation_axis x y z s c.

Definition matrixf_rotate (a x y z : Z) (m : matrixf_t) : matrixf_t := matrixf_multiply m (rotation a x y z).

(** [matrixf_t::load(const GLfixed* )]. *)
Definition load_fixed (m : list Z) : matrixf_t := map fixedToFloat m.

(** [matrixx_t::load]. *)
Definition matrixx_load (m : matrixf_t) : list Z := map (fun f => if isZerof f then 0 else gglFloatToFixed f) m.

(** *** Inversion

    The rows of [tmp], each with its row of [inverse]. *)

Definition matrix_rows (m : matrixf_t) : list (list Z) := map (fun i => take 4 (drop (4 * i) m)) (seq 0 4).

(** The row to swap with row [i]. *)
Definition pick_swap (rows : list (list Z * list Z)) (i : nat) : nat :=
  let tmp j := elt (fst (nth j rows ([], []))) i in
  fold_left (fun swap j => if flt (absf (tmp i)) (absf (tmp j)) then j else swap) (seq (i + 1) (4 - (i + 1))) i.

Definition swap_rows {A} (i j : nat) (l : list A) : list A :=
  match l !! i, l !! j with
  | Some a, Some b => <[j := a]> (<[i := b]> l)
  | _, _ => l
  end.

(** What one column does to the rows. *)
Definition eliminate (i : nat) (rows : list (list Z * list Z)) : list (list Z * list Z) :=
  let swap := pick_swap rows i in
  let rows := if (swap =? i)%nat then rows else swap_rows i swap rows in
  let '(ti, vi) := nth i rows ([], []) in
  let t := fdiv f_1 (elt ti i) in
  let ti := map (fun e => mul_double e t) ti in
  let vi := map (fun e => mul_double e t) vi in
  let clear j (row : list Z * list Z) :=
    if (j =? i)%nat then (ti, vi)
    else
      let t := elt (fst row) i in
      (zip_with (fun a b => msub_double a b t) (fst row) ti, zip_with (fun a b => msub_double a b t) (snd row) vi) in
  imap clear rows.

Definition invert (src : matrixf_t) : matrixf_t :=
  flat_map snd (fold_left (fun rows i => eliminate i rows) (seq 0 4) (zip (matrix_rows src) (matrix_rows gIdentityf))).

(** [x[I(i,j)] = gglFloatToFixed(r[I(j,i)])]. *)
Definition transposed_fixed (r : matrixf_t) : list Z := matrix_build (fun i j => gglFloatToFixed (elt r (i + 4 * j))).
End Matrices.

(** ** Stacks *)

Record matrix_stack_t := mk_matrix_stack {
  ms_transform : transform_t; ms_maxDepth : Z; ms_depth : Z; ms_dirty : Z;
  ms_stack : list matrixf_t; ms_ops : list Z }.
#[export] Instance eta_matrix_stack : Eta matrix_stack_t := fun r =>
  mk_matrix_stack (ms_transform r) (ms_maxDepth r) (ms_depth r) (ms_dirty r) (ms_stack r) (ms_ops r).

Section Stacks.
  Context {NAN : Nans}.

(** [stack[depth]]; the bounds are an invariant. *)
Definition ms_top (ms : matrix_stack_t) : matrixf_t := nth (Z.to_nat (ms_depth ms)) (ms_stack ms) [].
Definition top_ops (ms : matrix_stack_t) : Z := nth (Z.to_nat (ms_depth ms)) (ms_ops ms) 0.
Definition set_top (m : matrixf_t) (ms : matrix_stack_t) : matrix_stack_t :=
  ms <| ms_stack ::= <[Z.to_nat (ms_depth ms) := m]> |>.
Definition set_ops (ops : Z) (ms : matrix_stack_t) : matrix_stack_t :=
  ms <| ms_ops ::= <[Z.to_nat (ms_depth ms) := ops]> |>.

Definition ms_loadIdentity (ms : matrix_stack_t) : matrix_stack_t :=
  set_ops OP_IDENTITY (set_top gIdentityf (ms <| ms_transform := transform_loadIdentity |>)).

(** The arrays come with unspecified contents; the assignment to [depth] in the
    code is one to the parameter, the member keeps its value. *)
Definition ms_init (stack : list matrixf_t) (ops : list Z) (depth : Z) (ms : matrix_stack_t) : matrix_stack_t :=
  ms_loadIdentity (ms <| ms_stack := stack |> <| ms_ops := ops |> <| ms_maxDepth := u8 depth |> <| ms_dirty := 0 |>).

Definition ms_load_fixed (rhs : list Z) (ms : matrix_stack_t) : matrix_stack_t :=
  set_ops OP_ALL (set_top (load_fixed rhs) (ms <| ms_transform ::= fun t => t <| tr_m := rhs |> |>)).
Definition ms_load_float (rhs : matrixf_t) (ms : matrix_stack_t) : matrix_stack_t :=
  set_ops OP_ALL (set_top rhs ms).
Definition ms_multiply (rhs : matrixf_t) (ms : matrix_stack_t) : matrix_stack_t :=
  set_ops OP_ALL (set_top (matrixf_multiply (ms_top ms) rhs) ms).
Definition ms_translate (x y z : Z) (ms : matrix_stack_t) : matrix_stack_t :=
  set_ops (Z.lor (top_ops ms) OP_TRANSLATE) (set_top (matrixf_translate x y z (ms_top ms)) ms).
Definition ms_scale (x y z : Z) (ms : matrix_stack_t) : matrix_stack_t :=
  set_ops (Z.lor (top_ops ms) (if feq x y && feq y z then OP_UNIFORM_SCALE else OP_SCALE))
    (set_top (matrixf_scale x y z (ms_top ms)) ms).
Definition ms_rotate (a x y z : Z) (ms : matrix_stack_t) : matrix_stack_t :=
  set_ops (Z.lor (top_ops ms) OP_ROTATE) (set_top (matrixf_rotate a x y z (ms_top ms)) ms).

Definition ms_validate (ms : matrix_stack_t) : matrix_stack_t :=
  let dirty := ms_dirty ms in
  let ms := if Z.land dirty DO_FLOAT_TO_FIXED =? 0 then ms
            else ms <| ms_transform ::= fun t => t <| tr_m := matrixx_load (ms_top ms) |> |> in
  let ms := if Z.land dirty DO_PICKER =? 0 then ms else ms <| ms_transform ::= transform_picker |> in
  ms <| ms_dirty := 0 |>.

Definition ms_push (ms : matrix_stack_t) : Z * matrix_stack_t :=
  let d := ms_depth ms in
  if ms_maxDepth ms - 1 <=? d then (GL_STACK_OVERFLOW, ms)
  else (0, ms <| ms_stack ::= <[Z.to_nat (d + 1) := ms_top ms]> |> <| ms_ops ::= <[Z.to_nat (d + 1) := top_ops ms]> |>
              <| ms_depth := u8 (d + 1) |>).
Definition ms_pop (ms : matrix_stack_t) : Z * matrix_stack_t :=
  if ms_depth ms =? 0 then (GL_STACK_UNDERFLOW, ms) else (0, ms <| ms_depth := u8 (ms_depth ms - 1) |>).
End Stacks.

(** ** The transformation state *)

Record vp_transform_t := mk_vp_transform { vp_transform : transform_t; vp_matrix : matrixf_t; zNear : Z; zFar : Z }.
#[export] Instance eta_vp_transform : Eta vp_transform_t := fun r =>
  mk_vp_transform (vp_transform r) (vp_matrix r) (zNear r) (zFar r).

(** What [current] points to. *)
Inductive which_stack := at_modelview | at_projection | at_texture (i : nat).
#[export] Instance which_stack_eq_dec : EqDecision which_stack.
Proof. solve_decision. Defined.

Record transform_state_t := mk_transform_state {
  ts_current : which_stack;
  ts_modelview : matrix_stack_t; ts_projection : matrix_stack_t; ts_texture : list matrix_stack_t;
  ts_mvp : transform_t; ts_vpt : vp_transform_t; ts_mvp4 : transform_t; ts_mvit4 : transform_t; ts_mvui : transform_t;
  ts_matrixMode : Z; ts_rescaleNormals : Z; ts_dirty : Z }.
#[export] Instance eta_transform_state : Eta transform_state_t := fun r =>
  mk_transform_state (ts_current r) (ts_modelview r) (ts_projection r) (ts_texture r) (ts_mvp r) (ts_vpt r)
    (ts_mvp4 r) (ts_mvit4 r) (ts_mvui r) (ts_matrixMode r) (ts_rescaleNormals r) (ts_dirty r).

Section TransformState.
  Context {NAN : Nans}.

(** No matrix stack where [current] points out of the texture units. *)
Definition current_stack (ts : transform_state_t) : option matrix_stack_t :=
  match ts_current ts with
  | at_modelview => Some (ts_modelview ts)
  | at_projection => Some (ts_projection ts)
  | at_texture i => ts_texture ts !! i
  end.
Definition set_current_stack (ms : matrix_stack_t) (ts : transform_state_t) : transform_state_t :=
  match ts_current ts with
  | at_modelview => ts <| ts_modelview := ms |>
  | at_projection => ts <| ts_projection := ms |>
  | at_texture i => ts <| ts_texture ::= <[i := ms]> |>
  end.

Definition invalidated_by (mode : Z) : Z :=
  if mode =? GL_MODELVIEW then Z.lor (Z.lor (Z.lor MODELVIEW MVP) MVUI) MVIT
  else if mode =? GL_PROJECTION then Z.lor PROJECTION MVP
  else if mode =? GL_TEXTURE then Z.lor TEXTURE MVP
  else 0.
(** [transform_state_t::invalidate], after which [current->dirty] is [dirty]. *)
Definition ts_invalidate (dirty : Z) (ms : matrix_stack_t) (ts : transform_state_t) : transform_state_t :=
  set_current_stack (ms <| ms_dirty := dirty |>) (ts <| ts_dirty ::= Z.lor (invalidated_by (ts_matrixMode ts)) |>).

Definition transform_load (m : matrixf_t) (t : transform_t) : transform_t :=
  transform_picker (t <| tr_m := matrixx_load m |>).

Definition update_mvp (ts : transform_state_t) : transform_state_t :=
  let temp_mvp := matrixf_multiply (ms_top (ts_projection ts)) (ms_top (ts_modelview ts)) in
  let ts := ts <| ts_mvp4 ::= transform_load temp_mvp |> in
  if Z.land (tr_flags (ts_mvp4 ts)) FLAGS_2D_PROJECTION =? 0 then ts <| ts_mvp := ts_mvp4 ts |>
  else ts <| ts_mvp ::= transform_load (matrixf_multiply (vp_matrix (ts_vpt ts)) temp_mvp) |>.
Definition update_mvit (ts : transform_state_t) : transform_state_t :=
  ts <| ts_mvit4 ::= fun t =>
    transform_picker (t <| tr_m := transposed_fixed (invert (ms_top (ts_modelview ts))) |>) |>.
Definition update_mvui (ts : transform_state_t) : transform_state_t :=
  ts <| ts_mvui ::= fun t => mvui_picker (t <| tr_m := transposed_fixed (invert (ms_top (ts_modelview ts))) |>) |>.
Definition update_viewport (ts : transform_state_t) : transform_state_t :=
  ts <| ts_vpt ::= fun v => v <| vp_transform ::= transform_load (vp_matrix v) |> |>.

(** The part of [ogles_validate_transform_impl] that works on the state: what
    it invalidates elsewhere follows from [dirty]. *)
Definition when_dirty (dirty bit : Z) (f : transform_state_t -> transform_state_t) (ts : transform_state_t) : transform_state_t :=
  if Z.land dirty bit =? 0 then ts else f ts.
Definition validate_transforms (want : Z) (ts : transform_state_t) : transform_state_t :=
  let dirty := Z.land (ts_dirty ts) want in
  let ts := when_dirty dirty MODELVIEW (fun ts => ts <| ts_modelview ::= ms_validate |>) ts in
  let ts := when_dirty dirty PROJECTION (fun ts => ts <| ts_projection ::= ms_validate |>) ts in
  let ts := when_dirty dirty VIEWPORT update_viewport ts in
  let ts := when_dirty dirty MVP update_mvp ts in
  let ts := when_dirty dirty MVUI update_mvui ts in
  let ts := when_dirty dirty TEXTURE (fun ts => ts <| ts_texture ::= map ms_validate |>) ts in
  let ts := when_dirty dirty MVIT update_mvit ts in
  ts <| ts_dirty ::= fun d => Z.land d (u32 (Z.lnot want)) |>.

(** The state [ogles_init_matrix] leaves, from one filled with zeros. *)
Definition fresh_stack (stack : list matrixf_t) (ops : list Z) (depth : Z) : matrix_stack_t :=
  ms_init stack ops depth (mk_matrix_stack transform_loadIdentity 0 0 0 [] []).
Definition ogles_init_matrix (stacks : Z -> list matrixf_t * list Z) : transform_state_t :=
  let new depth := fresh_stack (fst (stacks depth)) (snd (stacks depth)) depth in
  mk_transform_state at_modelview (new OGLES_MODELVIEW_STACK_DEPTH) (new OGLES_PROJECTION_STACK_DEPTH)
    [new OGLES_TEXTURE_STACK_DEPTH; new OGLES_TEXTURE_STACK_DEPTH]
    transform_loadIdentity (mk_vp_transform transform_loadIdentity gIdentityf 0 f_1)
    transform_loadIdentity transform_loadIdentity transform_loadIdentity
    GL_MODELVIEW 0 (Z.lor (Z.lor (Z.lor VIEWPORT MVUI) MVIT) MVP).
End TransformState.
