(* ===== verification/OGLES.v ===== *)
(** * The OpenGL ES context

    Models [ogles_context_t] of include/gl_context.h and its initial state
    ([ogles_init] of swrender/state.cpp and the [ogles_init_*] it calls), and
    how the commands of the components act on it.  [c->error] and what the
    lighting commands share with the transformations are kept once, here. *)

From stdpp Require Import gmap.
From S2P Require Import Prelude TextureObjects Fixed Names Context PixelFormat Surface PixelFlinger Float Vertex Clipping Arrays Light Lerp Primitives Matrix.

#[local] Open Scope Z_scope.

Record point_size_t := mk_point_size { pt_size : Z; pt_smooth : Z }.
Record line_width_t := mk_line_width { ln_width : Z; ln_smooth : Z }.
#[export] Instance eta_point_size : Eta point_size_t := fun r => mk_point_size (pt_size r) (pt_smooth r).
#[export] Instance eta_line_width : Eta line_width_t := fun r => mk_line_width (ln_width r) (ln_smooth r).
#[export] Instance eta_polygon_offset : Eta polygon_offset_t := fun r => mk_polygon_offset (po_factor r) (po_units r) (po_enable r).
#[export] Instance eta_culling : Eta culling_t := fun r => mk_culling (cu_cullFace r) (cu_frontFace r) (cu_enable r).
#[export] Instance eta_current : Eta current_t := fun r =>
  mk_current (cur_color r) (cur_colorClamped r) (cur_normal r) (cur_texture r).

Record viewport_t := mk_viewport {
  vp_x : Z; vp_y : Z; vp_w : Z; vp_h : Z; surfaceport_x : Z; surfaceport_y : Z;
  scissor_x : Z; scissor_y : Z; scissor_w : Z; scissor_h : Z }.
#[export] Instance eta_viewport : Eta viewport_t := fun r =>
  mk_viewport (vp_x r) (vp_y r) (vp_w r) (vp_h r) (surfaceport_x r) (surfaceport_y r)
    (scissor_x r) (scissor_y r) (scissor_w r) (scissor_h r).

(** [tu_texture] is the address of an object. *)
Record texture_unit_t := mk_texture_unit { tu_name : Z; tu_texture : Z; tu_dirty : Z }.
#[export] Instance eta_texture_unit : Eta texture_unit_t := fun r =>
  mk_texture_unit (tu_name r) (tu_texture r) (tu_dirty r).
Record texture_state_t := mk_texture_state {
  tx_tmu : list texture_unit_t; tx_active : Z; tx_defaultTexture : Z; tx_packAlignment : Z; tx_unpackAlignment : Z }.
#[export] Instance eta_texture_state : Eta texture_state_t := fun r =>
  mk_texture_state (tx_tmu r) (tx_active r) (tx_defaultTexture r) (tx_packAlignment r) (tx_unpackAlignment r).

(** [oc_pick] is what [arrays.perspective] points to, nothing for
    [validate_perspective]; [oc_vertices] is the vertex buffer followed by the
    vertex cache; [oc_objects] are the texture objects alive, by address, each
    with its references. *)
Record ogles_context_t := mk_ogles_context {
  oc_rasterizer : context_t; oc_arrays : array_machine_t;
  oc_cull_flags : Z; oc_mvp_transform : point_fn; oc_mv_transform : point_fn; oc_pick : option perspective_fn;
  oc_clipVertex : clip_fn; oc_textures : texture_state_t; oc_objects : gmap Z (Z * EGLTextureObject);
  oc_transforms : transform_state_t; oc_vertices : list vertex_t; oc_sequence : Z; oc_cull : culling_t;
  oc_lighting : lighting_t; oc_planes : list vec4_t; oc_planes_enable : Z; oc_current : current_t;
  oc_viewport : viewport_t; oc_point : point_size_t; oc_line : line_width_t; oc_polygonOffset : polygon_offset_t;
  oc_fog : Light.fog_t; oc_perspective : Z; oc_error : Z }.
#[export] Instance eta_ogles_context : Eta ogles_context_t := fun r =>
  mk_ogles_context (oc_rasterizer r) (oc_arrays r) (oc_cull_flags r) (oc_mvp_transform r) (oc_mv_transform r)
    (oc_pick r) (oc_clipVertex r) (oc_textures r) (oc_objects r) (oc_transforms r) (oc_vertices r) (oc_sequence r)
    (oc_cull r) (oc_lighting r) (oc_planes r) (oc_planes_enable r) (oc_current r) (oc_viewport r) (oc_point r)
    (oc_line r) (oc_polygonOffset r) (oc_fog r) (oc_perspective r) (oc_error r).

Definition gl_error (error : Z) (c : ogles_context_t) : ogles_context_t :=
  if oc_error c =? GGL_NO_ERROR then c <| oc_error := error |> else c.

Definition oc_height (c : ogles_context_t) : Z := sf_height (fb_color (st_buffers (c_state (oc_rasterizer c)))).
Definition oc_enables (c : ogles_context_t) : Z := st_enables (c_state (oc_rasterizer c)).

(** [c->rasterizer.procs.xxx(c, ...)]. *)
Definition raster (cmd : command) (c : ogles_context_t) : option ogles_context_t :=
  r ← exec cmd (oc_rasterizer c); Some (c <| oc_rasterizer := r |>).
Fixpoint raster_all (cmds : list command) (c : ogles_context_t) : option ogles_context_t :=
  match cmds with [] => Some c | cmd :: cmds => c ← raster cmd c; raster_all cmds c end.

(** Commands of the vertex arrays and of the lighting; they work on the error
    of the context. *)
Definition on_arrays (f : array_machine_t -> array_machine_t) (c : ogles_context_t) : ogles_context_t :=
  let am := f ((oc_arrays c) <| am_error := oc_error c |>) in
  c <| oc_arrays := am <| am_error := am_error (oc_arrays c) |> |> <| oc_error := am_error am |>.
Definition light_state_of (c : ogles_context_t) : light_state :=
  mk_light_state (oc_lighting c) (oc_fog c) (ts_rescaleNormals (oc_transforms c)) zero_vec4 (oc_error c).
Definition on_light (f : light_state -> light_state) (c : ogles_context_t) : ogles_context_t :=
  let st := f (light_state_of c) in
  c <| oc_lighting := ls_lighting st |> <| oc_fog := ls_fog st |>
    <| oc_transforms ; ts_rescaleNormals := ls_rescaleNormals st |> <| oc_error := ls_error st |>.

(** ** The initial state *)

(** [bindTextureTmu] of texture.cpp, with the reference its argument holds not
    counted. *)
Definition tex_incStrong (p : Z) (objects : gmap Z (Z * EGLTextureObject)) : option (gmap Z (Z * EGLTextureObject)) :=
  '(r, t) ← objects !! p; Some (<[p := (r + 1, t)]> objects).
Definition tex_decStrong (p : Z) (objects : gmap Z (Z * EGLTextureObject)) : option (gmap Z (Z * EGLTextureObject)) :=
  '(r, t) ← objects !! p; Some (if r =? 1 then delete p objects else <[p := (r - 1, t)]> objects).
Definition bindTextureTmu (tmu : nat) (texture tex : Z) (c : ogles_context_t) : option ogles_context_t :=
  u ← tx_tmu (oc_textures c) !! tmu;
  if tex =? tu_texture u then Some c
  else
    objects ← (if tu_texture u =? 0 then Some (oc_objects c) else tex_decStrong (tu_texture u) (oc_objects c));
    objects ← tex_incStrong tex objects;
    Some (c <| oc_objects := objects |>
            <| oc_textures ; tx_tmu := <[tmu := mk_texture_unit texture tex 0xFF]> (tx_tmu (oc_textures c)) |>).

(** The default texture object of a context is at [tex]. *)
Definition ogles_init_texture (tex : Z) (c : ogles_context_t) : option ogles_context_t :=
  let c := c <| oc_textures := mk_texture_state (repeat (mk_texture_unit 0 0 0) 2) 0 tex 4 4 |>
             <| oc_objects := <[tex := (1, new_texture)]> (oc_objects c) |> in
  c ← bindTextureTmu 0 0 tex c;
  c ← bindTextureTmu 1 0 tex c;
  Some (c <| oc_current ; cur_texture := repeat (mk_vec4 0 0 0 0x10000) 2 |>).

Definition ogles_init_vertex (c : ogles_context_t) : ogles_context_t :=
  c <| oc_cull := mk_culling GL_BACK GL_CCW 0 |>
    <| oc_current := mk_current init_white zero_vec4 [0; 0; 0x10000] (cur_texture (oc_current c)) |>.

(** [ogles_init]; [stacks] are the contents the stacks are allocated with. *)
Section Init.
  Context {NAN : Nans}.

Definition zeroed_context (stacks : Z -> list matrixf_t * list Z) : ogles_context_t :=
  mk_ogles_context ggl_init_context ogles_init_array 0 use_point4__nop use_point4__nop None use_clipVertex
    (mk_texture_state [] 0 0 0 0) ∅ (ogles_init_matrix stacks) (repeat zero_vertex 72) 0 (mk_culling 0 0 0)
    (ls_lighting ogles_init_light) (repeat zero_vec4 6) 0 (mk_current zero_vec4 zero_vec4 [0; 0; 0] [])
    (mk_viewport 0 0 0 0 0 0 0 0 0 0) (mk_point_size 0 0) (mk_line_width 0 0) (mk_polygon_offset 0 0 0)
    (ls_fog ogles_init_light) 0 GGL_NO_ERROR.
Definition ogles_init (stacks : Z -> list matrixf_t * list Z) (tex : Z) : option ogles_context_t :=
  c ← raster (C_shadeModel GL_SMOOTH) (ogles_init_vertex (zeroed_context stacks));
  c ← ogles_init_texture tex c;
  let c := c <| oc_point ; pt_size := TRI_ONE |> <| oc_line ; ln_width := TRI_ONE |> in
  c ← raster (C_depthMask 1) c;
  raster (C_enable GGL_DITHER) c.
End Init.

(** A line and a point of one pixel, a white color; but the color [glDrawTex]
    uses, the clamped one, is transparent black until [glColor] is called. *)
Definition example_stacks (depth : Z) : list matrixf_t * list Z := (repeat gIdentityf (Z.to_nat depth), repeat 0 (Z.to_nat depth)).
Example current_color_not_clamped {NAN : Nans} :
  (fun c => (cur_color (oc_current c), cur_colorClamped (oc_current c))) <$> ogles_init example_stacks 0x100 =
  Some (init_white, zero_vec4).
Proof. reflexivity. Qed.
