(* ===== verification/Transforms.v ===== *)
(** * The matrix commands

    Models the API of swrender/matrix.cpp: the commands on the matrix stacks,
    the viewport and the scissor.

    [matrix_commands_spec] shows that the stacks behave like the stacks of
    matrices OpenGL describes, errors included.  [transforms_current] shows that
    what is computed from the matrices and kept is never stale after a
    validation; [depth_range_stale] is the exception. *)

From stdpp Require Import gmap.
From S2P Require Import Prelude TextureObjects Fixed Names Context PixelFormat Surface PixelFlinger Float Vertex Clipping Arrays Light Lerp Primitives Matrix OGLES.

#[local] Open Scope Z_scope.

Section Commands.
  Context {NAN : Nans}.
  Implicit Types c : ogles_context_t.

(** ** The stacks *)

(** A change of the current matrix, after which the stack has [dirty]. *)
Definition edit_current (dirty : Z) (f : matrix_stack_t -> matrix_stack_t) c : option ogles_context_t :=
  ms ← current_stack (oc_transforms c);
  Some (c <| oc_transforms ::= ts_invalidate dirty (f ms) |>).
Definition DO_ALL : Z := Z.lor DO_PICKER DO_FLOAT_TO_FIXED.

Definition glMatrixMode (mode : Z) c : ogles_context_t :=
  let set stack := c <| oc_transforms ::= fun ts => ts <| ts_matrixMode := mode |> <| ts_current := stack |> |> in
  if mode =? GL_MODELVIEW then set at_modelview
  else if mode =? GL_PROJECTION then set at_projection
  else if mode =? GL_TEXTURE then set (at_texture (Z.to_nat (tx_active (oc_textures c))))
  else gl_error GGL_INVALID_ENUM c.

Definition glLoadIdentity : ogles_context_t -> option ogles_context_t := edit_current 0 ms_loadIdentity.
Definition glLoadMatrixf (m : list Z) : ogles_context_t -> option ogles_context_t := edit_current DO_ALL (ms_load_float m).
Definition glLoadMatrixx (m : list Z) : ogles_context_t -> option ogles_context_t := edit_current DO_PICKER (ms_load_fixed m).
Definition glMultMatrixf (m : list Z) : ogles_context_t -> option ogles_context_t := edit_current DO_ALL (ms_multiply m).
Definition glMultMatrixx (m : list Z) : ogles_context_t -> option ogles_context_t :=
  edit_current DO_ALL (ms_multiply (load_fixed m)).

Definition push_or_pop (op : matrix_stack_t -> Z * matrix_stack_t) c : option ogles_context_t :=
  ms ← current_stack (oc_transforms c);
  let '(err, ms) := op ms in
  if negb (err =? 0) then Some (gl_error err c)
  else Some (c <| oc_transforms ::= ts_invalidate DO_ALL ms |>).
Definition glPopMatrix : ogles_context_t -> option ogles_context_t := push_or_pop ms_pop.
Definition glPushMatrix : ogles_context_t -> option ogles_context_t := push_or_pop ms_push.

Definition frustum_matrix (left right bottom top zNear zFar : Z) : matrixf_t :=
  let r_width := reciprocalf (fsub right left) in
  let r_height := reciprocalf (fsub top bottom) in
  let r_depth := reciprocalf (fsub zNear zFar) in
  let x := mul2f (fmul zNear r_width) in
  let y := mul2f (fmul zNear r_height) in
  let A := mul2f (fmul (fadd right left) r_width) in
  let B := fmul (fadd top bottom) r_height in
  let C := fmul (fadd zFar zNear) r_depth in
  let D := mul2f (fmul (fmul zFar zNear) r_depth) in
  [x; 0; 0; 0; 0; y; 0; 0; A; B; C; fneg f_1; 0; 0; D; 0].
Definition frustumf (left right bottom top zNear zFar : Z) c : option ogles_context_t :=
  if cmpf left right || cmpf top bottom || cmpf zNear zFar || isZeroOrNegativef zNear || isZeroOrNegativef zFar
  then Some (gl_error GGL_INVALID_VALUE c)
  else edit_current DO_ALL (ms_multiply (frustum_matrix left right bottom top zNear zFar)) c.

Definition ortho_matrix (left right bottom top zNear zFar : Z) : matrixf_t :=
  let r_width := reciprocalf (fsub right left) in
  let r_height := reciprocalf (fsub top bottom) in
  let r_depth := reciprocalf (fsub zFar zNear) in
  let x := mul2f r_width in
  let y := mul2f r_height in
  let z := fneg (mul2f r_depth) in
  let tx := fmul (fneg (fadd right left)) r_width in
  let ty := fmul (fneg (fadd top bottom)) r_height in
  let tz := fmul (fneg (fadd zFar zNear)) r_depth in
  [x; 0; 0; 0; 0; y; 0; 0; 0; 0; z; 0; tx; ty; tz; f_1].
Definition orthof (left right bottom top zNear zFar : Z) c : option ogles_context_t :=
  if cmpf left right || cmpf top bottom || cmpf zNear zFar then Some (gl_error GGL_INVALID_VALUE c)
  else edit_current DO_ALL (ms_multiply (ortho_matrix left right bottom top zNear zFar)) c.

Definition glFrustumf := frustumf.
Definition glFrustumx (left right bottom top zNear zFar : Z) : ogles_context_t -> option ogles_context_t :=
  frustumf (fixedToFloat left) (fixedToFloat right) (fixedToFloat bottom) (fixedToFloat top)
    (fixedToFloat zNear) (fixedToFloat zFar).
Definition glOrthof := orthof.
Definition glOrthox (left right bottom top zNear zFar : Z) : ogles_context_t -> option ogles_context_t :=
  orthof (fixedToFloat left) (fixedToFloat right) (fixedToFloat bottom) (fixedToFloat top)
    (fixedToFloat zNear) (fixedToFloat zFar).
Definition glRotatef (a x y z : Z) : ogles_context_t -> option ogles_context_t := edit_current DO_ALL (ms_rotate a x y z).
Definition glRotatex (a x y z : Z) : ogles_context_t -> option ogles_context_t :=
  glRotatef (fixedToFloat a) (fixedToFloat x) (fixedToFloat y) (fixedToFloat z).
Definition glScalef (x y z : Z) : ogles_context_t -> option ogles_context_t := edit_current DO_ALL (ms_scale x y z).
Definition glScalex (x y z : Z) : ogles_context_t -> option ogles_context_t :=
  glScalef (fixedToFloat x) (fixedToFloat y) (fixedToFloat z).
Definition glTranslatef (x y z : Z) : ogles_context_t -> option ogles_context_t := edit_current DO_ALL (ms_translate x y z).
Definition glTranslatex (x y z : Z) : ogles_context_t -> option ogles_context_t :=
  glTranslatef (fixedToFloat x) (fixedToFloat y) (fixedToFloat z).

(** ** Viewport and scissor *)

Definition ogles_scissor (x y w h : Z) c : option ogles_context_t :=
  if s32 (Z.lor w h) <? 0 then Some (gl_error GGL_INVALID_VALUE c)
  else
    let c := c <| oc_viewport ::= fun v =>
      v <| scissor_x := x |> <| scissor_y := y |> <| scissor_w := w |> <| scissor_h := h |> |> in
    let x := s32 (x + surfaceport_x (oc_viewport c)) in
    let y := s32 (y + surfaceport_y (oc_viewport c)) in
    let y := s32 (oc_height c - (y + h)) in
    raster (C_scissor x y w h) c.

Definition viewport_matrix (x y w h H near far : Z) : matrixf_t :=
  let sx := div2f (int_to_float w) in
  let ox := fadd sx (int_to_float x) in
  let sy := div2f (int_to_float h) in
  let oy := fadd (fsub sy (int_to_float y)) (int_to_float (s32 (H - h))) in
  let A := div2f (fsub far near) in
  let B := div2f (fadd far near) in
  [sx; 0; 0; 0; 0; fneg sy; 0; 0; 0; 0; A; 0; ox; oy; B; f_1].
Definition is_2D (ts : transform_state_t) : bool := negb (Z.land (tr_flags (ts_mvp4 ts)) FLAGS_2D_PROJECTION =? 0).
Definition set_viewport_matrix (m : matrixf_t) (ts : transform_state_t) : transform_state_t :=
  let ts := ts <| ts_vpt ; vp_matrix := m |> <| ts_dirty ::= Z.lor VIEWPORT |> in
  if is_2D ts then ts <| ts_dirty ::= Z.lor MVP |> else ts.
Definition ogles_viewport (x y w h : Z) c : ogles_context_t :=
  if s32 (Z.lor w h) <? 0 then gl_error GGL_INVALID_VALUE c
  else
    let c := c <| oc_viewport ::= fun v => v <| vp_x := x |> <| vp_y := y |> <| vp_w := w |> <| vp_h := h |> |> in
    let x := s32 (x + surfaceport_x (oc_viewport c)) in
    let y := s32 (y + surfaceport_y (oc_viewport c)) in
    let vpt := ts_vpt (oc_transforms c) in
    c <| oc_transforms ::= set_viewport_matrix (viewport_matrix x y w h (s32 (oc_height c)) (zNear vpt) (zFar vpt)) |>.

Definition ogles_surfaceport (x y : Z) c : option ogles_context_t :=
  let c := c <| oc_viewport ::= fun v => v <| surfaceport_x := x |> <| surfaceport_y := y |> |> in
  let v := oc_viewport c in
  let c := ogles_viewport (vp_x v) (vp_y v) (vp_w v) (vp_h v) c in
  ogles_scissor (scissor_x v) (scissor_y v) (scissor_w v) (scissor_h v) c.

Definition glScissor := ogles_scissor.
Definition glViewport := ogles_viewport.

Definition depth_matrix (zNear zFar : Z) (m : matrixf_t) : matrixf_t :=
  <[14%nat := div2f (fadd zFar zNear)]> (<[10%nat := div2f (fsub zFar zNear)]> m).
Definition depthRangef (near far : Z) c : ogles_context_t :=
  let near := clampToZerof (if flt f_1 near then f_1 else near) in
  let far := clampToZerof (if flt f_1 far then f_1 else far) in
  c <| oc_transforms ::= fun ts =>
    ts <| ts_vpt ::= fun v => v <| vp_matrix ::= depth_matrix near far |> <| zNear := near |> <| zFar := far |> |>
       <| ts_dirty ::= Z.lor VIEWPORT |> |>.
Definition glDepthRangef := depthRangef.
Definition glDepthRangex (near far : Z) : ogles_context_t -> ogles_context_t :=
  depthRangef (fixedToFloat near) (fixedToFloat far).

Definition glPolygonOffsetx (factor units : Z) c : ogles_context_t :=
  c <| oc_polygonOffset ::= fun p => p <| po_factor := factor |> <| po_units := units |> |>.
Definition glPolygonOffset (factor units : Z) : ogles_context_t -> ogles_context_t :=
  glPolygonOffsetx (gglFloatToFixed factor) (gglFloatToFixed units).

(** Mantissas and exponents of the current matrix; [m] and [e] are what the
    arrays of the caller held. *)
Definition glQueryMatrixxOES (m e : list Z) c : option (Z * list Z * list Z) :=
  ms ← current_stack (oc_transforms c);
  let f := ms_top ms in
  let special i := isnan (elt f i) || isinf (elt f i) in
  Some (fold_left (fun status i => if special i then Z.lor status (Z.shiftl 1 (Z.of_nat i)) else status) (seq 0 16) 0,
        imap (fun i old => if special i then old else mantissa (elt f i)) m,
        imap (fun i old => if special i then old else s32 (exponent (elt f i) - 7)) e).

(** ** Validation *)

Definition ogles_validate_transform (want : Z) c : ogles_context_t :=
  let dirty := Z.land (ts_dirty (oc_transforms c)) want in
  if dirty =? 0 then c
  else
    let c := c <| oc_transforms ::= validate_transforms want |> in
    let c := if Z.land dirty MVP =? 0 then c else c <| oc_pick := None |> in
    if Z.land dirty MVUI =? 0 then c else c <| oc_lighting ::= invalidate_lighting |>.
End Commands.

(** The commands of the API; those with fixed-point arguments are these on
    converted arguments. *)
Inductive matrix_command :=
  | M_MatrixMode (mode : Z) | M_LoadIdentity | M_LoadMatrixf (m : list Z) | M_LoadMatrixx (m : list Z)
  | M_MultMatrixf (m : list Z) | M_MultMatrixx (m : list Z) | M_PushMatrix | M_PopMatrix
  | M_Frustumf (left right bottom top zNear zFar : Z) | M_Orthof (left right bottom top zNear zFar : Z)
  | M_Rotatef (a x y z : Z) | M_Scalef (x y z : Z) | M_Translatef (x y z : Z)
  | M_Scissor (x y w h : Z) | M_Viewport (x y w h : Z) | M_DepthRangef (near far : Z) | M_surfaceport (x y : Z)
  | M_validate (want : Z).

Section Exec.
  Context {NAN : Nans}.

Definition exec_matrix (cmd : matrix_command) (c : ogles_context_t) : option ogles_context_t :=
  match cmd with
  | M_MatrixMode mode => Some (glMatrixMode mode c)
  | M_LoadIdentity => glLoadIdentity c
  | M_LoadMatrixf m => glLoadMatrixf m c
  | M_LoadMatrixx m => glLoadMatrixx m c
  | M_MultMatrixf m => glMultMatrixf m c
  | M_MultMatrixx m => glMultMatrixx m c
  | M_PushMatrix => glPushMatrix c
  | M_PopMatrix => glPopMatrix c
  | M_Frustumf l r b t n f => glFrustumf l r b t n f c
  | M_Orthof l r b t n f => glOrthof l r b t n f c
  | M_Rotatef a x y z => glRotatef a x y z c
  | M_Scalef x y z => glScalef x y z c
  | M_Translatef x y z => glTranslatef x y z c
  | M_Scissor x y w h => glScissor x y w h c
  | M_Viewport x y w h => Some (glViewport x y w h c)
  | M_DepthRangef n f => Some (glDepthRangef n f c)
  | M_surfaceport x y => ogles_surfaceport x y c
  | M_validate want => Some (ogles_validate_transform want c)
  end.
Fixpoint exec_matrices (cmds : list matrix_command) (c : ogles_context_t) : option ogles_context_t :=
  match cmds with [] => Some c | cmd :: cmds => c ← exec_matrix cmd c; exec_matrices cmds c end.

(** ** The stacks OpenGL describes

    A stack is the list of its matrices, the current one first. *)

Definition stack_limit (w : which_stack) : Z :=
  match w with
  | at_modelview => OGLES_MODELVIEW_STACK_DEPTH
  | at_projection => OGLES_PROJECTION_STACK_DEPTH
  | at_texture _ => OGLES_TEXTURE_STACK_DEPTH
  end.

Record matrices := mk_matrices {
  mx_modelview : list matrixf_t; mx_projection : list matrixf_t; mx_texture : list (list matrixf_t);
  mx_current : which_stack; mx_error : Z }.
#[export] Instance eta_matrices : Eta matrices := fun r =>
  mk_matrices (mx_modelview r) (mx_projection r) (mx_texture r) (mx_current r) (mx_error r).

Definition spec_stack (s : matrices) : list matrixf_t :=
  match mx_current s with
  | at_modelview => mx_modelview s | at_projection => mx_projection s | at_texture i => nth i (mx_texture s) []
  end.
Definition spec_set (l : list matrixf_t) (s : matrices) : matrices :=
  match mx_current s with
  | at_modelview => s <| mx_modelview := l |>
  | at_projection => s <| mx_projection := l |>
  | at_texture i => s <| mx_texture ::= <[i := l]> |>
  end.
Definition spec_error (e : Z) (s : matrices) : matrices :=
  if mx_error s =? GGL_NO_ERROR then s <| mx_error := e |> else s.

(** What a command makes of the current matrix, and the commands refused for
    their arguments. *)
Definition edits (cmd : matrix_command) : option (matrixf_t -> matrixf_t) :=
  match cmd with
  | M_LoadIdentity => Some (fun _ => gIdentityf)
  | M_LoadMatrixf m => Some (fun _ => m)
  | M_LoadMatrixx m => Some (fun _ => load_fixed m)
  | M_MultMatrixf m => Some (fun t => matrixf_multiply t m)
  | M_MultMatrixx m => Some (fun t => matrixf_multiply t (load_fixed m))
  | M_Frustumf l r b t n f => Some (fun m => matrixf_multiply m (frustum_matrix l r b t n f))
  | M_Orthof l r b t n f => Some (fun m => matrixf_multiply m (ortho_matrix l r b t n f))
  | M_Rotatef a x y z => Some (matrixf_rotate a x y z)
  | M_Scalef x y z => Some (matrixf_scale x y z)
  | M_Translatef x y z => Some (matrixf_translate x y z)
  | _ => None
  end.
Definition refused (cmd : matrix_command) : option Z :=
  match cmd with
  | M_MatrixMode mode =>
      if (mode =? GL_MODELVIEW) || (mode =? GL_PROJECTION) || (mode =? GL_TEXTURE) then None else Some GGL_INVALID_ENUM
  | M_Frustumf l r b t n f =>
      if (l =? r) || (t =? b) || (n =? f) || isZeroOrNegativef n || isZeroOrNegativef f then Some GGL_INVALID_VALUE else None
  | M_Orthof l r b t n f => if (l =? r) || (t =? b) || (n =? f) then Some GGL_INVALID_VALUE else None
  | M_Scissor _ _ w h | M_Viewport _ _ w h => if s32 (Z.lor w h) <? 0 then Some GGL_INVALID_VALUE else None
  | _ => None
  end.

Definition spec_step (active : Z) (s : matrices) (cmd : matrix_command) : matrices :=
  match refused cmd, edits cmd, cmd with
  | Some e, _, _ => spec_error e s
  | None, Some f, _ => match spec_stack s with m :: l => spec_set (f m :: l) s | [] => s end
  | None, None, M_MatrixMode mode =>
      s <| mx_current := if mode =? GL_MODELVIEW then at_modelview else if mode =? GL_PROJECTION then at_projection
                         else at_texture (Z.to_nat active) |>
  | None, None, M_PushMatrix =>
      match spec_stack s with
      | m :: l => if Z.of_nat (length (m :: l)) =? stack_limit (mx_current s) then spec_error GL_STACK_OVERFLOW s
                  else spec_set (m :: m :: l) s
      | [] => s
      end
  | None, None, M_PopMatrix =>
      match spec_stack s with
      | _ :: m :: l => spec_set (m :: l) s
      | _ => spec_error GL_STACK_UNDERFLOW s
      end
  | None, None, _ => s
  end.

(** ** The stacks of the context *)

Definition stack_items (ms : matrix_stack_t) : list matrixf_t := rev (take (Z.to_nat (ms_depth ms) + 1) (ms_stack ms)).
Definition matrices_of (c : ogles_context_t) : matrices :=
  let ts := oc_transforms c in
  mk_matrices (stack_items (ts_modelview ts)) (stack_items (ts_projection ts)) (map stack_items (ts_texture ts))
    (ts_current ts) (oc_error c).

Record stack_ok (limit : Z) (ms : matrix_stack_t) : Prop := mk_stack_ok {
  so_limit : 0 < limit <= 16; so_max : ms_maxDepth ms = limit; so_depth : 0 <= ms_depth ms < limit;
  so_stack : Z.of_nat (length (ms_stack ms)) = limit; so_ops : Z.of_nat (length (ms_ops ms)) = limit }.
Record matrices_ok (c : ogles_context_t) : Prop := mk_matrices_ok {
  mo_modelview : stack_ok OGLES_MODELVIEW_STACK_DEPTH (ts_modelview (oc_transforms c));
  mo_projection : stack_ok OGLES_PROJECTION_STACK_DEPTH (ts_projection (oc_transforms c));
  mo_texture : Forall (stack_ok OGLES_TEXTURE_STACK_DEPTH) (ts_texture (oc_transforms c));
  mo_units : length (ts_texture (oc_transforms c)) = 2%nat;
  mo_current : match ts_current (oc_transforms c) with at_texture i => (i < 2)%nat | _ => True end;
  mo_active : 0 <= tx_active (oc_textures c) < 2;
  mo_surfaceport : (s32 (Z.lor (vp_w (oc_viewport c)) (vp_h (oc_viewport c))) <? 0) = false /\
                   (s32 (Z.lor (scissor_w (oc_viewport c)) (scissor_h (oc_viewport c))) <? 0) = false }.

(** *** One stack *)

Implicit Types ms : matrix_stack_t.

Lemma stack_top_lookup limit ms : stack_ok limit ms -> ms_stack ms !! Z.to_nat (ms_depth ms) = Some (ms_top ms).
Proof.
  intros []. unfold ms_top. destruct (lookup_lt_is_Some_2 (ms_stack ms) (Z.to_nat (ms_depth ms))) as [m E]; [lia|].
  rewrite E. f_equal. symmetry. by apply nth_lookup_Some.
Qed.

Lemma stack_items_cons limit ms : stack_ok limit ms ->
  stack_items ms = ms_top ms :: rev (take (Z.to_nat (ms_depth ms)) (ms_stack ms)).
Proof.
  intros H. unfold stack_items. rewrite Nat.add_1_r, (take_S_r _ _ (ms_top ms)) by by eapply stack_top_lookup.
  by rewrite rev_app_distr.
Qed.

Lemma stack_items_length limit ms : stack_ok limit ms -> Z.of_nat (length (stack_items ms)) = ms_depth ms + 1.
Proof. intros []. unfold stack_items. rewrite length_rev, length_take. lia. Qed.

(** [F] replaces the top [m] by [f m]. *)
Definition replaces (f : matrixf_t -> matrixf_t) (F : matrix_stack_t -> matrix_stack_t) : Prop := forall limit ms,
  stack_ok limit ms ->
  stack_ok limit (F ms) /\ stack_items (F ms) = f (ms_top ms) :: rev (take (Z.to_nat (ms_depth ms)) (ms_stack ms)).

Lemma replaces_top f o t : replaces f (fun ms => set_ops (o ms) (set_top (f (ms_top ms)) (ms <| ms_transform ::= t ms |>))).
Proof.
  intros limit ms H. destruct H as [? ? ? ? ?]. split.
  - split; cbn; rewrite ?length_insert; done.
  - unfold stack_items. cbn. rewrite Nat.add_1_r.
    rewrite (take_S_r _ _ (f (ms_top ms))) by (apply list_lookup_insert_eq; lia).
    by rewrite rev_app_distr, take_insert_ge by lia.
Qed.

Lemma stack_ok_dirty limit d ms : stack_ok limit ms -> stack_ok limit (ms <| ms_dirty := d |>).
Proof. by intros []. Qed.

Lemma push_ok limit ms : stack_ok limit ms ->
  ms_push ms = (GL_STACK_OVERFLOW, ms) /\ Z.of_nat (length (stack_items ms)) = limit \/
  exists ms', ms_push ms = (0, ms') /\ stack_ok limit ms' /\ stack_items ms' = ms_top ms :: stack_items ms /\
    Z.of_nat (length (stack_items ms)) <> limit.
Proof.
  intros H. pose proof (stack_items_length limit ms H) as L. pose proof H as [? ? ? ? ?]. unfold ms_push.
  destruct (Z.leb_spec (ms_maxDepth ms - 1) (ms_depth ms)); [left; split; [done|lia]|right].
  eexists. split; [done|]. assert (u8 (ms_depth ms + 1) = ms_depth ms + 1) as E by (apply u8_id; unfold is_u8; lia).
  split; [split; cbn; rewrite ?length_insert, ?E; lia|]. split; [|lia].
  rewrite (stack_items_cons limit ms H). unfold stack_items. cbn. rewrite E.
  replace (Z.to_nat (ms_depth ms + 1) + 1)%nat with (S (S (Z.to_nat (ms_depth ms)))) by lia.
  rewrite (take_S_r _ _ (ms_top ms)) by (rewrite <-Z2Nat.inj_succ by lia; apply list_lookup_insert_eq; lia).
  rewrite take_insert_ge by lia. rewrite rev_app_distr, (take_S_r _ _ (ms_top ms)) by by eapply stack_top_lookup.
  by rewrite rev_app_distr.
Qed.

Lemma pop_ok limit ms : stack_ok limit ms ->
  ms_pop ms = (GL_STACK_UNDERFLOW, ms) /\ stack_items ms = [ms_top ms] \/
  exists ms' l, ms_pop ms = (0, ms') /\ stack_ok limit ms' /\ stack_items ms = ms_top ms :: ms_top ms' :: l /\
    stack_items ms' = ms_top ms' :: l.
Proof.
  intros H. rewrite (stack_items_cons limit ms H). pose proof H as [? ? ? ? ?]. unfold ms_pop.
  destruct (Z.eqb_spec (ms_depth ms) 0) as [E0|]; [left; by rewrite E0|right].
  assert (u8 (ms_depth ms - 1) = ms_depth ms - 1) as E by (apply u8_id; unfold is_u8; lia).
  set (ms' := ms <| ms_depth := u8 (ms_depth ms - 1) |>).
  assert (stack_ok limit ms') as H' by (subst ms'; split; cbn; rewrite ?E; lia).
  exists ms', (rev (take (Z.to_nat (ms_depth ms')) (ms_stack ms'))). split; [done|]. split; [done|].
  split; [|by eapply stack_items_cons]. f_equal. rewrite <-(stack_items_cons limit ms' H'). unfold stack_items. do 2 f_equal.
  subst ms'. cbn. rewrite E. lia.
Qed.

(** *** The stacks of the context *)

Lemma current_ok c : matrices_ok c -> exists ms, current_stack (oc_transforms c) = Some ms /\
  stack_ok (stack_limit (ts_current (oc_transforms c))) ms /\ spec_stack (matrices_of c) = stack_items ms.
Proof.
  intros [Hm Hp Ht Hu Hc _ _]. unfold current_stack, spec_stack. cbn. destruct (ts_current _) as [| |i]; [by eexists..|].
  destruct (lookup_lt_is_Some_2 (ts_texture (oc_transforms c)) i) as [ms E]; [lia|]. exists ms. split; [done|].
  split; [by eapply Forall_lookup_1 in Ht|]. apply nth_lookup_Some. by rewrite list_lookup_fmap, E.
Qed.

Lemma set_current_ok d ms c : matrices_ok c -> stack_ok (stack_limit (ts_current (oc_transforms c))) ms ->
  let c' := c <| oc_transforms ::= ts_invalidate d ms |> in
  matrices_ok c' /\ matrices_of c' = spec_set (stack_items ms) (matrices_of c).
Proof.
  intros [Hm Hp Ht Hu Hc Ha Hs] H. unfold matrices_of, spec_set, ts_invalidate, set_current_stack. cbn.
  apply (stack_ok_dirty _ d) in H.
  destruct (ts_current (oc_transforms c)) as [| |i] eqn:E; (split; [split; cbn; rewrite ?E; try done|]); try done.
  - by apply Forall_insert.
  - by rewrite length_insert.
  - cbn. f_equal. apply list_eq. intros j. rewrite list_lookup_fmap, !list_lookup_insert, length_fmap, list_lookup_fmap.
    by destruct (decide _).
Qed.

Lemma edit_current_ok d f F c : matrices_ok c -> replaces f F ->
  exists c' m l, edit_current d F c = Some c' /\ matrices_ok c' /\ spec_stack (matrices_of c) = m :: l /\
    matrices_of c' = spec_set (f m :: l) (matrices_of c).
Proof.
  intros Hc HF. destruct (current_ok c Hc) as (ms & E & H & Es). destruct (HF _ _ H) as [H' Ei].
  unfold edit_current. rewrite E. eexists _, _, _. split; [done|].
  destruct (set_current_ok d (F ms) c Hc H') as [Hc' Em]. split; [done|]. rewrite Es, (stack_items_cons _ _ H), Em, Ei. done.
Qed.

Lemma gl_error_ok e c : matrices_ok c -> matrices_ok (gl_error e c) /\ matrices_of (gl_error e c) = spec_error e (matrices_of c).
Proof.
  intros H. unfold gl_error, spec_error. cbn. destruct (oc_error c =? GGL_NO_ERROR); [|done]. split; [|done]. by destruct H.
Qed.

Lemma validate_stack_ok limit ms : stack_ok limit ms -> stack_ok limit (ms_validate ms) /\ stack_items (ms_validate ms) = stack_items ms.
Proof.
  intros H. unfold ms_validate. destruct (Z.land _ DO_FLOAT_TO_FIXED =? 0), (Z.land _ DO_PICKER =? 0);
    (split; [by destruct H|done]).
Qed.

(** Validation leaves the matrices alone. *)
Definition stacks_ok (ts : transform_state_t) : Prop :=
  stack_ok OGLES_MODELVIEW_STACK_DEPTH (ts_modelview ts) /\ stack_ok OGLES_PROJECTION_STACK_DEPTH (ts_projection ts) /\
  Forall (stack_ok OGLES_TEXTURE_STACK_DEPTH) (ts_texture ts).
Definition stacks_of (ts : transform_state_t) : list matrixf_t * list matrixf_t * list (list matrixf_t) * which_stack :=
  (stack_items (ts_modelview ts), stack_items (ts_projection ts), map stack_items (ts_texture ts), ts_current ts).
Definition keeps_stacks (f : transform_state_t -> transform_state_t) : Prop := forall ts,
  stacks_ok ts -> stacks_ok (f ts) /\ stacks_of (f ts) = stacks_of ts.

Lemma keeps_compose f g : keeps_stacks f -> keeps_stacks g -> keeps_stacks (fun ts => g (f ts)).
Proof. intros Hf Hg ts H. destruct (Hf ts H) as [H1 E1]. destruct (Hg _ H1) as [H2 E2]. split; [done|congruence]. Qed.
Lemma keeps_when dirty bit f : keeps_stacks f -> keeps_stacks (when_dirty dirty bit f).
Proof. intros Hf ts H. unfold when_dirty. destruct (Z.land dirty bit =? 0); [done|by apply Hf]. Qed.
Lemma keeps_update f : (forall ts, ts_modelview (f ts) = ts_modelview ts /\ ts_projection (f ts) = ts_projection ts /\
  ts_texture (f ts) = ts_texture ts /\ ts_current (f ts) = ts_current ts) -> keeps_stacks f.
Proof.
  intros Hf ts H. destruct (Hf ts) as (Em & Ep & Et & Ec). unfold stacks_ok, stacks_of. by rewrite Em, Ep, Et, Ec.
Qed.

Lemma validate_transforms_keeps want : keeps_stacks (validate_transforms want).
Proof.
  intros ts H. unfold validate_transforms. cbv zeta. generalize (Z.land (ts_dirty ts) want). intros dirty.
  assert (forall f ts', keeps_stacks f -> stacks_ok ts' /\ stacks_of ts' = stacks_of ts ->
    stacks_ok (f ts') /\ stacks_of (f ts') = stacks_of ts) as Step.
  { intros f ts' Hf [H' E']. rewrite <-E'. by apply Hf. }
  apply (Step (fun ts => ts <| ts_dirty ::= _ |>)); [by apply keeps_update|].
  repeat (apply Step; [apply keeps_when|]); try done;
    try (apply keeps_update; intros t; unfold update_mvp; by repeat case_match).
  all: clear ts H Step.
  - intros ts (Hm & Hp & Ht). unfold stacks_ok, stacks_of. cbn. split.
    + split_and!; [done..|]. clear - Ht. induction Ht; constructor; [by apply validate_stack_ok|done].
    + do 2 f_equal. clear - Ht. induction Ht as [|ms l Hms _ IH]; [done|]. cbn. f_equal; [|done]. by eapply validate_stack_ok.
  - intros ts (Hm & Hp & Ht). destruct (validate_stack_ok _ _ Hp) as [Hp' Ep]. split; [by split_and!|]. unfold stacks_of. cbn. by rewrite Ep.
  - intros ts (Hm & Hp & Ht). destruct (validate_stack_ok _ _ Hm) as [Hm' Em]. split; [by split_and!|]. unfold stacks_of. cbn. by rewrite Em.
Qed.

Lemma keeps_stacks_ok f c : keeps_stacks f -> matrices_ok c ->
  let c' := c <| oc_transforms ::= f |> in matrices_ok c' /\ matrices_of c' = matrices_of c.
Proof.
  intros Hf [Hm Hp Ht Hu Hc Ha Hs]. destruct (Hf (oc_transforms c)) as [(Hm' & Hp' & Ht') E]; [done|].
  unfold stacks_of in E. injection E as Em Ep Et Ec.
  pose proof (f_equal length Et) as Hl. rewrite !length_map in Hl. split.
  - split; cbn; rewrite ?Hl, ?Ec; done.
  - unfold matrices_of. cbn. by rewrite Em, Ep, Et, Ec.
Qed.

Lemma edit_ok d f F cmd c : matrices_ok c -> replaces f F -> refused cmd = None -> edits cmd = Some f ->
  exists c', edit_current d F c = Some c' /\ matrices_ok c' /\
    matrices_of c' = spec_step (tx_active (oc_textures c)) (matrices_of c) cmd /\ oc_textures c' = oc_textures c.
Proof.
  intros Hc HF Hr He. destruct (edit_current_ok d f F c Hc HF) as (c' & m & l & E & Hc' & Es & Em).
  exists c'. split; [done|]. split; [done|]. unfold spec_step. rewrite Hr, He, Es. split; [done|].
  unfold edit_current in E. destruct (current_stack _); [|done]. by injection E as <-.
Qed.

Lemma refused_ok e cmd c : matrices_ok c -> refused cmd = Some e ->
  exists c', Some (gl_error e c) = Some c' /\ matrices_ok c' /\
    matrices_of c' = spec_step (tx_active (oc_textures c)) (matrices_of c) cmd /\ oc_textures c' = oc_textures c.
Proof.
  intros Hc Hr. destruct (gl_error_ok e c Hc) as [Hc' Em]. exists (gl_error e c). split; [done|]. split; [done|].
  unfold spec_step. rewrite Hr. split; [done|]. unfold gl_error. by destruct (oc_error c =? GGL_NO_ERROR).
Qed.

Lemma push_or_pop_ok cmd op c : matrices_ok c -> refused cmd = None -> edits cmd = None ->
  (cmd = M_PushMatrix /\ op = ms_push \/ cmd = M_PopMatrix /\ op = ms_pop) ->
  exists c', push_or_pop op c = Some c' /\ matrices_ok c' /\
    matrices_of c' = spec_step (tx_active (oc_textures c)) (matrices_of c) cmd /\ oc_textures c' = oc_textures c.
Proof.
  intros Hc _ _ Hcmd. destruct (current_ok c Hc) as (ms & E & H & Es). unfold push_or_pop. rewrite E.
  cbn [mbind option_bind].
  pose proof (stack_items_cons _ _ H) as Ei.
  assert (forall err, exists c', Some (gl_error err c) = Some c' /\ matrices_ok c' /\
    matrices_of c' = spec_error err (matrices_of c) /\ oc_textures c' = oc_textures c) as Err.
  { intros err. destruct (gl_error_ok err c Hc) as [Hc' Em]. exists (gl_error err c). split_and!; [done..|].
    unfold gl_error. by destruct (oc_error c =? GGL_NO_ERROR). }
  assert (forall ms', stack_ok (stack_limit (ts_current (oc_transforms c))) ms' -> exists c',
    Some (c <| oc_transforms ::= ts_invalidate DO_ALL ms' |>) = Some c' /\ matrices_ok c' /\
    matrices_of c' = spec_set (stack_items ms') (matrices_of c) /\ oc_textures c' = oc_textures c) as Set_.
  { intros ms' H'. destruct (set_current_ok DO_ALL ms' c Hc H') as [Hc' Em]. by eexists. }
  destruct Hcmd as [[-> ->]|[-> ->]]; unfold spec_step; cbn [refused edits]; rewrite Es.
  - change (mx_current (matrices_of c)) with (ts_current (oc_transforms c)).
    destruct (push_ok _ _ H) as [[-> El]|(ms' & -> & H' & Ei' & El)]; rewrite Ei in *; cbv beta iota; cbn [negb Z.eqb].
    + rewrite (proj2 (Z.eqb_eq _ _) El). apply Err.
    + rewrite (proj2 (Z.eqb_neq _ _) El), <-Ei'. by apply Set_.
  - destruct (pop_ok _ _ H) as [[-> ->]|(ms' & l & -> & H' & -> & Ei')]; [apply Err|].
    rewrite <-Ei'. by apply Set_.
Qed.

Lemma matrices_ok_frame c c' : matrices_ok c -> oc_transforms c' = oc_transforms c -> oc_textures c' = oc_textures c ->
  (s32 (Z.lor (vp_w (oc_viewport c')) (vp_h (oc_viewport c'))) <? 0) = false ->
  (s32 (Z.lor (scissor_w (oc_viewport c')) (scissor_h (oc_viewport c'))) <? 0) = false ->
  oc_error c' = oc_error c -> matrices_ok c' /\ matrices_of c' = matrices_of c.
Proof. intros [] Et Ex ? ? Ee. unfold matrices_of. rewrite Et, Ee. split; [|done]. split; rewrite ?Et, ?Ex; done. Qed.

Lemma viewport_scissor_ok x y w h c : matrices_ok c -> (s32 (Z.lor w h) <? 0) = false ->
  exists c', ogles_scissor x y w h c = Some c' /\ matrices_ok c' /\ matrices_of c' = matrices_of c /\ oc_textures c' = oc_textures c.
Proof.
  intros H Hw. unfold ogles_scissor. rewrite Hw. eexists. split; [done|].
  destruct (matrices_ok_frame c (c <| oc_rasterizer := ggl_scissor (s32 (x + surfaceport_x (oc_viewport c)))
    (s32 (oc_height c - (s32 (y + surfaceport_y (oc_viewport c)) + h))) w h (oc_rasterizer c) |>
    <| oc_viewport ::= fun v => v <| scissor_x := x |> <| scissor_y := y |> <| scissor_w := w |> <| scissor_h := h |> |>))
    as [H' E]; try done; try apply H.
Qed.

Lemma viewport_ok x y w h c : matrices_ok c -> (s32 (Z.lor w h) <? 0) = false ->
  matrices_ok (ogles_viewport x y w h c) /\ matrices_of (ogles_viewport x y w h c) = matrices_of c /\
  oc_textures (ogles_viewport x y w h c) = oc_textures c.
Proof.
  intros [] Hw. unfold ogles_viewport. rewrite Hw. unfold set_viewport_matrix, is_2D, matrices_of. cbv zeta.
  set (m := viewport_matrix _ _ _ _ _ _ _). clearbody m. cbn -[Z.land Z.lor].
  destruct (negb _); (split; [split; try done; split; [done|apply mo_surfaceport0]|done]).
Qed.

Lemma surfaceport_ok x y c : matrices_ok c ->
  exists c', ogles_surfaceport x y c = Some c' /\ matrices_ok c' /\ matrices_of c' = matrices_of c /\ oc_textures c' = oc_textures c.
Proof.
  intros H. unfold ogles_surfaceport. set (c1 := c <| oc_viewport ::= _ |>).
  assert (matrices_ok c1 /\ matrices_of c1 = matrices_of c) as [H1 E1] by (subst c1; by destruct H).
  destruct (mo_surfaceport _ H1) as [Hv Hs].
  destruct (viewport_ok (vp_x (oc_viewport c1)) (vp_y (oc_viewport c1)) _ _ c1 H1 Hv) as (H2 & E2 & T2).
  destruct (viewport_scissor_ok (scissor_x (oc_viewport c1)) (scissor_y (oc_viewport c1)) _ _ _ H2 Hs) as (c' & E & H3 & E3 & T3).
  exists c'. split; [exact E|]. split; [done|]. split; [congruence|]. by rewrite T3, T2.
Qed.

Ltac guard_case Er := match type of Er with (if ?b then _ else _) = _ => destruct b end.

(** Every command of the API does what it is described to do. *)
Definition does (cmd : matrix_command) c (r : option ogles_context_t) : Prop :=
  exists c', r = Some c' /\ matrices_ok c' /\
    matrices_of c' = spec_step (tx_active (oc_textures c)) (matrices_of c) cmd /\ oc_textures c' = oc_textures c.

Lemma does_refused cmd e c : matrices_ok c -> refused cmd = Some e -> does cmd c (exec_matrix cmd c).
Proof.
  intros H Er. destruct (refused_ok e cmd c H Er) as (c' & E & R). exists c'. split; [|exact R]. rewrite <-E.
  destruct cmd; cbn [refused] in Er; try discriminate; cbn [exec_matrix].
  - unfold glMatrixMode. destruct (mode =? GL_MODELVIEW), (mode =? GL_PROJECTION), (mode =? GL_TEXTURE); cbn in Er; congruence.
  - unfold glFrustumf, frustumf, cmpf. guard_case Er; congruence.
  - unfold glOrthof, orthof, cmpf. guard_case Er; congruence.
  - unfold glScissor, ogles_scissor. guard_case Er; congruence.
  - unfold glViewport, ogles_viewport. guard_case Er; congruence.
Qed.

Lemma does_edit cmd f c : matrices_ok c -> refused cmd = None -> edits cmd = Some f -> does cmd c (exec_matrix cmd c).
Proof.
  intros H Er Ee.
  assert (forall d F, replaces f F -> does cmd c (edit_current d F c)) as Ed by (intros d F HF; by apply (edit_ok d f F cmd c H)).
  destruct cmd; cbn [edits] in Ee; try discriminate; injection Ee as <-; cbn [exec_matrix].
  - exact (Ed 0 _ (replaces_top _ (fun _ => OP_IDENTITY) (fun _ _ => transform_loadIdentity))).
  - exact (Ed DO_ALL _ (replaces_top _ (fun _ => OP_ALL) (fun _ t => t))).
  - exact (Ed DO_PICKER _ (replaces_top _ (fun _ => OP_ALL) (fun _ t => t <| tr_m := m |>))).
  - exact (Ed DO_ALL _ (replaces_top _ (fun _ => OP_ALL) (fun _ t => t))).
  - exact (Ed DO_ALL _ (replaces_top _ (fun _ => OP_ALL) (fun _ t => t))).
  - unfold glFrustumf, frustumf, cmpf. cbn [refused] in Er. guard_case Er; [discriminate|].
    exact (Ed DO_ALL _ (replaces_top _ (fun _ => OP_ALL) (fun _ t => t))).
  - unfold glOrthof, orthof, cmpf. cbn [refused] in Er. guard_case Er; [discriminate|].
    exact (Ed DO_ALL _ (replaces_top _ (fun _ => OP_ALL) (fun _ t => t))).
  - exact (Ed DO_ALL _ (replaces_top _ (fun ms => Z.lor (top_ops ms) OP_ROTATE) (fun _ t => t))).
  - exact (Ed DO_ALL _ (replaces_top _
      (fun ms => Z.lor (top_ops ms) (if feq x y && feq y z then OP_UNIFORM_SCALE else OP_SCALE)) (fun _ t => t))).
  - exact (Ed DO_ALL _ (replaces_top _ (fun ms => Z.lor (top_ops ms) OP_TRANSLATE) (fun _ t => t))).
Qed.

Lemma does_matrix_mode mode c : matrices_ok c -> refused (M_MatrixMode mode) = None ->
  does (M_MatrixMode mode) c (Some (glMatrixMode mode c)).
Proof.
  intros H Er. eexists. split; [done|]. unfold spec_step. rewrite Er. cbn [refused edits] in *.
  unfold glMatrixMode. destruct H.
  destruct (mode =? GL_MODELVIEW), (mode =? GL_PROJECTION), (mode =? GL_TEXTURE); cbn in Er; try discriminate.
  all: split; [split; try done; cbn; lia|done].
Qed.

Lemma does_validate want c : matrices_ok c -> does (M_validate want) c (Some (ogles_validate_transform want c)).
Proof.
  intros H. eexists. split; [done|]. unfold ogles_validate_transform, spec_step. cbn [refused edits].
  destruct (Z.land _ want =? 0); [done|].
  destruct (keeps_stacks_ok (validate_transforms want) c (validate_transforms_keeps want) H) as [H' E'].
  assert (oc_textures (c <| oc_transforms ::= validate_transforms want |>) = oc_textures c) as T' by done.
  revert H' E' T'. cbv zeta. generalize (c <| oc_transforms ::= validate_transforms want |>). intros c1 H' <- T'.
  destruct (_ =? 0), (_ =? 0); (split; [by destruct H'|done]).
Qed.

Lemma exec_matrix_ok cmd c : matrices_ok c -> does cmd c (exec_matrix cmd c).
Proof.
  intros H. destruct (refused cmd) as [e|] eqn:Er; [by apply (does_refused cmd e)|].
  destruct (edits cmd) as [f|] eqn:Ee; [by apply (does_edit cmd f)|].
  assert (forall c', matrices_ok c' -> matrices_of c' = matrices_of c -> oc_textures c' = oc_textures c ->
    (forall s, spec_step (tx_active (oc_textures c)) s cmd = s) -> does cmd c (Some c')) as Same.
  { intros c' H' E' T' Hs. exists c'. by rewrite Hs. }
  destruct cmd; try discriminate Ee; cbn [exec_matrix].
  - by apply does_matrix_mode.
  - by apply push_or_pop_ok; auto.
  - by apply push_or_pop_ok; auto.
  - pose proof Er as Er'. cbn [refused] in Er'. destruct (_ <? 0) eqn:G in Er'; [discriminate|].
    destruct (viewport_scissor_ok x y w h c H G) as (c' & E & H' & E' & T'). unfold glScissor. rewrite E. apply Same; [done..|].
    intros s. unfold spec_step. by rewrite Er.
  - pose proof Er as Er'. cbn [refused] in Er'. destruct (_ <? 0) eqn:G in Er'; [discriminate|].
    destruct (viewport_ok x y w h c H G) as (H' & E' & T'). apply Same; [done..|].
    intros s. unfold spec_step. by rewrite Er.
  - apply Same; [by destruct H|done..].
  - destruct (surfaceport_ok x y c H) as (c' & E & H' & E' & T'). rewrite E. by apply Same.
  - by apply does_validate.
Qed.

(** C23: The matrix stacks behave as OpenGL describes them: every sequence of
    commands acts on them, on the current stack and on the error as it does on
    lists of matrices; pushes on a full stack, pops of the last matrix and bad
    arguments are refused.  No command touches memory outside of the stacks. *)
Theorem matrix_commands_spec cmds c : matrices_ok c ->
  exists c', exec_matrices cmds c = Some c' /\ matrices_ok c' /\
    matrices_of c' = fold_left (spec_step (tx_active (oc_textures c))) cmds (matrices_of c).
Proof.
  revert c. induction cmds as [|cmd cmds IH]; intros c H; [by exists c|].
  destruct (exec_matrix_ok cmd c H) as (c1 & E & H1 & E1 & T1). cbn [exec_matrices]. rewrite E.
  destruct (IH c1 H1) as (c' & E' & H' & M'). exists c'. split; [done|]. split; [done|]. cbn [fold_left].
  by rewrite M', E1, T1.
Qed.

(** ** What is computed from the matrices *)

(** A transformation is that of the float matrix [m]: its elements are those of
    [m] converted, or [m] was converted from them. *)
Definition elements_of (x : list Z) (m : matrixf_t) : Prop := x = matrixx_load m \/ m = load_fixed x.
Definition picked (t : transform_t) : Prop := t = transform_picker t \/ t = transform_loadIdentity.
Definition transform_of (t : transform_t) (m : matrixf_t) : Prop := picked t /\ elements_of (tr_m t) m.

Definition load_transform (m : matrixf_t) : transform_t := transform_load m transform_loadIdentity.
Definition inverse_transpose (m : matrixf_t) : list Z := transposed_fixed (invert m).

Definition mvp_matrix (ts : transform_state_t) : matrixf_t :=
  matrixf_multiply (ms_top (ts_projection ts)) (ms_top (ts_modelview ts)).
(** The transformation to clip coordinates; to window coordinates if the fourth
    coordinate is 1 then. *)
Definition mvp_transform (ts : transform_state_t) : transform_t :=
  let t := load_transform (mvp_matrix ts) in
  if Z.land (tr_flags t) FLAGS_2D_PROJECTION =? 0 then t
  else load_transform (matrixf_multiply (vp_matrix (ts_vpt ts)) (mvp_matrix ts)).

(** The same, but for the depth when [exact] is false. *)
Definition agree (exact : bool) (t t' : transform_t) : Prop :=
  t <| tr_m := [] |> = t' <| tr_m := [] |> /\ length (tr_m t) = length (tr_m t') /\
  forall i, exact = true \/ (i mod 4 <> 2)%nat -> elt (tr_m t) i = elt (tr_m t') i.

Definition clean (bit : Z) (ts : transform_state_t) : Prop := Z.land (ts_dirty ts) bit = 0.

Definition stack_current (ms : matrix_stack_t) : Prop :=
  (Z.land (ms_dirty ms) DO_FLOAT_TO_FIXED = 0 -> elements_of (tr_m (ms_transform ms)) (ms_top ms)) /\
  (Z.land (ms_dirty ms) DO_PICKER = 0 -> Z.land (ms_dirty ms) DO_FLOAT_TO_FIXED = 0 /\ picked (ms_transform ms)).

Definition mode_of (w : which_stack) : Z :=
  match w with at_modelview => GL_MODELVIEW | at_projection => GL_PROJECTION | at_texture _ => GL_TEXTURE end.

Record transforms_ok (exact : bool) (ts : transform_state_t) : Prop := mk_transforms_ok {
  to_modelview : stack_current (ts_modelview ts); to_projection : stack_current (ts_projection ts);
  to_texture : Forall stack_current (ts_texture ts);
  to_mode : ts_matrixMode ts = mode_of (ts_current ts);
  to_modelview_clean : clean MODELVIEW ts -> ms_dirty (ts_modelview ts) = 0;
  to_projection_clean : clean PROJECTION ts -> ms_dirty (ts_projection ts) = 0;
  to_texture_clean : clean TEXTURE ts -> Forall (fun ms => ms_dirty ms = 0) (ts_texture ts);
  to_viewport_clean : clean VIEWPORT ts -> vp_transform (ts_vpt ts) = load_transform (vp_matrix (ts_vpt ts));
  to_mvp4_clean : clean MVP ts -> ts_mvp4 ts = load_transform (mvp_matrix ts);
  to_mvp_clean : clean MVP ts -> agree exact (ts_mvp ts) (mvp_transform ts);
  to_mvui_clean : clean MVUI ts ->
    ts_mvui ts = mvui_picker (ts_mvui ts) /\ tr_m (ts_mvui ts) = inverse_transpose (ms_top (ts_modelview ts));
  to_mvit_clean : clean MVIT ts ->
    ts_mvit4 ts = transform_picker (ts_mvit4 ts) /\ tr_m (ts_mvit4 ts) = inverse_transpose (ms_top (ts_modelview ts)) }.

Lemma transform_load_any m t : transform_load m t = load_transform m.
Proof. done. Qed.
Lemma agree_refl exact t : agree exact t t.
Proof. done. Qed.

(** *** Dirty bits *)

Lemma when_dirty_same {A} (g : transform_state_t -> A) dirty bit f ts : (forall t, g (f t) = g t) ->
  g (when_dirty dirty bit f ts) = g ts.
Proof. intros H. unfold when_dirty. by destruct (_ =? 0). Qed.
Lemma when_dirty_does {A} (g : transform_state_t -> A) dirty bit f ts :
  g (when_dirty dirty bit f ts) = if Z.land dirty bit =? 0 then g ts else g (f ts).
Proof. unfold when_dirty. by destruct (_ =? 0). Qed.

Lemma clean_or d bit ts : clean bit (ts <| ts_dirty ::= Z.lor d |>) -> Z.land d bit = 0 /\ clean bit ts.
Proof. unfold clean. cbn. rewrite Z.land_lor_distr_l. intros [? ?]%Z.lor_eq_0_iff. done. Qed.

Lemma validate_dirty_bits want ts : ts_dirty (validate_transforms want ts) = Z.land (ts_dirty ts) (u32 (Z.lnot want)).
Proof.
  unfold validate_transforms. cbn -[Z.land u32 Z.lnot when_dirty]. f_equal. rewrite !when_dirty_same; try done.
  intros t. unfold update_mvp. by case_match.
Qed.

Lemma clean_validate want bit ts : is_u32 bit -> clean bit (validate_transforms want ts) ->
  Z.land (Z.land (ts_dirty ts) want) bit = 0 -> clean bit ts.
Proof.
  unfold clean, is_u32. rewrite validate_dirty_bits. intros Hb H1 H2. apply Z.bits_inj'. intros i Hi. rewrite Z.land_spec, Z.bits_0.
  destruct (Z.lt_ge_cases i 32); [|rewrite (testbit_small bit 32) by lia; apply andb_false_r].
  apply (f_equal (fun z => Z.testbit z i)) in H1, H2. rewrite !Z.land_spec, ?Z.bits_0 in H1, H2.
  rewrite u32_testbit, Z.lnot_spec in H1 by done. rewrite (proj2 (Z.ltb_lt i 32)) in H1 by done.
  by destruct (Z.testbit (ts_dirty ts) i), (Z.testbit want i), (Z.testbit bit i).
Qed.

#[local] Opaque matrixf_multiply load_transform inverse_transpose.

(** *** Validation *)

Lemma picker_idem t : transform_picker t = transform_picker (transform_picker t).
Proof. done. Qed.

Lemma validate_current ms : stack_current ms -> stack_current (ms_validate ms).
Proof.
  intros [He Hp]. unfold ms_validate, stack_current.
  destruct (Z.eqb_spec (Z.land (ms_dirty ms) DO_FLOAT_TO_FIXED) 0) as [E1|E1],
    (Z.eqb_spec (Z.land (ms_dirty ms) DO_PICKER) 0) as [E2|E2]; cbn.
  - split; intros _; [by apply He|]. split; [done|]. by apply Hp.
  - split; intros _; [by apply He|]. split; [done|]. by left.
  - by destruct (Hp E2).
  - split; intros _; [by left|]. split; [done|]. by left.
Qed.
Lemma validate_top ms : ms_top (ms_validate ms) = ms_top ms.
Proof. unfold ms_validate. by destruct (_ =? 0), (_ =? 0). Qed.
Lemma validate_dirty ms : ms_dirty (ms_validate ms) = 0.
Proof. done. Qed.

(** What validation makes of each part. *)
Section Fields.
  Variables (want : Z) (ts : transform_state_t).
#[local] Abbreviation ts' := (validate_transforms want ts).
#[local] Abbreviation off bit := (Z.land (Z.land (ts_dirty ts) want) bit =? 0).

(** The state before the parts that follow [MVP]; what they read of it. *)
Lemma validate_reads dirty t :
  let before := when_dirty dirty VIEWPORT update_viewport
    (when_dirty dirty PROJECTION (fun ts => ts <| ts_projection ::= ms_validate |>)
    (when_dirty dirty MODELVIEW (fun ts => ts <| ts_modelview ::= ms_validate |>) t)) in
  ms_top (ts_modelview before) = ms_top (ts_modelview t) /\ ms_top (ts_projection before) = ms_top (ts_projection t) /\
  vp_matrix (ts_vpt before) = vp_matrix (ts_vpt t) /\ ts_mvp before = ts_mvp t /\ ts_mvp4 before = ts_mvp4 t.
Proof. unfold when_dirty. destruct (_ =? 0), (_ =? 0), (_ =? 0); cbn -[ms_top ms_validate]; split_and!; by rewrite ?validate_top. Qed.

Ltac skip g := rewrite (when_dirty_same g) by (intros ?; first [reflexivity|unfold update_mvp; cbv zeta; by destruct (_ =? 0)]).

Ltac part g := unfold validate_transforms; cbv zeta;
  match goal with |- g (upd ts_dirty ?F ?t) = _ => change (g (upd ts_dirty F t)) with (g t) end.

Ltac does g := rewrite (when_dirty_does g); destruct (_ =? 0); [|
  unfold update_mvui, update_mvit; cbv beta;
  match goal with |- context [g (upd g ?F ?t)] => change (g (upd g F t)) with (F (g t)) end; cbv beta].

Lemma validate_frame : ts_matrixMode ts' = ts_matrixMode ts /\ ts_current ts' = ts_current ts.
Proof. split; [part ts_matrixMode; do 7 skip ts_matrixMode|part ts_current; do 7 skip ts_current]; done. Qed.
Lemma validate_modelview : ts_modelview ts' = if off MODELVIEW then ts_modelview ts else ms_validate (ts_modelview ts).
Proof. part ts_modelview. do 6 skip ts_modelview. by rewrite when_dirty_does. Qed.
Lemma validate_projection : ts_projection ts' = if off PROJECTION then ts_projection ts else ms_validate (ts_projection ts).
Proof. part ts_projection. do 5 skip ts_projection. does ts_projection. all: by skip ts_projection. Qed.
Lemma validate_texture : ts_texture ts' = if off TEXTURE then ts_texture ts else map ms_validate (ts_texture ts).
Proof. part ts_texture. skip ts_texture. does ts_texture. all: by do 5 skip ts_texture. Qed.
Lemma validate_vpt : ts_vpt ts' = if off VIEWPORT then ts_vpt ts
  else (ts_vpt ts) <| vp_transform := load_transform (vp_matrix (ts_vpt ts)) |>.
Proof. part ts_vpt. do 4 skip ts_vpt. unfold update_viewport. does ts_vpt. all: by do 2 skip ts_vpt. Qed.

#[local] Abbreviation before_mvp := (
  let dirty := Z.land (ts_dirty ts) want in when_dirty dirty VIEWPORT update_viewport
    (when_dirty dirty PROJECTION (fun ts => ts <| ts_projection ::= ms_validate |>)
    (when_dirty dirty MODELVIEW (fun ts => ts <| ts_modelview ::= ms_validate |>) ts))).

Lemma validate_mvp4 : ts_mvp4 ts' = if off MVP then ts_mvp4 ts else load_transform (mvp_matrix ts).
Proof.
  part ts_mvp4. do 3 skip ts_mvp4. rewrite when_dirty_does.
  destruct (validate_reads (Z.land (ts_dirty ts) want) ts) as (Em & Ep & _ & _ & E4). rewrite E4. destruct (_ =? 0); [done|].
  etransitivity; [|by unfold mvp_matrix; rewrite <-Em, <-Ep].
  unfold update_mvp. cbv zeta. by destruct (_ =? 0).
Qed.
Lemma validate_mvp : ts_mvp ts' = if off MVP then ts_mvp ts else mvp_transform ts.
Proof.
  part ts_mvp. do 3 skip ts_mvp. rewrite when_dirty_does.
  destruct (validate_reads (Z.land (ts_dirty ts) want) ts) as (Em & Ep & Ev & E & _). rewrite E. destruct (_ =? 0); [done|].
  etransitivity; [|by unfold mvp_transform, mvp_matrix; rewrite <-Em, <-Ep, <-Ev].
  unfold update_mvp. cbv zeta. generalize (before_mvp). intros t. cbn -[Z.land transform_load]. by destruct (_ =? 0).
Qed.
Lemma validate_mvui : ts_mvui ts' = if off MVUI then ts_mvui ts
  else mvui_picker ((ts_mvui ts) <| tr_m := inverse_transpose (ms_top (ts_modelview ts)) |>).
Proof.
  part ts_mvui. do 2 skip ts_mvui. does ts_mvui; [by do 4 skip ts_mvui|].
  skip ts_modelview. destruct (validate_reads (Z.land (ts_dirty ts) want) ts) as (-> & _).
  by do 4 skip ts_mvui.
Qed.
Lemma validate_mvit4 : ts_mvit4 ts' = if off MVIT then ts_mvit4 ts
  else transform_picker ((ts_mvit4 ts) <| tr_m := inverse_transpose (ms_top (ts_modelview ts)) |>).
Proof.
  part ts_mvit4. does ts_mvit4; [by do 6 skip ts_mvit4|].
  do 3 skip ts_modelview. destruct (validate_reads (Z.land (ts_dirty ts) want) ts) as (-> & _).
  by do 6 skip ts_mvit4.
Qed.
End Fields.

Lemma mvp_matrix_top ts ts' : ms_top (ts_modelview ts') = ms_top (ts_modelview ts) ->
  ms_top (ts_projection ts') = ms_top (ts_projection ts) -> mvp_matrix ts' = mvp_matrix ts.
Proof. unfold mvp_matrix. by intros -> ->. Qed.
Lemma mvp_transform_top ts ts' : ms_top (ts_modelview ts') = ms_top (ts_modelview ts) ->
  ms_top (ts_projection ts') = ms_top (ts_projection ts) -> vp_matrix (ts_vpt ts') = vp_matrix (ts_vpt ts) ->
  mvp_transform ts' = mvp_transform ts.
Proof. intros Hm Hp Hv. unfold mvp_transform. by rewrite (mvp_matrix_top ts ts' Hm Hp), Hv. Qed.

Lemma validate_tops want ts : let ts' := validate_transforms want ts in
  ms_top (ts_modelview ts') = ms_top (ts_modelview ts) /\ ms_top (ts_projection ts') = ms_top (ts_projection ts) /\
  vp_matrix (ts_vpt ts') = vp_matrix (ts_vpt ts).
Proof.
  cbv zeta. rewrite validate_modelview, validate_projection, validate_vpt. split_and!; destruct (_ =? 0); by rewrite ?validate_top.
Qed.

Lemma transforms_ok_validate exact want ts : transforms_ok exact ts -> transforms_ok exact (validate_transforms want ts).
Proof.
  intros H. destruct (validate_tops want ts) as (Em & Ep & Ev). destruct (validate_frame want ts) as [Emode Ec].
  assert (forall bit, is_u32 bit -> clean bit (validate_transforms want ts) ->
    (Z.land (Z.land (ts_dirty ts) want) bit =? 0) = true -> clean bit ts) as C.
  { intros bit Hb Hc Hd. apply (clean_validate want); [done..|]. by apply Z.eqb_eq. }
  split.
  - rewrite validate_modelview. destruct (_ =? 0); [apply H|apply validate_current, H].
  - rewrite validate_projection. destruct (_ =? 0); [apply H|apply validate_current, H].
  - rewrite validate_texture. destruct (_ =? 0); [apply H|]. apply Forall_map.
    eapply Forall_impl; [apply H|]. intros ms. apply validate_current.
  - rewrite Emode, Ec. apply H.
  - intros Hc. rewrite validate_modelview. destruct (_ =? 0) eqn:E; [|done]. by eapply to_modelview_clean, C.
  - intros Hc. rewrite validate_projection. destruct (_ =? 0) eqn:E; [|done]. by eapply to_projection_clean, C.
  - intros Hc. rewrite validate_texture. destruct (_ =? 0) eqn:E; [by eapply to_texture_clean, C|]. apply Forall_map, Forall_true. done.
  - intros Hc. rewrite Ev, validate_vpt. destruct (_ =? 0) eqn:E; [by eapply to_viewport_clean, C|done].
  - intros Hc. rewrite validate_mvp4, (mvp_matrix_top ts _ Em Ep). destruct (_ =? 0) eqn:E; [by eapply to_mvp4_clean, C|done].
  - intros Hc. rewrite validate_mvp, (mvp_transform_top ts _ Em Ep Ev). destruct (_ =? 0) eqn:E; [by eapply to_mvp_clean, C|done].
  - intros Hc. rewrite validate_mvui, Em. destruct (_ =? 0) eqn:E; [by eapply to_mvui_clean, C|done].
  - intros Hc. rewrite validate_mvit4, Em. destruct (_ =? 0) eqn:E; [by eapply to_mvit_clean, C|done].
Qed.

(** *** The commands *)

(** What a command leaves on the current stack is current up to its dirty bits. *)
Lemma transforms_ok_invalidate exact d ms ts : transforms_ok exact ts -> stack_current (ms <| ms_dirty := d |>) ->
  transforms_ok exact (ts_invalidate d ms ts).
Proof.
  intros [] Hms. unfold ts_invalidate, set_current_stack.
  change (ts_current (ts <| ts_dirty ::= _ |>)) with (ts_current ts).
  destruct (ts_current ts) eqn:Ec; cbn [mode_of] in to_mode0.
  all: split;
    [first [exact Hms|exact to_modelview0]|first [exact Hms|exact to_projection0]|
     first [exact to_texture0|by apply Forall_insert]|change (ts_matrixMode ts = mode_of (ts_current ts)); by rewrite Ec|..].
  all: intros Hc;
    match type of Hc with clean ?b _ => change (Z.land (Z.lor (invalidated_by (ts_matrixMode ts)) (ts_dirty ts)) b = 0) in Hc end;
    rewrite to_mode0, Z.land_lor_distr_l in Hc; apply Z.lor_eq_0_iff in Hc as [Hd Hc].
  all: first [discriminate Hd|exact (to_modelview_clean0 Hc)|exact (to_projection_clean0 Hc)|exact (to_texture_clean0 Hc)|
    exact (to_viewport_clean0 Hc)|exact (to_mvui_clean0 Hc)|exact (to_mvit_clean0 Hc)].
Qed.

Lemma dirty_current ms : stack_current (ms <| ms_dirty := DO_ALL |>).
Proof. split; intros H; discriminate H. Qed.

Lemma identity_current limit ms : stack_ok limit ms -> stack_current ((ms_loadIdentity ms) <| ms_dirty := 0 |>).
Proof.
  intros [? ? ? ? ?]. split; intros _; [|split; [done|by right]]. left. cbn.
  change (gIdentityx = matrixx_load (nth (Z.to_nat (ms_depth ms)) (<[Z.to_nat (ms_depth ms) := gIdentityf]> (ms_stack ms)) [])).
  rewrite (nth_lookup_Some _ _ _ gIdentityf); [done|]. apply list_lookup_insert_eq. lia.
Qed.

Lemma load_fixed_current limit m ms : stack_ok limit ms -> stack_current ((ms_load_fixed m ms) <| ms_dirty := DO_PICKER |>).
Proof.
  intros [? ? ? ? ?]. split; intros H'; [|discriminate H']. right.
  change (nth (Z.to_nat (ms_depth ms)) (<[Z.to_nat (ms_depth ms) := load_fixed m]> (ms_stack ms)) [] = load_fixed m).
  apply nth_lookup_Some, list_lookup_insert_eq. lia.
Qed.

Lemma edit_transforms_ok exact d F c c' : matrices_ok c -> transforms_ok exact (oc_transforms c) ->
  edit_current d F c = Some c' ->
  (forall limit ms, stack_ok limit ms -> stack_current ((F ms) <| ms_dirty := d |>)) -> transforms_ok exact (oc_transforms c').
Proof.
  intros Hc Ht E HF. destruct (current_ok c Hc) as (ms & Ems & Hms & _). unfold edit_current in E. rewrite Ems in E.
  injection E as <-. apply transforms_ok_invalidate; [done|]. by eapply HF.
Qed.

Lemma push_or_pop_transforms_ok exact op c c' : transforms_ok exact (oc_transforms c) ->
  push_or_pop op c = Some c' -> transforms_ok exact (oc_transforms c').
Proof.
  intros Ht. unfold push_or_pop. destruct (current_stack _) as [ms|]; [|done]. cbn [mbind option_bind].
  destruct (op ms) as [err ms']. destruct (negb (err =? 0)); intros [= <-].
  - unfold gl_error. by destruct (oc_error c =? GGL_NO_ERROR).
  - apply transforms_ok_invalidate; [done|]. apply dirty_current.
Qed.

(** Changes that only make transformations dirty. *)
Lemma transforms_ok_dirty exact exact' d vp ts : transforms_ok exact ts -> Z.land d VIEWPORT <> 0 ->
  (Z.land d MVP = 0 -> clean MVP ts -> agree exact' (ts_mvp ts) (mvp_transform (ts <| ts_vpt := vp |>))) ->
  transforms_ok exact' (ts <| ts_vpt := vp |> <| ts_dirty ::= Z.lor d |>).
Proof.
  intros [] Hd Hm.
  assert (forall bit, clean bit (ts <| ts_vpt := vp |> <| ts_dirty ::= Z.lor d |>) -> Z.land d bit = 0 /\ clean bit ts) as C.
  { intros bit Hc. destruct (clean_or d bit (ts <| ts_vpt := vp |>) Hc). done. }
  split; [assumption|assumption|assumption|assumption|intros Hc; destruct (C _ Hc) as [Hv Hc']..].
  - exact (to_modelview_clean0 Hc').
  - exact (to_projection_clean0 Hc').
  - exact (to_texture_clean0 Hc').
  - by destruct Hd.
  - rewrite (mvp_matrix_top ts) by reflexivity. exact (to_mvp4_clean0 Hc').
  - rewrite (mvp_transform_top (ts <| ts_vpt := vp |>)) by reflexivity. exact (Hm Hv Hc').
  - exact (to_mvui_clean0 Hc').
  - exact (to_mvit_clean0 Hc').
Qed.

Lemma viewport_transforms_ok exact m ts : transforms_ok exact ts -> transforms_ok exact (set_viewport_matrix m ts).
Proof.
  intros H. unfold set_viewport_matrix. cbv zeta. set (vp := (ts_vpt ts) <| vp_matrix := m |>).
  change (is_2D (ts <| ts_vpt ; vp_matrix := m |> <| ts_dirty ::= Z.lor VIEWPORT |>)) with (is_2D ts).
  change (ts <| ts_vpt ; vp_matrix := m |>) with (ts <| ts_vpt := vp |>).
  destruct (is_2D ts) eqn:E2.
  - assert (ts <| ts_vpt := vp |> <| ts_dirty ::= Z.lor VIEWPORT |> <| ts_dirty ::= Z.lor MVP |> =
            ts <| ts_vpt := vp |> <| ts_dirty ::= Z.lor (Z.lor MVP VIEWPORT) |>) as ->.
    { destruct ts. unfold upd. cbn. f_equal. by rewrite Z.lor_assoc. }
    by apply (transforms_ok_dirty exact).
  - apply (transforms_ok_dirty exact); [done..|]. intros _ Hc.
    pose proof (to_mvp_clean _ _ H Hc) as A. pose proof (to_mvp4_clean _ _ H Hc) as E4.
    unfold is_2D in E2. rewrite E4 in E2. apply negb_false_iff in E2.
    unfold mvp_transform in *. rewrite (mvp_matrix_top ts (ts <| ts_vpt := vp |>)) by reflexivity. by rewrite E2 in *.
Qed.

(** A depth range changes the third row only. *)
Lemma build_elt f i : (i < 16)%nat -> elt (matrix_build f) i = f (i / 4)%nat (i mod 4)%nat.
Proof. intros Hi. do 16 (destruct i as [|i]; [done|]). lia. Qed.
Lemma build_elt_large f i : (16 <= i)%nat -> elt (matrix_build f) i = 0.
Proof. intros Hi. unfold elt. apply nth_overflow. exact Hi. Qed.

Lemma multiply_rows a b m i : (forall j, (j mod 4 <> 2)%nat -> elt a j = elt b j) -> (i mod 4 <> 2)%nat ->
  elt (matrixf_multiply a m) i = elt (matrixf_multiply b m) i.
Proof.
  intros H Hi. Transparent matrixf_multiply. unfold matrixf_multiply. Opaque matrixf_multiply.
  destruct (Nat.lt_ge_cases i 16); [|by rewrite !build_elt_large]. rewrite !build_elt by done.
  assert (forall j, (4 * j + i mod 4) mod 4 <> 2)%nat as Hk.
  { intros j. rewrite Nat.add_comm, Nat.mul_comm, Nat.Div0.mod_add, Nat.Div0.mod_mod. done. }
  cbn [fold_left]. rewrite !(H (4 * _ + _)%nat) by apply Hk. rewrite (H (i mod 4)%nat); [done|]. by rewrite Nat.Div0.mod_mod.
Qed.

Lemma load_elt m i : elt (matrixx_load m) i = (if isZerof (elt m i) then 0 else gglFloatToFixed (elt m i)).
Proof. exact (map_nth (fun f => if isZerof f then 0 else gglFloatToFixed f) m 0 i). Qed.

Lemma agree_load a b : length a = length b -> (forall i, (i mod 4 <> 2)%nat -> elt a i = elt b i) ->
  agree false (load_transform a) (load_transform b).
Proof.
  intros Hl H. Transparent load_transform. unfold load_transform, transform_load, agree. Opaque load_transform. cbn -[elt Z.land Z.lor].
  assert (forall i, (i mod 4 <> 2)%nat -> elt (matrixx_load a) i = elt (matrixx_load b) i) as Hx.
  { intros i Hi. by rewrite !load_elt, H. }
  split; [|split; [by unfold matrixx_load; rewrite !length_map|intros i [?|Hi]; [done|by apply Hx]]].
  by rewrite !Hx by done.
Qed.

Lemma depth_matrix_elt n f m i : (i mod 4 <> 2)%nat -> elt (depth_matrix n f m) i = elt m i.
Proof.
  intros Hi. unfold depth_matrix, elt. rewrite !nth_lookup, !list_lookup_insert_ne; [done| |]; intros <-; by apply Hi.
Qed.

Lemma agree_trans exact a b c : agree exact a b -> agree exact b c -> agree exact a c.
Proof. intros (E & L & H) (E' & L' & H'). split; [congruence|]. split; [congruence|]. intros i Hi. by rewrite H, H'. Qed.

Lemma multiply_length a b : length (matrixf_multiply a b) = 16%nat.
Proof. Transparent matrixf_multiply. reflexivity. Qed.
#[local] Opaque matrixf_multiply.

Lemma depth_transforms_ok near far c : transforms_ok false (oc_transforms c) ->
  transforms_ok false (oc_transforms (glDepthRangef near far c)).
Proof.
  intros H. unfold glDepthRangef, depthRangef. cbv zeta. 
  set (n := clampToZerof (if flt f_1 near then f_1 else near)). set (f := clampToZerof (if flt f_1 far then f_1 else far)). clearbody n f.
  set (ts := oc_transforms c) in *.
  set (vp := (ts_vpt ts) <| vp_matrix ::= depth_matrix n f |> <| zNear := n |> <| zFar := f |>).
  change (transforms_ok false (ts <| ts_vpt := vp |> <| ts_dirty ::= Z.lor VIEWPORT |>)).
  apply (transforms_ok_dirty false); [done..|]. intros _ Hc. eapply agree_trans; [by apply (to_mvp_clean _ _ H)|].
  unfold mvp_transform. rewrite (mvp_matrix_top ts (ts <| ts_vpt := vp |>)) by reflexivity.
  destruct (_ =? 0); [done|]. apply agree_load; [by rewrite !multiply_length|]. intros i Hi. apply multiply_rows; [|done].
  intros j Hj. symmetry. by apply depth_matrix_elt.
Qed.

Definition keeps_depth (cmd : matrix_command) : Prop := match cmd with M_DepthRangef _ _ => False | _ => True end.

Lemma exec_transforms_ok exact cmd c c' : matrices_ok c -> transforms_ok exact (oc_transforms c) ->
  (exact = true -> keeps_depth cmd) -> exec_matrix cmd c = Some c' -> transforms_ok exact (oc_transforms c').
Proof.
  intros Hc Ht Hd E.
  assert (forall e, transforms_ok exact (oc_transforms (gl_error e c))) as Err.
  { intros e. unfold gl_error. by destruct (oc_error c =? GGL_NO_ERROR). }
  assert (forall F, edit_current DO_ALL F c = Some c' -> transforms_ok exact (oc_transforms c')) as Edit.
  { intros F HF. eapply edit_transforms_ok; [done..|]. intros. apply dirty_current. }
  destruct cmd; cbn [exec_matrix] in E; try (by apply (Edit _ E)).
  - injection E as <-. unfold glMatrixMode. cbv zeta.
    assert (forall w, mode_of w = mode -> transforms_ok exact
      ((oc_transforms c) <| ts_matrixMode := mode |> <| ts_current := w |>)) as Mode by (intros w <-; by destruct Ht).
    destruct (Z.eqb_spec mode GL_MODELVIEW) as [->|]; [by apply Mode|].
    destruct (Z.eqb_spec mode GL_PROJECTION) as [->|]; [by apply Mode|].
    destruct (Z.eqb_spec mode GL_TEXTURE) as [->|]; [by apply Mode|apply Err].
  - eapply edit_transforms_ok; [done..|]. apply identity_current.
  - eapply edit_transforms_ok; [done..|]. intros. by eapply load_fixed_current.
  - by eapply push_or_pop_transforms_ok.
  - by eapply push_or_pop_transforms_ok.
  - unfold glFrustumf, frustumf in E. destruct (_ || _); [injection E as <-; apply Err|by apply (Edit _ E)].
  - unfold glOrthof, orthof in E. destruct (_ || _); [injection E as <-; apply Err|by apply (Edit _ E)].
  - unfold glScissor, ogles_scissor in E. destruct (_ <? 0); injection E as <-; [apply Err|done].
  - injection E as <-. unfold glViewport, ogles_viewport. destruct (_ <? 0); [apply Err|]. by apply viewport_transforms_ok.
  - injection E as <-. destruct exact; [by destruct (Hd eq_refl)|]. by apply depth_transforms_ok.
  - unfold ogles_surfaceport in E. set (c1 := c <| oc_viewport ::= _ |>) in E.
    assert (transforms_ok exact (oc_transforms c1)) as H1 by done. clearbody c1.
    unfold ogles_scissor, ogles_viewport in E.
    destruct (_ <? 0) eqn:E1 in E; destruct (_ <? 0) eqn:E2 in E; injection E as <-.
    all: try (unfold gl_error; repeat (destruct (_ =? GGL_NO_ERROR))); try done; by apply viewport_transforms_ok.
  - injection E as <-. unfold ogles_validate_transform. destruct (_ =? 0); [done|].
    destruct (_ =? 0), (_ =? 0); by apply transforms_ok_validate.
Qed.

Lemma agree_exact t t' : agree true t t' -> t = t'.
Proof.
  intros (E & L & H). destruct t, t'. unfold upd in E. cbn in *. injection E as -> -> -> -> ->. f_equal.
  apply list_eq. intros i. specialize (H i (or_introl eq_refl)). unfold elt in H.
  destruct (Nat.lt_ge_cases i (length tr_m)).
  - destruct (lookup_lt_is_Some_2 tr_m i) as [x Ex]; [done|]. destruct (lookup_lt_is_Some_2 tr_m0 i) as [y Ey]; [lia|].
    rewrite Ex, Ey. apply nth_lookup_Some with (d := 0) in Ex, Ey. congruence.
  - rewrite !lookup_ge_None_2 by lia. done.
Qed.

Lemma exec_transforms_all exact cmds c c' : matrices_ok c -> transforms_ok exact (oc_transforms c) ->
  (exact = true -> Forall keeps_depth cmds) -> exec_matrices cmds c = Some c' ->
  matrices_ok c' /\ transforms_ok exact (oc_transforms c').
Proof.
  revert c. induction cmds as [|cmd cmds IH]; intros c Hc Ht Hd E; [by injection E as <-|].
  destruct (exec_matrix_ok cmd c Hc) as (c1 & E1 & H1 & _). cbn [exec_matrices] in E. rewrite E1 in E.
  apply (IH c1); [done| | |done].
  - eapply exec_transforms_ok; [exact Hc|exact Ht| |exact E1]. intros He. by specialize (Hd He); inversion Hd.
  - intros He. by specialize (Hd He); inversion Hd.
Qed.

Lemma validated_clean want bit c : is_u32 bit -> Z.land want bit = bit -> clean bit (oc_transforms (ogles_validate_transform want c)).
Proof.
  intros Hb Hw. unfold ogles_validate_transform, clean. destruct (Z.eqb_spec (Z.land (ts_dirty (oc_transforms c)) want) 0) as [E|].
  { by rewrite <-Hw, Z.land_assoc, E. }
  transitivity (Z.land (Z.land (ts_dirty (oc_transforms c)) (u32 (Z.lnot want))) bit).
  { destruct (_ =? 0), (_ =? 0); f_equal; apply validate_dirty_bits. }
  apply Z.bits_inj'. intros i Hi. rewrite !Z.land_spec, Z.bits_0, u32_testbit, Z.lnot_spec by done.
  apply (f_equal (fun z => Z.testbit z i)) in Hw. rewrite Z.land_spec in Hw.
  destruct (i <? 32), (Z.testbit want i), (Z.testbit bit i), (Z.testbit (ts_dirty (oc_transforms c)) i); done.
Qed.


(** ** The initial state *)

(** Stacks of the sizes they are allocated with. *)
Definition stacks_sized (stacks : Z -> list matrixf_t * list Z) : Prop := forall depth, 0 <= depth ->
  Z.of_nat (length (fst (stacks depth))) = depth /\ Z.of_nat (length (snd (stacks depth))) = depth.

Lemma fresh_stack_ok stack ops depth : 0 < depth <= 16 -> Z.of_nat (length stack) = depth -> Z.of_nat (length ops) = depth ->
  stack_ok depth (fresh_stack stack ops depth) /\ stack_current (fresh_stack stack ops depth) /\
  ms_dirty (fresh_stack stack ops depth) = 0.
Proof.
  intros Hd Hs Ho. assert (u8 depth = depth) as E by (apply u8_id; unfold is_u8; lia).
  assert (stack_ok depth (fresh_stack stack ops depth)) as H.
  { split; cbn; rewrite ?E, ?length_insert; lia. }
  split; [done|]. split; [|done].
  set (ms := mk_matrix_stack transform_loadIdentity (u8 depth) 0 0 stack ops).
  apply (identity_current depth ms). split; cbn; rewrite ?E; lia.
Qed.

Lemma bindTextureTmu_frame tmu texture tex c c' : bindTextureTmu tmu texture tex c = Some c' ->
  oc_transforms c' = oc_transforms c /\ tx_active (oc_textures c') = tx_active (oc_textures c) /\ oc_viewport c' = oc_viewport c.
Proof.
  unfold bindTextureTmu. destruct (tx_tmu _ !! tmu) as [u|]; [|done]. cbn [mbind option_bind].
  destruct (tex =? tu_texture u); [by intros [= <-]|]. destruct (if _ =? 0 then _ else _) as [o|]; [|done]. cbn [mbind option_bind].
  destruct (tex_incStrong tex o); [|done]. cbn [mbind option_bind]. by intros [= <-].
Qed.

Lemma ogles_init_transforms stacks tex c : ogles_init stacks tex = Some c ->
  oc_transforms c = ogles_init_matrix stacks /\ tx_active (oc_textures c) = 0 /\ oc_viewport c = mk_viewport 0 0 0 0 0 0 0 0 0 0.
Proof.
  unfold ogles_init, ogles_init_texture, raster. cbn [exec mbind option_bind].
  match goal with |- context [bindTextureTmu 0 0 tex ?c0] => set (c1 := c0); destruct (bindTextureTmu 0 0 tex c1) as [c2|] eqn:E2 end; [|done].
  cbn [mbind option_bind]. destruct (bindTextureTmu 1 0 tex c2) as [c3|] eqn:E3; [|done].
  apply bindTextureTmu_frame in E2 as (T2 & A2 & V2), E3 as (T3 & A3 & V3). intros [= <-]. cbn -[ogles_init_matrix].
  by rewrite T3, A3, V3, T2, A2, V2.
Qed.

Ltac both P := constructor; [exact P|constructor; [exact P|constructor]].

Lemma ogles_init_ok stacks tex c : stacks_sized stacks -> ogles_init stacks tex = Some c ->
  matrices_ok c /\ transforms_ok true (oc_transforms c).
Proof.
  intros Hs (Et & Ea & Ev)%ogles_init_transforms.
  destruct (fresh_stack_ok (fst (stacks 16)) (snd (stacks 16)) 16) as (M1 & M2 & M3); [lia|by apply Hs..|].
  destruct (fresh_stack_ok (fst (stacks 2)) (snd (stacks 2)) 2) as (P1 & P2 & P3); [lia|by apply Hs..|].
  split.
  - split; rewrite ?Et, ?Ea, ?Ev; [exact M1|exact P1|both P1|done|done|lia|done].
  - rewrite Et. split; [exact M2|exact P2|both P2|done|..]; try (intros Hc; discriminate Hc).
    + intros _. exact M3.
    + intros _. exact P3.
    + intros _. both P3.
Qed.
End Exec.

#[local] Instance quiet_nan : Nans := {| nan_bits := 0x7FC00000 |}.

Lemma example_stacks_sized : stacks_sized example_stacks.
Proof. intros depth Hd. cbn. rewrite !repeat_length. lia. Qed.

Definition started : ogles_context_t := match ogles_init example_stacks 0x100 with Some c => c | None => zeroed_context example_stacks end.
Lemma started_ok : matrices_ok started /\ transforms_ok true (oc_transforms started).
Proof. apply (ogles_init_ok example_stacks 0x100); [apply example_stacks_sized|vm_compute; reflexivity]. Qed.

(** A translation under a projection, one push too many and the wrong mode. *)
Definition example_matrices : list matrix_command :=
  [M_Translatef f_1 0 0; M_PushMatrix; M_MatrixMode GL_PROJECTION; M_PushMatrix; M_PushMatrix;
   M_Frustumf 0 f_1 0 f_1 f_1 f_1; M_MatrixMode 0; M_MatrixMode GL_MODELVIEW; M_Scalef 0x40000000 f_1 f_1; M_PopMatrix; M_PopMatrix].

Lemma matrix_commands_spec_witness :
  exists c', exec_matrices example_matrices started = Some c' /\ matrices_ok c' /\
    matrices_of c' = fold_left (spec_step (tx_active (oc_textures started))) example_matrices (matrices_of started).
Proof. apply (matrix_commands_spec example_matrices started). apply started_ok. Defined.

Example matrices_example :
  option_map (fun c => (map (fun m => elt m 12) (mx_modelview (matrices_of c)), length (mx_projection (matrices_of c)),
                        oc_error c)) (exec_matrices example_matrices started) =
  Some ([f_1], 2%nat, GL_STACK_OVERFLOW).
Proof. vm_compute. reflexivity. Qed.

Definition want_all : Z := 0x7F.
Definition example_after : ogles_context_t := match exec_matrices example_matrices started with Some c => c | None => started end.

(** ** Faults *)

(** Under a projection that leaves the fourth coordinate alone, a change of the
    depth range does not reach the transformation: it keeps the depths of the
    old range. *)
Definition mvp_depth (c : ogles_context_t) : list Z * list Z :=
  let at_ t := [elt (tr_m t) 10; elt (tr_m t) 14] in
  (at_ (ts_mvp (oc_transforms c)), at_ (mvp_transform (oc_transforms c))).
Example depth_range_stale :
  mvp_depth <$> exec_matrices [M_Viewport 0 0 32 32; M_validate want_all; M_DepthRangef 0x3F000000 f_1; M_validate want_all] started =
  Some ([0x8000; 0x8000], [0x4000; 0xC000]).
Proof. vm_compute. reflexivity. Qed.

(** The row to swap is compared to the first one only, so it is not the one
    with the largest element. *)
Example pick_swap_not_largest :
  pick_swap (map (fun x => ([x; 0; 0; 0], [0; 0; 0; 0])) [f_1; 0x40800000; 0x40000000; 0]) 0 = 2%nat /\
  flt 0x40000000 0x40800000 = true.
Proof. vm_compute. split; reflexivity. Qed.

(** A matrix of a scale by 2 and a translation by 1, its inverse; a turn by 90
    degrees about the third axis, to fixed point. *)
Example invert_example :
  invert (matrixf_scale 0x40000000 0x40000000 0x40000000 (matrixf_translate f_1 0 0 gIdentityf)) =
  [0x3F000000; 0; 0; 0; 0; 0x3F000000; 0; 0; 0; 0; 0x3F000000; 0; 0xBF000000; 0; 0; f_1].
Proof. vm_compute. reflexivity. Qed.
Example rotate_example :
  matrixx_load (matrixf_rotate 0x42B40000 0 0 f_1 gIdentityf) =
  [0; 0x10000; 0; 0; -0x10000; 0; 0; 0; 0; 0; 0x10000; 0; 0; 0; 0; 0x10000].
Proof. vm_compute. reflexivity. Qed.
