(* ===== verification/State.v ===== *)
(** * The state commands

    Models swrender/state.cpp and the commands of swrender/vertex.cpp: what
    [glEnable] and the like change of the context, how errors are kept and
    reported, the queries, the current color and normal, and the clip planes,
    and how the commands of the lighting and of the arrays act on the context.

    [error_reported] shows that a refused command changes nothing but the error
    and that errors come back from [glGetError] once. *)

From stdpp Require Import gmap.
From Stdlib Require Import String.
From S2P Require Import Prelude Palette TextureObjects Fixed Names Context PixelFormat Surface PixelFlinger Clear Float Vertex Clipping Arrays Light Lerp Primitives Matrix OGLES Transforms.

#[local] Open Scope Z_scope.

Definition GL_POINT_SMOOTH : Z := 0x0B10.
Definition GL_LINE_SMOOTH : Z := 0x0B20.
Definition GL_CULL_FACE : Z := 0x0B44.
Definition GL_CLIP_PLANE0 : Z := 0x3000.
Definition GL_CLIP_PLANE5 : Z := 0x3005.
Definition GL_POLYGON_OFFSET_FILL : Z := 0x8037.
Definition GL_MULTISAMPLE : Z := 0x809D.
Definition GL_SAMPLE_ALPHA_TO_COVERAGE : Z := 0x809E.
Definition GL_SAMPLE_ALPHA_TO_ONE : Z := 0x809F.
Definition GL_SAMPLE_COVERAGE : Z := 0x80A0.
Definition GL_TEXTURE_EXTERNAL_OES : Z := 0x8D65.
Definition GL_KEEP : Z := 0x1E00.
Definition GL_INCR : Z := 0x1E02.
Definition GL_DECR : Z := 0x1E03.
Definition GL_NICEST : Z := 0x1102.
Definition GL_PERSPECTIVE_CORRECTION_HINT : Z := 0x0C50.
Definition GL_POINT_SMOOTH_HINT : Z := 0x0C51.
Definition GL_LINE_SMOOTH_HINT : Z := 0x0C52.
Definition GL_FOG_HINT : Z := 0x0C54.
Definition GL_GENERATE_MIPMAP_HINT : Z := 0x8192.
Definition GL_ALIASED_POINT_SIZE_RANGE : Z := 0x846D.
Definition GL_ALIASED_LINE_WIDTH_RANGE : Z := 0x846E.
Definition GL_ALPHA_BITS : Z := 0x0D55.
Definition GL_RED_BITS : Z := 0x0D52.
Definition GL_GREEN_BITS : Z := 0x0D53.
Definition GL_BLUE_BITS : Z := 0x0D54.
Definition GL_COMPRESSED_TEXTURE_FORMATS : Z := 0x86A3.
Definition GL_DEPTH_BITS : Z := 0x0D56.
Definition GL_IMPLEMENTATION_COLOR_READ_FORMAT_OES : Z := 0x8B9B.
Definition GL_IMPLEMENTATION_COLOR_READ_TYPE_OES : Z := 0x8B9A.
Definition GL_MAX_LIGHTS : Z := 0x0D31.
Definition GL_MAX_CLIP_PLANES : Z := 0x0D32.
Definition GL_MAX_MODELVIEW_STACK_DEPTH : Z := 0x0D36.
Definition GL_MAX_PROJECTION_STACK_DEPTH : Z := 0x0D38.
Definition GL_MAX_TEXTURE_STACK_DEPTH : Z := 0x0D39.
Definition GL_MAX_TEXTURE_SIZE : Z := 0x0D33.
Definition GL_MAX_TEXTURE_UNITS : Z := 0x84E2.
Definition GL_MAX_VIEWPORT_DIMS : Z := 0x0D3A.
Definition GL_NUM_COMPRESSED_TEXTURE_FORMATS : Z := 0x86A2.
Definition GL_SMOOTH_LINE_WIDTH_RANGE : Z := 0x0B22.
Definition GL_SMOOTH_POINT_SIZE_RANGE : Z := 0x0B12.
Definition GL_STENCIL_BITS : Z := 0x0D57.
Definition GL_SUBPIXEL_BITS : Z := 0x0D50.
Definition GL_UNSIGNED_SHORT_5_6_5 : Z := 0x8363.
Definition GL_VENDOR : Z := 0x1F00.
Definition GL_RENDERER : Z := 0x1F01.
Definition GL_VERSION : Z := 0x1F02.
Definition GL_EXTENSIONS : Z := 0x1F03.
Definition GL_MODELVIEW_MATRIX : Z := 0x0BA6.
Definition GL_PROJECTION_MATRIX : Z := 0x0BA7.
Definition GL_MODELVIEW_MATRIX_FLOAT_AS_INT_BITS_OES : Z := 0x898D.
Definition GL_PROJECTION_MATRIX_FLOAT_AS_INT_BITS_OES : Z := 0x898E.
Definition GL_TEXTURE_MATRIX_FLOAT_AS_INT_BITS_OES : Z := 0x898F.
Definition GGL_MAX_VIEWPORT_DIMS : Z := 4096.
Definition GGL_MAX_TEXTURE_SIZE : Z := 4096.
Definition GGL_MAX_ALIASED_POINT_SIZE : Z := 0x7FFFFFF.
Definition GGL_MAX_SMOOTH_POINT_SIZE : Z := 2048.
Definition GGL_MAX_SMOOTH_LINE_WIDTH : Z := 2048.
Definition OGLES_NUM_COMPRESSED_TEXTURE_FORMATS : Z := 10.
Definition OGLES_MAX_CLIP_PLANES : Z := 6.

Section State.
  Context {NAN : Nans}.
  Variable undefined : Z.
  Implicit Types c : ogles_context_t.

(** ** Enables *)

Definition ogles_invalidate_perspective c : ogles_context_t := c <| oc_pick := None |>.

(** The capabilities that are the rasterizer's. *)
Definition raster_cap (cap : Z) : bool :=
  (cap =? GGL_BLEND) || (cap =? GGL_SCISSOR_TEST) || (cap =? GGL_ALPHA_TEST) || (cap =? GGL_COLOR_LOGIC_OP) ||
  (cap =? GGL_DITHER) || (cap =? GGL_STENCIL_TEST) || (cap =? GGL_TEXTURE_2D).
Definition ignored_cap (cap : Z) : bool :=
  (cap =? GL_MULTISAMPLE) || (cap =? GL_SAMPLE_ALPHA_TO_COVERAGE) || (cap =? GL_SAMPLE_ALPHA_TO_ONE) ||
  (cap =? GL_SAMPLE_COVERAGE).
Definition light_cap (cap : Z) : bool :=
  ((GL_LIGHT0 <=? cap) && (cap <? GL_LIGHT0 + OGLES_MAX_LIGHTS)) || (cap =? GL_LIGHTING) ||
  (cap =? GL_COLOR_MATERIAL) || (cap =? GL_NORMALIZE) || (cap =? GL_RESCALE_NORMAL).

(** [enabled] is 0 or 1. *)
Definition gl_enable_disable (cap enabled : Z) c : option ogles_context_t :=
  if light_cap cap then Some (on_light (enable_light cap enabled) c)
  else if cap =? GL_POINT_SMOOTH then Some (c <| oc_point ; pt_smooth := enabled |>)
  else if cap =? GL_LINE_SMOOTH then Some (c <| oc_line ; ln_smooth := enabled |>)
  else if cap =? GL_POLYGON_OFFSET_FILL then Some (c <| oc_polygonOffset ; po_enable := enabled |>)
  else if cap =? GL_CULL_FACE then Some (c <| oc_cull ; cu_enable := enabled |>)
  else if (GL_CLIP_PLANE0 <=? cap) && (cap <=? GL_CLIP_PLANE5) then
    let n := cap - GL_CLIP_PLANE0 in
    Some (ogles_invalidate_perspective
            (c <| oc_planes_enable ::= fun en => Z.lor (clear_bits (Z.shiftl 1 n) en) (Z.shiftl enabled n) |>))
  else if (cap =? GGL_FOG) || (cap =? GGL_DEPTH_TEST) then
    raster (C_enableDisable cap enabled) (ogles_invalidate_perspective c)
  else if raster_cap cap then raster (C_enableDisable cap enabled) c
  else if cap =? GL_TEXTURE_EXTERNAL_OES then raster (C_enableDisable GGL_TEXTURE_2D enabled) c
  else if ignored_cap cap then Some c
  else Some (gl_error GGL_INVALID_ENUM c).
Definition glEnable (cap : Z) : ogles_context_t -> option ogles_context_t := gl_enable_disable cap 1.
Definition glDisable (cap : Z) : ogles_context_t -> option ogles_context_t := gl_enable_disable cap 0.

(** ** State *)

Definition stencilop_valid (op : Z) : bool :=
  (op =? GL_KEEP) || (op =? GGL_ZERO) || (op =? GGL_REPLACE) || (op =? GL_INCR) || (op =? GL_DECR) || (op =? GGL_INVERT).
Definition glStencilFunc (func ref mask : Z) c : ogles_context_t :=
  if (func <? GGL_NEVER) || (GGL_ALWAYS <? func) then gl_error GGL_INVALID_ENUM c else c.
Definition glStencilOp (fail zfail zpass : Z) c : ogles_context_t :=
  if stencilop_valid fail && stencilop_valid zfail && stencilop_valid zpass then c else gl_error GGL_INVALID_ENUM c.

Definition glCullFace (mode : Z) c : ogles_context_t :=
  let c := if (mode =? GL_FRONT) || (mode =? GL_BACK) || (mode =? GL_FRONT_AND_BACK) then c
           else gl_error GGL_INVALID_ENUM c in
  c <| oc_cull ; cu_cullFace := mode |>.
Definition glFrontFace (mode : Z) c : ogles_context_t :=
  if (mode =? GL_CW) || (mode =? GL_CCW) then c <| oc_cull ; cu_frontFace := mode |> else gl_error GGL_INVALID_ENUM c.
Definition glHint (target mode : Z) c : option ogles_context_t :=
  if (target =? GL_FOG_HINT) || (target =? GL_GENERATE_MIPMAP_HINT) || (target =? GL_LINE_SMOOTH_HINT) then Some c
  else if target =? GL_POINT_SMOOTH_HINT then
    raster (C_enableDisable GGL_POINT_SMOOTH_NICE (if mode =? GL_NICEST then 1 else 0)) c
  else if target =? GL_PERSPECTIVE_CORRECTION_HINT then
    Some (c <| oc_perspective := if mode =? GL_NICEST then 1 else 0 |>)
  else Some (gl_error GGL_INVALID_ENUM c).

Definition glPointSizex (size : Z) c : ogles_context_t :=
  if size <=? 0 then gl_error GGL_INVALID_ENUM c else c <| oc_point ; pt_size := TRI_FROM_FIXED size |>.
Definition glPointSize (size : Z) c : ogles_context_t :=
  if fle size 0 then gl_error GGL_INVALID_ENUM c else c <| oc_point ; pt_size := TRI_FROM_FIXED (gglFloatToFixed size) |>.
Definition glLineWidthx (width : Z) c : ogles_context_t :=
  if width <=? 0 then gl_error GGL_INVALID_ENUM c else c <| oc_line ; ln_width := TRI_FROM_FIXED width |>.
Definition glLineWidth (width : Z) c : ogles_context_t :=
  if fle width 0 then gl_error GGL_INVALID_ENUM c else c <| oc_line ; ln_width := TRI_FROM_FIXED (gglFloatToFixed width) |>.

Definition glColorMask (r g b a : Z) : ogles_context_t -> option ogles_context_t := raster (C_colorMask r g b a).
Definition glDepthMask (flag : Z) : ogles_context_t -> option ogles_context_t := raster (C_depthMask flag).
Definition glStencilMask (mask : Z) : ogles_context_t -> option ogles_context_t := raster (C_stencilMask mask).
Definition glDepthFunc (func : Z) : ogles_context_t -> option ogles_context_t := raster (C_depthFunc func).
Definition glLogicOp (opcode : Z) : ogles_context_t -> option ogles_context_t := raster (C_logicOp opcode).
Definition glAlphaFuncx (func ref : Z) : ogles_context_t -> option ogles_context_t := raster (C_alphaFuncx func ref).
Definition glAlphaFunc (func ref : Z) : ogles_context_t -> option ogles_context_t := glAlphaFuncx func (gglFloatToFixed ref).
Definition glBlendFunc (sfactor dfactor : Z) : ogles_context_t -> option ogles_context_t :=
  raster (C_blendFunc sfactor dfactor).

Definition glClearColorx (r g b a : Z) c : ogles_context_t := c <| oc_rasterizer ::= ggl_clearColorx r g b a |>.
Definition glClearColor (r g b a : Z) : ogles_context_t -> ogles_context_t :=
  glClearColorx (gglFloatToFixed r) (gglFloatToFixed g) (gglFloatToFixed b) (gglFloatToFixed a).
Definition glClearDepthx (depth : Z) c : ogles_context_t := c <| oc_rasterizer ::= ggl_clearDepthx depth |>.
Definition glClearDepthf (depth : Z) : ogles_context_t -> ogles_context_t := glClearDepthx (gglFloatToFixed depth).
Definition glClearStencil (s : Z) c : ogles_context_t := c <| oc_rasterizer ::= ggl_clearStencil s |>.
(** With the memory of the buffers. *)
Definition glClear (mask : Z) (cm : ogles_context_t * mem) : option (ogles_context_t * mem) :=
  '(r, m) ← ggl_clear mask (oc_rasterizer (fst cm), snd cm); Some ((fst cm) <| oc_rasterizer := r |>, m).

(** ** Vertex attributes and clip planes *)

Definition glColor4x (r g b a : Z) c : ogles_context_t :=
  c <| oc_current ::= fun cur =>
    cur <| cur_color := mk_vec4 r g b a |> <| cur_colorClamped := clamp_color (mk_vec4 r g b a) |> |>.
Definition glColor4f (r g b a : Z) : ogles_context_t -> ogles_context_t :=
  glColor4x (gglFloatToFixed r) (gglFloatToFixed g) (gglFloatToFixed b) (gglFloatToFixed a).
Definition glNormal3x (x y z : Z) c : ogles_context_t := c <| oc_current ; cur_normal := [x; y; z] |>.
Definition glNormal3f (x y z : Z) : ogles_context_t -> ogles_context_t :=
  glNormal3x (gglFloatToFixed x) (gglFloatToFixed y) (gglFloatToFixed z).

Definition clipPlanex (plane : Z) (equ : vec4_t) c : ogles_context_t :=
  let p := s32 (plane - GL_CLIP_PLANE0) in
  if GL_CLIP_PLANE5 - GL_CLIP_PLANE0 <? u32 p then gl_error GGL_INVALID_ENUM c
  else
    let c := ogles_validate_transform MVIT (c <| oc_planes ::= <[Z.to_nat p := equ]> |>) in
    let mvit := ts_mvit4 (oc_transforms c) in
    c <| oc_planes ::= <[Z.to_nat p := run_point (tr_point4 mvit) (tr_m mvit) equ]> |>.
Definition glClipPlanex : Z -> vec4_t -> ogles_context_t -> ogles_context_t := clipPlanex.
Definition glClipPlanef (plane : Z) (equ : vec4_t) : ogles_context_t -> ogles_context_t := clipPlanex plane (fixed4 equ).

(** ** Errors *)

Definition glGetError c : Z * ogles_context_t :=
  if negb (oc_error c =? 0) then (oc_error c, c <| oc_error := 0 |>)
  else
    let e := c_error (oc_rasterizer c) in
    if negb (e =? 0) then (e, c <| oc_rasterizer ; c_error := 0 |>) else (GGL_NO_ERROR, c).

(** ** Queries

    What they return or store; nothing for a name they do not know. *)

Definition gVendorString : string := "Android".
Definition gRendererString : string := "Android PixelFlinger 1.4".
Definition gVersionString : string := "OpenGL ES-CM 1.0".
Definition gExtensionsString : string :=
  "GL_OES_byte_coordinates GL_OES_fixed_point GL_OES_single_precision GL_OES_read_format " ++
  "GL_OES_compressed_paletted_texture GL_OES_draw_texture GL_OES_matrix_get GL_OES_query_matrix " ++
  "GL_OES_EGL_image GL_ARB_texture_compression GL_ARB_texture_non_power_of_two " ++
  "GL_ANDROID_user_clip_plane GL_ANDROID_vertex_buffer_object GL_ANDROID_generate_mipmap ".

Definition get_string (name : Z) : option string :=
  if name =? GL_VENDOR then Some gVendorString
  else if name =? GL_RENDERER then Some gRendererString
  else if name =? GL_VERSION then Some gVersionString
  else if name =? GL_EXTENSIONS then Some gExtensionsString
  else None.
Definition glGetString (name : Z) c : option string * ogles_context_t :=
  match get_string name with Some s => (Some s, c) | None => (None, gl_error GGL_INVALID_ENUM c) end.

(** Width of component [i] of the color buffer. *)
Definition color_bits (i : Z) c : Z :=
  let f := nth (Z.to_nat (sf_format (fb_color (st_buffers (c_state (oc_rasterizer c)))))) gPixelFormatInfos no_format in
  f_h f i - f_l f i.

(** The texture stack is that of the active unit; there is none for unit 2. *)
Definition get_integerv (pname : Z) c : option (list Z) :=
  let named name := pname =? name in
  if named GL_ALIASED_POINT_SIZE_RANGE || named GL_ALIASED_LINE_WIDTH_RANGE then Some [0; GGL_MAX_ALIASED_POINT_SIZE]
  else if named GL_ALPHA_BITS then Some [color_bits 0 c]
  else if named GL_RED_BITS then Some [color_bits 1 c]
  else if named GL_GREEN_BITS then Some [color_bits 2 c]
  else if named GL_BLUE_BITS then Some [color_bits 3 c]
  else if named GL_COMPRESSED_TEXTURE_FORMATS then Some (map (fun i => GL_PALETTE4_RGB8_OES + i) (zrange OGLES_NUM_COMPRESSED_TEXTURE_FORMATS))
  else if named GL_DEPTH_BITS then
    Some [if sf_format (fb_depth (st_buffers (c_state (oc_rasterizer c)))) =? 0 then 16 else 0]
  else if named GL_IMPLEMENTATION_COLOR_READ_FORMAT_OES then Some [GGL_RGB]
  else if named GL_IMPLEMENTATION_COLOR_READ_TYPE_OES then Some [GL_UNSIGNED_SHORT_5_6_5]
  else if named GL_MAX_LIGHTS then Some [OGLES_MAX_LIGHTS]
  else if named GL_MAX_CLIP_PLANES then Some [OGLES_MAX_CLIP_PLANES]
  else if named GL_MAX_MODELVIEW_STACK_DEPTH then Some [OGLES_MODELVIEW_STACK_DEPTH]
  else if named GL_MAX_PROJECTION_STACK_DEPTH then Some [OGLES_PROJECTION_STACK_DEPTH]
  else if named GL_MAX_TEXTURE_STACK_DEPTH then Some [OGLES_TEXTURE_STACK_DEPTH]
  else if named GL_MAX_TEXTURE_SIZE then Some [GGL_MAX_TEXTURE_SIZE]
  else if named GL_MAX_TEXTURE_UNITS then Some [GGL_TEXTURE_UNIT_COUNT]
  else if named GL_MAX_VIEWPORT_DIMS then Some [GGL_MAX_VIEWPORT_DIMS; GGL_MAX_VIEWPORT_DIMS]
  else if named GL_NUM_COMPRESSED_TEXTURE_FORMATS then Some [OGLES_NUM_COMPRESSED_TEXTURE_FORMATS]
  else if named GL_SMOOTH_LINE_WIDTH_RANGE then Some [0; GGL_MAX_SMOOTH_LINE_WIDTH]
  else if named GL_SMOOTH_POINT_SIZE_RANGE then Some [0; GGL_MAX_SMOOTH_POINT_SIZE]
  else if named GL_STENCIL_BITS then Some [0]
  else if named GL_SUBPIXEL_BITS then Some [GGL_SUBPIXEL_BITS]
  else if named GL_MODELVIEW_MATRIX_FLOAT_AS_INT_BITS_OES then Some (ms_top (ts_modelview (oc_transforms c)))
  else if named GL_PROJECTION_MATRIX_FLOAT_AS_INT_BITS_OES then Some (ms_top (ts_projection (oc_transforms c)))
  else if named GL_TEXTURE_MATRIX_FLOAT_AS_INT_BITS_OES then
    Some (from_option ms_top [] (ts_texture (oc_transforms c) !! Z.to_nat (tx_active (oc_textures c))))
  else None.
Definition glGetIntegerv (pname : Z) c : option (list Z) * ogles_context_t :=
  match get_integerv pname c with Some params => (Some params, c) | None => (None, gl_error GGL_INVALID_ENUM c) end.
Definition glGetFloatv (pname : Z) c : option (list Z) :=
  if pname =? GL_MODELVIEW_MATRIX then Some (ms_top (ts_modelview (oc_transforms c)))
  else if pname =? GL_PROJECTION_MATRIX then Some (ms_top (ts_projection (oc_transforms c)))
  else None.

(** ** Lights and fog

    [GL_POSITION] needs the modelview transformation, the fog color goes to the
    rasterizer. *)

Definition light_transform c : transform_t := ms_transform (ts_modelview (oc_transforms c)).
Definition validate_position (i pname : Z) c : ogles_context_t :=
  if (u32 (i - GL_LIGHT0) <? OGLES_MAX_LIGHTS) && (pname =? GL_POSITION)
  then ogles_validate_transform MODELVIEW c else c.
Definition gl_Lightxv (i pname : Z) (params : vec4_t) c : ogles_context_t :=
  let c := validate_position i pname c in
  on_light (glLightxv undefined (light_transform c) i pname params) c.
Definition gl_Lightfv (i pname : Z) (params : vec4_t) c : ogles_context_t :=
  let c := validate_position i pname c in
  on_light (glLightfv undefined (light_transform c) i pname params) c.
Definition gl_Fogxv (pname : Z) (params : vec4_t) c : option ogles_context_t :=
  if pname =? GL_FOG_COLOR then raster (C_fogColor3xv (vec4_items params)) c
  else Some (on_light (glFogxv undefined pname params) c).
Definition gl_Fogfv (pname : Z) (params : vec4_t) c : option ogles_context_t :=
  if pname =? GL_FOG_COLOR then raster (C_fogColor3xv (vec4_items (fixed4 params))) c
  else Some (on_light (glFogfv undefined pname params) c).

Definition exec_gl_light (cmd : light_command) c : option ogles_context_t :=
  match cmd with
  | C_Lightxv _ i pname params => Some (gl_Lightxv i pname params c)
  | C_Fogxv pname params => gl_Fogxv pname params c
  | cmd => Some (on_light (exec_light undefined cmd) c)
  end.
End State.

(** ** The commands together

    The commands on floats are these on converted arguments. *)
Inductive gl_command :=
  | G_matrix (cmd : matrix_command) | G_array (cmd : array_command) | G_light (cmd : light_command)
  | G_Enable (cap : Z) | G_Disable (cap : Z)
  | G_StencilFunc (func ref mask : Z) | G_StencilOp (fail zfail zpass : Z)
  | G_CullFace (mode : Z) | G_FrontFace (mode : Z) | G_Hint (target mode : Z)
  | G_PointSizex (size : Z) | G_LineWidthx (width : Z)
  | G_ColorMask (r g b a : Z) | G_DepthMask (flag : Z) | G_StencilMask (mask : Z) | G_DepthFunc (func : Z)
  | G_LogicOp (opcode : Z) | G_AlphaFuncx (func ref : Z) | G_BlendFunc (sfactor dfactor : Z)
  | G_ClearColorx (r g b a : Z) | G_ClearDepthx (depth : Z) | G_ClearStencil (s : Z)
  | G_Color4x (r g b a : Z) | G_Normal3x (x y z : Z) | G_ClipPlanex (plane : Z) (equ : vec4_t)
  | G_PolygonOffsetx (factor units : Z).

Section Exec.
  Context {NAN : Nans}.
  Variable undefined : Z.

Definition exec_gl (cmd : gl_command) (c : ogles_context_t) : option ogles_context_t :=
  match cmd with
  | G_matrix cmd => exec_matrix cmd c
  | G_array cmd => Some (on_arrays (exec_array cmd) c)
  | G_light cmd => exec_gl_light undefined cmd c
  | G_Enable cap => glEnable cap c
  | G_Disable cap => glDisable cap c
  | G_StencilFunc func ref mask => Some (glStencilFunc func ref mask c)
  | G_StencilOp fail zfail zpass => Some (glStencilOp fail zfail zpass c)
  | G_CullFace mode => Some (glCullFace mode c)
  | G_FrontFace mode => Some (glFrontFace mode c)
  | G_Hint target mode => glHint target mode c
  | G_PointSizex size => Some (glPointSizex size c)
  | G_LineWidthx width => Some (glLineWidthx width c)
  | G_ColorMask r g b a => glColorMask r g b a c
  | G_DepthMask flag => glDepthMask flag c
  | G_StencilMask mask => glStencilMask mask c
  | G_DepthFunc func => glDepthFunc func c
  | G_LogicOp op => glLogicOp op c
  | G_AlphaFuncx func ref => glAlphaFuncx func ref c
  | G_BlendFunc s d => glBlendFunc s d c
  | G_ClearColorx r g b a => Some (glClearColorx r g b a c)
  | G_ClearDepthx depth => Some (glClearDepthx depth c)
  | G_ClearStencil s => Some (glClearStencil s c)
  | G_Color4x r g b a => Some (glColor4x r g b a c)
  | G_Normal3x x y z => Some (glNormal3x x y z c)
  | G_ClipPlanex plane equ => Some (glClipPlanex plane equ c)
  | G_PolygonOffsetx factor units => Some (glPolygonOffsetx factor units c)
  end.
Fixpoint exec_gls (cmds : list gl_command) (c : ogles_context_t) : option ogles_context_t :=
  match cmds with [] => Some c | cmd :: cmds => c ← exec_gl cmd c; exec_gls cmds c end.

(** ** Errors *)

(** The error is as it was, or nothing but the error changes. *)
Definition refused_whole (c c' : ogles_context_t) : Prop := oc_error c' = oc_error c \/ exists e, c' = gl_error e c.

Lemma refused_same c c' : oc_error c' = oc_error c -> refused_whole c c'.
Proof. by left. Qed.
Lemma refused_error e c : refused_whole c (gl_error e c).
Proof. right. by exists e. Qed.
Lemma raster_error cmd c c' : raster cmd c = Some c' -> oc_error c' = oc_error c.
Proof. by intros (r & _ & [= <-])%bind_Some. Qed.
Lemma refused_raster cmd c c' : raster cmd c = Some c' -> refused_whole c c'.
Proof. intros H%raster_error. by left. Qed.

Lemma on_arrays_refused e c : on_arrays (ogles_error e) c = gl_error e c.
Proof.
  unfold on_arrays, gl_error, ogles_error. destruct c as [? am]. cbn. destruct (_ =? _); by destruct am.
Qed.
Lemma on_light_refused e c : on_light (light_error e) c = gl_error e c.
Proof.
  unfold on_light, gl_error, light_error. destruct c as [? ? ? ? ? ? ? ? ? ts]. cbn.
  destruct (_ =? _); by destruct ts.
Qed.

Lemma on_arrays_whole f c :
  (forall am, am_error (f am) = am_error am \/ exists e, f am = ogles_error e am) -> refused_whole c (on_arrays f c).
Proof.
  intros H. destruct (H ((oc_arrays c) <| am_error := oc_error c |>)) as [E|[e E]].
  - left. exact E.
  - right. exists e. rewrite <-on_arrays_refused. unfold on_arrays. by rewrite E.
Qed.
Lemma on_light_whole f c :
  (forall st, ls_error (f st) = ls_error st \/ exists e, f st = light_error e st) -> refused_whole c (on_light f c).
Proof.
  intros H. destruct (H (light_state_of c)) as [E|[e E]].
  - left. exact E.
  - right. exists e. rewrite <-on_light_refused. unfold on_light. by rewrite E.
Qed.

(** Every branch of a command of the arrays or of the lighting. *)
Lemma exec_array_whole cmd am : am_error (exec_array cmd am) = am_error am \/ exists e, exec_array cmd am = ogles_error e am.
Proof.
  destruct cmd as [| | | | | | |names|]; cbn [exec_array];
    unfold glVertexPointer, glColorPointer, glNormalPointer, glTexCoordPointer, enableDisableClientState,
      glClientActiveTexture, glBindBuffer; cbv zeta; repeat case_match; try (by left); try (right; by eexists).
  left. unfold glDeleteBuffers. revert am. induction names as [|n names IH]; intros am; [done|]. cbn.
  rewrite IH. unfold unbind_buffer. by destruct (n =? 0).
Qed.
Lemma lightx_whole i pname param st :
  ls_error (lightx i pname param st) = ls_error st \/ exists e, lightx i pname param st = light_error e st.
Proof. unfold lightx. cbv zeta. repeat case_match; try (by left); right; by eexists. Qed.
Lemma fogx_whole pname param st :
  ls_error (fogx undefined pname param st) = ls_error st \/ exists e, fogx undefined pname param st = light_error e st.
Proof. unfold fogx. cbv zeta. repeat case_match; try (by left); right; by eexists. Qed.
Lemma lightxv_whole mv i pname params st :
  ls_error (lightxv undefined mv i pname params st) = ls_error st \/
  exists e, lightxv undefined mv i pname params st = light_error e st.
Proof.
  unfold lightxv. cbv zeta. repeat (case_match; try (by left); try (right; by eexists)). apply lightx_whole.
Qed.
#[local] Hint Resolve lightx_whole fogx_whole lightxv_whole : core.
Lemma exec_light_whole cmd st :
  ls_error (exec_light undefined cmd st) = ls_error st \/ exists e, exec_light undefined cmd st = light_error e st.
Proof.
  destruct cmd; cbn [exec_light]; unfold glLightx, glLightxv, glFogx, glFogxv, glShadeModel, glLightModelx,
    glLightModelxv, lightModelx, glMaterialx, materialx, glMaterialxv, glMaterialfv, material_set, enable_light; cbv zeta; auto;
    repeat (case_match; try (by left); try (right; by eexists)); auto.
Qed.

Create HintDb whole.
#[local] Hint Resolve refused_error refused_raster : whole.

Lemma edit_current_whole dirty f c c' : edit_current dirty f c = Some c' -> refused_whole c c'.
Proof. intros (ms & _ & [= <-])%bind_Some. by left. Qed.
Lemma push_or_pop_whole op c c' : push_or_pop op c = Some c' -> refused_whole c c'.
Proof.
  intros (ms & _ & H)%bind_Some. destruct (op ms) as [err ms']. destruct (negb (err =? 0)); injection H as <-; [auto with whole|by left].
Qed.
Lemma scissor_whole x y w h c c' : ogles_scissor x y w h c = Some c' -> refused_whole c c'.
Proof.
  unfold ogles_scissor. destruct (_ <? 0); [intros [= <-]; auto with whole|].
  intros E%raster_error. left. exact E.
Qed.
Lemma validate_transform_error want c : oc_error (ogles_validate_transform want c) = oc_error c.
Proof.
  unfold ogles_validate_transform. destruct (_ =? 0); [done|].
  by destruct (Z.land _ MVP =? 0), (Z.land _ MVUI =? 0).
Qed.
#[local] Hint Resolve edit_current_whole push_or_pop_whole scissor_whole : whole.

(** All but [M_surfaceport], which is not a command of the API. *)
Definition api_matrix (cmd : matrix_command) : Prop := match cmd with M_surfaceport _ _ => False | _ => True end.
Lemma exec_matrix_whole cmd c c' : api_matrix cmd -> exec_matrix cmd c = Some c' -> refused_whole c c'.
Proof.
  intros Ha H. destruct cmd; cbn [exec_matrix] in H; try (injection H as <-); eauto with whole.
  - unfold glMatrixMode. repeat case_match; auto with whole; by left.
  - unfold glFrustumf, frustumf in H. case_match; [injection H as <-; auto with whole|eauto with whole].
  - unfold glOrthof, orthof in H. case_match; [injection H as <-; auto with whole|eauto with whole].
  - unfold glViewport, ogles_viewport. case_match; [auto with whole|by left].
  - by left.
  - done.
  - left. apply validate_transform_error.
Qed.

Lemma gl_enable_disable_whole cap enabled c c' : gl_enable_disable cap enabled c = Some c' -> refused_whole c c'.
Proof.
  unfold gl_enable_disable. case_match; [intros [= <-]; apply on_light_whole, (exec_light_whole (C_Enable cap enabled))|].
  repeat (case_match; [first [by intros [= <-]; left|by intros ?%raster_error; left]|]).
  intros [= <-]. auto with whole.
Qed.

Lemma validate_position_whole i pname f c :
  (forall st, ls_error (f st) = ls_error st \/ exists e, f st = light_error e st) ->
  (u32 (i - GL_LIGHT0) < OGLES_MAX_LIGHTS -> pname = GL_POSITION -> forall st, ls_error (f st) = ls_error st) ->
  refused_whole c (on_light f (validate_position i pname c)).
Proof.
  intros Hw Hp. unfold validate_position.
  destruct (Z.ltb_spec (u32 (i - GL_LIGHT0)) OGLES_MAX_LIGHTS), (Z.eqb_spec pname GL_POSITION); cbn [andb]; try by apply on_light_whole.
  left. set (c1 := ogles_validate_transform MODELVIEW c). transitivity (oc_error c1); [|apply validate_transform_error].
  change (ls_error (f (light_state_of c1)) = oc_error c1). by rewrite Hp.
Qed.

Lemma exec_gl_light_whole cmd c c' : exec_gl_light undefined cmd c = Some c' -> refused_whole c c'.
Proof.
  intros H. assert (c' = on_light (exec_light undefined cmd) c -> refused_whole c c') as Hl
    by (intros ->; apply on_light_whole, exec_light_whole).
  destruct cmd as [| | | |mv i pname params| | | | |pname params| |]; cbn [exec_gl_light] in H; try (injection H as <-); auto.
  - apply validate_position_whole; [intros; apply lightxv_whole|]. intros Hi -> st. unfold glLightxv, lightxv. cbv zeta.
    by destruct (Z.leb_spec OGLES_MAX_LIGHTS (u32 (i - GL_LIGHT0))); [lia|].
  - unfold gl_Fogxv in H. case_match; [eauto with whole|]. injection H as <-. auto.
Qed.
#[local] Hint Resolve exec_matrix_whole gl_enable_disable_whole exec_gl_light_whole : whole.

(** All but [glCullFace], which stores what it refuses. *)
Definition keeps_state (cmd : gl_command) : Prop :=
  match cmd with G_matrix cmd => api_matrix cmd | G_CullFace _ => False | _ => True end.

Lemma exec_gl_whole cmd c c' : keeps_state cmd -> exec_gl cmd c = Some c' -> refused_whole c c'.
Proof.
  intros Hk H. destruct cmd; cbn [exec_gl] in H; try done; try (injection H as <-); eauto with whole; try by left.
  - apply on_arrays_whole, exec_array_whole.
  - unfold glStencilFunc. case_match; [auto with whole|by left].
  - unfold glStencilOp. case_match; [by left|auto with whole].
  - unfold glFrontFace. case_match; [by left|auto with whole].
  - unfold glHint in H. repeat case_match; try (injection H as <-); eauto with whole; by left.
  - unfold glPointSizex. case_match; [auto with whole|by left].
  - unfold glLineWidthx. case_match; [auto with whole|by left].
  - unfold glClipPlanex, clipPlanex. cbv zeta. case_match; [auto with whole|]. left.
    change (oc_error (ogles_validate_transform MVIT (c <| oc_planes ::= <[Z.to_nat (s32 (plane - GL_CLIP_PLANE0)) := equ]> |>)) = oc_error c).
    by rewrite validate_transform_error.
Qed.

Lemma get_error_none c : fst (glGetError c) = GGL_NO_ERROR <-> oc_error c = GGL_NO_ERROR /\ c_error (oc_rasterizer c) = GGL_NO_ERROR.
Proof.
  unfold glGetError, GGL_NO_ERROR.
  by destruct (Z.eqb_spec (oc_error c) 0), (Z.eqb_spec (c_error (oc_rasterizer c)) 0); cbn [negb fst]; intuition.
Qed.
(** Each of the two errors is read once. *)
Lemma get_error_own c : oc_error (snd (glGetError c)) = GGL_NO_ERROR.
Proof.
  unfold glGetError, GGL_NO_ERROR. destruct (Z.eqb_spec (oc_error c) 0); [|done]. by destruct (Z.eqb_spec (c_error (oc_rasterizer c)) 0).
Qed.
Lemma get_error_drains c : 
  oc_error (snd (glGetError (snd (glGetError c)))) = GGL_NO_ERROR /\
  c_error (oc_rasterizer (snd (glGetError (snd (glGetError c))))) = GGL_NO_ERROR.
Proof.
  split; [apply get_error_own|]. pose proof (get_error_own c) as E. set (c1 := snd (glGetError c)) in *. unfold glGetError.
  unfold GGL_NO_ERROR in E. rewrite E. cbn [Z.eqb negb]. by destruct (Z.eqb_spec (c_error (oc_rasterizer c1)) 0).
Qed.

End Exec.

(** A refused face is stored all the same. *)
Example cull_face_stored {NAN : Nans} :
  (fun c => (oc_error c, cu_cullFace (oc_cull c))) ∘ glCullFace GL_CW <$> ogles_init example_stacks 0x100 =
  Some (GGL_INVALID_ENUM, GL_CW).
Proof. reflexivity. Qed.

#[local] Instance quiet_nan : Nans := {| nan_bits := 0x7FC00000 |}.
