(* ===== verification/Texture.v ===== *)
(** * Textures and their units

    Models swrender/texture.cpp up to the pixels: the texture units of a
    context, their validation, the commands on names and parameters.  The texture
    objects are those of the manager ([TextureManager.v]), which counts the
    references that the units and the contexts hold.

    [texture_references] shows that any run of commands of a context keeps
    exactly the objects that have a name or are bound to a unit, the default
    object among them, and that no unit is left with an object that is gone.
    Out-of-bounds accesses are [None]; [glActiveTexture] and [glMultiTexCoord4x]
    make them possible for unit 2 ([unit_2_accepted]). *)

From stdpp Require Import gmap.
From S2P Require Import Prelude SharedBuffer Vector VectorSpec Sequence SortedVector KeyedVector Tokenizer TextureObjects TextureManager Fixed Names Context PixelFormat Surface PixelFlinger Float Vertex Clipping Arrays Light Lerp Primitives Matrix OGLES.

#[local] Open Scope Z_scope.

Definition GL_PACK_ALIGNMENT : Z := 0x0D05.
Definition GL_UNPACK_ALIGNMENT : Z := 0x0CF5.
Definition GL_TEXTURE_2D : Z := 0x0DE1.
Definition GL_TEXTURE_EXTERNAL : Z := 0x8D65.
Definition GL_GENERATE_MIPMAP : Z := 0x8191.
Definition GL_TEXTURE_CROP_RECT_OES : Z := 0x8B9D.

Section Units.
  Implicit Types c : ogles_context_t.

(** ** The units *)

Definition get_unit (i : nat) c : option texture_unit_t := tx_tmu (oc_textures c) !! i.
Definition set_unit (i : nat) (u : texture_unit_t) c : ogles_context_t :=
  c <| oc_textures ::= fun tx => tx <| tx_tmu ::= <[i := u]> |> |>.
Definition unit_object (i : nat) c : option EGLTextureObject :=
  u ← get_unit i c; '(_, t) ← oc_objects c !! tu_texture u; Some t.
Definition set_unit_object (i : nat) (t : EGLTextureObject) c : option ogles_context_t :=
  u ← get_unit i c; '(r, _) ← oc_objects c !! tu_texture u;
  Some (c <| oc_objects ::= <[tu_texture u := (r, t)]> |>).
Definition active (c : ogles_context_t) : nat := Z.to_nat (tx_active (oc_textures c)).

(** [c->rasterizer.state.texture[i].enable]. *)
Definition unit_on (i : nat) c : bool := negb (tx_enable (texture (oc_rasterizer c) (Z.of_nat i)) =? 0).

Definition invalidate_texture (tmu : nat) c : ogles_context_t :=
  c <| oc_textures ::= fun tx => tx <| tx_tmu ::= alter (fun u => u <| tu_dirty := 0xFF |>) tmu |> |>.

(** What [validate_tmu] tells the rasterizer. *)
Definition tmu_commands (i : nat) (t : EGLTextureObject) : list command :=
  [C_activeTexture (Z.of_nat i); C_bindTexture (surface t);
   C_texGeni GGL_S GGL_TEXTURE_GEN_MODE GGL_AUTOMATIC; C_texGeni GGL_T GGL_TEXTURE_GEN_MODE GGL_AUTOMATIC;
   C_texParameteri GGL_TEXTURE_2D GGL_TEXTURE_WRAP_S (wraps t);
   C_texParameteri GGL_TEXTURE_2D GGL_TEXTURE_WRAP_T (wrapt t);
   C_texParameteri GGL_TEXTURE_2D GGL_TEXTURE_MIN_FILTER (min_filter t);
   C_texParameteri GGL_TEXTURE_2D GGL_TEXTURE_MAG_FILTER (mag_filter t)] ++
  (if mIsComplete t then [] else [C_disable GGL_TEXTURE_2D]).
Definition validate_tmu (i : nat) c : option ogles_context_t :=
  u ← get_unit i c;
  if tu_dirty u =? 0 then Some c
  else
    t ← unit_object i c;
    raster_all (tmu_commands i t) (set_unit i (u <| tu_dirty := 0 |>) c).
Definition validate_unit (i : nat) c : option ogles_context_t := if unit_on i c then validate_tmu i c else Some c.
Definition ogles_validate_texture c : option ogles_context_t :=
  c ← validate_unit 0 c; c ← validate_unit 1 c;
  raster (C_activeTexture (tx_active (oc_textures c))) c.

(** The locks of native buffers are compiled out. *)
Definition ogles_lock_textures c : ogles_context_t := c.
Definition ogles_unlock_textures c : option ogles_context_t := raster (C_activeTexture (tx_active (oc_textures c))) c.

(** ** Commands on the units *)

(** The check of the code accepts the unit past the last one. *)
Definition unit_number (texture : Z) : option Z :=
  let tmu := u32 (texture - GL_TEXTURE0) in if GGL_TEXTURE_UNIT_COUNT <? tmu then None else Some tmu.
Definition glActiveTexture (texture : Z) c : option ogles_context_t :=
  match unit_number texture with
  | None => Some (gl_error GGL_INVALID_ENUM c)
  | Some tmu => raster (C_activeTexture tmu) (c <| oc_textures ; tx_active := tmu |>)
  end.
Definition glMultiTexCoord4x (target s t r q : Z) c : option ogles_context_t :=
  match unit_number target with
  | None => Some (gl_error GGL_INVALID_ENUM c)
  | Some tmu =>
      _ ← cur_texture (oc_current c) !! Z.to_nat tmu;
      Some (c <| oc_current ::= fun cur => cur <| cur_texture ::= <[Z.to_nat tmu := mk_vec4 s t r q]> |> |>)
  end.
Definition glMultiTexCoord4f (target s t r q : Z) : ogles_context_t -> option ogles_context_t :=
  glMultiTexCoord4x target (gglFloatToFixed s) (gglFloatToFixed t) (gglFloatToFixed r) (gglFloatToFixed q).

Definition glPixelStorei (pname param : Z) c : ogles_context_t :=
  if negb (pname =? GL_PACK_ALIGNMENT) && negb (pname =? GL_UNPACK_ALIGNMENT) then gl_error GGL_INVALID_ENUM c
  else if (param <=? 0) || (8 <? param) || negb (Z.land param (param - 1) =? 0) then gl_error GGL_INVALID_VALUE c
  else
    let c := if pname =? GL_PACK_ALIGNMENT then c <| oc_textures ; tx_packAlignment := param |> else c in
    if pname =? GL_UNPACK_ALIGNMENT then c <| oc_textures ; tx_unpackAlignment := param |> else c.

Definition glTexEnvx (target pname param : Z) : ogles_context_t -> option ogles_context_t :=
  raster (C_texEnvi target pname param).
Definition glTexEnvf (target pname param : Z) : ogles_context_t -> option ogles_context_t :=
  raster (C_texEnvi target pname (int_of_float (SF_of_bits param))).
Definition glTexEnvxv (target pname : Z) (params : list Z) : ogles_context_t -> option ogles_context_t :=
  raster (C_texEnvxv target pname params).
Definition glTexEnvfv (target pname : Z) (params : list Z) c : option ogles_context_t :=
  if pname =? GGL_TEXTURE_ENV_MODE then raster (C_texEnvi target pname (int_of_float (SF_of_bits (arg params 0)))) c
  else if pname =? GGL_TEXTURE_ENV_COLOR then
    raster (C_texEnvxv target pname (map (fun i => gglFloatToFixed (arg params i)) [0; 1; 2; 3]%nat)) c
  else Some (gl_error GGL_INVALID_ENUM c).

(** ** Parameters of the active texture *)

Definition texture_target (target : Z) : bool := (target =? GL_TEXTURE_2D) || (target =? GL_TEXTURE_EXTERNAL).
Definition one_of (param : Z) (values : list Z) : bool := existsb (Z.eqb param) values.

(** The object with the parameter, unless it is refused. *)
Definition set_parameter (pname param : Z) (t : EGLTextureObject) : option EGLTextureObject :=
  if pname =? GGL_TEXTURE_WRAP_S then
    if one_of param [GGL_REPEAT; GGL_CLAMP_TO_EDGE] then Some (t <| wraps := param |>) else None
  else if pname =? GGL_TEXTURE_WRAP_T then
    if one_of param [GGL_REPEAT; GGL_CLAMP_TO_EDGE] then Some (t <| wrapt := param |>) else None
  else if pname =? GGL_TEXTURE_MIN_FILTER then
    if one_of param [GGL_NEAREST; GGL_LINEAR; GGL_NEAREST_MIPMAP_NEAREST; GGL_LINEAR_MIPMAP_NEAREST;
                     GGL_NEAREST_MIPMAP_LINEAR; GGL_LINEAR_MIPMAP_LINEAR]
    then Some (t <| min_filter := param |>) else None
  else if pname =? GGL_TEXTURE_MAG_FILTER then
    if one_of param [GGL_NEAREST; GGL_LINEAR] then Some (t <| mag_filter := param |>) else None
  else if pname =? GL_GENERATE_MIPMAP then Some (t <| generate_mipmap := param |>)
  else None.
Definition texParameterx (target pname param : Z) c : option ogles_context_t :=
  if negb (texture_target target) then Some (gl_error GGL_INVALID_ENUM c)
  else
    t ← unit_object (active c) c;
    match set_parameter pname param t with
    | None => Some (gl_error GGL_INVALID_ENUM c)
    | Some t => c ← set_unit_object (active c) t c; Some (invalidate_texture (active c) c)
    end.
Definition glTexParameteriv (target pname : Z) (params : list Z) c : option ogles_context_t :=
  if negb (texture_target target) then Some (gl_error GGL_INVALID_ENUM c)
  else if pname =? GL_TEXTURE_CROP_RECT_OES then
    t ← unit_object (active c) c; set_unit_object (active c) (t <| crop_rect := take 4 params |>) c
  else texParameterx target pname (arg params 0) c.
Definition glTexParameterx (target pname param : Z) : ogles_context_t -> option ogles_context_t := texParameterx target pname param.
Definition glTexParameteri (target pname param : Z) : ogles_context_t -> option ogles_context_t := texParameterx target pname param.
Definition glTexParameterf (target pname param : Z) : ogles_context_t -> option ogles_context_t :=
  texParameterx target pname (int_of_float (SF_of_bits param)).
End Units.

(** ** Names

    A context with the texture manager and the tokens: the names' vector with
    its world, the next fresh address, and the runs of tokens with theirs. *)

#[local] Set Warnings "-clear-no-such-hyp".
#[local] Open Scope state_scope.

Record gl_world (W V TW TV : Type) := mk_gl_world {
  gw_context : ogles_context_t; gw_vector : W; gw_textures : V; gw_next : Z; gw_tokens : TW; gw_tokenizer : TV }.
Arguments mk_gl_world {W V TW TV}.
Arguments gw_context {W V TW TV}.
Arguments gw_vector {W V TW TV}.
Arguments gw_textures {W V TW TV}.
Arguments gw_next {W V TW TV}.
Arguments gw_tokens {W V TW TV}.
Arguments gw_tokenizer {W V TW TV}.

Section Names.
  Context {W V TW TV : Type} `{Ops : SeqOps W V (Z * Z)} `{TOps : SeqOps TW TV Tokenizer.run_t}.
  Abbreviation world := (gl_world W V TW TV).
  Abbreviation glM := (stM world).

Definition with_context (c : ogles_context_t) (g : world) : world :=
  mk_gl_world c (gw_vector g) (gw_textures g) (gw_next g) (gw_tokens g) (gw_tokenizer g).
Definition get_context : glM ogles_context_t := fun g => Some (gw_context g, g).
Definition on_context (f : ogles_context_t -> option ogles_context_t) : glM unit := fun g =>
  c ← f (gw_context g); Some (tt, with_context c g).

(** Calls on the manager and on the tokens. *)
Definition manager_world (g : world) : TextureManager.world W :=
  TextureManager.mk_world (gw_vector g) (oc_objects (gw_context g)) (gw_next g).
Definition on_manager {B} (f : V -> stM (TextureManager.world W) (B * V)) : glM B := fun g =>
  '((x, v), s) ← f (gw_textures g) (manager_world g);
  Some (x, mk_gl_world ((gw_context g) <| oc_objects := TextureManager.m_objects s |>) (TextureManager.m_vector s) v
             (TextureManager.m_next s) (gw_tokens g) (gw_tokenizer g)).
Definition on_tokens {B} (f : TV -> stM TW (B * TV)) : glM B := fun g =>
  '((x, v), s) ← f (gw_tokenizer g) (gw_tokens g);
  Some (x, mk_gl_world (gw_context g) (gw_vector g) (gw_textures g) (gw_next g) s v).

Definition surface_texture (name : Z) : glM Z :=
  on_manager (fun v => let! p := TextureManager.texture v name in hret (p, v)).
Definition surface_createTexture (name : Z) : glM Z := on_manager (fun v => TextureManager.createTexture v name).
Definition surface_replaceTexture (name : Z) : glM Z := on_manager (fun v => TextureManager.replaceTexture v name).
Definition surface_deleteTextures (names : list Z) : glM unit :=
  on_manager (fun v => let! v := TextureManager.deleteTextures v names in hret (tt, v)).
Definition surface_getToken (n : nat) : glM (list Z) := on_tokens (TokenManager.getToken n).
Definition surface_recycleTokens (names : list Z) : glM unit :=
  on_tokens (fun v => let! v := TokenManager.recycleTokens names v in hret (tt, v)).

(** A strong pointer takes a reference and drops it. *)
Definition take_reference (p : Z) : glM unit := on_context (fun c =>
  objects ← tex_incStrong p (oc_objects c); Some (c <| oc_objects := objects |>)).
Definition drop_reference (p : Z) : glM unit := on_context (fun c =>
  objects ← tex_decStrong p (oc_objects c); Some (c <| oc_objects := objects |>)).
Definition default_texture : glM Z :=
  let! c := get_context in
  let p := tx_defaultTexture (oc_textures c) in take_reference p ;;; hret p.

Definition glBindTexture (target texture : Z) : glM unit :=
  if negb (texture_target target) then on_context (fun c => Some (gl_error GGL_INVALID_ENUM c))
  else
    let! tex :=
      if texture =? 0 then default_texture
      else
        let! tex := surface_texture texture in
        if tex =? 0 then surface_createTexture texture else hret tex in
    if negb (texture =? 0) && (tex =? 0) then on_context (fun c => Some (gl_error GGL_OUT_OF_MEMORY c))
    else
      on_context (fun c => bindTextureTmu (active c) texture tex c) ;;; drop_reference tex.

Definition glGenTextures (n : Z) : glM (list Z) :=
  if n <? 0 then on_context (fun c => Some (gl_error GGL_INVALID_VALUE c)) ;;; hret []
  else surface_getToken (Z.to_nat n).

(** The loop over the names for unit [t]. *)
Fixpoint unbind_names (t : nat) (textures : list Z) : glM unit :=
  match textures with
  | [] => hret tt
  | name :: textures =>
      let! c := get_context in
      (match get_unit t c with
       | None => hfail
       | Some u =>
           if negb (name =? 0) && (name =? tu_name u) then
             let! tex := default_texture in
             on_context (bindTextureTmu t 0 tex) ;;; drop_reference tex
           else hret tt
       end) ;;;
      unbind_names t textures
  end.
Definition unbind_unit (textures : list Z) (t : nat) : glM unit :=
  let! c := get_context in
  match get_unit t c with
  | None => hfail
  | Some u => if tu_name u =? 0 then hret tt else unbind_names t textures
  end.
(** [n] is the length of [textures], or negative. *)
Definition glDeleteTextures (n : Z) (textures : list Z) : glM unit :=
  if n <? 0 then on_context (fun c => Some (gl_error GGL_INVALID_VALUE c))
  else
    unbind_unit textures 0 ;;; unbind_unit textures 1 ;;;
    surface_deleteTextures textures ;;; surface_recycleTokens textures.

(** Every unit with the object is invalidated. *)
Definition invalidate_object (p : Z) (c : ogles_context_t) : ogles_context_t :=
  c <| oc_textures ::= fun tx =>
    tx <| tx_tmu ::= map (fun u => if tu_texture u =? p then u <| tu_dirty := 0xFF |> else u) |> |>.
Definition release_unit (i : nat) (c : ogles_context_t) : option ogles_context_t :=
  u ← get_unit i c;
  if tu_texture u =? 0 then Some c
  else objects ← tex_decStrong (tu_texture u) (oc_objects c); Some (c <| oc_objects := objects |>).
Definition put_in_unit (i : nat) (name tex : Z) (c : ogles_context_t) : option ogles_context_t :=
  _ ← get_unit i c;
  objects ← tex_incStrong tex (oc_objects c);
  Some (set_unit i (mk_texture_unit name tex 0xFF) (c <| oc_objects := objects |>)).
(** The caller has a reference to the result. *)
Definition getAndBindActiveTextureObject : glM Z :=
  let! c := get_context in
  match get_unit (active c) c with
  | None => hfail
  | Some u =>
      on_context (release_unit (active c)) ;;;
      let! tex :=
        if tu_name u =? 0 then
          let! tex := default_texture in
          on_context (fun c => Some (invalidate_object tex c)) ;;; hret tex
        else surface_replaceTexture (tu_name u) in
      on_context (put_in_unit (active c) (tu_name u) tex) ;;; hret tex
  end.

Inductive texture_command :=
  | T_ActiveTexture (texture : Z) | T_BindTexture (target texture : Z) | T_GenTextures (n : Z)
  | T_DeleteTextures (n : Z) (textures : list Z) | T_TexParameterx (target pname param : Z)
  | T_TexParameteriv (target pname : Z) (params : list Z) | T_rebind.

(** [T_rebind] is what the commands that give a texture its pixels begin with. *)
Definition exec_texture (cmd : texture_command) : glM unit :=
  match cmd with
  | T_ActiveTexture texture => on_context (glActiveTexture texture)
  | T_BindTexture target texture => glBindTexture target texture
  | T_GenTextures n => glGenTextures n ;;; hret tt
  | T_DeleteTextures n textures => glDeleteTextures n textures
  | T_TexParameterx target pname param => on_context (glTexParameterx target pname param)
  | T_TexParameteriv target pname params => on_context (glTexParameteriv target pname params)
  | T_rebind => let! tex := getAndBindActiveTextureObject in drop_reference tex
  end.
Fixpoint exec_textures (cmds : list texture_command) : glM unit :=
  match cmds with [] => hret tt | cmd :: cmds => exec_texture cmd ;;; exec_textures cmds end.
End Names.

(** ** References *)

Section References.
  Context {W V TW TV : Type} `{Ops : SeqOps W V (Z * Z)} {repr other : W -> V -> list (Z * Z) -> Prop}.
  Context {frame : W -> W -> Prop} `{Laws : !SeqLaws Ops repr other frame}.
  Context `{TOps : SeqOps TW TV Tokenizer.run_t} {trepr tother : TW -> TV -> list Tokenizer.run_t -> Prop}.
  Context {tframe : TW -> TW -> Prop} `{TLaws : !SeqLaws TOps trepr tother tframe}.
  Abbreviation world := (gl_world W V TW TV).
  Implicit Types (g : world) (names : gmap Z Z) (held : list Z) (X : gset Z).
  #[local] Abbreviation represents := (TextureManager.represents (repr := repr)).
  #[local] Abbreviation tracks := (Tokenizer.tracks (repr := trepr)).

(** [held] are the references held by the context and its caller. *)
Definition refs g names held : Prop := represents (manager_world g) (gw_textures g) names held.
(** What the manager leaves alone. *)
Definition binding g : texture_state_t * TW * TV := (oc_textures (gw_context g), gw_tokens g, gw_tokenizer g).

Lemma counted_perm objects next names held held' : held ≡ₚ held' ->
  TextureManager.counted objects next names held -> TextureManager.counted objects next names held'.
Proof.
  intros P [I R N F]. split; try done. intros p. specialize (R p).
  assert (TextureManager.held_count held' p = TextureManager.held_count held p) as ->; [|done].
  unfold TextureManager.held_count. f_equal. symmetry. by apply Permutation_count_occ.
Qed.
Lemma refs_perm g names held held' : held ≡ₚ held' -> refs g names held -> refs g names held'.
Proof. intros P [K C]. split; [done|]. by eapply counted_perm. Qed.

Lemma counted_alive objects next names held p : TextureManager.counted objects next names held ->
  p ∈ held -> exists r t, objects !! p = Some (r, t).
Proof.
  intros [_ R _ _] Hp. specialize (R p). destruct (objects !! p) as [[r t]|]; [by eexists _, _|].
  pose proof (TextureManager.named_range names p). apply list_elem_of_In, (count_occ_In Z.eq_dec) in Hp.
  unfold TextureManager.held_count in R. lia.
Qed.

Lemma counted_take objects next names held p : TextureManager.counted objects next names held ->
  p ∈ held \/ (exists k, names !! k = Some p) ->
  exists objects', tex_incStrong p objects = Some objects' /\ TextureManager.counted objects' next names (p :: held).
Proof.
  intros C Hp. assert (exists r t, objects !! p = Some (r, t)) as (r & t & E).
  { destruct Hp as [Hp|[k Hk]]; [by eapply counted_alive|]. destruct (TextureManager.counted_named _ _ _ _ _ _ C Hk) as (r & t & E & _). eauto. }
  eexists. unfold tex_incStrong. rewrite E. split; [reflexivity|]. by apply TextureManager.counted_inc.
Qed.
Lemma counted_drop objects next names held p : TextureManager.counted objects next names (p :: held) ->
  exists objects', tex_decStrong p objects = Some objects' /\ TextureManager.counted objects' next names held.
Proof.
  intros C. destruct (counted_alive _ _ _ _ p C) as (r & t & E); [left|].
  eexists. unfold tex_decStrong. rewrite E. split; [reflexivity|].
  by apply (TextureManager.counted_release objects next names (p :: held) 0 p).
Qed.

(** A step on the references: it runs, holds [held'] and keeps the bindings. *)
Lemma take_reference_spec g names held p : refs g names held -> p ∈ held \/ (exists k, names !! k = Some p) ->
  exists g', take_reference p g = Some (tt, g') /\ refs g' names (p :: held) /\ binding g' = binding g.
Proof.
  intros [K C] Hp. destruct (counted_take _ _ _ _ p C Hp) as (o & E & C'). eexists. unfold take_reference, on_context.
  cbn in E. rewrite E. split; [reflexivity|]. split; [by split|done].
Qed.
Lemma drop_reference_spec g names held p : refs g names (p :: held) ->
  exists g', drop_reference p g = Some (tt, g') /\ refs g' names held /\ binding g' = binding g.
Proof.
  intros [K C]. destruct (counted_drop _ _ _ _ p C) as (o & E & C'). eexists. unfold drop_reference, on_context.
  cbn in E. rewrite E. split; [reflexivity|]. split; [by split|done].
Qed.

Lemma on_manager_spec {B} (f : V -> stM (TextureManager.world W) (B * V)) g x v' s' names held :
  f (gw_textures g) (manager_world g) = Some ((x, v'), s') -> represents s' v' names held ->
  exists g', on_manager f g = Some (x, g') /\ refs g' names held /\ binding g' = binding g.
Proof.
  intros E R. eexists. unfold on_manager. rewrite E. split; [reflexivity|]. split; [|done].
  unfold refs, manager_world. cbn. by destruct s'.
Qed.

Definition delete_names (tokens : list Z) (names : gmap Z Z) : gmap Z Z :=
  fold_left (fun names k => if k =? 0 then names else delete k names) tokens names.
Lemma delete_names_lookup tokens names k :
  delete_names tokens names !! k = if bool_decide (k ∈ tokens /\ k <> 0) then None else names !! k.
Proof.
  revert names. induction tokens as [|t tokens IH]; intros names; cbn.
  { rewrite bool_decide_false; [done|]. set_solver. }
  rewrite IH. destruct (Z.eqb_spec t 0) as [->|Ht].
  - do 2 case_bool_decide; set_solver.
  - destruct (decide (k = t)) as [->|Hk].
    + rewrite lookup_delete_eq. do 2 case_bool_decide; set_solver.
    + rewrite lookup_delete_ne by done. do 2 case_bool_decide; set_solver.
Qed.
Lemma deleteTextures_exact tokens s v names held : represents s v names held ->
  exists v' s', TextureManager.deleteTextures v tokens s = Some (v', s') /\ represents s' v' (delete_names tokens names) held.
Proof.
  revert s v names. induction tokens as [|k ks IH]; intros s v names R; cbn [TextureManager.deleteTextures].
  - by exists v, s.
  - destruct (TextureManager.deleteTexture_spec s v names held k R) as (v1 & s1 & E & R1). rewrite (hbind_some _ _ _ _ _ E).
    apply (IH s1 v1 _ R1).
Qed.

(** ** What the units hold *)

Definition unit_refs (tx : texture_state_t) : list Z := tx_defaultTexture tx :: map tu_texture (tx_tmu tx).
(** A unit with a name has another object than the default one, under a name
    that exists; it need not be this object, see [stale_unit]. *)
Definition unit_ok names (d : Z) (u : texture_unit_t) : Prop :=
  tu_name u <> 0 -> is_Some (names !! tu_name u) /\ tu_texture u <> d.

Record textures_ok (temps : list Z) g names X : Prop := mk_textures_ok {
  ok_refs : refs g names (temps ++ unit_refs (oc_textures (gw_context g)));
  ok_names k : names !! k <> Some (tx_defaultTexture (oc_textures (gw_context g)));
  ok_units : Forall (unit_ok names (tx_defaultTexture (oc_textures (gw_context g)))) (tx_tmu (oc_textures (gw_context g)));
  ok_two : length (tx_tmu (oc_textures (gw_context g))) = 2%nat;
  ok_active : (active (gw_context g) < 2)%nat;
  ok_tokens : tracks (gw_tokens g) (gw_tokenizer g) X;
  ok_zero : 0 ∈ X }.

(** References change, the units do not. *)
Lemma textures_ok_refs temps temps' g g' names X : textures_ok temps g names X -> binding g' = binding g ->
  refs g' names (temps' ++ unit_refs (oc_textures (gw_context g))) -> textures_ok temps' g' names X.
Proof. intros [R N U T A K Z0] B R'. unfold binding in B. injection B as Et Ek Ev. split; unfold active in *; rewrite ?Et, ?Ek, ?Ev; done. Qed.

Lemma take_ok temps g names X p : textures_ok temps g names X ->
  p ∈ unit_refs (oc_textures (gw_context g)) \/ (exists k, names !! k = Some p) ->
  exists g', take_reference p g = Some (tt, g') /\ textures_ok (p :: temps) g' names X /\ binding g' = binding g.
Proof.
  intros H Hp. destruct (take_reference_spec g names _ p (ok_refs _ _ _ _ H)) as (g' & E & R & B); [set_solver|].
  exists g'. split; [done|]. split; [|done]. by apply (textures_ok_refs temps _ g).
Qed.
Lemma drop_ok temps g names X p : textures_ok (p :: temps) g names X ->
  exists g', drop_reference p g = Some (tt, g') /\ textures_ok temps g' names X /\ binding g' = binding g.
Proof.
  intros H. destruct (drop_reference_spec g names _ p (ok_refs _ _ _ _ H)) as (g' & E & R & B).
  exists g'. split; [done|]. split; [|done]. by apply (textures_ok_refs (p :: temps) _ g).
Qed.

Lemma default_texture_ok temps g names X : textures_ok temps g names X ->
  exists g', default_texture g = Some (tx_defaultTexture (oc_textures (gw_context g)), g') /\
    textures_ok (tx_defaultTexture (oc_textures (gw_context g)) :: temps) g' names X /\ binding g' = binding g.
Proof.
  intros H. destruct (take_ok temps g names X (tx_defaultTexture (oc_textures (gw_context g))) H) as (g' & E & H' & B).
  { left. left. }
  exists g'. split; [|done]. unfold default_texture. rewrite (hbind_some get_context _ g (gw_context g) g eq_refl). cbv zeta.
  by rewrite (hbind_some _ _ _ _ _ E).
Qed.

(** *** One unit *)

Lemma units_perm (l : list texture_unit_t) i u : l !! i = Some u ->
  map tu_texture l ≡ₚ tu_texture u :: map tu_texture (delete i l).
Proof. intros E. by rewrite (delete_Permutation l i u E) at 1. Qed.
Lemma units_insert_perm (l : list texture_unit_t) i u : (i < length l)%nat ->
  map tu_texture (<[i := u]> l) ≡ₚ tu_texture u :: map tu_texture (delete i l).
Proof.
  intros Hi. rewrite (units_perm _ i u) by (apply list_lookup_insert_eq; done).
  assert (delete i (<[i := u]> l) = delete i l) as ->; [|done].
  clear. revert l. induction i as [|i IH]; intros [|x l]; try done. cbn. f_equal. apply IH.
Qed.

(** Everything but unit [i] and the references is the same. *)
Definition other_units (i : nat) g g' : Prop :=
  tx_defaultTexture (oc_textures (gw_context g')) = tx_defaultTexture (oc_textures (gw_context g)) /\
  (gw_tokens g', gw_tokenizer g') = (gw_tokens g, gw_tokenizer g) /\ active (gw_context g') = active (gw_context g) /\
  forall j, j <> i -> get_unit j (gw_context g') = get_unit j (gw_context g).
Lemma other_units_refl i g : other_units i g g.
Proof. done. Qed.
Lemma other_units_binding i g g' : binding g' = binding g -> other_units i g g'.
Proof. unfold binding, other_units, active, get_unit. by intros [= -> -> ->]. Qed.
Lemma other_units_trans i g g1 g2 : other_units i g g1 -> other_units i g1 g2 -> other_units i g g2.
Proof.
  intros (D1 & K1 & A1 & U1) (D2 & K2 & A2 & U2). split; [congruence|]. split; [congruence|]. split; [congruence|].
  intros j Hj. by rewrite U2, U1.
Qed.

Lemma unit_exists temps g names X i : textures_ok temps g names X -> (i < 2)%nat -> exists u, get_unit i (gw_context g) = Some u.
Proof. intros H Hi. apply lookup_lt_is_Some_2. rewrite (ok_two _ _ _ _ H). lia. Qed.
Lemma unit_named temps g names X i u : textures_ok temps g names X -> get_unit i (gw_context g) = Some u ->
  unit_ok names (tx_defaultTexture (oc_textures (gw_context g))) u.
Proof. intros H E. eapply Forall_lookup_1; [apply (ok_units _ _ _ _ H)|exact E]. Qed.

(** A unit gets an object: its reference to the old one goes, one to the new
    one comes. *)
Lemma bindTextureTmu_ok temps g names X i name tex : textures_ok temps g names X -> (i < 2)%nat -> tex ∈ temps ->
  (name <> 0 -> is_Some (names !! name) /\ tex <> tx_defaultTexture (oc_textures (gw_context g))) ->
  exists g' u, on_context (bindTextureTmu i name tex) g = Some (tt, g') /\ textures_ok temps g' names X /\ other_units i g g' /\
    get_unit i (gw_context g') = Some u /\ tu_texture u = tex /\ (tu_name u = name \/ get_unit i (gw_context g) = Some u).
Proof.
  intros H Hi Ht Hn. destruct (unit_exists _ _ _ _ i H Hi) as [u Eu]. unfold on_context, bindTextureTmu.
  unfold get_unit in Eu. rewrite Eu. cbn [mbind option_bind].
  destruct (Z.eqb_spec tex (tu_texture u)) as [->|Hne].
  { eexists _, u. cbn [mbind option_bind]. split; [reflexivity|]. split_and!; try done; [by destruct g|by right]. }
  destruct H as [[K C] N U T A TK Z0]. set (d := tx_defaultTexture _) in *. set (l := tx_tmu _) in *.
  set (rest := temps ++ d :: map tu_texture (delete i l)).
  apply (counted_perm _ _ _ _ (tu_texture u :: rest)) in C.
  2: { unfold rest, unit_refs. fold d l. rewrite (units_perm l i u Eu). solve_Permutation. }
  assert (tu_texture u <> 0) as H0.
  { destruct (counted_alive _ _ _ _ (tu_texture u) C) as (r & t & E); [left|].
    pose proof (TextureManager.ct_fresh _ _ _ _ C _ _ E). lia. }
  destruct (Z.eqb_spec (tu_texture u) 0); [done|].
  destruct (counted_drop _ _ _ _ _ C) as (o1 & E1 & C1). cbn in E1. rewrite E1. cbn [mbind option_bind].
  destruct (counted_take _ _ _ _ tex C1) as (o2 & E2 & C2); [left; unfold rest; set_solver|]. rewrite E2. cbn [mbind option_bind].
  eexists _, (mk_texture_unit name tex 0xFF). split; [reflexivity|]. unfold get_unit. cbn.
  split; [|split; [|split; [apply list_lookup_insert_eq; lia|auto]]].
  - split; unfold active in *; cbn; try done.
    + split; [done|]. eapply counted_perm; [|exact C2]. unfold rest, unit_refs. cbn. fold d l.
      rewrite units_insert_perm by lia. cbn [tu_texture]. solve_Permutation.
    + apply Forall_insert; [done|]. intros Hn'. cbn in *. auto.
    + by rewrite length_insert.
  - unfold other_units, get_unit. cbn. split_and!; try done. intros j Hj. by apply list_lookup_insert_ne.
Qed.

(** *** The commands *)

Lemma textures_ok_names temps temps' g g' names names' X : textures_ok temps g names X -> binding g' = binding g ->
  refs g' names' (temps' ++ unit_refs (oc_textures (gw_context g))) ->
  (forall k, names' !! k <> Some (tx_defaultTexture (oc_textures (gw_context g)))) ->
  Forall (unit_ok names' (tx_defaultTexture (oc_textures (gw_context g)))) (tx_tmu (oc_textures (gw_context g))) ->
  textures_ok temps' g' names' X.
Proof. intros [R N U T A K Z0] B R' N' U'. unfold binding in B. injection B as Et Ek Ev. split; unfold active in *; rewrite ?Et, ?Ek, ?Ev; done. Qed.

Lemma default_alive temps g names X : textures_ok temps g names X ->
  0 < tx_defaultTexture (oc_textures (gw_context g)) < gw_next g.
Proof.
  intros H. destruct (ok_refs _ _ _ _ H) as [_ C].
  destruct (counted_alive _ _ _ _ (tx_defaultTexture (oc_textures (gw_context g))) C) as (r & t & E).
  { apply elem_of_app. right. left. }
  exact (TextureManager.ct_fresh _ _ _ _ C _ _ E).
Qed.

(** [surface_texture], then [surface_createTexture] if there is none. *)
Lemma find_or_create_ok temps g names X k : textures_ok temps g names X ->
  exists tex g' names',
    (let! tex := surface_texture k in if tex =? 0 then surface_createTexture k else hret tex) g = Some (tex, g') /\
    textures_ok (tex :: temps) g' names' X /\ binding g' = binding g /\ names' !! k = Some tex /\ 0 < tex /\
    dom names' = {[k]} ∪ dom names.
Proof.
  intros H. pose proof (ok_refs _ _ _ _ H) as R. pose proof (default_alive _ _ _ _ H) as Hd.
  pose proof (TextureManager.texture_spec (manager_world g) (gw_textures g) names _ k R) as S. destruct (names !! k) as [p|] eqn:En.
  - destruct S as (s' & E & R' & Hp).
    destruct (on_manager_spec (fun v => let! p := TextureManager.texture v k in hret (p, v)) g p (gw_textures g) s' names
      (p :: temps ++ unit_refs (oc_textures (gw_context g))))
      as (g' & Eg & Rg & B); [by rewrite (hbind_some _ _ _ _ _ E)|exact R'|].
    exists p, g', names. unfold surface_texture. rewrite (hbind_some _ _ _ _ _ Eg). destruct (Z.eqb_spec p 0); [lia|].
    split; [done|]. split; [by apply (textures_ok_refs temps _ g)|]. split_and!; try done.
    apply elem_of_dom_2 in En. set_solver.
  - destruct (on_manager_spec (fun v => let! p := TextureManager.texture v k in hret (p, v)) g 0 (gw_textures g) (manager_world g) names
      (temps ++ unit_refs (oc_textures (gw_context g))))
      as (g1 & Eg & Rg & B); [by rewrite (hbind_some _ _ _ _ _ S)|exact R|].
    unfold surface_texture. setoid_rewrite (hbind_some _ _ _ _ _ Eg). cbn [Z.eqb].
    pose proof (TextureManager.createTexture_spec (manager_world g1) (gw_textures g1) names _ k Rg) as C. rewrite En in C.
    destruct C as (v' & s' & E & R' & Hp & _).
    destruct (on_manager_spec (fun v => TextureManager.createTexture v k) g1 _ v' s' _ _ E R') as (g2 & Eg2 & Rg2 & B2).
    assert (gw_next g1 = gw_next g) as Enext.
    { unfold on_manager in Eg. rewrite (hbind_some _ _ _ _ _ S) in Eg. injection Eg as <-. done. }
    exists (gw_next g1), g2, (<[k := gw_next g1]> names). split; [exact Eg2|].
    split; [|split_and!; [congruence|by rewrite lookup_insert_eq|cbn in Hp; lia|by rewrite dom_insert_L]].
    apply (textures_ok_names temps _ g _ names); [done|congruence|exact Rg2| |].
    + intros j. rewrite lookup_insert_Some. intros [[_ E']|[_ E']]; [cbn in *; lia|by apply (ok_names _ _ _ _ H j)].
    + eapply Forall_impl; [exact (ok_units _ _ _ _ H)|]. intros u Hu Hn. destruct (Hu Hn) as [[q Eq] Hne]. split; [|done].
      destruct (decide (tu_name u = k)) as [->|Hk]; [by rewrite lookup_insert_eq; eexists|rewrite lookup_insert_ne by done; by eexists].
Qed.

(** An error is all that changes. *)
Lemma report_error_ok temps g names X e : textures_ok temps g names X ->
  exists g', on_context (fun c => Some (gl_error e c)) g = Some (tt, g') /\ textures_ok temps g' names X.
Proof.
  intros H. eexists. split; [reflexivity|]. unfold gl_error. destruct (_ =? _); [by destruct g, H|].
  by apply (textures_ok_refs temps _ g); [|done|apply (ok_refs _ _ _ _ H)].
Qed.

Definition bind_names (target texture : Z) (D : gset Z) : gset Z :=
  if texture_target target && negb (texture =? 0) then {[texture]} ∪ D else D.

Lemma glBindTexture_ok target texture g names X : textures_ok [] g names X ->
  exists g' names', glBindTexture target texture g = Some (tt, g') /\ textures_ok [] g' names' X /\
    dom names' = bind_names target texture (dom names).
Proof.
  intros H. unfold glBindTexture, bind_names. destruct (texture_target target); cbn [negb andb].
  2: { destruct (report_error_ok _ _ _ _ GGL_INVALID_ENUM H) as (g' & E & H'). by exists g', names. }
  assert (exists tex g1 names1,
    (if texture =? 0 then default_texture
     else let! tex := surface_texture texture in if tex =? 0 then surface_createTexture texture else hret tex) g = Some (tex, g1) /\
    textures_ok [tex] g1 names1 X /\ binding g1 = binding g /\ 0 < tex /\
    (texture <> 0 -> is_Some (names1 !! texture)) /\ dom names1 = if negb (texture =? 0) then {[texture]} ∪ dom names else dom names)
    as (tex & g1 & names1 & E & H1 & B & Hp & Hn & D).
  { destruct (Z.eqb_spec texture 0) as [->|Ht]; cbn [negb].
    - destruct (default_texture_ok _ _ _ _ H) as (g1 & E & H1 & B). eexists _, g1, names. split; [exact E|].
      split_and!; try done. apply (default_alive _ _ _ _ H).
    - destruct (find_or_create_ok _ _ _ _ texture H) as (tex & g1 & names1 & E & H1 & B & En & Hp & D).
      exists tex, g1, names1. split; [exact E|]. split_and!; try done. }
  rewrite (hbind_some _ _ _ _ _ E). destruct (Z.eqb_spec tex 0); [lia|]. rewrite andb_false_r.
  destruct (bindTextureTmu_ok _ _ _ _ (active (gw_context g1)) texture tex H1) as (g2 & u & E2 & H2 & _).
  { apply (ok_active _ _ _ _ H1). }
  { left. }
  { intros Ht. split; [auto|]. intros ->. destruct (Z.eqb_spec texture 0); [done|].
    destruct (Hn Ht) as [q Eq].
    destruct (find_or_create_ok _ _ _ _ texture H) as (tex' & g1' & names1' & E' & H1' & B' & En' & _).
    rewrite E in E'. injection E' as <- <-.
    apply (ok_names _ _ _ _ H1' texture). rewrite En'. done. }
  rewrite (hbind_some (on_context (fun c => bindTextureTmu (active c) texture tex c)) _ g1 tt g2 E2).
  destruct (drop_ok _ _ _ _ _ H2) as (g3 & E3 & H3 & _). by exists g3, names1.
Qed.

Lemma glGenTextures_ok n g names X : textures_ok [] g names X -> Z.of_nat (base.size X) + Z.max 0 n < 2 ^ 32 - 1 ->
  exists g' X', (glGenTextures n ;;; hret tt) g = Some (tt, g') /\ textures_ok [] g' names X' /\
    Z.of_nat (base.size X') = Z.of_nat (base.size X) + Z.max 0 n.
Proof.
  intros H Hs. unfold glGenTextures. destruct (Z.ltb_spec n 0).
  - destruct (report_error_ok _ _ _ _ GGL_INVALID_VALUE H) as (g' & E & H'). exists g', X. split; [|split; [done|lia]].
    unfold hbind at 1 2. unfold hbind in E. rewrite E. done.
  - destruct (TokenManager.getToken_spec (Z.to_nat n) _ _ X (ok_tokens _ _ _ _ H) (ok_zero _ _ _ _ H) ltac:(lia))
      as (ts & v & w & E & L & ND & HF & T & _).
    eexists _, (list_to_set ts ∪ X). unfold surface_getToken, on_tokens. unfold hbind at 1. rewrite E.
    split; [reflexivity|]. split.
    + destruct H. by split; [..|set_solver].
    + rewrite size_union, size_list_to_set by (try done; intros t Ht Hx; apply elem_of_list_to_set in Ht; by destruct (HF t Ht)). lia.
Qed.

(** Unit [t] is left without a name of [textures]. *)
Definition name_gone (textures : list Z) (u u' : texture_unit_t) : Prop :=
  tu_name u' = 0 \/ tu_name u' = tu_name u /\ (tu_name u' ∉ textures).

Lemma unbind_names_ok t textures : forall g names X u, (t < 2)%nat -> textures_ok [] g names X -> get_unit t (gw_context g) = Some u ->
  exists g' u', unbind_names t textures g = Some (tt, g') /\ textures_ok [] g' names X /\ other_units t g g' /\
    get_unit t (gw_context g') = Some u' /\ name_gone textures u u'.
Proof.
  induction textures as [|k ks IH]; intros g names X u Ht H Eu; cbn [unbind_names].
  { exists g, u. split_and!; try done. right. split; [done|]. apply not_elem_of_nil. }
  setoid_rewrite (hbind_some get_context _ g (gw_context g) g eq_refl). cbv beta. rewrite Eu.
  destruct (negb (k =? 0) && (k =? tu_name u)) eqn:Ek.
  - destruct (default_texture_ok _ _ _ _ H) as (g1 & E1 & H1 & B1). 
    pose proof (other_units_binding t g g1 B1) as O1. set (d := tx_defaultTexture _) in *.
    destruct (bindTextureTmu_ok _ _ _ _ t 0 d H1 Ht) as (g2 & u2 & E2 & H2 & O2 & Eu2 & Et2 & Hn2); [left|done|].
    destruct (drop_ok _ _ _ _ _ H2) as (g3 & E3 & H3 & B3). pose proof (other_units_binding t g2 g3 B3) as O3.
    assert (get_unit t (gw_context g3) = Some u2) as Eu3 by (unfold get_unit, binding in *; injection B3 as -> _ _; done).
    assert (tu_name u2 = 0) as N0.
    { destruct Hn2 as [Hn2|Hn2]; [done|]. destruct (Z.eq_dec (tu_name u2) 0) as [|Hz]; [done|]. exfalso.
      pose proof (unit_named _ _ _ _ t u2 H1 Hn2) as Hu. destruct (Hu Hz) as [_ Hd]. apply Hd. destruct O1 as [-> _]. done. }
    destruct (IH g3 names X u2 Ht H3 Eu3) as (g4 & u4 & E4 & H4 & O4 & Eu4 & G4).
    exists g4, u4. setoid_rewrite (hbind_some _ _ g tt g3); [|by rewrite (hbind_some _ _ _ _ _ E1), (hbind_some _ _ _ _ _ E2)].
    split; [done|]. split; [done|]. split; [|split; [done|left; destruct G4 as [?|[-> _]]; done]].
    by do 3 (eapply other_units_trans; [eassumption|]).
  - setoid_rewrite (hbind_some (hret tt) _ g tt g eq_refl).
    destruct (IH g names X u Ht H Eu) as (g4 & u4 & E4 & H4 & O4 & Eu4 & G4). exists g4, u4. split_and!; try done.
    destruct G4 as [?|[En Hk]]; [by left|]. destruct (Z.eqb_spec k 0) as [->|Hz]; cbn in Ek.
    + destruct (Z.eq_dec (tu_name u4) 0); [by left|]. right. split; [done|]. rewrite not_elem_of_cons. done.
    + right. split; [done|]. rewrite not_elem_of_cons. apply Z.eqb_neq in Ek. split; congruence.
Qed.
Lemma unbind_unit_ok t textures g names X u : (t < 2)%nat -> textures_ok [] g names X -> get_unit t (gw_context g) = Some u ->
  exists g' u', unbind_unit textures t g = Some (tt, g') /\ textures_ok [] g' names X /\ other_units t g g' /\
    get_unit t (gw_context g') = Some u' /\ name_gone textures u u'.
Proof.
  intros Ht H Eu. unfold unbind_unit. setoid_rewrite (hbind_some get_context _ g (gw_context g) g eq_refl). cbv beta. rewrite Eu.
  destruct (Z.eqb_spec (tu_name u) 0); [|by apply unbind_names_ok]. exists g, u. split_and!; try done. by left.
Qed.

Definition delete_set (n : Z) (textures : list Z) (D : gset Z) : gset Z :=
  if n <? 0 then D else D ∖ (list_to_set textures ∖ {[0]}).
Lemma delete_names_dom textures names : dom (delete_names textures names) = dom names ∖ (list_to_set textures ∖ {[0]}).
Proof.
  apply set_eq. intros k. rewrite elem_of_dom, delete_names_lookup. case_bool_decide as Hk.
  - split; [by intros [? ?]|]. set_solver.
  - rewrite <-elem_of_dom. set_solver.
Qed.

Lemma two_units g : length (tx_tmu (oc_textures (gw_context g))) = 2%nat -> exists u0 u1,
  tx_tmu (oc_textures (gw_context g)) = [u0; u1] /\ get_unit 0 (gw_context g) = Some u0 /\ get_unit 1 (gw_context g) = Some u1.
Proof. unfold get_unit. intros H. destruct (tx_tmu _) as [|u0 [|u1 [|]]]; try done. by exists u0, u1. Qed.

Lemma surface_deleteTextures_ok textures g names X : textures_ok [] g names X ->
  Forall (fun u => tu_name u = 0 \/ (tu_name u ∉ textures)) (tx_tmu (oc_textures (gw_context g))) ->
  exists g', surface_deleteTextures textures g = Some (tt, g') /\ textures_ok [] g' (delete_names textures names) X.
Proof.
  intros H Hu. destruct (deleteTextures_exact textures _ _ _ _ (ok_refs _ _ _ _ H)) as (v' & s' & E & R).
  destruct (on_manager_spec (fun v => let! v := TextureManager.deleteTextures v textures in hret (tt, v)) g tt v' s'
    (delete_names textures names) (unit_refs (oc_textures (gw_context g)))) as (g' & Eg & Rg & B);
    [by rewrite (hbind_some _ _ _ _ _ E)|exact R|].
  exists g'. split; [exact Eg|]. apply (textures_ok_names [] _ g _ names); [done|done|done|..].
  - intros k. rewrite delete_names_lookup. case_bool_decide; [done|]. apply (ok_names _ _ _ _ H).
  - rewrite Forall_forall in Hu |- *. intros u Hin Hn. pose proof (ok_units _ _ _ _ H) as Ho. rewrite Forall_forall in Ho.
    destruct (Ho u Hin Hn) as [Hs Hd]. split; [|done]. rewrite delete_names_lookup, bool_decide_false; [done|].
    intros [Hk _]. by destruct (Hu u Hin).
Qed.

Lemma recycleTokens_ok textures g names X : textures_ok [] g names X ->
  exists g', surface_recycleTokens textures g = Some (tt, g') /\ textures_ok [] g' names (X ∖ (list_to_set textures ∖ {[0]})).
Proof.
  intros H. destruct (TokenManager.recycleTokens_spec textures _ _ X (ok_tokens _ _ _ _ H)) as (v & w & E & T & _).
  eexists. unfold surface_recycleTokens, on_tokens. rewrite (hbind_some _ _ _ _ _ E). split; [reflexivity|].
  destruct H. split; try done. set_solver.
Qed.

Lemma glDeleteTextures_ok n textures g names X : textures_ok [] g names X ->
  exists g' names' X', glDeleteTextures n textures g = Some (tt, g') /\ textures_ok [] g' names' X' /\ X' ⊆ X /\
    dom names' = delete_set n textures (dom names).
Proof.
  intros H. unfold glDeleteTextures, delete_set. destruct (n <? 0).
  { destruct (report_error_ok _ _ _ _ GGL_INVALID_VALUE H) as (g' & E & H'). by exists g', names, X. }
  destruct (two_units g (ok_two _ _ _ _ H)) as (u0 & u1 & _ & E0 & E1).
  destruct (unbind_unit_ok 0 textures g names X u0 ltac:(lia) H E0) as (g1 & u0' & F1 & H1 & O1 & E0' & G0).
  assert (get_unit 1 (gw_context g1) = Some u1) as E1a by (destruct O1 as (_ & _ & _ & ->); [done|lia]).
  destruct (unbind_unit_ok 1 textures g1 names X u1 ltac:(lia) H1 E1a) as (g2 & u1' & F2 & H2 & O2 & E1' & G1).
  assert (get_unit 0 (gw_context g2) = Some u0') as E0a by (destruct O2 as (_ & _ & _ & ->); [done|lia]).
  destruct (surface_deleteTextures_ok textures g2 names X H2) as (g3 & F3 & H3).
  { destruct (two_units g2 (ok_two _ _ _ _ H2)) as (v0 & v1 & -> & D0 & D1). rewrite E0a in D0. rewrite E1' in D1.
    injection D0 as <-. injection D1 as <-. unfold name_gone in *. rewrite !Forall_cons, Forall_nil. destruct G0 as [?|[-> ?]], G1 as [?|[-> ?]]; auto. }
  destruct (recycleTokens_ok textures g3 _ X H3) as (g4 & F4 & H4).
  exists g4, (delete_names textures names), (X ∖ (list_to_set textures ∖ {[0]})).
  rewrite (hbind_some _ _ _ _ _ F1), (hbind_some _ _ _ _ _ F2), (hbind_some _ _ _ _ _ F3).
  split; [done|]. split; [done|]. split; [set_solver|]. apply delete_names_dom.
Qed.

(** *** Replacing the active texture *)

(** The references without that of unit [i]. *)
Definition refs_but (i : nat) (tx : texture_state_t) : list Z := tx_defaultTexture tx :: map tu_texture (delete i (tx_tmu tx)).

Lemma release_unit_ok g names X i u : textures_ok [] g names X -> get_unit i (gw_context g) = Some u ->
  exists g', on_context (release_unit i) g = Some (tt, g') /\ refs g' names (refs_but i (oc_textures (gw_context g))) /\
    binding g' = binding g.
Proof.
  intros H Eu. assert (refs g names (tu_texture u :: refs_but i (oc_textures (gw_context g)))) as R.
  { eapply refs_perm; [|apply (ok_refs _ _ _ _ H)]. cbn. unfold unit_refs, refs_but. rewrite (units_perm _ i u Eu). apply perm_swap. }
  destruct (drop_reference_spec g names _ _ R) as (g' & E & R' & B). exists g'. split; [|done].
  destruct (counted_alive _ _ _ _ (tu_texture u) (proj2 R)) as (r & t & Eo); [left|].
  pose proof (TextureManager.ct_fresh _ _ _ _ (proj2 R) _ _ Eo).
  unfold on_context, release_unit. rewrite Eu. cbn [mbind option_bind]. destruct (Z.eqb_spec (tu_texture u) 0); [lia|].
  unfold drop_reference, on_context in E. exact E.
Qed.

Lemma put_in_unit_ok g names i u name p : get_unit i (gw_context g) = Some u ->
  refs g names (p :: refs_but i (oc_textures (gw_context g))) ->
  exists g', on_context (put_in_unit i name p) g = Some (tt, g') /\
    refs g' names (p :: unit_refs (oc_textures (gw_context g'))) /\
    oc_textures (gw_context g') = (oc_textures (gw_context g)) <| tx_tmu ::= <[i := mk_texture_unit name p 0xFF]> |> /\
    (gw_tokens g', gw_tokenizer g') = (gw_tokens g, gw_tokenizer g).
Proof.
  intros Eu R. destruct (take_reference_spec g names _ p R) as (g1 & E & R1 & B); [left; left|].
  unfold take_reference, on_context in E. apply bind_Some in E as (c1 & (o & Eo & [= <-])%bind_Some & [= <-]).
  eexists. unfold on_context, put_in_unit. rewrite Eu. cbn [mbind option_bind]. cbn in Eo. rewrite Eo. cbn [mbind option_bind].
  split; [reflexivity|]. cbn -[refs]. split; [|done]. eapply refs_perm; [|split; [apply R1|apply R1]].
  unfold unit_refs, refs_but. cbn. apply lookup_lt_Some in Eu. rewrite units_insert_perm by done. cbn. apply perm_skip, perm_swap.
Qed.

Lemma map_delete {A B} (f : A -> B) i l : map f (delete i l) = delete i (map f l).
Proof. revert i. induction l as [|x l IH]; intros [|i]; try done. cbn. f_equal. apply IH. Qed.
Definition mark_dirty (p : Z) (u : texture_unit_t) : texture_unit_t :=
  if tu_texture u =? p then u <| tu_dirty := 0xFF |> else u.
Lemma mark_dirty_same p l : map tu_texture (map (mark_dirty p) l) = map tu_texture l.
Proof. rewrite map_map. apply map_ext. intros u. unfold mark_dirty. by destruct (tu_texture u =? p). Qed.
Lemma mark_dirty_ok p names d u : unit_ok names d u -> unit_ok names d (mark_dirty p u).
Proof. unfold unit_ok, mark_dirty. by destruct (tu_texture u =? p). Qed.

(** After [put_in_unit], everything is in order again; [l] are the units before. *)
Lemma rebound_ok g g' names names' X i name p l : textures_ok [] g names X ->
  refs g' names' (p :: unit_refs (oc_textures (gw_context g'))) ->
  oc_textures (gw_context g') = (oc_textures (gw_context g)) <| tx_tmu := <[i := mk_texture_unit name p 0xFF]> l |> ->
  length l = length (tx_tmu (oc_textures (gw_context g))) ->
  Forall (unit_ok names' (tx_defaultTexture (oc_textures (gw_context g)))) l ->
  (gw_tokens g', gw_tokenizer g') = (gw_tokens g, gw_tokenizer g) ->
  (forall k, names' !! k <> Some (tx_defaultTexture (oc_textures (gw_context g)))) ->
  (name <> 0 -> names' !! name = Some p) -> textures_ok [p] g' names' X.
Proof.
  intros [R N U T A TK Z0] R' E L F K N' Hn. injection K as Ek Ev.
  split; unfold active; rewrite ?E, ?Ek, ?Ev; cbn; try done.
  - rewrite E in R'. exact R'.
  - apply Forall_insert; [done|]. intros Hz. cbn in *. specialize (Hn Hz). split; [by eexists|]. intros ->. by apply (N' name).
  - by rewrite length_insert, L.
Qed.

(** The two ways to get the new object, after the old one was released. *)
Lemma rebind_default_ok g g1 names X i u :
  textures_ok [] g names X -> get_unit i (gw_context g) = Some u -> refs g1 names (refs_but i (oc_textures (gw_context g))) ->
  binding g1 = binding g -> tu_name u = 0 ->
  exists tex g', (let! tex := let! tex := default_texture in on_context (fun c => Some (invalidate_object tex c)) ;;; hret tex in
                  on_context (put_in_unit i (tu_name u) tex) ;;; hret tex) g1 = Some (tex, g') /\ textures_ok [tex] g' names X.
Proof.
  intros H Eu R1 B1 Hz. injection B1 as Bt Bk Bv.
  destruct (take_reference_spec g1 names _ (tx_defaultTexture (oc_textures (gw_context g))) R1) as (g2 & E2 & R2 & B2); [left; left|].
  set (d := tx_defaultTexture (oc_textures (gw_context g))) in *. injection B2 as B2t B2k B2v.
  set (g3 := with_context (invalidate_object d (gw_context g2)) g2).
  assert (default_texture g1 = Some (d, g2)) as ED.
  { unfold default_texture. rewrite (hbind_some get_context _ g1 (gw_context g1) g1 eq_refl). cbv zeta. rewrite Bt. fold d.
    by rewrite (hbind_some _ _ _ _ _ E2). }
  assert (tx_tmu (oc_textures (gw_context g3)) = map (mark_dirty d) (tx_tmu (oc_textures (gw_context g)))) as Em
    by (cbn; by rewrite B2t, Bt).
  assert (get_unit i (gw_context g3) = Some (mark_dirty d u)) as Eu3 
    by (unfold get_unit in *; rewrite Em, list_lookup_fmap, Eu; done).
  assert (tx_defaultTexture (oc_textures (gw_context g3)) = d) as Ed by (cbn; by rewrite B2t, Bt).
  destruct (put_in_unit_ok g3 names i _ (tu_name u) d Eu3) as (g4 & E4 & R4 & T4 & K4).
  { unfold refs_but. rewrite Em, Ed, map_delete, mark_dirty_same, <-map_delete. exact R2. }
  exists d, g4. split.
  { rewrite (hbind_some _ _ g1 d g3); [by rewrite (hbind_some _ _ _ _ _ E4)|]. by rewrite (hbind_some _ _ _ _ _ ED). }
  apply (rebound_ok g g4 names names X i (tu_name u) d (map (mark_dirty d) (tx_tmu (oc_textures (gw_context g))))); try done.
  + rewrite T4. cbn. by rewrite B2t, Bt.
  + by rewrite length_map.
  + apply Forall_map. eapply Forall_impl; [exact (ok_units _ _ _ _ H)|]. intros v. apply mark_dirty_ok.
  + rewrite K4. cbn. congruence.
  + apply (ok_names _ _ _ _ H).
Qed.
Lemma rebind_named_ok g g1 names X i u :
  textures_ok [] g names X -> get_unit i (gw_context g) = Some u -> refs g1 names (refs_but i (oc_textures (gw_context g))) ->
  binding g1 = binding g -> gw_next g1 = gw_next g -> tu_name u <> 0 ->
  exists tex g' names', (let! tex := surface_replaceTexture (tu_name u) in
                  on_context (put_in_unit i (tu_name u) tex) ;;; hret tex) g1 = Some (tex, g') /\ textures_ok [tex] g' names' X /\
                  dom names' = dom names.
Proof.
  intros H Eu R1 B1 En1 Hz. pose proof (default_alive _ _ _ _ H) as Hd. injection B1 as Bt Bk Bv.
  destruct (unit_named _ _ _ _ i u H Eu Hz) as [[old En] Hne].
  destruct (TextureManager.counted_named _ _ _ _ _ _ (proj2 R1) En) as (r & t & Eo & _).
  destruct (TextureManager.replaceTexture_spec (manager_world g1) (gw_textures g1) names _ (tu_name u) old r t R1 En Eo)
    as (p & v' & s' & t' & E2 & R2 & _ & Hp & _).
  destruct (on_manager_spec (fun v => TextureManager.replaceTexture v (tu_name u)) g1 p v' s' _ _ E2 R2) as (g2 & F2 & R2' & B2).
  injection B2 as B2t B2k B2v.
  assert (get_unit i (gw_context g2) = Some u) as Eu2 by (unfold get_unit in *; by rewrite B2t, Bt).
  destruct (put_in_unit_ok g2 (<[tu_name u := p]> names) i u (tu_name u) p Eu2) as (g4 & E4 & R4 & T4 & K4).
  { by rewrite B2t, Bt. }
  exists p, g4, (<[tu_name u := p]> names). split; [|split].
  { unfold surface_replaceTexture. rewrite (hbind_some _ _ _ _ _ F2). by rewrite (hbind_some _ _ _ _ _ E4). }
  + apply (rebound_ok g g4 names _ X i (tu_name u) p (tx_tmu (oc_textures (gw_context g)))); try done.
    * rewrite T4, B2t, Bt. done.
    * eapply Forall_impl; [exact (ok_units _ _ _ _ H)|]. intros w Hw Hn. destruct (Hw Hn) as [[q Eq] Hdq]. split; [|done].
      destruct (decide (tu_name w = tu_name u)) as [->|Hk]; [by rewrite lookup_insert_eq; eexists|rewrite lookup_insert_ne by done; by eexists].
    * rewrite K4. congruence.
    * intros k. rewrite lookup_insert_Some. intros [[_ Epd]|[_ E']]; [|by apply (ok_names _ _ _ _ H k)].
      destruct Hp as [(_ & Hp & _)|(_ & Hp & _)]; [apply (ok_names _ _ _ _ H (tu_name u)); congruence|].
      cbn in Hp. lia.
    * intros _. by rewrite lookup_insert_eq.
  + rewrite dom_insert_L. apply elem_of_dom_2 in En. set_solver.
Qed.

Lemma rebind_ok g names X : textures_ok [] g names X ->
  exists tex g' names', getAndBindActiveTextureObject g = Some (tex, g') /\ textures_ok [tex] g' names' X /\ dom names' = dom names.
Proof.
  intros H. set (i := active (gw_context g)). destruct (unit_exists _ _ _ _ i H (ok_active _ _ _ _ H)) as [u Eu].
  unfold getAndBindActiveTextureObject. rewrite (hbind_some get_context _ g (gw_context g) g eq_refl). cbv beta. fold i. rewrite Eu.
  destruct (release_unit_ok g names X i u H Eu) as (g1 & E1 & R1 & B1). rewrite (hbind_some _ _ _ _ _ E1).
  assert (gw_next g1 = gw_next g) as En1 by (unfold on_context in E1; by apply bind_Some in E1 as (c1 & _ & [= <-])).
  destruct (Z.eqb_spec (tu_name u) 0) as [Hz|Hz].
  - destruct (rebind_default_ok g g1 names X i u H Eu R1 B1 Hz) as (tex & g' & E & H'). by exists tex, g', names.
  - destruct (rebind_named_ok g g1 names X i u H Eu R1 B1 En1 Hz) as (tex & g' & names' & E & H' & D). by exists tex, g', names'.
Qed.

(** *** Changes that leave the bindings alone *)

Lemma counted_object objects next names held p r t t' : TextureManager.counted objects next names held ->
  objects !! p = Some (r, t) -> TextureManager.counted (<[p := (r, t')]> objects) next names held.
Proof.
  intros [I R N F] E. split; try done.
  - intros q. specialize (R q). destruct (decide (q = p)) as [->|Hq]; [rewrite lookup_insert_eq; by rewrite E in R|by rewrite lookup_insert_ne].
  - intros q x. rewrite lookup_insert_Some. intros [[<- _]|[_ Eq]]; [by apply (F p (r, t))|by apply (F q x)].
Qed.

(** Other flags, another active unit. *)
Lemma context_ok g names X c :
  textures_ok [] g names X -> TextureManager.counted (oc_objects c) (gw_next g) names (unit_refs (oc_textures (gw_context g))) ->
  tx_defaultTexture (oc_textures c) = tx_defaultTexture (oc_textures (gw_context g)) ->
  map tu_texture (tx_tmu (oc_textures c)) = map tu_texture (tx_tmu (oc_textures (gw_context g))) ->
  map tu_name (tx_tmu (oc_textures c)) = map tu_name (tx_tmu (oc_textures (gw_context g))) -> (active c < 2)%nat ->
  textures_ok [] (with_context c g) names X.
Proof.
  intros [R N U T A TK Z0] C D M Mn Ac. split; cbn; rewrite ?D; try done.
  - split; [apply R|]. unfold unit_refs. rewrite D, M. exact C.
  - set (d := tx_defaultTexture _) in *. clear - U M Mn. revert U M Mn. generalize (tx_tmu (oc_textures (gw_context g))). 
    generalize (tx_tmu (oc_textures c)). intros l. induction l as [|u l IH]; intros [|v l']; try done.
    intros [Hv Hl]%Forall_cons [= Et El] [= En Enl]. constructor; [|by eapply IH].
    unfold unit_ok in *. by rewrite Et, En.
  - apply (f_equal length) in M. rewrite !length_map in M. by rewrite M.
Qed.

Lemma glActiveTexture_ok texture g names X : textures_ok [] g names X -> unit_number texture <> Some 2 ->
  exists g', on_context (glActiveTexture texture) g = Some (tt, g') /\ textures_ok [] g' names X.
Proof.
  intros H Hn. unfold glActiveTexture. destruct (unit_number texture) as [tmu|] eqn:E; [|apply (report_error_ok _ _ _ _ _ H)].
  unfold unit_number, GGL_TEXTURE_UNIT_COUNT in E. destruct (Z.ltb_spec 2 (u32 (texture - GL_TEXTURE0))); [done|]. injection E as <-.
  pose proof (u32_range (texture - GL_TEXTURE0)). set (tmu := u32 _) in *.
  eexists. split; [reflexivity|]. apply context_ok; try done; [apply (ok_refs _ _ _ _ H)|].
  unfold active. cbn. assert (tmu <> 2) by congruence. lia.
Qed.

Lemma dirty_same i l : map tu_texture (alter (fun u => u <| tu_dirty := 0xFF |>) i l) = map tu_texture l /\
  map tu_name (alter (fun u => u <| tu_dirty := 0xFF |>) i l) = map tu_name l.
Proof.
  revert i. induction l as [|u l IH]; intros [|i]; try done. destruct (IH i) as [E1 E2]. cbn in *. 
  change (map tu_texture (alter ?f (S i) (u :: l))) with (tu_texture u :: map tu_texture (alter f i l)). split; f_equal; done.
Qed.

(** A change of the active object. *)
Lemma set_active_object_ok g names X t : textures_ok [] g names X ->
  exists c', set_unit_object (active (gw_context g)) t (gw_context g) = Some c' /\ active c' = active (gw_context g) /\
    TextureManager.counted (oc_objects c') (gw_next g) names (unit_refs (oc_textures (gw_context g))) /\
    oc_textures c' = oc_textures (gw_context g).
Proof.
  intros H. destruct (unit_exists _ _ _ _ _ H (ok_active _ _ _ _ H)) as [u Eu].
  pose proof (ok_refs _ _ _ _ H) as [_ C]. cbn in C.
  destruct (counted_alive _ _ _ _ (tu_texture u) C) as (r & t0 & Eo).
  { right. apply list_elem_of_In, in_map, list_elem_of_In. by eapply list_elem_of_lookup_2. }
  unfold set_unit_object. rewrite Eu. cbn [mbind option_bind]. cbn in Eo. rewrite Eo. cbn [mbind option_bind].
  eexists. split; [reflexivity|]. split; [done|]. split; [|done]. by apply (counted_object _ _ _ _ _ r t0).
Qed.
Lemma unit_object_ok g names X : textures_ok [] g names X -> exists t, unit_object (active (gw_context g)) (gw_context g) = Some t.
Proof.
  intros H. destruct (set_active_object_ok g names X new_texture H) as (c & E & _).
  unfold set_unit_object, unit_object in *. destruct (get_unit _ _); [|done]. cbn [mbind option_bind] in *.
  destruct (_ !! _) as [[r t1]|]; [by exists t1|done].
Qed.

Lemma texParameterx_ok target pname param g names X : textures_ok [] g names X ->
  exists g', on_context (texParameterx target pname param) g = Some (tt, g') /\ textures_ok [] g' names X.
Proof.
  intros H. unfold on_context, texParameterx. destruct (negb (texture_target target)); [apply (report_error_ok _ _ _ _ GGL_INVALID_ENUM H)|].
  destruct (unit_object_ok g names X H) as [t ->]. cbn [mbind option_bind].
  destruct (set_parameter pname param t) as [t'|]; [|apply (report_error_ok _ _ _ _ GGL_INVALID_ENUM H)].
  destruct (set_active_object_ok g names X t' H) as (c' & -> & A & C & Et). cbn [mbind option_bind].
  eexists. split; [reflexivity|]. destruct (dirty_same (active c') (tx_tmu (oc_textures c'))) as [D1 D2].
  apply context_ok; [done|exact C|by rewrite <-Et|etransitivity; [exact D1|by rewrite Et]|etransitivity; [exact D2|by rewrite Et]|].
  change (active c' < 2)%nat. rewrite A. apply (ok_active _ _ _ _ H).
Qed.
Lemma glTexParameteriv_ok target pname params g names X : textures_ok [] g names X ->
  exists g', on_context (glTexParameteriv target pname params) g = Some (tt, g') /\ textures_ok [] g' names X.
Proof.
  intros H. unfold glTexParameteriv. destruct (texture_target target) eqn:Et; cbn [negb]; [|apply (report_error_ok _ _ _ _ GGL_INVALID_ENUM H)].
  destruct (pname =? GL_TEXTURE_CROP_RECT_OES); [|by apply texParameterx_ok].
  destruct (unit_object_ok g names X H) as [t E]. unfold on_context. rewrite E. cbn [mbind option_bind].
  destruct (set_active_object_ok g names X (t <| crop_rect := take 4 params |>) H) as (c' & -> & A & C & Ec). cbn [mbind option_bind].
  eexists. split; [reflexivity|]. apply context_ok; try done; [by rewrite Ec..|]. rewrite A. apply (ok_active _ _ _ _ H).
Qed.

(** *** Runs *)

(** [glActiveTexture] must not be given the unit past the last one, though the
    code accepts it. *)
Definition texture_command_ok (cmd : texture_command) : Prop :=
  match cmd with T_ActiveTexture texture => unit_number texture <> Some 2 | _ => True end.
Definition names_after (D : gset Z) (cmd : texture_command) : gset Z :=
  match cmd with
  | T_BindTexture target texture => bind_names target texture D
  | T_DeleteTextures n textures => delete_set n textures D
  | _ => D
  end.
Definition generated (cmds : list texture_command) : Z :=
  fold_right (fun cmd k => match cmd with T_GenTextures n => Z.max 0 n | _ => 0 end + k) 0 cmds.

Lemma generated_nonneg cmds : 0 <= generated cmds.
Proof.
  induction cmds as [|cmd cmds IH]; [done|]. cbn [generated fold_right]. fold (generated cmds). destruct cmd; lia.
Qed.

Lemma exec_texture_ok cmd cmds g names X : textures_ok [] g names X -> texture_command_ok cmd ->
  Z.of_nat (base.size X) + generated (cmd :: cmds) < 2 ^ 32 - 1 ->
  exists g' names' X', exec_texture cmd g = Some (tt, g') /\ textures_ok [] g' names' X' /\
    dom names' = names_after (dom names) cmd /\ Z.of_nat (base.size X') + generated cmds < 2 ^ 32 - 1.
Proof.
  intros H Hc Hs. pose proof (generated_nonneg cmds). cbn [generated fold_right] in Hs. fold (generated cmds) in Hs.
  destruct cmd as [texture|target texture|n|n textures|target pname param|target pname params|]; cbn [exec_texture names_after]; cbv beta iota in Hs.
  - destruct (glActiveTexture_ok texture g names X H Hc) as (g' & E & H'). by exists g', names, X.
  - destruct (glBindTexture_ok target texture g names X H) as (g' & names' & E & H' & D). by exists g', names', X.
  - destruct (glGenTextures_ok n g names X H) as (g' & X' & E & H' & D); [lia|]. exists g', names, X'. split_and!; try done. lia.
  - destruct (glDeleteTextures_ok n textures g names X H) as (g' & names' & X' & E & H' & S & D). exists g', names', X'.
    apply subseteq_size in S. split_and!; try done. lia.
  - destruct (texParameterx_ok target pname param g names X H) as (g' & E & H'). by exists g', names, X.
  - destruct (glTexParameteriv_ok target pname params g names X H) as (g' & E & H'). by exists g', names, X.
  - destruct (rebind_ok g names X H) as (tex & g1 & names' & E1 & H1 & D). destruct (drop_ok _ _ _ _ _ H1) as (g2 & E2 & H2 & _).
    exists g2, names', X. split; [by rewrite (hbind_some _ _ _ _ _ E1)|done].
Qed.

(** C10: Any run of the texture commands of a context goes through.  The objects
    alive are those with a name, bound to a unit, or the default one, each
    counted exactly: none is lost, none is freed while a unit refers to it.  The
    names are those bound and not deleted since. *)
Theorem texture_references cmds g names X : textures_ok [] g names X -> Forall texture_command_ok cmds ->
  Z.of_nat (base.size X) + generated cmds < 2 ^ 32 - 1 ->
  exists g' names' X', exec_textures cmds g = Some (tt, g') /\ textures_ok [] g' names' X' /\
    dom names' = fold_left names_after cmds (dom names) /\
    forall p, is_Some (oc_objects (gw_context g') !! p) <->
      (exists k, names' !! k = Some p) \/ p ∈ unit_refs (oc_textures (gw_context g')).
Proof.
  revert g names X. induction cmds as [|cmd cmds IH]; intros g names X H Hc Hs.
  - exists g, names, X. split_and!; try done. intros p. pose proof (ok_refs _ _ _ _ H) as [_ C]. split.
    + intros [[r t] E]. pose proof (TextureManager.ct_refs _ _ _ _ C p) as R. cbn in R. rewrite E in R.
      destruct (decide (map_Exists (fun _ q => q = p) names)) as [(k & q & Ek & ->)|Hn]; [left; by exists k|right].
      unfold TextureManager.named in R. rewrite decide_False in R by done. unfold TextureManager.held_count in R.
      apply list_elem_of_In, (count_occ_In Z.eq_dec). lia.
    + intros [[k Ek]|Hp]; [destruct (TextureManager.counted_named _ _ _ _ _ _ C Ek) as (r & t & E & _)|
        destruct (counted_alive _ _ _ _ p C Hp) as (r & t & E)]; by eexists.
  - apply Forall_cons in Hc as [Hc Hcs]. destruct (exec_texture_ok cmd cmds g names X H Hc Hs) as (g1 & names1 & X1 & E1 & H1 & D1 & S1).
    destruct (IH g1 names1 X1 H1 Hcs S1) as (g2 & names2 & X2 & E2 & H2 & D2 & L). exists g2, names2, X2.
    cbn [exec_textures fold_left]. rewrite (hbind_some _ _ _ _ _ E1), <-D1. done.
Qed.
End References.

(** ** Examples *)

(** A new context; its default texture is at 1, the vectors are lists. *)
Definition new_context {NAN : Nans} : ogles_context_t :=
  default (zeroed_context example_stacks) (ogles_init example_stacks 1).
Definition example_world {NAN : Nans} : gl_world unit (list (Z * Z)) unit (list Tokenizer.run_t) :=
  mk_gl_world new_context tt [] 2 tt [Tokenizer.mk_run 0 1].

Lemma example_world_ok {NAN : Nans} :
  textures_ok (repr := list_repr) (trepr := list_repr) [] example_world ∅ {[0]}.
Proof.
  split.
  - split; [apply KeyedVector.maps_empty; reflexivity|].
    change (TextureManager.counted {[1 := (3, new_texture)]} 2 ∅ [1; 1; 1]). split; [done| |done|].
    + intros p. rewrite TextureManager.named_none by (by intros k). destruct (decide (p = 1)) as [->|Hp]; [done|].
      rewrite lookup_singleton_ne by congruence. unfold TextureManager.held_count. by rewrite !count_occ_cons_neq by congruence.
    + intros p x [<- _]%lookup_singleton_Some. lia.
  - done.
  - by repeat constructor.
  - done.
  - change (0 < 2)%nat. lia.
  - exists [Tokenizer.mk_run 0 1]. split; [done|]. split; [split; [repeat constructor; cbn; lia|repeat constructor]|].
    intros t. rewrite Tokenizer.covers_cons, Tokenizer.covers_nil, elem_of_singleton. unfold Tokenizer.fin. cbn. lia.
  - set_solver.
Qed.

(** One name in both units, of which one gets a new object. *)
Definition two_units_run : list texture_command :=
  [T_GenTextures 2; T_BindTexture GL_TEXTURE_2D 1; T_ActiveTexture (GL_TEXTURE0 + 1); T_BindTexture GL_TEXTURE_2D 1; T_rebind].
Definition units_after {NAN : Nans} (cmds : list texture_command) : option (list (Z * Z)) :=
  '(_, g) ← exec_textures cmds example_world;
  Some (map (fun u => (tu_name u, tu_texture u)) (tx_tmu (oc_textures (gw_context g)))).

#[local] Instance quiet_nan : Nans := {| nan_bits := 0x7FC00000 |}.
Lemma texture_references_witness :
  exists g' (names' : gmap Z Z), exec_textures (two_units_run ++ [T_DeleteTextures 1 [1]]) example_world = Some (tt, g') /\ dom names' = (∅ : gset Z) /\
    (forall p, is_Some (oc_objects (gw_context g') !! p) <-> (exists k, names' !! k = Some p) \/ p ∈ [1; 1; 1]) /\
    units_after (two_units_run ++ [T_DeleteTextures 1 [1]]) = Some [(0, 1); (0, 1)].
Proof.
  destruct (texture_references (Laws := list_seq_laws (Z * Z)) (TLaws := list_seq_laws Tokenizer.run_t)
    (two_units_run ++ [T_DeleteTextures 1 [1]]) example_world ∅ {[0]}) as (g' & names' & X' & E & H & D & L).
  - apply example_world_ok.
  - repeat constructor; vm_compute; discriminate.
  - rewrite size_singleton. cbn. lia.
  - exists g', names'. split; [exact E|]. split; [rewrite D; vm_compute; reflexivity|]. split; [|reflexivity].
    intros p. rewrite L. replace (unit_refs (oc_textures (gw_context g'))) with [1; 1; 1]; [done|].
    vm_compute in E. injection E as <-. reflexivity.
Defined.

(** ** Faults *)

(** A texture bound to both units that gets pixels has two objects under its
    name; the other unit keeps the old one. *)
Example stale_unit {NAN : Nans} : units_after two_units_run = Some [(1, 2); (1, 3)].
Proof. reflexivity. Qed.

(** A texture made by binding a name is not reserved: the name is handed out. *)
Example name_handed_out {NAN : Nans} :
  fst <$> (exec_textures [T_BindTexture GL_TEXTURE_2D 1] ;;; glGenTextures 1) example_world = Some [1].
Proof. reflexivity. Qed.

(** There are units 0 and 1; unit 2 is accepted without an error, and then
    accesses are out of bounds. *)
Example unit_2_accepted {NAN : Nans} :
  (fun c => (oc_error c, active c, texParameterx GL_TEXTURE_2D GGL_TEXTURE_WRAP_S GGL_REPEAT c)) <$>
    glActiveTexture (GL_TEXTURE0 + 2) new_context = Some (GGL_NO_ERROR, 2%nat, None).
Proof. reflexivity. Qed.
