(* ===== verification/Transfer.v ===== *)
(** * Pixel transfers

    Models the conversion and transfer of pixels of swrender/texture.cpp: the
    formats of client pixels, the second rasterizer context of a GL context
    ([textures.ggl], [getRasterizer]), [copyPixels], which draws one surface into
    another with it, and [glReadPixels].

    [validFormatType_converts] shows that the formats that are accepted are those
    that can be converted; [copyPixels_copies] that a copy between surfaces of the
    same format moves exactly the pixels it is given and leaves the second
    rasterizer ready for the next; [readPixels_flips] that [glReadPixels] gives the
    client the rectangle it asks for, bottom row first. *)

From S2P Require Import Prelude TextureObjects Fixed Names Context PixelFormat Surface PixelFlinger Picker Iterators Pipeline Shortcuts Scanline Trap Raster Float Arrays Matrix OGLES State.

#[local] Open Scope Z_scope.

(** ** Formats *)

Definition GL_UNSIGNED_SHORT_4_4_4_4 : Z := 0x8033.
Definition GL_UNSIGNED_SHORT_5_5_5_1 : Z := 0x8034.
Definition GL_ALPHA : Z := 0x1906.
Definition GL_RGB : Z := 0x1907.
Definition GL_RGBA : Z := 0x1908.
Definition GL_LUMINANCE : Z := 0x1909.
Definition GL_LUMINANCE_ALPHA : Z := 0x190A.

Definition gl2format_table : list (list Z) :=
  [[GGL_PIXEL_FORMAT_A_8; 0; 0; 0];
   [GGL_PIXEL_FORMAT_RGB_888; GGL_PIXEL_FORMAT_RGB_565; 0; 0];
   [GGL_PIXEL_FORMAT_RGBA_8888; 0; GGL_PIXEL_FORMAT_RGBA_4444; GGL_PIXEL_FORMAT_RGBA_5551];
   [GGL_PIXEL_FORMAT_L_8; 0; 0; 0];
   [GGL_PIXEL_FORMAT_LA_88; 0; 0; 0];
   [0; 0; 0; 0]].
(** The [case] that matches first. *)
Fixpoint case_index (x : Z) (cases : list Z) (i : nat) : option nat :=
  match cases with [] => None | c :: cases => if x =? c then Some i else case_index x cases (S i) end.
Definition convertGLPixelFormat (format type : Z) : Z :=
  match case_index format [GL_ALPHA; GL_RGB; GL_RGBA; GL_LUMINANCE; GL_LUMINANCE_ALPHA] 0,
        case_index type [GL_UNSIGNED_BYTE; GL_UNSIGNED_SHORT_5_6_5; GL_UNSIGNED_SHORT_4_4_4_4; GL_UNSIGNED_SHORT_5_5_5_1] 0 with
  | Some fi, Some ti => nth ti (nth fi gl2format_table []) 0
  | _, _ => 0
  end.

(** The error found last, 0 for none. *)
Definition format_type_error (format type : Z) : Z :=
  let packed := existsb (Z.eqb type) [GL_UNSIGNED_SHORT_4_4_4_4; GL_UNSIGNED_SHORT_5_5_5_1] in
  let error := if (format <? GL_ALPHA) || (GL_LUMINANCE_ALPHA <? format) then GGL_INVALID_ENUM else 0 in
  let error := if negb (type =? GL_UNSIGNED_BYTE) && negb packed && negb (type =? GL_UNSIGNED_SHORT_5_6_5) then GGL_INVALID_ENUM else error in
  let error := if (type =? GL_UNSIGNED_SHORT_5_6_5) && negb (format =? GL_RGB) then GGL_INVALID_OPERATION else error in
  if packed && negb (format =? GL_RGBA) then GGL_INVALID_OPERATION else error.
Definition validFormatType (c : ogles_context_t) (format type : Z) : Z * ogles_context_t :=
  let error := format_type_error format type in
  (error, if error =? 0 then c else gl_error error c).

(** The rows of the client's pixels: their bytes, and their stride in pixels. *)
Definition client_bpr (width size alignment : Z) : Z :=
  let align := s32 (alignment - 1) in Z.land (s32 (s32 (width * size) + align)) (Z.lnot align).
Definition client_stride (width size alignment : Z) : Z := Z.quot (client_bpr width size alignment) size.
Definition client_surface (width height stride format pixels : Z) : GGLSurface :=
  mk_GGLSurface sizeof_GGLSurface (u32 width) (u32 height) stride pixels format 0.

(** ** The second rasterizer *)

Record transfer_t := mk_transfer { xf_ggl : option draw_t; xf_m : mem }.

Definition transfer_commands : list command :=
  [C_activeTexture 0; C_enable GGL_TEXTURE_2D; C_texEnvi GGL_TEXTURE_ENV GGL_TEXTURE_ENV_MODE GGL_REPLACE;
   C_disable GGL_DITHER; C_shadeModel GGL_FLAT; C_color4xv [0; 0; 0; 0x10000]].

(** [oom]: [gglInit] is out of memory. *)
Definition getRasterizer (oom : bool) (x : transfer_t) : option (option draw_t) :=
  match xf_ggl x with
  | Some d => Some (Some (d <| d_m := xf_m x |>))
  | None => if oom then Some None else c ← exec_all transfer_commands ggl_init_context; Some (Some (zero_draw c (xf_m x)))
  end.

(** The four calls; [alloc] is what [malloc] returns for the coverage of the rows
    of a wider color buffer. *)
Definition transfer (alloc : Z) (dst src : GGLSurface) (s t l top r b : Z) (d : draw_t) : option draw_t :=
  call_recti l top r b (d <| d_c ::= fun c => ggl_texCoord2i s t (ggl_bindTexture src (ggl_colorBuffer alloc dst c)) |>).

Definition same_shape (dst src : GGLSurface) : bool :=
  (gs_format dst =? gs_format src) && (gs_stride dst =? gs_stride src) && (gs_width dst =? gs_width src) &&
  (gs_height dst =? gs_height src) && (0 <? gs_stride dst).

(** [rasterizer] is the context's own, for its table of formats. *)
Definition copyPixels (rasterizer : context_t) (oom : bool) (alloc : Z) (dst : GGLSurface) (xoffset yoffset : Z) (src : GGLSurface)
    (x y w h : Z) (st : transfer_t) : option (Z * transfer_t) :=
  if same_shape dst src && (Z.lor x y =? 0) && (Z.lor xoffset yoffset =? 0) then
    let size := u32 (u32 (gs_height src * gs_stride src) * f_size (format_of rasterizer (gs_format src))) in
    m ← memcpy_apart size (gs_data dst) (gs_data src) (xf_m st); Some (0, mk_transfer (xf_ggl st) m)
  else
    ggl ← getRasterizer oom st;
    match ggl with
    | None => Some (GGL_OUT_OF_MEMORY, st)
    | Some d =>
        d ← transfer alloc dst src (s32 (x - xoffset)) (s32 (y - yoffset)) xoffset yoffset (s32 (xoffset + w)) (s32 (yoffset + h)) d;
        Some (0, mk_transfer (Some d) (d_m d))
    end.

(** ** [glReadPixels] *)

(** A surface of the rasterizer, as its owner passes it on. *)
Definition as_GGLSurface (s : surface_t) : GGLSurface :=
  mk_GGLSurface sizeof_GGLSurface (sf_width s) (sf_height s) (sf_stride s) (sf_data s) (sf_format s) 0.
Definition read_surface (c : ogles_context_t) : surface_t := fb_read (st_buffers (c_state (oc_rasterizer c))).

Definition read_format (format type : Z) : option Z :=
  if (format =? GL_RGBA) && (type =? GL_UNSIGNED_BYTE) then Some GGL_PIXEL_FORMAT_RGBA_8888
  else if (format =? GL_RGB) && (type =? GL_UNSIGNED_SHORT_5_6_5) then Some GGL_PIXEL_FORMAT_RGB_565
  else None.

(** The checks; 0 when they pass. *)
Definition read_error (c : ogles_context_t) (x y width height format type : Z) : Z :=
  if negb (format =? GL_RGBA) && negb (format =? GL_RGB) then GGL_INVALID_ENUM
  else if negb (type =? GL_UNSIGNED_BYTE) && negb (type =? GL_UNSIGNED_SHORT_5_6_5) then GGL_INVALID_ENUM
  else if (width <? 0) || (height <? 0) then GGL_INVALID_VALUE
  else if (x <? 0) || (y <? 0) then GGL_INVALID_VALUE
  else match read_format format type with
  | None => GGL_INVALID_OPERATION
  | Some _ =>
      let s := read_surface c in
      if (s32 (sf_width s) <? s32 (x + width)) || (s32 (sf_height s) <? s32 (y + height)) then GGL_INVALID_VALUE else 0
  end.

Definition glReadPixels (oom : bool) (alloc : Z) (x y width height format type pixels : Z) (c : ogles_context_t) (st : transfer_t)
    : option (ogles_context_t * transfer_t) :=
  let error := read_error c x y width height format type in
  if negb (error =? 0) then Some (gl_error error c, st)
  else
    let formatIdx := default 0 (read_format format type) in
    let size := f_size (format_of (oc_rasterizer c) formatIdx) in
    let stride := client_stride width size (tx_packAlignment (oc_textures c)) in
    ggl ← getRasterizer oom st;
    match ggl with
    | None => Some (gl_error GGL_OUT_OF_MEMORY c, st)
    | Some d =>
        let s := read_surface c in
        d ← transfer alloc (client_surface width height (s32 (- stride)) formatIdx pixels) (as_GGLSurface s)
              x (s32 (sf_height s - u32 (s32 (y + height)))) 0 0 width height d;
        Some (c, mk_transfer (Some d) (d_m d))
    end.

(** ** The formats accepted *)

(** C98: The formats and types of client pixels that are accepted without an error
    are exactly those that convert to a pixel format of the rasterizer. *)
Theorem validFormatType_converts c format type :
  fst (validFormatType c format type) = 0 <-> convertGLPixelFormat format type <> 0.
Proof.
  unfold validFormatType, format_type_error, convertGLPixelFormat. cbn [fst case_index existsb].
  destruct (Z.eqb_spec format GL_ALPHA) as [->|]; [|destruct (Z.eqb_spec format GL_RGB) as [->|]; [|destruct (Z.eqb_spec format GL_RGBA) as [->|];
    [|destruct (Z.eqb_spec format GL_LUMINANCE) as [->|]; [|destruct (Z.eqb_spec format GL_LUMINANCE_ALPHA) as [->|]]]]].
  1-5: destruct (Z.eqb_spec type GL_UNSIGNED_BYTE) as [->|]; [by vm_compute|]; destruct (Z.eqb_spec type GL_UNSIGNED_SHORT_5_6_5) as [->|]; [by vm_compute|];
    destruct (Z.eqb_spec type GL_UNSIGNED_SHORT_4_4_4_4) as [->|]; [by vm_compute|]; destruct (Z.eqb_spec type GL_UNSIGNED_SHORT_5_5_5_1) as [->|]; by vm_compute.
  assert ((format <? GL_ALPHA) || (GL_LUMINANCE_ALPHA <? format) = true) as ->.
  { unfold GL_ALPHA, GL_RGB, GL_RGBA, GL_LUMINANCE, GL_LUMINANCE_ALPHA in *. destruct (Z.ltb_spec format 0x1906), (Z.ltb_spec 0x190A format); try done; lia. }
  split; [|by intros H; exfalso; apply H].
  intros H. exfalso. revert H. repeat case_match; done.
Qed.

(** ** The state of the second rasterizer

    What the commands of a transfer never change ([setup]), where the surfaces
    are ([layout]), and how the pipeline is kept in step with them. *)

Definition place (s : surface_t) : Z * Z * Z * Z * Z := (sf_data s, sf_stride s, sf_width s, sf_height s, sf_format s).
Definition setup (c : context_t) :=
  (c_formats c, c_activeTMU c, enables c, mk_color (st_mask (c_state c)), length (c_gen_tex c),
   map (fun t => (tx_enable t, tx_env t, tx_s_coord t, tx_t_coord t, tx_min_filter t, tx_mag_filter t)) (st_texture (c_state c))).
Definition layout (c : context_t) :=
  (place (fb_color (st_buffers (c_state c))), map (fun t => (place (tx_surface t), tx_shade t)) (st_texture (c_state c)), st_scissor (c_state c)).

Definition transfer_context : context_t := Eval vm_compute in
  match exec_all transfer_commands ggl_init_context with Some c => c | None => ggl_init_context end.
Lemma transfer_context_eq : exec_all transfer_commands ggl_init_context = Some transfer_context.
Proof. vm_compute. reflexivity. Qed.

Definition texture_format (c : context_t) : Z := sf_format (tx_surface (nth 0 (st_texture (c_state c)) zero_texture)).
(** The formats of client pixels and of what they are drawn to. *)
Definition transfer_format (f : Z) : Prop := 0 <= f < 12.
(** The needs of a transfer to format [f] from format [tf]. *)
Definition needs_cb (f : Z) : Z := Z.lor f 0x03010100.
Definition needs_tf (tf : Z) : Z := Z.lor tf 0xA00.
Definition transfer_needs (f tf : Z) : needs_t := mk_needs (needs_cb f) 0x77 [needs_tf tf; 0].

Record transfer_ok (c : context_t) : Prop := mk_transfer_ok {
  to_setup : setup c = setup transfer_context;
  to_formats : transfer_format (cb_format c) /\ transfer_format (texture_format c);
  to_pipeline : has (c_dirty c) GGL_PIXEL_PIPELINE_STATE = false ->
    needs_p (st_needs (c_state c)) = 0x77 /\
    exists f, transfer_format f /\ needs_n (st_needs (c_state c)) = needs_cb f /\ (has (c_dirty c) GGL_CB_STATE = false -> f = cb_format c);
  to_tmu : has (c_dirty c) GGL_TMU_STATE = false -> needs_tx (st_needs (c_state c)) = [needs_tf (texture_format c); 0];
  to_length : length (needs_tx (st_needs (c_state c))) = 2%nat;
  to_picked : needs_p (st_needs (c_state c)) = 0x77 ->
    c_scanline c = c_scanline (pick_scanline c) /\ c_init_y c = c_init_y (pick_scanline c);
  to_procs : In (pr_recti (c_procs c)) [use_recti_validate; use_recti] /\ (c_dirty c <> 0 -> pr_recti (c_procs c) = use_recti_validate) }.

Lemma transfer_context_ok : transfer_ok transfer_context.
Proof. split; try done; try (unfold transfer_format; cbn; lia). split; [by left|done]. Qed.

Lemma setup_start c : setup c = setup transfer_context ->
  c_formats c = gPixelFormatInfos /\ c_activeTMU c = 0 /\ enables c = GGL_ENABLE_TMUS /\ mk_color (st_mask (c_state c)) = 15 /\
  length (c_gen_tex c) = 2%nat /\
  exists t0 t1, st_texture (c_state c) = [t0; t1] /\
    (tx_enable t0, tx_env t0, tx_s_coord t0, tx_t_coord t0, tx_min_filter t0, tx_mag_filter t0) =
      (1, GGL_REPLACE, GGL_ONE_TO_ONE, GGL_ONE_TO_ONE, GGL_NEAREST, GGL_NEAREST) /\ tx_enable t1 = 0.
Proof.
  intros E. unfold setup in E. injection E as E1 E2 E3 E4 E5 E6. split_and!; try done.
  destruct (st_texture (c_state c)) as [|t0 [|t1 [|]]]; try done. cbn in E6. injection E6 as H1 H2 H3 H4 H5 H6 H7 H8 H9 H10 H11 H12.
  exists t0, t1. rewrite H1, H2, H3, H4, H5, H6. done.
Qed.

Lemma transfer_format_cases f (P : Z -> Prop) : transfer_format f -> Forall P [0; 1; 2; 3; 4; 5; 6; 7; 8; 9; 10; 11] -> P f.
Proof.
  intros Hf HP. assert (f = 0 \/ f = 1 \/ f = 2 \/ f = 3 \/ f = 4 \/ f = 5 \/ f = 6 \/ f = 7 \/ f = 8 \/ f = 9 \/ f = 10 \/ f = 11) as H by (unfold transfer_format in Hf; lia).
  rewrite Forall_forall in HP. apply HP. rewrite !elem_of_cons. destruct H as [->|[->|[->|[->|[->|[->|[->|[->|[->|[->|[->| ->]]]]]]]]]]]; tauto.
Qed.
Ltac each_format f Hf := pattern f; apply (transfer_format_cases f _ Hf); repeat (apply List.Forall_cons; [|]); try apply List.Forall_nil.

Lemma pipeline_needs c : setup c = setup transfer_context -> transfer_format (cb_format c) ->
  needs_pipeline_n c = needs_cb (cb_format c) /\ needs_pipeline_p c = 0x77.
Proof.
  intros E Hf. apply setup_start in E as (_ & _ & Ee & Em & _). unfold needs_pipeline_n, needs_pipeline_p, needs_blend. rewrite Ee, Em.
  fold (cb_format c). split; [|reflexivity]. revert Hf. generalize (cb_format c). intros f Hf. each_format f Hf; reflexivity.
Qed.

Lemma texture_needs c l : setup c = setup transfer_context -> transfer_format (texture_format c) -> length l = 2%nat ->
  needs_textures c l = [needs_tf (texture_format c); 0].
Proof.
  intros E Hf Hl. apply setup_start in E as (_ & _ & _ & _ & _ & t0 & t1 & Et & [= E1 E2 E3 E4 E5 E6] & E0).
  destruct l as [|x [|y [|]]]; try done. unfold needs_textures, needs_texture_step, texture, texture_format in *. rewrite Et in *. cbn in *.
  change (Z.to_nat 0) with 0%nat. change (Z.to_nat 1) with 1%nat. cbn. rewrite E1, E0. cbn. f_equal. unfold needs_texture. rewrite E2, E3, E4, E5, E6.
  revert Hf. generalize (sf_format (tx_surface t0)). intros f Hf. each_format f Hf; reflexivity.
Qed.

Lemma replace_needs_cb g f : transfer_format g -> transfer_format f ->
  Z.lor (clear_bits (NEEDS_MASK NEEDS_CB_FORMAT) (needs_cb g)) (GGL_BUILD_NEEDS f NEEDS_CB_FORMAT) = needs_cb f.
Proof.
  intros Hg Hf. assert (clear_bits (NEEDS_MASK NEEDS_CB_FORMAT) (needs_cb g) = 0x03010100) as -> by (each_format g Hg; reflexivity).
  each_format f Hf; reflexivity.
Qed.

(** The needs the pipeline is picked for are those of the two formats. *)
Lemma transfer_new_needs c : transfer_ok c -> fst (new_needs c) = transfer_needs (cb_format c) (texture_format c).
Proof.
  intros [E [Hf Htf] HP HT Hl _ _]. destruct (pipeline_needs c E Hf) as [Pn Pp]. destruct (setup_start c E) as (_ & _ & Ee & _).
  unfold new_needs. rewrite Ee. change (has GGL_ENABLE_TMUS GGL_ENABLE_BLENDING) with false. cbv iota.
  destruct (st_needs (c_state c)) as [n p tx]. cbn [needs_n needs_p needs_tx] in *.
  destruct (has (c_dirty c) GGL_CB_STATE) eqn:DC, (has (c_dirty c) GGL_PIXEL_PIPELINE_STATE) eqn:DP, (has (c_dirty c) GGL_TMU_STATE) eqn:DT; cbn;
    rewrite ?Pn, ?Pp, ?(texture_needs c tx E Htf Hl); try rewrite (HT eq_refl); try done.
  all: destruct (HP eq_refl) as (-> & g & Hg & -> & Hgf); rewrite ?replace_needs_cb by done; try rewrite (Hgf eq_refl); done.
Qed.

(** ** The pick *)

Lemma pick_scanline_ext c c' : c_formats c' = c_formats c -> st_needs (c_state c') = st_needs (c_state c) ->
  c_scanline (pick_scanline c') = c_scanline (pick_scanline c) /\ c_init_y (pick_scanline c') = c_init_y (pick_scanline c).
Proof.
  intros Ef En. unfold pick_scanline, format_of. rewrite Ef, En.
  assert (forall d d' : context_t, st_needs (c_state d') = st_needs (c_state d) ->
    c_scanline (pick_shortcut d') = c_scanline (pick_shortcut d) /\ c_init_y (pick_shortcut d') = c_init_y (pick_shortcut d)) as HS.
  { intros d d' E. unfold pick_shortcut. rewrite E. by destruct (find_shortcut _). }
  destruct (_ && has_rgb _); [done|]. destruct (needs_match _ fill16noblend); [|by apply HS].
  change (c_formats (c' <| c_init_y := use_init_y_packed |>)) with (c_formats c'). change (c_formats (c <| c_init_y := use_init_y_packed |>)) with (c_formats c).
  rewrite Ef. repeat (destruct (_ =? _); [done|]). by apply (HS (c <| c_init_y := use_init_y_packed |>) (c' <| c_init_y := use_init_y_packed |>)).
Qed.

Lemma pick_texture_unit_place t g : place (tx_surface (fst (pick_texture_unit t g))) = place (tx_surface t) /\
  tx_shade (fst (pick_texture_unit t g)) = tx_shade t /\
  (tx_enable (fst (pick_texture_unit t g)), tx_env (fst (pick_texture_unit t g)), tx_s_coord (fst (pick_texture_unit t g)),
   tx_t_coord (fst (pick_texture_unit t g)), tx_min_filter (fst (pick_texture_unit t g)), tx_mag_filter (fst (pick_texture_unit t g))) =
  (tx_enable t, tx_env t, tx_s_coord t, tx_t_coord t, tx_min_filter t, tx_mag_filter t).
Proof. unfold pick_texture_unit. destruct (_ || _); [done|]. cbn. unfold pick_read_write. repeat case_match; done. Qed.

Lemma pick_cb_place c : exists s, ggl_pick_cb c = upd_buffers (fun b => b <| fb_color := s |>) c /\ place s = place (fb_color (st_buffers (c_state c))).
Proof.
  unfold ggl_pick_cb. destruct (sf_dirty _ =? 0).
  - exists (fb_color (st_buffers (c_state c))). by destruct c as [? [[] ? ? ? ? ? ? ? ? ? ? ? ? ?] ? ? ? ? ? ? ? ? ? ? ? ?].
  - eexists. split; [reflexivity|]. unfold pick_read_write. repeat case_match; done.
Qed.

(** What a full pick leaves, and picks. *)
Lemma repick_spec c n : setup c = setup transfer_context ->
  let c' := ggl_pick_scanline (ggl_pick_cb (ggl_pick_texture (upd_state (fun st => st <| st_needs := n |>) c))) in
  setup c' = setup c /\ layout c' = layout c /\ c_procs c' = c_procs c /\ st_needs (c_state c') = n /\
  c_scanline c' = c_scanline (pick_scanline c') /\ c_init_y c' = c_init_y (pick_scanline c').
Proof.
  intros E c'. destruct (setup_start c E) as (_ & _ & Ee & _ & Hg & t0 & t1 & Et & _).
  subst c'. set (cn := upd_state (fun st => st <| st_needs := n |>) c). destruct (pick_texture_two cn t0 t1 Et Hg) as (g0 & g1 & ->).
  match goal with |- context [ggl_pick_cb ?x] => set (c1 := x) end. destruct (pick_cb_place c1) as (s & -> & Es).
  set (c2 := upd_buffers _ c1). assert (ggl_pick_scanline c2 = pick_scanline c2) as ->.
  { unfold ggl_pick_scanline. destruct (pick_scanline_frame c2) as (a & i & y & ->). unfold enables in Ee. cbn. by rewrite Ee. }
  assert (c_scanline (pick_scanline (pick_scanline c2)) = c_scanline (pick_scanline c2) /\
    c_init_y (pick_scanline (pick_scanline c2)) = c_init_y (pick_scanline c2)) as [X1 X2].
  { destruct (pick_scanline_frame c2) as (a & i & y & E2). rewrite E2 at 1 3. apply pick_scanline_ext; done. }
  split_and!; try done.
  - destruct (pick_scanline_frame c2) as (a & i & y & ->). unfold setup. cbn. rewrite Et. cbn.
    destruct (pick_texture_unit_place t0 g0) as (_ & _ & ->). destruct (pick_texture_unit_place t1 g1) as (_ & _ & ->). by rewrite Hg.
  - destruct (pick_scanline_frame c2) as (a & i & y & ->). unfold layout. cbn. rewrite Et. cbn. rewrite Es.
    destruct (pick_texture_unit_place t0 g0) as (-> & -> & _). by destruct (pick_texture_unit_place t1 g1) as (-> & -> & _).
  - by destruct (pick_scanline_frame c2) as (a & i & y & ->).
  - by destruct (pick_scanline_frame c2) as (a & i & y & ->).
Qed.

Lemma layout_formats c c' : layout c' = layout c -> cb_format c' = cb_format c /\ texture_format c' = texture_format c.
Proof.
  unfold layout, cb_format, texture_format, place. intros E. injection E as _ _ _ _ E1 E2 _. split; [done|].
  destruct (st_texture (c_state c')) as [|a ?], (st_texture (c_state c)) as [|b ?]; try done. cbn in *. by injection E2.
Qed.

Lemma pick_transfer c : transfer_ok c ->
  transfer_ok (ggl_pick c) /\ c_dirty (ggl_pick c) = 0 /\ layout (ggl_pick c) = layout c /\ c_procs (ggl_pick c) = c_procs c /\
  st_needs (c_state (ggl_pick c)) = transfer_needs (cb_format c) (texture_format c).
Proof.
  intros H. pose proof (transfer_new_needs c H) as HN. pose proof H as [E [Hf Htf] HP HT Hl HK [Hr Hv]]. unfold ggl_pick.
  destruct (Z.eqb_spec (c_dirty c) 0) as [D|D].
  { split; [done|]. split; [done|]. split; [done|]. split; [done|]. rewrite <-HN. unfold new_needs. rewrite D. done. }
  destruct (new_needs c) as [n d]. cbn [fst] in HN. subst n. case_bool_decide as En; cbn [negb].
  - split_and!; try done. split; try done; cbn; rewrite <-?En.
    + intros _. split; [done|]. by exists (cb_format c).
    + done.
    + intros _. destruct (HK ltac:(by rewrite <-En)) as [-> ->]. split; symmetry; by apply pick_scanline_ext.
  - destruct (repick_spec c (transfer_needs (cb_format c) (texture_format c)) E) as (S & L & P & N & X1 & X2).
    set (c' := ggl_pick_scanline _) in *. clearbody c'. destruct (layout_formats c c' L) as [Fc Ft]. split_and!; try done.
    split; cbn; try done.
    + by rewrite <-E, <-S.
    + by rewrite <-Fc, <-Ft in *.
    + intros _. rewrite N. split; [done|]. exists (cb_format c). split; [done|]. split; [done|]. intros _. by rewrite <-Fc.
    + intros _. rewrite N. unfold transfer_needs. cbn. by rewrite <-Ft.
    + by rewrite N.
    + intros _. rewrite X1, X2. split; symmetry; by apply pick_scanline_ext.
    + by rewrite P.
Qed.

Definition rgb_format (f : Z) : bool := has_rgb (f_components (nth (Z.to_nat f) gPixelFormatInfos no_format)).

(** Between surfaces of one format with color, rows are copied. *)
Lemma memcpy_picked c f : c_formats c = gPixelFormatInfos -> transfer_format f -> rgb_format f = true ->
  st_needs (c_state c) = transfer_needs f f ->
  c_scanline (pick_scanline c) = use_scanline_memcpy /\ c_init_y (pick_scanline c) = use_init_y_noop.
Proof.
  intros Ef Hf Hr En. unfold pick_scanline, format_of. rewrite Ef, En. revert Hr. each_format f Hf; intros Hr; try discriminate Hr; split; reflexivity.
Qed.

(** ** The commands of a transfer *)

Lemma has_set_bits b x b' : has (set_bits b x) b' = false -> has x b' = false /\ has b b' = false.
Proof.
  unfold has, set_bits. rewrite !negb_false_iff, !Z.eqb_eq, Z.land_lor_distr_l. intros H%Z.lor_eq_0_iff. done.
Qed.

(** A change that does not touch the pipeline, as far as it is marked. *)
Lemma transfer_frame c c' : transfer_ok c -> setup c' = setup c -> st_needs (c_state c') = st_needs (c_state c) ->
  c_scanline c' = c_scanline c -> c_init_y c' = c_init_y c ->
  transfer_format (cb_format c') -> transfer_format (texture_format c') ->
  (forall b, has (c_dirty c') b = false -> has (c_dirty c) b = false) ->
  (has (c_dirty c') GGL_CB_STATE = false -> cb_format c' = cb_format c) ->
  (has (c_dirty c') GGL_TMU_STATE = false -> texture_format c' = texture_format c) ->
  In (pr_recti (c_procs c')) [use_recti_validate; use_recti] -> (c_dirty c' <> 0 -> pr_recti (c_procs c') = use_recti_validate) ->
  transfer_ok c'.
Proof.
  intros [E _ HP HT Hl HK _] ES EN EX EI Fc Ft HD HC HM R1 R2. split; rewrite ?EN; try done.
  - congruence.
  - intros D. destruct (HP (HD _ D)) as (P & f & Hf & Hn & Hc). split; [done|]. exists f. split; [done|]. split; [done|].
    intros D'. rewrite HC by done. by apply Hc, HD.
  - intros D. rewrite HM by done. by apply HT, HD.
  - intros P. rewrite EX, EI. destruct (HK P) as [-> ->]. split; symmetry; apply pick_scanline_ext; try done.
    all: unfold setup in ES; congruence.
Qed.

(** A state change that a condition marks. *)
Record marked (flags : Z) (b : bool) (c c1 : context_t) : Prop := mk_marked {
  mk_setup : setup c1 = setup c; mk_state : c_state c1 = c_state c; mk_scanline : c_scanline c1 = c_scanline c; mk_init_y : c_init_y c1 = c_init_y c;
  mk_dirty : forall b', has (c_dirty c1) b' = false -> has (c_dirty c) b' = false;
  mk_flags : has (c_dirty c1) flags = false -> b = false;
  mk_recti : In (pr_recti (c_procs c1)) [use_recti_validate; use_recti];
  mk_validate : c_dirty c1 <> 0 -> pr_recti (c_procs c1) = use_recti_validate }.

Lemma marked_if flags (b : bool) c : flags <> 0 -> transfer_ok c -> marked flags b c (if b then ggl_state_changed flags c else c).
Proof.
  intros Hf [_ _ _ _ _ _ [Hr Hv]]. destruct b; [|by split].
  assert (pr_recti (c_procs (ggl_state_changed flags c)) = use_recti_validate) as R.
  { unfold ggl_state_changed. destruct (Z.eqb_spec (c_dirty c) 0); cbn; [done|by apply Hv]. }
  assert (c_dirty (ggl_state_changed flags c) = set_bits flags (c_dirty c)) as D by (unfold ggl_state_changed; by destruct (c_dirty c =? 0)).
  split; rewrite ?D, ?R; try (unfold ggl_state_changed; by destruct (c_dirty c =? 0)).
  - intros b' Hb. by apply has_set_bits in Hb as [? _].
  - intros Hb. apply has_set_bits in Hb as [_ Hb]. exfalso. apply Hf. revert Hb. unfold has. rewrite Z.land_diag, negb_false_iff. apply Z.eqb_eq.
  - by left.
Qed.

(** The pixels of a surface in the rasterizer's own form: from its first row in
    memory when the stride is negative. *)
Definition placed (s : GGLSurface) : Z :=
  let size := f_size (nth (Z.to_nat (gs_format s)) gPixelFormatInfos no_format) in
  gs_data s + (if gs_stride s <? 0 then u32 (s32 (s32 (- gs_stride s) * size) * u32 (gs_height s - 1)) else 0).

Lemma set_surface_place c s old : c_formats c = gPixelFormatInfos ->
  place (ggl_set_surface c s old) = (placed s, gs_stride s, gs_width s, gs_height s, gs_format s).
Proof.
  intros E. unfold ggl_set_surface, place, placed, format_of. rewrite E. cbn. destruct (gs_stride s <? 0); cbn; [done|]. by rewrite Z.add_0_r.
Qed.

Definition scissor_to (dst : GGLSurface) (sc : scissor_t) : scissor_t :=
  sc <| sc_left := 0 |> <| sc_top := 0 |> <| sc_right := gs_width dst |> <| sc_bottom := gs_height dst |>.

Definition with_buffers (b : framebuffer_t) (c : context_t) : context_t := upd_state (fun st => st <| st_buffers := b |>) c.
Lemma upd_buffers_eq f c : upd_buffers f c = with_buffers (f (st_buffers (c_state c))) c.
Proof. done. Qed.
Lemma with_buffers_coverage alloc dst c : exists b,
  (if fb_coverageBufferSize (st_buffers (c_state c)) <? gs_width dst
   then upd_buffers (fun b => b <| fb_coverage := alloc |> <| fb_coverageBufferSize := if alloc =? 0 then 0 else gs_width dst |>) c
   else c) = with_buffers b c /\ fb_read b = fb_read (st_buffers (c_state c)).
Proof.
  destruct (_ <? _); [eexists; split; [apply upd_buffers_eq|done]|]. exists (st_buffers (c_state c)). split; [|done].
  by destruct c as [? [] ? ? ? ? ? ? ? ? ? ? ? ?].
Qed.

(** The color buffer is set to [dst], drawing to all of it. *)
Lemma colorBuffer_transfer alloc dst c : transfer_ok c -> transfer_format (gs_format dst) ->
  let c' := ggl_colorBuffer alloc dst c in
  transfer_ok c' /\ place (fb_color (st_buffers (c_state c'))) = (placed dst, gs_stride dst, gs_width dst, gs_height dst, gs_format dst) /\
  st_texture (c_state c') = st_texture (c_state c) /\ st_scissor (c_state c') = scissor_to dst (st_scissor (c_state c)).
Proof.
  intros H Hf c'. pose proof H as [E [Hc Ht] _ _ _ _ [Hr Hv]]. destruct (setup_start c E) as (Ef & _ & Ee & _).
  set (c1 := if negb (gs_format dst =? cb_format c) then ggl_state_changed GGL_CB_STATE c else c).
  assert (marked GGL_CB_STATE (negb (gs_format dst =? cb_format c)) c c1) as K by (by apply marked_if).
  destruct (setup_start c1) as (F1 & _ & F2 & _); [rewrite (mk_setup _ _ _ _ K); exact E|].
  assert (exists b, c' = upd_state (fun st => st <| st_buffers := b |> <| st_scissor := scissor_to dst (st_scissor (c_state c)) |>) c1 /\
    place (fb_color b) = (placed dst, gs_stride dst, gs_width dst, gs_height dst, gs_format dst)) as (b & -> & Eb).
  { exists (st_buffers (c_state c')). unfold c', ggl_colorBuffer. fold (cb_format c). fold c1. clearbody c1.
    destruct (with_buffers_coverage alloc dst c1) as (b2 & E2 & E2r). rewrite E2.
    rewrite !upd_buffers_eq. change (st_buffers (c_state (with_buffers b2 c1))) with b2.
    set (b3 := b2 <| fb_color ::= _ |>).
    assert (place (fb_color b3) = (placed dst, gs_stride dst, gs_width dst, gs_height dst, gs_format dst)) as Ep by (by apply set_surface_place).
    change (with_buffers b3 (with_buffers b2 c1)) with (with_buffers b3 c1). clearbody b3.
    set (c4 := if sf_format _ =? 0 then _ else _). assert (exists b4, c4 = with_buffers b4 c1 /\ fb_color b4 = fb_color b3) as (b4 & E4 & Eb4).
    { unfold c4. destruct (sf_format _ =? 0); [|by exists b3]. eexists. split; [reflexivity|done]. }
    rewrite E4. unfold ggl_set_scissor. change (enables (with_buffers b4 c1)) with (enables c1). rewrite F2. cbn. rewrite Eb4, (mk_state _ _ _ _ K).
    unfold place in Ep. injection Ep as P1 P2 P3 P4 P5. unfold place. rewrite P1, P2, P3, P4, P5. done. }
  clearbody c1. split; [|cbn; by rewrite (mk_state _ _ _ _ K)].
  assert (sf_format (fb_color b) = gs_format dst) as Eb' by (unfold place in Eb; by injection Eb).
  destruct K as [K1 K2 K3 K4 K5 K6 K7 K8]. apply (transfer_frame c); try done.
  - cbn. by rewrite K2.
  - unfold cb_format. cbn. by rewrite Eb'.
  - unfold texture_format. cbn. by rewrite K2.
  - intros D. apply K6 in D. apply negb_false_iff, Z.eqb_eq in D. unfold cb_format at 1. cbn. congruence.
  - intros _. unfold texture_format. cbn. by rewrite K2.
Qed.

(** The texture is set to [src], one texel to a pixel at the given distance. *)
Lemma bindTexture_transfer src s t c : transfer_ok c -> transfer_format (gs_format src) ->
  let c' := ggl_texCoord2i s t (ggl_bindTexture src c) in
  transfer_ok c' /\ fb_color (st_buffers (c_state c')) = fb_color (st_buffers (c_state c)) /\ st_scissor (c_state c') = st_scissor (c_state c) /\
  exists t0 l, st_texture (c_state c') = t0 :: l /\ place (tx_surface t0) = (placed src, gs_stride src, gs_width src, gs_height src, gs_format src) /\
    ts_is0 (tx_shade t0) = s32 (Z.shiftl s 16) /\ ts_it0 (tx_shade t0) = s32 (Z.shiftl t 16).
Proof.
  intros H Hf c'. pose proof H as [E [Hc Ht] _ _ _ _ [Hr Hv]]. destruct (setup_start c E) as (Ef & Ea & Ee & _ & _ & t0 & t1 & Et & Ek & _).
  unfold texture_format in Ht. rewrite Et in Ht. cbn in Ht.
  set (c1 := if negb (gs_format src =? texture_format c) then ggl_state_changed GGL_TMU_STATE c else c).
  assert (marked GGL_TMU_STATE (negb (gs_format src =? texture_format c)) c c1) as K by (by apply marked_if).
  destruct (setup_start c1) as (F1 & F2 & _); [rewrite (mk_setup _ _ _ _ K); exact E|]. pose proof (mk_state _ _ _ _ K) as F3.
  set (t0' := t0 <| tx_surface ::= ggl_set_surface c1 src |> <| tx_shade ::= fun sh =>
    sh <| ts_is0 := s32 (Z.shiftl s 16) |> <| ts_it0 := s32 (Z.shiftl t 16) |> <| ts_sscale := 0 |> <| ts_tscale := 0 |> |>).
  assert (c' = upd_state (fun st => st <| st_texture := [t0'; t1] |>) c1) as ->.
  { unfold c', ggl_texCoord2i, ggl_texCoord2x, ggl_bindTexture, upd_activeTMU, upd_texture, activeTMU, texture. rewrite Ea.
    change (Z.to_nat 0) with 0%nat. fold (texture_format c). fold c1. rewrite F2. change (Z.to_nat 0) with 0%nat.
    unfold upd_state. destruct c1 as [? [] ? ? ? ? ? ? ? ? ? ? ? ?]; cbn in *. rewrite <-F3 in Et. cbn in Et. rewrite Et. cbn. by rewrite F2. }
  assert (place (tx_surface t0') = (placed src, gs_stride src, gs_width src, gs_height src, gs_format src)) as Ep by (by apply set_surface_place).
  split; [|split; [cbn; by rewrite F3|split; [cbn; by rewrite F3|by exists t0', [t1]]]].
  assert (sf_format (tx_surface t0') = gs_format src) as Es' by (unfold place in Ep; by injection Ep).
  assert (texture_format c = sf_format (tx_surface t0)) as Et0 by (unfold texture_format; by rewrite Et).
  clearbody c1. destruct K as [K1 K2 K3 K4 K5 K6 K7 K8]. apply (transfer_frame c); try done.
  - rewrite <-K1. unfold setup, enables. cbn. by rewrite K2, Et.
  - cbn. by rewrite K2.
  - unfold cb_format. cbn. by rewrite K2.
  - unfold texture_format. cbn. unfold t0' in Es'. cbn in Es'. by rewrite Es'.
  - intros _. unfold cb_format. cbn. by rewrite K2.
  - intros D. apply K6 in D. apply negb_false_iff, Z.eqb_eq in D. unfold texture_format at 1. cbn. unfold t0' in Es'. cbn in Es'. by rewrite Es'.
Qed.

(** ** Copying rows *)

Lemma memcpy_spec n : forall dst src m, is_mem m -> dst + Z.of_nat n <= src \/ src + Z.of_nat n <= dst ->
  is_mem (memcpy n dst src m) /\
  (forall k, 0 <= k < Z.of_nat n -> memcpy n dst src m (dst + k) = m (src + k)) /\
  (forall a, a < dst \/ dst + Z.of_nat n <= a -> memcpy n dst src m a = m a).
Proof.
  induction n as [|n IH]; intros dst src m Hm Hd; cbn [memcpy].
  { split; [done|]. split; [lia|done]. }
  destruct (IH (dst + 1) (src + 1) (store8 m dst (load8 m src)) (is_mem_store8 _ _ _ Hm) ltac:(lia)) as (M & J & F). split; [done|]. split.
  - intros k Hk. destruct (Z.eq_dec k 0) as [->|].
    + rewrite F by lia. unfold store8, load8. rewrite !Z.add_0_r, Z.eqb_refl. apply u8_id, Hm.
    + replace (dst + k) with (dst + 1 + (k - 1)) by lia. rewrite J by lia. unfold store8.
      destruct (Z.eqb_spec (src + 1 + (k - 1)) dst); [lia|]. f_equal. lia.
  - intros a Ha. rewrite F by lia. unfold store8. destruct (Z.eqb_spec a dst); [lia|done].
Qed.

(** [n] rows of [w] bytes are moved, from rows in [lo .. hi - 1] to rows outside. *)
Definition rows_copied (n w dbpr sbpr dst src : Z) (m m' : mem) : Prop :=
  is_mem m' /\
  (forall j k, 0 <= j < n -> 0 <= k < w -> m' (dst + j * dbpr + k) = m (src + j * sbpr + k)) /\
  (forall a, (forall j k, 0 <= j < n -> 0 <= k < w -> a <> dst + j * dbpr + k) -> m' a = m a).

Lemma copy_rows_spec lo hi dlo dhi w dbpr sbpr n : Z.of_nat w <= Z.abs dbpr -> dhi <= lo \/ hi <= dlo -> forall dst src m, is_mem m ->
  (forall j, 0 <= j < Z.of_nat n -> lo <= src + j * sbpr /\ src + j * sbpr + Z.of_nat w <= hi) ->
  (forall j, 0 <= j < Z.of_nat n -> dlo <= dst + j * dbpr /\ dst + j * dbpr + Z.of_nat w <= dhi) ->
  rows_copied (Z.of_nat n) (Z.of_nat w) dbpr sbpr dst src m (copy_rows n w dbpr sbpr dst src m).
Proof.
  intros Hw Hapart. induction n as [|n IH]; intros dst src m Hm Hs Hd; cbn [copy_rows].
  { split; [done|]. split; [lia|done]. }
  pose proof (Hs 0 ltac:(lia)) as Hs0. pose proof (Hd 0 ltac:(lia)) as Hd0. rewrite !Z.mul_0_l, !Z.add_0_r in Hs0, Hd0.
  destruct (memcpy_spec w dst src m Hm ltac:(lia)) as (M1 & J1 & F1). set (m1 := memcpy w dst src m) in *.
  assert (forall j, 0 <= j < Z.of_nat n -> src + sbpr + j * sbpr = src + (1 + j) * sbpr /\ dst + dbpr + j * dbpr = dst + (1 + j) * dbpr) as EJ by (intros; split; ring).
  destruct (IH (dst + dbpr) (src + sbpr) m1 M1) as (M & J & F).
  { intros j Hj. destruct (EJ j Hj) as [-> _]. apply Hs. lia. }
  { intros j Hj. destruct (EJ j Hj) as [_ ->]. apply Hd. lia. }
  split; [done|]. split.
  - intros j k Hj Hk. destruct (Z.eq_dec j 0) as [->|].
    + rewrite F; [rewrite !Z.mul_0_l, !Z.add_0_r; by apply J1|]. intros j k' Hj' Hk'. destruct (EJ j Hj') as [_ ->].
      assert (Z.of_nat w <= Z.abs ((1 + j) * dbpr)) by (rewrite Z.abs_mul, (Z.abs_eq (1 + j)) by lia; nia). lia.
    + replace (dst + j * dbpr + k) with (dst + dbpr + (j - 1) * dbpr + k) by ring. rewrite J by lia.
      replace (src + sbpr + (j - 1) * sbpr + k) with (src + j * sbpr + k) by ring. apply F1. pose proof (Hs j ltac:(lia)). lia.
  - intros a Ha. rewrite F; [apply F1|].
    + destruct (Z.lt_ge_cases a dst); [by left|]. destruct (Z.le_gt_cases (dst + Z.of_nat w) a); [by right|]. exfalso.
      apply (Ha 0 (a - dst)); lia.
    + intros j k Hj Hk. destruct (EJ j Hj) as [_ ->]. apply (Ha (1 + j) k); lia.
Qed.

(** ** A transfer between surfaces of one format *)

(** Surfaces whose pixels are indexed by an [int]. *)
Record surface_fits (s : GGLSurface) (size : Z) : Prop := {
  sfit_format : transfer_format (gs_format s) /\ f_size (nth (Z.to_nat (gs_format s)) gPixelFormatInfos no_format) = size;
  sfit_sides : 0 <= gs_width s < 2 ^ 15 /\ 0 <= gs_height s < 2 ^ 15;
  sfit_stride : gs_width s <= Z.abs (gs_stride s) /\ Z.abs (gs_stride s) * gs_height s * size < 2 ^ 31 }.

Definition pixel_of (s : GGLSurface) (size x y : Z) : Z := placed s + (y * gs_stride s + x) * size.
(** A rectangle of a surface is in the bytes [lo .. hi - 1]. *)
Definition within (s : GGLSurface) (size x y w h lo hi : Z) : Prop := forall i j, 0 <= i < w -> 0 <= j < h ->
  lo <= pixel_of s size (x + i) (y + j) /\ pixel_of s size (x + i) (y + j) + size <= hi.
Definition rect_copied (dst src : GGLSurface) (size xo yo x y w h : Z) (m m' : mem) : Prop :=
  is_mem m' /\
  (forall i j k, 0 <= i < w -> 0 <= j < h -> 0 <= k < size ->
    m' (pixel_of dst size (xo + i) (yo + j) + k) = m (pixel_of src size (x + i) (y + j) + k)) /\
  (forall a, (forall i j k, 0 <= i < w -> 0 <= j < h -> 0 <= k < size -> a <> pixel_of dst size (xo + i) (yo + j) + k) -> m' a = m a).

Lemma call_recti_transfer l t r b d : transfer_ok (d_c d) -> exists c',
  call_recti l t r b d = play (recti (draw_scissor c') l t r b) (d <| d_c := c' |>) /\ transfer_ok c' /\ layout c' = layout (d_c d) /\
  st_needs (c_state c') = transfer_needs (cb_format c') (texture_format c').
Proof.
  intros H. destruct (pick_transfer (d_c d) H) as (H' & D & L & P & N). pose proof (to_procs _ H) as [Hr Hv]. pose proof (to_procs _ H') as [Hr' _].
  assert (forall p, In (pr_recti p) [use_recti_validate; use_recti] -> let c' := (ggl_pick (d_c d)) <| c_procs := p |> in
    transfer_ok c' /\ layout c' = layout (d_c d) /\ st_needs (c_state c') = transfer_needs (cb_format c') (texture_format c')) as HP.
  { intros p Hp c'. destruct (layout_formats _ _ L) as [F1 F2]. split; [|split; [exact L|]].
    - apply (transfer_frame (ggl_pick (d_c d))); try done; apply (to_formats _ H').
    - unfold c', cb_format, texture_format in *. cbn. by rewrite F1, F2. }
  unfold call_recti. destruct Hr as [E|[E|[]]]; rewrite <-E.
  - exists (recti_validate (d_c d)). split; [|apply (HP (_ <| pr_recti := use_recti |>)); right; by left].
    done.
  - exists (d_c d). assert (ggl_pick (d_c d) = d_c d) as EP.
    { unfold ggl_pick. destruct (Z.eqb_spec (c_dirty (d_c d)) 0) as [|Hd]; [done|]. by rewrite (Hv Hd) in E. }
    split; [by destruct d|]. rewrite EP in *. by split_and!.
Qed.

(** The addresses [int] arithmetic computes are those of the pixels. *)
Lemma pixel_index s size x y : surface_fits s size -> 1 <= size <= 4 -> 0 <= x < gs_width s -> 0 <= y < gs_height s ->
  placed s + s32 (s32 (x + s32 (gs_stride s * y)) * size) = pixel_of s size x y.
Proof.
  intros [_ [Hw Hh] [Hs Hb]] Hz Hx Hy. assert (Z.abs (gs_stride s * y + x) * size < 2 ^ 31) as HA.
  { assert (Z.abs (gs_stride s * y + x) <= Z.abs (gs_stride s) * gs_height s) by (destruct (Z.abs_spec (gs_stride s)) as [[? ->]|[? ->]]; nia). nia. }
  assert (Z.abs (gs_stride s * y) * size < 2 ^ 31) as HB.
  { assert (Z.abs (gs_stride s * y) <= Z.abs (gs_stride s) * gs_height s) by (rewrite Z.abs_mul, (Z.abs_eq y) by lia; nia). nia. }
  unfold pixel_of. rewrite (s32_id (gs_stride s * y)) by (unfold is_s32; nia). rewrite (s32_id (x + gs_stride s * y)) by (unfold is_s32; nia).
  rewrite s32_id by (unfold is_s32; nia). ring.
Qed.

(** What the pixel pipeline reads of the two surfaces while it draws. *)
Record drawn_between (dst src : GGLSurface) (s t : Z) (c : context_t) : Prop := {
  db_color : place (fb_color (st_buffers (c_state c))) = (placed dst, gs_stride dst, gs_width dst, gs_height dst, gs_format dst);
  db_scissor : exists sc, st_scissor (c_state c) = scissor_to dst sc;
  db_texture : exists t0 l, st_texture (c_state c) = t0 :: l /\ place (tx_surface t0) = (placed src, gs_stride src, gs_width src, gs_height src, gs_format src) /\
    ts_is0 (tx_shade t0) = s32 (Z.shiftl s 16) /\ ts_it0 (tx_shade t0) = s32 (Z.shiftl t 16) }.

Lemma drawn_between_layout dst src s t c c' : layout c' = layout c -> drawn_between dst src s t c -> drawn_between dst src s t c'.
Proof.
  intros E [C [sc S] (t0 & l & T & P & I & J)]. unfold layout in E. injection E as E1 E2 E3 E4 E5 E6 E7. split.
  - unfold place in *. by rewrite E1, E2, E3, E4, E5.
  - exists sc. by rewrite E7.
  - rewrite T in E6. destruct (st_texture (c_state c')) as [|t0' l'] eqn:T'; [done|]. cbn in E6. injection E6 as Q1 Q2 Q3 Q4 Q5 Q6 _.
    exists t0', l'. split; [done|]. unfold place in *. rewrite Q1, Q2, Q3, Q4, Q5, Q6. done.
Qed.

Lemma shade_coord s : Z.abs s < 2 ^ 15 -> Z.shiftr (s32 (Z.shiftl s 16)) 16 = s.
Proof.
  intros H. rewrite Z.shiftl_mul_pow2 by lia. rewrite s32_id by (unfold is_s32; lia). rewrite shiftr_div by lia. apply Z.div_mul. lia.
Qed.

Lemma u64_small z w : Z.abs z < 2 ^ 31 -> 0 < w < 2 ^ 31 -> w = u64 z -> z = w.
Proof. unfold u64. intros. Z.div_mod_to_equations. lia. Qed.

(** Rows of bytes and rectangles of pixels. *)
Lemma rows_rect_copied dst src size xo yo x y w h m m' : 1 <= size ->
  rows_copied h (w * size) (gs_stride dst * size) (gs_stride src * size) (pixel_of dst size xo yo) (pixel_of src size x y) m m' ->
  rect_copied dst src size xo yo x y w h m m'.
Proof.
  intros Hz (M & RJ & RF). split; [done|]. split.
  - intros i j k Hi Hj Hk. replace (pixel_of dst size (xo + i) (yo + j) + k) with (pixel_of dst size xo yo + j * (gs_stride dst * size) + (i * size + k)) by (unfold pixel_of; ring).
    rewrite RJ by nia. f_equal. unfold pixel_of. ring.
  - intros a Ha. apply RF. intros j k Hj Hk. specialize (Ha (k / size) j (k mod size)).
    replace (pixel_of dst size (xo + k / size) (yo + j) + k mod size) with (pixel_of dst size xo yo + j * (gs_stride dst * size) + k) in Ha
      by (unfold pixel_of; rewrite (Z.div_mod k size) at 1 by lia; ring).
    apply Ha; [split; [apply Z.div_pos; lia|apply Z.div_lt_upper_bound; lia]|done|apply Z.mod_pos_bound; lia].
Qed.
Lemma within_rows s size x y w h lo hi j : 0 < w -> 1 <= size -> within s size x y w h lo hi -> 0 <= j < h ->
  lo <= pixel_of s size x y + j * (gs_stride s * size) /\ pixel_of s size x y + j * (gs_stride s * size) + w * size <= hi.
Proof.
  intros Hw Hz W Hj. pose proof (W 0 j ltac:(lia) Hj) as [W1 _]. pose proof (W (w - 1) j ltac:(lia) Hj) as [_ W2]. unfold pixel_of in *. split; nia.
Qed.
(** Rows that follow each other at once. *)
Lemma memcpy_rows w h dst src m : 0 < w -> 0 <= h -> is_mem m -> dst + w * h <= src \/ src + w * h <= dst ->
  rows_copied h w w w dst src m (memcpy (Z.to_nat (w * h)) dst src m).
Proof.
  intros Hw Hh Hm Hd. destruct (memcpy_spec (Z.to_nat (w * h)) dst src m Hm ltac:(rewrite Z2Nat.id by nia; nia)) as (M & MJ & MF).
  rewrite Z2Nat.id in MJ, MF by nia. split; [done|]. split.
  - intros j k Hj Hk. rewrite <-!Z.add_assoc. apply MJ. nia.
  - intros a Hn. apply MF. destruct (Z.lt_ge_cases a dst) as [|Hge]; [by left|].
    destruct (Z.le_gt_cases (dst + w * h) a) as [|Hlt]; [by right|]. exfalso. set (e := a - dst). apply (Hn (e / w) (e mod w)).
    + split; [apply Z.div_pos; lia|apply Z.div_lt_upper_bound; lia].
    + apply Z.mod_pos_bound. lia.
    + pose proof (Z.div_mod e w ltac:(lia)). lia.
Qed.

(** Where the blitter starts. *)
Lemma blit_addresses dst src size xo yo x y w d : drawn_between dst src (x - xo) (y - yo) (d_c d) -> c_formats (d_c d) = gPixelFormatInfos ->
  surface_fits dst size -> surface_fits src size -> 1 <= size <= 4 ->
  0 <= xo < gs_width dst -> 0 <= yo < gs_height dst -> 0 <= x < gs_width src -> 0 <= y < gs_height src -> 0 < w < 2 ^ 31 ->
  it_xl (d_it d) = xo -> it_xr (d_it d) = xo + w -> it_y (d_it d) = yo ->
  row_count d = w /\ color_size d = size /\ sf_stride (color_buffer d) = gs_stride dst /\ sf_stride (tx_surface (source_texture d)) = gs_stride src /\
  fill_dest d = pixel_of dst size xo yo /\ copy_source d = pixel_of src size x y.
Proof.
  intros [C _ (t0 & l & T & P & I & J)] Ef Fd Fs Hz Hxo Hyo Hx Hy Hw El Er Ey.
  pose proof (sfit_sides _ _ Fd). pose proof (sfit_sides _ _ Fs).
  assert (row_count d = w) as Ec by (unfold row_count; rewrite El, Er; replace (xo + w - xo) with w by ring; apply u64_id; lia).
  assert (sf_format (color_buffer d) = gs_format dst /\ sf_stride (color_buffer d) = gs_stride dst /\ sf_data (color_buffer d) = placed dst) as (C1 & C2 & C3)
    by (unfold color_buffer; unfold place in C; by injection C).
  assert (color_size d = size) as Ez by (unfold color_size, format_of; rewrite C1, Ef; apply (sfit_format _ _ Fd)).
  assert (sf_stride (tx_surface (source_texture d)) = gs_stride src /\ sf_data (tx_surface (source_texture d)) = placed src) as (T2 & T3)
    by (unfold source_texture; rewrite T; cbn; unfold place in P; by injection P).
  split_and!; try done.
  - unfold fill_dest. rewrite Ez, C2, C3, El, Ey. by apply pixel_index.
  - unfold copy_source. rewrite Ez, T2, T3. unfold source_texture. rewrite T. cbn [nth]. rewrite I, J, !shade_coord, El, Ey by lia.
    replace (x - xo + xo) with x by ring. replace (y - yo + yo) with y by ring. rewrite (s32_id x), (s32_id y) by (unfold is_s32; lia). by apply pixel_index.
Qed.

(** A rectangle of [dst] and the one of [src] it is drawn from, apart in memory. *)
Record transferable (dst src : GGLSurface) (size xo yo x y w h : Z) : Prop := {
  tb_dst : surface_fits dst size; tb_src : surface_fits src size; tb_size : 1 <= size <= 4;
  tb_dst_rect : 0 <= xo /\ 0 <= yo /\ 0 < w /\ 0 < h /\ xo + w <= gs_width dst /\ yo + h <= gs_height dst;
  tb_src_rect : 0 <= x /\ 0 <= y /\ x + w <= gs_width src /\ y + h <= gs_height src;
  tb_apart : exists lo hi dlo dhi, within src size x y w h lo hi /\ within dst size xo yo w h dlo dhi /\ (dhi <= lo \/ hi <= dlo) }.

Lemma rect_memcpy_spec dst src size xo yo x y w h d : drawn_between dst src (x - xo) (y - yo) (d_c d) -> c_formats (d_c d) = gPixelFormatInfos ->
  transferable dst src size xo yo x y w h -> is_mem (d_m d) ->
  it_xl (d_it d) = xo -> it_xr (d_it d) = xo + w -> it_y (d_it d) = yo ->
  exists m', rect_memcpy h d = Some (d <| d_m := m' |>) /\ rect_copied dst src size xo yo x y w h (d_m d) m'.
Proof.
  intros HB Ef [Fd Fs Hz Hd Hs (lo & hi & dlo & dhi & Ws & Wd & Ha)] Hm El Er Ey. pose proof (sfit_sides _ _ Fd) as [Sw Sh].
  destruct (blit_addresses dst src size xo yo x y w d HB Ef Fd Fs Hz ltac:(lia) ltac:(lia) ltac:(lia) ltac:(lia) ltac:(lia) El Er Ey) as (Ec & Ez & C2 & T2 & Ed & Es).
  pose proof (fun j => within_rows src size x y w h lo hi j ltac:(lia) (proj1 Hz) Ws) as HWs. pose proof (fun j => within_rows dst size xo yo w h dlo dhi j ltac:(lia) (proj1 Hz) Wd) as HWd.
  pose proof (sfit_stride _ _ Fd) as [Hsd Hb]. unfold rect_memcpy. rewrite Ec, Ez, C2, T2, Ed, Es.
  destruct ((gs_stride dst =? gs_stride src) && (w =? u64 (gs_stride dst))) eqn:EQ.
  - apply andb_true_iff in EQ as [EQ1%Z.eqb_eq EQ2%Z.eqb_eq].
    assert (gs_stride dst = w) as Ew.
    { apply u64_small; [|lia|done]. assert (1 <= gs_height dst * size) by nia. rewrite <-Z.mul_assoc in Hb. nia. }
    eexists. split; [reflexivity|]. apply rows_rect_copied; [lia|]. rewrite <-EQ1, Ew in *.
    pose proof (HWs 0 ltac:(lia)). pose proof (HWs (h - 1) ltac:(lia)). pose proof (HWd 0 ltac:(lia)). pose proof (HWd (h - 1) ltac:(lia)).
    apply memcpy_rows; [nia|lia|done|nia].
  - eexists. split; [reflexivity|]. apply rows_rect_copied; [lia|].
    replace h with (Z.of_nat (Z.to_nat h)) at 1 by lia. replace (w * size) with (Z.of_nat (Z.to_nat (w * size))) at 1 by nia.
    apply (copy_rows_spec lo hi dlo dhi); [rewrite Z2Nat.id by nia; rewrite Z.abs_mul; nia|done|done|..]; rewrite !Z2Nat.id by nia; done.
Qed.

(** The calls of a transfer, from a rasterizer that is ready for one. *)
Lemma transfer_spec alloc dst src size xo yo x y w h d : transfer_ok (d_c d) -> is_mem (d_m d) ->
  transferable dst src size xo yo x y w h -> gs_format dst = gs_format src -> rgb_format (gs_format src) = true ->
  exists d', transfer alloc dst src (x - xo) (y - yo) xo yo (xo + w) (yo + h) d = Some d' /\ transfer_ok (d_c d') /\
    rect_copied dst src size xo yo x y w h (d_m d) (d_m d').
Proof.
  intros H Hm HT Ef Hr. pose proof HT as [Fd Fs Hz Hd Hs _]. pose proof (sfit_sides _ _ Fd) as [Sw Sh].
  unfold transfer. destruct (colorBuffer_transfer alloc dst (d_c d) H (proj1 (sfit_format _ _ Fd))) as (H1 & C1 & T1 & S1). set (c1 := ggl_colorBuffer alloc dst (d_c d)) in *.
  destruct (bindTexture_transfer src (x - xo) (y - yo) c1 H1 (proj1 (sfit_format _ _ Fs))) as (H2 & C2 & S2 & T2).
  set (c2 := ggl_texCoord2i (x - xo) (y - yo) (ggl_bindTexture src c1)) in *. assert (drawn_between dst src (x - xo) (y - yo) c2) as HB.
  { split; [by rewrite C2|exists (st_scissor (c_state (d_c d))); by rewrite S2|exact T2]. }
  set (d2 := d <| d_c ::= _ |>). change c2 with (d_c d2) in *. clearbody c2.
  destruct (call_recti_transfer xo yo (xo + w) (yo + h) d2 H2) as (c' & -> & H' & L & N).
  apply (drawn_between_layout _ _ _ _ _ c' L) in HB. destruct (setup_start c' (to_setup _ H')) as (F' & _). pose proof HB as [C' [sc S'] T'].
  assert (recti (draw_scissor c') xo yo (xo + w) (yo + h) = [Set_span xo (xo + w); Init_y yo; Rect h]) as ->.
  { unfold recti, draw_scissor, scl, scr, sct, scb. rewrite S'. cbn. rewrite (s32_id 0), (s32_id (gs_width dst)), (s32_id (gs_height dst)) by (unfold is_s32; lia).
    destruct (Z.ltb_spec xo 0), (Z.ltb_spec yo 0), (Z.ltb_spec (gs_width dst) (xo + w)), (Z.ltb_spec (gs_height dst) (yo + h)); try lia.
    rewrite !s32_id by (unfold is_s32; lia). replace (xo + w - xo) with w by ring. replace (yo + h - yo) with h by ring.
    destruct (Z.ltb_spec 0 w), (Z.ltb_spec 0 h); try lia. done. }
  assert (cb_format c' = gs_format src /\ texture_format c' = gs_format src) as [F1 F2].
  { split; [rewrite <-Ef; unfold place in C'; unfold cb_format; by injection C'|]. destruct T' as (t0 & l & T & P & _). unfold texture_format. rewrite T. unfold place in P. by injection P. }
  rewrite F1, F2 in N. destruct (memcpy_picked c' (gs_format src) F' (proj1 (sfit_format _ _ Fs)) Hr N) as [X1 X2].
  destruct (to_picked _ H') as [Y1 Y2]; [by rewrite N|]. rewrite X1 in Y1. rewrite X2 in Y2.
  cbn [play play_event]. cbn [mbind option_bind]. set (d4 := set_span xo (xo + w) _). unfold call_init_y. change (c_init_y (d_c d4)) with (c_init_y c'). rewrite Y2.
  unfold init_y_noop. cbn [mbind option_bind]. unfold call_rect.
  set (d3 := _ <| d_rect := _ |>). assert (d_rect d3 = use_rect_memcpy) as -> by (cbn; unfold choose_rect; rewrite Y1; done).
  assert (drawn_between dst src (x - xo) (y - yo) (d_c d3)) as HB3 by (by destruct HB as [B1 B2 B3]; split).
  destruct (rect_memcpy_spec dst src size xo yo x y w h d3 HB3 F' HT Hm eq_refl eq_refl eq_refl) as (m' & -> & R).
  eexists. split; [reflexivity|]. split; [|exact R].
  apply (transfer_frame c'); try done; apply (to_formats _ H') || apply (to_procs _ H').
Qed.

(** ** Copies of client pixels *)

(** The memory is one of bytes and the second rasterizer, if there is one, is
    ready for a transfer. *)
Definition ready (st : transfer_t) : Prop := is_mem (xf_m st) /\ match xf_ggl st with Some d => transfer_ok (d_c d) | None => True end.

Lemma getRasterizer_ready st : ready st -> exists d, getRasterizer false st = Some (Some d) /\ transfer_ok (d_c d) /\ d_m d = xf_m st.
Proof.
  intros [Hm Hr]. unfold getRasterizer. destruct (xf_ggl st) as [d|].
  - by exists (d <| d_m := xf_m st |>).
  - rewrite transfer_context_eq. exists (zero_draw transfer_context (xf_m st)). split; [done|]. split; [apply transfer_context_ok|done].
Qed.

(** All the rows of two surfaces of one shape, with what lies between them. *)
Definition whole_apart (dst src : GGLSurface) (size : Z) : Prop :=
  let n := gs_height src * gs_stride src * size in gs_data dst + n <= gs_data src \/ gs_data src + n <= gs_data dst.

Lemma copy_whole dst src size x y w h rasterizer m : same_shape dst src = true -> c_formats rasterizer = gPixelFormatInfos ->
  surface_fits src size -> 1 <= size <= 4 -> whole_apart dst src size -> is_mem m -> 0 <= x -> 0 <= y -> x + w <= gs_width src -> y + h <= gs_height src ->
  exists m', memcpy_apart (u32 (u32 (gs_height src * gs_stride src) * f_size (format_of rasterizer (gs_format src)))) (gs_data dst) (gs_data src) m = Some m' /\
    is_mem m' /\ forall i j k, 0 <= i < w -> 0 <= j < h -> 0 <= k < size ->
      m' (pixel_of dst size (x + i) (y + j) + k) = m (pixel_of src size (x + i) (y + j) + k).
Proof.
  intros HS Ef Fs Hz Ha Hm Hx Hy Hw Hh. unfold same_shape in HS. apply andb_true_iff in HS as [HS Hp%Z.ltb_lt].
  apply andb_true_iff in HS as [HS Eh%Z.eqb_eq]. apply andb_true_iff in HS as [HS Ew%Z.eqb_eq]. apply andb_true_iff in HS as [Ef'%Z.eqb_eq Es%Z.eqb_eq].
  pose proof (sfit_sides _ _ Fs) as [Sw Sh]. pose proof (sfit_stride _ _ Fs) as [Hs Hb]. rewrite Z.abs_eq in Hs, Hb by lia. rewrite Es in Hp.
  unfold format_of. rewrite Ef, (proj2 (sfit_format _ _ Fs)). assert (0 <= gs_height src * gs_stride src) by nia.
  rewrite (u32_id (gs_height src * gs_stride src)) by (unfold is_u32; nia). rewrite u32_id by (unfold is_u32; nia).
  unfold whole_apart in Ha. cbv zeta in Ha. set (n := gs_height src * gs_stride src * size) in *. unfold memcpy_apart.
  assert ((gs_data dst + n <=? gs_data src) || (gs_data src + n <=? gs_data dst) = true) as -> by (apply orb_true_iff; rewrite !Z.leb_le; done).
  eexists. split; [reflexivity|]. split; [intros a; unfold move_bytes; destruct (_ && _); apply Hm|].
  intros i j k Hi Hj Hk. assert (placed dst = gs_data dst /\ placed src = gs_data src) as [P1 P2].
  { unfold placed. rewrite Es. destruct (Z.ltb_spec (gs_stride src) 0); [lia|]. by rewrite !Z.add_0_r. }
  assert (0 <= ((y + j) * gs_stride src + (x + i)) * size + k < n).
  { unfold n. assert ((y + j) * gs_stride src + (x + i) + 1 <= gs_height src * gs_stride src) by nia. nia. }
  unfold pixel_of. rewrite P1, P2, Es, <-!Z.add_assoc. by apply move_bytes_in.
Qed.

(** C98: Copying pixels between two surfaces of one format with color gives every
    pixel of the rectangle of the destination the pixel of the source it is drawn
    from, whether rows are padded, run upwards or lie elsewhere; no other byte
    changes unless the surfaces have one shape, when all of it is copied; and the
    rasterizer used for it is left ready for the next copy. *)
Theorem copyPixels_copies rasterizer alloc dst xo yo src x y w h size st :
  ready st -> c_formats rasterizer = gPixelFormatInfos ->
  transferable dst src size xo yo x y w h -> gs_format dst = gs_format src -> rgb_format (gs_format src) = true ->
  (same_shape dst src = true -> whole_apart dst src size) ->
  exists st', copyPixels rasterizer false alloc dst xo yo src x y w h st = Some (0, st') /\ ready st' /\
    (forall i j k, 0 <= i < w -> 0 <= j < h -> 0 <= k < size ->
      xf_m st' (pixel_of dst size (xo + i) (yo + j) + k) = xf_m st (pixel_of src size (x + i) (y + j) + k)) /\
    (same_shape dst src = false -> forall a, (forall i j k, 0 <= i < w -> 0 <= j < h -> 0 <= k < size -> a <> pixel_of dst size (xo + i) (yo + j) + k) ->
      xf_m st' a = xf_m st a).
Proof.
  intros Hst Ef HT Efmt Hr Ha. pose proof HT as [Fd Fs Hz Hd Hs _]. pose proof (sfit_sides _ _ Fd). pose proof (sfit_sides _ _ Fs). unfold copyPixels.
  destruct (same_shape dst src && (Z.lor x y =? 0) && (Z.lor xo yo =? 0)) eqn:EQ.
  - apply andb_true_iff in EQ as [EQ [-> ->]%Z.eqb_eq%Z.lor_eq_0_iff]. apply andb_true_iff in EQ as [ES [-> ->]%Z.eqb_eq%Z.lor_eq_0_iff].
    destruct (copy_whole dst src size 0 0 w h rasterizer (xf_m st) ES Ef Fs Hz (Ha ES) (proj1 Hst)) as (m' & -> & M & J); try lia.
    eexists. split; [reflexivity|]. split; [split; [done|apply Hst]|]. split; [exact J|]. by rewrite ES.
  - destruct (getRasterizer_ready st Hst) as (d & -> & Hok & Em). cbn [mbind option_bind].
    rewrite !s32_id by (unfold is_s32; lia). destruct (transfer_spec alloc dst src size xo yo x y w h d Hok) as (d' & -> & H' & M & J & F);
      [rewrite Em; apply Hst|done..|]. cbn [mbind option_bind]. rewrite Em in J, F.
    eexists. split; [reflexivity|]. split; [by split|]. split; [exact J|]. intros _. exact F.
Qed.

(** A client's surface, bottom row first: its rows count from the bottom. *)
Lemma pixel_of_client width height stride format pixels size i j : 0 < width < 2 ^ 15 -> 0 < height < 2 ^ 15 -> 0 < stride -> 1 <= size ->
  f_size (nth (Z.to_nat format) gPixelFormatInfos no_format) = size -> stride * height * size < 2 ^ 31 ->
  pixel_of (client_surface width height (s32 (- stride)) format pixels) size i (height - 1 - j) = pixels + (j * stride + i) * size.
Proof.
  intros Hw Hh Hs Hz Ez Hb. assert (stride * size <= stride * height * size) by nia. assert (stride <= stride * size) by nia.
  rewrite (s32_id (- stride)) by (unfold is_s32; lia). unfold pixel_of, placed, client_surface. cbn [gs_data gs_stride gs_height gs_format]. rewrite Ez.
  destruct (Z.ltb_spec (- stride) 0); [|lia]. rewrite Z.opp_involutive, (s32_id stride), (s32_id (stride * size)) by (unfold is_s32; lia).
  rewrite (u32_id height) by (unfold is_u32; lia). rewrite (u32_id (height - 1)) by (unfold is_u32; lia). rewrite u32_id by (unfold is_u32; nia). ring.
Qed.

(** C98: [glReadPixels] gives the client the rectangle of the read buffer it asks
    for, in the format of the buffer, with the row lowest on the screen first and
    rows as far apart as the alignment demands; it writes nothing else. *)
Theorem readPixels_flips alloc x y w h format type pixels c st fmt size :
  let s := read_surface c in let stride := client_stride w size (tx_packAlignment (oc_textures c)) in
  ready st -> c_formats (oc_rasterizer c) = gPixelFormatInfos ->
  read_error c x y w h format type = 0 -> read_format format type = Some fmt -> sf_format s = fmt -> 0 <= sf_stride s -> 0 < stride < 2 ^ 31 ->
  transferable (client_surface w h (s32 (- stride)) fmt pixels) (as_GGLSurface s) size 0 0 x (sf_height s - (y + h)) w h ->
  exists st', glReadPixels false alloc x y w h format type pixels c st = Some (c, st') /\ ready st' /\
    (forall i j k, 0 <= i < w -> 0 <= j < h -> 0 <= k < size ->
      xf_m st' (pixels + (j * stride + i) * size + k) = xf_m st (sf_data s + ((sf_height s - 1 - (y + j)) * sf_stride s + x + i) * size + k)) /\
    (forall a, (forall i j k, 0 <= i < w -> 0 <= j < h -> 0 <= k < size -> a <> pixels + (j * stride + i) * size + k) -> xf_m st' a = xf_m st a).
Proof.
  intros s stride Hst Ef Ee Er Es Hs Hst0 HT. pose proof HT as [Fd Fs Hz Hd Hsr _]. pose proof (sfit_sides _ _ Fs) as [Sw Sh]. cbn in Sw, Sh, Hsr, Hd.
  assert (rgb_format fmt = true) as Hr by (revert Er; unfold read_format; repeat case_match; intros [= <-]; done).
  pose proof (sfit_format _ _ Fd) as [_ Ez]. pose proof (sfit_sides _ _ Fd) as [Dw Dh]. pose proof (sfit_stride _ _ Fd) as [_ Db]. cbn [client_surface gs_format gs_width gs_height gs_stride] in Ez, Dw, Dh, Db, Hd.
  assert (0 < w < 2 ^ 15 /\ 0 < h < 2 ^ 15) as [Hw Hh] by lia. rewrite (u32_id w) in Dw by (unfold is_u32; lia). rewrite (u32_id h) in Dh, Db by (unfold is_u32; lia).
  rewrite s32_id, Z.abs_opp, Z.abs_eq in Db by (unfold is_s32; lia).
  unfold glReadPixels. rewrite Ee, Er. cbn [Z.eqb negb default]. unfold format_of. rewrite Ef. unfold id. rewrite Ez. fold stride. fold s.
  destruct (getRasterizer_ready st Hst) as (d & -> & Hok & Em). cbn [mbind option_bind].
  rewrite (s32_id (y + h)), (u32_id (y + h)), (s32_id (sf_height s - (y + h))) by (unfold is_s32, is_u32; lia).
  destruct (transfer_spec alloc _ _ size 0 0 x (sf_height s - (y + h)) w h d Hok ltac:(rewrite Em; apply Hst) HT (eq_sym Es) ltac:(by rewrite <-Es in Hr)) as (d' & E & H' & M & J & F).
  rewrite !Z.sub_0_r, !Z.add_0_l in E. rewrite E. cbn [mbind option_bind]. rewrite Em in J, F.
  assert (forall i j, pixel_of (client_surface w h (s32 (- stride)) fmt pixels) size i (h - 1 - j) = pixels + (j * stride + i) * size) as EP
    by (intros; apply pixel_of_client; done || lia).
  eexists. split; [reflexivity|]. split; [by split|]. split.
  - intros i j k Hi Hj Hk. specialize (J i (h - 1 - j) k Hi ltac:(lia) Hk). rewrite !Z.add_0_l, EP in J. cbn [xf_m]. rewrite J. f_equal.
    unfold pixel_of, placed. cbn [as_GGLSurface gs_stride gs_data gs_height]. destruct (Z.ltb_spec (sf_stride s) 0); [lia|]. ring.
  - intros a Ha. cbn [xf_m]. apply F. intros i j k Hi Hj Hk. rewrite !Z.add_0_l. replace j with (h - 1 - (h - 1 - j)) by ring. rewrite EP. apply Ha; lia.
Qed.

(** ** Concrete transfers *)

Definition byte_mem : mem := fun a => a mod 256.
Lemma byte_mem_ok : is_mem byte_mem.
Proof. intros a. unfold is_u8, byte_mem. apply Z.mod_pos_bound. lia. Qed.

(** Three by two pixels into the middle of another surface. *)
Definition example_dst : GGLSurface := mk_GGLSurface sizeof_GGLSurface 8 4 8 0x1000 GGL_PIXEL_FORMAT_RGB_565 0.
Definition example_src : GGLSurface := mk_GGLSurface sizeof_GGLSurface 5 5 6 0x8000 GGL_PIXEL_FORMAT_RGB_565 0.
Lemma example_transferable : transferable example_dst example_src 2 2 1 1 0 3 2.
Proof.
  assert (forall w h st a, 0 <= w < 2 ^ 15 -> 0 <= h < 2 ^ 15 -> w <= st -> st * h * 2 < 2 ^ 31 ->
    surface_fits (mk_GGLSurface sizeof_GGLSurface w h st a GGL_PIXEL_FORMAT_RGB_565 0) 2) as HF.
  { intros w h st a Hw Hh Hs Hb. split; [split; [split; by vm_compute|reflexivity]|done|]. cbn [gs_width gs_height gs_stride]. lia. }
  split; [apply HF; lia|apply HF; lia|lia|cbn; lia|cbn; lia|].
  exists 0x8000, 0x8100, 0x1000, 0x1100. split; [|split; [|lia]]; intros i j Hi Hj; change (pixel_of example_src 2 (1 + i) (0 + j)) with (0x8000 + ((0 + j) * 6 + (1 + i)) * 2) ||
    change (pixel_of example_dst 2 (2 + i) (1 + j)) with (0x1000 + ((1 + j) * 8 + (2 + i)) * 2); lia.
Qed.

Lemma copyPixels_copies_witness : exists st',
  copyPixels ggl_init_context false 0x500 example_dst 2 1 example_src 1 0 3 2 (mk_transfer None byte_mem) = Some (0, st') /\
  xf_m st' (0x1000 + (2 * 8 + 3) * 2) = byte_mem (0x8000 + (1 * 6 + 2) * 2).
Proof.
  destruct (copyPixels_copies ggl_init_context 0x500 example_dst 2 1 example_src 1 0 3 2 2 (mk_transfer None byte_mem)) as (st' & E & _ & J & _).
  - split; [exact byte_mem_ok|exact I].
  - reflexivity.
  - exact example_transferable.
  - reflexivity.
  - reflexivity.
  - intros H. discriminate H.
  - exists st'. split; [exact E|]. exact (J 1 1 0 ltac:(lia) ltac:(lia) ltac:(lia)).
Defined.

(** A read buffer of 4 by 3 pixels of 32 bits at 0x8000, rows packed to 8 bytes. *)
#[local] Instance quiet_nan : Nans := {| nan_bits := 0x7FC00000 |}.
Definition reading_context : ogles_context_t :=
  (zeroed_context example_stacks)
    <| oc_rasterizer := ggl_readBuffer (mk_GGLSurface sizeof_GGLSurface 4 3 4 0x8000 GGL_PIXEL_FORMAT_RGBA_8888 0) ggl_init_context |>
    <| oc_textures := mk_texture_state [] 0 0 8 4 |>.

Lemma readPixels_flips_witness : exists st',
  glReadPixels false 0x500 1 0 3 2 GL_RGBA GL_UNSIGNED_BYTE 0x1000 reading_context (mk_transfer None byte_mem) = Some (reading_context, st') /\
  xf_m st' (0x1000 + (1 * 4 + 2) * 4 + 3) = byte_mem (0x8000 + ((3 - 1 - (0 + 1)) * 4 + 1 + 2) * 4 + 3).
Proof.
  destruct (readPixels_flips 0x500 1 0 3 2 GL_RGBA GL_UNSIGNED_BYTE 0x1000 reading_context (mk_transfer None byte_mem) GGL_PIXEL_FORMAT_RGBA_8888 4)
    as (st' & E & _ & J & _).
  - split; [exact byte_mem_ok|exact I].
  - reflexivity.
  - reflexivity.
  - reflexivity.
  - reflexivity.
  - by vm_compute.
  - by vm_compute.
  - change (client_stride 3 4 (tx_packAlignment (oc_textures reading_context))) with 4. split.
    + split; [split; [split; by vm_compute|reflexivity]|by vm_compute|by vm_compute].
    + split; [split; [split; by vm_compute|reflexivity]|by vm_compute|by vm_compute].
    + lia.
    + by vm_compute.
    + by vm_compute.
    + exists 0x8000, 0x8100, 0x1000, 0x1100. split; [|split; [|lia]]; intros i j Hi Hj.
      * change (sf_height (read_surface reading_context)) with 3. unfold pixel_of. change (placed _) with 0x8000. cbn. lia.
      * unfold pixel_of. change (placed _) with (0x1000 + 16). change (gs_stride _) with (-4). lia.
  - exists st'. split; [exact E|]. exact (J 2 1 3 ltac:(lia) ltac:(lia) ltac:(lia)).
Defined.

(** ** Faults *)

(** Rows of three-byte pixels are padded to the alignment, but the stride is
    counted in whole pixels: five pixels are read from 15 bytes to a row of 16. *)
Example padded_rows_skewed : client_bpr 5 3 4 = 16 /\ client_stride 5 3 4 * 3 = 15.
Proof. split; reflexivity. Qed.

(** A pixel of a copy that starts left of and above a surface is fetched from before
    it: [glCopyTexImage2D] clips to the right and to the bottom only. *)
Example copy_from_outside : exists st',
  copyPixels ggl_init_context false 0x500 example_dst 0 0 example_src (-2) (-1) 2 2 (mk_transfer None byte_mem) = Some (0, st') /\
  xf_m st' 0x1000 = byte_mem (0x8000 - (6 + 2) * 2).
Proof. eexists. split; [vm_compute; reflexivity|]. vm_compute. reflexivity. Qed.
