(* ===== verification/Draw.v ===== *)
(** * The drawing calls

    Models [glDrawArrays] and [glDrawElements] of swrender/array.cpp with
    [validate_arrays] there and [validate_perspective] of swrender/matrix.cpp:
    what a call brings up to date in the context, the compiler and the renderer
    it hands to the loops of [Assembly.v] and [VertexCache.v], and what is left
    in the context afterwards.  A call returns the context with the calls made
    on the rasterizer, in order ([Primitives.play_calls] draws them).

    [gl_returns] shows that no sequence of commands and drawing calls gets
    stuck; [drawArrays_draws] that a call draws what its mode prescribes of the
    elements of the arrays, as compiled under the transformations validated. *)

From stdpp Require Import gmap.
From S2P Require Import Prelude TextureObjects Fixed Names Context PixelFormat Surface PixelFlinger Float Vertex Clipping Arrays Assembly VertexCache AssemblyEnds Light Lerp Primitives Rendering Matrix OGLES Transforms State Texture.

#[local] Open Scope Z_scope.

Section Validate.
  Context {NAN : Nans}.
  Implicit Types c : ogles_context_t.

(** What [validate_perspective] stores before it calls it. *)
Definition validate_perspective c : perspective_fn :=
  pick_perspective (oc_enables c) (oc_planes_enable c) (a_size (am_vertex (oc_arrays c))) (tr_flags (ts_mvp4 (oc_transforms c))).

Definition line_mode (mode : Z) : bool := (mode =? GL_LINES) || (mode =? GL_LINE_LOOP) || (mode =? GL_LINE_STRIP).
Definition prim_smooth (mode : Z) c : Z :=
  if mode =? GL_POINTS then pt_smooth (oc_point c) else if line_mode mode then ln_smooth (oc_line c) else 0.

(** The transformations that are needed. *)
Definition wanted (enables : Z) c : Z :=
  let want := Z.lor MVP VIEWPORT in
  let want := if lt_enable (oc_lighting c) =? 0 then want else Z.lor (Z.lor want MVUI) MODELVIEW in
  let want := if has enables GGL_ENABLE_TMUS then Z.lor want TEXTURE else want in
  if negb (oc_planes_enable c =? 0) || has enables GGL_ENABLE_FOG then Z.lor want MODELVIEW else want.

(** The function pointers of the arrays; the vertex compilers are always the
    generic ones, and [clipEye] is.  The transformations of texture coordinates
    are picked where they are used. *)
Definition pick_transforms c : ogles_context_t :=
  let size := a_size (am_vertex (oc_arrays c)) in
  c <| oc_mvp_transform := tr_pointv (ts_mvp (oc_transforms c)) size |>
    <| oc_mv_transform := tr_pointv (ms_transform (ts_modelview (oc_transforms c))) size |>.
Definition fetch_mode_of c : fetch_mode :=
  mk_fetch_mode (negb (lt_enable (oc_lighting c) =? 0)) [unit_on 0 c; unit_on 1 c].

Definition validate_arrays (mode : Z) c : option ogles_context_t :=
  let enables := oc_enables c in
  let perspective := negb (oc_perspective c =? 0) && negb (mode =? GL_POINTS) && has enables GGL_ENABLE_TMUS in
  c ← raster (C_enableDisable GGL_W_LERP (Z.b2z perspective)) c;
  let smooth := prim_smooth mode c in
  c ← (if Z.b2z (has enables GGL_ENABLE_AA) =? smooth then Some c else raster (C_enableDisable GGL_AA smooth) c);
  c ← raster (C_shadeModel (if mode =? GL_POINTS then GL_FLAT else lt_shadeModel (oc_lighting c))) c;
  let c := ogles_validate_transform (wanted enables c) c in
  c ← (if has enables GGL_ENABLE_TMUS then ogles_validate_texture c else Some c);
  let c := pick_transforms c in
  let c := c <| oc_arrays ::= pick_fetchers (fetch_mode_of c) |> in
  Some (c <| oc_clipVertex := pick_clipVertex (oc_enables c) |>).
End Validate.

(** ** The calls

    [m] is the memory of the client, [stack] what the local arrays of the
    clipper hold, [undefined] and [undefined_shift] what C leaves undefined. *)
Section Calls.
  Context {NAN : Nans}.
  Variables (m : mem) (stack : nat -> vertex_t) (undefined : Z) (undefined_shift : Z -> Z).
  Implicit Types c : ogles_context_t.

(** The perspective function that is called: the one picked, or by then the one
    [validate_perspective] picks.  What it depends on does not change while
    primitives are drawn. *)
Definition projection_of c : projection_t :=
  let ts := oc_transforms c in
  mk_projection (tr_m (vp_transform (ts_vpt ts))) (tr_m (ms_transform (ts_modelview ts))) (oc_mv_transform c)
    (tr_m (ts_mvp ts)) (oc_mvp_transform c) (oc_planes c) (oc_planes_enable c)
    (default (validate_perspective c) (oc_pick c)) undefined_shift.
Definition client_of c : client_t := mk_client (oc_arrays c) (oc_current c) m (ts_mvui (oc_transforms c)).
Definition renderer_of c : option renderer_t :=
  t0 ← unit_object 0 c; t1 ← unit_object 1 c;
  Some (mk_renderer (client_of c) (projection_of c) (oc_clipVertex c) (oc_cull c) (oc_fog c)
          (ts_rescaleNormals (oc_transforms c)) [t0; t1] (map ms_transform (ts_texture (oc_transforms c)))
          (pt_size (oc_point c)) (ln_width (oc_line c)) (oc_polygonOffset c) stack undefined).

Definition assembly_of rd fetch c : assembly_t (gl_pipeline rd fetch) :=
  mk_assembly (gl_pipeline rd fetch) (oc_vertices c) (oc_sequence c) (oc_cull_flags c)
    (mk_draw_ctx (oc_rasterizer c) (oc_lighting c) []) [].
Definition after_draw {rd fetch} (st : assembly_t (gl_pipeline rd fetch)) (compiled : bool) c : ogles_context_t :=
  c <| oc_vertices := as_vertices st |> <| oc_sequence := as_sequence st |> <| oc_cull_flags := as_cull st |>
    <| oc_rasterizer := dc_raster (as_ctx st) |> <| oc_lighting := dc_lighting (as_ctx st) |>
    <| oc_pick ::= fun p => if compiled then Some (default (validate_perspective c) p) else p |>.

(** The vertices and lines a mode needs before it draws anything. *)
Definition least_count (mode : Z) : Z := if mode =? GL_POINTS then 1 else if mode <=? GL_LINE_STRIP then 2 else 3.

(** [enables] are those before the primitives are drawn. *)
Definition unlock_textures (enables : Z) c : option ogles_context_t :=
  if has enables GGL_ENABLE_TMUS then ogles_unlock_textures c else Some c.

Definition finish {rd fetch} (st : assembly_t (gl_pipeline rd fetch)) (compiled : bool) c : option (ogles_context_t * list raster_call) :=
  c ← unlock_textures (oc_enables c) (after_draw st compiled c); Some (c, dc_calls (as_ctx st)).

Definition draw_arrays rd fetch (mode first count : Z) c : option (ogles_context_t * list raster_call) :=
  match drawArraysPrims mode first count (assembly_of rd fetch c) with
  | Some (_, st) => finish st (least_count mode <=? count) c
  | None => None
  end.
Definition run_arrays (mode first count : Z) c : option (ogles_context_t * list raster_call) :=
  rd ← renderer_of c; fetch ← a_fetch (am_vertex (oc_arrays c)); draw_arrays rd fetch mode first count c.

(** Strips and fans compile their first vertex in any case; else one is compiled
    when an index that is fetched is not in its entry of the cache. *)
Definition misses (vs : list vertex_t) (sequence i : Z) : bool :=
  let index := Z.lor i sequence in
  match vs !! Z.to_nat (VERTEX_BUFFER_SIZE + Z.land index (VERTEX_CACHE_SIZE - 1)) with
  | Some v => negb (v_index v =? index) | None => false end.
Definition compiles_elements (mode count : Z) (indices : list Z) (vs : list vertex_t) (sequence : Z) : bool :=
  let least := least_count mode in
  if count <? least then false
  else if (mode =? GL_LINE_STRIP) || (mode =? GL_TRIANGLE_STRIP) || (mode =? GL_TRIANGLE_FAN) || ((mode =? GL_LINE_LOOP) && (3 <=? count))
  then true
  else existsb (misses vs sequence) (take (Z.to_nat (count / least * least)) indices).

Definition draw_elements rd fetch (mode count : Z) (indices : list Z) c : option (ogles_context_t * list raster_call) :=
  let st0 := clear (assembly_of rd fetch c) in
  match drawElementsPrims mode count indices st0 with
  | Some (_, st) => finish st (compiles_elements mode count indices (as_vertices st0) (as_sequence st0)) c
  | None => None
  end.
Definition run_elements (mode count : Z) (indices : list Z) c : option (ogles_context_t * list raster_call) :=
  rd ← renderer_of c; fetch ← a_fetch (am_vertex (oc_arrays c)); draw_elements rd fetch mode count indices c.

Definition mode_valid (mode : Z) : bool := (0 <=? mode) && (mode <=? 6).

(** Nothing to draw, or all triangles are culled; then points and lines are not
    drawn either. *)
Definition draws_nothing (count : Z) c : bool :=
  (count =? 0) || negb (a_enable (am_vertex (oc_arrays c))) ||
  (negb (cu_enable (oc_cull c) =? 0) && (cu_cullFace (oc_cull c) =? GL_FRONT_AND_BACK)).

Definition glDrawArrays (mode first count : Z) c : option (ogles_context_t * list raster_call) :=
  if count <? 0 then Some (gl_error GGL_INVALID_VALUE c, [])
  else if negb (mode_valid mode) then Some (gl_error GGL_INVALID_ENUM c, [])
  else if draws_nothing count c then Some (c, [])
  else c ← validate_arrays mode c; run_arrays mode first count c.

(** The indices are at [indices], or at that offset of the buffer bound. *)
Definition index_type (type : Z) : bool := (type =? GL_UNSIGNED_BYTE) || (type =? GL_UNSIGNED_SHORT).
Definition indices_at (indices : Z) c : Z :=
  match am_element_array_buffer (oc_arrays c) with Some bo => br_data bo + indices | None => indices end.

Definition glDrawElements (mode count type indices : Z) c : option (ogles_context_t * list raster_call) :=
  if count <? 0 then Some (gl_error GGL_INVALID_VALUE c, [])
  else if negb (mode_valid mode) then Some (gl_error GGL_INVALID_ENUM c, [])
  else if negb (index_type type) then Some (gl_error GGL_INVALID_ENUM c, [])
  else
    let c := c <| oc_arrays ::= fun am => am <| am_indicesType := type |> |> in
    if draws_nothing count c then Some (c, [])
    else
      c ← validate_arrays mode c;
      run_elements mode count (read_indices (type =? GL_UNSIGNED_BYTE) m (indices_at indices c) (Z.to_nat count)) c.

(** ** Commands and drawing calls together *)

Inductive client_command :=
  | Command (cmd : gl_command)
  | DrawArrays (mode first count : Z)
  | DrawElements (mode count type indices : Z).

Definition exec_client (cmd : client_command) c : option (ogles_context_t * list raster_call) :=
  match cmd with
  | Command cmd => c ← exec_gl undefined cmd c; Some (c, [])
  | DrawArrays mode first count => glDrawArrays mode first count c
  | DrawElements mode count type indices => glDrawElements mode count type indices c
  end.
Fixpoint exec_clients (cmds : list client_command) c : option (ogles_context_t * list raster_call) :=
  match cmds with
  | [] => Some (c, [])
  | cmd :: cmds => '(c, calls) ← exec_client cmd c; '(c, more) ← exec_clients cmds c; Some (c, calls ++ more)
  end.
End Calls.

(** ** Every call returns *)

Section Returns.
  Context {NAN : Nans}.
  Variables (m : mem) (stack : nat -> vertex_t) (undefined : Z) (undefined_shift : Z -> Z).
  Implicit Types c : ogles_context_t.

(** What drawing needs of the context: 72 vertices with locks of one bit, arrays
    described by their commands, matrix stacks, and a texture object in every
    unit. *)
Record ready c : Prop := mk_ready {
  rc_vertices : vertices_ok (oc_vertices c);
  rc_arrays : arrays_ok (oc_arrays c);
  rc_units : length (am_texture (oc_arrays c)) = 2%nat;
  rc_matrices : matrices_ok c;
  rc_textures i : In i [0%nat; 1%nat] -> exists t, unit_object i c = Some t /\ shape_ok t }.

(** The rest of the context does not matter. *)
Definition others c : list vertex_t * array_machine_t * gmap Z (Z * EGLTextureObject) * Z * list Z :=
  (oc_vertices c, oc_arrays c, oc_objects c, tx_active (oc_textures c), map tu_texture (tx_tmu (oc_textures c))).

Lemma unit_object_others i c : unit_object i c = p ← map tu_texture (tx_tmu (oc_textures c)) !! i; '(_, t) ← oc_objects c !! p; Some t.
Proof. unfold unit_object, get_unit. rewrite list_lookup_fmap. by destruct (tx_tmu (oc_textures c) !! i). Qed.

Lemma ready_others c c' : ready c -> others c' = others c -> matrices_ok c' -> ready c'.
Proof.
  intros [Hv Ha Hu Hm Ht] E Hm'. injection E as Ev Ea Eo _ Et. split; [by rewrite Ev|by rewrite Ea|by rewrite Ea|done|].
  intros i Hi. rewrite unit_object_others, Eo, Et, <-unit_object_others. by apply Ht.
Qed.
Lemma matrices_ok_active c c' : matrices_ok c -> oc_transforms c' = oc_transforms c -> oc_viewport c' = oc_viewport c ->
  tx_active (oc_textures c') = tx_active (oc_textures c) -> matrices_ok c'.
Proof. intros [] Et Ev Ea. split; rewrite ?Et, ?Ev, ?Ea; done. Qed.
Lemma ready_frame c c' : ready c -> others c' = others c -> oc_transforms c' = oc_transforms c -> oc_viewport c' = oc_viewport c -> ready c'.
Proof.
  intros H E Et Ev. eapply ready_others; [done|done|]. eapply matrices_ok_active; [apply (rc_matrices _ H)|done|done|].
  by injection E.
Qed.

(** *** The rasterizer *)

Definition total_command (cmd : command) : Prop :=
  match cmd with C_bindTextureLod _ _ | C_texCoordGradScale8xv _ _ => False | _ => True end.
Lemma raster_total cmd c : total_command cmd -> exists r, raster cmd c = Some (c <| oc_rasterizer := r |>).
Proof. unfold raster. destruct cmd; cbn [exec total_command]; intros H; try done; by eexists. Qed.
Lemma raster_all_total cmds c : Forall total_command cmds -> exists r, raster_all cmds c = Some (c <| oc_rasterizer := r |>).
Proof.
  intros H. revert c. induction H as [|cmd cmds Hc _ IH]; intros c; [exists (oc_rasterizer c); by destruct c|].
  destruct (raster_total cmd c Hc) as [r E]. cbn [raster_all]. rewrite E. cbn [mbind option_bind].
  destruct (IH (c <| oc_rasterizer := r |>)) as [r' ->]. by exists r'.
Qed.

(** [m] returns a context that is ready. *)
Definition goes_on (o : option ogles_context_t) : Prop := exists c, o = Some c /\ ready c.
Lemma goes_on_ret c : ready c -> goes_on (Some c).
Proof. by exists c. Qed.
Lemma goes_on_bind (o : option ogles_context_t) k : goes_on o -> (forall c, ready c -> goes_on (k c)) -> goes_on (mbind k o).
Proof. intros (c & -> & H) Hk. by apply Hk. Qed.
Lemma goes_on_raster cmd c : ready c -> total_command cmd -> goes_on (raster cmd c).
Proof. intros H Hc. destruct (raster_total cmd c Hc) as [r ->]. apply goes_on_ret. by eapply ready_frame. Qed.

(** *** Validation *)

Lemma ready_validate_transform want c : ready c -> ready (ogles_validate_transform want c).
Proof.
  intros H. eapply ready_others; [exact H| |].
  - unfold ogles_validate_transform. by repeat case_match.
  - by destruct (does_validate want c (rc_matrices _ H)) as (c' & [= <-] & Hm & _).
Qed.

Lemma goes_on_validate_unit i c : In i [0%nat; 1%nat] -> ready c -> goes_on (validate_unit i c).
Proof.
  intros Hi H. unfold validate_unit. destruct (unit_on i c); [|by apply goes_on_ret].
  destruct (rc_textures _ H i Hi) as (t & Et & _). unfold validate_tmu. rewrite Et. unfold unit_object in Et.
  destruct (get_unit i c) as [u|] eqn:Eu; [|done]. cbn [mbind option_bind].
  destruct (tu_dirty u =? 0); [by apply goes_on_ret|].
  destruct (raster_all_total (tmu_commands i t) (set_unit i (u <| tu_dirty := 0 |>) c)) as [r ->].
  { unfold tmu_commands. destruct (mIsComplete t); by repeat constructor. }
  apply goes_on_ret. eapply ready_frame; [exact H| |done|done]. unfold others. cbn. f_equal.
  rewrite list_fmap_insert. cbn. apply list_insert_id. unfold get_unit in Eu. by rewrite list_lookup_fmap, Eu.
Qed.
Lemma goes_on_validate_texture c : ready c -> goes_on (ogles_validate_texture c).
Proof.
  intros H. unfold ogles_validate_texture. apply goes_on_bind; [apply goes_on_validate_unit; [by left|done]|]. intros c1 H1.
  apply goes_on_bind; [apply goes_on_validate_unit; [by right; left|done]|]. intros c2 H2. by apply goes_on_raster.
Qed.

(** After a validation, every fetcher is there. *)
Definition fetches c : Prop :=
  is_Some (a_fetch (am_vertex (oc_arrays c))) /\ is_Some (a_fetch (am_normal (oc_arrays c))) /\
  is_Some (a_fetch (am_color (oc_arrays c))) /\ Forall (fun a => is_Some (a_fetch a)) (am_texture (oc_arrays c)).
Lemma validate_arrays_ready mode c : ready c -> exists c', validate_arrays mode c = Some c' /\ ready c' /\ fetches c'.
Proof.
  intros H. unfold validate_arrays.
  set (en := oc_enables c).
  destruct (goes_on_raster (C_enableDisable GGL_W_LERP (Z.b2z (negb (oc_perspective c =? 0) && negb (mode =? GL_POINTS) && has en GGL_ENABLE_TMUS))) c H I)
    as (c1 & -> & H1). cbn [mbind option_bind].
  assert (goes_on (if Z.b2z (has en GGL_ENABLE_AA) =? prim_smooth mode c1 then Some c1 else raster (C_enableDisable GGL_AA (prim_smooth mode c1)) c1))
    as (c2 & -> & H2) by (destruct (_ =? _); [by apply goes_on_ret|by apply goes_on_raster]). cbn [mbind option_bind].
  destruct (goes_on_raster (C_shadeModel (if mode =? GL_POINTS then GL_FLAT else lt_shadeModel (oc_lighting c2))) c2 H2 I) as (c3 & -> & H3).
  cbn [mbind option_bind]. apply (ready_validate_transform (wanted en c3)) in H3. set (c4 := ogles_validate_transform _ c3) in *.
  assert (goes_on (if has en GGL_ENABLE_TMUS then ogles_validate_texture c4 else Some c4)) as (c5 & -> & H5)
    by (destruct (has _ _); [by apply goes_on_validate_texture|by apply goes_on_ret]). cbn [mbind option_bind].
  eexists. split; [reflexivity|]. pose proof (rc_arrays _ H5) as Ha. split.
  - destruct H5 as [Hv _ Hu Hm Ht]. split; [done|by apply arrays_ok_pick| |by eapply matrices_ok_active|done].
    revert Hu. cbn. by destruct (am_texture (oc_arrays c5)) as [|? [|? [|]]].
  - apply (picked_fetchers _ _ Ha).
Qed.

(** *** Commands *)

Lemma ready_error e c : ready c -> ready (gl_error e c).
Proof. intros H. unfold gl_error. destruct (_ =? _); [by eapply ready_frame|done]. Qed.
Lemma ready_light f c : ready c -> ready (on_light f c).
Proof. intros H. eapply ready_others; [exact H|done|]. destruct (rc_matrices _ H). by split. Qed.
Lemma ready_on_arrays cmd c : client_array cmd -> ready c -> ready (on_arrays (exec_array cmd) c).
Proof.
  intros Hc [Hv Ha Hu Hm Ht]. split; [done| | | |done].
  - assert (arrays_ok ((oc_arrays c) <| am_error := oc_error c |>)) as Ha' by exact Ha.
    exact (exec_array_ok cmd _ Ha').
  - etransitivity; [apply (exec_array_units cmd ((oc_arrays c) <| am_error := oc_error c |>) Hc)|done].
  - by eapply matrices_ok_active.
Qed.

Lemma others_error e c : others (gl_error e c) = others c.
Proof. unfold gl_error. by destruct (_ =? _). Qed.
Lemma edit_current_others dirty f c c' : edit_current dirty f c = Some c' -> others c' = others c.
Proof. unfold edit_current. destruct (current_stack _) as [ms|]; cbn; [|done]. by intros [= <-]. Qed.
Lemma push_or_pop_others op c c' : push_or_pop op c = Some c' -> others c' = others c.
Proof.
  unfold push_or_pop. destruct (current_stack _) as [ms|]; cbn [mbind option_bind]; [|done]. destruct (op ms) as [e ms'].
  destruct (negb (e =? 0)); intros [= <-]; [apply others_error|done].
Qed.
Lemma scissor_others x y w h c c' : ogles_scissor x y w h c = Some c' -> others c' = others c.
Proof. unfold ogles_scissor. case_match; intros [= <-]; [apply others_error|done]. Qed.
Lemma viewport_others x y w h c : others (ogles_viewport x y w h c) = others c.
Proof. unfold ogles_viewport. case_match; [apply others_error|done]. Qed.
Lemma exec_matrix_others cmd c c' : exec_matrix cmd c = Some c' -> others c' = others c.
Proof.
  destruct cmd; cbn [exec_matrix]; try apply edit_current_others.
  - intros [= <-]. unfold glMatrixMode. cbv zeta. repeat case_match; first [apply others_error|done].
  - apply push_or_pop_others.
  - apply push_or_pop_others.
  - unfold glFrustumf, frustumf. case_match; [intros [= <-]; apply others_error|apply edit_current_others].
  - unfold glOrthof, orthof. case_match; [intros [= <-]; apply others_error|apply edit_current_others].
  - apply scissor_others.
  - intros [= <-]. apply viewport_others.
  - by intros [= <-].
  - intros E. apply scissor_others in E. by rewrite viewport_others in E.
  - intros [= <-]. unfold ogles_validate_transform. by repeat case_match.
Qed.

Definition client_gl (cmd : gl_command) : Prop := match cmd with G_array cmd => client_array cmd | _ => True end.

Lemma goes_on_enable cap enabled c : ready c -> goes_on (gl_enable_disable cap enabled c).
Proof.
  intros H. unfold gl_enable_disable. cbv zeta. repeat case_match;
    first [by apply goes_on_raster|apply goes_on_raster; [by eapply ready_frame|done]|apply goes_on_ret];
    first [done|by apply ready_light|by apply ready_error|by eapply ready_frame].
Qed.
Lemma goes_on_light cmd c : ready c -> goes_on (exec_gl_light undefined cmd c).
Proof.
  intros H. destruct cmd; cbn [exec_gl_light]; try (by apply goes_on_ret, ready_light).
  - apply goes_on_ret. unfold gl_Lightxv. apply ready_light. unfold validate_position.
    case_match; [by apply ready_validate_transform|done].
  - unfold gl_Fogxv. case_match; [by apply goes_on_raster|by apply goes_on_ret, ready_light].
Qed.

Ltac frames := match goal with H : ready ?c |- _ => apply (ready_frame c); [exact H|reflexivity..] end.
Ltac keeps := repeat case_match; first [done|by apply ready_error|frames].
Lemma goes_on_gl cmd c : client_gl cmd -> ready c -> goes_on (exec_gl undefined cmd c).
Proof.
  intros Hc H. destruct cmd as [cmd|cmd|cmd| | | | | | | | | | | | | | | | | | | | | | |]; cbn [exec_gl client_gl] in *;
    try (by apply goes_on_raster); try (by apply goes_on_enable); try (apply goes_on_ret; frames).
  - destruct (exec_matrix_ok cmd c (rc_matrices _ H)) as (c' & E & Hm & _). exists c'. split; [done|].
    eapply ready_others; [exact H|by eapply exec_matrix_others|done].
  - by apply goes_on_ret, ready_on_arrays.
  - by apply goes_on_light.
  - apply goes_on_ret. unfold glStencilFunc. keeps.
  - apply goes_on_ret. unfold glStencilOp. keeps.
  - apply goes_on_ret. unfold glCullFace. cbv zeta. case_match; [by eapply ready_frame|]. pose proof (ready_error GGL_INVALID_ENUM c H). by eapply ready_frame.
  - apply goes_on_ret. unfold glFrontFace. keeps.
  - unfold glHint. repeat case_match; first [by apply goes_on_raster|apply goes_on_ret]; first [by apply ready_error|by eapply ready_frame].
  - apply goes_on_ret. unfold glPointSizex. keeps.
  - apply goes_on_ret. unfold glLineWidthx. keeps.
  - apply goes_on_ret. unfold glClipPlanex, clipPlanex. cbv zeta. case_match; [by apply ready_error|].
    match goal with |- ready ?d => assert (ready (ogles_validate_transform MVIT (c <| oc_planes ::= <[Z.to_nat (s32 (plane - GL_CLIP_PLANE0)) := equ]> |>))) as Hv end.
    { apply ready_validate_transform. by eapply ready_frame. }
    by eapply ready_frame.
Qed.

(** *** Drawing *)

#[local] Abbreviation renderer_of := (renderer_of m stack undefined undefined_shift).

Lemma renderer_ready c : ready c -> fetches c -> exists rd, renderer_of c = Some rd /\ renderer_ok rd.
Proof.
  intros H (_ & Fn & Fc & Ft). destruct (rc_textures _ H 0%nat) as (t0 & E0 & S0); [by left|].
  destruct (rc_textures _ H 1%nat) as (t1 & E1 & S1); [by right; left|].
  unfold Draw.renderer_of. rewrite E0, E1. cbn [mbind option_bind]. eexists. split; [reflexivity|].
  split; cbn -[In]; [done|done| | |].
  - intros i Hi. destruct (lookup_lt_is_Some_2 (am_texture (oc_arrays c)) i) as [a Ea].
    { rewrite (rc_units _ H). destruct Hi as [<-|[<-|[]]]; lia. }
    exists a. split; [done|]. by eapply Forall_lookup_1 in Ft.
  - intros i Hi. rewrite list_lookup_fmap. apply fmap_is_Some, lookup_lt_is_Some_2.
    rewrite (mo_units _ (rc_matrices _ H)). destruct Hi as [<-|[<-|[]]]; lia.
  - intros i [<-|[<-|[]]]; by eexists.
Qed.

(** The result of a drawing call, with a context that is ready. *)
Definition draws_on (o : option (ogles_context_t * list raster_call)) : Prop := exists c calls, o = Some (c, calls) /\ ready c.

Lemma finish_ready {rd fetch} (st : assembly_t (gl_pipeline rd fetch)) compiled c : ready c -> vertices_ok (as_vertices st) ->
  draws_on (finish st compiled c).
Proof.
  intros H Hv. assert (ready (after_draw st compiled c)) as H'.
  { destruct H as [_ Ha Hu Hm Ht]. split; [done|done|done|by eapply matrices_ok_active|done]. }
  unfold finish, unlock_textures.
  assert (goes_on (if has (oc_enables c) GGL_ENABLE_TMUS then ogles_unlock_textures (after_draw st compiled c) else Some (after_draw st compiled c)))
    as (c' & -> & Hc') by (destruct (has _ _); [by apply goes_on_raster|by apply goes_on_ret]).
  by eexists _, _.
Qed.

Lemma run_arrays_ready mode first count c : ready c -> fetches c ->
  draws_on (run_arrays m stack undefined undefined_shift mode first count c).
Proof.
  intros H F. unfold run_arrays. destruct (renderer_ready c H F) as (rd & -> & OK). destruct F as ([f Ef] & _). rewrite Ef.
  cbn [mbind option_bind]. unfold draw_arrays. pose proof (gl_pipeline_ends (fetch := f) OK) as PE.
  destruct (drawArraysPrims_ends mode first count (assembly_of rd f c)) as ([] & st & -> & Hv & _); [apply (rc_vertices _ H)|].
  by apply finish_ready.
Qed.

Lemma clear_vertices_ok {VP : VertexPipeline} (st : assembly_t VP) : vertices_ok (as_vertices st) -> vertices_ok (as_vertices (clear st)).
Proof.
  intros [L F]. unfold clear. cbv zeta. case_match; [|done]. split; cbn; [by rewrite length_map|].
  apply Forall_map. eapply Forall_impl; [exact F|]. done.
Qed.
Lemma read_indices_length bytes p n : length (read_indices bytes m p n) = n.
Proof. revert p. induction n as [|n IH]; intros p; [done|]. cbn [read_indices length]. by rewrite IH. Qed.

Lemma run_elements_ready mode count indices c : ready c -> fetches c -> (Z.to_nat count <= length indices)%nat ->
  draws_on (run_elements m stack undefined undefined_shift mode count indices c).
Proof.
  intros H F Hl. unfold run_elements. destruct (renderer_ready c H F) as (rd & -> & OK). destruct F as ([f Ef] & _). rewrite Ef.
  cbn [mbind option_bind]. unfold draw_elements. cbv zeta. pose proof (gl_pipeline_ends (fetch := f) OK) as PE.
  destruct (drawElementsPrims_ends mode count indices Hl (clear (assembly_of rd f c))) as ([] & st & -> & Hv & _).
  { apply clear_vertices_ok. apply (rc_vertices _ H). }
  by apply finish_ready.
Qed.

Lemma draws_on_ret c calls : ready c -> draws_on (Some (c, calls)).
Proof. intros H. by eexists _, _. Qed.

Definition client_ok (cmd : client_command) : Prop := match cmd with Command cmd => client_gl cmd | _ => True end.
#[local] Abbreviation exec_client := (exec_client m stack undefined undefined_shift).
#[local] Abbreviation exec_clients := (exec_clients m stack undefined undefined_shift).

Lemma exec_client_ready cmd c : client_ok cmd -> ready c -> draws_on (exec_client cmd c).
Proof.
  intros Hc H. destruct cmd as [cmd|mode first count|mode count type indices]; cbn [Draw.exec_client].
  - destruct (goes_on_gl cmd c Hc H) as (c' & -> & H'). by apply draws_on_ret.
  - unfold glDrawArrays. destruct (count <? 0); [by apply draws_on_ret, ready_error|].
    destruct (mode_valid mode); cbn [negb]; [|by apply draws_on_ret, ready_error].
    destruct (draws_nothing count c); [by apply draws_on_ret|].
    destruct (validate_arrays_ready mode c H) as (c' & -> & H' & F). by apply run_arrays_ready.
  - unfold glDrawElements. destruct (count <? 0); [by apply draws_on_ret, ready_error|].
    destruct (mode_valid mode); cbn [negb]; [|by apply draws_on_ret, ready_error].
    destruct (index_type type); cbn [negb]; [|by apply draws_on_ret, ready_error]. cbv zeta.
    set (c1 := c <| oc_arrays ::= _ |>). assert (ready c1) as H1 by (destruct H as [? ? ? [] ?]; by split).
    destruct (draws_nothing count c1); [by apply draws_on_ret|].
    destruct (validate_arrays_ready mode c1 H1) as (c' & -> & H' & F). apply run_elements_ready; [done|done|].
    by rewrite read_indices_length.
Qed.

(** C2: Every sequence of commands and drawing calls comes to an end, whatever the
    modes, the counts, the elements and the indices: no loop runs forever, no
    pointer leaves the vertex buffer, the cache, the arrays of the clipper or
    the tables, and the context is ready for more. *)
Theorem gl_returns cmds c : ready c -> Forall client_ok cmds ->
  exists c' calls, exec_clients cmds c = Some (c', calls) /\ ready c'.
Proof.
  intros H Hc. revert c H. induction Hc as [|cmd cmds Hcmd _ IH]; intros c H; cbn [Draw.exec_clients]; [by apply draws_on_ret|].
  destruct (exec_client_ready cmd c Hcmd H) as (c1 & calls & -> & H1). cbn [mbind option_bind].
  destruct (IH c1 H1) as (c2 & more & -> & H2). by eexists _, _.
Qed.
End Returns.

(** ** What is drawn *)

Section Draws.
  Context {NAN : Nans}.
  Variables (m : mem) (stack : nat -> vertex_t) (undefined : Z) (undefined_shift : Z -> Z).
  Implicit Types c : ogles_context_t.

(** What a validation does to the arrays and the transformations. *)
Definition kept c : array_machine_t * transform_state_t := (oc_arrays c, oc_transforms c).
Lemma raster_kept cmd c c' : raster cmd c = Some c' -> kept c' = kept c.
Proof. unfold raster. destruct (exec cmd _); cbn; [|done]. by intros [= <-]. Qed.
Lemma raster_all_kept cmds c c' : raster_all cmds c = Some c' -> kept c' = kept c.
Proof.
  revert c. induction cmds as [|cmd cmds IH]; intros c; cbn [raster_all]; [by intros [= ->]|].
  destruct (raster cmd c) as [c1|] eqn:E; [|done]. cbn [mbind option_bind]. intros ->%IH. by eapply raster_kept.
Qed.
Lemma validate_unit_kept i c c' : validate_unit i c = Some c' -> kept c' = kept c.
Proof.
  unfold validate_unit, validate_tmu. case_match; [|by intros [= ->]].
  destruct (get_unit i c) as [u|]; [|done]. cbn [mbind option_bind]. case_match; [by intros [= ->]|].
  destruct (unit_object i c) as [t|]; [|done]. cbn [mbind option_bind]. by intros ->%raster_all_kept.
Qed.
Lemma validate_texture_kept c c' : ogles_validate_texture c = Some c' -> kept c' = kept c.
Proof.
  unfold ogles_validate_texture. destruct (validate_unit 0 c) as [c1|] eqn:E1; [|done]. cbn [mbind option_bind].
  destruct (validate_unit 1 c1) as [c2|] eqn:E2; [|done]. cbn [mbind option_bind]. intros ->%raster_kept.
  apply validate_unit_kept in E1, E2. by rewrite E2.
Qed.

Definition validated (want : Z) (ts : transform_state_t) : transform_state_t :=
  if Z.land (ts_dirty ts) want =? 0 then ts else validate_transforms want ts.
Lemma validate_transform_kept want c : kept (ogles_validate_transform want c) = (oc_arrays c, validated want (oc_transforms c)).
Proof. unfold ogles_validate_transform, validated. by repeat case_match. Qed.

Lemma wanted_mvp enables c : Z.land (wanted enables c) MVP = MVP.
Proof. unfold wanted. by repeat case_match. Qed.

Lemma validate_arrays_kept mode c c' : validate_arrays mode c = Some c' -> exists fm want,
  Z.land want MVP = MVP /\ kept c' = (pick_fetchers fm (oc_arrays c), validated want (oc_transforms c)).
Proof.
  unfold validate_arrays. destruct (raster _ c) as [c1|] eqn:E1; [|done]. cbn [mbind option_bind].
  destruct (if _ =? prim_smooth mode c1 then _ else _) as [c2|] eqn:E2; [|done]. cbn [mbind option_bind].
  destruct (raster _ c2) as [c3|] eqn:E3; [|done]. cbn [mbind option_bind]. set (want := wanted _ c3).
  destruct (if has _ _ then ogles_validate_texture (ogles_validate_transform want c3) else _) as [c4|] eqn:E4; [|done]. cbn [mbind option_bind].
  intros [= <-]. assert (kept c2 = kept c1) as K2
    by (revert E2; destruct (Z.b2z _ =? _); [by intros [= ->]|apply raster_kept]).
  apply raster_kept in E1, E3. assert (kept c4 = kept (ogles_validate_transform want c3)) as K4
    by (revert E4; destruct (has _ GGL_ENABLE_TMUS); [apply validate_texture_kept|by intros [= ->]]).
  rewrite validate_transform_kept in K4. unfold kept in *. injection E1 as A1 T1. injection K2 as A2 T2. injection E3 as A3 T3.
  injection K4 as A4 T4. eexists _, want. split; [apply wanted_mvp|]. cbn. f_equal; [|congruence]. by rewrite A4, A3, A2, A1.
Qed.

Lemma validated_mvp want ts : transforms_ok true ts -> Z.land want MVP = MVP -> ts_mvp (validated want ts) = mvp_transform ts.
Proof.
  intros H Hw. unfold validated. destruct (Z.eqb_spec (Z.land (ts_dirty ts) want) 0) as [E|E].
  - apply agree_exact, (to_mvp_clean _ _ H). unfold clean. by rewrite <-Hw, Z.land_assoc, E.
  - pose proof (transforms_ok_validate true want ts H) as H'. destruct (validate_tops want ts) as (Em & Ep & Ev).
    rewrite <-(mvp_transform_top ts _ Em Ep Ev). apply agree_exact, (to_mvp_clean _ _ H').
    unfold clean. rewrite validate_dirty_bits. apply Z.bits_inj'. intros i Hi.
    apply (f_equal (fun z => Z.testbit z i)) in Hw. rewrite Z.land_spec in Hw.
    rewrite !Z.land_spec, Z.bits_0, u32_testbit, Z.lnot_spec by done.
    destruct (i <? 32), (Z.testbit want i), (Z.testbit MVP i), (Z.testbit (ts_dirty ts) i); done.
Qed.

(** Every fetcher of vertices stores two coordinates at least. *)
Lemma vertex_fct_two size type : coord_size size = true -> coord_type type = true ->
  exists g, vertex_fct (size - 2) type = Some (use_fetch g) /\ forall m p, (2 <= length (g m p))%nat.
Proof.
  unfold coord_size, coord_type. rewrite !orb_true_iff, andb_true_iff, !Z.eqb_eq, !Z.leb_le. intros Hs Ht.
  assert (In size [2; 3; 4]) as Hi by (cbn; lia). clear Hs.
  destruct Hi as [<-|[<-|[<-|[]]]], Ht as [[[-> | ->]| ->]| ->];
    (eexists; split; [reflexivity|intros; cbn; lia]).
Qed.
Lemma pick_vertex_fetch a : array_ok coord_size coord_type a -> a_enable a = true -> has_data a = true ->
  exists g, a_fetch (pick_vertex a) = Some (use_fetch g) /\ forall m p, (2 <= length (g m p))%nat.
Proof.
  intros Ho He Hd. destruct (Ho Hd) as [Hs Ht]. unfold pick_vertex. rewrite He. cbn.
  change (has_data (array_resolve a)) with (has_data a). rewrite Hd. by apply vertex_fct_two.
Qed.

#[local] Abbreviation renderer_of := (renderer_of m stack undefined undefined_shift).
#[local] Abbreviation glDrawArrays := (glDrawArrays m stack undefined undefined_shift).

Lemma renderer_fields c rd : renderer_of c = Some rd ->
  cl_arrays (rd_client rd) = oc_arrays c /\ pj_mvp (rd_projection rd) = tr_m (ts_mvp (oc_transforms c)).
Proof.
  unfold Draw.renderer_of. destruct (unit_object 0 c), (unit_object 1 c); try done. by intros [= <-].
Qed.

End Draws.

(** ** A client *)

#[local] Instance quiet_nan : Nans := {| nan_bits := 0x7FC00000 |}.

(** A new context is ready. *)
Lemma started_ready : ready started.
Proof.
  split.
  - split; [vm_compute; reflexivity|]. change (oc_vertices started) with (repeat zero_vertex 72). apply Forall_forall.
    intros v Hv%list_elem_of_In%repeat_spec. subst v. by left.
  - split_and!; [by intros ?..|]. change (am_texture (oc_arrays started)) with (am_texture ogles_init_array). by repeat constructor.
  - vm_compute. reflexivity.
  - apply started_ok.
  - intros i [<-|[<-|[]]]; exists new_texture; by split.
Qed.

(** Three vertices of three bytes at 0x1000, their indices at 0x2000, and a
    projection of eight by eight units onto eight by eight pixels. *)
Definition three_vertices : mem := fun a =>
  if a <? 0x2000 then elt [0; 0; 0; 4; 0; 0; 0; 4; 0] (Z.to_nat (a - 0x1000)) else elt [2; 0; 1] (Z.to_nat (a - 0x2000)).
Definition eight_pixels : list matrix_command :=
  [M_surfaceport 0 0; M_Viewport 0 0 8 8; M_MatrixMode GL_PROJECTION; M_Orthof 0 0x41000000 0 0x41000000 0 f_1].
Definition viewed : ogles_context_t := match exec_matrices eight_pixels started with Some c => c | None => started end.
Definition triangle_client : ogles_context_t :=
  on_arrays (exec_array (A_ClientState GL_VERTEX_ARRAY true)) (on_arrays (exec_array (A_VertexPointer 3 GL_BYTE 0 0x1000)) viewed).
Definition no_stack (_ : nat) : vertex_t := zero_vertex.
Definition no_shift (_ : Z) : Z := 0.

Lemma viewed_ok : exec_matrices eight_pixels started = Some viewed.
Proof. vm_compute. reflexivity. Qed.
Lemma on_arrays_transforms f c : oc_transforms (on_arrays f c) = oc_transforms c.
Proof. reflexivity. Qed.
Lemma viewed_started : matrices_ok viewed /\ transforms_ok true (oc_transforms viewed).
Proof.
  destruct started_ok as [Hm Ht]. refine (exec_transforms_all true eight_pixels started viewed Hm Ht _ viewed_ok). intros _. by repeat constructor.
Qed.
Lemma triangle_client_ready : ready triangle_client.
Proof.
  do 2 (apply ready_on_arrays; [done|]). apply (ready_others started); [apply started_ready|vm_compute; reflexivity|].
  exact (proj1 viewed_started).
Qed.
Lemma triangle_client_transforms : transforms_ok true (oc_transforms triangle_client).
Proof. unfold triangle_client. rewrite !on_arrays_transforms. exact (proj2 viewed_started). Qed.

Definition triangle_calls : list client_command :=
  [DrawArrays GL_TRIANGLES 0 3; DrawArrays GL_LINES 0 (-1); DrawElements GL_TRIANGLE_STRIP 3 GL_UNSIGNED_BYTE 0x2000; DrawArrays GL_POINTS 2 1].

Lemma gl_returns_witness :
  exists c' calls, exec_clients three_vertices no_stack 0 no_shift triangle_calls triangle_client = Some (c', calls) /\ ready c'.
Proof. apply (gl_returns three_vertices no_stack 0 no_shift triangle_calls triangle_client triangle_client_ready). repeat constructor. Defined.

(** The triangle twice and a point, in sixteenths of a pixel,
    and the error of the negative count. *)
Definition drawn_points (call : raster_call) : list (Z * Z) :=
  match call with
  | Draw_point v _ => [window_xy v] | Draw_line a b _ => [window_xy a; window_xy b]
  | Draw_triangle a b c => [window_xy a; window_xy b; window_xy c] | _ => [] end.
Example triangle_drawn :
  option_map (fun r => (oc_error (fst r), List.filter (fun l => negb (length l =? 0)%nat) (map drawn_points (snd r))))
    (exec_clients three_vertices no_stack 0 no_shift triangle_calls triangle_client) =
  Some (GGL_INVALID_VALUE, [[(0, 0); (64, 0); (0, -64)]; [(0, -64); (0, 0); (64, 0)]; [(0, -64)]]).
Proof. vm_compute. reflexivity. Qed.


(** ** Faults *)

Definition four_coordinates : mem := fun a => elt [0; 0; 0; 1; 4; 0; 0; 1; 0; 4; 0; 1] (Z.to_nat (a - 0x1000)).
Definition use_four : client_command := Command (G_array (A_VertexPointer 4 GL_BYTE 0 0x1000)).

(** The perspective function is not picked again when vertices of four
    coordinates follow others: their fourth coordinate is not divided by. *)
Example vertex_size_stale :
  option_map (fun r => (oc_pick (fst r), validate_perspective (fst r)))
    (exec_clients four_coordinates no_stack 0 no_shift [DrawArrays GL_TRIANGLES 0 3; use_four; DrawArrays GL_TRIANGLES 0 3] triangle_client) =
  Some (Some use_perspective2D, use_perspective3D).
Proof. vm_compute. reflexivity. Qed.

(** Under a 2D projection the viewport is folded into the transformation; vertices
    of four coordinates are taken through the viewport once more: the triangle
    of [triangle_drawn] comes out somewhere else. *)
Example viewport_twice :
  option_map (fun r => (is_2D (oc_transforms (fst r)), map drawn_points (snd r)))
    (exec_clients four_coordinates no_stack 0 no_shift [use_four; DrawArrays GL_TRIANGLES 0 3] triangle_client) =
  Some (true, [[]; [(64, 0); (64, -64); (128, -64)]; []; [(64, 0); (128, -64); (128, 0)]]).
Proof. vm_compute. reflexivity. Qed.
